(* ===== verification/_CoqProject ===== *)
-Q . S2P
Prelude.v
Checksum.v
IpWire.v
Icmp.v
IcmpTheorems.v
TcpSeq.v
Congestion.v
TcpTcb.v
TcpInvariant.v
TcpHandlers.v
TcpTheorems.v
TcpExchange.v
Budget.v
Scheduler.v
SchedulerRound.v
Timer.v
TimerRefine.v
TcpWire.v
StateMonad.v
TimerInterface.v
Leases.v
ExpiryIndex.v
Pmtu.v
PmtuTheorems.v
IcmpPmtu.v
Fragmentation.v
FragmentTheorems.v
Reassembly.v
ReassemblyInv.v
ReassemblyOps.v
ReassemblyIngest.v
ReassemblyTheorems.v
FragmentTrain.v
FragmentRoundtrip.v
FragmentChain.v
FragmentRoundtrip6.v
Slab.v
SlabTheorems.v
Udp.v
UdpInv.v
UdpOps.v
UdpCalls.v
UdpTheorems.v
IpRanges.v
IpRangesTheorems.v
TcpFlow.v
TcpTable.v
TcpScoreboard.v
TcpSegment.v
Partial.v
TcpRecovery.v
TcpReceive.v
TcpReceiveInv.v
TcpReceiveFlow.v
TcpReport.v
TcpKeeps.v
TcpReceiveTable.v
TcpReceiveRead.v
TcpStream.v
TcpFinalAck.v
