(* ===== verification/Prelude.v ===== *)
(** * Sail: a verification of its user-space network stack

    Sail is a proxy core in Rust.  Its crate [sail-netstack] is a TCP/IP stack
    that runs in the process: it parses the packets of a TUN device, runs TCP
    against the applications behind it, fragments and reassembles, keeps path
    MTUs, and does so inside a fixed budget of memory.  This library models that
    stack and proves what makes it correct.  Paths below are under
    [src/sail-netstack/src].

    ** How the code is modelled

    Machine integers are [Z] with the wrap-around, saturation or check of the
    source written out ([wrap32], [wrap64], [uadd], [usub], [sat_add],
    [checked_add], ...); [usize] has 64 bits.  Bytes and packets are [list Z] with
    [bytes_ok].  A fallible function returns an [outcome]: [Ok], [Err] with the
    error type of the source, [Panic] for an assertion, an index out of range or a
    slice out of range, and [OutOfFuel] for a loop whose fuel ran out.  A method on
    a table that is borrowed mutably is a computation of the state and error monad
    [sm] of [StateMonad.v], so that what an early return leaves behind is visible;
    [wp] is its weakest precondition and excludes [Panic] and [OutOfFuel]; [wlp] of
    [Partial.v] speaks of the calls that return.  Hash
    maps are [gmap]s, ordered maps are sorted lists or [gmap]s with a sorted
    traversal.  The byte order of the host is a parameter [le] where the code
    depends on it.

    ** Parts, files and theorems

    - [Prelude.v]: integers, byte lists, outcomes, the tactics and hints.
    - [Checksum.v], [IpWire.v] ([wire.rs]): the checksum routines, the parsers of
      IPv4 and IPv6 with options and extension chains, UDP.  The wide checksum
      equals RFC 1071's word sum; parsing is total and returns well-formed packets;
      emitted datagrams parse back.
    - [TcpWire.v] ([tcp/wire.rs]): segments and options; emission and parsing round
      trip, parsing is total.
    - [TcpSeq.v], [Congestion.v] ([tcp/state.rs] sequence numbers,
      [tcp/congestion.rs], [tcp/rto.rs]): comparison across the wrap, invariants
      and growth of NewReno, range of the RTO.
    - [TcpTcb.v] (definitions of [tcp/state.rs]), [TcpInvariant.v],
      [TcpHandlers.v] (lemmas per handler), [TcpTheorems.v]: the invariant of every
      reachable control block, totality, the RFC 9293 state diagram, the accounting
      of the byte stream, windows, acknowledgments and resets.  [TcpExchange.v]
      runs two blocks against each other: handshake and close agree.
    - [Budget.v] ([buffer/budget.rs]): profiles, the ledger and its leases; no
      interleaving of threads overcommits a pool, and the sequential functions
      refine the atomic steps, results included.  [Leases.v] accounts a ledger to the leases held.
    - [Scheduler.v], [SchedulerRound.v] ([engine/scheduler.rs]): admission, the
      deficit round robin: limits, order, fairness, no starvation.
    - [Timer.v], [TimerRefine.v] ([timer.rs]): the hierarchical wheel refines a
      table of deadlines.  [TimerInterface.v] states that table as the class
      [TimerQueueLaws], with the wheel as instance; [ExpiryIndex.v] holds what
      tables that expire their entries share.
    - [Pmtu.v], [PmtuTheorems.v] ([ip/pmtu.rs]): the path-MTU table against the
      timer interface and the ledger: an invariant over every call sequence, the
      value and the life of a learned MTU, what errors leave.  The MTU of the
      interface is any; one narrower than a family's minimum bounds what is stored.
    - [Fragmentation.v], [FragmentTheorems.v] ([ip/fragmentation.rs]): source
      fragmentation; the pieces tile the payload and every IPv4 fragment parses.
    - [Reassembly.v] ([ip/reassembly.rs]) with [ReassemblyInv.v] (datagrams),
      [ReassemblyOps.v] (time and removal), [ReassemblyIngest.v] (a fragment),
      [ReassemblyTheorems.v] (every call sequence): disjoint pieces within bounds,
      one timer and one eviction key per datagram, no lease lost.
    - [FragmentTrain.v]: the fragments of one datagram in any order give
      the datagram back.
    - [FragmentRoundtrip.v], [FragmentRoundtrip6.v]: composition of
      [ip/fragmentation.rs] with [ip/reassembly.rs] for IPv4 and IPv6: what a packet
      is cut into, a reassembler with room gives back; for IPv6 if the first fragment
      has the whole chain of extension headers, and only then.  [FragmentChain.v] has
      the chains: the walks of parser, fragmentation and reassembly over them.
    - [Icmp.v], [IcmpTheorems.v] ([ip/icmp.rs]): parsing, echo replies and error
      messages: what is quoted, when an error is suppressed, and that no error this
      stack sends is answered by another.  [IcmpPmtu.v] composes it with
      [ip/pmtu.rs]: a reported MTU is learned by the sender.
    - [Slab.v], [SlabTheorems.v] ([buffer/slab.rs]): chains of segments over shared
      allocations with an explicit heap of reference counts, and the packet arena:
      a chain is a string of bytes, and an allocation is charged as long as a
      segment points to it.
    - [Udp.v] ([udp.rs], tokens of [api/types.rs]) with [UdpInv.v] (invariant,
      clock and touching a flow), [UdpOps.v] (pressure, clearing), [UdpCalls.v]
      (ingest, originate, reply on every path) and [UdpTheorems.v] (every call
      sequence): the session table over the timer interface, the slab heap and the
      ledger; replies reach the client while the flow lives, and a token is never
      revived.  A [SocketAddr] has the scope and flow information the flow keys
      compare; a packet carries neither ([bare]).
    - [IpRanges.v], [IpRangesTheorems.v] ([sail/src/platform/ip_ranges.rs]): sets of
      addresses as ranges, and that the prefixes a set is listed as are the fewest.
    - [TcpFlow.v], [TcpTable.v] ([tcp/table.rs]): the connection table, a control
      block, a receive queue, an out-of-order queue and a send queue per flow.
      [TcpFlow.v] has what works on one flow (trimming and admission of a segment,
      the out-of-order queue, the SACK scoreboard, PAWS, RTT probes, window growth),
      [TcpTable.v] the table (ingest, connect, accept, read, write, close, release,
      abort, every timer, TIME-WAIT, path MTU) over the control block, the wire
      format and the ledger.  The hashes that choose ports, sequence numbers and
      timestamp offsets and the order a hash map is walked in are arguments.
      [TcpScoreboard.v]: the one-pass scoreboard is RFC 6675 read chunk by chunk;
      [TcpRecovery.v]: the recovery it drives ends.
      [TcpSegment.v] says exactly what the control block takes of a segment.
      [TcpReceive.v], [TcpReceiveInv.v], [TcpReceiveFlow.v] and
      [TcpReceiveTable.v] follow the peer's stream through trimming, admission,
      the control block and promotion; [TcpReceiveRead.v] through a read;
      [TcpReport.v] through the SACK blocks and options of what is sent back;
      [TcpKeeps.v] shows that every other call leaves the stream alone.
      [TcpStream.v] puts them together: over any sequence of calls the bytes read
      are a prefix of what the peer sent, and the blocks reported are held.  Its
      hypotheses: the segments for the flow are its peer's, none further than 2^30
      from RCV.NXT, and the final ACK of the handshake neither overruns the
      announced window nor overlaps queued data ([clean_final_ack]), where the
      code differs from what it means to do: [TcpFinalAck.v] runs the two cases.

    ** Fuel

    Loops that are not structural take fuel computed from their input: the length
    of the options or of the payload plus one for walks that consume at least a
    byte a turn; the eight rounds of the source for extension chains; one turn more
    than there are datagrams for the eviction loop of the reassembler, which removes
    a datagram every turn but the last; the number of levels for the wheel.  The theorems
    show that it is enough.  SACK recovery takes three turns more than there are
    chunks to send, and marks a chunk every turn but one: [TcpRecovery.v] shows that
    more fuel changes nothing while the acknowledgment is not past the recovery
    point, which the call before it leaves so unless the two are exactly half the
    sequence space apart.

    ** Assumptions

    Clocks are below [2^64 - 1] and a table is called fewer than [2^64] times, so
    that timer ids and serials do not wrap.  Limits of a budget are in the range of
    [usize].  The tables are proved against [TimerQueueLaws] and instantiated with
    the wheel in the witnesses.  Side conditions of single theorems are in their
    comments; where the code fails without one, a run shows it: [TcpFinalAck.v],
    [FragmentRoundtrip6.cut_header_refused], [UdpTheorems.scoped_remote_loses_token],
    [PmtuTheorems.narrow_interface_mtu_remains].

    ** Not modelled

    The engine ([engine/shard.rs],
    [engine/single_shard.rs], [engine/sharded_io.rs]) and the API types drive the
    components above through channels, wakers and threads.  The crate [sail] around
    the stack (protocols, transports, DNS, routing, configuration, platform code) is
    asynchronous I/O over third-party crates; plain accessors, [Display] texts,
    counters and traces are left out throughout.  The theorems of the
    connection table speak of calls that return; that none of its lease
    assertions fails is shown of the UDP table, the path-MTU table and the
    reassembler, not of it. *)
From stdpp Require Export base tactics list numbers.
From Stdlib Require Export ZArith Lia.

#[global] Open Scope Z_scope.

(** ** Machine integers

    Every unsigned integer of the source is a [Z] kept in range; [usize] is
    64 bits wide.  [wrapN] is what a release build does on overflow and what
    the [wrapping_*] methods do. *)
Definition u8_max : Z := 255.
Definition u16_max : Z := 65535.
Definition u32_max : Z := 4294967295.
Definition u64_max : Z := 18446744073709551615.
Definition usize_max : Z := u64_max.

Definition wrap16 (x : Z) : Z := x mod 65536.
Definition wrap32 (x : Z) : Z := x mod 4294967296.
Definition wrap64 (x : Z) : Z := x mod 18446744073709551616.

Definition is_u8 (x : Z) : Prop := 0 <= x <= 255.
Definition is_u16 (x : Z) : Prop := 0 <= x <= 65535.
Definition is_u32 (x : Z) : Prop := 0 <= x <= 4294967295.
Definition is_u64 (x : Z) : Prop := 0 <= x <= 18446744073709551615.

(** [saturating_add], [saturating_sub] and [saturating_mul] on 64 bits. *)
Definition sat_add (a b : Z) : Z := Z.min (a + b) u64_max.
Definition sat_sub (a b : Z) : Z := Z.max (a - b) 0.
Definition sat_mul (a b : Z) : Z := Z.min (a * b) u64_max.

(** Unsigned 64-bit addition and subtraction as written with [+] and [-]. *)
Definition uadd (a b : Z) : Z := wrap64 (a + b).
Definition usub (a b : Z) : Z := wrap64 (a - b).
(** [usize::from(bool)]. *)
Definition b2z (b : bool) : Z := if b then 1 else 0.

(** [checked_add], [checked_mul] and [checked_sub] on 64 bits. *)
Definition checked_add (a b : Z) : option Z :=
  if a + b <=? u64_max then Some (a + b) else None.
Definition checked_mul (a b : Z) : option Z :=
  if a * b <=? u64_max then Some (a * b) else None.
Definition checked_sub (a b : Z) : option Z :=
  if b <=? a then Some (a - b) else None.

(** [u64::div_ceil]. *)
Definition div_ceil (a b : Z) : Z := (a + b - 1) / b.

(** [u16::try_from] and [u32::try_from] of a non-negative integer. *)
Definition try_u8 (x : Z) : option Z := if x <=? u8_max then Some x else None.
Definition try_u16 (x : Z) : option Z := if x <=? u16_max then Some x else None.
Definition try_u32 (x : Z) : option Z := if x <=? u32_max then Some x else None.

(** Unfolds the width definitions so that [lia] sees their values. *)
Ltac width_unfold :=
  unfold is_u8, is_u16, is_u32, is_u64, sat_add, sat_sub, sat_mul,
    usize_max, u8_max, u16_max, u32_max, u64_max in *.
Ltac width := width_unfold; lia.

(** ** Outcomes of fallible code

    [Ok] and [Err] are Rust's [Result]; [Panic] is an index out of range, a
    failed [expect] or an [unreachable!]; [OutOfFuel] is a loop cut by the
    model's own iteration bound, which the theorems exclude. *)
Inductive outcome (E A : Type) : Type :=
| Ok (a : A)
| Err (e : E)
| Panic
| OutOfFuel.
Arguments Ok {E A} a.
Arguments Err {E A} e.
Arguments Panic {E A}.
Arguments OutOfFuel {E A}.

#[export] Instance outcome_ret {E} : MRet (outcome E) := fun _ a => Ok a.
#[export] Instance outcome_bind {E} : MBind (outcome E) := fun _ _ f m =>
  match m with
  | Ok a => f a
  | Err e => Err e
  | Panic => Panic
  | OutOfFuel => OutOfFuel
  end.
#[export] Instance outcome_fmap {E} : FMap (outcome E) := fun _ _ f m =>
  match m with
  | Ok a => Ok (f a)
  | Err e => Err e
  | Panic => Panic
  | OutOfFuel => OutOfFuel
  end.

(** [Option::ok_or] and [Option::expect]. *)
Definition ok_or {E A} (o : option A) (e : E) : outcome E A :=
  match o with Some a => Ok a | None => Err e end.
Definition expect {E A} (o : option A) : outcome E A :=
  match o with Some a => Ok a | None => Panic end.

(** [runs m Q]: [m] neither panics nor runs out of fuel, and a value it
    returns satisfies [Q]; an error is a legitimate result. *)
Definition runs {E A} (m : outcome E A) (Q : A -> Prop) : Prop :=
  match m with
  | Ok a => Q a
  | Err _ => True
  | Panic => False
  | OutOfFuel => False
  end.

Lemma runs_mono {E A} (m : outcome E A) (P Q : A -> Prop) :
  runs m P -> (forall a, P a -> Q a) -> runs m Q.
Proof. destruct m; simpl; auto. Qed.

Lemma runs_bind {E A B} (m : outcome E A) (f : A -> outcome E B) Q :
  runs m (fun a => runs (f a) Q) -> runs (m ≫= f) Q.
Proof. destruct m; simpl; auto. Qed.

Lemma runs_ok_or {E A} (o : option A) (e : E) (Q : A -> Prop) :
  (forall a, o = Some a -> Q a) -> runs (ok_or o e) Q.
Proof. destruct o; simpl; auto. Qed.

Lemma runs_not_panic {E A} (m : outcome E A) Q : runs m Q -> m <> Panic /\ m <> OutOfFuel.
Proof. destruct m; simpl; split; congruence || tauto. Qed.

Lemma runs_ok {E A} (m : outcome E A) Q a : runs m Q -> m = Ok a -> Q a.
Proof. intros H ->. exact H. Qed.

(** ** Byte slices

    A slice is a [list Z] of bytes.  [idx], [slice] and [write_at] are the
    source's [s[i]], [s[a..b]] and [s[a..b].copy_from_slice(..)] and panic
    where Rust does; [get] is [s.get(i)]. *)
Definition bytes_ok (l : list Z) : Prop := Forall is_u8 l.

Definition len {A} (l : list A) : Z := Z.of_nat (length l).

Definition get {A} (l : list A) (i : Z) : option A :=
  if 0 <=? i then l !! Z.to_nat i else None.
Definition idx {E A} (l : list A) (i : Z) : outcome E A := expect (get l i).
Definition sub {A} (l : list A) (a b : Z) : list A :=
  take (Z.to_nat (b - a)) (drop (Z.to_nat a) l).
Definition slice {E A} (l : list A) (a b : Z) : outcome E (list A) :=
  if (0 <=? a) && (a <=? b) && (b <=? len l) then Ok (sub l a b) else Panic.
Definition slice_from {E A} (l : list A) (a : Z) : outcome E (list A) :=
  slice l a (len l).
Definition write_at {E A} (l : list A) (a : Z) (bs : list A) : outcome E (list A) :=
  if (0 <=? a) && (a + len bs <=? len l)
  then Ok (take (Z.to_nat a) l ++ bs ++ drop (Z.to_nat (a + len bs)) l)
  else Panic.
(** [vec![0; n]]. *)
Definition zeros (n : Z) : list Z := replicate (Z.to_nat n) 0.

(** Big-endian integers, [from_be_bytes] and [to_be_bytes]. *)
Definition be16 (hi lo : Z) : Z := 256 * hi + lo.
Definition be32 (a b c d : Z) : Z := 16777216 * a + 65536 * b + 256 * c + d.
Definition to_be16 (x : Z) : list Z := [x / 256; x mod 256].
Definition to_be32 (x : Z) : list Z :=
  [x / 16777216; x / 65536 mod 256; x / 256 mod 256; x mod 256].

Definition idx_be16 {E} (l : list Z) (i : Z) : outcome E Z :=
  hi ← idx l i; lo ← idx l (i + 1); mret (be16 hi lo).
Definition idx_be32 {E} (l : list Z) (i : Z) : outcome E Z :=
  a ← idx l i; b ← idx l (i + 1); c ← idx l (i + 2); d ← idx l (i + 3);
  mret (be32 a b c d).

(** [iter().any(|b| b != 0)]. *)
Definition any_nonzero (l : list Z) : bool := existsb (fun b => negb (b =? 0)) l.

Lemma len_nonneg {A} (l : list A) : 0 <= len l.
Proof. unfold len. lia. Qed.

Lemma len_nil {A} : len (@nil A) = 0.
Proof. reflexivity. Qed.

Lemma len_cons {A} (x : A) l : len (x :: l) = 1 + len l.
Proof. unfold len. simpl. lia. Qed.

Lemma len_singleton {A} (x : A) : len [x] = 1.
Proof. done. Qed.

Lemma len_app {A} (l k : list A) : len (l ++ k) = len l + len k.
Proof. unfold len. rewrite length_app. lia. Qed.

Lemma len_fmap {A B} (f : A -> B) (l : list A) : len (f <$> l) = len l.
Proof. unfold len. by rewrite length_fmap. Qed.

Lemma len_take {A} n (l : list A) : len (take (Z.to_nat n) l) = Z.min (Z.max 0 n) (len l).
Proof. unfold len. rewrite length_take. lia. Qed.

Lemma len_drop {A} n (l : list A) :
  0 <= n -> len (drop (Z.to_nat n) l) = Z.max 0 (len l - n).
Proof. intros H. unfold len. rewrite length_drop. lia. Qed.

Lemma len_sub {A} (l : list A) a b : 0 <= a <= b -> b <= len l -> len (sub l a b) = b - a.
Proof. intros. unfold sub. rewrite len_take, len_drop by lia. lia. Qed.

Lemma sub_suffix {A} (l : list A) a b c :
  0 <= a <= b -> b <= c -> sub l b c `suffix_of` sub l a c.
Proof.
  intros Ha Hb. exists (take (Z.to_nat (b - a)) (sub l a c)). unfold sub.
  replace (drop (Z.to_nat b) l) with (drop (Z.to_nat (b - a)) (drop (Z.to_nat a) l))
    by (rewrite drop_drop; f_equal; lia).
  rewrite (take_drop_commute (drop (Z.to_nat a) l) (Z.to_nat (c - b)) (Z.to_nat (b - a))).
  replace (Z.to_nat (b - a) + Z.to_nat (c - b))%nat with (Z.to_nat (c - a)) by lia.
  by rewrite take_drop.
Qed.

Lemma sub_sub {A} (l : list A) a b c d :
  0 <= a -> 0 <= c <= d -> d <= b - a -> sub (sub l a b) c d = sub l (a + c) (a + d).
Proof.
  intros Ha Hc Hd. unfold sub.
  replace (Z.to_nat (b - a)) with (Z.to_nat c + Z.to_nat (b - a - c))%nat by lia.
  rewrite <- take_drop_commute, take_take, drop_drop. f_equal; [lia|]. f_equal. lia.
Qed.

Lemma len_zeros n : 0 <= n -> len (zeros n) = n.
Proof. intros H. unfold len, zeros. rewrite length_replicate. lia. Qed.

Lemma len_to_be16 x : len (to_be16 x) = 2.
Proof. reflexivity. Qed.

Lemma len_to_be32 x : len (to_be32 x) = 4.
Proof. reflexivity. Qed.

Create Rewrite HintDb lens.
#[export] Hint Rewrite @len_nil @len_cons @len_app len_to_be16 len_to_be32 : lens.

Lemma get_Some {A} (l : list A) i :
  0 <= i < len l -> exists x, get l i = Some x /\ x ∈ l.
Proof.
  intros H. unfold get, len in *. replace (0 <=? i) with true by lia.
  destruct (lookup_lt_is_Some_2 l (Z.to_nat i)) as [x Hx]; [lia|].
  exists x. split; [done|]. eapply list_elem_of_lookup_2; eauto.
Qed.

Lemma get_inv {A} (l : list A) i x : get l i = Some x -> 0 <= i < len l /\ x ∈ l.
Proof.
  unfold get, len. destruct (Z.leb_spec 0 i); [|done].
  intros Hx. split; [|eapply list_elem_of_lookup_2; eauto].
  apply lookup_lt_Some in Hx. lia.
Qed.

Lemma get_app_l {A} (l k : list A) i : i < len l -> get (l ++ k) i = get l i.
Proof.
  intros H. unfold get, len in *. destruct (Z.leb_spec 0 i); [|done].
  apply lookup_app_l. lia.
Qed.

Lemma get_app_r {A} (l k : list A) i :
  len l <= i -> get (l ++ k) i = get k (i - len l).
Proof.
  intros H. unfold get, len in *.
  replace (0 <=? i) with true by lia. replace (0 <=? i - Z.of_nat (length l)) with true by lia.
  rewrite lookup_app_r by lia. f_equal. lia.
Qed.

Lemma bytes_ok_elem l x : bytes_ok l -> x ∈ l -> is_u8 x.
Proof. intros H. revert x. by apply list.Forall_forall. Qed.

Lemma runs_idx {E} (l : list Z) i (Q : Z -> Prop) :
  0 <= i < len l -> (forall x, get l i = Some x -> x ∈ l -> Q x) -> runs (E := E) (idx l i) Q.
Proof.
  intros H HQ. destruct (get_Some l i H) as (x & Hx & Hin).
  unfold idx. rewrite Hx. simpl. auto.
Qed.

Lemma runs_slice {E A} (l : list A) a b (Q : list A -> Prop) :
  0 <= a <= b -> b <= len l ->
  (forall s, s = sub l a b -> len s = b - a -> Q s) ->
  runs (E := E) (slice l a b) Q.
Proof.
  intros Ha Hb HQ. unfold slice.
  replace ((0 <=? a) && (a <=? b) && (b <=? len l)) with true by lia.
  simpl. apply HQ; [done|]. by apply len_sub.
Qed.

Lemma be16_range hi lo : is_u8 hi -> is_u8 lo -> is_u16 (be16 hi lo).
Proof. unfold be16. width. Qed.

Lemma be32_range a b c d :
  is_u8 a -> is_u8 b -> is_u8 c -> is_u8 d -> is_u32 (be32 a b c d).
Proof. unfold be32. width. Qed.

Lemma be16_to_be16 x : be16 (x / 256) (x mod 256) = x.
Proof. unfold be16. pose proof (Z.div_mod x 256). lia. Qed.

Lemma be32_to_be32 x :
  be32 (x / 16777216) (x / 65536 mod 256) (x / 256 mod 256) (x mod 256) = x.
Proof. unfold be32. Z.div_mod_to_equations. lia. Qed.

Lemma to_be16_ok x : is_u16 x -> bytes_ok (to_be16 x).
Proof.
  intros H. unfold to_be16. repeat constructor; width_unfold; Z.div_mod_to_equations; lia.
Qed.

Lemma to_be32_ok x : is_u32 x -> bytes_ok (to_be32 x).
Proof.
  intros H. unfold to_be32. repeat constructor; width_unfold; Z.div_mod_to_equations; lia.
Qed.

Lemma bytes_ok_app l k : bytes_ok (l ++ k) <-> bytes_ok l /\ bytes_ok k.
Proof. apply Forall_app. Qed.

Lemma bytes_ok_cons x l : bytes_ok (x :: l) <-> is_u8 x /\ bytes_ok l.
Proof. apply list.Forall_cons. Qed.

Lemma bytes_ok_take n l : bytes_ok l -> bytes_ok (take n l).
Proof. apply Forall_take. Qed.

Lemma bytes_ok_drop n l : bytes_ok l -> bytes_ok (drop n l).
Proof. apply Forall_drop. Qed.

Lemma bytes_ok_zeros n : bytes_ok (zeros n).
Proof. apply Forall_replicate. width. Qed.

Create HintDb bytes discriminated.
#[export] Hint Resolve bytes_ok_take bytes_ok_drop bytes_ok_zeros to_be16_ok to_be32_ok
  be16_range be32_range : bytes.

(** Induction on a list two or four elements at a time, as [as_chunks] reads it. *)
Lemma list_pair_ind {A} (P : list A -> Prop) :
  P [] -> (forall a, P [a]) -> (forall a b l, P l -> P (a :: b :: l)) -> forall l, P l.
Proof.
  intros H0 H1 H2. fix IH 1. intros [|a [|b l]]; [exact H0|exact (H1 a)|].
  exact (H2 a b l (IH l)).
Qed.

Lemma list_quad_ind {A} (P : list A -> Prop) :
  (forall l, (length l < 4)%nat -> P l) ->
  (forall a b c d l, P l -> P (a :: b :: c :: d :: l)) -> forall l, P l.
Proof.
  intros H0 H4. fix IH 1.
  intros [|a [|b [|c [|d l]]]]; try (apply H0; simpl; lia). exact (H4 a b c d l (IH l)).
Qed.

(** Splits a boolean test of the goal and turns it into a fact [lia] reads. *)
Ltac case_bool :=
  match goal with
  | |- context [if ?b then _ else _] =>
      lazymatch b with
      | ?x =? ?y => destruct (Z.eqb_spec x y)
      | ?x <=? ?y => destruct (Z.leb_spec x y)
      | ?x <? ?y => destruct (Z.ltb_spec x y)
      | _ => let H := fresh "Hif" in destruct b eqn:H
      end
  end.

Lemma runs_if {E A} (b : bool) (m n : outcome E A) Q :
  (b = true -> runs m Q) -> (b = false -> runs n Q) -> runs (if b then m else n) Q.
Proof. destruct b; auto. Qed.

Lemma runs_idx_u8 {E} (l : list Z) i (Q : Z -> Prop) :
  bytes_ok l -> 0 <= i < len l -> (forall x, is_u8 x -> Q x) -> runs (E := E) (idx l i) Q.
Proof. intros Hl H HQ. apply runs_idx; [done|]. eauto using bytes_ok_elem. Qed.

Lemma runs_idx_be16 {E} (l : list Z) i (Q : Z -> Prop) :
  bytes_ok l -> 0 <= i -> i + 1 < len l -> (forall x, is_u16 x -> Q x) -> runs (E := E) (idx_be16 l i) Q.
Proof.
  intros Hl H0 H HQ. unfold idx_be16.
  do 2 (apply runs_bind, runs_idx_u8; [done|lia|intros]). apply HQ. auto with bytes.
Qed.

Lemma runs_idx_be32 {E} (l : list Z) i (Q : Z -> Prop) :
  bytes_ok l -> 0 <= i -> i + 3 < len l -> (forall x, is_u32 x -> Q x) -> runs (E := E) (idx_be32 l i) Q.
Proof.
  intros Hl H0 H HQ. unfold idx_be32.
  do 4 (apply runs_bind, runs_idx_u8; [done|lia|intros]). apply HQ. auto with bytes.
Qed.

Lemma runs_slice_bytes {E} (l : list Z) a b (Q : list Z -> Prop) :
  bytes_ok l -> 0 <= a <= b -> b <= len l ->
  (forall s, s = sub l a b -> bytes_ok s -> len s = b - a -> Q s) ->
  runs (E := E) (slice l a b) Q.
Proof.
  intros Hl Ha Hb HQ. apply runs_slice; [done|done|]. intros s Hs Hn.
  apply HQ; [done| |done]. subst. unfold sub. auto with bytes.
Qed.

Lemma checked_add_Some a b c : checked_add a b = Some c -> c = a + b /\ c <= u64_max.
Proof. unfold checked_add. case_bool; intros; simplify_eq; done. Qed.

Lemma try_u16_Some x y : try_u16 x = Some y -> y = x /\ x <= u16_max.
Proof. unfold try_u16. case_bool; intros; simplify_eq; done. Qed.

Lemma try_u32_Some x y : try_u32 x = Some y -> y = x /\ x <= u32_max.
Proof. unfold try_u32. case_bool; intros; simplify_eq; done. Qed.

(** One step of a [runs] proof: the shape of the program decides it; the
    side conditions are the bounds of indices and slices, left to [lia]. *)
Ltac runs_step :=
  lazymatch goal with
  | |- runs (_ ≫= _) _ => apply runs_bind
  | |- runs (mret _) _ => cbn [runs mret outcome_ret]
  | |- runs (Ok _) _ => cbn [runs]
  | |- runs (Err _) _ => exact I
  | |- runs (if ?b then _ else _) _ => apply runs_if; intros
  | |- runs (ok_or _ _) _ => apply runs_ok_or; intros
  | |- runs (idx _ _) _ => apply runs_idx_u8; [done|autorewrite with lens; width|intros]
  | |- runs (idx_be16 _ _) _ => apply runs_idx_be16; [done|width|width|intros]
  | |- runs (idx_be32 _ _) _ => apply runs_idx_be32; [done|width|width|intros]
  | |- runs (slice _ _ _) _ => apply runs_slice_bytes; [done|width|width|intros]
  | |- runs (slice_from _ _) _ => unfold slice_from
  end.

(** ** Writing into a buffer made of known parts *)
Lemma write_at_app_l {E A} (h t : list A) a bs :
  a + len bs <= len h ->
  write_at (E := E) (h ++ t) a bs = (h' ← write_at h a bs; Ok (h' ++ t)).
Proof.
  intros H. unfold write_at. rewrite len_app. pose proof (len_nonneg t). pose proof (len_nonneg bs).
  destruct (Z.leb_spec 0 a); [|done]. cbn [andb].
  replace (a + len bs <=? len h + len t) with true by lia.
  replace (a + len bs <=? len h) with true by lia. cbn [mbind outcome_bind].
  unfold len in *. rewrite take_app_le, drop_app_le by lia. by rewrite <- !(assoc_L (++)).
Qed.

Lemma write_at_app_r {E A} (h t : list A) a bs :
  len h <= a ->
  write_at (E := E) (h ++ t) a bs = (t' ← write_at t (a - len h) bs; Ok (h ++ t')).
Proof.
  intros H. unfold write_at. rewrite len_app. pose proof (len_nonneg h). pose proof (len_nonneg bs).
  replace (0 <=? a) with true by lia. replace (0 <=? a - len h) with true by lia. cbn [andb].
  replace (a - len h + len bs <=? len t) with (a + len bs <=? len h + len t) by lia.
  case_bool; [|done]. cbn [mbind outcome_bind].
  unfold len in *. rewrite take_app_ge, drop_app_ge by lia. rewrite <- (assoc_L (++)).
  replace (Z.to_nat a - length h)%nat with (Z.to_nat (a - Z.of_nat (length h))) by lia.
  replace (Z.to_nat (a + Z.of_nat (length bs)) - length h)%nat
    with (Z.to_nat (a - Z.of_nat (length h) + Z.of_nat (length bs))) by lia.
  done.
Qed.

Lemma write_at_all {E A} (t bs : list A) :
  len t = len bs -> write_at (E := E) t 0 bs = Ok bs.
Proof.
  intros H. unfold write_at. replace ((0 <=? 0) && (0 + len bs <=? len t)) with true by lia.
  change (Z.to_nat 0) with O. unfold len in *.
  rewrite drop_ge by lia. rewrite take_0. by rewrite app_nil_r.
Qed.

Lemma zeros_app a b : 0 <= a -> 0 <= b -> zeros (a + b) = zeros a ++ zeros b.
Proof. intros. unfold zeros. rewrite Z2Nat.inj_add by lia. apply replicate_add. Qed.

Lemma slice_Ok {E A} (l : list A) a b :
  0 <= a <= b -> b <= len l -> slice (E := E) l a b = Ok (sub l a b).
Proof. intros. unfold slice. by replace (_ && _) with true by lia. Qed.

Lemma sub_app_l {A} (h t : list A) k : k = len h -> sub (h ++ t) 0 k = h.
Proof. intros ->. unfold sub, len. rewrite Z.sub_0_r, Nat2Z.id. apply take_app_length. Qed.

Lemma sub_app_r {A} (h t : list A) a b :
  a = len h -> a <= b -> sub (h ++ t) a b = sub t 0 (b - a).
Proof.
  intros -> ?. unfold sub, len in *. rewrite Nat2Z.id, Z.sub_0_r. by rewrite drop_app_length.
Qed.

Lemma sub_all {A} (l : list A) : sub l 0 (len l) = l.
Proof. unfold sub, len. rewrite Z.sub_0_r, Nat2Z.id. apply take_ge. cbn. lia. Qed.

Lemma sub_app_tail {A} (h t : list A) a b :
  a = len h -> b = len h + len t -> sub (h ++ t) a b = t.
Proof.
  intros Ha Hb. pose proof (len_nonneg t). rewrite sub_app_r by lia.
  replace (b - a) with (len t) by lia. apply sub_all.
Qed.

(** Decides the test of the leading [if] by arithmetic. *)
Ltac decide_if :=
  match goal with
  | |- context [if ?b then _ else _] =>
      first [ replace b with false by (autorewrite with lens; width)
            | replace b with true by (autorewrite with lens; width) ]
  end.

(** ** Sums over lists *)
Definition zsum {A} (f : A -> Z) (l : list A) : Z := foldr (fun x acc => f x + acc) 0 l.
Arguments zsum : simpl never.

Lemma zsum_app {A} (f : A -> Z) l k : zsum f (l ++ k) = zsum f l + zsum f k.
Proof. induction l as [|x l IH]; [done|]. unfold zsum in *. cbn. rewrite IH. lia. Qed.

Lemma zsum_cons {A} (f : A -> Z) x l : zsum f (x :: l) = f x + zsum f l.
Proof. done. Qed.

Lemma zsum_nil {A} (f : A -> Z) : zsum f [] = 0.
Proof. done. Qed.

Lemma zsum_singleton {A} (f : A -> Z) x : zsum f [x] = f x.
Proof. unfold zsum. simpl. lia. Qed.

Lemma zsum_nonneg {A} (f : A -> Z) l : Forall (fun x => 0 <= f x) l -> 0 <= zsum f l.
Proof. induction 1 as [|x l Hx _ IH]; [done|]. unfold zsum in *. cbn. lia. Qed.

Lemma zsum_insert {A} (f : A -> Z) (l : list A) i x y :
  l !! i = Some x -> zsum f (<[i := y]> l) = zsum f l - f x + f y.
Proof.
  revert i. induction l as [|z l IH]; intros [|i] H; try done.
  - injection H as ->. change (<[0%nat := y]> (x :: l)) with (y :: l). rewrite !zsum_cons. lia.
  - change (<[S i := y]> (z :: l)) with (z :: <[i := y]> l). rewrite !zsum_cons, (IH i H). lia.
Qed.

Lemma zsum_lookup_le {A} (f : A -> Z) (l : list A) i x :
  Forall (fun x => 0 <= f x) l -> l !! i = Some x -> f x <= zsum f l.
Proof.
  intros H. revert i. induction H as [|z l Hz H IH]; intros [|i] E; try done; rewrite zsum_cons.
  - injection E as ->. pose proof (zsum_nonneg f l H). lia.
  - specialize (IH i E). lia.
Qed.

Lemma wrap64_small x : 0 <= x <= u64_max -> wrap64 x = x.
Proof. intros H. unfold wrap64, u64_max in *. apply Z.mod_small. lia. Qed.

Lemma uadd_small a b : 0 <= a + b <= u64_max -> uadd a b = a + b.
Proof. apply wrap64_small. Qed.
Lemma usub_small a b : 0 <= a - b <= u64_max -> usub a b = a - b.
Proof. apply wrap64_small. Qed.

(** ** Back from a result to the steps that gave it *)
Lemma bind_Ok {E A B} (m : outcome E A) (f : A -> outcome E B) b :
  m ≫= f = Ok b -> exists a, m = Ok a /\ f a = Ok b.
Proof. destruct m; simpl; try discriminate. eauto. Qed.

(** One step back through a computation that returned a value. *)
Ltac ok_step H :=
  lazymatch type of H with
  | _ ≫= _ = Ok _ => let x := fresh "x" in let Hx := fresh "Hx" in apply bind_Ok in H as (x & Hx & H)
  | (if ?b then _ else _) = Ok _ => let Hb := fresh "Hb" in destruct b eqn:Hb
  | Err _ = Ok _ => discriminate H
  | Panic = Ok _ => discriminate H
  | mret _ = Ok _ => injection H as H
  end.

Lemma slice_inv {E A} (l : list A) a b s : slice (E := E) l a b = Ok s -> s = sub l a b /\ 0 <= a <= b /\ b <= len l.
Proof.
  unfold slice. destruct ((0 <=? a) && (a <=? b) && (b <=? len l)) eqn:E1; [|done]. intros [= <-]. split; [done|lia].
Qed.

Lemma idx_inv {E A} (l : list A) i x : idx (E := E) l i = Ok x -> get l i = Some x.
Proof. unfold idx. destruct (get l i); [|done]. by intros [= ->]. Qed.

Lemma idx_get {E A} (l : list A) i x : get l i = Some x -> idx (E := E) l i = Ok x.
Proof. unfold idx. by intros ->. Qed.

Lemma get_ext {A} (l k : list A) : len l = len k -> (forall i, 0 <= i < len l -> get l i = get k i) -> l = k.
Proof.
  intros Hl Hg. unfold len in Hl. apply list_eq_same_length with (length l); [lia|done|].
  intros i x y Hi Hx Hy. specialize (Hg (Z.of_nat i)). unfold get, len in *. rewrite (proj2 (Z.leb_le _ _)), Nat2Z.id in Hg by lia.
  rewrite Hx, Hy in Hg. injection Hg; [done|lia].
Qed.

Lemma get_sub {A} (l : list A) a b i : 0 <= a -> 0 <= i < b - a -> get (sub l a b) i = get l (a + i).
Proof.
  intros Ha Hi. unfold get, sub. rewrite !(proj2 (Z.leb_le 0 _)) by lia.
  rewrite lookup_take_lt, lookup_drop by lia. f_equal. lia.
Qed.

Lemma get_write {E A} (l l' bs : list A) a i : write_at (E := E) l a bs = Ok l' ->
  len l' = len l /\ get l' i = if (a <=? i) && (i <? a + len bs) then get bs (i - a) else get l i.
Proof.
  unfold write_at. destruct (Z.leb_spec 0 a), (Z.leb_spec (a + len bs) (len l)); intros [= <-]; cbn [andb].
  pose proof (len_nonneg bs) as Hb.
  assert (len (take (Z.to_nat a) l) = a) as Lt by (rewrite len_take; lia).
  split; [rewrite !len_app, Lt, len_drop by lia; lia|].
  destruct (Z.leb_spec a i), (Z.ltb_spec i (a + len bs)); cbn [andb].
  - rewrite get_app_r, Lt, get_app_l by lia. done.
  - rewrite !get_app_r, Lt by lia. unfold get. destruct (Z.leb_spec 0 (i - a - len bs)), (Z.leb_spec 0 i); try lia.
    rewrite lookup_drop. f_equal. lia.
  - rewrite get_app_l by lia. unfold get. destruct (Z.leb_spec 0 i); [|done]. rewrite lookup_take_lt by lia. done.
  - lia.
Qed.

Lemma write_runs {E A} (l bs : list A) a : 0 <= a -> a + len bs <= len l -> exists l', write_at (E := E) l a bs = Ok l'.
Proof. intros H1 H2. unfold write_at. rewrite (proj2 (Z.leb_le 0 a) H1), (proj2 (Z.leb_le _ _) H2). by eexists. Qed.

(** The error type of a read is the caller's. *)
Lemma idx_be16_at {E E'} (l k : list Z) i j n : (forall d, 0 <= d < 2 -> get l (i + d) = get k (j + d)) ->
  idx_be16 (E := E) k j = Ok n -> idx_be16 (E := E') l i = Ok n.
Proof.
  intros G H. unfold idx_be16 in *. ok_step H. ok_step H. ok_step H. subst n. apply idx_inv in Hx, Hx0.
  pose proof (G 0 ltac:(lia)) as G0. rewrite !Z.add_0_r in G0. rewrite <- G0 in Hx. rewrite <- (G 1 ltac:(lia)) in Hx0.
  by rewrite (idx_get _ _ _ Hx), (idx_get _ _ _ Hx0).
Qed.
