(* ===== verification/Checksum.v ===== *)
(** The Internet checksum of [sail-netstack/src/wire.rs].

    [checksum_accumulate] adds four bytes at a time in the machine's byte
    order into 64 bits and swaps the folded result; the byte order is the
    argument [le] here, so that both targets are covered.  [reference] is the
    word-by-word sum of RFC 1071 the source's own tests compare it with. *)
From S2P Require Import Prelude.

(** ** The code *)

(** [while sum >> 16 != 0 { sum = (sum & 0xffff) + (sum >> 16) }]. *)
Fixpoint fold_loop {E} (fuel : nat) (sum : Z) : outcome E Z :=
  if Z.shiftr sum 16 =? 0 then Ok sum
  else match fuel with
       | O => OutOfFuel
       | S fuel => fold_loop fuel (Z.land sum 0xffff + Z.shiftr sum 16)
       end.

Definition fold_wide_checksum {E} (sum : Z) : outcome E Z :=
  sum ← fold_loop 5 sum; expect (try_u16 sum).
Definition fold_checksum {E} (sum : Z) : outcome E Z :=
  sum ← fold_loop 3 sum; expect (try_u16 sum).

(** [u32::from_ne_bytes], by the target's endianness. *)
Definition ne32 (le : bool) (a b c d : Z) : Z :=
  if le then be32 d c b a else be32 a b c d.

(** The loop over [bytes.as_chunks::<4>()]: the wide sum and the rest. *)
Fixpoint sum_words (le : bool) (wide : Z) (bytes : list Z) : Z * list Z :=
  match bytes with
  | a :: b :: c :: d :: rest => sum_words le (wrap64 (wide + ne32 le a b c d)) rest
  | rest => (wide, rest)
  end.

(** The loop over [rest.as_chunks::<2>()]. *)
Fixpoint sum_pairs (sum : Z) (bytes : list Z) : Z * list Z :=
  match bytes with
  | a :: b :: rest => sum_pairs (wrap32 (sum + be16 a b)) rest
  | rest => (sum, rest)
  end.

(** The pairs of [rest], then its odd byte as a high half. *)
Definition sum_rest (sum : Z) (rest : list Z) : Z :=
  let '(sum, odd) := sum_pairs sum rest in
  match odd with
  | byte :: _ => wrap32 (sum + Z.shiftl byte 8)
  | [] => sum
  end.

Definition swap_bytes16 (x : Z) : Z := be16 (x mod 256) (x / 256).

Definition checksum_accumulate {E} (le : bool) (bytes : list Z) (sum : Z) : outcome E Z :=
  let '(wide, rest) := sum_words le 0 bytes in
  folded ← fold_wide_checksum wide;
  let folded := if le then swap_bytes16 folded else folded in
  start ← fold_wide_checksum sum;
  mret (sum_rest (wrap32 (start + folded)) rest).

Definition checksum_sum {E} (le : bool) (bytes : list Z) (initial : Z) : outcome E Z :=
  sum ← checksum_accumulate le bytes initial; fold_checksum sum.

(** [!sum] on 16 bits. *)
Definition finalize_checksum (sum : Z) : Z := 65535 - sum.

(** RFC 1071 one word at a time, as the source's test has it. *)
Fixpoint add_words (sum : Z) (bytes : list Z) : Z :=
  match bytes with
  | a :: b :: rest => add_words (wrap64 (sum + be16 a b)) rest
  | [a] => wrap64 (sum + be16 a 0)
  | [] => sum
  end.
Definition reference {E} (bytes : list Z) (initial : Z) : outcome E Z :=
  sum ← fold_loop 5 (add_words initial bytes); expect (try_u16 sum).

(** The loop of [ipv4_header_checksum] in [tcp/wire.rs] and of [ipv4_checksum]
    in [ip/reassembly.rs]: whole words only, in 32 bits. *)
Definition header_checksum {E} (header : list Z) : outcome E Z :=
  let '(sum, _) := sum_pairs 0 header in
  sum ← fold_loop 3 sum;
  mret (finalize_checksum (default u16_max (try_u16 sum))).

(** ** One's-complement arithmetic

    [ones x] is the value every folding loop computes: the representative of
    [x] modulo 65535 in [1, 65535], and zero for zero only. *)
Definition ones (x : Z) : Z := if x =? 0 then 0 else (x - 1) mod 65535 + 1.

(** The sum of the big-endian words of [l], an odd last byte padded. *)
Fixpoint word_sum (l : list Z) : Z :=
  match l with
  | a :: b :: rest => be16 a b + word_sum rest
  | [a] => 256 * a
  | [] => 0
  end.

Lemma ones_range x : 0 <= x -> is_u16 (ones x).
Proof.
  intros H. unfold ones. destruct (Z.eqb_spec x 0); [width|].
  pose proof (Z.mod_pos_bound (x - 1) 65535). width.
Qed.

Lemma ones_small x : is_u16 x -> ones x = x.
Proof.
  intros H. unfold ones. destruct (Z.eqb_spec x 0); [done|].
  rewrite Z.mod_small; width.
Qed.

(** Positive sums congruent modulo 65535 have the same representative. *)
Lemma ones_congr x y k : 0 < x -> 0 < y -> x = y + 65535 * k -> ones x = ones y.
Proof.
  intros Hx Hy ->. unfold ones.
  destruct (Z.eqb_spec (y + 65535 * k) 0); [lia|]. destruct (Z.eqb_spec y 0); [lia|].
  replace (y + 65535 * k - 1) with (y - 1 + k * 65535) by lia.
  by rewrite Z.mod_add by lia.
Qed.

Lemma ones_decompose x : 0 <= x -> exists k, x = ones x + 65535 * k /\ 0 <= k /\ (ones x = 0 -> x = 0).
Proof.
  intros H. unfold ones. destruct (Z.eqb_spec x 0) as [->|Hx]; [exists 0; lia|].
  exists ((x - 1) / 65535). pose proof (Z.div_mod (x - 1) 65535).
  pose proof (Z.div_pos (x - 1) 65535). pose proof (Z.mod_pos_bound (x - 1) 65535). lia.
Qed.

Lemma ones_add x y : 0 <= x -> 0 <= y -> ones (ones x + y) = ones (x + y).
Proof.
  intros Hx Hy. destruct (ones_decompose x Hx) as (k & Hk & Hk0 & Hz).
  destruct (Z.eq_dec (ones x) 0) as [E|E].
  - rewrite E, (Hz E). done.
  - pose proof (ones_range x Hx). apply (ones_congr _ _ (- k)); width.
Qed.

Lemma word_sum_nonneg l : bytes_ok l -> 0 <= word_sum l.
Proof.
  intros H. induction l as [|a|a b l IH] using list_pair_ind; simpl; [lia| |].
  - apply bytes_ok_cons in H as [? _]. width.
  - apply bytes_ok_cons in H as [? [? H]%bytes_ok_cons]. specialize (IH H). unfold be16. width.
Qed.

Lemma word_sum_bound l : bytes_ok l -> word_sum l <= 65535 * len l.
Proof.
  intros H. induction l as [|a|a b l IH] using list_pair_ind; simpl; autorewrite with lens.
  - lia.
  - apply bytes_ok_cons in H as [? _]. width.
  - apply bytes_ok_cons in H as [? [? H]%bytes_ok_cons]. specialize (IH H). unfold be16. width.
Qed.

Lemma word_sum_app l k :
  Nat.even (length l) = true -> word_sum (l ++ k) = word_sum l + word_sum k.
Proof.
  induction l as [|a|a b l IH] using list_pair_ind; simpl; [done|done|].
  intros H. rewrite IH by done. lia.
Qed.

(** ** The folding loops *)
Lemma fold_step x : 0 <= x -> Z.land x 0xffff + Z.shiftr x 16 = x mod 65536 + x / 65536.
Proof.
  intros H. change 0xffff with (Z.ones 16). rewrite Z.land_ones, Z.shiftr_div_pow2 by lia. done.
Qed.

Lemma fold_loop_done {E} fuel x : 0 <= x < 65536 -> fold_loop (E := E) fuel x = Ok x.
Proof.
  intros H. destruct fuel; cbn [fold_loop]; rewrite Z.shiftr_div_pow2 by lia;
    change (2 ^ 16) with 65536; by rewrite Z.div_small by lia.
Qed.

Lemma fold_loop_step {E} fuel B x :
  (forall y, 0 <= y < B -> fold_loop (E := E) fuel y = Ok (ones y)) ->
  65536 + x / 65536 <= B -> 0 <= x -> fold_loop (E := E) (S fuel) x = Ok (ones x).
Proof.
  intros IH HB Hx. destruct (Z.lt_ge_cases x 65536) as [Hs|Hs].
  { rewrite fold_loop_done by lia. by rewrite ones_small by width. }
  cbn [fold_loop]. rewrite fold_step by lia.
  rewrite Z.shiftr_div_pow2 by lia. change (2 ^ 16) with 65536.
  pose proof (Z.div_mod x 65536). pose proof (Z.mod_pos_bound x 65536).
  assert (1 <= x / 65536) by (apply Z.div_le_lower_bound; lia).
  replace (x / 65536 =? 0) with false by lia.
  rewrite IH by lia. f_equal. apply (ones_congr _ _ (- (x / 65536))); lia.
Qed.

(** The values [k] rounds of folding are enough for. *)
Definition fold_reach (fuel : nat) : Z :=
  match fuel with
  | O => 65536 | 1%nat => 65537 | 2%nat => 131072 | 3%nat => 4295032832
  | 4%nat => 281474976776192 | _ => 18446744073709551616
  end.

Lemma fold_loop_ones {E} fuel x :
  (fuel <= 5)%nat -> 0 <= x < fold_reach fuel -> fold_loop (E := E) fuel x = Ok (ones x).
Proof.
  revert x. induction fuel as [|fuel IH]; intros x Hf Hx.
  { simpl in Hx. rewrite fold_loop_done by lia. by rewrite ones_small by width. }
  destruct (Nat.eq_dec fuel 0) as [->|H0].
  { simpl in Hx. destruct (Z.eq_dec x 65536) as [->|]; [done|].
    rewrite fold_loop_done by lia. by rewrite ones_small by width. }
  apply (fold_loop_step _ (fold_reach fuel)); [by intros; apply IH; lia| |lia].
  assert (fuel = 1 \/ fuel = 2 \/ fuel = 3 \/ fuel = 4)%nat as [-> | [-> | [-> | ->]]] by lia;
    cbn [fold_reach] in *.
  - assert (x / 65536 < 2) by (apply Z.div_lt_upper_bound; lia). lia.
  - assert (x / 65536 < 65537) by (apply Z.div_lt_upper_bound; lia). lia.
  - assert (x / 65536 < 4294967297) by (apply Z.div_lt_upper_bound; lia). lia.
  - assert (x / 65536 < 281474976710656) by (apply Z.div_lt_upper_bound; lia). lia.
Qed.

Lemma try_u16_Ok x : is_u16 x -> try_u16 x = Some x.
Proof. intros H. unfold try_u16. replace (x <=? u16_max) with true by width. done. Qed.

Lemma fold_wide_checksum_ones {E} x :
  is_u64 x -> fold_wide_checksum (E := E) x = Ok (ones x).
Proof.
  intros H. unfold fold_wide_checksum. rewrite fold_loop_ones by (simpl; width).
  simpl. by rewrite try_u16_Ok by (apply ones_range; width).
Qed.

Lemma fold_checksum_ones {E} x : is_u32 x -> fold_checksum (E := E) x = Ok (ones x).
Proof.
  intros H. unfold fold_checksum. rewrite fold_loop_ones by (simpl; width).
  simpl. by rewrite try_u16_Ok by (apply ones_range; width).
Qed.

(** ** The wide accumulation *)

(** The sum of the machine words, before any wrap. *)
Fixpoint wide_sum (le : bool) (l : list Z) : Z :=
  match l with
  | a :: b :: c :: d :: rest => ne32 le a b c d + wide_sum le rest
  | _ => 0
  end.
(** What [as_chunks::<4>()] leaves. *)
Fixpoint chunk_rest (l : list Z) : list Z :=
  match l with _ :: _ :: _ :: _ :: rest => chunk_rest rest | rest => rest end.

Ltac byte_cons H :=
  repeat match type of H with
         | bytes_ok (_ :: _) => let H' := fresh "Hb" in apply bytes_ok_cons in H as [H' H]
         end.

Lemma ne32_range le a b c d :
  is_u8 a -> is_u8 b -> is_u8 c -> is_u8 d -> is_u32 (ne32 le a b c d).
Proof. intros. unfold ne32. destruct le; auto with bytes. Qed.

Lemma chunk_rest_short l : (length l < 4)%nat -> chunk_rest l = l.
Proof. destruct l as [|? [|? [|? [|? ?]]]]; simpl; try done; lia. Qed.

Lemma wide_sum_short le l : (length l < 4)%nat -> wide_sum le l = 0.
Proof. destruct l as [|? [|? [|? [|? ?]]]]; simpl; try done; lia. Qed.

(** Below 16 GiB the 64-bit accumulator never wraps. *)
Lemma sum_words_exact le l wide :
  bytes_ok l -> 0 <= wide -> wide + 1073741824 * len l <= u64_max ->
  sum_words le wide l = (wide + wide_sum le l, chunk_rest l).
Proof.
  revert wide. induction l as [l Hl|a b c d l IH] using list_quad_ind; intros wide H Hw HB.
  { rewrite chunk_rest_short, wide_sum_short, Z.add_0_r by done.
    destruct l as [|? [|? [|? [|? ?]]]]; simpl in *; try done; lia. }
  byte_cons H. simpl. autorewrite with lens in HB. pose proof (len_nonneg l).
  pose proof (ne32_range le a b c d ltac:(done) ltac:(done) ltac:(done) ltac:(done)).
  unfold wrap64. rewrite Z.mod_small by width. rewrite IH by (done || width). f_equal. lia.
Qed.

Lemma wide_sum_bounds le l : bytes_ok l -> 0 <= wide_sum le l <= 1073741824 * len l.
Proof.
  induction l as [l Hl|a b c d l IH] using list_quad_ind; intros H.
  { rewrite wide_sum_short by done. pose proof (len_nonneg l). lia. }
  byte_cons H. simpl. autorewrite with lens. specialize (IH H).
  pose proof (ne32_range le a b c d ltac:(done) ltac:(done) ltac:(done) ltac:(done)). width.
Qed.

(** Byte order and word size do not matter modulo 65535 (RFC 1071, section 2). *)
Lemma wide_sum_congr (le : bool) l :
  bytes_ok l ->
  exists k, word_sum l + 65535 * k = (if le then 256 else 1) * wide_sum le l + word_sum (chunk_rest l).
Proof.
  induction l as [l Hl|a b c d l IH] using list_quad_ind; intros H.
  { exists 0. rewrite wide_sum_short, chunk_rest_short by done. lia. }
  byte_cons H. destruct (IH H) as [k Hk]. simpl. unfold ne32, be32, be16.
  destruct le.
  - exists (k + 65537 * d + 256 * c + b). lia.
  - exists (k + 256 * a + b). lia.
Qed.

(** Both sums vanish on zero bytes only. *)
Lemma word_sum_zero le l :
  bytes_ok l -> word_sum l = 0 <-> wide_sum le l = 0 /\ word_sum (chunk_rest l) = 0.
Proof.
  induction l as [l Hl|a b c d l IH] using list_quad_ind; intros H.
  { rewrite wide_sum_short, chunk_rest_short by done. tauto. }
  byte_cons H. specialize (IH H). pose proof (word_sum_nonneg l H).
  pose proof (wide_sum_bounds le l H). simpl. unfold ne32, be32, be16. width_unfold.
  destruct le; lia.
Qed.

Lemma swap_bytes16_congr x :
  is_u16 x -> exists k, 256 * x = swap_bytes16 x + 65535 * k /\ is_u16 (swap_bytes16 x) /\
                   (swap_bytes16 x = 0 -> x = 0) /\ 0 <= k.
Proof.
  intros H. exists (x / 256). unfold swap_bytes16, be16.
  width_unfold. Z.div_mod_to_equations. lia.
Qed.

(** What the little- or big-endian wide sum becomes after folding and swapping. *)
Definition folded_wide (le : bool) (wide : Z) : Z :=
  if le then swap_bytes16 (ones wide) else ones wide.

Lemma folded_wide_spec (le : bool) wide :
  0 <= wide ->
  is_u16 (folded_wide le wide) /\ (folded_wide le wide = 0 -> wide = 0) /\
  exists k, (if le then 256 else 1) * wide = folded_wide le wide + 65535 * k /\ 0 <= k.
Proof.
  intros H. destruct (ones_decompose wide H) as (k & Hk & Hk0 & Hz).
  pose proof (ones_range wide H) as Hr. unfold folded_wide. destruct le.
  - destruct (swap_bytes16_congr _ Hr) as (j & Hj & Hjr & Hjz & Hj0).
    split; [done|]. split; [auto|]. exists (256 * k + j). lia.
  - split; [done|]. split; [auto|]. exists k. lia.
Qed.

Lemma chunk_rest_length l : (length (chunk_rest l) < 4)%nat.
Proof.
  induction l as [l Hl|a b c d l IH] using list_quad_ind; [|done].
  by rewrite chunk_rest_short.
Qed.

Lemma chunk_rest_ok l : bytes_ok l -> bytes_ok (chunk_rest l).
Proof.
  induction l as [l Hl|a b c d l IH] using list_quad_ind; intros H.
  - by rewrite chunk_rest_short.
  - byte_cons H. auto.
Qed.

(** The tail of at most three bytes adds exactly its words. *)
Lemma sum_rest_exact sum rest :
  (length rest < 4)%nat -> bytes_ok rest -> 0 <= sum <= 131070 ->
  sum_rest sum rest = sum + word_sum rest.
Proof.
  intros Hl H Hs. destruct rest as [|a [|b [|c [|d rest]]]]; simpl in Hl; try lia; byte_cons H;
    unfold sum_rest; simpl; unfold wrap32; rewrite ?Z.shiftl_mul_pow2 by lia; change (2 ^ 8) with 256;
    unfold be16; width_unfold; Z.div_mod_to_equations; lia.
Qed.

(** The running time bound of the source's comment: 16 GiB of bytes. *)
Definition short_enough (bytes : list Z) : Prop := len bytes < 17179869184.

Lemma checksum_accumulate_spec {E} le bytes sum :
  bytes_ok bytes -> is_u32 sum -> short_enough bytes ->
  exists v, checksum_accumulate (E := E) le bytes sum = Ok v /\
    0 <= v < 524288 /\ ones v = ones (sum + word_sum bytes).
Proof.
  intros H Hs HL. unfold short_enough in HL. unfold checksum_accumulate.
  pose proof (wide_sum_bounds le bytes H) as HW.
  rewrite sum_words_exact by (done || width). rewrite Z.add_0_l.
  rewrite !fold_wide_checksum_ones by width. cbn [mbind outcome_bind mret outcome_ret].
  destruct (folded_wide_spec le (wide_sum le bytes)) as (Hfr & Hfz & j & Hj & Hj0); [lia|].
  fold (folded_wide le (wide_sum le bytes)).
  pose proof (ones_range sum ltac:(width)) as Hos.
  destruct (ones_decompose sum ltac:(width)) as (i & Hi & Hi0 & Hiz).
  unfold wrap32. rewrite Z.mod_small by width.
  eexists. split; [done|].
  rewrite sum_rest_exact by (auto using chunk_rest_length, chunk_rest_ok || width).
  pose proof (word_sum_nonneg _ (chunk_rest_ok _ H)). pose proof (word_sum_nonneg _ H). split.
  - pose proof (word_sum_bound _ (chunk_rest_ok _ H)). pose proof (chunk_rest_length bytes).
    unfold len in *. width_unfold. lia.
  - destruct (wide_sum_congr le bytes H) as [k Hk].
    pose proof (word_sum_zero le bytes H) as HZ.
    destruct (Z.eq_dec (sum + word_sum bytes) 0) as [Ez|Ez].
    + rewrite Ez. destruct (proj1 HZ ltac:(width)) as [E1 E2]. rewrite E1, E2.
      replace sum with 0 by width. by destruct le.
    + apply (ones_congr _ _ (k - j - i)); [|width|lia]. width.
Qed.

Lemma checksum_sum_ones {E} le bytes initial :
  bytes_ok bytes -> is_u32 initial -> short_enough bytes ->
  checksum_sum (E := E) le bytes initial = Ok (ones (initial + word_sum bytes)).
Proof.
  intros H Hi HL.
  destruct (checksum_accumulate_spec (E := E) le bytes initial H Hi HL) as (v & Hv & Hr & <-).
  unfold checksum_sum. rewrite Hv. cbn [mbind outcome_bind].
  apply fold_checksum_ones. width.
Qed.

Lemma add_words_exact bytes sum :
  bytes_ok bytes -> 0 <= sum -> sum + 65536 * len bytes <= u64_max ->
  add_words sum bytes = sum + word_sum bytes.
Proof.
  revert sum. induction bytes as [|a|a b l IH] using list_pair_ind; intros sum H Hs HB;
    cbn [add_words word_sum]; autorewrite with lens in HB.
  - lia.
  - byte_cons H. unfold wrap64, be16. rewrite Z.mod_small by width. lia.
  - byte_cons H. pose proof (len_nonneg l). unfold wrap64, be16 in *.
    rewrite Z.mod_small by width. rewrite IH by (done || width). lia.
Qed.

(** The sum [sum_pairs] makes of an even header, when it fits 32 bits. *)
Lemma sum_pairs_exact bytes sum :
  bytes_ok bytes -> Nat.even (length bytes) = true ->
  0 <= sum -> sum + 65536 * len bytes <= u32_max ->
  sum_pairs sum bytes = (sum + word_sum bytes, []).
Proof.
  revert sum. induction bytes as [|a|a b l IH] using list_pair_ind; intros sum H Hev Hs HB;
    cbn [sum_pairs word_sum]; autorewrite with lens in HB; try done.
  - by rewrite Z.add_0_r.
  - byte_cons H. pose proof (len_nonneg l). unfold wrap32, be16 in *.
    rewrite Z.mod_small by width. rewrite IH by (done || width). f_equal. lia.
Qed.

Lemma header_checksum_ones {E} header :
  bytes_ok header -> Nat.even (length header) = true -> len header <= 1000 ->
  header_checksum (E := E) header = Ok (finalize_checksum (ones (word_sum header))).
Proof.
  intros H Hev HL. unfold header_checksum.
  rewrite sum_pairs_exact by (done || width). rewrite Z.add_0_l.
  pose proof (word_sum_nonneg _ H). pose proof (word_sum_bound _ H).
  rewrite fold_loop_ones by (cbn [fold_reach]; lia). cbn [mbind outcome_bind mret outcome_ret].
  by rewrite try_u16_Ok by (apply ones_range; lia).
Qed.

(** Adding the complement of a sum makes it all ones. *)
Lemma ones_finalize s : 0 <= s -> ones (s + finalize_checksum (ones s)) = 65535.
Proof.
  intros H. destruct (ones_decompose s H) as (k & Hk & Hk0 & Hz).
  unfold finalize_checksum. pose proof (ones_range s H).
  rewrite (ones_congr _ 65535 k); [done|width|lia|lia].
Qed.

(** A word written over zeros at an even offset adds its value. *)
Lemma word_sum_patch pre post c :
  Nat.even (length pre) = true ->
  word_sum (pre ++ to_be16 c ++ post) = word_sum (pre ++ [0; 0] ++ post) + c.
Proof.
  intros H. rewrite !word_sum_app by done. cbn [word_sum app to_be16].
  rewrite be16_to_be16. change (be16 0 0) with 0. lia.
Qed.

(** ** Properties *)

(** C12: the optimised checksum is RFC 1071's.  For every byte string below
    16 GiB, every 32-bit initial sum and either byte order of the machine,
    [checksum_sum] returns exactly what the word-by-word sum returns, and that
    is a 16-bit value: nothing wraps, no [expect] fails. *)
Theorem checksum_sum_is_reference (le : bool) (bytes : list Z) (initial : Z) :
  bytes_ok bytes -> is_u32 initial -> len bytes < 17179869184 ->
  exists v, checksum_sum (E := unit) le bytes initial = Ok v /\
            reference (E := unit) bytes initial = Ok v /\ is_u16 v.
Proof.
  intros H Hi HL. pose proof (word_sum_nonneg _ H). pose proof (word_sum_bound _ H).
  exists (ones (initial + word_sum bytes)).
  split; [by apply checksum_sum_ones|]. unfold reference.
  rewrite add_words_exact by (done || width).
  rewrite fold_loop_ones by (cbn [fold_reach]; width). cbn [mbind outcome_bind].
  assert (is_u16 (ones (initial + word_sum bytes))) by (apply ones_range; width).
  by rewrite try_u16_Ok.
Qed.

Lemma checksum_sum_is_reference_witness :
  exists v, checksum_sum (E := unit) true [1; 2; 3; 4; 5; 255; 255] 0xdeadbeef = Ok v /\
            reference (E := unit) [1; 2; 3; 4; 5; 255; 255] 0xdeadbeef = Ok v /\ is_u16 v.
Proof.
  apply (checksum_sum_is_reference true [1; 2; 3; 4; 5; 255; 255] 0xdeadbeef).
  - repeat constructor; discriminate.
  - split; discriminate.
  - reflexivity.
Defined.
