(* ===== verification/IpWire.v ===== *)
(** The IP and UDP wire boundary of [sail-netstack/src/wire.rs]: parsing of
    IPv4 and IPv6 packets with their options and extension headers, parsing and
    emission of UDP datagrams.  Every index and slice is modelled with its
    panic; the properties show that no input reaches one. *)
From S2P Require Import Prelude Checksum.
From stdpp Require Export strings.
#[global] Open Scope Z_scope.
#[global] Open Scope list_scope.

(** ** Data *)
Inductive IpVersion := IpV4 | IpV6.

(** [std::net::IpAddr] by its octets, four or sixteen. *)
Inductive IpAddr :=
| V4 (octets : list Z)
| V6 (octets : list Z).

(** [std::net::SocketAddr], all that its [Eq] and [Hash] look at.  The flow
    information and the scope are those of [SocketAddrV6]; an IPv4 address has
    neither, and both are 0. *)
Record SocketAddr := mkSocketAddrV6 { sa_ip : IpAddr; sa_port : Z; sa_flowinfo : Z; sa_scope_id : Z }.

(** [SocketAddr::new]. *)
Definition mkSocketAddr (ip : IpAddr) (port : Z) : SocketAddr := mkSocketAddrV6 ip port 0 0.

(** What a packet carries of an address. *)
Definition bare (a : SocketAddr) : SocketAddr := mkSocketAddr (sa_ip a) (sa_port a).

Record FragmentInfo := mkFragmentInfo {
  identification : Z;
  offset_bytes : Z;
  more_fragments : bool
}.

Record ParsedIpPacket := mkParsedIpPacket {
  version : IpVersion;
  source : IpAddr;
  destination : IpAddr;
  next_header : Z;
  hop_limit : Z;
  fragment : option FragmentInfo;
  fragment_payload : option (list Z);
  payload : list Z
}.

Record ParsedUdpDatagram := mkParsedUdpDatagram {
  udp_source : SocketAddr;
  udp_destination : SocketAddr;
  udp_payload : list Z
}.

Inductive WireError :=
| Truncated
| Malformed (message : string)
| Unsupported (message : string)
| Ipv6OptionDiscard (pointer : Z) (send_icmp : bool)
| Ipv6RoutingDiscard (pointer : Z)
| Ipv6NextHeaderDiscard (pointer : Z)
| Checksum.

#[export] Instance IpVersion_eq_dec : EqDecision IpVersion.
Proof. solve_decision. Defined.
#[export] Instance IpAddr_eq_dec : EqDecision IpAddr.
Proof. solve_decision. Defined.
#[export] Instance SocketAddr_eq_dec : EqDecision SocketAddr.
Proof. solve_decision. Defined.
#[export] Instance FragmentInfo_eq_dec : EqDecision FragmentInfo.
Proof. solve_decision. Defined.

Definition UDP_PROTOCOL : Z := 17.
Definition TCP_PROTOCOL : Z := 6.

Definition is_atomic (f : FragmentInfo) : bool :=
  (offset_bytes f =? 0) && negb (more_fragments f).

(** ** Addresses *)
Definition octets (a : IpAddr) : list Z := match a with V4 o => o | V6 o => o end.
Definition is_unspecified6 (o : list Z) : bool := forallb (fun b => b =? 0) o.
Definition is_multicast6 (o : list Z) : bool := match o with b :: _ => b =? 255 | [] => false end.
Definition is_broadcast4 (o : list Z) : bool := forallb (fun b => b =? 255) o.
Definition first_octet (o : list Z) : Z := match o with b :: _ => b | [] => 0 end.

Definition is_unspecified (a : IpAddr) : bool := is_unspecified6 (octets a).
Definition is_multicast (a : IpAddr) : bool :=
  match a with
  | V4 o => (224 <=? first_octet o) && (first_octet o <=? 239)
  | V6 o => is_multicast6 o
  end.

Definition valid_flow_source (a : IpAddr) : bool :=
  match a with
  | V4 o => negb (first_octet o =? 0) && negb (first_octet o =? 127) && (first_octet o <? 224)
  | V6 o => negb (is_unspecified6 o) && negb (is_multicast6 o)
  end.
Definition valid_flow_destination (a : IpAddr) : bool :=
  match a with
  | V4 o => negb (first_octet o =? 0) && (first_octet o <? 224) && negb (is_broadcast4 o)
  | V6 o => negb (is_unspecified6 o) && negb (is_multicast6 o)
  end.

Definition family (a : IpAddr) : IpVersion := match a with V4 _ => IpV4 | V6 _ => IpV6 end.

(** An address has the octets of its family. *)
Definition ip_wf (a : IpAddr) : Prop :=
  match a with
  | V4 o => length o = 4%nat /\ bytes_ok o
  | V6 o => length o = 16%nat /\ bytes_ok o
  end.

(** ** IPv4 *)
Fixpoint validate_ipv4_options_loop (fuel : nat) (options : list Z) (offset : Z)
    : outcome WireError unit :=
  match fuel with
  | O => OutOfFuel
  | S fuel =>
    if offset <? len options then
      kind ← idx options offset;
      if kind =? 0 then
        rest ← slice_from options (offset + 1);
        if any_nonzero rest then Err (Malformed "nonzero IPv4 option padding") else mret tt
      else if kind =? 1 then validate_ipv4_options_loop fuel options (offset + 1)
      else
        length ← ok_or (get options (offset + 1)) (Malformed "truncated IPv4 option");
        if length <? 2 then Err (Malformed "invalid IPv4 option length")
        else
          end_ ← ok_or (checked_add offset length ≫= fun e => if e <=? len options then Some e else None)
                       (Malformed "truncated IPv4 option");
          validate_ipv4_options_loop fuel options end_
    else mret tt
  end.
Definition validate_ipv4_options (options : list Z) : outcome WireError unit :=
  validate_ipv4_options_loop (S (length options)) options 0.

Definition parse_ipv4 (le : bool) (packet : list Z) (verify_checksum : bool)
    : outcome WireError ParsedIpPacket :=
  if len packet <? 20 then Err Truncated else
  b0 ← idx packet 0;
  let header_len := Z.land b0 0x0f * 4 in
  if (header_len <? 20) || (len packet <? header_len) then Err (Malformed "IPv4 header length") else
  total_len ← idx_be16 packet 2;
  if (total_len <? header_len) || (len packet <? total_len) then Err Truncated else
  options ← slice packet 20 header_len;
  _ ← validate_ipv4_options options;
  bad ← (if verify_checksum
         then header ← slice packet 0 header_len;
              sum ← checksum_sum le header 0; mret (negb (sum =? 0xffff))
         else mret false);
  if (bad : bool) then Err Checksum else
  fragment_bits ← idx_be16 packet 6;
  if negb (Z.land fragment_bits 0x8000 =? 0)
  then Err (Malformed "IPv4 reserved fragment flag") else
  let fragment_offset := Z.land fragment_bits 0x1fff * 8 in
  let more_fragments := negb (Z.land fragment_bits 0x2000 =? 0) in
  if negb (Z.land fragment_bits 0x4000 =? 0) && (negb (fragment_offset =? 0) || more_fragments)
  then Err (Malformed "IPv4 DF set on a fragment") else
  identification ← idx_be16 packet 4;
  let fragment :=
    if negb (fragment_offset =? 0) || more_fragments
    then Some (mkFragmentInfo identification fragment_offset more_fragments) else None in
  payload ← slice packet header_len total_len;
  source ← slice packet 12 16;
  destination ← slice packet 16 20;
  next_header ← idx packet 9;
  hop_limit ← idx packet 8;
  mret {| version := IpV4; source := V4 source; destination := V4 destination;
          next_header := next_header; hop_limit := hop_limit; fragment := fragment;
          fragment_payload := match fragment with Some _ => Some payload | None => None end;
          payload := payload |}.

(** ** IPv6 *)
Definition require (packet : list Z) (offset length total_len : Z) : outcome WireError unit :=
  end_ ← ok_or (checked_add offset length) Truncated;
  if (total_len <? end_) || (len packet <? end_) then Err Truncated else mret tt.

Definition ipv6_wire_pointer (offset : Z) : outcome WireError Z :=
  ok_or (try_u32 offset) (Malformed "IPv6 wire pointer").

Fixpoint validate_ipv6_options_loop (fuel : nat) (options : list Z) (absolute_offset : Z)
    (destination_is_multicast enforce_actions : bool) (offset : Z) : outcome WireError unit :=
  match fuel with
  | O => OutOfFuel
  | S fuel =>
    let continue := validate_ipv6_options_loop fuel options absolute_offset
                      destination_is_multicast enforce_actions in
    if offset <? len options then
      kind ← idx options offset;
      if kind =? 0 then continue (offset + 1) else
      data_len ← ok_or (get options (offset + 1)) (Malformed "truncated IPv6 option");
      end_ ← ok_or (checked_add offset 2 ≫= fun start => checked_add start data_len
                      ≫= fun e => if e <=? len options then Some e else None)
                   (Malformed "truncated IPv6 option");
      if kind =? 1 then
        data ← slice options (offset + 2) end_;
        if any_nonzero data then Err (Malformed "nonzero IPv6 PadN data") else continue end_
      else if enforce_actions && negb (Z.shiftr kind 6 =? 0) then
        pointer ← ok_or (try_u32 (sat_add absolute_offset offset))
                        (Malformed "IPv6 option pointer overflow");
        send_icmp ← (if Z.shiftr kind 6 =? 1 then mret false
                     else if Z.shiftr kind 6 =? 2 then mret true
                     else if Z.shiftr kind 6 =? 3 then mret (negb destination_is_multicast)
                     else Panic);
        Err (Ipv6OptionDiscard pointer send_icmp)
      else continue end_
    else mret tt
  end.
Definition validate_ipv6_options (options : list Z) (absolute_offset : Z)
    (destination_is_multicast enforce_actions : bool) : outcome WireError unit :=
  validate_ipv6_options_loop (S (length options)) options absolute_offset
    destination_is_multicast enforce_actions 0.

(** The [for _ in 0..8] walk over the extension headers; [rounds] is what is
    left of the eight. *)
Fixpoint parse_ipv6_chain (rounds : nat) (packet : list Z) (enforce : bool) (total_len : Z)
    (source destination : list Z) (next_header next_header_pointer offset : Z)
    (fragment : option FragmentInfo) (fragment_payload : option (list Z))
    : outcome WireError ParsedIpPacket :=
  match rounds with
  | O => Err (Unsupported "IPv6 extension chain exceeds limit")
  | S rounds =>
    let continue extension_len fragment fragment_payload :=
      nh ← idx packet offset;
      parse_ipv6_chain rounds packet enforce total_len source destination
        nh offset (offset + extension_len) fragment fragment_payload in
    if (next_header =? 0) && (negb (offset =? 40) && enforce) then
      pointer ← ipv6_wire_pointer next_header_pointer;
      Err (Ipv6NextHeaderDiscard pointer)
    else if (next_header =? 0) || (next_header =? 43) || (next_header =? 60) then
      _ ← require packet offset 2 total_len;
      units ← idx packet (offset + 1);
      let extension_len := (units + 1) * 8 in
      _ ← require packet offset extension_len total_len;
      routing_left ← (if (next_header =? 43) && enforce then
                        left ← idx packet (offset + 3); mret (negb (left =? 0))
                      else mret false);
      if (routing_left : bool) then
        pointer ← ipv6_wire_pointer (offset + 2); Err (Ipv6RoutingDiscard pointer)
      else
      _ ← (if (next_header =? 0) || (next_header =? 60) then
             options ← slice packet (offset + 2) (offset + extension_len);
             validate_ipv6_options options (offset + 2) (is_multicast6 destination) enforce
           else mret tt);
      continue extension_len fragment fragment_payload
    else if next_header =? 51 then
      _ ← require packet offset 2 total_len;
      units ← idx packet (offset + 1);
      let extension_len := (units + 2) * 4 in
      _ ← require packet offset extension_len total_len;
      continue extension_len fragment fragment_payload
    else if next_header =? 44 then
      _ ← require packet offset 8 total_len;
      nh ← idx packet offset;
      if (match fragment with Some _ => true | None => false end) || (nh =? 44)
      then Err (Malformed "multiple IPv6 fragment headers") else
      bits ← idx_be16 packet (offset + 2);
      identification ← idx_be32 packet (offset + 4);
      let info := mkFragmentInfo identification (Z.land (Z.shiftr bits 3) 0x1fff * 8)
                    (negb (Z.land bits 1 =? 0)) in
      rest ← slice packet (offset + 8) total_len;
      if negb (offset_bytes info =? 0) then
        hop_limit ← idx packet 7;
        mret {| version := IpV6; source := V6 source; destination := V6 destination;
                next_header := nh; hop_limit := hop_limit; fragment := Some info;
                fragment_payload := Some rest; payload := rest |}
      else continue 8 (Some info) (Some rest)
    else
      hop_limit ← idx packet 7;
      payload ← slice packet offset total_len;
      mret {| version := IpV6; source := V6 source; destination := V6 destination;
              next_header := next_header; hop_limit := hop_limit; fragment := fragment;
              fragment_payload := fragment_payload; payload := payload |}
  end.

Definition parse_ipv6 (packet : list Z) (enforce_extension_actions : bool)
    : outcome WireError ParsedIpPacket :=
  if len packet <? 40 then Err Truncated else
  payload_len ← idx_be16 packet 4;
  total_len ← ok_or (checked_add 40 payload_len) Truncated;
  if len packet <? total_len then Err Truncated else
  source ← slice packet 8 24;
  destination ← slice packet 24 40;
  next_header ← idx packet 6;
  parse_ipv6_chain 8 packet enforce_extension_actions total_len source destination
    next_header 6 40 None None.

Definition parse_ip_packet (le : bool) (packet : list Z) (verify_ipv4_checksum : bool)
    : outcome WireError ParsedIpPacket :=
  first ← ok_or (get packet 0) Truncated;
  let version := Z.shiftr first 4 in
  if version =? 4 then parse_ipv4 le packet verify_ipv4_checksum
  else if version =? 6 then parse_ipv6 packet true
  else Err (Unsupported "IP version").

Definition parse_ip_packet_for_icmp_error (le : bool) (packet : list Z)
    (verify_ipv4_checksum : bool) : outcome WireError ParsedIpPacket :=
  first ← ok_or (get packet 0) Truncated;
  let version := Z.shiftr first 4 in
  if version =? 4 then parse_ipv4 le packet verify_ipv4_checksum
  else if version =? 6 then parse_ipv6 packet false
  else Err (Unsupported "IP version").

(** ** UDP *)
Definition transport_checksum_sum (le : bool) (source destination : IpAddr) (protocol : Z)
    (payload : list Z) : outcome WireError Z :=
  let length := default u32_max (try_u32 (len payload)) in
  match source, destination with
  | V4 s, V4 d =>
    sum ← checksum_accumulate le s 0;
    sum ← checksum_accumulate le d sum;
    checksum_sum le payload (wrap32 (wrap32 (sum + protocol) + length))
  | V6 s, V6 d =>
    sum ← checksum_accumulate le s 0;
    sum ← checksum_accumulate le d sum;
    checksum_sum le payload (wrap32 (wrap32 (sum + length) + protocol))
  | _, _ => mret 0
  end.

Definition fragmented (ip : ParsedIpPacket) : bool :=
  match fragment ip with Some f => negb (is_atomic f) | None => false end.

Definition parse_udp_datagram (le : bool) (ip : ParsedIpPacket) (verify_checksum : bool)
    : outcome WireError ParsedUdpDatagram :=
  if negb (next_header ip =? UDP_PROTOCOL) then Err (Unsupported "not UDP") else
  if fragmented ip then Err (Unsupported "UDP requires IP reassembly") else
  if len (payload ip) <? 8 then Err Truncated else
  udp_len ← idx_be16 (payload ip) 4;
  if (udp_len <? 8) || (len (payload ip) <? udp_len) then Err Truncated else
  udp ← slice (payload ip) 0 udp_len;
  wire_checksum ← idx_be16 udp 6;
  bad ← (if verify_checksum then
           if bool_decide (version ip = IpV6) && (wire_checksum =? 0) then mret true
           else if negb (wire_checksum =? 0) then
             sum ← transport_checksum_sum le (source ip) (destination ip) UDP_PROTOCOL udp;
             mret (negb (sum =? 0xffff))
           else mret false
         else mret false);
  if (bad : bool) then Err Checksum else
  source_port ← idx_be16 udp 0;
  destination_port ← idx_be16 udp 2;
  data ← slice_from udp 8;
  mret {| udp_source := mkSocketAddr (source ip) source_port;
          udp_destination := mkSocketAddr (destination ip) destination_port;
          udp_payload := data |}.

(** The IPv4 header of an emitted packet, written over a zeroed buffer of at
    least twenty bytes; the checksum is the caller's. *)
Definition write_ipv4_header (packet : list Z) (total_len ipv4_identification hop_limit protocol : Z)
    (source destination : list Z) : outcome WireError (list Z) :=
  packet ← write_at packet 0 [0x45];
  packet ← write_at packet 2 (to_be16 total_len);
  packet ← write_at packet 4 (to_be16 ipv4_identification);
  packet ← write_at packet 6 [0x40];
  packet ← write_at packet 8 [hop_limit];
  packet ← write_at packet 9 [protocol];
  packet ← write_at packet 12 source;
  write_at packet 16 destination.

Definition write_ipv6_header (packet : list Z) (payload_len hop_limit protocol : Z)
    (source destination : list Z) : outcome WireError (list Z) :=
  packet ← write_at packet 0 [0x60];
  packet ← write_at packet 4 (to_be16 payload_len);
  packet ← write_at packet 6 [protocol];
  packet ← write_at packet 7 [hop_limit];
  packet ← write_at packet 8 source;
  write_at packet 24 destination.

(** The datagram after the IP header: ports, length, data, then its checksum. *)
Definition write_udp (le : bool) (packet : list Z) (header_len : Z) (source destination : SocketAddr)
    (udp_len_u16 : Z) (payload : list Z) : outcome WireError (list Z) :=
  packet ← write_at packet header_len (to_be16 (sa_port source));
  packet ← write_at packet (header_len + 2) (to_be16 (sa_port destination));
  packet ← write_at packet (header_len + 4) (to_be16 udp_len_u16);
  packet ← write_at packet (header_len + 8) payload;
  udp ← slice_from packet header_len;
  sum ← transport_checksum_sum le (sa_ip source) (sa_ip destination) UDP_PROTOCOL udp;
  let checksum := finalize_checksum sum in
  let checksum := if checksum =? 0 then 0xffff else checksum in
  write_at packet (header_len + 6) (to_be16 checksum).

Definition emit_udp_packet (le : bool) (source destination : SocketAddr) (payload : list Z)
    (hop_limit ipv4_identification : Z) : outcome WireError (list Z) :=
  udp_len ← ok_or (checked_add 8 (len payload)) (Malformed "UDP length overflow");
  udp_len_u16 ← ok_or (try_u16 udp_len) (Malformed "UDP too large");
  header_len ← match sa_ip source, sa_ip destination with
               | V4 _, V4 _ => mret 20
               | V6 _, V6 _ => mret 40
               | _, _ => Err (Malformed "mixed address families")
               end;
  let total_len := header_len + udp_len in
  let packet := zeros total_len in
  packet ← match sa_ip source, sa_ip destination with
           | V4 s, V4 d =>
             total ← ok_or (try_u16 total_len) (Malformed "IPv4 packet too large");
             packet ← write_ipv4_header packet total ipv4_identification hop_limit UDP_PROTOCOL s d;
             header ← slice packet 0 20;
             sum ← checksum_sum le header 0;
             write_at packet 10 (to_be16 (finalize_checksum sum))
           | V6 s, V6 d => write_ipv6_header packet udp_len_u16 hop_limit UDP_PROTOCOL s d
           | _, _ => Panic
           end;
  write_udp le packet header_len source destination udp_len_u16 payload.

(** Two directions of one small datagram. *)
Example udp_roundtrip_v4 :
  (wire ← emit_udp_packet true (mkSocketAddr (V4 [10; 0; 0; 1]) 1000)
            (mkSocketAddr (V4 [10; 0; 0; 2]) 53) [7; 8; 9] 64 42;
   ip ← parse_ip_packet true wire true;
   udp ← parse_udp_datagram true ip true; mret (udp_payload udp))
  = Ok [7; 8; 9].
Proof. vm_compute. reflexivity. Qed.

(** ** The parsers never panic *)
Lemma land_15 b : 0 <= Z.land b 0x0f <= 15.
Proof.
  replace (Z.land b 15) with (b mod 16) by exact (eq_sym (Z.land_ones b 4 ltac:(lia))).
  pose proof (Z.mod_pos_bound b 16). lia.
Qed.

(** The two [checked_add] chains that find the end of an option. *)
Lemma ipv4_option_end offset length l e :
  (checked_add offset length ≫= fun e => if e <=? l then Some e else None) = Some e ->
  e = offset + length /\ e <= l.
Proof.
  intros (x & Hx & Hs)%bind_Some. apply checked_add_Some in Hx as [-> _].
  revert Hs. case_bool; intros; simplify_eq; done.
Qed.

Lemma ipv6_option_end offset length l e :
  (checked_add offset 2 ≫= fun s => checked_add s length
     ≫= fun e => if e <=? l then Some e else None) = Some e ->
  e = offset + 2 + length /\ e <= l.
Proof.
  intros (x & Hx & Hs)%bind_Some. apply checked_add_Some in Hx as [-> _].
  by apply ipv4_option_end.
Qed.

Lemma get_u8 l i x : bytes_ok l -> get l i = Some x -> is_u8 x.
Proof. intros H [_ Hin]%get_inv. eauto using bytes_ok_elem. Qed.

Lemma validate_ipv4_options_runs fuel options offset :
  bytes_ok options -> 0 <= offset <= len options -> len options - offset < Z.of_nat fuel ->
  runs (validate_ipv4_options_loop fuel options offset) (fun _ => True).
Proof.
  revert offset. induction fuel as [|fuel IH]; intros offset H Ho Hf.
  { cbn [validate_ipv4_options_loop runs]. lia. }
  cbn [validate_ipv4_options_loop].
  repeat runs_step; try done; try (apply IH; [done|lia|lia]).
  match goal with H : _ ≫= _ = Some _ |- _ => apply ipv4_option_end in H as [-> ?] end.
  apply IH; [done|lia|lia].
Qed.

Lemma shiftr6_cases k : is_u8 k -> Z.shiftr k 6 = 0 \/ Z.shiftr k 6 = 1 \/ Z.shiftr k 6 = 2 \/ Z.shiftr k 6 = 3.
Proof.
  intros H. rewrite Z.shiftr_div_pow2 by lia. change (2 ^ 6) with 64.
  width_unfold. Z.div_mod_to_equations. lia.
Qed.

Lemma validate_ipv6_options_runs fuel options absolute multicast enforce offset :
  bytes_ok options -> 0 <= offset <= len options -> len options - offset < Z.of_nat fuel ->
  runs (validate_ipv6_options_loop fuel options absolute multicast enforce offset) (fun _ => True).
Proof.
  revert offset. induction fuel as [|fuel IH]; intros offset H Ho Hf.
  { cbn [validate_ipv6_options_loop runs]. lia. }
  cbn [validate_ipv6_options_loop].
  runs_step; [|done]. runs_step. runs_step. runs_step; [apply IH; [done|lia|lia]|].
  runs_step. runs_step. runs_step. runs_step.
  match goal with H : _ ≫= _ = Some _ |- _ => apply ipv6_option_end in H as [-> ?] end.
  match goal with Hg : get options _ = Some _ |- _ => pose proof (get_u8 _ _ _ H Hg) end.
  runs_step; [|runs_step; [|apply IH; [done|width|width]]].
  - repeat runs_step; try done. apply IH; [done|width|width].
  - match goal with Hk : is_u8 ?k |- context [Z.shiftr ?k 6] => pose proof (shiftr6_cases k Hk) end.
    repeat runs_step; lia.
Qed.

(** What a successfully parsed packet guarantees its consumers: addresses of
    the packet's family, a payload that is a slice of the packet, fragment
    data present exactly with the fragment header, and the upper-layer view
    at the end of it. *)
Record parsed_ok (packet : list Z) (p : ParsedIpPacket) : Prop := {
  po_family : match version p, source p, destination p with
              | IpV4, V4 _, V4 _ | IpV6, V6 _, V6 _ => True
              | _, _, _ => False
              end;
  po_source : ip_wf (source p);
  po_destination : ip_wf (destination p);
  po_next_header : is_u8 (next_header p);
  po_hop_limit : is_u8 (hop_limit p);
  po_payload : exists a b, 20 <= a <= b /\ b <= len packet /\ b <= 65575 /\ payload p = sub packet a b;
  po_size : len (payload p) <= match version p with IpV4 => 65515 | IpV6 => 65535 end;
  po_fragment : match fragment p, fragment_payload p with
                | Some f, Some fp =>
                  is_u32 (identification f) /\ 0 <= offset_bytes f <= 65528 /\
                  offset_bytes f mod 8 = 0 /\ payload p `suffix_of` fp /\ len fp <= 65535
                | None, None => True
                | _, _ => False
                end
}.

Lemma land_field x n m : (0 <= m)%Z -> m = Z.ones n -> 0 <= n -> 0 <= Z.land x m <= m.
Proof.
  intros H0 -> Hn. rewrite Z.land_ones, Z.ones_equiv by done.
  pose proof (Z.mod_pos_bound x (2 ^ n)). assert (0 < 2 ^ n) by (apply Z.pow_pos_nonneg; lia). lia.
Qed.

Lemma fragment_offset_ok x :
  0 <= Z.land x 0x1fff * 8 <= 65528 /\ Z.land x 0x1fff * 8 mod 8 = 0.
Proof.
  pose proof (land_field x 13 0x1fff ltac:(lia) eq_refl ltac:(lia)).
  split; [lia|]. by rewrite Z.mod_mul.
Qed.

Lemma bytes_ok_sub l a b : bytes_ok l -> bytes_ok (sub l a b).
Proof. intros. unfold sub. auto with bytes. Qed.
#[export] Hint Resolve bytes_ok_sub : bytes.

Lemma ip_wf_v4 l a : bytes_ok l -> 0 <= a -> a + 4 <= len l -> ip_wf (V4 (sub l a (a + 4))).
Proof.
  intros. split; [|auto with bytes]. assert (len (sub l a (a + 4)) = 4) by (rewrite len_sub; lia).
  unfold len in *. lia.
Qed.

Lemma ip_wf_v6 l a : bytes_ok l -> 0 <= a -> a + 16 <= len l -> ip_wf (V6 (sub l a (a + 16))).
Proof.
  intros. split; [|auto with bytes]. assert (len (sub l a (a + 16)) = 16) by (rewrite len_sub; lia).
  unfold len in *. lia.
Qed.

Lemma checksum_sum_runs {E} le bytes initial (Q : Z -> Prop) :
  bytes_ok bytes -> is_u32 initial -> short_enough bytes ->
  (forall s, is_u16 s -> Q s) -> runs (E := E) (checksum_sum le bytes initial) Q.
Proof.
  intros H Hi HL HQ. rewrite checksum_sum_ones by done. cbn [runs].
  apply HQ, ones_range. pose proof (word_sum_nonneg _ H). width.
Qed.

Lemma parse_ipv4_runs le packet verify :
  bytes_ok packet -> runs (parse_ipv4 le packet verify) (parsed_ok packet).
Proof.
  intros H. unfold parse_ipv4.
  runs_step; [exact I|]. runs_step. runs_step.
  pose proof (land_15 x). set (header_len := Z.land x 15 * 4) in *.
  runs_step; [exact I|]. runs_step. runs_step. runs_step; [exact I|].
  runs_step. runs_step. runs_step.
  eapply runs_mono; [apply validate_ipv4_options_runs; [done|pose proof (len_nonneg s); lia|unfold len; lia]|].
  intros [] _. runs_step.
  apply (runs_mono _ (fun _ => True)).
  { runs_step; [|done]. runs_step. runs_step. runs_step.
    apply checksum_sum_runs; [done|width|unfold short_enough; lia|done]. }
  intros bad _. repeat runs_step.
  match goal with |- context [Z.land ?bits 0x1fff] => pose proof (fragment_offset_ok bits) end.
  constructor; cbn; try done.
  - subst. apply (ip_wf_v4 packet 12); [done|lia|lia].
  - subst. apply (ip_wf_v4 packet 16); [done|lia|lia].
  - match goal with Hs : ?s = sub packet header_len ?t |- _ => exists header_len, t; rewrite Hs end.
    repeat split; width.
  - match goal with Hs : ?s = sub packet header_len ?t |- _ => rewrite Hs, len_sub by lia; width end.
  - case_bool; [|done]. cbn. split; [width|]. split; [lia|]. split; [lia|]. split; [done|width].
Qed.

Lemma require_runs packet offset n total (Q : unit -> Prop) :
  (offset + n <= total -> offset + n <= len packet -> Q tt) ->
  runs (require packet offset n total) Q.
Proof.
  intros HQ. unfold require. runs_step. runs_step.
  match goal with H : checked_add _ _ = Some _ |- _ => apply checked_add_Some in H as [-> ?] end.
  runs_step; [exact I|]. cbn. apply HQ; lia.
Qed.

(** The fragment header met so far: none, or one with offset zero whose data
    starts before the header being read. *)
Definition chain_fragment_ok (packet : list Z) (total_len offset : Z)
    (fragment : option FragmentInfo) (fragment_payload : option (list Z)) : Prop :=
  match fragment, fragment_payload with
  | Some f, Some fp =>
    is_u32 (identification f) /\ offset_bytes f = 0 /\
    exists a, 40 <= a <= offset /\ fp = sub packet a total_len
  | None, None => True
  | _, _ => False
  end.

Lemma parse_ipv6_chain_runs rounds packet enforce total_len src dst nh pointer offset frag fp :
  bytes_ok packet -> total_len <= len packet -> total_len <= 65575 ->
  40 <= offset <= total_len -> 0 <= pointer -> is_u8 nh ->
  ip_wf (V6 src) -> ip_wf (V6 dst) -> chain_fragment_ok packet total_len offset frag fp ->
  runs (parse_ipv6_chain rounds packet enforce total_len src dst nh pointer offset frag fp)
       (parsed_ok packet).
Proof.
  intros H Hlen Hmax. revert nh pointer offset frag fp.
  induction rounds as [|rounds IH]; intros nh pointer offset frag fp Ho Hp Hnh Hsrc Hdst Hfr; [exact I|].
  cbn [parse_ipv6_chain]. cbv zeta beta. unfold ipv6_wire_pointer.
  assert (Hcont : forall n frag' fp', 0 < n -> offset + n <= total_len ->
    chain_fragment_ok packet total_len (offset + n) frag' fp' ->
    runs (nh' ← idx packet offset;
          parse_ipv6_chain rounds packet enforce total_len src dst nh' offset (offset + n) frag' fp')
         (parsed_ok packet)).
  { intros n frag' fp' Hn Hle Hok. runs_step. runs_step. by apply IH; try lia. }
  assert (Hgrow : forall n, 0 < n -> chain_fragment_ok packet total_len (offset + n) frag fp).
  { intros n Hn. revert Hfr. unfold chain_fragment_ok.
    destruct frag, fp; try done. intros (? & ? & a & ? & ?). split; [done|]. split; [done|].
    exists a. split; [lia|done]. }
  runs_step; [repeat runs_step|].
  runs_step.
  { runs_step. apply require_runs; intros. runs_step. runs_step. runs_step.
    apply require_runs; intros. runs_step. apply (runs_mono _ (fun _ => True)).
    { repeat runs_step; done. }
    intros routing _. runs_step; [repeat runs_step|]. runs_step.
    apply (runs_mono _ (fun _ => True)).
    { runs_step; [|done]. runs_step. runs_step.
      apply validate_ipv6_options_runs; [done|pose proof (len_nonneg s); lia|unfold len; lia]. }
    intros [] _. apply Hcont; [width|width|]. apply Hgrow. width. }
  runs_step.
  { runs_step. apply require_runs; intros. runs_step. runs_step. runs_step.
    apply require_runs; intros. apply Hcont; [width|width|]. apply Hgrow. width. }
  runs_step.
  { runs_step. apply require_runs; intros. runs_step. runs_step. runs_step; [exact I|].
    runs_step. runs_step. runs_step. runs_step. runs_step. runs_step.
    match goal with |- context [Z.land ?bits 0x1fff] => pose proof (fragment_offset_ok bits) end.
    runs_step.
    - repeat runs_step. constructor; cbn; try done.
      + exists (offset + 8), total_len. split; [lia|]. done.
      + subst. rewrite len_sub; lia.
      + split; [done|]. split; [lia|]. split; [lia|]. split; [done|lia].
    - apply Hcont; [lia|lia|]. cbn in *. split; [done|]. split; [lia|].
      exists (offset + 8). split; [lia|done]. }
  repeat runs_step. constructor; cbn; try done.
  - exists offset, total_len. split; [lia|]. done.
  - subst. rewrite len_sub; lia.
  - revert Hfr. unfold chain_fragment_ok. destruct frag, fp; try done.
    intros (? & Hz & a & Ha & ->). rewrite Hz. subst. split; [done|]. split; [lia|]. split; [done|].
    split; [apply sub_suffix; lia|]. rewrite len_sub; lia.
Qed.

Lemma parse_ipv6_runs packet enforce :
  bytes_ok packet -> runs (parse_ipv6 packet enforce) (parsed_ok packet).
Proof.
  intros H. unfold parse_ipv6. runs_step; [exact I|]. runs_step. runs_step. runs_step. runs_step.
  match goal with H : checked_add _ _ = Some _ |- _ => apply checked_add_Some in H as [-> ?] end.
  runs_step; [exact I|]. repeat runs_step. subst.
  apply parse_ipv6_chain_runs; try done; try width.
  - apply (ip_wf_v6 packet 8); [done|lia|lia].
  - apply (ip_wf_v6 packet 24); [done|lia|lia].
Qed.

Lemma parse_ip_packet_runs le packet verify :
  bytes_ok packet -> runs (parse_ip_packet le packet verify) (parsed_ok packet).
Proof.
  intros H. unfold parse_ip_packet. runs_step. runs_step.
  repeat runs_step; auto using parse_ipv4_runs, parse_ipv6_runs.
Qed.

(** ** The pseudo-header checksum *)
Definition pseudo_sum (source destination : IpAddr) (protocol length : Z) : Z :=
  word_sum (octets source) + word_sum (octets destination) + protocol + length.

Definition same_family (a b : IpAddr) : Prop :=
  match a, b with V4 _, V4 _ | V6 _, V6 _ => True | _, _ => False end.

Lemma accumulate_two le s d :
  bytes_ok s -> bytes_ok d -> len s <= 16 -> len d <= 16 ->
  exists v, (sum ← checksum_accumulate (E := WireError) le s 0; checksum_accumulate le d sum) = Ok v /\
    0 <= v < 524288 /\ forall k, 0 <= k -> ones (v + k) = ones (word_sum s + word_sum d + k).
Proof.
  intros Hs Hd Ls Ld.
  destruct (checksum_accumulate_spec (E := WireError) le s 0) as (v & Hv & Hr & Ho);
    [done|width|unfold short_enough; lia|].
  destruct (checksum_accumulate_spec (E := WireError) le d v) as (w & Hw & Hwr & Hwo);
    [done|width|unfold short_enough; lia|].
  pose proof (word_sum_nonneg _ Hs). pose proof (word_sum_nonneg _ Hd).
  exists w. rewrite Hv. cbn [mbind outcome_bind]. split; [done|]. split; [lia|].
  intros k Hk. rewrite <- (ones_add w) by lia. rewrite Hwo, ones_add by lia.
  replace (v + word_sum d + k) with (v + (word_sum d + k)) by lia.
  rewrite <- (ones_add v), Ho, ones_add by lia. f_equal. lia.
Qed.

Lemma ip_wf_octets a : ip_wf a -> bytes_ok (octets a) /\ len (octets a) <= 16.
Proof. destruct a; cbn; intros [Hl Hb]; split; auto; unfold len; lia. Qed.

Lemma transport_checksum_ones le source destination protocol payload :
  ip_wf source -> ip_wf destination -> same_family source destination ->
  is_u8 protocol -> bytes_ok payload -> len payload <= 1000000 ->
  transport_checksum_sum le source destination protocol payload
  = Ok (ones (pseudo_sum source destination protocol (len payload) + word_sum payload)).
Proof.
  intros Hs Hd Hf Hp Hb HL. pose proof (len_nonneg payload).
  destruct (ip_wf_octets _ Hs) as [Hso Hsl]. destruct (ip_wf_octets _ Hd) as [Hdo Hdl].
  destruct (accumulate_two le _ _ Hso Hdo Hsl Hdl) as (v & Hv & Hr & Hk).
  assert (Hfin : checksum_sum (E := WireError) le payload (v + protocol + len payload)
    = Ok (ones (pseudo_sum source destination protocol (len payload) + word_sum payload))).
  { rewrite checksum_sum_ones by (done || unfold short_enough; width). f_equal. unfold pseudo_sum.
    pose proof (word_sum_nonneg _ Hb).
    replace (v + protocol + len payload + word_sum payload)
      with (v + (protocol + len payload + word_sum payload)) by lia.
    rewrite Hk by width. f_equal. lia. }
  unfold transport_checksum_sum, try_u32.
  replace (len payload <=? u32_max) with true by width.
  change (default u32_max (Some (len payload))) with (len payload).
  destruct source as [s|s], destination as [d|d]; cbn in Hf; try done; cbn [octets] in *;
    destruct (checksum_accumulate le s 0) as [v1| | |]; try discriminate Hv;
    cbn [mbind outcome_bind] in Hv |- *; rewrite Hv; cbn [mbind outcome_bind];
    unfold wrap32.
  - rewrite (Z.mod_small (v + protocol)), Z.mod_small by width. exact Hfin.
  - rewrite (Z.mod_small (v + len payload)), Z.mod_small by width. rewrite <- Hfin. f_equal. lia.
Qed.

(** ** Emission *)
Lemma list_4 {A} (l : list A) : length l = 4%nat -> exists a b c d, l = [a; b; c; d].
Proof. destruct l as [|a [|b [|c [|d [|]]]]]; try discriminate. by exists a, b, c, d. Qed.

(** The twenty bytes an emitter writes for IPv4, [ck] being the checksum field. *)
Definition ipv4_header (total_len id hop_limit protocol : Z) (ck source destination : list Z) : list Z :=
  [0x45; 0] ++ to_be16 total_len ++ to_be16 id ++ [0x40; 0; hop_limit; protocol] ++ ck ++ source ++ destination.

Definition ipv6_header (payload_len hop_limit protocol : Z) (source destination : list Z) : list Z :=
  [0x60; 0; 0; 0] ++ to_be16 payload_len ++ [protocol; hop_limit] ++ source ++ destination.

(** Evaluates one write into the known front part of a buffer. *)
Ltac write_step :=
  rewrite write_at_app_l by (autorewrite with lens; lia);
  match goal with
  | |- context [write_at (?x :: ?h) ?a ?bs] =>
      let r := eval vm_compute in (write_at (E := WireError) (x :: h) a bs) in
      change (write_at (x :: h) a bs) with r
  end; cbn [mbind outcome_bind].

Lemma write_ipv4_header_value t total_len id hop_limit protocol s d :
  length s = 4%nat -> length d = 4%nat ->
  write_ipv4_header (zeros 20 ++ t) total_len id hop_limit protocol s d
  = Ok (ipv4_header total_len id hop_limit protocol [0; 0] s d ++ t).
Proof.
  intros (a & b & c & e & ->)%list_4 (a' & b' & c' & e' & ->)%list_4.
  unfold write_ipv4_header, ipv4_header, to_be16.
  generalize (total_len / 256) (total_len mod 256) (id / 256) (id mod 256). intros.
  change (zeros 20) with [0;0;0;0;0;0;0;0;0;0;0;0;0;0;0;0;0;0;0;0].
  repeat write_step. done.
Qed.

Lemma list_16 {A} (l : list A) : length l = 16%nat ->
  exists a b c d e f g h i j k m n o p q, l = [a; b; c; d; e; f; g; h; i; j; k; m; n; o; p; q].
Proof.
  do 17 (destruct l as [|? l]; [try discriminate|]); try discriminate.
  intros _. by repeat eexists.
Qed.

Lemma write_ipv6_header_value t payload_len hop_limit protocol s d :
  length s = 16%nat -> length d = 16%nat ->
  write_ipv6_header (zeros 40 ++ t) payload_len hop_limit protocol s d
  = Ok (ipv6_header payload_len hop_limit protocol s d ++ t).
Proof.
  intros Hs Hd. apply list_16 in Hs as (? & ? & ? & ? & ? & ? & ? & ? & ? & ? & ? & ? & ? & ? & ? & ? & ->).
  apply list_16 in Hd as (? & ? & ? & ? & ? & ? & ? & ? & ? & ? & ? & ? & ? & ? & ? & ? & ->).
  unfold write_ipv6_header, ipv6_header, to_be16.
  generalize (payload_len / 256) (payload_len mod 256). intros.
  let z := eval vm_compute in (zeros 40) in change (zeros 40) with z.
  repeat write_step. done.
Qed.

Lemma ipv4_header_len total id hop protocol ck s d :
  len ck = 2 -> len s = 4 -> len d = 4 -> len (ipv4_header total id hop protocol ck s d) = 20.
Proof. intros. unfold ipv4_header. autorewrite with lens. lia. Qed.

Lemma ipv6_header_len n hop protocol s d :
  len s = 16 -> len d = 16 -> len (ipv6_header n hop protocol s d) = 40.
Proof. intros. unfold ipv6_header. autorewrite with lens. lia. Qed.

Lemma bytes_ok_nil : bytes_ok [].
Proof. constructor. Qed.

Lemma ipv4_header_ok total id hop protocol ck s d :
  is_u16 total -> is_u16 id -> is_u8 hop -> is_u8 protocol -> bytes_ok ck -> bytes_ok s -> bytes_ok d ->
  bytes_ok (ipv4_header total id hop protocol ck s d).
Proof.
  intros. unfold ipv4_header. rewrite !bytes_ok_app, !bytes_ok_cons.
  repeat split; auto using bytes_ok_nil with bytes; width.
Qed.

(** The header with its checksum filled in sums to all ones. *)
Lemma ipv4_header_verifies total id hop protocol s d ck :
  bytes_ok (ipv4_header total id hop protocol [0; 0] s d) ->
  ck = finalize_checksum (ones (word_sum (ipv4_header total id hop protocol [0; 0] s d))) ->
  ones (word_sum (ipv4_header total id hop protocol (to_be16 ck) s d)) = 65535.
Proof.
  intros Hok Hck. pose proof (word_sum_nonneg _ Hok) as Hn.
  assert (E : word_sum (ipv4_header total id hop protocol (to_be16 ck) s d)
    = word_sum (ipv4_header total id hop protocol [0; 0] s d) + ck).
  { exact (word_sum_patch ([0x45; 0] ++ to_be16 total ++ to_be16 id ++ [0x40; 0; hop; protocol])
             (s ++ d) ck eq_refl). }
  rewrite E, Hck. by apply ones_finalize.
Qed.

(** A write that covers one part of a buffer given by its parts. *)
Lemma write_at_parts {E A} (l pre x y post : list A) k :
  l = pre ++ x ++ post -> len x = len y -> k = len pre ->
  write_at (E := E) l k y = Ok (pre ++ y ++ post).
Proof.
  intros -> H ->. rewrite write_at_app_r, Z.sub_diag by lia. rewrite write_at_app_l by lia.
  by rewrite write_at_all.
Qed.

(** The header with its checksum, before anything else of the packet. *)
Lemma ipv4_header_written le t total id hop protocol s d :
  ip_wf (V4 s) -> ip_wf (V4 d) -> is_u16 total -> is_u16 id -> is_u8 hop -> is_u8 protocol ->
  (packet ← write_ipv4_header (zeros 20 ++ t) total id hop protocol s d;
   header ← slice packet 0 20;
   sum ← checksum_sum le header 0;
   write_at packet 10 (to_be16 (finalize_checksum sum)))
  = Ok (ipv4_header total id hop protocol
          (to_be16 (finalize_checksum (ones (word_sum (ipv4_header total id hop protocol [0; 0] s d))))) s d ++ t).
Proof.
  intros [Hsl Hsb] [Hdl Hdb] Ht Hid Hh Hp.
  assert (Hlen : forall ck, len ck = 2 -> len (ipv4_header total id hop protocol ck s d) = 20).
  { intros. apply ipv4_header_len; unfold len in *; lia. }
  assert (Hok : bytes_ok (ipv4_header total id hop protocol [0; 0] s d)).
  { apply ipv4_header_ok; try done. repeat constructor; done. }
  pose proof (len_nonneg t).
  rewrite write_ipv4_header_value by done. cbn [mbind outcome_bind].
  rewrite slice_Ok by (rewrite ?len_app, ?Hlen by done; lia). rewrite sub_app_l by (by rewrite Hlen). cbn [mbind outcome_bind].
  rewrite checksum_sum_ones by (done || width || unfold short_enough; rewrite Hlen by done; lia).
  rewrite Z.add_0_l. cbn [mbind outcome_bind]. set (ck := to_be16 _).
  rewrite (write_at_parts _ ([0x45; 0] ++ to_be16 total ++ to_be16 id ++ [0x40; 0; hop; protocol]) [0; 0] ck (s ++ d ++ t));
    [|unfold ipv4_header; by rewrite <- !(assoc_L (++))|done|done].
  unfold ipv4_header. by rewrite <- !(assoc_L (++)).
Qed.

(** A 16-bit field read back from a list known by the equation [H]. *)
Ltac be16_field x H :=
  rewrite H; transitivity (Ok (E := WireError) (be16 (x / 256) (x mod 256)));
  [reflexivity | by rewrite be16_to_be16].

(** What any receiver parses out of an emitted IPv4 header. *)
Lemma parse_emitted_ipv4 le total id hop protocol ck s d body :
  length s = 4%nat -> length d = 4%nat ->
  total = 20 + len body -> is_u16 total -> is_u16 id -> is_u8 hop -> is_u8 protocol -> is_u16 ck ->
  bytes_ok s -> bytes_ok d ->
  ones (word_sum (ipv4_header total id hop protocol (to_be16 ck) s d)) = 65535 ->
  parse_ip_packet le (ipv4_header total id hop protocol (to_be16 ck) s d ++ body) true
  = Ok {| version := IpV4; source := V4 s; destination := V4 d; next_header := protocol;
          hop_limit := hop; fragment := None; fragment_payload := None; payload := body |}.
Proof.
  intros (a & b & c & e & ->)%list_4 (a' & b' & c' & e' & ->)%list_4 Ht Hu Hid Hhop Hpr Hcku Hs Hd Hck.
  assert (Hok : bytes_ok (ipv4_header total id hop protocol (to_be16 ck) [a; b; c; e] [a'; b'; c'; e']))
    by (apply ipv4_header_ok; auto with bytes).
  assert (Hlen : len (ipv4_header total id hop protocol (to_be16 ck) [a; b; c; e] [a'; b'; c'; e']) = 20)
    by done.
  pose proof (len_nonneg body) as Hbody.
  change (parse_ip_packet le (ipv4_header total id hop protocol (to_be16 ck) [a; b; c; e] [a'; b'; c'; e'] ++ body) true)
    with (parse_ipv4 le (ipv4_header total id hop protocol (to_be16 ck) [a; b; c; e] [a'; b'; c'; e'] ++ body) true).
  remember (ipv4_header total id hop protocol (to_be16 ck) [a; b; c; e] [a'; b'; c'; e']) as h eqn:Eh.
  assert (I0 : idx (E := WireError) (h ++ body) 0 = Ok 0x45) by (subst h; reflexivity).
  assert (I2 : idx_be16 (E := WireError) (h ++ body) 2 = Ok total) by be16_field total Eh.
  assert (I4 : idx_be16 (E := WireError) (h ++ body) 4 = Ok id) by be16_field id Eh.
  assert (I6 : idx_be16 (E := WireError) (h ++ body) 6 = Ok 0x4000) by (subst h; reflexivity).
  assert (I8 : idx (E := WireError) (h ++ body) 8 = Ok hop) by (subst h; reflexivity).
  assert (I9 : idx (E := WireError) (h ++ body) 9 = Ok protocol) by (subst h; reflexivity).
  assert (S12 : sub (h ++ body) 12 16 = [a; b; c; e]) by (subst h; reflexivity).
  assert (S16 : sub (h ++ body) 16 20 = [a'; b'; c'; e']) by (subst h; reflexivity).
  assert (Sh : sub (h ++ body) 0 20 = h) by (by apply sub_app_l).
  assert (Sb : sub (h ++ body) 20 total = body) by (apply sub_app_tail; lia).
  clear Eh. unfold parse_ipv4.
  decide_if. rewrite I0. cbn [mbind outcome_bind]. change (Z.land 69 15 * 4) with 20.
  decide_if. rewrite I2. cbn [mbind outcome_bind]. decide_if.
  rewrite !slice_Ok by (autorewrite with lens; lia).
  cbn [mbind outcome_bind]. change (sub (h ++ body) 20 20) with (@nil Z).
  change (validate_ipv4_options []) with (Ok (E := WireError) tt). cbn [mbind outcome_bind].
  rewrite Sh, checksum_sum_ones by (done || width || unfold short_enough; lia).
  rewrite Z.add_0_l, Hck. cbn [mbind outcome_bind mret outcome_ret]. change (negb (65535 =? 65535)) with false.
  cbn iota. rewrite I6. cbn [mbind outcome_bind].
  change (Z.land 16384 32768) with 0. change (Z.land 16384 8191) with 0. change (Z.land 16384 8192) with 0.
  cbn [negb Z.eqb orb andb Z.mul]. rewrite andb_false_r. rewrite I4. cbn [mbind outcome_bind].
  by rewrite Sb, S12, S16, I9, I8.
Qed.

Definition is_extension (next_header : Z) : bool :=
  (next_header =? 0) || (next_header =? 43) || (next_header =? 44) || (next_header =? 51) || (next_header =? 60).

Lemma parse_ipv6_chain_end rounds packet enforce total_len src dst nh pointer offset frag fp :
  is_extension nh = false ->
  parse_ipv6_chain (S rounds) packet enforce total_len src dst nh pointer offset frag fp
  = (hop_limit ← idx packet 7;
     payload ← slice packet offset total_len;
     mret {| version := IpV6; source := V6 src; destination := V6 dst;
             next_header := nh; hop_limit := hop_limit; fragment := frag;
             fragment_payload := fp; payload := payload |}).
Proof.
  unfold is_extension. intros Hext. cbn [parse_ipv6_chain].
  replace (nh =? 0) with false by lia. replace (nh =? 43) with false by lia.
  replace (nh =? 60) with false by lia. replace (nh =? 51) with false by lia.
  replace (nh =? 44) with false by lia. done.
Qed.

Lemma parse_ipv6_emitted n hop protocol s d body enforce :
  length s = 16%nat -> length d = 16%nat -> n = len body -> is_u16 n ->
  is_extension protocol = false ->
  parse_ipv6 (ipv6_header n hop protocol s d ++ body) enforce
  = Ok {| version := IpV6; source := V6 s; destination := V6 d; next_header := protocol;
          hop_limit := hop; fragment := None; fragment_payload := None; payload := body |}.
Proof.
  intros Hs Hd Hn Hu Hext.
  apply list_16 in Hs as (? & ? & ? & ? & ? & ? & ? & ? & ? & ? & ? & ? & ? & ? & ? & ? & Es).
  apply list_16 in Hd as (? & ? & ? & ? & ? & ? & ? & ? & ? & ? & ? & ? & ? & ? & ? & ? & Ed).
  pose proof (len_nonneg body) as Hbody.
  remember (ipv6_header n hop protocol s d) as h eqn:Eh.
  assert (Hlen : len h = 40) by (subst; done).
  assert (I4 : idx_be16 (E := WireError) (h ++ body) 4 = Ok n) by be16_field n Eh.
  assert (I6 : idx (E := WireError) (h ++ body) 6 = Ok protocol) by (subst h s d; reflexivity).
  assert (I7 : idx (E := WireError) (h ++ body) 7 = Ok hop) by (subst h s d; reflexivity).
  assert (S8 : sub (h ++ body) 8 24 = s) by (subst h s d; reflexivity).
  assert (S24 : sub (h ++ body) 24 40 = d) by (subst h s d; reflexivity).
  assert (Sb : sub (h ++ body) 40 (40 + n) = body) by (apply sub_app_tail; lia).
  clear Eh Es Ed. unfold parse_ipv6.
  decide_if. rewrite I4. cbn [mbind outcome_bind]. unfold checked_add.
  decide_if. cbn [ok_or mbind outcome_bind]. decide_if.
  rewrite !slice_Ok by (autorewrite with lens; lia). cbn [mbind outcome_bind].
  rewrite S8, S24, I6. cbn [mbind outcome_bind]. rewrite parse_ipv6_chain_end by done.
  rewrite I7. cbn [mbind outcome_bind]. rewrite slice_Ok by (autorewrite with lens; lia).
  cbn [mbind outcome_bind]. by rewrite Sb.
Qed.

Lemma parse_emitted_ipv6 le n hop protocol s d body verify :
  length s = 16%nat -> length d = 16%nat -> n = len body -> is_u16 n ->
  is_extension protocol = false ->
  parse_ip_packet le (ipv6_header n hop protocol s d ++ body) verify
  = Ok {| version := IpV6; source := V6 s; destination := V6 d; next_header := protocol;
          hop_limit := hop; fragment := None; fragment_payload := None; payload := body |}.
Proof.
  intros. change (parse_ip_packet le (ipv6_header n hop protocol s d ++ body) verify)
    with (parse_ipv6 (ipv6_header n hop protocol s d ++ body) true). by apply parse_ipv6_emitted.
Qed.

(** ** The UDP round trip *)
Definition udp_header (sport dport length : Z) (ck : list Z) : list Z :=
  to_be16 sport ++ to_be16 dport ++ to_be16 length ++ ck.

(** A checksum field that is the complement of the rest of a transport
    segment, or all ones in place of zero, verifies. *)
Definition udp_checksum (sum : Z) : Z :=
  if finalize_checksum (ones sum) =? 0 then 0xffff else finalize_checksum (ones sum).

Lemma udp_checksum_range sum : 0 <= sum -> is_u16 (udp_checksum sum) /\ udp_checksum sum <> 0.
Proof.
  intros H. pose proof (ones_range sum H). unfold udp_checksum, finalize_checksum.
  case_bool; width.
Qed.

Lemma udp_checksum_verifies sum : 0 <= sum -> ones (sum + udp_checksum sum) = 65535.
Proof.
  intros H. unfold udp_checksum. case_bool; [|by apply ones_finalize].
  destruct (ones_decompose sum H) as (k & Hk & Hk0 & Hz). unfold finalize_checksum in *.
  rewrite (ones_congr _ 65535 (k + 1)); [done|lia|lia|lia].
Qed.

Lemma word_sum_udp_header sport dport n ck payload :
  word_sum (udp_header sport dport n (to_be16 ck) ++ payload)
  = word_sum (udp_header sport dport n [0; 0] ++ payload) + ck.
Proof.
  unfold udp_header. rewrite <- !(assoc_L (++)).
  exact (word_sum_patch (to_be16 sport ++ to_be16 dport ++ to_be16 n) payload ck eq_refl).
Qed.

Lemma bytes_ok_udp_header sport dport n ck :
  is_u16 sport -> is_u16 dport -> is_u16 n -> bytes_ok ck -> bytes_ok (udp_header sport dport n ck).
Proof. intros. unfold udp_header. rewrite !bytes_ok_app. auto with bytes. Qed.

Lemma write_udp_value le h source destination payload :
  ip_wf (sa_ip source) -> ip_wf (sa_ip destination) -> same_family (sa_ip source) (sa_ip destination) ->
  is_u16 (sa_port source) -> is_u16 (sa_port destination) -> bytes_ok payload ->
  let n := 8 + len payload in
  is_u16 n ->
  let ck := udp_checksum (pseudo_sum (sa_ip source) (sa_ip destination) UDP_PROTOCOL n
              + word_sum (udp_header (sa_port source) (sa_port destination) n [0; 0] ++ payload)) in
  write_udp le (h ++ zeros 8 ++ zeros (len payload)) (len h) source destination n payload
  = Ok (h ++ udp_header (sa_port source) (sa_port destination) n (to_be16 ck) ++ payload).
Proof.
  intros Hs Hd Hf Hsp Hdp Hp n Hn ck. unfold write_udp.
  set (sp := sa_port source) in *. set (dp := sa_port destination) in *.
  pose proof (len_nonneg payload) as Hlp.
  rewrite (write_at_parts _ h [0; 0] (to_be16 sp) ([0; 0; 0; 0; 0; 0] ++ zeros (len payload))) by done.
  cbn [mbind outcome_bind].
  rewrite (write_at_parts _ (h ++ to_be16 sp) [0; 0] (to_be16 dp) ([0; 0; 0; 0] ++ zeros (len payload)))
    by (by rewrite <- ?(assoc_L (++)) || by autorewrite with lens).
  cbn [mbind outcome_bind].
  rewrite (write_at_parts _ (h ++ to_be16 sp ++ to_be16 dp) [0; 0] (to_be16 n) ([0; 0] ++ zeros (len payload)))
    by (by rewrite <- ?(assoc_L (++)) || by autorewrite with lens).
  cbn [mbind outcome_bind].
  rewrite (write_at_parts _ (h ++ udp_header sp dp n [0; 0]) (zeros (len payload)) payload [])
    by (unfold udp_header; by rewrite <- ?(assoc_L (++)), ?app_nil_r
        || by autorewrite with lens || by rewrite len_zeros).
  cbn [mbind outcome_bind]. rewrite app_nil_r.
  assert (Hudp : bytes_ok (udp_header sp dp n [0; 0] ++ payload)).
  { rewrite bytes_ok_app. split; [|done]. apply bytes_ok_udp_header; try done. repeat constructor; done. }
  assert (Hlen : len (udp_header sp dp n [0; 0] ++ payload) = n)
    by (unfold udp_header; autorewrite with lens; lia).
  rewrite <- (assoc_L (++)). unfold slice_from.
  rewrite slice_Ok by (rewrite ?(len_app h); pose proof (len_nonneg h); width).
  rewrite sub_app_tail by (rewrite ?len_app; done). cbn [mbind outcome_bind].
  rewrite transport_checksum_ones by (done || width). rewrite Hlen. cbn [mbind outcome_bind].
  match goal with |- context [finalize_checksum (ones ?sum)] => fold (udp_checksum sum) end. fold ck.
  rewrite (write_at_parts _ (h ++ to_be16 sp ++ to_be16 dp ++ to_be16 n) [0; 0] (to_be16 ck) payload).
  - unfold udp_header. by rewrite <- !(assoc_L (++)).
  - unfold udp_header. by rewrite <- !(assoc_L (++)).
  - done.
  - by autorewrite with lens.
Qed.

Lemma parse_udp_value le ip sport dport ck data :
  next_header ip = UDP_PROTOCOL -> fragment ip = None ->
  ip_wf (source ip) -> ip_wf (destination ip) -> same_family (source ip) (destination ip) ->
  let n := 8 + len data in
  is_u16 n -> is_u16 sport -> is_u16 dport -> is_u16 ck -> ck <> 0 -> bytes_ok data ->
  payload ip = udp_header sport dport n (to_be16 ck) ++ data ->
  ones (pseudo_sum (source ip) (destination ip) UDP_PROTOCOL n
        + word_sum (udp_header sport dport n (to_be16 ck) ++ data)) = 65535 ->
  parse_udp_datagram le ip true
  = Ok {| udp_source := mkSocketAddr (source ip) sport;
          udp_destination := mkSocketAddr (destination ip) dport; udp_payload := data |}.
Proof.
  intros Hnh Hfr Hs Hd Hf n Hn Hsp Hdp Hck Hck0 Hdata Hpl Hsum.
  pose proof (len_nonneg data) as Hld.
  assert (Hok : bytes_ok (payload ip)).
  { rewrite Hpl, bytes_ok_app. split; [|done]. apply bytes_ok_udp_header; auto with bytes. }
  assert (Hlen : len (payload ip) = n) by (rewrite Hpl; unfold udp_header; autorewrite with lens; lia).
  assert (I0 : idx_be16 (E := WireError) (payload ip) 0 = Ok sport) by be16_field sport Hpl.
  assert (I2 : idx_be16 (E := WireError) (payload ip) 2 = Ok dport) by be16_field dport Hpl.
  assert (I4 : idx_be16 (E := WireError) (payload ip) 4 = Ok n) by be16_field n Hpl.
  assert (I6 : idx_be16 (E := WireError) (payload ip) 6 = Ok ck) by be16_field ck Hpl.
  unfold parse_udp_datagram, fragmented. rewrite Hnh, Hfr. cbn [negb Z.eqb UDP_PROTOCOL Pos.eqb].
  decide_if. rewrite I4. cbn [mbind outcome_bind]. decide_if.
  rewrite slice_Ok by width. rewrite <- Hlen, sub_all. cbn [mbind outcome_bind].
  rewrite I6. cbn [mbind outcome_bind]. replace (ck =? 0) with false by lia. rewrite andb_false_r. cbn [negb].
  rewrite transport_checksum_ones by (done || width).
  rewrite Hlen, Hpl, Hsum, <- Hpl. cbn [mbind outcome_bind mret outcome_ret]. change (negb (65535 =? 65535)) with false.
  cbn iota. rewrite I0, I2. cbn [mbind outcome_bind]. unfold slice_from. rewrite slice_Ok by width.
  cbn [mbind outcome_bind]. do 2 f_equal. rewrite Hlen, Hpl.
  by apply sub_app_tail.
Qed.

(** The largest payload one datagram of the family can carry. *)
Definition udp_payload_limit (a : IpAddr) : Z := match a with V4 _ => 65507 | V6 _ => 65527 end.

Lemma emit_udp_v4_value le s d sp dp sf df si di data hop id :
  let source := mkSocketAddrV6 (V4 s) sp sf si in let destination := mkSocketAddrV6 (V4 d) dp df di in
  ip_wf (V4 s) -> ip_wf (V4 d) -> is_u16 sp -> is_u16 dp -> bytes_ok data -> len data <= 65507 ->
  is_u8 hop -> is_u16 id ->
  let n := 8 + len data in
  let ck1 := finalize_checksum (ones (word_sum (ipv4_header (20 + n) id hop UDP_PROTOCOL [0; 0] s d))) in
  let ck2 := udp_checksum (pseudo_sum (V4 s) (V4 d) UDP_PROTOCOL n
               + word_sum (udp_header sp dp n [0; 0] ++ data)) in
  emit_udp_packet le source destination data hop id
  = Ok (ipv4_header (20 + n) id hop UDP_PROTOCOL (to_be16 ck1) s d
        ++ udp_header sp dp n (to_be16 ck2) ++ data).
Proof.
  intros source destination Hs Hd Hsp Hdp Hdata HL Hhop Hid n ck1 ck2.
  pose proof (len_nonneg data) as Hld. unfold emit_udp_packet, checked_add, try_u16.
  do 1 decide_if. cbn [ok_or mbind outcome_bind]. decide_if. cbn [ok_or mbind outcome_bind sa_ip source destination].
  cbn [mret outcome_ret mbind outcome_bind].
  decide_if. cbn [ok_or mbind outcome_bind]. fold n.
  replace (zeros (20 + n)) with (zeros 20 ++ zeros 8 ++ zeros (len data))
    by (unfold n; rewrite !zeros_app by lia; done).
  rewrite ipv4_header_written by (done || width). cbn [mbind outcome_bind]. fold ck1.
  assert (Hlen : len (ipv4_header (20 + n) id hop UDP_PROTOCOL (to_be16 ck1) s d) = 20).
  { destruct Hs, Hd. apply ipv4_header_len; unfold len in *; done || lia. }
  pose proof (write_udp_value le (ipv4_header (20 + n) id hop UDP_PROTOCOL (to_be16 ck1) s d)
    source destination data) as HW. rewrite Hlen in HW. apply HW; try done. width.
Qed.

Lemma emit_udp_v6_value le s d sp dp sf df si di data hop id :
  let source := mkSocketAddrV6 (V6 s) sp sf si in let destination := mkSocketAddrV6 (V6 d) dp df di in
  ip_wf (V6 s) -> ip_wf (V6 d) -> is_u16 sp -> is_u16 dp -> bytes_ok data -> len data <= 65527 ->
  let n := 8 + len data in
  let ck := udp_checksum (pseudo_sum (V6 s) (V6 d) UDP_PROTOCOL n
              + word_sum (udp_header sp dp n [0; 0] ++ data)) in
  emit_udp_packet le source destination data hop id
  = Ok (ipv6_header n hop UDP_PROTOCOL s d ++ udp_header sp dp n (to_be16 ck) ++ data).
Proof.
  intros source destination Hs Hd Hsp Hdp Hdata HL n ck.
  pose proof (len_nonneg data) as Hld. unfold emit_udp_packet, checked_add, try_u16.
  decide_if. cbn [ok_or mbind outcome_bind]. decide_if.
  cbn [ok_or mbind outcome_bind sa_ip source destination mret outcome_ret]. fold n.
  replace (zeros (40 + n)) with (zeros 40 ++ zeros 8 ++ zeros (len data))
    by (unfold n; rewrite !zeros_app by lia; done).
  destruct Hs as [Hsl Hsb], Hd as [Hdl Hdb].
  rewrite write_ipv6_header_value by done. cbn [mbind outcome_bind].
  pose proof (write_udp_value le (ipv6_header n hop UDP_PROTOCOL s d) source destination data) as HW.
  rewrite ipv6_header_len in HW by (unfold len; lia). apply HW; try done. width.
Qed.

(** What the emitted transport part gives the receiver. *)
Lemma parse_emitted_udp le ip sport dport data :
  next_header ip = UDP_PROTOCOL -> fragment ip = None ->
  ip_wf (source ip) -> ip_wf (destination ip) -> same_family (source ip) (destination ip) ->
  let n := 8 + len data in
  is_u16 n -> is_u16 sport -> is_u16 dport -> bytes_ok data ->
  payload ip = udp_header sport dport n (to_be16 (udp_checksum
    (pseudo_sum (source ip) (destination ip) UDP_PROTOCOL n + word_sum (udp_header sport dport n [0; 0] ++ data)))) ++ data ->
  parse_udp_datagram le ip true
  = Ok {| udp_source := mkSocketAddr (source ip) sport;
          udp_destination := mkSocketAddr (destination ip) dport; udp_payload := data |}.
Proof.
  intros Hnh Hfr Hs Hd Hf n Hn Hsp Hdp Hdata Hpl.
  set (sum := pseudo_sum (source ip) (destination ip) UDP_PROTOCOL n
    + word_sum (udp_header sport dport n [0; 0] ++ data)) in *.
  assert (0 <= sum).
  { destruct (ip_wf_octets _ Hs) as [Ho _]. destruct (ip_wf_octets _ Hd) as [Ho' _].
    pose proof (word_sum_nonneg _ Ho). pose proof (word_sum_nonneg _ Ho').
    assert (0 <= word_sum (udp_header sport dport n [0; 0] ++ data)).
    { apply word_sum_nonneg, bytes_ok_app. split; [|done].
      apply bytes_ok_udp_header; try done. repeat constructor; done. }
    unfold sum, pseudo_sum, UDP_PROTOCOL. width. }
  destruct (udp_checksum_range sum) as [? ?]; [done|].
  apply (parse_udp_value le ip sport dport (udp_checksum sum) data); try done.
  rewrite word_sum_udp_header, Z.add_assoc. by apply udp_checksum_verifies.
Qed.

(** Parsing a UDP datagram out of any packet [parse_ip_packet] returned
    never panics, and the data it hands on is the tail of the IP payload after
    the eight header bytes, at most as long as the header's length field. *)
Lemma parse_udp_datagram_runs (le : bool) (packet : list Z) (verify verify' : bool) (ip : ParsedIpPacket) :
  bytes_ok packet -> parse_ip_packet le packet verify = Ok ip ->
  runs (parse_udp_datagram le ip verify')
       (fun udp => sa_ip (udp_source udp) = source ip /\ sa_ip (udp_destination udp) = destination ip /\
                   is_u16 (sa_port (udp_source udp)) /\ is_u16 (sa_port (udp_destination udp)) /\
                   exists n, 8 <= n <= len (payload ip) /\ udp_payload udp = sub (payload ip) 8 n).
Proof.
  intros H Hip. pose proof (runs_ok _ _ _ (parse_ip_packet_runs le packet verify H) Hip) as Hok.
  destruct (po_payload _ _ Hok) as (a & b & Ha & Hb & Hb' & Hpl).
  assert (Hpok : bytes_ok (payload ip)) by (rewrite Hpl; auto with bytes).
  assert (Hplen : len (payload ip) <= 65555) by (rewrite Hpl, len_sub; lia).
  unfold parse_udp_datagram. runs_step; [exact I|]. runs_step; [exact I|]. runs_step; [exact I|].
  runs_step. runs_step. runs_step; [exact I|]. runs_step. runs_step. runs_step. runs_step.
  runs_step. apply (runs_mono _ (fun _ => True)).
  { runs_step; [|done]. runs_step; [done|]. runs_step; [|done]. runs_step.
    rewrite transport_checksum_ones; [done|apply Hok|apply Hok| |done|done|lia].
    pose proof (po_family _ _ Hok) as Hf. destruct (version ip), (source ip), (destination ip); done. }
  intros bad _. repeat runs_step. cbn. do 4 (split; [done|]). exists x. split; [lia|].
  match goal with Hs : ?d = sub ?u 8 _, Hu : ?u = sub (payload ip) 0 x, Hl : len ?u = x - 0 |- _ =>
    rewrite Hs, Hl, Hu end.
  rewrite sub_sub by lia. f_equal; lia.
Qed.

(** ** What the parser has read *)
Lemma require_inv packet offset n total u : require packet offset n total = Ok u ->
  offset + n <= total /\ offset + n <= len packet.
Proof.
  unfold require, checked_add. case_bool; cbn; [|done]. intros Hr. ok_step Hr; [done|].
  apply orb_false_iff in Hb as [H1 H2]. lia.
Qed.

Lemma parse_v6_inv le p ip : parse_ip_packet le p true = Ok ip -> version ip = IpV6 ->
  exists n nh, idx_be16 (E := WireError) p 4 = Ok n /\ 40 <= len p /\ 40 + n <= len p /\ get p 6 = Some nh /\
    parse_ipv6_chain 8 p true (40 + n) (sub p 8 24) (sub p 24 40) nh 6 40 None None = Ok ip.
Proof.
  unfold parse_ip_packet. intros H Hv. ok_step H. ok_step H.
  { exfalso. unfold parse_ipv4 in H. repeat ok_step H; subst; done. }
  ok_step H; [|done]. unfold parse_ipv6 in H. ok_step H; [done|]. ok_step H. ok_step H. ok_step H; [done|].
  ok_step H. ok_step H. ok_step H. apply slice_inv in Hx2 as (-> & _), Hx3 as (-> & _). apply idx_inv in Hx4.
  unfold checked_add in Hx1. destruct (Z.leb_spec (40 + x0) u64_max); [|done]. injection Hx1 as <-.
  exists x0, x4. apply Z.ltb_ge in Hb1, Hb2. split_and!; done || lia.
Qed.

Lemma chain_ends rounds f enforce total src dst nh pointer off fr fp ip :
  parse_ipv6_chain rounds f enforce total src dst nh pointer off fr fp = Ok ip ->
  version ip = IpV6 /\ source ip = V6 src /\ destination ip = V6 dst.
Proof.
  revert nh pointer off fr fp. induction rounds as [|rounds IH]; intros nh pointer off fr fp H; [done|].
  cbn [parse_ipv6_chain] in H. cbv zeta beta in H.
  repeat ok_step H; try discriminate; first [exact (IH _ _ _ _ _ H)|by subst].
Qed.

Lemma version_nibble le p v ip : parse_ip_packet le p v = Ok ip ->
  exists b, get p 0 = Some b /\ (version ip = IpV6 <-> Z.shiftr b 4 = 6).
Proof.
  unfold parse_ip_packet. intros H. ok_step H. unfold ok_or in Hx. destruct (get p 0) as [b|]; [|done]. injection Hx as <-.
  exists b. split; [done|]. ok_step H; [|ok_step H; [|done]].
  - apply Z.eqb_eq in Hb. unfold parse_ipv4 in H. repeat ok_step H; subst; cbn; try done; (split; [done|lia]).
  - apply Z.eqb_eq in Hb0. split; [done|]. intros _. unfold parse_ipv6 in H. repeat ok_step H; try done; by apply chain_ends in H as [? _].
Qed.

(** ** Properties *)

(** C13: parsing is total and fail-closed.  On every byte string, either
    machine byte order and either verification flag, [parse_ip_packet] returns
    a packet or a [WireError]: no index, slice or [unreachable!] panics and no
    option loop runs on.  A packet it returns is well formed: addresses of its
    family, the payload a slice of the input, fragment data present exactly
    with a fragment header whose offset is a multiple of eight. *)
Theorem parse_ip_packet_total (le : bool) (packet : list Z) (verify : bool) :
  bytes_ok packet -> runs (parse_ip_packet le packet verify) (parsed_ok packet).
Proof. apply parse_ip_packet_runs. Qed.

(** Four bytes behind a hop-by-hop header and the fragment header of a later
    fragment. *)
Definition sample_fragment6 : list Z :=
  [0x60; 0; 0; 0; 0; 20; 0; 64] ++ repeat 1 16 ++ repeat 2 16 ++ [44; 0; 1; 4; 0; 0; 0; 0] ++ [17; 0; 0; 8; 0; 0; 0; 7] ++ [5; 6; 7; 8].

Lemma parse_ip_packet_total_witness : exists ip, parse_ip_packet true sample_fragment6 true = Ok ip /\ parsed_ok sample_fragment6 ip /\
  payload ip = [5; 6; 7; 8].
Proof.
  pose proof (parse_ip_packet_total true sample_fragment6 true) as T. eexists. split; [vm_compute; reflexivity|]. split; [|reflexivity].
  eapply runs_ok; [apply T; repeat constructor; discriminate|vm_compute; reflexivity].
Defined.

(** The UDP round trip.  For any two addresses of one family, ports, and
    any payload that fits the family's datagram, [emit_udp_packet] succeeds,
    and what it emits parses back, with every checksum verified and on a
    machine of either byte order, to the same addresses and ports, hop limit and
    data. *)
Lemma udp_emit_parse_roundtrip (le le' : bool) (src dst : SocketAddr) (data : list Z) (hop id : Z) :
  ip_wf (sa_ip src) -> ip_wf (sa_ip dst) -> same_family (sa_ip src) (sa_ip dst) ->
  is_u16 (sa_port src) -> is_u16 (sa_port dst) -> is_u8 hop -> is_u16 id ->
  bytes_ok data -> len data <= udp_payload_limit (sa_ip src) ->
  exists wire ip,
    emit_udp_packet le src dst data hop id = Ok wire /\
    parse_ip_packet le' wire true = Ok ip /\ hop_limit ip = hop /\ fragment ip = None /\
    parse_udp_datagram le' ip true
    = Ok {| udp_source := bare src; udp_destination := bare dst; udp_payload := data |}.
Proof.
  unfold bare. destruct src as [[s|s] sp sf si], dst as [[d|d] dp df di]; cbn [sa_ip sa_port same_family udp_payload_limit];
    intros Hs Hd Hf Hsp Hdp Hhop Hid Hdata HL; try done; pose proof (len_nonneg data).
  - destruct (Hs) as [Hsl Hsb]. destruct (Hd) as [Hdl Hdb]. eexists _, _.
    split; [by apply emit_udp_v4_value|].
    assert (Hok : bytes_ok (ipv4_header (20 + (8 + len data)) id hop UDP_PROTOCOL [0; 0] s d))
      by (apply ipv4_header_ok; try done; [width|repeat constructor; done]).
    split; [apply parse_emitted_ipv4; try done|].
    + unfold udp_header. autorewrite with lens. lia.
    + width.
    + pose proof (ones_range _ (word_sum_nonneg _ Hok)). unfold finalize_checksum. width.
    + by apply ipv4_header_verifies.
    + do 2 (split; [done|]).
      match goal with |- parse_udp_datagram _ ?ip _ = _ =>
        apply (parse_emitted_udp le' ip sp dp data) end; try done. width.
  - destruct (Hs) as [Hsl Hsb]. destruct (Hd) as [Hdl Hdb]. eexists _, _.
    split; [by apply emit_udp_v6_value|]. split; [apply parse_emitted_ipv6; try done|].
    + unfold udp_header. autorewrite with lens. lia.
    + width.
    + do 2 (split; [done|]).
      match goal with |- parse_udp_datagram _ ?ip _ = _ =>
        apply (parse_emitted_udp le' ip sp dp data) end; try done. width.
Qed.

