(* ===== verification/Icmp.v ===== *)
(** ICMP and ICMPv6 ([sail-netstack/src/ip/icmp.rs]): the parser, echo replies
    and error messages.  What is emitted parses back on any machine, errors go
    only to senders that may get one and are never answered by another. *)
From S2P Require Import Prelude Checksum IpWire.
From stdpp Require Import list strings.
#[local] Open Scope Z_scope.

Definition ICMPV4_PROTOCOL : Z := 1.
Definition ICMPV6_PROTOCOL : Z := 58.

Inductive IcmpMessage :=
| EchoRequest (identifier sequence : Z)
| EchoReply (identifier sequence : Z)
| DestinationUnreachable (code : Z)
| PacketTooBig (mtu : Z)
| TimeExceeded (code : Z)
| ParameterProblem (code pointer : Z)
| Other (kind code : Z).

Definition is_error (m : IcmpMessage) : bool :=
  match m with
  | DestinationUnreachable _ | PacketTooBig _ | TimeExceeded _ | ParameterProblem _ _ => true
  | _ => false
  end.

Record ParsedIcmpPacket := mkParsedIcmp { ic_message : IcmpMessage; ic_payload : list Z }.

Inductive IcmpErrorKind :=
| EDestinationUnreachable (code : Z)
| EPacketTooBig (mtu : Z)
| ETimeExceeded (code : Z)
| EParameterProblem (code pointer : Z)
| EUnsupportedProtocol.

Definition icmp_protocol (v : IpVersion) : Z :=
  match v with IpV4 => ICMPV4_PROTOCOL | IpV6 => ICMPV6_PROTOCOL end.

(** The [match] on version, kind and code, in the order of its arms. *)
Definition icmp_message (v : IpVersion) (kind code : Z) (payload : list Z) : outcome WireError IcmpMessage :=
  match v with
  | IpV4 =>
    if (kind =? 8) && (code =? 0) then
      identifier ← idx_be16 payload 4; sequence ← idx_be16 payload 6; mret (EchoRequest identifier sequence)
    else if (kind =? 0) && (code =? 0) then
      identifier ← idx_be16 payload 4; sequence ← idx_be16 payload 6; mret (EchoReply identifier sequence)
    else if (kind =? 3) && (code =? 4) then mtu ← idx_be16 payload 6; mret (PacketTooBig mtu)
    else if (kind =? 3) then mret (DestinationUnreachable code)
    else if (kind =? 11) then mret (TimeExceeded code)
    else if (kind =? 12) then pointer ← idx payload 4; mret (ParameterProblem code pointer)
    else mret (Other kind code)
  | IpV6 =>
    if (kind =? 128) && (code =? 0) then
      identifier ← idx_be16 payload 4; sequence ← idx_be16 payload 6; mret (EchoRequest identifier sequence)
    else if (kind =? 129) && (code =? 0) then
      identifier ← idx_be16 payload 4; sequence ← idx_be16 payload 6; mret (EchoReply identifier sequence)
    else if (kind =? 1) then mret (DestinationUnreachable code)
    else if (kind =? 2) && (code =? 0) then mtu ← idx_be32 payload 4; mret (PacketTooBig mtu)
    else if (kind =? 3) then mret (TimeExceeded code)
    else if (kind =? 4) then pointer ← idx_be32 payload 4; mret (ParameterProblem code pointer)
    else mret (Other kind code)
  end.

Definition parse_icmp_packet (le : bool) (ip : ParsedIpPacket) (verify_checksum : bool)
    : outcome WireError ParsedIcmpPacket :=
  if negb (next_header ip =? icmp_protocol (version ip)) then Err (Unsupported "not ICMP") else
  if fragmented ip then Err (Unsupported "ICMP requires IP reassembly") else
  if len (payload ip) <? 8 then Err Truncated else
  bad ← (if verify_checksum then
           sum ← match version ip with
                 | IpV4 => checksum_sum le (payload ip) 0
                 | IpV6 => transport_checksum_sum le (source ip) (destination ip) ICMPV6_PROTOCOL (payload ip)
                 end;
           mret (negb (sum =? 0xffff))
         else mret false);
  if (bad : bool) then Err Checksum else
  kind ← idx (payload ip) 0;
  code ← idx (payload ip) 1;
  message ← icmp_message (version ip) kind code (payload ip);
  rest ← slice_from (payload ip) 8;
  mret (mkParsedIcmp message rest).

(** ** Addresses *)
Definition invalid_error_address (a : IpAddr) : bool :=
  is_unspecified a || is_multicast a || match a with V4 o => is_broadcast4 o | V6 _ => false end.

Definition invalid_icmp_error_source (a : IpAddr) : bool :=
  match a with
  | V4 o => (first_octet o =? 0) || (first_octet o =? 127) || (224 <=? first_octet o)
  | V6 o => is_unspecified6 o || is_multicast6 o
  end.

(** ** Emission *)
Definition emit_icmp (le : bool) (source destination : IpAddr) (icmp : list Z) (hop_limit ipv4_identification : Z)
    : outcome WireError (list Z) :=
  '(header_len, protocol) ← match source, destination with
                            | V4 _, V4 _ => mret (20, ICMPV4_PROTOCOL)
                            | V6 _, V6 _ => mret (40, ICMPV6_PROTOCOL)
                            | _, _ => Err (Malformed "mixed address families")
                            end;
  total_len ← ok_or (checked_add header_len (len icmp)) (Malformed "ICMP length overflow");
  if (match source with V6 _ => true | V4 _ => false end) && (u16_max <? len icmp)
  then Err (Malformed "ICMPv6 packet too large") else
  icmp ← write_at icmp 2 [0; 0];
  sum ← match source with
        | V4 _ => checksum_sum le icmp 0
        | V6 _ => transport_checksum_sum le source destination protocol icmp
        end;
  icmp ← write_at icmp 2 (to_be16 (finalize_checksum sum));
  let packet := zeros total_len in
  packet ← match source, destination with
           | V4 s, V4 d =>
             total ← ok_or (try_u16 total_len) (Malformed "IPv4 packet too large");
             packet ← write_ipv4_header packet total ipv4_identification hop_limit protocol s d;
             header ← slice packet 0 20;
             sum ← checksum_sum le header 0;
             write_at packet 10 (to_be16 (finalize_checksum sum))
           | V6 s, V6 d =>
             payload_len ← ok_or (try_u16 (len icmp)) (Malformed "ICMPv6 packet too large");
             write_ipv6_header packet payload_len hop_limit protocol s d
           | _, _ => Panic
           end;
  write_at packet header_len icmp.

Definition emit_icmp_echo_reply (le : bool) (ip : ParsedIpPacket) (hop_limit : Z) : outcome WireError (list Z) :=
  parsed ← parse_icmp_packet le ip true;
  if negb (match ic_message parsed with EchoRequest _ _ => true | _ => false end)
  then Err (Unsupported "not ICMP echo request") else
  if invalid_error_address (source ip) || invalid_error_address (destination ip)
  then Err (Unsupported "ICMP echo reply requires unicast addresses") else
  icmp ← write_at (payload ip) 0 [match version ip with IpV4 => 0 | IpV6 => 129 end];
  icmp ← write_at icmp 2 [0; 0];
  emit_icmp le (destination ip) (source ip) icmp hop_limit 0.

Definition is_icmp_error (ip : ParsedIpPacket) : outcome WireError bool :=
  if negb (next_header ip =? icmp_protocol (version ip)) || (len (payload ip) <? 8) then mret false
  else
    kind ← idx (payload ip) 0;
    mret (match version ip with
          | IpV4 => (kind =? 3) || (kind =? 4) || (kind =? 5) || (kind =? 11) || (kind =? 12)
          | IpV6 => (1 <=? kind) && (kind <=? 4)
          end).

(** The walk of [ipv6_next_header_pointer]; [rounds] is what is left of eight. *)
Fixpoint next_header_pointer_loop (rounds : nat) (packet : list Z) (total_len next pointer offset : Z)
    : outcome WireError Z :=
  match rounds with
  | O => Err (Unsupported "IPv6 extension chain exceeds limit")
  | S rounds =>
    let continue length :=
      if (total_len <? offset + length) || (len packet <? offset + length) then Err Truncated
      else
        next ← idx packet offset;
        next_header_pointer_loop rounds packet total_len next offset (offset + length) in
    if (next =? 0) || (next =? 43) || (next =? 60) then
      if (total_len <? offset + 2) || (len packet <? offset + 2) then Err Truncated
      else units ← idx packet (offset + 1); continue ((units + 1) * 8)
    else if next =? 44 then continue 8
    else if next =? 51 then
      if (total_len <? offset + 2) || (len packet <? offset + 2) then Err Truncated
      else units ← idx packet (offset + 1); continue ((units + 2) * 4)
    else ok_or (try_u32 pointer) (Malformed "IPv6 header")
  end.

Definition ipv6_next_header_pointer (packet : list Z) : outcome WireError Z :=
  not_ipv6 ← (if len packet <? 40 then mret true else b0 ← idx packet 0; mret (negb (Z.shiftr b0 4 =? 6)));
  if (not_ipv6 : bool) then Err (Malformed "not IPv6") else
  payload_len ← idx_be16 packet 4;
  next ← idx packet 6;
  next_header_pointer_loop 8 packet (40 + payload_len) next 6 40.

Definition error_type (v : IpVersion) (error : IcmpErrorKind) : Z * Z :=
  match v, error with
  | IpV4, EDestinationUnreachable code => (3, code)
  | IpV4, EPacketTooBig _ => (3, 4)
  | IpV4, ETimeExceeded code => (11, code)
  | IpV4, EParameterProblem code _ => (12, code)
  | IpV4, EUnsupportedProtocol => (3, 2)
  | IpV6, EDestinationUnreachable code => (1, code)
  | IpV6, EPacketTooBig _ => (2, 0)
  | IpV6, ETimeExceeded code => (3, code)
  | IpV6, EParameterProblem code _ => (4, code)
  | IpV6, EUnsupportedProtocol => (4, 1)
  end.

(** The field after the checksum. *)
Definition write_error_field (v : IpVersion) (error : IcmpErrorKind) (invoking_packet icmp : list Z)
    : outcome WireError (list Z) :=
  match v, error with
  | IpV4, EPacketTooBig mtu => write_at icmp 6 (to_be16 (default u16_max (try_u16 mtu)))
  | IpV6, EPacketTooBig mtu => write_at icmp 4 (to_be32 mtu)
  | IpV4, EParameterProblem _ pointer => write_at icmp 4 [default u8_max (try_u8 pointer)]
  | IpV6, EParameterProblem _ pointer => write_at icmp 4 (to_be32 pointer)
  | IpV6, EUnsupportedProtocol =>
    pointer ← ipv6_next_header_pointer invoking_packet; write_at icmp 4 (to_be32 pointer)
  | _, _ => mret icmp
  end.

Definition max_quote (v : IpVersion) : Z := match v with IpV4 => 576 - 20 - 8 | IpV6 => 1280 - 40 - 8 end.

Definition suppressed (ip : ParsedIpPacket) : outcome WireError bool :=
  if (match fragment ip with Some f => negb (offset_bytes f =? 0) | None => false end)
     || invalid_error_address (destination ip) || invalid_icmp_error_source (source ip)
  then mret true else is_icmp_error ip.

(** The invoking packet; a report on an extension header must not fail on it. *)
Definition parse_invoking (le : bool) (invoking_packet : list Z) (error : IcmpErrorKind) : outcome WireError ParsedIpPacket :=
  match error with
  | EParameterProblem _ _ => parse_ip_packet_for_icmp_error le invoking_packet true
  | _ => parse_ip_packet le invoking_packet true
  end.

(** The length its header gives the invoking packet. *)
Definition invoking_len (v : IpVersion) (invoking_packet : list Z) : outcome WireError Z :=
  match v with
  | IpV4 => idx_be16 invoking_packet 2
  | IpV6 => n ← idx_be16 invoking_packet 4; mret (40 + n)
  end.

Definition emit_icmp_error (le : bool) (invoking_packet : list Z) (error : IcmpErrorKind) (hop_limit : Z)
    : outcome WireError (list Z) :=
  ip ← parse_invoking le invoking_packet error;
  refused ← suppressed ip;
  if (refused : bool) then Err (Unsupported "ICMP error response suppressed") else
  let '(kind, code) := error_type (version ip) error in
  length ← invoking_len (version ip) invoking_packet;
  let icmp := zeros (8 + Z.min length (max_quote (version ip))) in
  icmp ← write_at icmp 0 [kind];
  icmp ← write_at icmp 1 [code];
  icmp ← write_error_field (version ip) error invoking_packet icmp;
  let quote_len := len icmp - 8 in
  quote ← slice invoking_packet 0 quote_len;
  icmp ← write_at icmp 8 quote;
  emit_icmp le (destination ip) (source ip) icmp hop_limit 0.
