(* ===== verification/IcmpTheorems.v ===== *)
(** What [sail-netstack/src/ip/icmp.rs] promises: messages parse back, echo
    replies mirror the request, and errors quote the packet they are about. *)
From S2P Require Import Prelude Checksum IpWire Icmp.
From stdpp Require Import list strings.
#[local] Open Scope Z_scope.

(** ** Emission *)

(** What the checksum covers beside the message. *)
Definition icmp_base (source destination : IpAddr) (n : Z) : Z :=
  match source with V4 _ => 0 | V6 _ => pseudo_sum source destination ICMPV6_PROTOCOL n end.

Definition icmp_limit (v : IpVersion) : Z := match v with IpV4 => 65515 | IpV6 => 65535 end.

(** The message with its type, code, checksum and the rest. *)
Definition icmp_bytes (kind code ck : Z) (rest : list Z) : list Z := [kind; code] ++ to_be16 ck ++ rest.

Lemma icmp_bytes_ok kind code ck rest : is_u8 kind -> is_u8 code -> is_u16 ck -> bytes_ok rest ->
  bytes_ok (icmp_bytes kind code ck rest).
Proof. intros. unfold icmp_bytes. rewrite !bytes_ok_app, !bytes_ok_cons. auto 10 using bytes_ok_nil with bytes. Qed.

Lemma icmp_bytes_len kind code ck rest : len (icmp_bytes kind code ck rest) = 4 + len rest.
Proof. unfold icmp_bytes. autorewrite with lens. lia. Qed.

Lemma icmp_base_nonneg source destination n : ip_wf source -> ip_wf destination -> 0 <= n -> 0 <= icmp_base source destination n.
Proof.
  intros Hs Hd Hn. destruct source; [done|]. unfold icmp_base, pseudo_sum, ICMPV6_PROTOCOL.
  pose proof (word_sum_nonneg _ (proj1 (ip_wf_octets _ Hs))). pose proof (word_sum_nonneg _ (proj1 (ip_wf_octets _ Hd))). lia.
Qed.

(** The sum both the emitter and the parser compute. *)
Lemma icmp_sum le source destination icmp : ip_wf source -> ip_wf destination -> same_family source destination ->
  bytes_ok icmp -> len icmp <= 65535 ->
  match source with
  | V4 _ => checksum_sum le icmp 0
  | V6 _ => transport_checksum_sum le source destination ICMPV6_PROTOCOL icmp
  end = Ok (ones (icmp_base source destination (len icmp) + word_sum icmp)).
Proof.
  intros Hs Hd Hf B L. destruct source as [s|s].
  - rewrite checksum_sum_ones by (done || width || unfold short_enough; lia). done.
  - rewrite transport_checksum_ones by (done || width || lia). done.
Qed.

(** The header an emitted message gets. *)
Definition icmp_header (source destination : IpAddr) (n hop id : Z) : list Z :=
  match source, destination with
  | V4 s, V4 d => ipv4_header (20 + n) id hop ICMPV4_PROTOCOL
      (to_be16 (finalize_checksum (ones (word_sum (ipv4_header (20 + n) id hop ICMPV4_PROTOCOL [0; 0] s d))))) s d
  | _, _ => ipv6_header n hop ICMPV6_PROTOCOL (octets source) (octets destination)
  end.

Definition icmp_packet (source destination : IpAddr) (hop : Z) (payload : list Z) : ParsedIpPacket := {|
  version := family source; source := source; destination := destination; next_header := icmp_protocol (family source);
  hop_limit := hop; fragment := None; fragment_payload := None; payload := payload |}.

Lemma write_message {E} (h : list Z) n icmp : n = len icmp -> write_at (E := E) (h ++ zeros n) (len h) icmp = Ok (h ++ icmp).
Proof.
  intros ->. rewrite write_at_app_r, Z.sub_diag by lia. rewrite write_at_all; [done|]. apply len_zeros, len_nonneg.
Qed.

Definition icmp_checksum (source destination : IpAddr) (kind code : Z) (rest : list Z) : Z :=
  finalize_checksum (ones (icmp_base source destination (4 + len rest) + word_sum (icmp_bytes kind code 0 rest))).

Lemma emit_icmp_value le source destination kind code ck0 rest hop id :
  ip_wf source -> ip_wf destination -> same_family source destination -> is_u8 kind -> is_u8 code -> is_u8 hop -> is_u16 id ->
  bytes_ok rest -> len ck0 = 2 -> 4 + len rest <= icmp_limit (family source) ->
  emit_icmp le source destination ([kind; code] ++ ck0 ++ rest) hop id =
  Ok (icmp_header source destination (4 + len rest) hop id ++
      icmp_bytes kind code (icmp_checksum source destination kind code rest) rest).
Proof.
  intros Hs Hd Hf Hk Hc Hh Hid B L0 HL. pose proof (len_nonneg rest) as Lr.
  assert (len ([kind; code] ++ ck0 ++ rest) = 4 + len rest) as Li by (autorewrite with lens; lia).
  unfold emit_icmp. rewrite Li.
  assert (4 + len rest <= 65535) as L16 by (unfold icmp_limit in HL; destruct (family source); lia).
  assert (bytes_ok (icmp_bytes kind code 0 rest)) as B0 by (apply icmp_bytes_ok; try done; width).
  assert (len (icmp_bytes kind code 0 rest) <= 65535) as L0' by (rewrite icmp_bytes_len; lia).
  pose proof (icmp_sum le source destination _ Hs Hd Hf B0 L0') as Sum. rewrite icmp_bytes_len in Sum.
  assert (write_at (E := WireError) ([kind; code] ++ ck0 ++ rest) 2 [0; 0] = Ok (icmp_bytes kind code 0 rest)) as W1
    by (by rewrite (write_at_parts _ [kind; code] ck0 [0; 0] rest)).
  set (ck := icmp_checksum source destination kind code rest).
  assert (write_at (E := WireError) (icmp_bytes kind code 0 rest) 2 (to_be16 ck) = Ok (icmp_bytes kind code ck rest)) as W2
    by (by rewrite (write_at_parts _ [kind; code] [0; 0] (to_be16 ck) rest)).
  destruct source as [s|s], destination as [d|d]; try done; cbn [family icmp_limit] in HL;
    cbn [mret outcome_ret mbind outcome_bind]; unfold checked_add; (rewrite (proj2 (Z.leb_le _ u64_max)) by (unfold u64_max; lia)); cbn [mret outcome_ret mbind outcome_bind ok_or andb].
  - rewrite W1. cbn [mbind outcome_bind]. rewrite Sum. cbn [mbind outcome_bind]. fold ck.
    change (finalize_checksum (ones (icmp_base (V4 s) (V4 d) (4 + len rest) + word_sum (icmp_bytes kind code 0 rest)))) with ck.
    rewrite W2. cbn [mbind outcome_bind]. unfold try_u16. rewrite (proj2 (Z.leb_le _ u16_max)) by (unfold u16_max; lia). cbn [ok_or mbind outcome_bind].
    rewrite (zeros_app 20) by lia. rewrite ipv4_header_written by (done || width). cbn [mbind outcome_bind].
    match goal with |- context [ipv4_header _ _ _ _ (to_be16 ?c) s d ++ _] => set (h := ipv4_header (20 + (4 + len rest)) id hop ICMPV4_PROTOCOL (to_be16 c) s d) end.
    replace 20 with (len h) at 1 by (destruct Hs, Hd; apply ipv4_header_len; unfold len in *; done || lia).
    rewrite write_message by (by rewrite icmp_bytes_len). done.
  - rewrite (proj2 (Z.ltb_ge u16_max _)) by (unfold u16_max; lia). cbn [andb]. rewrite W1. cbn [mbind outcome_bind].
    rewrite Sum. cbn [mbind outcome_bind].
    change (finalize_checksum (ones (icmp_base (V6 s) (V6 d) (4 + len rest) + word_sum (icmp_bytes kind code 0 rest)))) with ck.
    rewrite W2. cbn [mbind outcome_bind]. rewrite icmp_bytes_len. unfold try_u16. rewrite (proj2 (Z.leb_le _ u16_max)) by (unfold u16_max; lia).
    cbn [ok_or mbind outcome_bind]. rewrite (zeros_app 40) by lia. rewrite write_ipv6_header_value by (destruct Hs, Hd; done). cbn [mbind outcome_bind].
    replace 40 with (len (ipv6_header (4 + len rest) hop ICMPV6_PROTOCOL s d)) at 1
      by (destruct Hs, Hd; apply ipv6_header_len; unfold len in *; lia).
    rewrite write_message by (by rewrite icmp_bytes_len). done.
Qed.

Lemma finalize_range x : 0 <= x -> is_u16 (finalize_checksum (ones x)).
Proof. intros Hx. pose proof (ones_range x Hx). unfold finalize_checksum. width. Qed.

Lemma icmp_checksum_ok source destination kind code rest :
  ip_wf source -> ip_wf destination -> is_u8 kind -> is_u8 code -> bytes_ok rest ->
  is_u16 (icmp_checksum source destination kind code rest) /\
  ones (icmp_base source destination (4 + len rest) +
        word_sum (icmp_bytes kind code (icmp_checksum source destination kind code rest) rest)) = 65535.
Proof.
  intros Hs Hd Hk Hc B. pose proof (len_nonneg rest) as Lr.
  pose proof (icmp_base_nonneg source destination (4 + len rest) Hs Hd ltac:(lia)) as Hb.
  assert (bytes_ok (icmp_bytes kind code 0 rest)) as B0 by (apply icmp_bytes_ok; try done; width).
  pose proof (word_sum_nonneg _ B0) as Hw. split; [by apply finalize_range; lia|].
  set (ck := icmp_checksum source destination kind code rest).
  assert (word_sum (icmp_bytes kind code ck rest) = word_sum (icmp_bytes kind code 0 rest) + ck) as ->
    by exact (word_sum_patch [kind; code] rest ck eq_refl).
  rewrite Z.add_assoc. unfold ck, icmp_checksum. apply ones_finalize. lia.
Qed.

Lemma icmp_protocol_plain v : is_extension (icmp_protocol v) = false /\ is_u8 (icmp_protocol v).
Proof. destruct v; split; try done; width. Qed.

(** Every receiver reads the header back, whether or not it acts on extension
    headers. *)
Lemma parse_emitted_icmp le source destination n hop id body :
  ip_wf source -> ip_wf destination -> same_family source destination -> is_u8 hop -> is_u16 id ->
  n = len body -> n <= icmp_limit (family source) ->
  parse_ip_packet le (icmp_header source destination n hop id ++ body) true = Ok (icmp_packet source destination hop body) /\
  parse_ip_packet_for_icmp_error le (icmp_header source destination n hop id ++ body) true = Ok (icmp_packet source destination hop body).
Proof.
  intros Hs Hd Hf Hh Hid Hn HL. pose proof (len_nonneg body) as Lb.
  destruct source as [s|s], destination as [d|d]; try done; destruct Hs as [Ls Bs], Hd as [Ld Bd];
    cbn [family icmp_limit] in HL.
  - unfold icmp_header. set (ck := finalize_checksum _).
    assert (bytes_ok (ipv4_header (20 + n) id hop ICMPV4_PROTOCOL [0; 0] s d)) as B0
      by (apply ipv4_header_ok; try done; try width; repeat constructor; done).
    assert (parse_ip_packet le (ipv4_header (20 + n) id hop ICMPV4_PROTOCOL (to_be16 ck) s d ++ body) true =
      Ok (icmp_packet (V4 s) (V4 d) hop body)) as P.
    { apply parse_emitted_ipv4; try done; try width; [apply finalize_range, word_sum_nonneg; done|by apply ipv4_header_verifies]. }
    split; [exact P|]. rewrite <- P. done.
  - unfold icmp_header. cbn [octets].
    assert (forall enforce, parse_ipv6 (ipv6_header n hop ICMPV6_PROTOCOL s d ++ body) enforce = Ok (icmp_packet (V6 s) (V6 d) hop body)) as P
      by (intros enforce; apply parse_ipv6_emitted; try done; width).
    split; [exact (P true)|exact (P false)].
Qed.

Lemma parse_icmp_value le source destination hop kind code rest :
  ip_wf source -> ip_wf destination -> same_family source destination -> is_u8 kind -> is_u8 code -> bytes_ok rest ->
  4 <= len rest <= 65531 ->
  let icmp := icmp_bytes kind code (icmp_checksum source destination kind code rest) rest in
  parse_icmp_packet le (icmp_packet source destination hop icmp) true =
  (m ← icmp_message (family source) kind code icmp; Ok (mkParsedIcmp m (drop 4 rest))).
Proof.
  intros Hs Hd Hf Hk Hc B L icmp. destruct (icmp_checksum_ok source destination kind code rest Hs Hd Hk Hc B) as [Hu Ho].
  assert (len icmp = 4 + len rest) as Li by apply icmp_bytes_len.
  assert (bytes_ok icmp) as Bi by (by apply icmp_bytes_ok).
  unfold parse_icmp_packet, fragmented. cbn [icmp_packet next_header version fragment payload IpWire.source IpWire.destination].
  rewrite Z.eqb_refl. cbn [negb]. rewrite (proj2 (Z.ltb_ge _ 8)) by lia.
  pose proof (icmp_sum le source destination icmp Hs Hd Hf Bi ltac:(lia)) as Sum. rewrite Li in Sum. fold icmp in Ho. rewrite Ho in Sum.
  assert (match family source with
          | IpV4 => checksum_sum le icmp 0
          | IpV6 => transport_checksum_sum le source destination ICMPV6_PROTOCOL icmp
          end = Ok (E := WireError) 65535) as -> by (by destruct source).
  cbn [mbind outcome_bind mret outcome_ret]. change (negb (65535 =? 65535)) with false. cbn iota.
  change (idx (E := WireError) icmp 0) with (Ok (E := WireError) kind). change (idx (E := WireError) icmp 1) with (Ok (E := WireError) code).
  cbn [mbind outcome_bind]. destruct (icmp_message _ _ _ _); try done. cbn [mbind outcome_bind]. unfold slice_from.
  rewrite slice_Ok by lia. cbn [mbind outcome_bind mret outcome_ret]. do 2 f_equal.
  unfold icmp, icmp_bytes, sub, to_be16. cbn [app drop Z.to_nat Pos.to_nat Pos.iter_op Nat.add]. apply take_ge.
  rewrite length_drop. unfold len in *. cbn. lia.
Qed.

(** ** The parser *)
Lemma icmp_message_runs v kind code payload : bytes_ok payload -> 8 <= len payload ->
  runs (icmp_message v kind code payload) (fun _ => True).
Proof. intros B L. unfold icmp_message. destruct v; repeat runs_step; done. Qed.

Lemma parse_icmp_runs le ip verify : ip_wf (source ip) -> ip_wf (destination ip) ->
  match version ip, source ip, destination ip with IpV4, V4 _, V4 _ | IpV6, V6 _, V6 _ => True | _, _, _ => False end ->
  bytes_ok (payload ip) -> len (payload ip) <= 65535 -> runs (parse_icmp_packet le ip verify) (fun _ => True).
Proof.
  intros Hs Hd Hf B L. unfold parse_icmp_packet. runs_step; [exact I|]. runs_step; [exact I|]. runs_step; [exact I|]. runs_step.
  apply (runs_mono _ (fun _ => True)).
  { runs_step; [|done]. runs_step. destruct (version ip).
    - apply checksum_sum_runs; [done|width|unfold short_enough; lia|done].
    - rewrite transport_checksum_ones; [done|done|done| |done|done|lia]. by destruct (source ip), (destination ip). }
  intros bad _. runs_step; [exact I|]. runs_step. runs_step. runs_step. runs_step. runs_step.
  eapply runs_mono; [by apply icmp_message_runs; [|lia]|]. intros m _. repeat runs_step. done.
Qed.

(** A message that parsed, by its parts. *)
Lemma parse_icmp_inv le ip verify p : parse_icmp_packet le ip verify = Ok p ->
  exists kind code x y rest, payload ip = [kind; code; x; y] ++ rest /\ 4 <= len rest /\
    icmp_message (version ip) kind code (payload ip) = Ok (ic_message p) /\ ic_payload p = drop 4 rest.
Proof.
  intros H. unfold parse_icmp_packet in H. ok_step H; [done|]. ok_step H; [done|]. ok_step H; [done|]. apply Z.ltb_ge in Hb1.
  ok_step H. ok_step H; [done|]. ok_step H. ok_step H. ok_step H. ok_step H. ok_step H. subst p. cbn.
  apply idx_inv in Hx0, Hx1. unfold slice_from in Hx3. apply slice_inv in Hx3 as (-> & _).
  destruct (payload ip) as [|k [|c [|u [|w rest]]]]; try (unfold len in Hb1; cbn in Hb1; lia).
  cbn in Hx0, Hx1. injection Hx0 as ->. injection Hx1 as ->. exists x0, x1, u, w, rest. rewrite !len_cons in Hb1.
  split_and!; [done|lia|done|]. unfold sub. cbn [Z.to_nat Pos.to_nat Pos.iter_op Nat.add drop]. apply take_ge. rewrite length_drop.
  unfold len. cbn. lia.
Qed.

(** The fields of a message are after its checksum. *)
Lemma icmp_message_fields v kind code a b x y a' b' x' y' rest :
  icmp_message v kind code ([a; b; x; y] ++ rest) = icmp_message v kind code ([a'; b'; x'; y'] ++ rest).
Proof. reflexivity. Qed.

Lemma echo_request_inv v kind code payload i q : icmp_message v kind code payload = Ok (EchoRequest i q) ->
  code = 0 /\ icmp_message v (match v with IpV4 => 0 | IpV6 => 129 end) 0 payload = Ok (EchoReply i q).
Proof.
  unfold icmp_message. destruct v; intros H; (ok_step H; [|repeat ok_step H; congruence]);
    ok_step H; ok_step H; ok_step H; subst; apply andb_true_iff in Hb as [_ Hc%Z.eqb_eq];
    (split; [done|]); cbn [Z.eqb Pos.eqb andb]; rewrite Hx, Hx0; done.
Qed.

(** A parsed packet's addresses. *)
Lemma parsed_family le packet verify ip : bytes_ok packet -> parse_ip_packet le packet verify = Ok ip ->
  ip_wf (source ip) /\ ip_wf (destination ip) /\ family (source ip) = version ip /\ family (destination ip) = version ip /\
  bytes_ok (payload ip) /\ len (payload ip) <= icmp_limit (version ip).
Proof.
  intros B H. pose proof (runs_ok _ _ _ (parse_ip_packet_runs le packet verify B) H) as P.
  pose proof (po_family _ _ P) as Hf. destruct (po_payload _ _ P) as (a & b & _ & _ & _ & Hp). pose proof (po_size _ _ P) as Hz.
  split_and!; [apply P|apply P| | |rewrite Hp; auto with bytes|done].
  all: by destruct (version ip), (source ip), (destination ip).
Qed.

Lemma family_same a b : family a = family b -> same_family a b.
Proof. by destruct a, b. Qed.

(** What every receiver reads in an emitted message. *)
Lemma emitted_icmp_reads le le' source destination kind code ck0 rest hop m :
  ip_wf source -> ip_wf destination -> same_family source destination -> is_u8 kind -> is_u8 code -> is_u8 hop ->
  bytes_ok rest -> len ck0 = 2 -> 4 <= len rest -> 4 + len rest <= icmp_limit (family source) ->
  icmp_message (family source) kind code ([0; 0; 0; 0] ++ rest) = Ok m ->
  exists wire, emit_icmp le source destination ([kind; code] ++ ck0 ++ rest) hop 0 = Ok wire /\
    len wire = (match family source with IpV4 => 24 | IpV6 => 44 end) + len rest /\
    exists body, len body = 4 + len rest /\ get body 0 = Some kind /\
    parse_ip_packet le' wire true = Ok (icmp_packet source destination hop body) /\
    parse_ip_packet_for_icmp_error le' wire true = Ok (icmp_packet source destination hop body) /\
    parse_icmp_packet le' (icmp_packet source destination hop body) true = Ok (mkParsedIcmp m (drop 4 rest)).
Proof.
  intros Hs Hd Hf Hk Hc Hh B L0 L4 HL Em. rewrite emit_icmp_value by (done || width). eexists. split; [done|].
  set (body := icmp_bytes kind code (icmp_checksum source destination kind code rest) rest).
  assert (len body = 4 + len rest) as Lb by apply icmp_bytes_len.
  destruct (parse_emitted_icmp le' source destination (4 + len rest) hop 0 body Hs Hd Hf Hh ltac:(width) (eq_sym Lb) HL) as [P1 P2].
  split; [|exists body; split; [exact Lb|split; [reflexivity|split; [exact P1|split; [exact P2|]]]]].
  - rewrite len_app, Lb. destruct source, destination; try done; destruct Hs, Hd; cbn [icmp_header family];
      [rewrite ipv4_header_len|rewrite ipv6_header_len]; unfold len in *; cbn; lia.
  - assert (len rest <= 65531) by (unfold icmp_limit in HL; destruct (family source); lia).
    unfold body. rewrite parse_icmp_value by (done || lia).
    assert (icmp_message (family source) kind code (icmp_bytes kind code (icmp_checksum source destination kind code rest) rest) = Ok m) as ->
      by (rewrite <- Em; reflexivity). done.
Qed.

(** An echo request to and from unicast addresses gets a reply that every
    receiver parses, checksums verified, as the echo reply with the same
    identifier, sequence number and data, the addresses swapped.  Anything else
    gets the error of its kind and no packet. *)
Lemma echo_reply_mirrors_request (le le' : bool) (packet : list Z) (ip : ParsedIpPacket) (hop : Z) :
  bytes_ok packet -> parse_ip_packet le packet true = Ok ip -> is_u8 hop ->
  match parse_icmp_packet le ip true with
  | Ok (mkParsedIcmp (EchoRequest identifier sequence) data) =>
    if invalid_error_address (source ip) || invalid_error_address (destination ip)
    then emit_icmp_echo_reply le ip hop = Err (Unsupported "ICMP echo reply requires unicast addresses")
    else exists wire ip', emit_icmp_echo_reply le ip hop = Ok wire /\ parse_ip_packet le' wire true = Ok ip' /\
      source ip' = destination ip /\ destination ip' = source ip /\ hop_limit ip' = hop /\
      parse_icmp_packet le' ip' true = Ok (mkParsedIcmp (EchoReply identifier sequence) data)
  | Ok _ => emit_icmp_echo_reply le ip hop = Err (Unsupported "not ICMP echo request")
  | Err e => emit_icmp_echo_reply le ip hop = Err e
  | _ => False
  end.
Proof.
  intros B H Hh. destruct (parsed_family le packet true ip B H) as (Hs & Hd & Fs & Fd & Bp & Lp).
  assert (runs (parse_icmp_packet le ip true) (fun _ => True)) as R.
  { apply parse_icmp_runs; try done; [|unfold icmp_limit in Lp; destruct (version ip); lia].
    destruct (version ip), (source ip), (destination ip); done. }
  unfold emit_icmp_echo_reply. destruct (parse_icmp_packet le ip true) as [[m data]|e| |] eqn:Ep; [|done..]. cbn [mbind outcome_bind].
  destruct (parse_icmp_inv _ _ _ _ Ep) as (kind & code & x & y & rest & Epay & L4 & Em & Ed). cbn [ic_message ic_payload] in *.
  destruct m as [i q| | | | | |]; try done. cbn [negb]. destruct (_ || _); [done|].
  apply echo_request_inv in Em as [-> Em]. rewrite Epay in Em, Bp, Lp. rewrite !len_app in Lp.
  rewrite bytes_ok_app, !bytes_ok_cons in Bp. destruct Bp as [(_ & _ & Bx & By & _) Br].
  set (k' := match version ip with IpV4 => 0 | IpV6 => 129 end) in *.
  destruct (emitted_icmp_reads le le' (destination ip) (source ip) k' 0 [0; 0] rest hop (EchoReply i q))
    as (wire & Ew & _ & body & _ & _ & P & _ & R'); try done; try (by unfold k'; destruct (version ip); width).
  - apply family_same. congruence.
  - rewrite Fd. change (len [kind; 0; x; y]) with 4 in Lp. lia.
  - rewrite Fd, <- Em. apply icmp_message_fields.
  - exists wire, (icmp_packet (destination ip) (source ip) hop body). rewrite Ed. split_and!; try done.
    rewrite Epay. change (write_at (E := WireError) ([kind; 0; x; y] ++ rest) 0 [k']) with
      (write_at (E := WireError) ([] ++ [kind] ++ ([0; x; y] ++ rest)) 0 [k']).
    rewrite (write_at_parts _ [] [kind] [k'] ([0; x; y] ++ rest)) by done. cbn [mbind outcome_bind].
    change ([] ++ [k'] ++ [0; x; y] ++ rest) with ([k'; 0] ++ [x; y] ++ rest).
    rewrite (write_at_parts _ [k'; 0] [x; y] [0; 0] rest) by done. cbn [mbind outcome_bind]. exact Ew.
Qed.

(** ** Errors *)

(** The parser with either treatment of extension headers. *)
Lemma parse_invoking_ipv le packet error ip : parse_invoking le packet error = Ok ip ->
  (version ip = IpV4 /\ parse_ipv4 le packet true = Ok ip) \/
  (version ip = IpV6 /\ exists enforce, parse_ipv6 packet enforce = Ok ip /\ (error = EUnsupportedProtocol -> enforce = true) /\
     exists b, get packet 0 = Some b /\ Z.shiftr b 4 = 6).
Proof.
  assert (forall enforce, (error = EUnsupportedProtocol -> enforce = true) ->
    (first ← ok_or (get packet 0) Truncated;
     if Z.shiftr first 4 =? 4 then parse_ipv4 le packet true
     else if Z.shiftr first 4 =? 6 then parse_ipv6 packet enforce else Err (Unsupported "IP version")) = Ok ip ->
    (version ip = IpV4 /\ parse_ipv4 le packet true = Ok ip) \/
    (version ip = IpV6 /\ exists enforce, parse_ipv6 packet enforce = Ok ip /\ (error = EUnsupportedProtocol -> enforce = true) /\
       exists b, get packet 0 = Some b /\ Z.shiftr b 4 = 6)) as P.
  { intros enforce He H. ok_step H. ok_step H; [|ok_step H; [|done]].
    - left. split; [|done]. unfold parse_ipv4 in H. repeat ok_step H; by subst.
    - right. split; [|exists enforce; split_and!; try done].
      + unfold parse_ipv6 in H. repeat ok_step H; try done; by apply chain_ends in H as [? _].
      + unfold ok_or in Hx. destruct (get packet 0); [|done]. injection Hx as ->. exists x. split; [done|lia]. }
  intros H. destruct error as [| | |code pointer|]; [apply (P true)|apply (P true)|apply (P true)|apply (P false)|apply (P true)]; done.
Qed.

Lemma parse_invoking_runs le packet error : bytes_ok packet -> runs (parse_invoking le packet error) (parsed_ok packet).
Proof.
  intros B. destruct error as [| | |code pointer|]; cbn [parse_invoking];
    [by apply parse_ip_packet_runs|by apply parse_ip_packet_runs|by apply parse_ip_packet_runs| |by apply parse_ip_packet_runs].
  unfold parse_ip_packet_for_icmp_error. repeat runs_step; auto using parse_ipv4_runs, parse_ipv6_runs.
Qed.

Lemma invoking_length le packet error ip : bytes_ok packet -> parse_invoking le packet error = Ok ip ->
  exists n, invoking_len (version ip) packet = Ok n /\ 20 <= n <= len packet.
Proof.
  intros B H. unfold invoking_len. apply parse_invoking_ipv in H as [[-> H]|[-> (enforce & H & _)]].
  - unfold parse_ipv4 in H. ok_step H; [done|]. ok_step H. ok_step H; [done|]. ok_step H. exists x0. split; [done|].
    ok_step H; [done|]. apply orb_false_iff in Hb0 as [B1 B2]. apply orb_false_iff in Hb1 as [B3 B4]. lia.
  - unfold parse_ipv6 in H. ok_step H; [done|]. ok_step H. ok_step H. ok_step H; [done|]. exists (40 + x). rewrite Hx. split; [done|].
    unfold checked_add in Hx0. destruct (_ <=? u64_max); [|done]. injection Hx0 as <-.
    assert (runs (idx_be16 (E := WireError) packet 4) (fun v => 0 <= v)) as R by (apply runs_idx_be16; try done; [lia|width]).
    rewrite Hx in R. cbn in R. lia.
Qed.

(** The walk for the pointer follows the parser to the header it stopped at. *)
Definition initial (ip : ParsedIpPacket) : bool :=
  match fragment ip with Some f => offset_bytes f =? 0 | None => true end.

Lemma pointer_follows_parser rounds packet enforce total src dst nh pointer offset frag fp ip :
  parse_ipv6_chain rounds packet enforce total src dst nh pointer offset frag fp = Ok ip -> initial ip = true ->
  bytes_ok packet -> get packet pointer = Some nh -> total <= len packet -> total <= 65575 -> 0 <= pointer < offset -> offset <= total ->
  exists p, next_header_pointer_loop rounds packet total nh pointer offset = Ok p /\ is_u32 p /\
    get packet p = Some (next_header ip).
Proof.
  revert nh pointer offset frag fp. induction rounds as [|rounds IH]; intros nh pointer offset frag fp H Hi B G Ht H6 Hp Ho; [done|].
  cbn [parse_ipv6_chain] in H. cbv zeta beta in H. cbn [next_header_pointer_loop]. cbv zeta beta.
  assert (forall n frag' fp' nh', 0 < n -> offset + n <= total -> idx (E := WireError) packet offset = Ok nh' ->
    parse_ipv6_chain rounds packet enforce total src dst nh' offset (offset + n) frag' fp' = Ok ip ->
    exists p, (if (total <? offset + n) || (len packet <? offset + n) then Err Truncated
      else next ← idx packet offset; next_header_pointer_loop rounds packet total next offset (offset + n)) = Ok p /\ is_u32 p /\
      get packet p = Some (next_header ip)) as Step.
  { intros n frag' fp' nh' Hn Hle Hidx Hc. rewrite (proj2 (Z.ltb_ge total _)), (proj2 (Z.ltb_ge (len packet) _)) by lia. cbn [orb].
    rewrite Hidx. cbn [mbind outcome_bind]. apply idx_inv in Hidx. eapply IH; try done; lia. }
  ok_step H; [by repeat ok_step H|]. ok_step H; [|ok_step H; [|ok_step H]].
  - ok_step H. apply require_inv in Hx as [R1 R2]. ok_step H. rename Hx into Hu. ok_step H. apply require_inv in Hx as [R3 R4].
    ok_step H. ok_step H; [by repeat ok_step H|]. ok_step H. ok_step H.
    pose proof (get_u8 _ _ _ B (idx_inv _ _ _ Hu)) as U.
    rewrite (proj2 (Z.ltb_ge total _)), (proj2 (Z.ltb_ge (len packet) _)) by lia. cbn [orb]. rewrite Hu. cbn [mbind outcome_bind].
    eapply Step; [width|lia|eassumption|eassumption].
  - ok_step H. apply require_inv in Hx as [R1 R2]. ok_step H. rename Hx into Hu. ok_step H. apply require_inv in Hx as [R3 R4].
    ok_step H. pose proof (get_u8 _ _ _ B (idx_inv _ _ _ Hu)) as U. replace (nh =? 44) with false by lia.
    rewrite (proj2 (Z.ltb_ge total _)), (proj2 (Z.ltb_ge (len packet) _)) by lia. cbn [orb]. rewrite Hu. cbn [mbind outcome_bind].
    eapply Step; [width|lia|eassumption|eassumption].
  - ok_step H. apply require_inv in Hx as [R1 R2]. ok_step H. ok_step H; [done|]. ok_step H. ok_step H. ok_step H. ok_step H.
    + exfalso. ok_step H. ok_step H. subst ip. unfold initial in Hi. cbn in Hi, Hb4. rewrite Hi in Hb4. done.
    + ok_step H. eapply Step; [lia|lia|eassumption|eassumption].
  - ok_step H. ok_step H. ok_step H. subst ip. unfold try_u32. rewrite (proj2 (Z.leb_le _ u32_max)) by (unfold u32_max; lia).
    eexists. split; [done|]. split; [unfold is_u32; lia|done].
Qed.

Lemma pointer_to_next_header packet enforce ip b : bytes_ok packet -> parse_ipv6 packet enforce = Ok ip -> initial ip = true ->
  get packet 0 = Some b -> Z.shiftr b 4 = 6 ->
  exists p, ipv6_next_header_pointer packet = Ok p /\ is_u32 p /\ get packet p = Some (next_header ip).
Proof.
  intros B H Hi G0 H6. unfold parse_ipv6 in H. ok_step H; [done|]. apply Z.ltb_ge in Hb. ok_step H. ok_step H.
  ok_step H; [done|]. apply Z.ltb_ge in Hb0. ok_step H. ok_step H. ok_step H.
  assert (runs (idx_be16 (E := WireError) packet 4) is_u16) as R by (apply runs_idx_be16; try done; lia).
  rewrite Hx in R. cbn in R. unfold checked_add in Hx0. destruct (_ <=? u64_max); [|done]. injection Hx0 as <-.
  destruct (pointer_follows_parser _ _ _ _ _ _ _ _ _ _ _ _ H Hi B (idx_inv _ _ _ Hx3)) as (p & Ep & Hp); [width|width|lia|width|].
  exists p. split; [|done]. unfold ipv6_next_header_pointer. rewrite (proj2 (Z.ltb_ge _ 40)) by lia.
  rewrite (idx_get _ _ _ G0). cbn [mbind outcome_bind mret outcome_ret]. rewrite H6. cbn [Z.eqb Pos.eqb negb].
  rewrite Hx. cbn [mbind outcome_bind]. rewrite Hx3. exact Ep.
Qed.

(** What the receiver of an error reads; [pointer] is where the unsupported
    header number stands. *)
Definition reported (v : IpVersion) (error : IcmpErrorKind) (pointer : Z) : IcmpMessage :=
  match v, error with
  | IpV4, EDestinationUnreachable code => if code =? 4 then PacketTooBig 0 else DestinationUnreachable code
  | IpV4, EPacketTooBig mtu => PacketTooBig (Z.min mtu 65535)
  | IpV4, EParameterProblem code p => ParameterProblem code (Z.min p 255)
  | IpV4, EUnsupportedProtocol => DestinationUnreachable 2
  | IpV6, EDestinationUnreachable code => DestinationUnreachable code
  | IpV6, EPacketTooBig mtu => PacketTooBig mtu
  | IpV6, EParameterProblem code p => ParameterProblem code p
  | IpV6, EUnsupportedProtocol => ParameterProblem 1 pointer
  | _, ETimeExceeded code => TimeExceeded code
  end.

Definition error_ok (error : IcmpErrorKind) : Prop :=
  match error with
  | EDestinationUnreachable code | ETimeExceeded code => is_u8 code
  | EPacketTooBig mtu => is_u32 mtu
  | EParameterProblem code pointer => is_u8 code /\ is_u32 pointer
  | EUnsupportedProtocol => True
  end.

(** The four bytes after the checksum. *)
Definition error_field (v : IpVersion) (error : IcmpErrorKind) (pointer : Z) : list Z :=
  match v, error with
  | IpV4, EPacketTooBig mtu => [0; 0] ++ to_be16 (Z.min mtu 65535)
  | IpV4, EParameterProblem _ p => [Z.min p 255; 0; 0; 0]
  | IpV6, EPacketTooBig mtu => to_be32 mtu
  | IpV6, EParameterProblem _ p => to_be32 p
  | IpV6, EUnsupportedProtocol => to_be32 pointer
  | _, _ => [0; 0; 0; 0]
  end.

Lemma error_field_ok v error pointer : error_ok error -> is_u32 pointer ->
  bytes_ok (error_field v error pointer) /\ len (error_field v error pointer) = 4.
Proof.
  intros He Hp. split; [|by destruct v, error]. destruct v, error; cbn [error_field error_ok] in *;
    try (by repeat constructor); try (by apply to_be32_ok); try (by apply to_be32_ok, He).
  - apply bytes_ok_app. split; [by repeat constructor|]. apply to_be16_ok. width.
  - repeat constructor; try done; destruct He; width.
Qed.

Lemma try_u16_min x : is_u32 x -> default u16_max (try_u16 x) = Z.min x 65535.
Proof. intros Hx. unfold try_u16, u16_max. destruct (Z.leb_spec x 65535); cbn; lia. Qed.

Lemma write_field v error packet k c z pointer : error_ok error ->
  (v = IpV6 -> error = EUnsupportedProtocol -> ipv6_next_header_pointer packet = Ok pointer) ->
  write_error_field v error packet ([k; c; 0; 0; 0; 0; 0; 0] ++ z) = Ok ([k; c] ++ [0; 0] ++ error_field v error pointer ++ z).
Proof.
  intros He Hp. destruct v, error as [code|m|code|code p|]; cbn [write_error_field error_field]; try done.
  - rewrite try_u16_min by done. by rewrite (write_at_parts _ [k; c; 0; 0; 0; 0] [0; 0] (to_be16 (Z.min m 65535)) z).
  - assert (default u8_max (try_u8 p) = Z.min p 255) as ->
      by (destruct He; unfold try_u8, u8_max; destruct (Z.leb_spec p 255); cbn; width).
    by rewrite (write_at_parts _ [k; c; 0; 0] [0] [Z.min p 255] ([0; 0; 0] ++ z)).
  - by rewrite (write_at_parts _ [k; c; 0; 0] [0; 0; 0; 0] (to_be32 m) z).
  - by rewrite (write_at_parts _ [k; c; 0; 0] [0; 0; 0; 0] (to_be32 p) z).
  - rewrite Hp by done. cbn [mbind outcome_bind]. by rewrite (write_at_parts _ [k; c; 0; 0] [0; 0; 0; 0] (to_be32 pointer) z).
Qed.

Lemma read_field v error pointer quote : error_ok error ->
  icmp_message v (error_type v error).1 (error_type v error).2 ([0; 0; 0; 0] ++ error_field v error pointer ++ quote) =
  Ok (reported v error pointer).
Proof.
  intros He.
  assert (forall x l, idx_be32 (E := WireError) ([0; 0; 0; 0] ++ to_be32 x ++ l) 4 = Ok x) as R32.
  { intros x l. transitivity (Ok (E := WireError) (be32 (x / 16777216) (x / 65536 mod 256) (x / 256 mod 256) (x mod 256)));
      [reflexivity|by rewrite be32_to_be32]. }
  destruct v, error as [code|m|code|code p|]; cbn [error_type fst snd icmp_message Z.eqb Pos.eqb andb error_field reported];
    rewrite ?R32; try reflexivity.
  - by destruct (code =? 4).
  - transitivity (Ok (E := WireError) (PacketTooBig (be16 (Z.min m 65535 / 256) (Z.min m 65535 mod 256)))); [reflexivity|].
    by rewrite be16_to_be16.
Qed.

(** The largest packet every host must take. *)
Definition minimum_reassembly (v : IpVersion) : Z := match v with IpV4 => 576 | IpV6 => 1280 end.

Lemma suppressed_runs ip : bytes_ok (payload ip) -> runs (suppressed ip) (fun r => r = false -> initial ip = true).
Proof.
  intros B. unfold suppressed. destruct (_ || _ || _) eqn:E; [done|]. unfold is_icmp_error.
  assert (initial ip = true) as Hi by (unfold initial; destruct (fragment ip); [|done]; destruct (offset_bytes _ =? 0); [done|]; discriminate E).
  destruct (negb _ || _) eqn:E1; [by intros _|]. apply orb_false_iff in E1 as [_ E1%Z.ltb_ge]. repeat runs_step. by intros _.
Qed.

Lemma error_emitted le le' packet error hop ip :
  bytes_ok packet -> error_ok error -> is_u8 hop -> parse_invoking le packet error = Ok ip -> suppressed ip = Ok false ->
  exists wire n pointer body, emit_icmp_error le packet error hop = Ok wire /\ len wire <= minimum_reassembly (version ip) /\
    invoking_len (version ip) packet = Ok n /\
    (version ip = IpV6 -> error = EUnsupportedProtocol -> get packet pointer = Some (next_header ip)) /\
    (8 <= len body /\ get body 0 = Some (error_type (version ip) error).1) /\
    parse_ip_packet le' wire true = Ok (icmp_packet (destination ip) (source ip) hop body) /\
    parse_ip_packet_for_icmp_error le' wire true = Ok (icmp_packet (destination ip) (source ip) hop body) /\
    parse_icmp_packet le' (icmp_packet (destination ip) (source ip) hop body) true =
      Ok (mkParsedIcmp (reported (version ip) error pointer) (sub packet 0 (Z.min n (max_quote (version ip))))).
Proof.
  intros B He Hh Hp Hs. pose proof (runs_ok _ _ _ (parse_invoking_runs le packet error B) Hp) as Pk.
  assert (bytes_ok (payload ip)) as Bp by (destruct (po_payload _ _ Pk) as (? & ? & _ & _ & _ & ->); auto with bytes).
  pose proof (runs_ok _ _ _ (suppressed_runs ip Bp) Hs eq_refl) as Hi.
  assert (exists pointer, is_u32 pointer /\ (version ip = IpV6 -> error = EUnsupportedProtocol ->
    ipv6_next_header_pointer packet = Ok pointer /\ get packet pointer = Some (next_header ip))) as (pointer & Hu & Hptr).
  { apply parse_invoking_ipv in Hp as Hv. destruct Hv as [[-> _]|[_ (enforce & E & _ & b & G0 & H6)]]; [by exists 0|].
    destruct (pointer_to_next_header packet enforce ip b B E Hi G0 H6) as (p & Ep & Up & Gp). exists p. done. }
  destruct (invoking_length le packet error ip B Hp) as (n & En & Hn).
  set (q := Z.min n (max_quote (version ip))).
  assert (0 <= q <= len packet /\ q <= max_quote (version ip) /\ 0 < max_quote (version ip)) as Hq by (unfold q; destruct (version ip); cbn; lia).
  destruct (error_field_ok (version ip) error pointer He Hu) as [Bf Lf].
  set (rest := error_field (version ip) error pointer ++ sub packet 0 q).
  assert (len rest = 4 + q) as Lr by (unfold rest; rewrite len_app, len_sub by lia; lia).
  pose proof (po_family _ _ Pk) as Fam.
  assert (family (destination ip) = version ip /\ family (source ip) = version ip) as [Fd Fs]
    by (by destruct (version ip), (source ip), (destination ip)).
  destruct (emitted_icmp_reads le le' (destination ip) (source ip) (error_type (version ip) error).1 (error_type (version ip) error).2
    [0; 0] rest hop (reported (version ip) error pointer)) as (wire & Ew & Lw & body & Lb & Gb & P1 & P2 & P3);
    [apply Pk|apply Pk|apply family_same; congruence| | |done| |done|lia| | |].
  - destruct (version ip), error; cbn; width.
  - destruct (version ip), error; cbn in *; width.
  - apply bytes_ok_app. auto with bytes.
  - rewrite Fd, Lr. destruct (version ip); cbn in *; lia.
  - rewrite Fd. by apply read_field.
  - exists wire, n, pointer, body. split; [|split; [|split; [exact En|split; [apply Hptr|split; [split; [lia|exact Gb]|split; [exact P1|split; [exact P2|]]]]]]].
    + unfold emit_icmp_error. rewrite Hp. cbn [mbind outcome_bind]. rewrite Hs. cbn [mbind outcome_bind].
      destruct (error_type (version ip) error) as [kind code] eqn:Et. cbn [fst snd] in *. rewrite En. cbn [mbind outcome_bind]. fold q.
      rewrite (zeros_app 8) by lia. change (zeros 8) with [0; 0; 0; 0; 0; 0; 0; 0].
      rewrite (write_at_parts _ [] [0] [kind] ([0; 0; 0; 0; 0; 0; 0] ++ zeros q)) by done. cbn [mbind outcome_bind].
      rewrite (write_at_parts _ [kind] [0] [code] ([0; 0; 0; 0; 0; 0] ++ zeros q)) by done. cbn [mbind outcome_bind].
      change ([kind] ++ [code] ++ [0; 0; 0; 0; 0; 0] ++ zeros q) with ([kind; code; 0; 0; 0; 0; 0; 0] ++ zeros q).
      rewrite (write_field _ _ _ _ _ _ pointer He) by (intros; by apply Hptr). cbn [mbind outcome_bind].
      replace (len ([kind; code] ++ [0; 0] ++ error_field (version ip) error pointer ++ zeros q) - 8) with q
        by (rewrite !len_app, Lf, len_zeros by lia; change (len [kind; code]) with 2; change (len [0; 0]) with 2; lia).
      rewrite slice_Ok by lia. cbn [mbind outcome_bind].
      rewrite (write_at_parts _ ([kind; code] ++ [0; 0] ++ error_field (version ip) error pointer) (zeros q) (sub packet 0 q) []).
      * cbn [mbind outcome_bind]. rewrite app_nil_r, <- !(assoc_L (++)). exact Ew.
      * by rewrite app_nil_r, <- !(assoc_L (++)).
      * rewrite len_zeros, len_sub by lia. lia.
      * rewrite !len_app, Lf. done.
    + rewrite Lw, Lr, Fd. destruct (version ip); cbn in *; lia.
    + rewrite P3. do 2 f_equal. unfold rest. replace 4%nat with (length (error_field (version ip) error pointer)) by (unfold len in Lf; lia).
      apply drop_app_length.
Qed.

(** C26: An error about a packet is emitted exactly when the packet parses and
    may be answered: not for a fragment with a nonzero offset, an ICMP error, a
    destination that is not unicast or a source that cannot take it.  It then
    goes to the packet's source, fits the size every host must take, and every
    receiver parses it, checksums verified, as the report asked for, with the
    start of the invoking packet as the quote; the pointer of an unsupported
    IPv6 header leads to its number.  ([reported]: the fields of IPv4 cap an MTU at
    16 and a pointer at 8 bits, and its unreachable code 4 is a packet too big.) *)
Theorem icmp_error_quotes_packet (le le' : bool) (packet : list Z) (error : IcmpErrorKind) (hop : Z) :
  bytes_ok packet -> error_ok error -> is_u8 hop ->
  match parse_invoking le packet error with
  | Ok ip =>
    match suppressed ip with
    | Ok true => emit_icmp_error le packet error hop = Err (Unsupported "ICMP error response suppressed")
    | Ok false =>
      exists wire n pointer ip', emit_icmp_error le packet error hop = Ok wire /\ len wire <= minimum_reassembly (version ip) /\
        invoking_len (version ip) packet = Ok n /\
        (version ip = IpV6 -> error = EUnsupportedProtocol -> get packet pointer = Some (next_header ip)) /\
        parse_ip_packet le' wire true = Ok ip' /\ source ip' = destination ip /\ destination ip' = source ip /\ hop_limit ip' = hop /\
        parse_icmp_packet le' ip' true =
          Ok (mkParsedIcmp (reported (version ip) error pointer) (sub packet 0 (Z.min n (max_quote (version ip)))))
    | _ => False
    end
  | Err e => emit_icmp_error le packet error hop = Err e
  | _ => False
  end.
Proof.
  intros B He Hh. pose proof (parse_invoking_runs le packet error B) as R.
  destruct (parse_invoking le packet error) as [ip|e| |] eqn:Ep; [|by unfold emit_icmp_error; rewrite Ep|done..].
  assert (bytes_ok (payload ip)) as Bp by (destruct (po_payload _ _ R) as (? & ? & _ & _ & _ & ->); auto with bytes).
  pose proof (suppressed_runs ip Bp) as Rs. destruct (suppressed ip) as [[]|e| |] eqn:Es.
  - unfold emit_icmp_error. rewrite Ep. cbn [mbind outcome_bind]. by rewrite Es.
  - destruct (error_emitted le le' packet error hop ip B He Hh Ep Es) as (wire & n & pointer & body & Ew & Lw & Hn & Hp & _ & P1 & _ & P3).
    exists wire, n, pointer, (icmp_packet (destination ip) (source ip) hop body). done.
  - exfalso. unfold suppressed, is_icmp_error in Es. destruct (_ || _ || _); [done|]. destruct (negb _ || _) eqn:E1; [done|].
    unfold idx in Es. destruct (get (payload ip) 0); done.
  - done.
  - done.
Qed.

Lemma emitted_only_if le packet error hop wire : emit_icmp_error le packet error hop = Ok wire ->
  exists ip, parse_invoking le packet error = Ok ip /\ suppressed ip = Ok false.
Proof. unfold emit_icmp_error. intros H. ok_step H. ok_step H. ok_step H; [done|]. subst. eauto. Qed.

(** C28: No error is answered by another: whatever error this stack has emitted,
    a stack that gets it emits none about it. *)
Theorem icmp_errors_not_answered (le le' : bool) (packet wire : list Z) (error error' : IcmpErrorKind) (hop hop' : Z) :
  bytes_ok packet -> error_ok error -> is_u8 hop -> emit_icmp_error le packet error hop = Ok wire ->
  emit_icmp_error le' wire error' hop' = Err (Unsupported "ICMP error response suppressed").
Proof.
  intros B He Hh Ew. destruct (emitted_only_if _ _ _ _ _ Ew) as (ip & Ep & Es).
  destruct (error_emitted le le' packet error hop ip B He Hh Ep Es) as (wire' & n & pointer & body & Ew' & _ & _ & _ & [L8 G0] & P1 & P2 & _).
  rewrite Ew in Ew'. injection Ew' as <-.
  unfold emit_icmp_error.
  assert (parse_invoking le' wire error' = Ok (icmp_packet (destination ip) (source ip) hop body)) as ->
    by (destruct error'; [exact P1|exact P1|exact P1|exact P2|exact P1]).
  cbn [mbind outcome_bind]. unfold suppressed. destruct (_ || _ || _); [done|].
  unfold is_icmp_error. cbn [icmp_packet next_header version payload]. rewrite Z.eqb_refl, (proj2 (Z.ltb_ge _ 8)) by lia. cbn [negb orb].
  rewrite (idx_get _ _ _ G0). cbn [mbind outcome_bind mret outcome_ret].
  pose proof (runs_ok _ _ _ (parse_invoking_runs le packet error B) Ep) as Pk. pose proof (po_family _ _ Pk) as Fam.
  destruct (version ip), (source ip), (destination ip), error; done.
Qed.

(** ** Examples *)

(** A ping of 10.0.0.2 from 10.0.0.1 with four bytes of data. *)
Definition sample_ping : list Z :=
  [69; 0; 0; 32; 0; 0; 64; 0; 64; 1; 38; 219; 10; 0; 0; 1; 10; 0; 0; 2;
   8; 0; 243; 241; 0; 7; 0; 1; 1; 2; 3; 4].


(** A datagram of three bytes from 10.0.0.1 to 10.0.0.2. *)
Definition sample_datagram : list Z :=
  [69; 0; 0; 31; 0; 42; 64; 0; 64; 17; 38; 162; 10; 0; 0; 1; 10; 0; 0; 2;
   3; 232; 0; 53; 0; 11; 215; 176; 7; 8; 9].

Lemma icmp_error_quotes_packet_witness : exists wire ip', emit_icmp_error true sample_datagram (EDestinationUnreachable 3) 64 = Ok wire /\
  parse_ip_packet false wire true = Ok ip' /\ destination ip' = V4 [10; 0; 0; 1] /\
  parse_icmp_packet false ip' true = Ok (mkParsedIcmp (DestinationUnreachable 3) sample_datagram).
Proof.
  pose proof (icmp_error_quotes_packet true false sample_datagram (EDestinationUnreachable 3) 64
    ltac:(repeat constructor; discriminate) ltac:(unfold error_ok, is_u8; lia) ltac:(unfold is_u8; lia)) as T.
  destruct (parse_invoking true sample_datagram _) as [ip|e| |] eqn:Ep; [|vm_compute in Ep; discriminate Ep|done|done].
  vm_compute in Ep. injection Ep as <-.
  destruct (suppressed _) as [[]|e| |] eqn:Es; [vm_compute in Es; discriminate Es| |done|done|done].
  destruct T as (wire & n & pointer & ip' & E1 & _ & E2 & _ & E3 & _ & E4 & _ & E5).
  vm_compute in E2. injection E2 as <-. exists wire, ip'. split; [exact E1|]. split; [exact E3|]. split; [exact E4|exact E5].
Defined.

Definition sample_error : list Z :=
  match emit_icmp_error true sample_datagram (EPacketTooBig 1400) 64 with Ok wire => wire | _ => [] end.

Lemma icmp_errors_not_answered_witness : len sample_error = 59 /\
  emit_icmp_error false sample_error EUnsupportedProtocol 64 = Err (Unsupported "ICMP error response suppressed").
Proof.
  split; [vm_compute; reflexivity|].
  apply (icmp_errors_not_answered true false sample_datagram sample_error (EPacketTooBig 1400) EUnsupportedProtocol 64 64).
  - repeat constructor; discriminate.
  - unfold error_ok, is_u32. lia.
  - unfold is_u8. lia.
  - vm_compute. reflexivity.
Defined.
