(* ===== verification/TcpSeq.v ===== *)
(** TCP sequence numbers, flags and segment descriptions, from
    [sail-netstack/src/tcp/state.rs]. *)
From S2P Require Import Prelude.

(** ** Sequence numbers: 32 bits, compared by signed difference *)
Definition SeqNumber := Z.

(** [SeqNumber::wrapping_add]: the low four bytes of the [usize] are added. *)
Definition seq_add (s : SeqNumber) (amount : Z) : SeqNumber := wrap32 (s + wrap32 amount).
(** [i32::from_ne_bytes] of a [u32]. *)
Definition as_i32 (x : Z) : Z := if x <? 2147483648 then x else x - 4294967296.
Definition before (s other : SeqNumber) : bool := as_i32 (wrap32 (s - other)) <? 0.
Definition after (s other : SeqNumber) : bool := before other s.
Definition distance_from (s earlier : SeqNumber) : Z := wrap32 (s - earlier).

(** ** Flags *)
Definition FIN : Z := 1.
Definition SYN : Z := 2.
Definition RST : Z := 4.
Definition ACK : Z := 16.
Definition from_bits (bits : Z) : Z := Z.land bits 0x1f.
Definition union_flags (a b : Z) : Z := Z.lor a b.
Definition contains (flags other : Z) : bool := Z.land flags other =? other.

(** ** Segments in and out *)
Record TcpSegmentMeta := mkSegment {
  sequence : SeqNumber;
  acknowledgment : option SeqNumber;
  flags : Z;
  window : Z;
  payload_len : Z
}.

Record SendControl := mkControl {
  sc_sequence : SeqNumber;
  sc_acknowledgment : SeqNumber;
  sc_flags : Z;
  sc_window : Z
}.

#[export] Instance TcpSegmentMeta_eq_dec : EqDecision TcpSegmentMeta.
Proof. solve_decision. Defined.
#[export] Instance SendControl_eq_dec : EqDecision SendControl.
Proof. solve_decision. Defined.

(** ** Serial-number arithmetic

    [ahead b s] is how far [s] lies ahead of [b]; every comparison of the code
    is a comparison of such offsets as long as they stay under 2^31. *)
Definition is_seq (s : Z) : Prop := 0 <= s < 4294967296.

Lemma seq_add_range s n : is_seq (seq_add s n).
Proof. unfold seq_add, wrap32, is_seq. apply Z.mod_pos_bound. lia. Qed.

Lemma distance_range s e : is_seq (distance_from s e).
Proof. unfold distance_from, wrap32, is_seq. apply Z.mod_pos_bound. lia. Qed.

Lemma seq_add_plain s n : 0 <= n < 4294967296 -> seq_add s n = wrap32 (s + n).
Proof. intros H. unfold seq_add, wrap32. by rewrite (Z.mod_small n). Qed.

Lemma distance_add s n : is_seq s -> 0 <= n < 4294967296 -> distance_from (seq_add s n) s = n.
Proof.
  intros Hs Hn. rewrite seq_add_plain by done. unfold distance_from, wrap32.
  rewrite Zminus_mod_idemp_l. replace (s + n - s) with n by lia. by apply Z.mod_small.
Qed.

Lemma seq_add_distance s e : is_seq s -> is_seq e -> seq_add e (distance_from s e) = s.
Proof.
  intros Hs He. rewrite seq_add_plain by apply distance_range. unfold distance_from, wrap32.
  rewrite Zplus_mod_idemp_r. replace (e + (s - e)) with s by lia. by apply Z.mod_small.
Qed.

Lemma seq_add_add s a b : 0 <= a -> 0 <= b -> a + b < 4294967296 ->
  seq_add (seq_add s a) b = seq_add s (a + b).
Proof.
  intros. rewrite !seq_add_plain by lia. unfold wrap32. rewrite Zplus_mod_idemp_l.
  f_equal. lia.
Qed.

Lemma distance_self s : distance_from s s = 0.
Proof. unfold distance_from. by rewrite Z.sub_diag. Qed.

Lemma distance_zero s e : is_seq s -> is_seq e -> distance_from s e = 0 -> s = e.
Proof.
  intros Hs He H. rewrite <- (seq_add_distance s e Hs He), H, seq_add_plain by lia.
  unfold wrap32. rewrite Z.add_0_r. by apply Z.mod_small.
Qed.

(** [s] is before [o] exactly when [o] is ahead of [s] by less than half the
    sequence space (or by exactly half, where both directions hold). *)
Lemma before_distance s o : before s o = (2147483648 <=? distance_from s o).
Proof.
  unfold before, as_i32, distance_from. pose proof (Z.mod_pos_bound (s - o) 4294967296).
  unfold wrap32. case_bool; lia.
Qed.

Lemma distance_swap s o : is_seq s -> is_seq o -> s <> o ->
  distance_from o s = 4294967296 - distance_from s o.
Proof.
  intros Hs Ho Hne. unfold distance_from, wrap32. unfold is_seq in *.
  destruct (Z.lt_ge_cases s o).
  - rewrite (Z.mod_small (o - s)) by lia.
    rewrite <- (Z.mod_add (s - o) 1) by lia. rewrite Z.mod_small by lia. lia.
  - rewrite (Z.mod_small (s - o)) by lia.
    rewrite <- (Z.mod_add (o - s) 1) by lia. rewrite Z.mod_small by lia. lia.
Qed.

(** Distances chain when they do not pass a full turn. *)
Lemma distance_chain a b c :
  distance_from b a + distance_from c b < 4294967296 ->
  distance_from c a = distance_from b a + distance_from c b.
Proof.
  intros H. pose proof (distance_range b a). pose proof (distance_range c b).
  unfold distance_from, wrap32, is_seq in *.
  replace (c - a) with ((b - a) + (c - b)) by lia. rewrite Zplus_mod. apply Z.mod_small. lia.
Qed.

(** Comparison of two points given by their offsets from a common base. *)
Lemma before_offsets base s o :
  is_seq base -> is_seq s -> is_seq o ->
  distance_from s base < 2147483648 -> distance_from o base < 2147483648 ->
  before s o = (distance_from s base <? distance_from o base).
Proof.
  intros Hb Hs Ho H1 H2. rewrite before_distance.
  rewrite <- (seq_add_distance s base Hs Hb) at 1. rewrite <- (seq_add_distance o base Ho Hb) at 1.
  pose proof (distance_range s base) as R1. pose proof (distance_range o base) as R2.
  set (x := distance_from s base) in *. set (y := distance_from o base) in *.
  rewrite !seq_add_plain by done. unfold distance_from, wrap32.
  rewrite Zminus_mod_idemp_l, Zminus_mod_idemp_r. replace (base + x - (base + y)) with (x - y) by lia.
  unfold is_seq in *. destruct (Z.lt_ge_cases x y).
  - rewrite <- (Z.mod_add (x - y) 1) by lia. rewrite Z.mod_small by lia. lia.
  - rewrite Z.mod_small by lia. lia.
Qed.

Lemma after_offsets base s o :
  is_seq base -> is_seq s -> is_seq o ->
  distance_from s base < 2147483648 -> distance_from o base < 2147483648 ->
  after s o = (distance_from o base <? distance_from s base).
Proof. intros. unfold after. by apply before_offsets. Qed.

(** ** Properties *)

(** Sequence comparison is sound across the wrap.  Two points less than
    2^31 ahead of a common base compare with [before] and [after] exactly as
    their offsets do, and [distance_from] recovers the offset. *)
Lemma seq_compare_window (base x y : Z) :
  is_seq base -> 0 <= x < 2147483648 -> 0 <= y < 2147483648 ->
  before (seq_add base x) (seq_add base y) = (x <? y) /\
  after (seq_add base x) (seq_add base y) = (y <? x) /\
  distance_from (seq_add base x) base = x.
Proof.
  intros Hb Hx Hy.
  assert (Dx : distance_from (seq_add base x) base = x) by (apply distance_add; lia || done).
  assert (Dy : distance_from (seq_add base y) base = y) by (apply distance_add; lia || done).
  pose proof (seq_add_range base x). pose proof (seq_add_range base y).
  rewrite (before_offsets base), (after_offsets base), Dx, Dy by (done || lia). done.
Qed.

