(* ===== verification/Congestion.v ===== *)
(** The retransmission-timeout estimator of [tcp/rto.rs] and the NewReno
    congestion controller of [tcp/congestion.rs]. *)
From S2P Require Import Prelude TcpSeq.

(** ** RTT estimation *)
Definition MIN_RTO_MS : Z := 1000.
Definition MAX_RTO_MS : Z := 60000.

Record RtoEstimator := mkRto {
  smoothed_rtt_ms : option Z;
  rtt_variance_ms : Z;
  rto_ms : Z
}.

Definition rto_default : RtoEstimator :=
  {| smoothed_rtt_ms := None; rtt_variance_ms := 0; rto_ms := MIN_RTO_MS |}.

Definition clamp (x lo hi : Z) : Z := Z.min (Z.max x lo) hi.
Definition abs_diff (a b : Z) : Z := Z.abs (a - b).

Definition record_sample (r : RtoEstimator) (sample_ms : Z) : RtoEstimator :=
  let sample_ms := Z.max sample_ms 1 in
  let '(smoothed, variance) :=
    match smoothed_rtt_ms r with
    | Some smoothed =>
      let error := abs_diff smoothed sample_ms in
      (sat_add (sat_mul smoothed 7) sample_ms / 8,
       sat_add (sat_mul (rtt_variance_ms r) 3) error / 4)
    | None => (sample_ms, sample_ms / 2)
    end in
  {| smoothed_rtt_ms := Some smoothed;
     rtt_variance_ms := variance;
     rto_ms := clamp (sat_add smoothed (Z.max (sat_mul variance 4) 1)) MIN_RTO_MS MAX_RTO_MS |}.

Definition backoff (r : RtoEstimator) : RtoEstimator :=
  {| smoothed_rtt_ms := smoothed_rtt_ms r; rtt_variance_ms := rtt_variance_ms r;
     rto_ms := Z.min (sat_mul (rto_ms r) 2) MAX_RTO_MS |}.

(** ** NewReno *)
Record NewReno := mkNewReno {
  maximum_segment_size : Z;
  congestion_window : Z;
  slow_start_threshold : Z;
  congestion_avoidance_credit : Z;
  duplicate_acks : Z;
  recover : option SeqNumber
}.

(** [NewReno::new]; [None] is its assertion that the MSS is not zero. *)
Definition newreno_value (mss : Z) : NewReno :=
  {| maximum_segment_size := mss;
     congestion_window := Z.min (sat_mul mss 4) (Z.max (sat_mul mss 2) 4380);
     slow_start_threshold := usize_max;
     congestion_avoidance_credit := 0;
     duplicate_acks := 0;
     recover := None |}.
Definition newreno_new (mss : Z) : option NewReno :=
  if 0 <? mss then Some (newreno_value mss) else None.

Definition is_some {A} (o : option A) : bool := match o with Some _ => true | None => false end.

Definition limited_transmit_allowance (c : NewReno) : Z :=
  if is_some (recover c) then 0
  else sat_mul (Z.min (duplicate_acks c) 2) (maximum_segment_size c).

(** [while credit >= window { credit -= window; window += mss }]. *)
Fixpoint avoidance_loop (fuel : nat) (mss window credit : Z) : Z * Z :=
  match fuel with
  | O => (window, credit)
  | S fuel =>
    if window <=? credit
    then avoidance_loop fuel mss (sat_add window mss) (credit - window)
    else (window, credit)
  end.
(** Each round takes at least one MSS of credit. *)
Definition avoidance_fuel (mss credit : Z) : nat := S (Z.to_nat (credit / mss)).

Definition on_new_ack (c : NewReno) (acknowledged_bytes : Z) (acknowledgment : SeqNumber)
    : NewReno * bool :=
  let mss := maximum_segment_size c in
  match recover c with
  | Some recover_point =>
    if before acknowledgment recover_point then
      ({| maximum_segment_size := mss;
          congestion_window :=
            Z.max (sat_add (sat_sub (congestion_window c) acknowledged_bytes) mss) mss;
          slow_start_threshold := slow_start_threshold c;
          congestion_avoidance_credit := congestion_avoidance_credit c;
          duplicate_acks := 0;
          recover := Some recover_point |}, true)
    else
      ({| maximum_segment_size := mss;
          congestion_window := slow_start_threshold c;
          slow_start_threshold := slow_start_threshold c;
          congestion_avoidance_credit := 0;
          duplicate_acks := 0;
          recover := None |}, false)
  | None =>
    if congestion_window c <? slow_start_threshold c then
      ({| maximum_segment_size := mss;
          congestion_window := sat_add (congestion_window c) (Z.min acknowledged_bytes mss);
          slow_start_threshold := slow_start_threshold c;
          congestion_avoidance_credit := congestion_avoidance_credit c;
          duplicate_acks := 0;
          recover := None |}, false)
    else
      let credit := sat_add (congestion_avoidance_credit c) acknowledged_bytes in
      let '(window, credit) :=
        avoidance_loop (avoidance_fuel mss credit) mss (congestion_window c) credit in
      ({| maximum_segment_size := mss;
          congestion_window := window;
          slow_start_threshold := slow_start_threshold c;
          congestion_avoidance_credit := credit;
          duplicate_acks := 0;
          recover := None |}, false)
  end.

Definition half_flight (c : NewReno) (flight_size : Z) : Z :=
  Z.max (flight_size / 2) (sat_mul (maximum_segment_size c) 2).

Definition enter_recovery (c : NewReno) (flight_size : Z) (send_next : SeqNumber) : NewReno :=
  {| maximum_segment_size := maximum_segment_size c;
     congestion_window :=
       sat_add (half_flight c flight_size) (sat_mul (maximum_segment_size c) 3);
     slow_start_threshold := half_flight c flight_size;
     congestion_avoidance_credit := 0;
     duplicate_acks := duplicate_acks c;
     recover := Some send_next |}.

Definition on_duplicate_ack (c : NewReno) (flight_size : Z) (send_next : SeqNumber)
    : NewReno * bool :=
  if is_some (recover c) then
    ({| maximum_segment_size := maximum_segment_size c;
        congestion_window := sat_add (congestion_window c) (maximum_segment_size c);
        slow_start_threshold := slow_start_threshold c;
        congestion_avoidance_credit := congestion_avoidance_credit c;
        duplicate_acks := duplicate_acks c;
        recover := recover c |}, false)
  else
    let c := {| maximum_segment_size := maximum_segment_size c;
                congestion_window := congestion_window c;
                slow_start_threshold := slow_start_threshold c;
                congestion_avoidance_credit := congestion_avoidance_credit c;
                duplicate_acks := Z.min (duplicate_acks c + 1) u8_max;
                recover := recover c |} in
    if negb (duplicate_acks c =? 3) then (c, false)
    else (enter_recovery c flight_size send_next, true).

Definition on_sack_loss_cc (c : NewReno) (flight_size : Z) (send_next : SeqNumber)
    : NewReno * bool :=
  if is_some (recover c) then (c, false)
  else
    ({| maximum_segment_size := maximum_segment_size c;
        congestion_window := half_flight c flight_size;
        slow_start_threshold := half_flight c flight_size;
        congestion_avoidance_credit := 0;
        duplicate_acks := duplicate_acks c;
        recover := Some send_next |}, true).

Definition on_timeout (c : NewReno) (flight_size : Z) : NewReno :=
  {| maximum_segment_size := maximum_segment_size c;
     congestion_window := maximum_segment_size c;
     slow_start_threshold := half_flight c flight_size;
     congestion_avoidance_credit := 0;
     duplicate_acks := 0;
     recover := None |}.

(** ** Invariants *)
(** The window never falls under one segment, the threshold never under two,
    the credit held toward the next increase is less than a window (and none
    is held during recovery), and the duplicate count stops at the threshold
    that starts recovery. *)
Record newreno_wf (c : NewReno) : Prop := {
  nw_mss : 0 < maximum_segment_size c <= 2305843009213693952;
  nw_window : maximum_segment_size c <= congestion_window c <= u64_max;
  nw_threshold : 2 * maximum_segment_size c <= slow_start_threshold c <= u64_max;
  nw_credit : 0 <= congestion_avoidance_credit c < congestion_window c;
  nw_recover : match recover c with
               | Some _ => congestion_avoidance_credit c = 0 /\ duplicate_acks c <= 3
               | None => duplicate_acks c <= 2
               end;
  nw_duplicates : 0 <= duplicate_acks c
}.

(** What the connection reports to its controller. *)
Inductive CongestionEvent :=
| NewAck (acknowledged_bytes : Z) (acknowledgment : SeqNumber)
| DuplicateAck (flight_size : Z) (send_next : SeqNumber)
| SackLoss (flight_size : Z) (send_next : SeqNumber)
| Timeout (flight_size : Z).

Definition event_amount (e : CongestionEvent) : Z :=
  match e with
  | NewAck n _ | DuplicateAck n _ | SackLoss n _ | Timeout n => n
  end.

Definition newreno_step (c : NewReno) (e : CongestionEvent) : NewReno :=
  match e with
  | NewAck acknowledged ack => fst (on_new_ack c acknowledged ack)
  | DuplicateAck flight next => fst (on_duplicate_ack c flight next)
  | SackLoss flight next => fst (on_sack_loss_cc c flight next)
  | Timeout flight => on_timeout c flight
  end.

(** ** Lemmas *)
Lemma clamp_range x lo hi : lo <= hi -> lo <= clamp x lo hi <= hi.
Proof. unfold clamp. lia. Qed.

Lemma div_between a n lo hi : 0 < n -> n * lo <= a <= n * hi -> lo <= a / n <= hi.
Proof.
  intros Hn Ha. split.
  - apply Z.div_le_lower_bound; lia.
  - apply Z.div_le_upper_bound; lia.
Qed.

(** The averaging step stays between the old average and the sample, also
    when its intermediate products saturate. *)
Lemma smooth_between smoothed sample :
  is_u64 smoothed -> is_u64 sample -> smoothed <= 2305843009213693951 -> sample <= 2305843009213693951 ->
  Z.min smoothed sample <= sat_add (sat_mul smoothed 7) sample / 8 <= Z.max smoothed sample.
Proof.
  intros H1 H2 B1 B2. apply div_between; [lia|]. width.
Qed.

(** The loop consumes its credit: with the fuel it is given it leaves less
    than a window, and it adds at most one MSS for every window consumed. *)
Lemma avoidance_loop_spec mss fuel : forall window credit,
  0 < mss -> mss <= window <= u64_max -> 0 <= credit -> credit < mss * Z.of_nat fuel ->
  let '(window', credit') := avoidance_loop fuel mss window credit in
  window <= window' <= u64_max /\ 0 <= credit' < window' /\ credit' <= credit /\
  window' - window <= mss * ((credit - credit') / window).
Proof.
  induction fuel as [|fuel IH]; intros window credit Hm Hw Hc Hf; [lia|].
  rewrite Nat2Z.inj_succ, Z.mul_succ_r in Hf. cbn [avoidance_loop]. case_bool.
  2: { cbv beta iota. rewrite !Z.sub_diag, Zdiv_0_l. lia. }
  assert (Hn : window <= sat_add window mss <= window + mss /\ sat_add window mss <= u64_max) by width.
  specialize (IH (sat_add window mss) (credit - window)).
  destruct (avoidance_loop fuel mss _ _) as [window' credit'].
  destruct IH as (I1 & I2 & I3 & I4); [lia..|].
  assert (K : (credit - credit') / window = 1 + (credit - window - credit') / window).
  { replace (credit - credit') with (1 * window + (credit - window - credit')) by lia.
    rewrite Z.div_add_l by lia. done. }
  assert (J : mss * ((credit - window - credit') / sat_add window mss)
              <= mss * ((credit - window - credit') / window)).
  { apply Z.mul_le_mono_nonneg_l; [lia|]. apply Z.div_le_compat_l; lia. }
  rewrite K. lia.
Qed.

Lemma avoidance_fuel_enough mss credit :
  0 < mss -> 0 <= credit -> credit < mss * Z.of_nat (avoidance_fuel mss credit).
Proof.
  intros Hm Hc. unfold avoidance_fuel. rewrite Nat2Z.inj_succ, Z2Nat.id by (apply Z.div_pos; lia).
  pose proof (Z.mul_succ_div_gt credit mss). lia.
Qed.

Lemma half_flight_range c flight : newreno_wf c -> is_u64 flight ->
  2 * maximum_segment_size c <= half_flight c flight <= u64_max.
Proof.
  intros [] Hf. unfold half_flight.
  assert (0 <= flight / 2 <= flight) by (split; [apply Z.div_pos|apply Z.div_le_upper_bound]; width).
  width.
Qed.

Lemma newreno_value_wf mss : 0 < mss <= 2305843009213693952 -> newreno_wf (newreno_value mss).
Proof. intros H. split; cbn; width. Qed.

Lemma on_new_ack_wf c acked ack : newreno_wf c -> is_u64 acked ->
  newreno_wf (fst (on_new_ack c acked ack)).
Proof.
  intros [] Ha. unfold on_new_ack.
  destruct (recover c) as [point|] eqn:Hr; case_bool.
  - split; cbn; try done; width.
  - split; cbn; try done; width.
  - split; cbn; try done; width.
  - set (credit := sat_add _ acked).
    assert (Hc : 0 <= credit) by (unfold credit; width).
    pose proof (avoidance_loop_spec (maximum_segment_size c)
      (avoidance_fuel (maximum_segment_size c) credit) (congestion_window c) credit
      ltac:(lia) ltac:(lia) Hc ltac:(apply avoidance_fuel_enough; lia)) as Hl.
    destruct (avoidance_loop _ _ _ _) as [w r]. split; cbn; try done; width.
Qed.

Lemma on_duplicate_ack_wf c flight next : newreno_wf c -> is_u64 flight ->
  newreno_wf (fst (on_duplicate_ack c flight next)).
Proof.
  intros Hwf Hf. pose proof (half_flight_range c flight Hwf Hf) as Hh. destruct Hwf.
  unfold on_duplicate_ack, enter_recovery.
  destruct (recover c) as [point|] eqn:Hr; cbn [is_some].
  - split; cbn; rewrite ?Hr; try done; width.
  - case_bool; cbn [duplicate_acks] in Hif.
    + split; cbn; rewrite ?Hr; try done; width.
    + change (half_flight (mkNewReno _ _ _ _ _ _) flight) with (half_flight c flight).
      split; cbn; try done; width.
Qed.

Lemma newreno_step_wf c e : newreno_wf c -> is_u64 (event_amount e) -> newreno_wf (newreno_step c e).
Proof.
  intros Hwf He. destruct e as [n a|f n|f n|f]; cbn [newreno_step event_amount] in *.
  - by apply on_new_ack_wf.
  - by apply on_duplicate_ack_wf.
  - pose proof (half_flight_range c f Hwf He). unfold on_sack_loss_cc.
    destruct (recover c) eqn:Hr; [done|]. destruct Hwf.
    split; cbn; rewrite ?Hr in *; try done; width.
  - pose proof (half_flight_range c f Hwf He). destruct Hwf.
    split; cbn; try done; width.
Qed.

Lemma newreno_run_wf es : forall c, newreno_wf c -> Forall (fun e => is_u64 (event_amount e)) es ->
  newreno_wf (foldl newreno_step c es).
Proof.
  induction es as [|e es IH]; intros c Hc Hes; [done|].
  inversion Hes; subst. cbn [foldl]. apply IH; [by apply newreno_step_wf|done].
Qed.

(** The estimator is fed samples and backoffs. *)
Inductive RtoEvent := Sample (sample_ms : Z) | Backoff.
Definition rto_step (r : RtoEstimator) (e : RtoEvent) : RtoEstimator :=
  match e with Sample s => record_sample r s | Backoff => backoff r end.

(** Samples between [lo] and [hi] keep the smoothed estimate between them. *)
Definition sample_in (lo hi : Z) (e : RtoEvent) : Prop :=
  match e with Sample s => lo <= s <= hi | Backoff => True end.
Definition rto_in (lo hi : Z) (r : RtoEstimator) : Prop :=
  MIN_RTO_MS <= rto_ms r <= MAX_RTO_MS /\ is_u64 (rtt_variance_ms r) /\
  match smoothed_rtt_ms r with Some s => lo <= s <= hi | None => True end.

Lemma variance_range v e : is_u64 v -> is_u64 e -> is_u64 (sat_add (sat_mul v 3) e / 4).
Proof. intros Hv He. apply div_between; [lia|]. width. Qed.

Lemma rto_step_in lo hi r e : 1 <= lo -> hi <= 2305843009213693951 ->
  rto_in lo hi r -> sample_in lo hi e -> rto_in lo hi (rto_step r e).
Proof.
  intros Hlo Hhi (R & V & S) He. destruct e as [s|]; cbn [rto_step sample_in] in *.
  2: { unfold rto_in, backoff, MIN_RTO_MS, MAX_RTO_MS in *. cbn [rto_ms rtt_variance_ms smoothed_rtt_ms].
       repeat split; try done; width. }
  unfold record_sample. rewrite (Z.max_l s 1) by lia.
  unfold rto_in. destruct (smoothed_rtt_ms r) as [sm|];
    cbn [rto_ms rtt_variance_ms smoothed_rtt_ms]; (split; [by apply clamp_range|]).
  - split; [apply variance_range; [done|unfold abs_diff; width]|].
    pose proof (smooth_between sm s ltac:(width) ltac:(width) ltac:(width) ltac:(width)). lia.
  - pose proof (div_between s 2 0 s). width.
Qed.

(** ** Properties *)

(** The retransmission timeout is always between one and sixty seconds,
    and the smoothed round-trip time stays within the range of the samples it
    was given, for every sequence of samples and backoffs. *)
Lemma rto_estimator_sound (lo hi : Z) (es : list RtoEvent) :
  1 <= lo -> hi <= 2305843009213693951 -> Forall (sample_in lo hi) es ->
  rto_in lo hi (foldl rto_step rto_default es).
Proof.
  intros Hlo Hhi Hes.
  assert (H0 : rto_in lo hi rto_default) by (unfold rto_in, rto_default, MIN_RTO_MS, MAX_RTO_MS; cbn; width).
  revert H0. generalize rto_default.
  induction Hes as [|e es He Hes IH]; intros r Hr; [done|].
  cbn [foldl]. apply IH. by apply rto_step_in.
Qed.


(** C11: the NewReno controller keeps its invariant under every sequence of
    acknowledgments, duplicate acknowledgments, SACK losses and timeouts: the
    window holds at least one segment, the threshold two, and the avoidance
    loop always runs its credit down below one window. *)
Theorem newreno_invariant (mss : Z) (es : list CongestionEvent) :
  0 < mss <= 2305843009213693952 -> Forall (fun e => is_u64 (event_amount e)) es ->
  exists c, newreno_new mss = Some c /\ newreno_wf (foldl newreno_step c es).
Proof.
  intros Hm Hes. exists (newreno_value mss). split.
  - unfold newreno_new. case_bool; [done|lia].
  - apply newreno_run_wf; [by apply newreno_value_wf|done].
Qed.

Lemma newreno_invariant_witness :
  exists c, newreno_new 1460 = Some c /\ newreno_wf (foldl newreno_step c
    [NewAck 1460 1460; DuplicateAck 8000 9000; DuplicateAck 8000 9000; DuplicateAck 8000 9000;
     NewAck 4000 5000; NewAck 4000 9000; NewAck 9000 18000; Timeout 3000]).
Proof.
  apply (newreno_invariant 1460); [lia|].
  repeat constructor; cbn; width.
Defined.

(** Outside recovery one acknowledgment of no more than a window never
    shrinks the congestion window and opens it by at most one segment, in slow
    start and in congestion avoidance alike. *)
Lemma newreno_growth (c : NewReno) (acked ack : Z) :
  newreno_wf c -> recover c = None -> 0 <= acked <= congestion_window c ->
  let c' := fst (on_new_ack c acked ack) in
  congestion_window c <= congestion_window c' <= congestion_window c + maximum_segment_size c.
Proof.
  intros [] Hr Ha. unfold on_new_ack. rewrite Hr. case_bool; [cbn; width|].
  set (credit := sat_add _ acked).
  assert (Hc : 0 <= credit < 2 * congestion_window c) by (unfold credit; width).
  pose proof (avoidance_loop_spec (maximum_segment_size c)
    (avoidance_fuel (maximum_segment_size c) credit) (congestion_window c) credit
    ltac:(lia) ltac:(lia) ltac:(lia) ltac:(apply avoidance_fuel_enough; lia)) as Hl.
  destruct (avoidance_loop _ _ _ _) as [w r]. cbn [fst congestion_window].
  destruct Hl as (L1 & L2 & L3 & L4).
  assert ((credit - r) / congestion_window c < 2) by (apply Z.div_lt_upper_bound; lia).
  assert (maximum_segment_size c * ((credit - r) / congestion_window c)
          <= maximum_segment_size c * 1) by (apply Z.mul_le_mono_nonneg_l; lia).
  lia.
Qed.

