(* ===== verification/TcpTcb.v ===== *)
(** The TCP control block of [sail-netstack/src/tcp/state.rs]: its state, every
    operation that changes it, and the RFC 9293 decisions it takes.

    An operation of the source borrows the block mutably and returns a
    [Result]; here it returns the block after the call together with the
    result, so that what an error leaves behind is visible. *)
From S2P Require Import Prelude TcpSeq Congestion.

(** ** Data *)
Inductive AppEvent :=
| Consumed (amount : Z)
| AppSend (amount : Z)
| Close
| Abort.

Inductive TimerEvent :=
| Retransmission
| DelayedAck
| Persist
| Keepalive
| TimeWaitExpired
| FinWait2Timeout.

Inductive TcpState :=
| SynSent
| SynReceived
| Established
| FinWait1
| FinWait2
| Closing
| CloseWait
| LastAck
| TimeWait
| Closed.

Inductive TcpAction :=
| Send (c : SendControl)
| DefensiveAck (c : SendControl)
| SendPayload (c : SendControl)
| RetransmitPayload (c : SendControl)
| DeliverPayload (amount : Z)
| Accepted
| Connected
| PeerHalfClosed
| ArmRetransmission (after_ms : Z)
| DisarmRetransmission
| ArmDelayedAck
| DisarmDelayedAck
| ArmTimeWait
| ChallengeAck
| ClosedAction.

Inductive TcpError :=
| InvalidSyn
| ReceiveCreditExceeded
| ConsumedBeyondBuffered
| InvalidSendState
| SendWindowExceeded
| SendOutstanding
| ClosedError.

#[export] Instance TcpState_eq_dec : EqDecision TcpState.
Proof. solve_decision. Defined.
#[export] Instance TimerEvent_eq_dec : EqDecision TimerEvent.
Proof. solve_decision. Defined.
#[export] Instance TcpAction_eq_dec : EqDecision TcpAction.
Proof. solve_decision. Defined.
#[export] Instance TcpError_eq_dec : EqDecision TcpError.
Proof. solve_decision. Defined.

Record TcpTcb := mkTcb {
  state : TcpState;
  recv_next : SeqNumber;
  send_unacked : SeqNumber;
  send_next : SeqNumber;
  recv_capacity : Z;
  recv_buffered : Z;
  advertised_right_edge : SeqNumber;
  update_threshold : Z;
  peer_window : Z;
  send_window_last_seq : SeqNumber;
  send_window_last_ack : SeqNumber;
  receive_window_scale : Z;
  rto : RtoEstimator;
  congestion : NewReno;
  delayed_ack_pending : bool;
  pending_initial_payload_len : Z;
  pending_initial_fin : bool;
  active_open : bool
}.

(** Assignment to one field. *)
Definition set_state (v : TcpState) (t : TcpTcb) : TcpTcb :=
  mkTcb v (recv_next t) (send_unacked t) (send_next t) (recv_capacity t) (recv_buffered t)
    (advertised_right_edge t) (update_threshold t) (peer_window t) (send_window_last_seq t)
    (send_window_last_ack t) (receive_window_scale t) (rto t) (congestion t)
    (delayed_ack_pending t) (pending_initial_payload_len t) (pending_initial_fin t)
    (active_open t).
Definition set_recv_next (v : SeqNumber) (t : TcpTcb) : TcpTcb :=
  mkTcb (state t) v (send_unacked t) (send_next t) (recv_capacity t) (recv_buffered t)
    (advertised_right_edge t) (update_threshold t) (peer_window t) (send_window_last_seq t)
    (send_window_last_ack t) (receive_window_scale t) (rto t) (congestion t)
    (delayed_ack_pending t) (pending_initial_payload_len t) (pending_initial_fin t)
    (active_open t).
Definition set_send_unacked (v : SeqNumber) (t : TcpTcb) : TcpTcb :=
  mkTcb (state t) (recv_next t) v (send_next t) (recv_capacity t) (recv_buffered t)
    (advertised_right_edge t) (update_threshold t) (peer_window t) (send_window_last_seq t)
    (send_window_last_ack t) (receive_window_scale t) (rto t) (congestion t)
    (delayed_ack_pending t) (pending_initial_payload_len t) (pending_initial_fin t)
    (active_open t).
Definition set_send_next (v : SeqNumber) (t : TcpTcb) : TcpTcb :=
  mkTcb (state t) (recv_next t) (send_unacked t) v (recv_capacity t) (recv_buffered t)
    (advertised_right_edge t) (update_threshold t) (peer_window t) (send_window_last_seq t)
    (send_window_last_ack t) (receive_window_scale t) (rto t) (congestion t)
    (delayed_ack_pending t) (pending_initial_payload_len t) (pending_initial_fin t)
    (active_open t).
Definition set_recv_capacity (v : Z) (t : TcpTcb) : TcpTcb :=
  mkTcb (state t) (recv_next t) (send_unacked t) (send_next t) v (recv_buffered t)
    (advertised_right_edge t) (update_threshold t) (peer_window t) (send_window_last_seq t)
    (send_window_last_ack t) (receive_window_scale t) (rto t) (congestion t)
    (delayed_ack_pending t) (pending_initial_payload_len t) (pending_initial_fin t)
    (active_open t).
Definition set_recv_buffered (v : Z) (t : TcpTcb) : TcpTcb :=
  mkTcb (state t) (recv_next t) (send_unacked t) (send_next t) (recv_capacity t) v
    (advertised_right_edge t) (update_threshold t) (peer_window t) (send_window_last_seq t)
    (send_window_last_ack t) (receive_window_scale t) (rto t) (congestion t)
    (delayed_ack_pending t) (pending_initial_payload_len t) (pending_initial_fin t)
    (active_open t).
Definition set_advertised_right_edge (v : SeqNumber) (t : TcpTcb) : TcpTcb :=
  mkTcb (state t) (recv_next t) (send_unacked t) (send_next t) (recv_capacity t)
    (recv_buffered t) v (update_threshold t) (peer_window t) (send_window_last_seq t)
    (send_window_last_ack t) (receive_window_scale t) (rto t) (congestion t)
    (delayed_ack_pending t) (pending_initial_payload_len t) (pending_initial_fin t)
    (active_open t).
Definition set_update_threshold (v : Z) (t : TcpTcb) : TcpTcb :=
  mkTcb (state t) (recv_next t) (send_unacked t) (send_next t) (recv_capacity t)
    (recv_buffered t) (advertised_right_edge t) v (peer_window t) (send_window_last_seq t)
    (send_window_last_ack t) (receive_window_scale t) (rto t) (congestion t)
    (delayed_ack_pending t) (pending_initial_payload_len t) (pending_initial_fin t)
    (active_open t).
Definition set_peer_window (v : Z) (t : TcpTcb) : TcpTcb :=
  mkTcb (state t) (recv_next t) (send_unacked t) (send_next t) (recv_capacity t)
    (recv_buffered t) (advertised_right_edge t) (update_threshold t) v (send_window_last_seq
    t) (send_window_last_ack t) (receive_window_scale t) (rto t) (congestion t)
    (delayed_ack_pending t) (pending_initial_payload_len t) (pending_initial_fin t)
    (active_open t).
Definition set_send_window_last_seq (v : SeqNumber) (t : TcpTcb) : TcpTcb :=
  mkTcb (state t) (recv_next t) (send_unacked t) (send_next t) (recv_capacity t)
    (recv_buffered t) (advertised_right_edge t) (update_threshold t) (peer_window t) v
    (send_window_last_ack t) (receive_window_scale t) (rto t) (congestion t)
    (delayed_ack_pending t) (pending_initial_payload_len t) (pending_initial_fin t)
    (active_open t).
Definition set_send_window_last_ack (v : SeqNumber) (t : TcpTcb) : TcpTcb :=
  mkTcb (state t) (recv_next t) (send_unacked t) (send_next t) (recv_capacity t)
    (recv_buffered t) (advertised_right_edge t) (update_threshold t) (peer_window t)
    (send_window_last_seq t) v (receive_window_scale t) (rto t) (congestion t)
    (delayed_ack_pending t) (pending_initial_payload_len t) (pending_initial_fin t)
    (active_open t).
Definition set_receive_window_scale (v : Z) (t : TcpTcb) : TcpTcb :=
  mkTcb (state t) (recv_next t) (send_unacked t) (send_next t) (recv_capacity t)
    (recv_buffered t) (advertised_right_edge t) (update_threshold t) (peer_window t)
    (send_window_last_seq t) (send_window_last_ack t) v (rto t) (congestion t)
    (delayed_ack_pending t) (pending_initial_payload_len t) (pending_initial_fin t)
    (active_open t).
Definition set_rto (v : RtoEstimator) (t : TcpTcb) : TcpTcb :=
  mkTcb (state t) (recv_next t) (send_unacked t) (send_next t) (recv_capacity t)
    (recv_buffered t) (advertised_right_edge t) (update_threshold t) (peer_window t)
    (send_window_last_seq t) (send_window_last_ack t) (receive_window_scale t) v (congestion
    t) (delayed_ack_pending t) (pending_initial_payload_len t) (pending_initial_fin t)
    (active_open t).
Definition set_congestion (v : NewReno) (t : TcpTcb) : TcpTcb :=
  mkTcb (state t) (recv_next t) (send_unacked t) (send_next t) (recv_capacity t)
    (recv_buffered t) (advertised_right_edge t) (update_threshold t) (peer_window t)
    (send_window_last_seq t) (send_window_last_ack t) (receive_window_scale t) (rto t) v
    (delayed_ack_pending t) (pending_initial_payload_len t) (pending_initial_fin t)
    (active_open t).
Definition set_delayed_ack_pending (v : bool) (t : TcpTcb) : TcpTcb :=
  mkTcb (state t) (recv_next t) (send_unacked t) (send_next t) (recv_capacity t)
    (recv_buffered t) (advertised_right_edge t) (update_threshold t) (peer_window t)
    (send_window_last_seq t) (send_window_last_ack t) (receive_window_scale t) (rto t)
    (congestion t) v (pending_initial_payload_len t) (pending_initial_fin t) (active_open t).
Definition set_pending_initial_payload_len (v : Z) (t : TcpTcb) : TcpTcb :=
  mkTcb (state t) (recv_next t) (send_unacked t) (send_next t) (recv_capacity t)
    (recv_buffered t) (advertised_right_edge t) (update_threshold t) (peer_window t)
    (send_window_last_seq t) (send_window_last_ack t) (receive_window_scale t) (rto t)
    (congestion t) (delayed_ack_pending t) v (pending_initial_fin t) (active_open t).
Definition set_pending_initial_fin (v : bool) (t : TcpTcb) : TcpTcb :=
  mkTcb (state t) (recv_next t) (send_unacked t) (send_next t) (recv_capacity t)
    (recv_buffered t) (advertised_right_edge t) (update_threshold t) (peer_window t)
    (send_window_last_seq t) (send_window_last_ack t) (receive_window_scale t) (rto t)
    (congestion t) (delayed_ack_pending t) (pending_initial_payload_len t) v (active_open t).

(** Reduces a field of an updated block to the field or the value written. *)
Ltac tcb_simpl :=
  cbn [state recv_next send_unacked send_next recv_capacity recv_buffered
    advertised_right_edge update_threshold peer_window send_window_last_seq
    send_window_last_ack receive_window_scale rto congestion delayed_ack_pending
    pending_initial_payload_len pending_initial_fin active_open set_state set_recv_next
    set_send_unacked set_send_next set_recv_capacity set_recv_buffered
    set_advertised_right_edge set_update_threshold set_peer_window
    set_send_window_last_seq set_send_window_last_ack set_receive_window_scale set_rto
    set_congestion set_delayed_ack_pending set_pending_initial_payload_len
    set_pending_initial_fin] in *.
Ltac tcb_goal :=
  cbn [state recv_next send_unacked send_next recv_capacity recv_buffered
    advertised_right_edge update_threshold peer_window send_window_last_seq
    send_window_last_ack receive_window_scale rto congestion delayed_ack_pending
    pending_initial_payload_len pending_initial_fin active_open set_state set_recv_next
    set_send_unacked set_send_next set_recv_capacity set_recv_buffered
    set_advertised_right_edge set_update_threshold set_peer_window
    set_send_window_last_seq set_send_window_last_ack set_receive_window_scale set_rto
    set_congestion set_delayed_ack_pending set_pending_initial_payload_len
    set_pending_initial_fin].

Definition state_is (t : TcpTcb) (s : TcpState) : bool := bool_decide (state t = s).

(** ** Receive-window arithmetic *)
Definition quantum (window_scale : Z) : Z := 2 ^ Z.min window_scale 14.
Definition advertisable_receive_capacity (available window_scale : Z) : Z :=
  let quantum := quantum window_scale in
  let representable := u16_max * quantum in
  Z.min available representable / quantum * quantum.

Definition window_update_threshold
    (maximum_segment_size reserved_receive_capacity receive_window_scale : Z) : Z :=
  let scale_quantum :=
    if receive_window_scale <? 64 then 2 ^ receive_window_scale else usize_max in
  Z.min
    (Z.max
       (Z.min (Z.max maximum_segment_size 1) (Z.max (div_ceil reserved_receive_capacity 2) 1))
       scale_quantum)
    (Z.max reserved_receive_capacity 1).

Definition receive_available (t : TcpTcb) : Z := usub (recv_capacity t) (recv_buffered t).

Definition advertised_window (t : TcpTcb) : Z :=
  let distance := distance_from (advertised_right_edge t) (recv_next t) in
  Z.min (Z.shiftr distance (receive_window_scale t)) u16_max.

Definition announceable_receive_capacity (t : TcpTcb) : Z :=
  advertisable_receive_capacity usize_max (receive_window_scale t).

Definition receive_admission_left_edge (t : TcpTcb) : SeqNumber :=
  if state_is t SynReceived
  then seq_add (recv_next t)
         (uadd (pending_initial_payload_len t) (b2z (pending_initial_fin t)))
  else recv_next t.

(** ** Control segments *)
Definition control (t : TcpTcb) (flags : Z) (sequence : SeqNumber) : SendControl :=
  let window :=
    if contains flags SYN
    then Z.min (distance_from (advertised_right_edge t) (recv_next t)) u16_max
    else advertised_window t in
  {| sc_sequence := sequence; sc_acknowledgment := recv_next t;
     sc_flags := flags; sc_window := window |}.

Definition acceptable_seq (t : TcpTcb) : SeqNumber :=
  let edge := seq_add (send_unacked t) (peer_window t) in
  if before edge (send_next t) then edge else send_next t.

Definition ack (t : TcpTcb) : SendControl := control t ACK (acceptable_seq t).

(** ** Segment tests *)
Definition in_flight (t : TcpTcb) : Z := distance_from (send_next t) (send_unacked t).

Definition segment_length (segment : TcpSegmentMeta) : Z :=
  uadd (uadd (payload_len segment) (b2z (contains (flags segment) SYN)))
       (b2z (contains (flags segment) FIN)).

Definition segment_acceptable (t : TcpTcb) (segment : TcpSegmentMeta) : bool :=
  let length := segment_length segment in
  if after (sequence segment) (advertised_right_edge t) then false
  else if length =? 0 then negb (before (sequence segment) (recv_next t))
  else after (seq_add (sequence segment) length) (recv_next t).

Definition beyond_receive_window (t : TcpTcb) (segment : TcpSegmentMeta) : bool :=
  ((0 <? payload_len segment) || contains (flags segment) FIN) &&
  negb (before (sequence segment) (advertised_right_edge t)).

Definition trim_in_order_segment_to_receive_window (t : TcpTcb) (segment : TcpSegmentMeta)
    : TcpSegmentMeta :=
  if negb (sequence segment =? recv_next t) then segment
  else
    let window_left := distance_from (advertised_right_edge t) (recv_next t) in
    let payload := Z.min (payload_len segment) window_left in
    let flags' :=
      if contains (flags segment) FIN && (window_left <=? payload)
      then from_bits (Z.land (flags segment) (Z.lxor FIN 255)) else flags segment in
    mkSegment (sequence segment) (acknowledgment segment) flags' (window segment) payload.

Definition sequence_in_receive_window (t : TcpTcb) (seq : SeqNumber) : bool :=
  negb (before seq (recv_next t)) && before seq (advertised_right_edge t).

Definition peer_receive_closed (t : TcpTcb) : bool :=
  match state t with CloseWait | Closing | LastAck | TimeWait => true | _ => false end.

Definition local_fin_outstanding (t : TcpTcb) : bool :=
  match state t with FinWait1 | Closing | LastAck => true | _ => false end.

Definition has_outstanding_payload (t : TcpTcb) : bool :=
  local_fin_outstanding t && negb (send_unacked t =? wrap32 (send_next t - 1)).

Definition send_available (t : TcpTcb) : Z :=
  sat_sub
    (Z.min (peer_window t)
       (sat_add (congestion_window (congestion t)) (limited_transmit_allowance (congestion t))))
    (in_flight t).

Definition ack_is (segment : TcpSegmentMeta) (a : SeqNumber) : bool :=
  match acknowledgment segment with Some x => x =? a | None => false end.

Definition accepts_final_ack (t : TcpTcb) (segment : TcpSegmentMeta) : bool :=
  state_is t SynReceived && contains (flags segment) ACK && negb (contains (flags segment) RST) &&
  negb (contains (flags segment) SYN) && ack_is segment (send_next t) &&
  (sequence segment =?
     seq_add (recv_next t) (uadd (pending_initial_payload_len t) (b2z (pending_initial_fin t)))).

Definition final_ack_payload_capacity (t : TcpTcb) : option Z :=
  if state_is t SynReceived && negb (pending_initial_fin t)
  then Some (sat_sub (recv_capacity t) (pending_initial_payload_len t)) else None.

Definition accepts_sender_feedback (t : TcpTcb) (segment : TcpSegmentMeta) : bool :=
  segment_acceptable t segment && contains (flags segment) ACK &&
  negb (contains (flags segment) SYN) && negb (contains (flags segment) RST) &&
  match acknowledgment segment with
  | Some a => negb (before a (send_unacked t)) && negb (after a (send_next t))
  | None => false
  end.

Definition accepts_receive_sequence (t : TcpTcb) (segment : TcpSegmentMeta) : bool :=
  segment_acceptable t segment.

(** ** Opening *)
Definition from_syn_with_options (segment : TcpSegmentMeta) (initial_send_sequence : SeqNumber)
    (reserved_receive_capacity mss window_scale : Z)
    : outcome TcpError (TcpTcb * list TcpAction) :=
  if negb (contains (flags segment) SYN) || contains (flags segment) ACK ||
     contains (flags segment) RST
  then Err InvalidSyn
  else if reserved_receive_capacity <? payload_len segment then Err ReceiveCreditExceeded
  else
    let next := seq_add (sequence segment) 1 in
    let scale := Z.min window_scale 14 in
    let advertised_capacity :=
      Z.max (advertisable_receive_capacity reserved_receive_capacity scale)
            (payload_len segment) in
    let initial_fin :=
      contains (flags segment) FIN && (payload_len segment <? advertised_capacity) in
    controller ← expect (newreno_new mss);
    let tcb :=
      {| state := SynReceived;
         recv_next := next;
         send_unacked := initial_send_sequence;
         send_next := seq_add initial_send_sequence 1;
         recv_capacity := reserved_receive_capacity;
         recv_buffered := 0;
         advertised_right_edge := seq_add next advertised_capacity;
         update_threshold := window_update_threshold mss reserved_receive_capacity scale;
         peer_window := window segment;
         send_window_last_seq := sequence segment;
         send_window_last_ack := 0;
         receive_window_scale := scale;
         rto := rto_default;
         congestion := controller;
         delayed_ack_pending := false;
         pending_initial_payload_len := payload_len segment;
         pending_initial_fin := initial_fin;
         active_open := false |} in
    mret (tcb, [Send (control tcb (union_flags SYN ACK) initial_send_sequence);
                ArmRetransmission (rto_ms (rto tcb))]).

Definition from_syn_with_mss segment initial_send_sequence reserved_receive_capacity mss :=
  from_syn_with_options segment initial_send_sequence reserved_receive_capacity mss 0.

Definition from_syn segment initial_send_sequence reserved_receive_capacity :=
  from_syn_with_mss segment initial_send_sequence reserved_receive_capacity 1460.

Definition connect (initial_send_sequence : SeqNumber)
    (reserved_receive_capacity mss window_scale : Z)
    : outcome TcpError (TcpTcb * list TcpAction) :=
  let scale := Z.min window_scale 14 in
  let next := 0 in
  controller ← expect (newreno_new mss);
  let tcb :=
    {| state := SynSent;
       recv_next := next;
       send_unacked := initial_send_sequence;
       send_next := seq_add initial_send_sequence 1;
       recv_capacity := reserved_receive_capacity;
       recv_buffered := 0;
       advertised_right_edge :=
         seq_add next (advertisable_receive_capacity reserved_receive_capacity scale);
       update_threshold := window_update_threshold mss reserved_receive_capacity scale;
       peer_window := 0;
       send_window_last_seq := 0;
       send_window_last_ack := 0;
       receive_window_scale := scale;
       rto := rto_default;
       congestion := controller;
       delayed_ack_pending := false;
       pending_initial_payload_len := 0;
       pending_initial_fin := false;
       active_open := true |} in
  mret (tcb, [Send (control tcb SYN initial_send_sequence);
              ArmRetransmission (rto_ms (rto tcb))]).

Definition withdraw_receive_window_scale (t : TcpTcb) : TcpTcb :=
  if negb (state_is t SynSent) then t
  else
    set_update_threshold
      (window_update_threshold (maximum_segment_size (congestion t)) (recv_capacity t) 0)
      (set_receive_window_scale 0 t).

Definition grow_receive_capacity (additional : Z) (t : TcpTcb) : TcpTcb :=
  let t := set_recv_capacity (uadd (recv_capacity t) additional) t in
  set_update_threshold
    (window_update_threshold (maximum_segment_size (congestion t)) (recv_capacity t)
       (receive_window_scale t)) t.

Definition record_rtt_sample (sample_ms : Z) (t : TcpTcb) : TcpTcb :=
  set_rto (record_sample (rto t) sample_ms) t.

(** ** Pieces of the handlers

    [actions] is the vector the source passes by mutable reference. *)
Definition cancel_delayed_ack (t : TcpTcb) (actions : list TcpAction)
    : TcpTcb * list TcpAction :=
  if delayed_ack_pending t
  then (set_delayed_ack_pending false t, actions ++ [DisarmDelayedAck])
  else (t, actions).

Definition enter_time_wait (t : TcpTcb) (actions : list TcpAction) : TcpTcb * list TcpAction :=
  (set_state TimeWait t, actions ++ [ArmTimeWait]).

Definition on_peer_fin (t : TcpTcb) (actions : list TcpAction) : TcpTcb * list TcpAction :=
  let actions := actions ++ [PeerHalfClosed] in
  match state t with
  | Established => (set_state CloseWait t, actions)
  | FinWait1 =>
    if send_unacked t =? send_next t then enter_time_wait t actions
    else (set_state Closing t, actions)
  | FinWait2 => enter_time_wait t actions
  | TimeWait => (t, actions ++ [ArmTimeWait])
  | _ => (t, actions)
  end.

(** [cancel_delayed_ack] followed by an acknowledgment that [wrap] sends. *)
Definition answer_with (wrap : SendControl -> TcpAction) (t : TcpTcb) (actions : list TcpAction)
    : TcpTcb * list TcpAction :=
  let '(t, actions) := cancel_delayed_ack t actions in
  (t, actions ++ [wrap (ack t)]).

(** The FIN's sequence number is taken and acknowledged at once. *)
Definition take_fin (t : TcpTcb) (actions : list TcpAction) : TcpTcb * list TcpAction :=
  let t := set_recv_next (seq_add (recv_next t) 1) t in
  let '(t, actions) := on_peer_fin t actions in
  answer_with Send t actions.

Definition accept_queued_payload (amount : Z) (t : TcpTcb)
    : TcpTcb * outcome TcpError TcpAction :=
  if (amount =? 0) || (receive_available t <? amount) then (t, Err ReceiveCreditExceeded)
  else
    let t := set_recv_buffered (uadd (recv_buffered t) amount) t in
    let t := set_recv_next (seq_add (recv_next t) amount) t in
    (t, Ok (DeliverPayload amount)).

Definition accept_queued_fin (t : TcpTcb) : TcpTcb * list TcpAction := take_fin t [].
Definition force_ack (t : TcpTcb) : TcpTcb * list TcpAction := answer_with Send t [].
Definition reject_unacceptable_segment (t : TcpTcb) : TcpTcb * list TcpAction :=
  answer_with DefensiveAck t [].

Definition on_sack_loss (t : TcpTcb) : TcpTcb * list TcpAction :=
  if negb (match state t with
           | Established | FinWait1 | Closing | CloseWait | LastAck => true
           | _ => false
           end) ||
     (send_unacked t =? send_next t) ||
     (local_fin_outstanding t && negb (has_outstanding_payload t))
  then (t, [])
  else
    let '(c, entered) := on_sack_loss_cc (congestion t) (in_flight t) (send_next t) in
    let t := set_congestion c t in
    if negb entered then (t, [])
    else (t, [RetransmitPayload (control t ACK (send_unacked t))]).

Definition start_close (t : TcpTcb) : TcpTcb * list TcpAction :=
  let finish t :=
    let sequence := send_next t in
    let t := set_send_next (seq_add (send_next t) 1) t in
    (t, [Send (control t (union_flags FIN ACK) sequence); ArmRetransmission (rto_ms (rto t))]) in
  match state t with
  | Established => finish (set_state FinWait1 t)
  | CloseWait => finish (set_state LastAck t)
  | _ => (t, [])
  end.

(** ** Acknowledgments *)
Definition update_send_window (segment : TcpSegmentMeta) (t : TcpTcb) : TcpTcb :=
  match acknowledgment segment with
  | None => t
  | Some acknowledgment =>
    if before acknowledgment (send_unacked t) || after acknowledgment (send_next t) then t
    else if negb (segment_acceptable t segment) then t
    else
      let fresh :=
        after (sequence segment) (send_window_last_seq t) ||
        ((sequence segment =? send_window_last_seq t) &&
         (after acknowledgment (send_window_last_ack t) ||
          (acknowledgment =? send_window_last_ack t))) in
      if fresh then
        set_send_window_last_ack acknowledgment
          (set_send_window_last_seq (sequence segment) (set_peer_window (window segment) t))
      else t
  end.

(** What an acknowledgment does to the sender's side of the block. *)
Definition advance_sender (a : SeqNumber) (segment_window old_peer_window : Z) (carried_data : bool)
    (t : TcpTcb) (actions : list TcpAction) : TcpTcb * list TcpAction :=
  if after a (send_unacked t) && negb (after a (send_next t)) then
    let acknowledged_bytes := distance_from a (send_unacked t) in
    let t := set_send_unacked a t in
    let '(c, partial) := on_new_ack (congestion t) acknowledged_bytes a in
    let t := set_congestion c t in
    let outstanding := negb (send_unacked t =? send_next t) in
    let actions :=
      if partial && outstanding
      then actions ++ [RetransmitPayload (control t ACK (send_unacked t))] else actions in
    let actions := actions ++ [DisarmRetransmission] in
    (t, if outstanding then actions ++ [ArmRetransmission (rto_ms (rto t))] else actions)
  else if (a =? send_unacked t) && negb (send_unacked t =? send_next t) && negb carried_data &&
          (segment_window =? old_peer_window)
  then
    let '(c, entered) := on_duplicate_ack (congestion t) (in_flight t) (send_next t) in
    let t := set_congestion c t in
    (t, if entered then actions ++ [RetransmitPayload (control t ACK (send_unacked t))]
        else actions)
  else (t, actions).

Definition process_ack (segment : TcpSegmentMeta) (old_peer_window : Z) (carried_data : bool)
    (t : TcpTcb) (actions : list TcpAction) : TcpTcb * list TcpAction :=
  match acknowledgment segment with
  | None => (t, actions)
  | Some a =>
    let '(t, actions) :=
      advance_sender a (window segment) old_peer_window carried_data t actions in
    match state t with
    | FinWait1 => if a =? send_next t then (set_state FinWait2 t, actions) else (t, actions)
    | Closing => if a =? send_next t then enter_time_wait t actions else (t, actions)
    | LastAck =>
      if a =? send_next t then (set_state Closed t, actions ++ [ClosedAction]) else (t, actions)
    | _ => (t, actions)
    end
  end.

(** ** Handshake *)
(** The part of [on_syn_sent_segment] that takes the peer's SYN;
    [acknowledgment] is the acknowledgment of our SYN, when it carries one. *)
Definition take_peer_syn (segment : TcpSegmentMeta) (acknowledgment : option SeqNumber) (t : TcpTcb)
    : TcpTcb * list TcpAction :=
  let t := set_recv_next (seq_add (sequence segment) 1) t in
  let t := set_advertised_right_edge
             (seq_add (recv_next t)
                (advertisable_receive_capacity (recv_capacity t) (receive_window_scale t))) t in
  let t := set_peer_window (window segment) t in
  let t := set_send_window_last_seq (sequence segment) t in
  match acknowledgment with
  | None =>
    let t := set_state SynReceived t in
    (t, [Send (control t (union_flags SYN ACK) (send_unacked t));
         ArmRetransmission (rto_ms (rto t))])
  | Some a =>
    let t := set_state Established (set_send_unacked a (set_send_window_last_ack a t)) in
    (t, [DisarmRetransmission; Connected; Send (ack t)])
  end.

Definition on_syn_sent_segment (t : TcpTcb) (segment : TcpSegmentMeta)
    : TcpTcb * list TcpAction :=
  let is_reset := contains (flags segment) RST in
  let after_ack (acknowledgment : option SeqNumber) :=
    if is_reset then
      match acknowledgment with
      | None => (t, [])
      | Some _ => (set_state Closed t, [DisarmRetransmission; ClosedAction])
      end
    else if negb (contains (flags segment) SYN) then (t, [])
    else take_peer_syn segment acknowledgment t in
  if contains (flags segment) ACK then
    match acknowledgment segment with
    | Some a =>
      if a =? send_next t then after_ack (Some a)
      else if negb is_reset then
        (t, [Send {| sc_sequence := a; sc_acknowledgment := 0; sc_flags := RST; sc_window := 0 |}])
      else (t, [])
    | None => (t, [])
    end
  else after_ack None.

Definition simultaneous_open_completion (t : TcpTcb) (segment : TcpSegmentMeta) : TcpSegmentMeta :=
  let peer_syn := wrap32 (recv_next t - 1) in
  if contains (flags segment) SYN && contains (flags segment) ACK &&
     negb (contains (flags segment) RST) && (sequence segment =? peer_syn) &&
     ack_is segment (send_next t)
  then mkSegment (recv_next t) (acknowledgment segment) ACK (window segment) 0
  else segment.

(** The branch of [complete_passive_handshake] that enters ESTABLISHED. *)
Definition finish_handshake (t : TcpTcb) (actions : list TcpAction) : TcpTcb * list TcpAction :=
  let t := set_state Established (set_send_unacked (send_next t) t) in
  let actions :=
    actions ++ [if active_open t then Connected else Accepted; DisarmRetransmission] in
  let '(t, actions) :=
    if 0 <? pending_initial_payload_len t then
      let amount := pending_initial_payload_len t in
      let t := set_pending_initial_payload_len 0 t in
      let t := set_recv_buffered (uadd (recv_buffered t) amount) t in
      let t := set_recv_next (seq_add (recv_next t) amount) t in
      let actions := actions ++ [DeliverPayload amount] in
      if negb (pending_initial_fin t)
      then (set_delayed_ack_pending true t, actions ++ [ArmDelayedAck])
      else (t, actions)
    else (t, actions) in
  if pending_initial_fin t then take_fin (set_pending_initial_fin false t) actions
  else (t, actions).

Definition complete_passive_handshake (t : TcpTcb) (segment : TcpSegmentMeta)
    (actions : list TcpAction) : outcome TcpError (TcpTcb * list TcpAction * bool) :=
  if negb (state_is t SynReceived) then mret (t, actions, true)
  else if negb (accepts_final_ack t segment) then
    if segment_acceptable t segment && contains (flags segment) ACK &&
       match acknowledgment segment with
       | Some a => negb (a =? send_next t)
       | None => false
       end
    then
      a ← expect (acknowledgment segment);
      mret (t, actions ++ [Send (control t RST a)], false)
    else
      mret (t, actions ++ [Send (control t (union_flags SYN ACK) (send_unacked t));
                           ArmRetransmission (rto_ms (rto t))], false)
  else
    let '(t, actions) := finish_handshake t actions in
    mret (t, actions, true).

(** ** Segment arrival *)

(** The end of [on_segment]: the in-order payload and FIN of a segment that
    passed every test. *)
Definition take_in_order (t : TcpTcb) (segment : TcpSegmentMeta) (actions : list TcpAction)
    : TcpTcb * outcome TcpError (list TcpAction) :=
  if receive_available t <? payload_len segment then (t, Err ReceiveCreditExceeded)
  else
    let '(t, actions) :=
      if 0 <? payload_len segment then
        let t := set_recv_buffered (uadd (recv_buffered t) (payload_len segment)) t in
        let t := set_recv_next (seq_add (recv_next t) (payload_len segment)) t in
        (t, actions ++ [DeliverPayload (payload_len segment)])
      else (t, actions) in
    if contains (flags segment) FIN then
      let '(t, actions) := take_fin t actions in (t, Ok actions)
    else if 0 <? payload_len segment then
      if delayed_ack_pending t then
        let t := set_delayed_ack_pending false t in
        (t, Ok (actions ++ [DisarmDelayedAck; Send (ack t)]))
      else (set_delayed_ack_pending true t, Ok (actions ++ [ArmDelayedAck]))
    else (t, Ok actions).

(** [cancel_delayed_ack] and a [DefensiveAck] end the handler. *)
Definition defend (t : TcpTcb) (actions : list TcpAction)
    : TcpTcb * outcome TcpError (list TcpAction) :=
  let '(t, actions) := answer_with DefensiveAck t actions in (t, Ok actions).

Definition carries (segment : TcpSegmentMeta) : bool :=
  (0 <? payload_len segment) || contains (flags segment) FIN.

(** From [process_ack] on: the segment is acceptable, bears an ACK of nothing
    unsent, and [segment] is already trimmed. *)
Definition take_segment (t : TcpTcb) (segment : TcpSegmentMeta) (beyond_window carried_data : bool)
    (actions : list TcpAction) : TcpTcb * outcome TcpError (list TcpAction) :=
  let old_peer_window := peer_window t in
  let t := update_send_window segment t in
  let segment := mkSegment (sequence segment) (acknowledgment segment) (flags segment)
                   (Z.min (peer_window t) u32_max) (payload_len segment) in
  let '(t, actions) := process_ack segment old_peer_window carried_data t actions in
  if state_is t Closed then (t, Ok actions)
  else if beyond_window then defend t actions
  else if peer_receive_closed t && carries segment then defend t actions
  else if carries segment then
    if negb (sequence segment =? recv_next t) then defend t actions
    else take_in_order t segment actions
  else (t, Ok actions).

(** After the handshake: the tests of RFC 9293 3.10.7.4. *)
Definition on_synchronized_segment (t : TcpTcb) (segment : TcpSegmentMeta)
    (actions : list TcpAction) : TcpTcb * outcome TcpError (list TcpAction) :=
  if negb (segment_acceptable t segment) then defend t actions
  else if contains (flags segment) SYN then (t, Ok [ChallengeAck])
  else if negb (contains (flags segment) ACK) then (t, Ok [])
  else if match acknowledgment segment with
          | Some a => after a (send_next t)
          | None => false
          end
  then (t, Ok (actions ++ [DefensiveAck (ack t)]))
  else
    let beyond_window := beyond_receive_window t segment in
    let carried_data := 0 <? payload_len segment in
    let segment := trim_in_order_segment_to_receive_window t segment in
    take_segment t segment beyond_window carried_data actions.

Definition on_segment (t : TcpTcb) (segment : TcpSegmentMeta)
    : TcpTcb * outcome TcpError (list TcpAction) :=
  if state_is t Closed then (t, Err ClosedError)
  else if state_is t SynSent then
    let '(t, actions) := on_syn_sent_segment t segment in (t, Ok actions)
  else
    let segment :=
      if active_open t && state_is t SynReceived
      then simultaneous_open_completion t segment else segment in
    if contains (flags segment) RST then
      if sequence segment =? recv_next t then (set_state Closed t, Ok [ClosedAction])
      else if sequence_in_receive_window t (sequence segment) then (t, Ok [ChallengeAck])
      else (t, Ok [])
    else
      match complete_passive_handshake t segment [] with
      | Ok (t, actions, false) => (t, Ok actions)
      | Ok (t, actions, true) => on_synchronized_segment t segment actions
      | Err e => (t, Err e)
      | Panic => (t, Panic)
      | OutOfFuel => (t, OutOfFuel)
      end.

(** ** Application events *)
Definition on_consumed (t : TcpTcb) (amount : Z) : TcpTcb * outcome TcpError (list TcpAction) :=
  if recv_buffered t <? amount then (t, Err ConsumedBeyondBuffered)
  else
    let t := set_recv_buffered (usub (recv_buffered t) amount) t in
    let candidate :=
      seq_add (recv_next t)
        (advertisable_receive_capacity (receive_available t) (receive_window_scale t)) in
    let advancement := distance_from candidate (advertised_right_edge t) in
    if after candidate (advertised_right_edge t) && (update_threshold t <=? advancement) then
      let t := set_advertised_right_edge candidate t in
      let '(t, actions) := answer_with Send t [] in (t, Ok actions)
    else (t, Ok []).

Definition on_send (t : TcpTcb) (amount : Z) : TcpTcb * outcome TcpError (list TcpAction) :=
  if negb (state_is t Established || state_is t CloseWait) then (t, Err InvalidSendState)
  else if send_available t <? amount then (t, Err SendWindowExceeded)
  else if amount =? 0 then (t, Ok [])
  else
    let arm_retransmission := send_unacked t =? send_next t in
    let sequence := send_next t in
    let t := set_send_next (seq_add (send_next t) amount) t in
    let '(t, actions) := cancel_delayed_ack t [] in
    let actions := actions ++ [SendPayload (control t ACK sequence)] in
    (t, Ok (if arm_retransmission then actions ++ [ArmRetransmission (rto_ms (rto t))]
            else actions)).

Definition on_app_event (t : TcpTcb) (event : AppEvent)
    : TcpTcb * outcome TcpError (list TcpAction) :=
  if state_is t Closed then (t, Err ClosedError)
  else
    match event with
    | Consumed amount => on_consumed t amount
    | AppSend amount => on_send t amount
    | Close =>
      if state_is t SynSent
      then (set_state Closed t, Ok [DisarmRetransmission; ClosedAction])
      else
        let '(t, actions) := cancel_delayed_ack t [] in
        let '(t, more) := start_close t in
        (t, Ok (actions ++ more))
    | Abort =>
      if state_is t SynSent
      then (set_state Closed t, Ok [DisarmRetransmission; ClosedAction])
      else
        let '(t, actions) := cancel_delayed_ack (set_state Closed t) [] in
        (t, Ok (actions ++ [Send (control t (union_flags RST ACK) (send_next t)); ClosedAction]))
    end.

(** ** Timers *)
Definition retransmission_action (t : TcpTcb) : option TcpAction :=
  match state t with
  | SynSent => Some (Send (control t SYN (send_unacked t)))
  | SynReceived => Some (Send (control t (union_flags SYN ACK) (send_unacked t)))
  | Established | CloseWait => Some (RetransmitPayload (control t ACK (send_unacked t)))
  | FinWait1 | Closing | LastAck =>
    if has_outstanding_payload t
    then Some (RetransmitPayload (control t ACK (send_unacked t)))
    else Some (Send (control t (union_flags FIN ACK) (send_unacked t)))
  | _ => None
  end.

Definition on_timer (t : TcpTcb) (event : TimerEvent)
    : TcpTcb * outcome TcpError (list TcpAction) :=
  if state_is t Closed then (t, Err ClosedError)
  else
    match event with
    | Retransmission =>
      if send_unacked t =? send_next t then (t, Ok [])
      else
        let t := set_congestion (on_timeout (congestion t) (in_flight t)) t in
        let t := set_rto (backoff (rto t)) t in
        match retransmission_action t with
        | Some action => (t, Ok [action; ArmRetransmission (rto_ms (rto t))])
        | None => (t, Ok [])
        end
    | DelayedAck =>
      if delayed_ack_pending t then
        let t := set_delayed_ack_pending false t in (t, Ok [Send (ack t)])
      else (t, Ok [])
    | TimeWaitExpired =>
      if state_is t TimeWait then (set_state Closed t, Ok [ClosedAction]) else (t, Ok [])
    | Persist | Keepalive | FinWait2Timeout => (t, Ok [])
    end.
