(* ===== verification/TcpInvariant.v ===== *)
(** Well-formed control blocks, and what every operation of
    [sail-netstack/src/tcp/state.rs] keeps: the receive window within the
    reserved credit, the sender's sequence space, the two timers the block
    arms, and the byte stream it delivers. *)
From S2P Require Import Prelude TcpSeq Congestion TcpTcb.

(** The largest window a 16-bit field with the largest shift (14) announces. *)
Definition MAX_WINDOW : Z := 1073725440.

Definition open_window (t : TcpTcb) : Z := distance_from (advertised_right_edge t) (recv_next t).

(** What may be in flight in each state: only the SYN before the handshake,
    at least the FIN while ours is unacknowledged, nothing once it is. *)
Definition flight_ok (s : TcpState) (n : Z) : Prop :=
  match s with
  | SynSent | SynReceived => n = 1
  | Established | CloseWait => n <= MAX_WINDOW
  | FinWait1 | Closing | LastAck => 0 < n <= MAX_WINDOW + 1
  | FinWait2 | TimeWait => n = 0
  | Closed => n <= MAX_WINDOW + 1
  end.

Definition pending_ok (t : TcpTcb) : Prop :=
  match state t with
  | SynReceived => pending_initial_payload_len t + b2z (pending_initial_fin t) <= open_window t
  | Closed => True
  | SynSent => pending_initial_payload_len t = 0 /\ pending_initial_fin t = false /\
               recv_buffered t = 0
  | _ => pending_initial_payload_len t = 0 /\ pending_initial_fin t = false
  end.

Definition rto_ok (r : RtoEstimator) : Prop := MIN_RTO_MS <= rto_ms r <= MAX_RTO_MS.

Record tcb_wf (t : TcpTcb) : Prop := {
  wf_recv_next : is_seq (recv_next t);
  wf_right_edge : is_seq (advertised_right_edge t);
  wf_unacked : is_seq (send_unacked t);
  wf_next : is_seq (send_next t);
  wf_scale : 0 <= receive_window_scale t <= 14;
  wf_buffered : 0 <= recv_buffered t;
  wf_capacity : recv_capacity t <= u64_max;
  wf_window : open_window t <= recv_capacity t - recv_buffered t;
  wf_window_max : open_window t <= MAX_WINDOW;
  wf_pending_len : 0 <= pending_initial_payload_len t;
  wf_pending : pending_ok t;
  wf_peer : 0 <= peer_window t <= MAX_WINDOW;
  wf_flight : flight_ok (state t) (in_flight t);
  wf_rto : rto_ok (rto t);
  wf_congestion : newreno_wf (congestion t)
}.

(** Segments as the wire layer delivers them: a payload within one IP packet,
    a window of 16 bits shifted by at most 14. *)
Record segment_ok (s : TcpSegmentMeta) : Prop := {
  so_sequence : is_seq (sequence s);
  so_ack : match acknowledgment s with Some a => is_seq a | None => True end;
  so_window : 0 <= window s <= MAX_WINDOW;
  so_payload : 0 <= payload_len s <= u16_max
}.

(** ** Arithmetic *)
Lemma seq_add_assoc s a b : seq_add (seq_add s a) b = seq_add s (a + b).
Proof.
  unfold seq_add, wrap32. rewrite !Zplus_mod_idemp_r, Zplus_mod_idemp_l. f_equal. lia.
Qed.

Lemma seq_add_0 s : is_seq s -> seq_add s 0 = s.
Proof.
  intros H. rewrite seq_add_plain by lia. unfold wrap32. rewrite Z.add_0_r. by apply Z.mod_small.
Qed.

(** Moving the left edge forward inside the window. *)
Lemma distance_advance e r n :
  is_seq e -> is_seq r -> 0 <= n <= distance_from e r ->
  distance_from e (seq_add r n) = distance_from e r - n.
Proof.
  intros He Hr Hn. pose proof (distance_range e r) as R. unfold is_seq in *.
  rewrite seq_add_plain by lia. unfold distance_from, wrap32 in *. rewrite Zminus_mod_idemp_r.
  replace (e - (r + n)) with ((e - r) - n) by lia.
  rewrite <- Zminus_mod_idemp_l. apply Z.mod_small. lia.
Qed.

(** An acknowledgment that is after the left edge and not after the right one
    lies between them, as long as less than half the space is in flight. *)
Lemma ack_between una nxt a :
  is_seq una -> is_seq nxt -> is_seq a -> distance_from nxt una < 2147483648 ->
  after a una = true -> after a nxt = false ->
  0 < distance_from a una <= distance_from nxt una /\
  distance_from nxt a = distance_from nxt una - distance_from a una.
Proof.
  intros Hu Hn Ha Hd A1 A2. unfold after in *. rewrite before_distance in A1, A2.
  apply Z.leb_le in A1. apply Z.leb_gt in A2.
  pose proof (distance_range a una) as Ra. pose proof (distance_range nxt una) as Rn.
  assert (Hau : a <> una) by (intros ->; rewrite distance_self in A1; lia).
  rewrite (distance_swap a una) in A1 by done.
  assert (D : distance_from nxt a = wrap32 (distance_from nxt una - distance_from a una)).
  { unfold distance_from, wrap32. rewrite Zminus_mod_idemp_l, Zminus_mod_idemp_r. f_equal. lia. }
  unfold is_seq in *.
  assert (P : 0 < distance_from a una).
  { destruct (Z.eq_dec (distance_from a una) 0) as [E|]; [|lia].
    exfalso. apply Hau. by apply distance_zero. }
  destruct (Z.le_gt_cases (distance_from a una) (distance_from nxt una)) as [L|L].
  - split; [lia|]. rewrite D. unfold wrap32. apply Z.mod_small. lia.
  - exfalso. rewrite D in A2. unfold wrap32 in A2.
    rewrite <- (Z.mod_add _ 1) in A2 by lia. rewrite Z.mod_small in A2 by lia. lia.
Qed.

Lemma after_self_false s : after s s = false.
Proof. unfold after. rewrite before_distance, distance_self. done. Qed.

Lemma after_of_distance una nxt : is_seq una -> is_seq nxt ->
  0 < distance_from nxt una < 2147483648 -> after nxt una = true.
Proof.
  intros Hu Hn Hd. unfold after. rewrite before_distance. apply Z.leb_le.
  assert (nxt <> una) by (intros ->; rewrite distance_self in Hd; lia).
  rewrite (distance_swap nxt una) by done. lia.
Qed.

Lemma quantum_pos s : 0 <= s -> 0 < quantum s <= 16384.
Proof.
  intros H. unfold quantum. split; [apply Z.pow_pos_nonneg; lia|].
  change 16384 with (2 ^ 14). apply Z.pow_le_mono_r; lia.
Qed.

(** The advertised amount is within the credit and fits the scaled field. *)
Lemma advertisable_range available s : 0 <= available -> 0 <= s ->
  0 <= advertisable_receive_capacity available s <= available /\
  advertisable_receive_capacity available s <= MAX_WINDOW.
Proof.
  intros Ha Hs. pose proof (quantum_pos s Hs) as Q. unfold advertisable_receive_capacity.
  set (q := quantum s) in *. set (m := Z.min available (u16_max * q)).
  assert (M : 0 <= m <= available /\ m <= MAX_WINDOW) by (unfold m, u16_max, MAX_WINDOW; lia).
  assert (D : m / q * q <= m) by (rewrite Z.mul_comm; apply Z.mul_div_le; lia).
  assert (P : 0 <= m / q) by (apply Z.div_pos; lia).
  assert (0 <= m / q * q) by (apply Z.mul_nonneg_nonneg; lia). lia.
Qed.

Lemma receive_available_wf t : tcb_wf t -> receive_available t = recv_capacity t - recv_buffered t.
Proof.
  intros []. pose proof (distance_range (advertised_right_edge t) (recv_next t)) as R.
  unfold receive_available, usub, wrap64, open_window, is_seq in *. apply Z.mod_small. width.
Qed.

Lemma open_window_nonneg t : 0 <= open_window t.
Proof. apply distance_range. Qed.

Lemma in_flight_zero t : tcb_wf t -> (send_unacked t =? send_next t) = (in_flight t =? 0).
Proof.
  intros []. unfold in_flight. destruct (Z.eqb_spec (send_unacked t) (send_next t)) as [->|N].
  - by rewrite distance_self.
  - symmetry. apply Z.eqb_neq. intros E. apply N. symmetry. by apply distance_zero.
Qed.

Lemma flight_small t : tcb_wf t -> 0 <= in_flight t < 2147483648.
Proof.
  intros []. pose proof (distance_range (send_next t) (send_unacked t)) as R.
  unfold in_flight, flight_ok, is_seq, MAX_WINDOW in *. destruct (state t); lia.
Qed.

(** ** What the actions tell the flow table

    The table keeps one retransmission and one delayed-ACK timer for the
    block and follows its arm and disarm actions; it appends delivered bytes
    to the receive stream. *)
Record timers := mkTimers { retransmission_armed : bool; delayed_ack_armed : bool }.

Definition follow (tm : timers) (a : TcpAction) : timers :=
  match a with
  | ArmRetransmission _ => mkTimers true (delayed_ack_armed tm)
  | DisarmRetransmission => mkTimers false (delayed_ack_armed tm)
  | ArmDelayedAck => mkTimers (retransmission_armed tm) true
  | DisarmDelayedAck => mkTimers (retransmission_armed tm) false
  | _ => tm
  end.
Definition follow_all : timers -> list TcpAction -> timers := foldl follow.

Definition action_bytes (a : TcpAction) : Z := match a with DeliverPayload n => n | _ => 0 end.
Definition action_fins (a : TcpAction) : Z := match a with PeerHalfClosed => 1 | _ => 0 end.
Definition total (f : TcpAction -> Z) (l : list TcpAction) : Z := foldr Z.add 0 (f <$> l).
Definition delivered : list TcpAction -> Z := total action_bytes.
Definition fins : list TcpAction -> Z := total action_fins.

Lemma total_app f l k : total f (l ++ k) = total f l + total f k.
Proof. induction l as [|x l IH]; [done|]. unfold total in *. cbn. rewrite IH. lia. Qed.

Lemma total_one f a : total f [a] = f a.
Proof. unfold total. cbn. lia. Qed.

(** The timers are in step with the block: the delayed-ACK timer runs exactly
    while an ACK is owed, and the retransmission timer exactly while something
    is unacknowledged (a closed block owes nothing). *)
Definition timers_ok (t : TcpTcb) (tm : timers) : Prop :=
  (state t <> Closed -> retransmission_armed tm = negb (send_unacked t =? send_next t)) /\
  delayed_ack_armed tm = delayed_ack_pending t.

(** Where a handler started: the timers, and the block's right edge, SND.NXT,
    flight size, buffered bytes and [recv_next]. *)
Record origin := mkOrigin {
  o_timers : timers; o_edge : Z; o_send_next : Z; o_flight : Z; o_buffered : Z; o_next : Z
}.
Definition origin_of (tm : timers) (t : TcpTcb) : origin :=
  mkOrigin tm (advertised_right_edge t) (send_next t) (in_flight t) (recv_buffered t) (recv_next t).

(** What arriving segments leave alone: the announced right edge and SND.NXT;
    SND.UNA only moves toward SND.NXT. *)
Definition framed (o : origin) (t : TcpTcb) : Prop :=
  advertised_right_edge t = o_edge o /\ send_next t = o_send_next o /\ in_flight t <= o_flight o.

(** A block and the actions emitted so far by a handler that started at [o]. *)
Definition tracked (o : origin) (t : TcpTcb) (acts : list TcpAction) : Prop :=
  timers_ok t (follow_all (o_timers o) acts) /\
  recv_buffered t = o_buffered o + delivered acts /\
  recv_next t = seq_add (o_next o) (delivered acts + fins acts) /\
  framed o t.

Lemma tracked_start tm t : tcb_wf t -> timers_ok t tm -> tracked (origin_of tm t) t [].
Proof.
  intros [] H. split; [done|]. unfold delivered, fins, total. cbn.
  split; [lia|]. split; [by rewrite seq_add_0|done].
Qed.

Section Pieces.
Variable (o : origin).

(** An action that neither moves a timer nor delivers. *)
Definition silent (a : TcpAction) : bool :=
  match a with
  | ArmRetransmission _ | DisarmRetransmission | ArmDelayedAck | DisarmDelayedAck
  | DeliverPayload _ | PeerHalfClosed => false
  | _ => true
  end.

Lemma tracked_silent t acts a : silent a = true -> tracked o t acts -> tracked o t (acts ++ [a]).
Proof.
  intros Ha (T & B & N & G). unfold tracked, follow_all, delivered, fins in *.
  rewrite foldl_app, !total_app, !total_one.
  destruct a; try done; cbn -[total] in *; rewrite !Z.add_0_r; done.
Qed.

Lemma cancel_delayed_ack_ok t acts t' acts' :
  cancel_delayed_ack t acts = (t', acts') -> tracked o t acts ->
  t' = set_delayed_ack_pending false t /\ tracked o t' acts'.
Proof.
  unfold cancel_delayed_ack. intros E H. destruct (delayed_ack_pending t) eqn:Hd; simplify_eq.
  - split; [done|]. destruct H as ((R & D) & B & N & G). unfold tracked, follow_all, delivered, fins in *.
    rewrite foldl_app, !total_app, !total_one. cbn -[total]. rewrite !Z.add_0_r. done.
  - split; [|done]. rewrite <- Hd. by destruct t'.
Qed.

Lemma tracked_arm_delayed t acts : tracked o t acts ->
  tracked o (set_delayed_ack_pending true t) (acts ++ [ArmDelayedAck]).
Proof.
  intros ((R & D) & B & N & G). unfold tracked, follow_all, delivered, fins in *.
  rewrite foldl_app, !total_app, !total_one. cbn -[total]. rewrite !Z.add_0_r. done.
Qed.

Lemma tracked_arm t acts ms : (send_unacked t =? send_next t) = false ->
  tracked o t acts -> tracked o t (acts ++ [ArmRetransmission ms]).
Proof.
  intros Hne ((R & D) & B & N & G). unfold tracked, timers_ok, follow_all, delivered, fins in *.
  rewrite foldl_app, !total_app, !total_one, Hne. cbn -[total]. rewrite !Z.add_0_r. done.
Qed.

Lemma set_delayed_wf t v : tcb_wf t -> tcb_wf (set_delayed_ack_pending v t).
Proof. intros []. by split. Qed.

Lemma answer_with_ok wrap t acts t' acts' :
  (forall c, silent (wrap c) = true) ->
  answer_with wrap t acts = (t', acts') -> tcb_wf t -> tracked o t acts ->
  t' = set_delayed_ack_pending false t /\ tcb_wf t' /\ tracked o t' acts'.
Proof.
  unfold answer_with. intros Hw E Hwf H. destruct (cancel_delayed_ack t acts) as [t1 acts1] eqn:C.
  simplify_eq. destruct (cancel_delayed_ack_ok _ _ _ _ C H) as [-> H1].
  split; [done|]. split; [by apply set_delayed_wf|]. by apply tracked_silent.
Qed.

(** The states in which the peer's stream is being received. *)
Definition synchronized (s : TcpState) : Prop :=
  match s with SynSent | SynReceived | Closed => False | _ => True end.

(** Advancing the receive point, and counting what was received. *)
Lemma set_recv_next_wf t k :
  tcb_wf t -> synchronized (state t) -> 0 <= k <= open_window t ->
  tcb_wf (set_recv_next (seq_add (recv_next t) k) t) /\
  open_window (set_recv_next (seq_add (recv_next t) k) t) = open_window t - k.
Proof.
  intros [] Hs Hk. set (t' := set_recv_next _ _).
  assert (D : open_window t' = open_window t - k) by (by apply distance_advance).
  split; [|done]. split; rewrite ?D; subst t'; tcb_goal; try done; try lia; try apply seq_add_range.
  unfold pending_ok in *. tcb_simpl. by destruct (state t).
Qed.

Lemma set_recv_buffered_wf t v :
  tcb_wf t -> (state t = SynSent -> v = 0) -> 0 <= v -> open_window t <= recv_capacity t - v ->
  tcb_wf (set_recv_buffered v t).
Proof.
  intros [] Hs Hv Hw. split; try done. unfold pending_ok in *. tcb_goal.
  destruct (state t); try done. split_and!; [..|by apply Hs]; tauto.
Qed.

Lemma uadd_buffered t k : tcb_wf t -> 0 <= k <= open_window t ->
  uadd (recv_buffered t) k = recv_buffered t + k.
Proof. intros [] Hk. unfold uadd, wrap64. apply Z.mod_small. width. Qed.

Lemma take_payload_ok t acts k :
  tcb_wf t -> synchronized (state t) -> 0 <= k <= open_window t -> tracked o t acts ->
  let t' := set_recv_next (seq_add (recv_next t) k) (set_recv_buffered (uadd (recv_buffered t) k) t) in
  tcb_wf t' /\ tracked o t' (acts ++ [DeliverPayload k]) /\ open_window t' = open_window t - k.
Proof.
  intros Hwf Hs Hk (T & B & N & G). cbv zeta. rewrite uadd_buffered by done.
  destruct (set_recv_next_wf t k Hwf Hs Hk) as [Hwf1 Hw1].
  split.
  { apply (set_recv_buffered_wf (set_recv_next (seq_add (recv_next t) k) t)); [done| |..];
      [tcb_goal; by destruct (state t)|..]; destruct Hwf; rewrite ?Hw1; tcb_goal; lia. }
  split; [|exact Hw1].
  unfold tracked, follow_all, delivered, fins in *. rewrite foldl_app, !total_app, !total_one.
  cbn -[total] in *. split; [done|]. rewrite N, seq_add_assoc. split; [lia|].
  split; [f_equal; lia|done].
Qed.

Lemma set_state_wf t s :
  tcb_wf t -> synchronized (state t) -> synchronized s -> flight_ok s (in_flight t) ->
  tcb_wf (set_state s t).
Proof.
  intros [] Hs Hs' Hf. split; try done; unfold pending_ok in *; tcb_goal.
  by destruct (state t), s.
Qed.

Lemma tracked_state t acts s : s <> Closed -> state t <> Closed ->
  tracked o t acts -> tracked o (set_state s t) acts.
Proof. intros Hs Ht ((R & D) & B & N & G). split_and!; try done. split; [|done]. intros _. by apply R. Qed.

Lemma on_peer_fin_ok t acts t' acts' :
  on_peer_fin t acts = (t', acts') -> tcb_wf t -> synchronized (state t) ->
  timers_ok t (follow_all (o_timers o) acts) -> recv_buffered t = o_buffered o + delivered acts ->
  recv_next t = seq_add (o_next o) (delivered acts + fins acts + 1) -> framed o t ->
  tcb_wf t' /\ tracked o t' acts' /\ synchronized (state t') /\ exists s, t' = set_state s t.
Proof.
  intros E Hwf Hs T B N G.
  assert (H : tracked o t (acts ++ [PeerHalfClosed])).
  { unfold tracked, follow_all, delivered, fins in *. rewrite foldl_app, !total_app, !total_one.
    cbn -[total]. rewrite Z.add_0_r. split; [done|]. split; [done|].
    split; [rewrite N; f_equal; lia|done]. }
  assert (Hf := wf_flight t Hwf). assert (Hnc : state t <> Closed) by (by destruct (state t)).
  assert (same : t = set_state (state t) t) by (by destruct t).
  unfold on_peer_fin, enter_time_wait in E. rewrite (in_flight_zero t Hwf) in E.
  assert (change : forall s, synchronized s -> flight_ok s (in_flight t) ->
    tcb_wf (set_state s t) /\ tracked o (set_state s t) (acts ++ [PeerHalfClosed]) /\
    synchronized s /\ exists s', set_state s t = set_state s' t).
  { intros s Hs' Hf'. split; [by apply set_state_wf|]. split; [|by eauto].
    apply tracked_state; [by destruct s|done..]. }
  destruct (state t) eqn:Hst; try done; simplify_eq;
    try (rewrite Hst; split_and!;
         [done|first [done|by apply tracked_silent]|done|eexists; exact same]).
  - by apply change.
  - destruct (Z.eqb_spec (in_flight t) 0); [cbn in Hf; lia|]. simplify_eq. by apply change.
  - destruct (change TimeWait) as (? & ? & ? & ?); [done..|]. by eauto using tracked_silent.
Qed.

Lemma take_fin_ok t acts t' acts' :
  take_fin t acts = (t', acts') -> tcb_wf t -> synchronized (state t) -> 0 < open_window t ->
  tracked o t acts ->
  tcb_wf t' /\ tracked o t' acts' /\ synchronized (state t').
Proof.
  unfold take_fin. intros E Hwf Hs Hw (T & B & N & G).
  destruct (set_recv_next_wf t 1 Hwf Hs ltac:(lia)) as [Hwf1 Hw1].
  destruct (on_peer_fin _ acts) as [t1 acts1] eqn:F.
  destruct (on_peer_fin_ok _ _ _ _ F Hwf1 Hs) as (W & H & S & s & ->); [done|done| |done|].
  { tcb_goal. by rewrite N, seq_add_assoc. }
  destruct (answer_with_ok Send _ _ _ _ (fun _ => eq_refl) E W H) as (-> & W' & H'). done.
Qed.

(** The end of [on_segment] cannot fail, because the trimmed segment fits the
    window and the window fits the credit. *)
Lemma take_in_order_ok t segment acts :
  tcb_wf t -> synchronized (state t) -> tracked o t acts ->
  0 <= payload_len segment <= open_window t ->
  (contains (flags segment) FIN = true -> payload_len segment < open_window t) ->
  exists t' acts', take_in_order t segment acts = (t', Ok acts') /\
    tcb_wf t' /\ tracked o t' acts' /\ synchronized (state t').
Proof.
  intros Hwf Hs H Hp Hfin. unfold take_in_order. rewrite receive_available_wf by done.
  case_bool; [destruct Hwf; lia|].
  set (pair := if 0 <? payload_len segment then _ else _).
  assert (P : exists t1 acts1, pair = (t1, acts1) /\ tcb_wf t1 /\ tracked o t1 acts1 /\
    synchronized (state t1) /\ open_window t1 = open_window t - payload_len segment).
  { subst pair. case_bool.
    - destruct (take_payload_ok t acts (payload_len segment)) as (W & T & O); [done..|].
      do 2 eexists. split; [reflexivity|]. done.
    - do 2 eexists. split; [reflexivity|]. split_and!; try done. lia. }
  destruct P as (t1 & acts1 & -> & W1 & T1 & S1 & O1). cbv zeta beta iota.
  destruct (contains (flags segment) FIN).
  { destruct (take_fin t1 acts1) as [t2 acts2] eqn:F.
    destruct (take_fin_ok _ _ _ _ F W1 S1) as (W2 & T2 & S2); [|done|by eauto 10].
    specialize (Hfin eq_refl). lia. }
  case_bool; [|by eauto 10]. destruct T1 as ((R & D) & B & N & G).
  destruct (delayed_ack_pending t1) eqn:Hd; do 2 eexists; (split; [reflexivity|]);
    (split; [by apply set_delayed_wf|]); (split; [|done]).
  all: unfold tracked, follow_all, delivered, fins in *; rewrite foldl_app, !total_app;
    unfold total at 2 4 6; cbn -[total] in *; rewrite !Z.add_0_r; done.
Qed.

(** ** Acknowledgments *)
Lemma advance_sender_ok a w w0 carried t acts t' acts' :
  advance_sender a w w0 carried t acts = (t', acts') ->
  tcb_wf t -> is_seq a -> tracked o t acts ->
  exists u c, t' = set_congestion c (set_send_unacked u t) /\
    tracked o t' acts' /\ is_seq u /\ newreno_wf c /\
    distance_from (send_next t) u <= in_flight t /\
    (a = send_next t -> u = send_next t) /\
    (u = send_unacked t \/ u = a).
Proof.
  intros E Hwf Ha H. pose proof (flight_small t Hwf) as Hsmall. pose proof Hwf as [].
  pose proof (distance_range a (send_unacked t)) as Ra.
  assert (same : t = set_congestion (congestion t) (set_send_unacked (send_unacked t) t))
    by (by destruct t).
  unfold advance_sender in E. destruct (after a (send_unacked t) && _) eqn:Hnew.
  - apply andb_true_iff in Hnew as [A1 A2]. apply negb_true_iff in A2.
    destruct (ack_between (send_unacked t) (send_next t) a) as [B1 B2]; try done; [unfold in_flight in *; lia|].
    pose proof (on_new_ack_wf (congestion t) (distance_from a (send_unacked t)) a) as Hc.
    tcb_simpl. destruct (on_new_ack _ _ _) as [c partial]. simplify_eq.
    exists a, c. split; [done|]. split_and!; try done; [|apply Hc; [done|unfold is_seq in *; width]|
      unfold in_flight; lia|by right].
    destruct H as ((R & D) & B & N & G).
    assert (G' : framed o (set_congestion c (set_send_unacked a t))).
    { destruct G as (G1 & G2 & G3). split_and!; try done. unfold in_flight in *. tcb_goal. lia. }
    unfold tracked, timers_ok, follow_all, delivered, fins in *. tcb_simpl.
    destruct partial, (Z.eqb_spec a (send_next t)); cbn [andb negb];
      rewrite ?foldl_app, ?total_app, ?total_one; cbn -[total] in *; rewrite ?Z.add_0_r; done.
  - assert (Hself : a = send_next t -> send_unacked t = send_next t).
    { intros ->. rewrite after_self_false, andb_true_r in Hnew.
      destruct (Z.eq_dec (in_flight t) 0) as [Z0|Z0].
      - symmetry. by apply distance_zero.
      - rewrite after_of_distance in Hnew; unfold in_flight in *; try done. lia. }
    destruct (_ && (w =? w0)) eqn:Hdup.
    + pose proof (on_duplicate_ack_wf (congestion t) (in_flight t) (send_next t)) as Hc.
      destruct (on_duplicate_ack _ _ _) as [c entered]. simplify_eq.
      exists (send_unacked t), c. split; [by destruct t|].
      split_and!; try done; [|apply Hc; [done|width]|by left].
      destruct entered; [apply tracked_silent; [done|]|]; exact H.
    + simplify_eq. exists (send_unacked t'), (congestion t'). split_and!; try done. by left.
Qed.

(** A new left edge of the send space, with the state it leads to. *)
Lemma sender_wf t u c s :
  tcb_wf t -> synchronized (state t) -> s = Closed \/ synchronized s ->
  is_seq u -> newreno_wf c -> flight_ok s (distance_from (send_next t) u) ->
  tcb_wf (set_state s (set_congestion c (set_send_unacked u t))).
Proof.
  intros [] Hs Hs' Hu Hc Hf. split; try done; unfold pending_ok in *; tcb_goal.
  destruct Hs' as [->|Hs']; destruct (state t); try done; by destruct s.
Qed.

(** Closed, or still receiving. *)
Definition live_or_closed (t : TcpTcb) : Prop := state t = Closed \/ synchronized (state t).

Lemma process_ack_ok segment w0 carried t acts t' acts' :
  process_ack segment w0 carried t acts = (t', acts') ->
  tcb_wf t -> synchronized (state t) -> segment_ok segment -> tracked o t acts ->
  tcb_wf t' /\ tracked o t' acts' /\ live_or_closed t' /\
  recv_next t' = recv_next t /\ open_window t' = open_window t.
Proof.
  intros E Hwf Hs [] H. unfold process_ack in E.
  destruct (acknowledgment segment) as [a|]; [|simplify_eq; unfold live_or_closed; by auto].
  destruct (advance_sender _ _ _ _ _ _) as [t1 acts1] eqn:A.
  destruct (advance_sender_ok _ _ _ _ _ _ _ _ A Hwf so_ack0 H)
    as (u & c & -> & T & Hu & Hc & Hd & Hnx & Hor).
  pose proof (wf_flight t Hwf) as Hf. pose proof (flight_small t Hwf).
  pose proof (distance_range (send_next t) u) as Ru.
  assert (step : forall s acts2, s = Closed \/ synchronized s ->
    flight_ok s (distance_from (send_next t) u) ->
    tracked o (set_state s (set_congestion c (set_send_unacked u t))) acts2 ->
    (set_state s (set_congestion c (set_send_unacked u t)), acts2) = (t', acts') ->
    tcb_wf t' /\ tracked o t' acts' /\ live_or_closed t' /\
    recv_next t' = recv_next t /\ open_window t' = open_window t).
  { intros s acts2 S F T2 ?. simplify_eq. split; [by apply sender_wf|]. split; [done|]. split; [exact S|done]. }
  assert (same : set_congestion c (set_send_unacked u t) =
                 set_state (state t) (set_congestion c (set_send_unacked u t))) by (by destruct t).
  assert (keep : flight_ok (state t) (distance_from (send_next t) u) ->
    (set_congestion c (set_send_unacked u t), acts1) = (t', acts') ->
    tcb_wf t' /\ tracked o t' acts' /\ live_or_closed t' /\
    recv_next t' = recv_next t /\ open_window t' = open_window t).
  { intros F E2. apply (step (state t) acts1); [by right|done|by rewrite <- same|by rewrite <- same]. }
  assert (Hzero : u <> send_next t -> 0 < distance_from (send_next t) u).
  { intros Hne. destruct (Z.eq_dec (distance_from (send_next t) u) 0) as [Z0|]; [|unfold is_seq in *; lia].
    destruct Hne. symmetry. by apply distance_zero; [apply wf_next| |]. }
  assert (Hcase : 0 < in_flight t -> a <> send_next t -> 0 < distance_from (send_next t) u).
  { intros P Ne. destruct Hor as [->| ->]; [exact P|by apply Hzero]. }
  assert (Hdone : a = send_next t -> distance_from (send_next t) u = 0).
  { intros Ha. rewrite (Hnx Ha). apply distance_self. }
  tcb_simpl. unfold is_seq, in_flight, enter_time_wait in *.
  destruct (state t) eqn:Hst; try done; cbn [flight_ok] in *; try (apply keep; [lia|done]);
    destruct (Z.eqb_spec a (send_next t)) as [Ha|Ha]; try (apply keep; [lia|done]).
  - apply (step FinWait2 acts1); [by right|cbn; auto|apply tracked_state; [done|tcb_goal; by rewrite Hst|done]|done].
  - apply (step TimeWait (acts1 ++ [ArmTimeWait])); [by right|cbn; auto| |done].
    apply tracked_silent; [done|]. apply tracked_state; [done|tcb_goal; by rewrite Hst|done].
  - apply (step Closed (acts1 ++ [ClosedAction])); [by left|cbn; unfold MAX_WINDOW; lia| |done].
    apply tracked_silent; [done|]. destruct T as ((R & D) & B & N & G). split_and!; done.
Qed.

Lemma update_send_window_ok segment t acts :
  tcb_wf t -> segment_ok segment -> tracked o t acts ->
  tcb_wf (update_send_window segment t) /\ tracked o (update_send_window segment t) acts /\
  state (update_send_window segment t) = state t /\
  recv_next (update_send_window segment t) = recv_next t /\
  open_window (update_send_window segment t) = open_window t.
Proof.
  intros Hwf [] H. unfold update_send_window. destruct (acknowledgment segment); [|done].
  repeat (case_bool; [done|]). case_bool; [|done]. destruct Hwf. split; [by split|done].
Qed.

Lemma defend_ok t acts :
  tcb_wf t -> tracked o t acts ->
  exists t' acts', defend t acts = (t', Ok acts') /\ tcb_wf t' /\ tracked o t' acts' /\
    state t' = state t.
Proof.
  intros Hwf H. unfold defend. destruct (answer_with DefensiveAck t acts) as [t1 acts1] eqn:A.
  destruct (answer_with_ok DefensiveAck _ _ _ _ (fun _ => eq_refl) A Hwf H) as (-> & W & T).
  do 2 eexists. done.
Qed.

Lemma take_segment_ok t segment beyond carried acts :
  tcb_wf t -> synchronized (state t) -> segment_ok segment -> tracked o t acts ->
  (sequence segment = recv_next t -> payload_len segment <= open_window t /\
     (contains (flags segment) FIN = true -> payload_len segment < open_window t)) ->
  exists t' acts', take_segment t segment beyond carried acts = (t', Ok acts') /\
    tcb_wf t' /\ tracked o t' acts' /\ live_or_closed t'.
Proof.
  intros Hwf Hs Hseg H Hfit. unfold take_segment.
  destruct (update_send_window_ok segment t acts Hwf Hseg H) as (W1 & T1 & S1 & N1 & O1).
  set (t1 := update_send_window segment t) in *.
  set (seg := mkSegment _ _ _ _ _).
  assert (Hseg1 : segment_ok seg).
  { destruct Hseg. split; try done. cbn. destruct (wf_peer _ W1). unfold MAX_WINDOW in *. width. }
  destruct (process_ack seg _ carried t1 acts) as [t2 acts2] eqn:P.
  destruct (process_ack_ok _ _ _ _ _ _ _ P W1 ltac:(by rewrite S1) Hseg1 T1) as (W2 & T2 & L2 & N2 & O2).
  unfold state_is. case_bool_decide as C; [by eauto 10|].
  assert (S2 : synchronized (state t2)) by (by destruct L2).
  assert (D : exists t' acts', defend t2 acts2 = (t', Ok acts') /\ tcb_wf t' /\
                tracked o t' acts' /\ live_or_closed t').
  { destruct (defend_ok t2 acts2 W2 T2) as (t' & acts' & ? & ? & ? & ES).
    exists t', acts'. unfold live_or_closed. rewrite ES. by auto. }
  destruct beyond; [done|]. destruct (peer_receive_closed t2 && carries seg); [done|].
  destruct (carries seg); [|unfold live_or_closed; by eauto 10].
  destruct (Z.eqb_spec (sequence seg) (recv_next t2)) as [E|E]; cbn [negb]; [|done].
  destruct Hfit as [F1 F2]; [cbn in E; congruence|].
  destruct (take_in_order_ok t2 seg acts2 W2 S2 T2) as (t3 & acts3 & ? & ? & ? & ?);
    [destruct Hseg; cbn; lia|cbn; rewrite O2, O1; done|].
  do 2 eexists. unfold live_or_closed. by eauto.
Qed.

Lemma trim_fits t segment :
  segment_ok segment ->
  let s := trim_in_order_segment_to_receive_window t segment in
  segment_ok s /\
  (sequence s = recv_next t -> payload_len s <= open_window t /\
     (contains (flags s) FIN = true -> payload_len s < open_window t)).
Proof.
  intros []. cbv zeta. unfold trim_in_order_segment_to_receive_window.
  pose proof (open_window_nonneg t) as Hw. fold (open_window t).
  destruct (Z.eqb_spec (sequence segment) (recv_next t)) as [E|E]; cbn [negb].
  2: { split; [by split|]. by intros. }
  split; [by split; cbn; try done; lia|]. intros _. cbn [payload_len flags]. split; [lia|].
  destruct (contains (flags segment) FIN) eqn:F; cbn [andb]; [|congruence].
  case_bool; [|by rewrite F; lia]. intros C. exfalso. revert C. unfold contains, from_bits.
  rewrite <- !Z.land_assoc. change (Z.land (Z.lxor FIN 255) (Z.land 0x1f FIN)) with 0.
  rewrite Z.land_0_r. done.
Qed.

(** ** Handshake *)
Lemma fin_same t : pending_initial_fin t = false -> set_pending_initial_fin false t = t.
Proof. destruct t. by intros [= ->]. Qed.
Lemma pending_same t : pending_initial_payload_len t = 0 -> set_pending_initial_payload_len 0 t = t.
Proof. destruct t. by intros [= ->]. Qed.

(** The block as it enters ESTABLISHED, the SYN's payload and FIN still to be
    taken. *)
Definition opened (t : TcpTcb) : TcpTcb :=
  set_pending_initial_fin false (set_pending_initial_payload_len 0
    (set_state Established (set_send_unacked (send_next t) t))).

Lemma opened_wf t : tcb_wf t -> tcb_wf (opened t).
Proof.
  intros []. split; try done; tcb_goal.
  - unfold in_flight. tcb_goal. rewrite distance_self. done.
Qed.

Lemma opened_tracked t acts a : silent a = true -> tracked o t acts ->
  tracked o (opened t) (acts ++ [a; DisarmRetransmission]).
Proof.
  intros Ha ((R & D) & B & N & G). change [a; DisarmRetransmission] with ([a] ++ [DisarmRetransmission]).
  assert (G' : framed o (opened t)).
  { destruct G as (G1 & G2 & G3). split_and!; try done. unfold in_flight in *.
    pose proof (distance_range (send_next t) (send_unacked t)) as P. unfold is_seq in P.
    change (distance_from (send_next t) (send_next t) <= o_flight o). rewrite distance_self. lia. }
  unfold tracked, timers_ok, follow_all, delivered, fins in *.
  rewrite !foldl_app, !total_app, !total_one.
  destruct a; try done; cbn -[total] in *; rewrite !Z.add_0_r, Z.eqb_refl; done.
Qed.

Lemma finish_handshake_ok t acts t' acts' :
  finish_handshake t acts = (t', acts') -> tcb_wf t -> state t = SynReceived ->
  tracked o t acts ->
  tcb_wf t' /\ tracked o t' acts' /\ synchronized (state t').
Proof.
  intros E Hwf Hst H. pose proof (wf_pending t Hwf) as Hp. unfold pending_ok in Hp. rewrite Hst in Hp.
  pose proof (wf_pending_len t Hwf) as Hp0. pose proof (opened_wf t Hwf) as W1.
  unfold finish_handshake in E. tcb_simpl.
  set (a := if active_open t then Connected else Accepted) in *.
  assert (T1 : tracked o (opened t) (acts ++ [a; DisarmRetransmission]))
    by (apply opened_tracked; [by unfold a; destruct (active_open t)|done]).
  set (acts1 := acts ++ [a; DisarmRetransmission]) in *.
  set (p := pending_initial_payload_len t) in *. set (t1 := set_state _ _) in *.
  change (open_window t) with (open_window (opened t)) in Hp.
  destruct (Z.ltb_spec 0 p).
  - destruct (take_payload_ok (opened t) acts1 p W1 I) as (W2 & T2 & O2);
      [unfold b2z in Hp; destruct (pending_initial_fin t); lia|done|].
    set (t2 := set_recv_next _ (set_recv_buffered _ (set_pending_initial_payload_len 0 t1))) in *.
    change (set_recv_next _ (set_recv_buffered _ (opened t)))
      with (set_pending_initial_fin false t2) in *.
    change (pending_initial_fin t2) with (pending_initial_fin t) in *.
    destruct (pending_initial_fin t) eqn:F; cbn [negb] in E.
    + change (pending_initial_fin t2) with (pending_initial_fin t) in E. rewrite F in E.
      apply (take_fin_ok _ _ _ _ E W2 I); [unfold b2z in Hp; lia|done].
    + rewrite fin_same in W2, T2 by done.
      change (pending_initial_fin (set_delayed_ack_pending true t2)) with (pending_initial_fin t) in E.
      rewrite F in E. simplify_eq. split; [by apply set_delayed_wf|]. split; [|done].
      by apply tracked_arm_delayed.
  - change (pending_initial_fin t1) with (pending_initial_fin t) in *.
    assert (P : set_pending_initial_payload_len 0 t1 = t1) by (apply pending_same; change (p = 0); lia).
    unfold opened in W1, T1, Hp. fold t1 in W1, T1, Hp. rewrite P in W1, T1, Hp.
    destruct (pending_initial_fin t) eqn:F.
    + apply (take_fin_ok _ _ _ _ E W1 I); [unfold b2z in Hp; lia|done].
    + rewrite fin_same in W1, T1 by done. simplify_eq. done.
Qed.
End Pieces.
