(* ===== verification/TcpHandlers.v ===== *)
(** The handlers of [sail-netstack/src/tcp/state.rs] as one step function, and
    what a step keeps. *)
From S2P Require Import Prelude TcpSeq Congestion TcpTcb TcpInvariant.

(** ** Steps *)
Inductive TcbEvent :=
| OnSegment (segment : TcpSegmentMeta)
| OnApp (event : AppEvent)
| OnTimer (event : TimerEvent)
| OnSackLoss
| OnQueuedPayload (amount : Z)
| OnQueuedFin
| OnForceAck
| OnReject
| OnGrow (additional : Z)
| OnWithdraw
| OnRttSample (sample_ms : Z).

Definition plain (p : TcpTcb * list TcpAction) : TcpTcb * outcome TcpError (list TcpAction) :=
  (fst p, Ok (snd p)).

Definition tcb_step (t : TcpTcb) (e : TcbEvent) : TcpTcb * outcome TcpError (list TcpAction) :=
  match e with
  | OnSegment segment => on_segment t segment
  | OnApp event => on_app_event t event
  | OnTimer event => on_timer t event
  | OnSackLoss => plain (on_sack_loss t)
  | OnQueuedPayload amount =>
    let '(t, r) := accept_queued_payload amount t in (t, (fun a => [a]) <$> r)
  | OnQueuedFin => plain (accept_queued_fin t)
  | OnForceAck => plain (force_ack t)
  | OnReject => plain (reject_unacceptable_segment t)
  | OnGrow additional => (grow_receive_capacity additional t, Ok [])
  | OnWithdraw => (withdraw_receive_window_scale t, Ok [])
  | OnRttSample sample_ms => (record_rtt_sample sample_ms t, Ok [])
  end.

(** What the flow table guarantees when it calls: wire-layer segments, queued
    data inside the announced window, reserved capacity that is addressable. *)
Definition event_ok (t : TcpTcb) (e : TcbEvent) : Prop :=
  match e with
  | OnSegment segment => segment_ok segment
  | OnApp (Consumed n) | OnApp (AppSend n) => 0 <= n
  | OnQueuedPayload n => 0 <= n <= open_window t /\ synchronized (state t)
  | OnQueuedFin => 0 < open_window t /\ synchronized (state t)
  | OnGrow n => 0 <= n /\ recv_capacity t + n <= u64_max
  | OnRttSample n => is_u64 n
  | _ => True
  end.

(** A timer that fires is no longer armed. *)
Definition fired (e : TcbEvent) (tm : timers) : timers :=
  match e with
  | OnTimer Retransmission => mkTimers false (delayed_ack_armed tm)
  | OnTimer DelayedAck => mkTimers (retransmission_armed tm) false
  | _ => tm
  end.

(** The bytes the application takes. *)
Definition taken (e : TcbEvent) : Z := match e with OnApp (Consumed n) => n | _ => 0 end.

(** What a step that succeeds leaves behind. *)
Record step_post (tm : timers) (t : TcpTcb) (e : TcbEvent) (t' : TcpTcb) (acts : list TcpAction)
    : Prop := {
  sp_wf : tcb_wf t';
  sp_timers : timers_ok t' (follow_all (fired e tm) acts);
  sp_buffered : recv_buffered t' + taken e = recv_buffered t + delivered acts;
  sp_next : state t <> SynSent -> recv_next t' = seq_add (recv_next t) (delivered acts + fins acts);
  sp_edge : state t <> SynSent ->
    open_window t <= distance_from (advertised_right_edge t') (recv_next t) <= MAX_WINDOW
}.

(** A handler that only ran pieces tracked from its start. *)
Lemma tracked_post tm t e t' acts :
  tcb_wf t -> fired e tm = tm -> taken e = 0 ->
  tcb_wf t' -> tracked (origin_of tm t) t' acts -> step_post tm t e t' acts.
Proof.
  intros [] Hf Ht Hwf (T & B & N & G1 & G2 & G3). cbn in *. split; rewrite ?Hf, ?Ht; try done; try lia.
  intros _. rewrite G1. unfold open_window in *. lia.
Qed.

Lemma close_wf t : tcb_wf t -> tcb_wf (set_state Closed t).
Proof.
  intros []. split; try done. unfold in_flight in *. tcb_goal. cbn.
  destruct (state t); cbn in *; unfold MAX_WINDOW in *; lia.
Qed.

Lemma tracked_close o t acts : tracked o t acts -> tracked o (set_state Closed t) acts.
Proof. intros ((R & D) & B & N & G). split_and!; done. Qed.

(** ** Segments *)
Lemma on_synchronized_segment_ok o t segment acts :
  tcb_wf t -> synchronized (state t) -> segment_ok segment -> tracked o t acts ->
  (acts = [] \/ contains (flags segment) SYN = false /\ contains (flags segment) ACK = true) ->
  exists t' acts', on_synchronized_segment t segment acts = (t', Ok acts') /\
    tcb_wf t' /\ tracked o t' acts'.
Proof.
  intros Hwf Hs Hseg H Hacts. unfold on_synchronized_segment.
  destruct (segment_acceptable t segment); cbn [negb].
  2: { destruct (defend_ok o t acts Hwf H) as (t' & acts' & ? & ? & ? & ?). by eauto. }
  destruct (contains (flags segment) SYN).
  { destruct Hacts as [->|[??]]; [|done]. do 2 eexists. split; [done|]. split; [done|].
    by apply (tracked_silent o t []). }
  destruct (contains (flags segment) ACK); cbn [negb].
  2: { destruct Hacts as [->|[??]]; [|done]. by eauto. }
  destruct (match acknowledgment segment with Some a => _ | None => _ end).
  { do 2 eexists. split; [done|]. split; [done|]. by apply tracked_silent. }
  destruct (trim_fits t segment Hseg) as [Hseg1 Hfit].
  destruct (take_segment_ok o t _ (beyond_receive_window t segment) (0 <? payload_len segment)
              acts Hwf Hs Hseg1 H Hfit) as (t' & acts' & ? & ? & ? & ?). by eauto.
Qed.

(** A handshake in progress: SYN-ACK again, RST, or ESTABLISHED. *)
Lemma complete_passive_handshake_ok o t segment :
  tcb_wf t -> state t <> Closed -> state t <> SynSent -> tracked o t [] ->
  exists t' acts' go, complete_passive_handshake t segment [] = Ok (t', acts', go) /\
    tcb_wf t' /\ tracked o t' acts' /\
    (go = true -> synchronized (state t') /\
       (acts' = [] \/ contains (flags segment) SYN = false /\ contains (flags segment) ACK = true)).
Proof.
  intros Hwf Hc Hss H. unfold complete_passive_handshake, state_is.
  case_bool_decide as Hst; cbn [negb].
  2: { do 3 eexists. split; [reflexivity|]. split_and!; [done..|]. intros _. split; [|by left].
       by destruct (state t). }
  destruct (accepts_final_ack t segment) eqn:Hacc; cbn [negb].
  - destruct (finish_handshake t []) as [t' acts'] eqn:F.
    destruct (finish_handshake_ok o _ _ _ _ F Hwf Hst H) as (W & T & S).
    do 3 eexists. split; [reflexivity|]. split_and!; try done. intros _. split; [done|].
    right. unfold accepts_final_ack in Hacc.
    destruct (contains (flags segment) SYN), (contains (flags segment) ACK); try done;
      rewrite ?andb_false_r in Hacc; done.
  - case_bool.
    + destruct (acknowledgment segment); [|by rewrite andb_false_r in Hif].
      do 3 eexists. split; [reflexivity|]. by split_and!.
    + do 3 eexists. split; [reflexivity|]. split_and!; try done.
      destruct H as ((R & D) & B & N & G). split_and!; try done. split; [|done]. intros _.
      pose proof (wf_flight t Hwf) as Hf. rewrite Hst in Hf. cbn in Hf.
      rewrite in_flight_zero, Hf by done. done.
Qed.

Lemma simultaneous_open_ok t segment : tcb_wf t -> segment_ok segment ->
  segment_ok (simultaneous_open_completion t segment).
Proof.
  intros [] []. unfold simultaneous_open_completion. case_bool; [|by split].
  split; cbn; try done; width.
Qed.

Lemma on_open_segment_ok tm t segment :
  tcb_wf t -> timers_ok t tm -> segment_ok segment -> state t <> Closed -> state t <> SynSent ->
  exists t' acts, on_segment t segment = (t', Ok acts) /\ tcb_wf t' /\
    tracked (origin_of tm t) t' acts.
Proof.
  intros Hwf Htm Hseg Hc Hss. pose proof (tracked_start tm t Hwf Htm) as H.
  unfold on_segment, state_is. rewrite !bool_decide_eq_false_2 by done.
  set (seg := if active_open t && _ then _ else _).
  assert (Hseg1 : segment_ok seg).
  { unfold seg. destruct (active_open t && _); [by apply simultaneous_open_ok|done]. }
  destruct (contains (flags seg) RST).
  { case_bool; [|case_bool]; do 2 eexists; (split; [done|]); try done.
    split; [by apply close_wf|]. by apply (tracked_silent _ _ []), tracked_close. }
  destruct (complete_passive_handshake_ok (origin_of tm t) t seg Hwf Hc Hss H)
    as (t1 & acts1 & go & -> & W1 & T1 & G).
  destruct go; [|by eauto]. destruct (G eq_refl) as [S1 A1].
  by apply on_synchronized_segment_ok.
Qed.

(** ** Opening *)

(** The peer's SYN fixes the receive space: an empty buffer, the whole
    advertisable credit. *)
Lemma take_peer_syn_ok tm t segment a t' acts :
  take_peer_syn segment a t = (t', acts) ->
  tcb_wf t -> timers_ok t tm -> segment_ok segment -> state t = SynSent ->
  (forall x, a = Some x -> x = send_next t) ->
  tcb_wf t' /\ timers_ok t' (follow_all tm acts) /\ recv_buffered t' = recv_buffered t /\
  delivered acts = 0.
Proof.
  intros E Hwf [R D] [] Hst Ha. pose proof (in_flight_zero t Hwf) as Hz.
  pose proof (wf_pending t Hwf) as P. pose proof (wf_flight t Hwf) as F. destruct Hwf.
  unfold pending_ok in P. rewrite Hst in P, F. destruct P as (P1 & P2 & P3).
  destruct (advertisable_range (recv_capacity t) (receive_window_scale t)) as [A1 A2];
    [pose proof (open_window_nonneg t); lia|lia|].
  cbn in F. unfold take_peer_syn in E. tcb_simpl. set (adv := advertisable_receive_capacity _ _) in *.
  assert (O : distance_from (seq_add (seq_add (sequence segment) 1) adv)
                (seq_add (sequence segment) 1) = adv).
  { apply distance_add; [apply seq_add_range|]. unfold MAX_WINDOW in A2. lia. }
  destruct a as [x|]; simplify_eq.
  - rewrite (Ha x eq_refl) in *.
    split; [|split; [split; [|done]; intros _; tcb_goal; by rewrite Z.eqb_refl|done]].
    split; unfold pending_ok, open_window, in_flight; tcb_goal; rewrite ?O, ?distance_self;
      try done; try apply seq_add_range; lia.
  - split; [|split; [split; [|done]; intros _; tcb_goal; by rewrite Hz, F|done]].
    split; unfold pending_ok, open_window, in_flight; tcb_goal; rewrite ?O, ?P1, ?P2;
      try done; try apply seq_add_range; unfold b2z; lia.
Qed.

Lemma on_syn_sent_ok tm t segment t' acts :
  on_syn_sent_segment t segment = (t', acts) ->
  tcb_wf t -> timers_ok t tm -> segment_ok segment -> state t = SynSent ->
  tcb_wf t' /\ timers_ok t' (follow_all tm acts) /\ recv_buffered t' = recv_buffered t /\
  delivered acts = 0.
Proof.
  intros E Hwf Htm Hseg Hst. pose proof Htm as [R D].
  assert (closed : tcb_wf (set_state Closed t) /\
    timers_ok (set_state Closed t) (follow_all tm [DisarmRetransmission; ClosedAction]))
    by (split; [by apply close_wf|done]).
  assert (quiet : forall acts0, (t, acts0) = (t', acts) -> delivered acts0 = 0 ->
    follow_all tm acts0 = tm ->
    tcb_wf t' /\ timers_ok t' (follow_all tm acts) /\ recv_buffered t' = recv_buffered t /\
    delivered acts = 0) by (intros acts0 ? ? Hf; simplify_eq; by rewrite Hf).
  unfold on_syn_sent_segment in E.
  destruct (contains (flags segment) ACK); [destruct (acknowledgment segment) as [a|]|].
  - destruct (Z.eqb_spec a (send_next t)); [|destruct (contains (flags segment) RST); (eapply quiet; [exact E|done|done])].
    destruct (contains (flags segment) RST); [by simplify_eq; destruct closed|].
    destruct (contains (flags segment) SYN); cbn [negb] in E; [|eapply quiet; [exact E|done|done]].
    eapply take_peer_syn_ok; [done..|]. intros x. congruence.
  - eapply quiet; [exact E|done|done].
  - destruct (contains (flags segment) RST); [eapply quiet; [exact E|done|done]|].
    destruct (contains (flags segment) SYN); cbn [negb] in E; [|eapply quiet; [exact E|done|done]].
    by eapply take_peer_syn_ok.
Qed.

(** ** Application events *)
Lemma distance_extend nxt una k :
  0 <= k -> distance_from nxt una + k < 4294967296 ->
  distance_from (seq_add nxt k) una = distance_from nxt una + k.
Proof.
  intros Hk Hs. pose proof (distance_range nxt una) as R. unfold is_seq in R.
  rewrite seq_add_plain by lia. unfold distance_from, wrap32 in *. rewrite Zminus_mod_idemp_l.
  replace (nxt + k - una) with ((nxt - una) + k) by lia.
  rewrite <- Zplus_mod_idemp_l. apply Z.mod_small. lia.
Qed.

(** Taking [k] sequence numbers of the send space, for data or a FIN. *)
Lemma set_send_next_wf t k s :
  tcb_wf t -> synchronized (state t) -> synchronized s -> 0 <= k ->
  in_flight t + k <= MAX_WINDOW + 1 -> flight_ok s (in_flight t + k) ->
  let t' := set_send_next (seq_add (send_next t) k) (set_state s t) in
  tcb_wf t' /\ in_flight t' = in_flight t + k.
Proof.
  intros [] Hs Hs' Hk Hb Hf. cbv zeta.
  assert (E : in_flight (set_send_next (seq_add (send_next t) k) (set_state s t)) = in_flight t + k)
    by (unfold in_flight, MAX_WINDOW in *; tcb_goal; apply distance_extend; lia).
  split; [|done]. split; rewrite ?E; tcb_goal; try done; try apply seq_add_range.
  unfold pending_ok in *. tcb_goal. by destruct (state t), s.
Qed.

Lemma step_same tm t e : tcb_wf t -> timers_ok t tm -> fired e tm = tm -> taken e = 0 ->
  step_post tm t e t [].
Proof. intros Hwf Htm Hf Ht. by apply tracked_post, tracked_start. Qed.

Lemma consumed_ok tm t amount :
  tcb_wf t -> timers_ok t tm -> 0 <= amount ->
  match on_consumed t amount with
  | (t', Ok acts) => step_post tm t (OnApp (Consumed amount)) t' acts
  | (t', Err _) => t' = t
  | _ => False
  end.
Proof.
  intros Hwf Htm Ha. unfold on_consumed. case_bool; [done|].
  assert (U : usub (recv_buffered t) amount = recv_buffered t - amount).
  { destruct Hwf. pose proof (open_window_nonneg t). unfold usub, wrap64.
    apply Z.mod_small. width. }
  rewrite U. set (t1 := set_recv_buffered (recv_buffered t - amount) t).
  assert (W1 : tcb_wf t1).
  { apply set_recv_buffered_wf; try done; [|lia|destruct Hwf; lia].
    intros Hs. pose proof (wf_pending t Hwf) as P. unfold pending_ok in P. rewrite Hs in P. lia. }
  assert (T1 : timers_ok t1 tm) by exact Htm.
  pose proof (open_window_nonneg t) as Hw0.
  rewrite (receive_available_wf t1 W1).
  destruct (advertisable_range (recv_capacity t1 - recv_buffered t1) (receive_window_scale t1)) as [A1 A2];
    [pose proof (open_window_nonneg t1); destruct W1; lia|destruct W1; lia|].
  set (adv := advertisable_receive_capacity _ _) in *.
  assert (Ha0 : seq_add (recv_next t) 0 = recv_next t) by (apply seq_add_0; by destruct Hwf).
  assert (C : distance_from (seq_add (recv_next t) adv) (recv_next t) = adv)
    by (apply distance_add; destruct Hwf; [done|unfold MAX_WINDOW in *; lia]).
  case_bool.
  2: { split; try done; [cbn; lia|]. intros _. change (open_window t <= open_window t <= MAX_WINDOW). destruct Hwf. lia. }
  apply andb_true_iff in Hif as [Haft _].
  change (recv_next t1) with (recv_next t) in *.
  change (advertised_right_edge t1) with (advertised_right_edge t) in *.
  rewrite (after_offsets (recv_next t)) in Haft;
    [|by destruct Hwf|apply seq_add_range|by destruct Hwf|unfold MAX_WINDOW in *; lia|
      destruct Hwf; unfold open_window, MAX_WINDOW in *; lia].
  fold (open_window t) in Haft. apply Z.ltb_lt in Haft. rewrite C in Haft.
  set (t2 := set_advertised_right_edge _ t1).
  assert (W2 : tcb_wf t2).
  { assert (O2 : open_window t2 = adv) by exact C. pose proof (wf_pending t1 W1) as P. destruct W1.
    split; rewrite ?O2; try done; try (change (recv_capacity t2) with (recv_capacity t1);
      change (recv_buffered t2) with (recv_buffered t1); lia); [apply seq_add_range|].
    unfold pending_ok in *. rewrite O2. change (state t2) with (state t1) in *.
    destruct (state t1); try done. change (open_window t1) with (open_window t) in P.
    change (pending_initial_payload_len t2) with (pending_initial_payload_len t1).
    change (pending_initial_fin t2) with (pending_initial_fin t1). lia. }
  destruct (answer_with Send t2 []) as [t3 acts3] eqn:A.
  destruct (answer_with_ok (origin_of tm t2) Send _ _ _ _ (fun _ => eq_refl) A W2
              (tracked_start tm t2 W2 T1)) as (-> & W3 & (T3 & B3 & N3 & G3)).
  split; try done.
  - cbn in *. lia.
  - intros _. change (advertised_right_edge _) with (seq_add (recv_next t) adv). rewrite C. lia.
Qed.

(** What may be sent fits what the peer announced beside what is in flight. *)
Lemma send_available_bound t amount :
  0 < amount -> amount <= send_available t -> in_flight t + amount <= peer_window t.
Proof. unfold send_available, sat_sub. lia. Qed.

Lemma send_ok tm t amount :
  tcb_wf t -> timers_ok t tm -> 0 <= amount ->
  match on_send t amount with
  | (t', Ok acts) => step_post tm t (OnApp (AppSend amount)) t' acts
  | (t', Err _) => t' = t
  | _ => False
  end.
Proof.
  intros Hwf Htm Ha. unfold on_send. destruct (negb _) eqn:Hst; [done|].
  case_bool; [done|]. case_bool; [by apply step_same|].
  assert (Hs : flight_ok (state t) (in_flight t + amount) /\ synchronized (state t) /\
               in_flight t + amount <= MAX_WINDOW).
  { pose proof (send_available_bound t amount ltac:(lia) ltac:(lia)).
    assert (in_flight t + amount <= MAX_WINDOW) by (destruct Hwf; lia). unfold state_is in Hst. repeat case_bool_decide; try done;
      match goal with E : state t = _ |- _ => rewrite E end; done. }
  destruct Hs as (F & S & M).
  destruct (set_send_next_wf t amount (state t) Hwf S S Ha ltac:(lia) F) as [W1 I1].
  assert (same : set_state (state t) t = t) by (by destruct t). rewrite same in W1, I1.
  set (t1 := set_send_next _ t) in *.
  assert (Hne : (send_unacked t1 =? send_next t1) = false).
  { rewrite (in_flight_zero t1 W1), I1. pose proof (flight_small t Hwf). apply Z.eqb_neq. lia. }
  assert (T1 : tracked (origin_of (mkTimers true (delayed_ack_armed tm)) t1) t1 []).
  { apply tracked_start; [done|]. destruct Htm as [_ D]. split; [|exact D]. intros _.
    by rewrite Hne. }
  destruct (cancel_delayed_ack t1 []) as [t2 acts2] eqn:C.
  destruct (cancel_delayed_ack_ok _ _ _ _ _ C T1) as [-> T2].
  assert (P : forall acts3, tracked (origin_of (mkTimers true (delayed_ack_armed tm)) t1)
                              (set_delayed_ack_pending false t1) acts3 ->
    follow_all tm acts3 = follow_all (mkTimers true (delayed_ack_armed tm)) acts3 ->
    step_post tm t (OnApp (AppSend amount)) (set_delayed_ack_pending false t1) acts3).
  { intros acts3 (T3 & B3 & N3 & _) Hfa. split; cbn [fired].
    - by apply set_delayed_wf.
    - by rewrite Hfa.
    - cbn in *. lia.
    - intros _. exact N3.
    - intros _. change (open_window t <= open_window t <= MAX_WINDOW). destruct Hwf. lia. }
  destruct Htm as [R D]. unfold state_is in Hst.
  assert (Hnc : state t <> Closed) by (intros E; by rewrite E in S).
  destruct (Z.eqb_spec (send_unacked t) (send_next t)).
  - apply P.
    + apply tracked_arm, tracked_silent; [exact Hne|done..].
    + unfold follow_all. rewrite !foldl_app. cbn. f_equal.
      unfold cancel_delayed_ack in C. destruct (delayed_ack_pending t1); simplify_eq; done.
  - apply P; [by apply tracked_silent|].
    assert (tm = mkTimers true (delayed_ack_armed tm)) as <-; [|done].
    destruct tm as [r d]. cbn in *. rewrite (R Hnc). by destruct (Z.eqb_spec (send_unacked t) (send_next t)).
Qed.

Lemma close_ok tm t :
  tcb_wf t -> timers_ok t tm -> state t <> Closed -> state t <> SynSent ->
  match on_app_event t Close with
  | (t', Ok acts) => step_post tm t (OnApp Close) t' acts
  | _ => False
  end.
Proof.
  intros Hwf Htm Hc Hss. unfold on_app_event, state_is. rewrite !bool_decide_eq_false_2 by done.
  pose proof (tracked_start tm t Hwf Htm) as H.
  destruct (cancel_delayed_ack t []) as [t1 acts1] eqn:C.
  destruct (cancel_delayed_ack_ok _ _ _ _ _ C H) as [-> T1]. clear C.
  assert (W1 : tcb_wf (set_delayed_ack_pending false t)) by (by apply set_delayed_wf).
  set (t1 := set_delayed_ack_pending false t) in *.
  assert (stay : step_post tm t (OnApp Close) t1 (acts1 ++ [])).
  { rewrite app_nil_r. by apply tracked_post. }
  assert (finish : forall s, synchronized (state t) -> synchronized s ->
    in_flight t + 1 <= MAX_WINDOW + 1 -> flight_ok s (in_flight t + 1) ->
    let t2 := set_send_next (seq_add (send_next t) 1) (set_state s t1) in
    step_post tm t (OnApp Close) t2
      (acts1 ++ [Send (control t2 (union_flags FIN ACK) (send_next t)); ArmRetransmission (rto_ms (rto t))])).
  { intros s S S' M F. cbv zeta.
    destruct (set_send_next_wf t1 1 s W1 S S' ltac:(lia) M F) as [W2 I2].
    set (t2 := set_send_next _ _) in *. destruct T1 as ((R & D) & B & N & G).
    change [Send ?c; ArmRetransmission ?ms] with ([Send c] ++ [ArmRetransmission ms]).
    split; cbn [fired taken].
    - done.
    - unfold timers_ok, follow_all. rewrite !foldl_app. cbn [foldl follow]. split; [|exact D].
      intros _. rewrite (in_flight_zero t2 W2), I2. pose proof (flight_small t1 W1).
      destruct (Z.eqb_spec (in_flight t1 + 1) 0); [lia|done].
    - rewrite Z.add_0_r. unfold delivered in *. rewrite !total_app, !total_one, !Z.add_0_r. exact B.
    - intros _. unfold delivered, fins in *. rewrite !total_app, !total_one, !Z.add_0_r. exact N.
    - intros _. change (open_window t <= open_window t <= MAX_WINDOW). destruct Hwf. lia. }
  pose proof (wf_flight t Hwf) as F. pose proof (flight_small t Hwf) as Fs.
  unfold start_close. change (state t1) with (state t).
  destruct (state t) eqn:Hst; try exact stay; cbn in F; apply finish; cbn; try done; lia.
Qed.

Lemma app_event_ok tm t event :
  tcb_wf t -> timers_ok t tm -> event_ok t (OnApp event) ->
  match on_app_event t event with
  | (t', Ok acts) => step_post tm t (OnApp event) t' acts
  | (t', Err _) => t' = t
  | _ => False
  end.
Proof.
  intros Hwf Htm He. unfold on_app_event, state_is.
  case_bool_decide as Hc; [done|]. pose proof (tracked_start tm t Hwf Htm) as H.
  assert (W : tcb_wf (set_state Closed t)) by (by apply close_wf).
  assert (shut : state t = SynSent -> forall e, fired e tm = tm -> taken e = 0 ->
    step_post tm t e (set_state Closed t) [DisarmRetransmission; ClosedAction]).
  { intros Hs e Hf Ht. split; rewrite ?Hf, ?Ht; try done; try (intros; congruence).
    split; [done|]. apply Htm. }
  destruct event as [n|n| |]; cbn in He.
  - by apply consumed_ok.
  - by apply send_ok.
  - case_bool_decide as Hss; [by apply shut|].
    pose proof (close_ok tm t Hwf Htm Hc Hss) as P. unfold on_app_event, state_is in P.
    rewrite !bool_decide_eq_false_2 in P by done.
    destruct (cancel_delayed_ack t []) as [t1 acts1]. by destruct (start_close t1).
  - case_bool_decide as Hss; [by apply shut|].
    destruct (cancel_delayed_ack (set_state Closed t) []) as [t1 acts1] eqn:C.
    destruct (cancel_delayed_ack_ok _ _ _ _ _ C (tracked_close _ _ _ H)) as [-> T1].
    apply tracked_post; try done; [by apply set_delayed_wf|].
    change [Send ?c; ClosedAction] with ([Send c] ++ [ClosedAction]). rewrite app_assoc.
    by do 2 (apply tracked_silent; [done|]).
Qed.

(** ** Timers *)
Lemma retransmission_action_some t :
  tcb_wf t -> state t <> Closed -> (send_unacked t =? send_next t) = false ->
  exists a, retransmission_action t = Some a /\ silent a = true.
Proof.
  intros Hwf Hc Hne. rewrite in_flight_zero in Hne by done. apply Z.eqb_neq in Hne.
  pose proof (wf_flight t Hwf) as F. unfold retransmission_action.
  destruct (state t); cbn in F; try done; try lia; try (by eexists); by destruct (has_outstanding_payload t); eexists.
Qed.

Lemma timeout_wf t :
  tcb_wf t ->
  tcb_wf (set_rto (backoff (rto t)) (set_congestion (on_timeout (congestion t) (in_flight t)) t)).
Proof.
  intros Hwf. pose proof (flight_small t Hwf) as F.
  pose proof (newreno_step_wf (congestion t) (Timeout (in_flight t))) as N. destruct Hwf.
  split; try done.
  - unfold rto_ok, backoff, sat_mul, u64_max, MIN_RTO_MS, MAX_RTO_MS in *. tcb_goal. cbn. lia.
  - apply N; [done|]. cbn. unfold is_u64. lia.
Qed.

Lemma timer_ok tm t event :
  tcb_wf t -> timers_ok t tm ->
  match on_timer t event with
  | (t', Ok acts) => step_post tm t (OnTimer event) t' acts
  | (t', Err _) => t' = t
  | _ => False
  end.
Proof.
  intros Hwf Htm. unfold on_timer, state_is. case_bool_decide as Hc; [done|].
  pose proof (tracked_start tm t Hwf Htm) as H. destruct Htm as [R D].
  assert (post : forall t' acts, tcb_wf t' -> timers_ok t' (follow_all (fired (OnTimer event) tm) acts) ->
    recv_buffered t' = recv_buffered t -> recv_next t' = recv_next t ->
    advertised_right_edge t' = advertised_right_edge t -> delivered acts = 0 -> fins acts = 0 ->
    step_post tm t (OnTimer event) t' acts).
  { intros t' acts W T B N E D0 F0. split; rewrite ?D0, ?F0; try done; cbn [taken]; try lia.
    - intros _. rewrite N. destruct Hwf. by rewrite seq_add_0.
    - intros _. rewrite E. change (open_window t <= open_window t <= MAX_WINDOW). destruct Hwf. lia. }
  destruct event; cbn [fired] in *; try by apply post.
  - destruct (Z.eqb_spec (send_unacked t) (send_next t)) as [E|E].
    { apply post; try done. split; [|done]. intros _. cbn. by rewrite E, Z.eqb_refl. }
    set (t1 := set_rto _ _).
    assert (W1 : tcb_wf t1) by exact (timeout_wf t Hwf).
    destruct (retransmission_action_some t1 W1 Hc) as (a & -> & Ha); [by apply Z.eqb_neq|].
    assert (Hne : negb (send_unacked t1 =? send_next t1) = true)
      by (apply negb_true_iff, Z.eqb_neq; exact E).
    apply post; try done; try by destruct a.
  - destruct (delayed_ack_pending t) eqn:P.
    + apply post; try done. by apply set_delayed_wf.
    + by apply post.
  - case_bool_decide; apply post; try done. by apply close_wf.
Qed.

(** ** The remaining operations *)
Lemma frame_post tm t e t' :
  tcb_wf t -> timers_ok t tm -> fired e tm = tm -> taken e = 0 -> tcb_wf t' ->
  state t' = state t -> send_unacked t' = send_unacked t -> send_next t' = send_next t ->
  delayed_ack_pending t' = delayed_ack_pending t -> recv_buffered t' = recv_buffered t ->
  recv_next t' = recv_next t -> advertised_right_edge t' = advertised_right_edge t ->
  step_post tm t e t' [].
Proof.
  intros Hwf [R D] Hf Ht W Es Eu En Ed Eb Er Ee. apply tracked_post; try done.
  destruct (tracked_start tm t Hwf (conj R D)) as (T & B & N & G). unfold tracked, timers_ok, framed, in_flight in *.
  rewrite Es, Eu, En, Ed, Eb, Er, Ee. done.
Qed.

Lemma queued_payload_ok tm t n :
  tcb_wf t -> timers_ok t tm -> 0 <= n <= open_window t -> synchronized (state t) ->
  match accept_queued_payload n t with
  | (t', Ok a) => step_post tm t (OnQueuedPayload n) t' [a]
  | (t', Err _) => t' = t
  | _ => False
  end.
Proof.
  intros Hwf Htm Hn Hs. unfold accept_queued_payload. case_bool; [done|].
  destruct (take_payload_ok _ t [] n Hwf Hs Hn (tracked_start tm t Hwf Htm)) as (W & T & _).
  by apply tracked_post.
Qed.

Lemma sack_loss_ok tm t t' acts :
  on_sack_loss t = (t', acts) -> tcb_wf t -> timers_ok t tm -> step_post tm t OnSackLoss t' acts.
Proof.
  intros E Hwf Htm. unfold on_sack_loss in E. destruct (negb _ || _ || _); [simplify_eq; by apply step_same|].
  pose proof (newreno_step_wf (congestion t) (SackLoss (in_flight t) (send_next t))) as C.
  cbn [newreno_step event_amount] in C. pose proof (flight_small t Hwf) as F.
  destruct (on_sack_loss_cc _ _ _) as [c entered].
  assert (W : tcb_wf (set_congestion c t)).
  { destruct Hwf. split; try done. apply C; [done|]. unfold is_u64. lia. }
  pose proof (tracked_start tm t Hwf Htm) as T.
  destruct entered; cbn [negb] in E; simplify_eq; by apply tracked_post.
Qed.

Lemma grow_wf t n : tcb_wf t -> 0 <= n -> recv_capacity t + n <= u64_max ->
  tcb_wf (grow_receive_capacity n t).
Proof.
  intros Hwf Hn Hc. unfold grow_receive_capacity.
  assert (E : uadd (recv_capacity t) n = recv_capacity t + n).
  { pose proof (open_window_nonneg t). destruct Hwf. unfold uadd, wrap64. apply Z.mod_small.
    unfold u64_max in Hc. lia. }
  rewrite E. destruct Hwf. split; try done.
  change (open_window t <= recv_capacity t + n - recv_buffered t). lia.
Qed.

Lemma record_sample_ok r ms : rto_ok (record_sample r ms).
Proof.
  unfold rto_ok, record_sample. destruct (smoothed_rtt_ms r); cbn; by apply clamp_range.
Qed.

(** Every step of a well-formed block either succeeds with [step_post] or
    fails and leaves the block as it was; none panics. *)
Lemma tcb_step_ok tm t e :
  tcb_wf t -> timers_ok t tm -> event_ok t e ->
  match tcb_step t e with
  | (t', Ok acts) => step_post tm t e t' acts
  | (t', Err _) => t' = t
  | _ => False
  end.
Proof.
  intros Hwf Htm He. pose proof (tracked_start tm t Hwf Htm) as H.
  destruct e as [seg|ev|ev| |n| | | |n| |ms]; cbn [tcb_step]; unfold plain.
  - destruct (decide (state t = Closed)) as [C|C].
    { unfold on_segment, state_is. by rewrite bool_decide_eq_true_2. }
    destruct (decide (state t = SynSent)) as [S|S].
    + unfold on_segment, state_is. rewrite bool_decide_eq_false_2, bool_decide_eq_true_2 by done.
      destruct (on_syn_sent_segment t seg) as [t' acts] eqn:E.
      destruct (on_syn_sent_ok tm t seg t' acts E Hwf Htm He S) as (W & T & B & D0).
      split; try done. cbn. lia.
    + destruct (on_open_segment_ok tm t seg Hwf Htm He C S) as (t' & acts & -> & W & T).
      by apply tracked_post.
  - by apply app_event_ok.
  - by apply timer_ok.
  - destruct (on_sack_loss t) as [t' acts] eqn:E. by apply sack_loss_ok.
  - destruct He as [He1 He2]. pose proof (queued_payload_ok tm t n Hwf Htm He1 He2) as P.
    by destruct (accept_queued_payload n t) as [t' [| | |]].
  - destruct (accept_queued_fin t) as [t' acts] eqn:E. destruct He as [He1 He2].
    destruct (take_fin_ok (origin_of tm t) _ _ _ _ E Hwf He2 He1 H) as (W & T & _).
    by apply tracked_post.
  - destruct (force_ack t) as [t' acts] eqn:E.
    destruct (answer_with_ok (origin_of tm t) Send _ _ _ _ (fun _ => eq_refl) E Hwf H) as (_ & W & T).
    by apply tracked_post.
  - destruct (reject_unacceptable_segment t) as [t' acts] eqn:E.
    destruct (answer_with_ok (origin_of tm t) DefensiveAck _ _ _ _ (fun _ => eq_refl) E Hwf H) as (_ & W & T).
    by apply tracked_post.
  - destruct He. apply frame_post; try done. by apply grow_wf.
  - unfold withdraw_receive_window_scale. destruct (negb _); [by apply step_same|].
    apply frame_post; try done. destruct Hwf. by split.
  - apply frame_post; try done. destruct Hwf. split; try done. apply record_sample_ok.
Qed.

(** ** Starting blocks *)
Lemma newreno_new_ok mss : 0 < mss <= 2305843009213693952 ->
  newreno_new mss = Some (newreno_value mss) /\ newreno_wf (newreno_value mss).
Proof.
  intros H. split; [|by apply newreno_value_wf]. unfold newreno_new. case_bool; [done|lia].
Qed.

Lemma rto_default_ok : rto_ok rto_default.
Proof. unfold rto_ok, rto_default, MIN_RTO_MS, MAX_RTO_MS. cbn. lia. Qed.

(** The limits the table opens a block with. *)
Definition open_ok (isn capacity mss scale : Z) : Prop :=
  is_seq isn /\ 0 <= capacity <= u64_max /\ 0 < mss <= 2305843009213693952 /\ 0 <= scale.

Definition idle : timers := mkTimers false false.

Lemma syn_in_flight isn : is_seq isn -> distance_from (seq_add isn 1) isn = 1.
Proof. intros H. by apply distance_add. Qed.

Lemma isn_outstanding isn : is_seq isn -> (isn =? seq_add isn 1) = false.
Proof.
  intros H. apply Z.eqb_neq. intros E. pose proof (syn_in_flight isn H) as D.
  rewrite <- E, distance_self in D. done.
Qed.

Lemma from_syn_ok segment isn capacity mss scale t acts :
  from_syn_with_options segment isn capacity mss scale = Ok (t, acts) ->
  open_ok isn capacity mss scale -> segment_ok segment ->
  tcb_wf t /\ timers_ok t (follow_all idle acts).
Proof.
  intros E (Hi & Hc & Hm & Hs) []. unfold from_syn_with_options in E.
  destruct (negb _ || _ || _); [done|]. destruct (Z.ltb_spec capacity (payload_len segment)); [done|].
  destruct (newreno_new_ok mss Hm) as [N Nw]. rewrite N in E. cbn [expect mbind outcome_bind] in E.
  destruct (advertisable_range capacity (Z.min scale 14)) as [A1 A2]; [lia..|].
  set (adv := advertisable_receive_capacity _ _) in *.
  set (edge := Z.max adv (payload_len segment)) in *.
  assert (He : payload_len segment <= edge <= capacity /\ edge <= MAX_WINDOW)
    by (unfold edge, MAX_WINDOW, u16_max in *; lia).
  assert (O : distance_from (seq_add (seq_add (sequence segment) 1) edge) (seq_add (sequence segment) 1) = edge)
    by (apply distance_add; [apply seq_add_range|unfold MAX_WINDOW in He; lia]).
  injection E as <- <-. split.
  - split; unfold pending_ok, open_window, in_flight; tcb_goal; rewrite ?O, ?syn_in_flight by done;
      try done; try apply seq_add_range; try apply rto_default_ok; try lia.
    unfold b2z. destruct (contains (flags segment) FIN); cbn [andb]; [|lia].
    destruct (Z.ltb_spec (payload_len segment) edge); lia.
  - split; [|done]. intros _. tcb_goal. by rewrite isn_outstanding.
Qed.

Lemma connect_ok isn capacity mss scale :
  open_ok isn capacity mss scale ->
  exists t acts, connect isn capacity mss scale = Ok (t, acts) /\
    tcb_wf t /\ timers_ok t (follow_all idle acts).
Proof.
  intros (Hi & Hc & Hm & Hs). unfold connect.
  destruct (newreno_new_ok mss Hm) as [N Nw]. rewrite N. cbn [expect mbind outcome_bind].
  destruct (advertisable_range capacity (Z.min scale 14)) as [A1 A2]; [lia..|].
  assert (O : distance_from (seq_add 0 (advertisable_receive_capacity capacity (Z.min scale 14))) 0 =
              advertisable_receive_capacity capacity (Z.min scale 14))
    by (apply distance_add; [done|unfold MAX_WINDOW in A2; lia]).
  do 2 eexists. split; [reflexivity|]. split.
  - split; unfold pending_ok, open_window, in_flight; tcb_goal; rewrite ?O, ?syn_in_flight by done;
      try done; try apply seq_add_range; try apply rto_default_ok; lia.
  - split; [|done]. intros _. tcb_goal. by rewrite isn_outstanding.
Qed.
