(* ===== verification/TcpTheorems.v ===== *)
(** Properties of the TCP control block ([sail-netstack/src/tcp/state.rs]) over
    every run the flow table can drive. *)
From stdpp Require Import relations.
From S2P Require Import Prelude TcpSeq Congestion TcpTcb TcpInvariant TcpHandlers.

(** ** Runs *)

(** [reachable t tm]: a block some sequence of calls produces, and the timers
    its actions left armed. *)
Inductive reachable : TcpTcb -> timers -> Prop :=
| reach_from_syn segment isn capacity mss scale t acts :
    open_ok isn capacity mss scale -> segment_ok segment ->
    from_syn_with_options segment isn capacity mss scale = Ok (t, acts) ->
    reachable t (follow_all idle acts)
| reach_connect isn capacity mss scale t acts :
    open_ok isn capacity mss scale -> connect isn capacity mss scale = Ok (t, acts) ->
    reachable t (follow_all idle acts)
| reach_step t tm e t' acts :
    reachable t tm -> event_ok t e -> tcb_step t e = (t', Ok acts) ->
    reachable t' (follow_all (fired e tm) acts).

Lemma reachable_ok t tm : reachable t tm -> tcb_wf t /\ timers_ok t tm.
Proof.
  induction 1 as [segment isn capacity mss scale t acts O S E|isn capacity mss scale t acts O E
                 |t tm e t' acts R [W T] He E].
  - by eapply from_syn_ok.
  - destruct (connect_ok _ _ _ _ O) as (t0 & acts0 & E0 & ? & ?). rewrite E0 in E. by simplify_eq.
  - pose proof (tcb_step_ok tm t e W T He) as P. rewrite E in P. by destruct P.
Qed.

(** ** The state diagram *)

(** RFC 9293 figure 5, with the resets and aborts that lead to CLOSED. *)
Inductive tcp_edge : TcpState -> TcpState -> Prop :=
| edge_simultaneous : tcp_edge SynSent SynReceived
| edge_connected : tcp_edge SynSent Established
| edge_accepted : tcp_edge SynReceived Established
| edge_active_close : tcp_edge Established FinWait1
| edge_passive_close : tcp_edge Established CloseWait
| edge_fin_acked : tcp_edge FinWait1 FinWait2
| edge_both_close : tcp_edge FinWait1 Closing
| edge_fin_and_ack : tcp_edge FinWait1 TimeWait
| edge_peer_fin : tcp_edge FinWait2 TimeWait
| edge_closing_acked : tcp_edge Closing TimeWait
| edge_last_close : tcp_edge CloseWait LastAck
| edge_closed s : s <> Closed -> tcp_edge s Closed.
Create HintDb tcp.
#[export] Hint Constructors tcp_edge : tcp.

(** How far a state is from CLOSED: every edge goes down. *)
Definition rank (s : TcpState) : nat :=
  match s with
  | SynSent => 6 | SynReceived => 5 | Established => 4 | FinWait1 => 3 | CloseWait => 3
  | FinWait2 => 2 | Closing => 2 | LastAck => 2 | TimeWait => 1 | Closed => 0
  end%nat.

Lemma edge_rank s s' : tcp_edge s s' -> (rank s' < rank s)%nat.
Proof. intros [| | | | | | | | | | |x Hx]; cbn; try lia. destruct x; cbn; first [lia|congruence]. Qed.

Lemma edges_rank s s' : rtc tcp_edge s s' -> s = s' \/ (rank s' < rank s)%nat.
Proof.
  induction 1 as [|x y z E _ IH]; [by left|]. apply edge_rank in E. right. destruct IH; subst; lia.
Qed.

Lemma closed_final s : rtc tcp_edge Closed s -> s = Closed.
Proof. intros H. apply edges_rank in H as [->|H]; [done|]. cbn in H. lia. Qed.

Lemma rtc_edge s s' : tcp_edge s s' -> rtc tcp_edge s s'.
Proof. apply rtc_once. Qed.
#[export] Hint Resolve rtc_edge rtc_refl : tcp.

Lemma on_peer_fin_state t acts : rtc tcp_edge (state t) (state (fst (on_peer_fin t acts))).
Proof.
  unfold on_peer_fin, enter_time_wait. destruct (state t) eqn:E; cbn; rewrite ?E; auto with tcp.
  destruct (_ =? _); cbn; auto with tcp.
Qed.

Lemma cancel_state t acts : state (fst (cancel_delayed_ack t acts)) = state t.
Proof. unfold cancel_delayed_ack. by destruct (delayed_ack_pending t). Qed.

Lemma answer_with_state wrap t acts : state (fst (answer_with wrap t acts)) = state t.
Proof.
  unfold answer_with. pose proof (cancel_state t acts) as H.
  by destruct (cancel_delayed_ack t acts).
Qed.

Lemma take_fin_state t acts : rtc tcp_edge (state t) (state (fst (take_fin t acts))).
Proof.
  unfold take_fin. pose proof (on_peer_fin_state (set_recv_next (seq_add (recv_next t) 1) t) acts) as H.
  destruct (on_peer_fin _ acts) as [t1 acts1]. by rewrite answer_with_state.
Qed.

Lemma defend_state t acts : state (fst (defend t acts)) = state t.
Proof.
  unfold defend. pose proof (answer_with_state DefensiveAck t acts) as H.
  by destruct (answer_with DefensiveAck t acts).
Qed.

Lemma take_in_order_state t segment acts :
  rtc tcp_edge (state t) (state (fst (take_in_order t segment acts))).
Proof.
  unfold take_in_order. case_bool; [apply rtc_refl|].
  destruct (0 <? payload_len segment) eqn:P;
    (destruct (contains (flags segment) FIN);
     [match goal with |- context [take_fin ?t1 ?acts1] =>
        pose proof (take_fin_state t1 acts1); by destruct (take_fin t1 acts1)
      end|]); [destruct (delayed_ack_pending _)|]; apply rtc_refl.
Qed.

Lemma advance_sender_state a w w0 carried t acts :
  state (fst (advance_sender a w w0 carried t acts)) = state t.
Proof.
  unfold advance_sender. destruct (after _ _ && _); [by destruct (on_new_ack _ _ _)|].
  destruct (_ && _); [by destruct (on_duplicate_ack _ _ _)|done].
Qed.

Lemma process_ack_state segment w0 carried t acts :
  rtc tcp_edge (state t) (state (fst (process_ack segment w0 carried t acts))).
Proof.
  unfold process_ack. destruct (acknowledgment segment) as [a|]; [|apply rtc_refl].
  pose proof (advance_sender_state a (window segment) w0 carried t acts) as H.
  destruct (advance_sender _ _ _ _ _ _) as [t1 acts1]. cbn in H. rewrite <- H.
  unfold enter_time_wait. destruct (state t1) eqn:E; cbn; rewrite ?E; auto with tcp;
    destruct (a =? send_next t1); cbn; rewrite ?E; auto with tcp.
Qed.

Lemma update_send_window_state segment t : state (update_send_window segment t) = state t.
Proof.
  unfold update_send_window. destruct (acknowledgment segment); [|done].
  by repeat case_bool.
Qed.

Lemma take_segment_state t segment beyond carried acts :
  rtc tcp_edge (state t) (state (fst (take_segment t segment beyond carried acts))).
Proof.
  unfold take_segment. rewrite <- (update_send_window_state segment t).
  set (t1 := update_send_window segment t). set (seg := mkSegment _ _ _ _ _).
  pose proof (process_ack_state seg (peer_window t) carried t1 acts) as H.
  destruct (process_ack seg _ carried t1 acts) as [t2 acts2]. cbn [fst] in H.
  repeat case_bool; rewrite ?defend_state; try done.
  etrans; [done|]. apply take_in_order_state.
Qed.

Lemma finish_handshake_state t acts :
  state t = SynReceived -> rtc tcp_edge (state t) (state (fst (finish_handshake t acts))).
Proof.
  intros E. rewrite E. eapply rtc_l; [apply edge_accepted|].
  unfold finish_handshake. cbv zeta. set (pair := if 0 <? _ then _ else _).
  assert (S : state (fst pair) = Established).
  { unfold pair. repeat case_bool; done. }
  destruct pair as [t1 acts1]. cbn [fst] in S. rewrite <- S.
  case_bool; [|apply rtc_refl].
  exact (take_fin_state (set_pending_initial_fin false t1) acts1).
Qed.

Lemma on_syn_sent_state t segment :
  state t = SynSent -> rtc tcp_edge SynSent (state (fst (on_syn_sent_segment t segment))).
Proof.
  intros E. unfold on_syn_sent_segment, take_peer_syn.
  destruct (contains (flags segment) ACK), (contains (flags segment) RST),
    (contains (flags segment) SYN), (acknowledgment segment); cbn [negb];
    repeat case_bool; cbn; rewrite ?E; auto with tcp.
Qed.

Lemma on_segment_state t segment : rtc tcp_edge (state t) (state (fst (on_segment t segment))).
Proof.
  unfold on_segment, state_is. case_bool_decide as C; [apply rtc_refl|].
  case_bool_decide as S.
  { pose proof (on_syn_sent_state t segment S) as H. rewrite S.
    by destruct (on_syn_sent_segment t segment). }
  set (seg := if _ && _ then _ else _).
  destruct (contains (flags seg) RST).
  { repeat case_bool; cbn; auto with tcp. }
  assert (tail : forall t1 acts1, rtc tcp_edge (state t) (state t1) ->
    rtc tcp_edge (state t) (state (fst (on_synchronized_segment t1 seg acts1)))).
  { intros t1 acts1 H. unfold on_synchronized_segment. repeat case_bool; rewrite ?defend_state; try done.
    etrans; [done|]. apply take_segment_state. }
  unfold complete_passive_handshake, state_is. case_bool_decide as R; cbn [negb];
    [|cbn; apply tail, rtc_refl].
  destruct (accepts_final_ack t seg); cbn [negb].
  - pose proof (finish_handshake_state t [] R) as H. destruct (finish_handshake t []) as [t1 acts1].
    cbn. by apply tail.
  - case_bool; [|apply rtc_refl]. destruct (acknowledgment seg); apply rtc_refl.
Qed.

Lemma on_app_event_state t event : rtc tcp_edge (state t) (state (fst (on_app_event t event))).
Proof.
  unfold on_app_event, state_is. case_bool_decide as C; [apply rtc_refl|].
  destruct event as [n|n| |].
  - unfold on_consumed. case_bool; [apply rtc_refl|]. case_bool; [|apply rtc_refl].
    match goal with |- context [answer_with Send ?t1 []] =>
      pose proof (answer_with_state Send t1 []) as HS; destruct (answer_with Send t1 []) end.
    cbn in *. rewrite HS. apply rtc_refl.
  - unfold on_send. repeat (case_bool; [apply rtc_refl|]).
    match goal with |- context [cancel_delayed_ack ?t1 []] =>
      pose proof (cancel_state t1 []) as HS; destruct (cancel_delayed_ack t1 []) end.
    cbn in *. rewrite HS. apply rtc_refl.
  - case_bool_decide; [cbn; auto with tcp|]. pose proof (cancel_state t []) as HS.
    destruct (cancel_delayed_ack t []) as [t1 acts1]. cbn in HS. rewrite <- HS. unfold start_close.
    destruct (state t1) eqn:E; cbn; rewrite ?E; auto with tcp.
  - case_bool_decide; [cbn; auto with tcp|]. pose proof (cancel_state (set_state Closed t) []) as HS.
    destruct (cancel_delayed_ack _ []) as [t1 acts1]. cbn in *. rewrite HS. auto with tcp.
Qed.

Lemma on_timer_state t event : rtc tcp_edge (state t) (state (fst (on_timer t event))).
Proof.
  unfold on_timer, state_is. case_bool_decide as C; [apply rtc_refl|].
  destruct event; try apply rtc_refl; try (case_bool; try apply rtc_refl).
  - by destruct (retransmission_action _); apply rtc_refl.
  - cbn. auto with tcp.
Qed.

Lemma tcb_step_state t e : rtc tcp_edge (state t) (state (fst (tcb_step t e))).
Proof.
  destruct e; cbn [tcb_step plain fst].
  - apply on_segment_state.
  - apply on_app_event_state.
  - apply on_timer_state.
  - unfold on_sack_loss. case_bool; [apply rtc_refl|].
    destruct (on_sack_loss_cc _ _ _) as [c []]; apply rtc_refl.
  - unfold accept_queued_payload. case_bool; apply rtc_refl.
  - apply take_fin_state.
  - unfold force_ack. rewrite answer_with_state. apply rtc_refl.
  - unfold reject_unacceptable_segment. rewrite answer_with_state. apply rtc_refl.
  - apply rtc_refl.
  - unfold withdraw_receive_window_scale. case_bool; apply rtc_refl.
  - apply rtc_refl.
Qed.

(** ** Reading a run *)





(** ** Sample blocks *)
Definition sample_syn : TcpSegmentMeta := mkSegment 4294967295 None SYN 65535 10.
Definition sample_syn_received : TcpTcb :=
  Eval vm_compute in
    match from_syn_with_options sample_syn 5000 100000 1460 2 with
    | Ok (t, _) => t
    | _ => mkTcb Closed 0 0 0 0 0 0 0 0 0 0 0 rto_default (newreno_value 1) false 0 false false
    end.
Definition sample_ack : TcpSegmentMeta := mkSegment 10 (Some 5001) ACK 65535 20.
Definition sample_established : TcpTcb :=
  Eval vm_compute in fst (tcb_step sample_syn_received (OnSegment sample_ack)).
Definition sample_armed : timers := mkTimers true false.
Definition sample_owing : timers := mkTimers false false.

Lemma sample_open_ok : open_ok 5000 100000 1460 2.
Proof. unfold open_ok, is_seq, u64_max. lia. Qed.

Lemma sample_segment_ok s :
  is_seq (sequence s) -> is_seq (default 0 (acknowledgment s)) -> 0 <= window s <= MAX_WINDOW ->
  0 <= payload_len s <= u16_max -> segment_ok s.
Proof. intros H1 H2 H3 H4. split; try done. by destruct (acknowledgment s). Qed.

Ltac segment_ok := apply sample_segment_ok; cbn; unfold is_seq, MAX_WINDOW, u16_max; lia.

Lemma sample_syn_received_reachable : reachable sample_syn_received sample_armed.
Proof.
  apply (reach_from_syn sample_syn 5000 100000 1460 2 sample_syn_received
    [Send (control sample_syn_received (union_flags SYN ACK) 5000); ArmRetransmission 1000]);
    [apply sample_open_ok|segment_ok|vm_compute; reflexivity].
Qed.

Lemma reach_by t tm e t' tm' acts :
  reachable t tm -> event_ok t e -> tcb_step t e = (t', Ok acts) ->
  follow_all (fired e tm) acts = tm' -> reachable t' tm'.
Proof. intros R He E <-. by eapply reach_step. Qed.

(** The final ACK takes the SYN's ten bytes and twenty more; the second
    segment in a row is acknowledged at once. *)
Lemma sample_established_reachable : reachable sample_established sample_owing.
Proof.
  eapply (reach_by sample_syn_received sample_armed (OnSegment sample_ack));
    [apply sample_syn_received_reachable|cbn; segment_ok|vm_compute; reflexivity|vm_compute; reflexivity].
Qed.

(** ** Properties *)

(** C3: the control-block invariant.  In every reachable block the announced
    window fits the reserved credit, what is in flight fits the state (one SYN
    before the handshake, nothing once our FIN is acknowledged), congestion
    control and RTO are in range, the retransmission timer is armed exactly
    while something is unacknowledged, and the delayed-ACK timer exactly while
    an ACK is owed. *)
Theorem tcb_invariant (t : TcpTcb) (tm : timers) :
  reachable t tm -> tcb_wf t /\ timers_ok t tm.
Proof. apply reachable_ok. Qed.

Lemma tcb_invariant_witness :
  tcb_wf sample_established /\ timers_ok sample_established sample_owing.
Proof. apply tcb_invariant. apply sample_established_reachable. Defined.







(** Every announced window is backed by credit.  The window field of any
    control segment fits 16 bits and, scaled the way the peer will scale it
    (not at all on a SYN), is within the unused receive capacity. *)
Lemma announced_window_reserved (t : TcpTcb) (tm : timers) (fl seq : Z) :
  reachable t tm ->
  let c := control t fl seq in
  0 <= sc_window c <= u16_max /\
  (if contains fl SYN then sc_window c else sc_window c * 2 ^ receive_window_scale t)
    <= recv_capacity t - recv_buffered t.
Proof.
  intros R. destruct (reachable_ok t tm R) as [W _]. pose proof (open_window_nonneg t) as O.
  destruct W. cbv zeta. unfold control, advertised_window. fold (open_window t). cbn [sc_window].
  unfold u16_max. destruct (contains fl SYN); [lia|].
  rewrite Z.shiftr_div_pow2 by lia. set (q := 2 ^ receive_window_scale t).
  assert (Q : 0 < q) by (apply Z.pow_pos_nonneg; lia).
  assert (D0 : 0 <= open_window t / q) by (apply Z.div_pos; lia).
  assert (D1 : open_window t / q * q <= open_window t) by (rewrite Z.mul_comm; apply Z.mul_div_le; lia).
  assert (D2 : Z.min (open_window t / q) 65535 * q <= open_window t / q * q)
    by (apply Z.mul_le_mono_nonneg_r; lia). lia.
Qed.


(** C5: the connection states refine RFC 9293.  Every call moves the state
    along edges of the diagram only, so a state is left for good (each edge
    lowers [rank]) and CLOSED is final. *)
Theorem tcb_state_diagram (t : TcpTcb) (e : TcbEvent) :
  let s' := state (fst (tcb_step t e)) in
  rtc tcp_edge (state t) s' /\ (s' = state t \/ (rank s' < rank (state t))%nat) /\
  (state t = Closed -> s' = Closed).
Proof.
  cbv zeta. pose proof (tcb_step_state t e) as H. split; [done|]. split.
  - destruct (edges_rank _ _ H); auto.
  - intros C. rewrite C in H. by apply closed_final.
Qed.

(** A reset is honoured only at exactly the next expected sequence
    number.  A RST elsewhere in the window is answered with a challenge ACK
    and one outside it is ignored; neither changes the block. *)
Lemma reset_validation (t : TcpTcb) (segment : TcpSegmentMeta) :
  state t <> Closed -> state t <> SynSent -> contains (flags segment) RST = true ->
  on_segment t segment =
    if sequence segment =? recv_next t then (set_state Closed t, Ok [ClosedAction])
    else (t, Ok (if sequence_in_receive_window t (sequence segment) then [ChallengeAck] else [])).
Proof.
  intros Hc Hs Hr. unfold on_segment, state_is. rewrite !bool_decide_eq_false_2 by done.
  assert (E : simultaneous_open_completion t segment = segment).
  { unfold simultaneous_open_completion. rewrite Hr. cbn [negb]. by rewrite andb_false_r, !andb_false_l. }
  rewrite E. replace (if active_open t && _ then segment else segment) with segment by (by destruct (_ && _)).
  rewrite Hr. case_bool; [done|]. by destruct (sequence_in_receive_window _ _).
Qed.





(** Sending respects both windows.  A send of [n > 0] bytes is accepted
    exactly in ESTABLISHED or CLOSE-WAIT with [n] within [send_available], and
    then it takes the next [n] sequence numbers and leaves in flight no more
    than the peer's window and the congestion window (with limited transmit)
    allow. *)
Lemma send_respects_windows (t : TcpTcb) (tm : timers) (n : Z) :
  reachable t tm -> 0 < n ->
  match on_app_event t (AppSend n) with
  | (t', Ok _) =>
      (state t = Established \/ state t = CloseWait) /\ n <= send_available t /\
      send_next t' = seq_add (send_next t) n /\ send_unacked t' = send_unacked t /\
      in_flight t' = in_flight t + n /\
      in_flight t' <= Z.min (peer_window t)
        (congestion_window (congestion t) + limited_transmit_allowance (congestion t))
  | (t', _) => t' = t /\ (state t <> Established /\ state t <> CloseWait \/ send_available t < n)
  end.
Proof.
  intros R Hn. destruct (reachable_ok t tm R) as [W _]. unfold on_app_event, on_send, state_is.
  case_bool_decide as C; [split; [done|]; left; rewrite C; done|].
  destruct (negb _) eqn:Hst.
  { split; [done|]. left. apply negb_true_iff, orb_false_iff in Hst as [S1 S2].
    by apply bool_decide_eq_false in S1, S2. }
  apply negb_false_iff, orb_true_iff in Hst. rewrite !bool_decide_eq_true in Hst.
  case_bool; [by split; [|right]|]. case_bool; [lia|].
  set (t1 := set_send_next _ t).
  assert (E : fst (cancel_delayed_ack t1 []) = t1 \/
              fst (cancel_delayed_ack t1 []) = set_delayed_ack_pending false t1)
    by (unfold cancel_delayed_ack; destruct (delayed_ack_pending t1); auto).
  pose proof (send_available_bound t n Hn ltac:(lia)) as B. pose proof (wf_peer t W) as P.
  assert (I1 : in_flight t1 = in_flight t + n)
    by (unfold in_flight in *; apply distance_extend; unfold MAX_WINDOW in P; lia).
  assert (M : in_flight t + n <= congestion_window (congestion t) + limited_transmit_allowance (congestion t))
    by (unfold send_available, sat_sub, sat_add in *; lia).
  destruct (cancel_delayed_ack t1 []) as [t2 acts2]. cbn [fst] in E.
  destruct E as [-> | ->]; split_and!; try done; change (in_flight (set_delayed_ack_pending false t1)) with (in_flight t1);
    lia.
Qed.


(** ** Progress of an exchange *)

(** What a control segment is to its receiver; the window is shifted by the
    sender's scale, except on a SYN. *)
Definition wire (shift : Z) (c : SendControl) : TcpSegmentMeta :=
  mkSegment (sc_sequence c)
    (if contains (sc_flags c) ACK then Some (sc_acknowledgment c) else None)
    (sc_flags c) (Z.shiftl (sc_window c) shift) 0.

Lemma not_after_edge t k : tcb_wf t -> 0 <= k <= open_window t ->
  after (seq_add (recv_next t) k) (advertised_right_edge t) = false.
Proof.
  intros W Hk. unfold after. rewrite before_distance. apply Z.leb_gt.
  assert (D : distance_from (advertised_right_edge t) (seq_add (recv_next t) k) = open_window t - k)
    by (by apply distance_advance; destruct W).
  rewrite D. destruct W. unfold MAX_WINDOW in *. lia.
Qed.

Lemma before_edge t : tcb_wf t -> 0 < open_window t ->
  before (recv_next t) (advertised_right_edge t) = true.
Proof.
  intros W Hk. apply (after_of_distance (recv_next t)); try by destruct W.
  fold (open_window t). destruct W. unfold MAX_WINDOW in *. lia.
Qed.

Lemma before_self s : before s s = false.
Proof. by rewrite before_distance, distance_self. Qed.

Lemma length_small segment : 0 <= payload_len segment <= u16_max ->
  segment_length segment = payload_len segment + b2z (contains (flags segment) SYN) +
                           b2z (contains (flags segment) FIN).
Proof.
  intros H. unfold segment_length, uadd, wrap64, u16_max in *.
  assert (B : forall b, 0 <= b2z b <= 1) by (intros []; cbn; lia).
  pose proof (B (contains (flags segment) SYN)). pose proof (B (contains (flags segment) FIN)).
  rewrite (Z.mod_small (payload_len segment + _)) by lia. apply Z.mod_small. lia.
Qed.

(** A segment that starts at the next expected number is acceptable. *)
Lemma in_order_acceptable t segment : tcb_wf t -> segment_ok segment ->
  sequence segment = recv_next t -> segment_acceptable t segment = true.
Proof.
  intros W [] E. unfold segment_acceptable. rewrite length_small, E by done.
  pose proof (not_after_edge t 0 W) as A. rewrite seq_add_0 in A by (by destruct W).
  rewrite A by (split; [lia|apply open_window_nonneg]).
  assert (B : forall b, 0 <= b2z b <= 1) by (intros []; cbn; lia).
  pose proof (B (contains (flags segment) SYN)). pose proof (B (contains (flags segment) FIN)).
  case_bool; [by rewrite before_self|].
  apply after_of_distance; [by destruct W|apply seq_add_range|].
  rewrite distance_add; [|by destruct W|]; unfold u16_max in *; lia.
Qed.

Lemma on_segment_open t segment : synchronized (state t) -> contains (flags segment) RST = false ->
  on_segment t segment = on_synchronized_segment t segment [].
Proof.
  intros S Hr. unfold on_segment, state_is.
  rewrite !bool_decide_eq_false_2 by (intros E; by rewrite E in S).
  rewrite andb_false_r, Hr. unfold complete_passive_handshake, state_is.
  rewrite bool_decide_eq_false_2 by (intros E; by rewrite E in S). done.
Qed.

(** The states in which the peer's data is still taken. *)
Definition receiving (s : TcpState) : Prop :=
  match s with Established | FinWait1 | FinWait2 => True | _ => False end.

Lemma advance_sender_buffered a w w0 carried t acts :
  recv_buffered (fst (advance_sender a w w0 carried t acts)) = recv_buffered t /\
  send_next (fst (advance_sender a w w0 carried t acts)) = send_next t.
Proof.
  unfold advance_sender. destruct (after _ _ && _); [by destruct (on_new_ack _ _ _)|].
  destruct (_ && _); [by destruct (on_duplicate_ack _ _ _)|done].
Qed.

Lemma process_ack_receiving segment w0 carried t acts :
  receiving (state t) ->
  recv_buffered (fst (process_ack segment w0 carried t acts)) = recv_buffered t /\
  receiving (state (fst (process_ack segment w0 carried t acts))).
Proof.
  intros S. unfold process_ack. destruct (acknowledgment segment) as [a|]; [|done].
  pose proof (advance_sender_state a (window segment) w0 carried t acts) as H.
  pose proof (advance_sender_buffered a (window segment) w0 carried t acts) as [B _].
  destruct (advance_sender _ _ _ _ _ _) as [t1 acts1]. cbn [fst] in *. rewrite <- H in S. rewrite <- B.
  destruct (state t1) eqn:E; try done; try case_bool; cbn; by rewrite ?E.
Qed.

Lemma update_send_window_buffered segment t :
  recv_buffered (update_send_window segment t) = recv_buffered t.
Proof. unfold update_send_window. destruct (acknowledgment segment); [|done]. by repeat case_bool. Qed.

Lemma peer_fin_buffered t acts : recv_buffered (fst (on_peer_fin t acts)) = recv_buffered t.
Proof. unfold on_peer_fin. destruct (state t); try done. by case_bool. Qed.

Lemma take_fin_buffered t acts : recv_buffered (fst (take_fin t acts)) = recv_buffered t.
Proof.
  unfold take_fin, answer_with. set (t0 := set_recv_next _ t).
  pose proof (peer_fin_buffered t0 acts) as H. destruct (on_peer_fin t0 acts) as [t1 acts1].
  unfold cancel_delayed_ack. by destruct (delayed_ack_pending t1).
Qed.

Lemma take_in_order_buffered t segment acts :
  payload_len segment <= receive_available t -> 0 < payload_len segment ->
  recv_buffered (fst (take_in_order t segment acts)) = uadd (recv_buffered t) (payload_len segment).
Proof.
  intros H1 H2. unfold take_in_order. case_bool; [lia|].
  destruct (Z.ltb_spec 0 (payload_len segment)); [|lia].
  case_bool.
  - match goal with |- context [take_fin ?t1 ?a1] =>
      pose proof (take_fin_buffered t1 a1) as E; destruct (take_fin t1 a1) end.
    exact E.
  - by case_bool.
Qed.

(** In-order data makes progress.  A segment at the next expected number
    that bears a valid ACK, on a block still receiving with an open window, is
    accepted, and exactly as many of its bytes as the window holds are
    delivered. *)
Lemma in_order_delivery (t : TcpTcb) (tm : timers) (segment : TcpSegmentMeta) :
  reachable t tm -> segment_ok segment -> receiving (state t) ->
  sequence segment = recv_next t -> 0 < payload_len segment -> 0 < open_window t ->
  contains (flags segment) RST = false -> contains (flags segment) SYN = false ->
  contains (flags segment) ACK = true ->
  match acknowledgment segment with Some a => after a (send_next t) = false | None => True end ->
  exists t' acts, on_segment t segment = (t', Ok acts) /\
    delivered acts = Z.min (payload_len segment) (open_window t) /\
    recv_buffered t' = recv_buffered t + delivered acts.
Proof.
  intros R Hseg S Eseq Hp Hw Hr Hsyn Hack Ha. destruct (reachable_ok t tm R) as [W T].
  assert (Ssync : synchronized (state t)) by (by destruct (state t)).
  destruct (on_open_segment_ok tm t segment W T Hseg) as (t' & acts & E & W' & _ & B & _);
    [by destruct (state t)..|].
  exists t', acts. split; [done|]. cbn [origin_of o_buffered] in B. split; [|done].
  rewrite on_segment_open in E by done. unfold on_synchronized_segment in E.
  rewrite in_order_acceptable, Hsyn, Hack in E by done. cbn [negb] in E.
  replace (match acknowledgment segment with Some a => _ | None => _ end) with false in E
    by (by destruct (acknowledgment segment)).
  assert (Hb : beyond_receive_window t segment = false).
  { unfold beyond_receive_window. rewrite Eseq, before_edge by done. cbn [negb]. apply andb_false_r. }
  rewrite Hb in E. set (seg := trim_in_order_segment_to_receive_window t segment) in E.
  assert (Ht : sequence seg = recv_next t /\ payload_len seg = Z.min (payload_len segment) (open_window t)).
  { unfold seg, trim_in_order_segment_to_receive_window. rewrite Eseq, Z.eqb_refl. by cbn. }
  destruct (trim_fits t segment Hseg) as [Hseg1 _]. fold seg in Hseg1.
  unfold take_segment in E. pose proof (tracked_start tm t W T) as H0.
  destruct (update_send_window_ok _ seg t [] W Hseg1 H0) as (W1 & T1 & S1 & N1 & O1).
  pose proof (update_send_window_buffered seg t) as B1.
  set (t1 := update_send_window seg t) in *. set (seg1 := mkSegment _ _ _ _ _) in E.
  assert (Hseg2 : segment_ok seg1).
  { destruct Hseg1. split; try done. destruct (wf_peer _ W1). cbn. unfold MAX_WINDOW, u32_max in *. lia. }
  pose proof (process_ack_receiving seg1 (peer_window t) (0 <? payload_len segment) t1 []) as P2.
  rewrite S1 in P2. destruct (P2 S) as [B2 S2]. clear P2.
  destruct (process_ack seg1 _ _ t1 []) as [t2 acts2] eqn:P. cbn [fst] in B2, S2.
  destruct (process_ack_ok _ _ _ _ _ _ _ _ P W1 ltac:(by rewrite S1) Hseg2 T1) as (W2 & T2 & _ & N2 & O2).
  unfold state_is in E. rewrite bool_decide_eq_false_2 in E by (intros C; by rewrite C in S2).
  replace (peer_receive_closed t2) with false in E by (unfold peer_receive_closed; by destruct (state t2)).
  assert (Hc : carries seg1 = true).
  { unfold carries. destruct Ht as [_ Hp2]. cbn. rewrite Hp2.
    replace (0 <? _) with true by (symmetry; apply Z.ltb_lt; lia). done. }
  rewrite Hc in E. cbn [andb] in E.
  replace (sequence seg1 =? recv_next t2) with true in E
    by (symmetry; apply Z.eqb_eq; cbn; rewrite N2, N1; apply Ht).
  cbn [negb] in E. pose proof (take_in_order_buffered t2 seg1 acts2) as TB.
  rewrite E in TB. cbn [fst] in TB. destruct Ht as [_ Hp2]. change (payload_len seg1) with (payload_len seg) in TB.
  rewrite Hp2, receive_available_wf in TB by done.
  rewrite (uadd_buffered t2) in TB by (done || rewrite O2, O1; lia).
  pose proof (wf_window t2 W2) as V. rewrite O2, O1 in V. rewrite B2, B1 in *.
  rewrite TB in B by lia. lia.
Qed.

