(* ===== verification/TcpExchange.v ===== *)
(** Two control blocks of [sail-netstack/src/tcp/state.rs] talking to each
    other: the three-way handshake and the four-way close. *)
From stdpp Require Import relations.
From S2P Require Import Prelude TcpSeq Congestion TcpTcb TcpInvariant TcpHandlers TcpTheorems.

(** ** Segments without data *)

(** Everything of the sender that a segment's arrival cannot move when nothing
    is in flight. *)
Definition same_sender (t t' : TcpTcb) : Prop :=
  send_unacked t' = send_unacked t /\ send_next t' = send_next t.

Lemma acceptable_seq_idle t : is_seq (send_next t) -> 0 <= peer_window t <= MAX_WINDOW ->
  send_unacked t = send_next t -> acceptable_seq t = send_next t.
Proof.
  intros Hn Hp E. unfold acceptable_seq. rewrite E, before_distance, distance_add;
    [|done|unfold MAX_WINDOW in *; lia].
  case_bool; [unfold MAX_WINDOW in *; lia|done].
Qed.

(** An acknowledgment of everything, when everything already is. *)
Lemma process_ack_quiet segment w0 carried t acts :
  acknowledgment segment = Some (send_next t) -> send_unacked t = send_next t ->
  match state t with Established | CloseWait | FinWait2 | TimeWait => True | _ => False end ->
  process_ack segment w0 carried t acts = (t, acts).
Proof.
  intros Ea Eu Hs. unfold process_ack, advance_sender. rewrite Ea, Eu, after_self_false, Z.eqb_refl.
  cbn. by destruct (state t).
Qed.

(** An acknowledgment of our FIN, which ends FIN-WAIT-1 and LAST-ACK. *)
Lemma process_ack_fin o segment w0 carried t acts :
  tcb_wf t -> tracked o t acts -> acknowledgment segment = Some (send_next t) ->
  state t = FinWait1 \/ state t = LastAck ->
  exists t' acts', process_ack segment w0 carried t acts = (t', acts') /\
    state t' = (if bool_decide (state t = FinWait1) then FinWait2 else Closed) /\
    send_unacked t' = send_next t /\ send_next t' = send_next t /\ recv_next t' = recv_next t.
Proof.
  intros W H Ea Hs. unfold process_ack. rewrite Ea.
  destruct (advance_sender (send_next t) _ w0 carried t acts) as [t1 acts1] eqn:A.
  destruct (advance_sender_ok o _ _ _ _ _ _ _ _ A W ltac:(by destruct W) H)
    as (u & c & -> & _ & _ & _ & _ & Hu & _).
  rewrite (Hu eq_refl). tcb_goal. rewrite Z.eqb_refl.
  destruct Hs as [-> | ->]; do 2 eexists; (split; [reflexivity|]); done.
Qed.

(** A bare ACK of everything sent reaches [process_ack] and stops there. *)
Lemma bare_ack_step t segment acts :
  tcb_wf t -> segment_ok segment -> sequence segment = recv_next t -> payload_len segment = 0 ->
  flags segment = ACK -> acknowledgment segment = Some (send_next t) ->
  let t1 := update_send_window segment t in
  let seg1 := mkSegment (recv_next t) (Some (send_next t)) ACK (Z.min (peer_window t1) u32_max) 0 in
  on_synchronized_segment t segment acts =
    let '(t2, acts2) := process_ack seg1 (peer_window t) false t1 acts in (t2, Ok acts2).
Proof.
  intros W Hseg Es Ep Ef Ea. cbv zeta. unfold on_synchronized_segment.
  rewrite in_order_acceptable, Ef, Ea, Ep by done.
  change (contains ACK SYN) with false. change (contains ACK ACK) with true.
  rewrite after_self_false. cbn [negb].
  assert (B : beyond_receive_window t segment = false).
  { unfold beyond_receive_window. rewrite Ep, Ef. done. }
  assert (Tr : trim_in_order_segment_to_receive_window t segment = segment).
  { unfold trim_in_order_segment_to_receive_window. rewrite Es, Z.eqb_refl, Ep, Ef. cbn [negb].
    change (contains ACK FIN) with false. cbn [andb].
    rewrite Z.min_l by apply open_window_nonneg. destruct segment. cbn in *. by subst. }
  rewrite B, Tr. unfold take_segment. rewrite Es, Ef, Ea, Ep.
  change (0 <? 0) with false. set (seg1 := mkSegment _ _ _ _ _).
  destruct (process_ack seg1 _ false _ acts) as [t2 acts2].
  change (carries seg1) with false. rewrite andb_false_r. by case_bool.
Qed.

Lemma update_send_window_sender segment t :
  same_sender t (update_send_window segment t) /\
  recv_next (update_send_window segment t) = recv_next t.
Proof.
  unfold update_send_window, same_sender. destruct (acknowledgment segment); [|done].
  by repeat case_bool.
Qed.

(** ... with nothing in flight it changes nothing but the window. *)
Lemma quiet_ack t segment acts o :
  tcb_wf t -> tracked o t acts -> segment_ok segment -> sequence segment = recv_next t ->
  payload_len segment = 0 -> flags segment = ACK -> acknowledgment segment = Some (send_next t) ->
  send_unacked t = send_next t -> state t = Established ->
  exists t', on_synchronized_segment t segment acts = (t', Ok acts) /\
    state t' = Established /\ same_sender t t' /\ recv_next t' = recv_next t.
Proof.
  intros W H Hseg Es Ep Ef Ea Eu Hs. rewrite bare_ack_step by done.
  destruct (update_send_window_sender segment t) as [[U1 U2] U3].
  pose proof (update_send_window_state segment t) as U4.
  rewrite process_ack_quiet; [|cbn; by rewrite U2|by rewrite U1, U2|by rewrite U4, Hs].
  eexists. split; [reflexivity|]. rewrite U4. done.
Qed.

(** ... in FIN-WAIT-1 or LAST-ACK it ends the wait. *)
Lemma fin_acknowledged tm t segment :
  tcb_wf t -> timers_ok t tm -> segment_ok segment -> sequence segment = recv_next t ->
  payload_len segment = 0 -> flags segment = ACK -> acknowledgment segment = Some (send_next t) ->
  state t = FinWait1 \/ state t = LastAck ->
  exists t' acts', on_segment t segment = (t', Ok acts') /\
    state t' = (if bool_decide (state t = FinWait1) then FinWait2 else Closed) /\
    send_unacked t' = send_next t /\ send_next t' = send_next t /\ recv_next t' = recv_next t.
Proof.
  intros W T Hseg Es Ep Ef Ea Hs.
  assert (Sy : synchronized (state t)) by (by destruct Hs as [-> | ->]).
  rewrite on_segment_open by (done || by rewrite Ef).
  rewrite bare_ack_step by done.
  destruct (update_send_window_ok _ segment t [] W Hseg (tracked_start tm t W T)) as (W1 & T1 & S1 & N1 & _).
  destruct (update_send_window_sender segment t) as [[U1 U2] U3].
  set (seg1 := mkSegment _ _ _ _ _).
  destruct (process_ack_fin _ seg1 (peer_window t) false _ [] W1 T1) as (t2 & acts2 & -> & P1 & P2 & P3 & P4).
  { cbn. by rewrite U2. }
  { by rewrite S1. }
  rewrite S1 in P1. rewrite U2 in P2, P3. rewrite U3 in P4. by eauto 10.
Qed.

(** ** A FIN without data *)

(** The peer's FIN on an idle block is taken and acknowledged. *)
Lemma fin_taken t segment :
  tcb_wf t -> segment_ok segment -> sequence segment = recv_next t -> payload_len segment = 0 ->
  flags segment = union_flags FIN ACK -> acknowledgment segment = Some (send_next t) ->
  send_unacked t = send_next t -> 0 < open_window t ->
  state t = Established \/ state t = FinWait2 ->
  exists t' acts', on_segment t segment = (t', Ok (acts' ++ [Send (ack t')])) /\
    state t' = (if bool_decide (state t = Established) then CloseWait else TimeWait) /\
    same_sender t t' /\ recv_next t' = seq_add (recv_next t) 1 /\
    peer_window t' = peer_window (update_send_window segment t).
Proof.
  intros W Hseg Es Ep Ef Ea Eu Hw Hs.
  assert (Sy : synchronized (state t)) by (by destruct Hs as [-> | ->]).
  rewrite on_segment_open by (done || by rewrite Ef). unfold on_synchronized_segment.
  rewrite in_order_acceptable, Ef, Ea, Ep by done.
  change (contains (union_flags FIN ACK) SYN) with false.
  change (contains (union_flags FIN ACK) ACK) with true. rewrite after_self_false. cbn [negb].
  assert (B : beyond_receive_window t segment = false).
  { unfold beyond_receive_window. rewrite Es, before_edge by done. apply andb_false_r. }
  assert (Tr : trim_in_order_segment_to_receive_window t segment = segment).
  { unfold trim_in_order_segment_to_receive_window. rewrite Es, Z.eqb_refl, Ep, Ef. cbn [negb].
    fold (open_window t). rewrite Z.min_l by lia.
    replace (open_window t <=? 0) with false by (symmetry; apply Z.leb_gt; lia).
    rewrite andb_false_r. destruct segment. cbn in *. by subst. }
  rewrite B, Tr. unfold take_segment. rewrite Es, Ef, Ea, Ep.
  destruct (update_send_window_sender segment t) as [[U1 U2] U3].
  pose proof (update_send_window_state segment t) as U4.
  set (t1 := update_send_window segment t) in *. set (seg1 := mkSegment _ _ _ _ _).
  rewrite process_ack_quiet;
    [|cbn; by rewrite U2|by rewrite U1, U2|rewrite U4; by destruct Hs as [-> | ->]].
  unfold state_is, peer_receive_closed. rewrite U4, U3.
  rewrite bool_decide_eq_false_2 by (intros C; by rewrite C in Sy).
  replace (match state t with CloseWait | Closing | LastAck | TimeWait => true | _ => false end)
    with false by (by destruct Hs as [-> | ->]).
  change (carries seg1) with true. cbn [andb].
  replace (sequence seg1 =? recv_next t) with true by (symmetry; apply Z.eqb_refl). cbn [negb].
  unfold take_in_order. change (payload_len seg1) with 0.
  change (contains (flags seg1) FIN) with true. change (0 <? 0) with false.
  replace (receive_available t1 <? 0) with false
    by (symmetry; apply Z.ltb_ge; unfold receive_available, usub, wrap64; apply Z.mod_pos_bound; lia).
  cbv iota. unfold take_fin. set (t2 := set_recv_next _ t1).
  assert (F : exists acts3, on_peer_fin t2 [] =
    (set_state (if bool_decide (state t = Established) then CloseWait else TimeWait) t2, acts3)).
  { unfold on_peer_fin. change (state t2) with (state t1). rewrite U4.
    destruct Hs as [-> | ->]; by eexists. }
  destruct F as [acts3 ->]. unfold answer_with, cancel_delayed_ack, same_sender.
  case_bool; do 2 eexists; (split; [reflexivity|]); unfold t2; tcb_goal; by rewrite U1, U2, ?U3.
Qed.

(** ** Closing *)
Lemma close_sends_fin t :
  tcb_wf t -> state t = Established \/ state t = CloseWait ->
  exists t' acts', on_app_event t Close =
      (t', Ok (acts' ++ [Send (control t' (union_flags FIN ACK) (send_next t));
                         ArmRetransmission (rto_ms (rto t'))])) /\
    state t' = (if bool_decide (state t = Established) then FinWait1 else LastAck) /\
    send_unacked t' = send_unacked t /\ send_next t' = seq_add (send_next t) 1 /\
    recv_next t' = recv_next t /\ open_window t' = open_window t.
Proof.
  intros W Hs. unfold on_app_event, state_is.
  rewrite !bool_decide_eq_false_2 by (intros E; destruct Hs; congruence).
  set (s := if bool_decide (state t = Established) then FinWait1 else LastAck).
  assert (Hclose : forall t0, state t0 = state t -> start_close t0 =
    (set_send_next (seq_add (send_next t0) 1) (set_state s t0),
     [Send (control (set_send_next (seq_add (send_next t0) 1) (set_state s t0)) (union_flags FIN ACK) (send_next t0));
      ArmRetransmission (rto_ms (rto t0))])).
  { intros t0 E. unfold start_close, s. rewrite E. by destruct Hs as [-> | ->]. }
  unfold cancel_delayed_ack. destruct (delayed_ack_pending t); rewrite Hclose by done.
  - exists (set_send_next (seq_add (send_next t) 1) (set_state s (set_delayed_ack_pending false t))),
      [DisarmDelayedAck]. done.
  - exists (set_send_next (seq_add (send_next t) 1) (set_state s t)), []. done.
Qed.

(** A control segment is a well-formed segment to its receiver. *)
Lemma wire_ok t shift fl seq : tcb_wf t -> is_seq seq -> 0 <= shift <= 14 ->
  segment_ok (wire shift (control t fl seq)).
Proof.
  intros W Hq Hsh. unfold wire. split; cbn [sequence acknowledgment window payload_len control
    sc_sequence sc_acknowledgment sc_flags sc_window].
  - done.
  - destruct (contains fl ACK); [by destruct W|done].
  - set (w := if contains fl SYN then _ else _).
    assert (Hw : 0 <= w <= 65535).
    { unfold w, advertised_window, u16_max. fold (open_window t). pose proof (open_window_nonneg t).
      assert (0 <= Z.shiftr (open_window t) (receive_window_scale t)) by (by apply Z.shiftr_nonneg).
      destruct (contains fl SYN); lia. }
    rewrite Z.shiftl_mul_pow2 by lia. assert (0 < 2 ^ shift <= 2 ^ 14)
      by (split; [apply Z.pow_pos_nonneg; lia|apply Z.pow_le_mono_r; lia]).
    assert (w * 2 ^ shift <= 65535 * 2 ^ 14) by (apply Z.mul_le_mono_nonneg; lia).
    split; [apply Z.mul_nonneg_nonneg; lia|]. etrans; [done|]. unfold MAX_WINDOW. done.
  - done.
Qed.

(** ** Opening *)
Lemma connect_plain isn capacity mss scale : open_ok isn capacity mss scale ->
  exists t, connect isn capacity mss scale =
      Ok (t, [Send (control t SYN isn); ArmRetransmission (rto_ms (rto t))]) /\
    state t = SynSent /\ send_unacked t = isn /\ send_next t = seq_add isn 1.
Proof.
  intros (_ & _ & Hm & _). unfold connect. destruct (newreno_new_ok mss Hm) as [-> _].
  eexists. split; [reflexivity|]. done.
Qed.

Lemma from_syn_plain segment isn capacity mss scale : open_ok isn capacity mss scale ->
  flags segment = SYN -> payload_len segment = 0 ->
  exists t, from_syn_with_options segment isn capacity mss scale =
      Ok (t, [Send (control t (union_flags SYN ACK) isn); ArmRetransmission (rto_ms (rto t))]) /\
    state t = SynReceived /\ recv_next t = seq_add (sequence segment) 1 /\
    send_unacked t = isn /\ send_next t = seq_add isn 1 /\
    pending_initial_payload_len t = 0 /\ pending_initial_fin t = false /\ active_open t = false.
Proof.
  intros (_ & Hc & Hm & _) Ef Ep. unfold from_syn_with_options. rewrite Ef, Ep.
  change (negb (contains SYN SYN) || contains SYN ACK || contains SYN RST) with false.
  destruct (Z.ltb_spec capacity 0); [lia|]. destruct (newreno_new_ok mss Hm) as [-> _].
  eexists. split; [reflexivity|]. done.
Qed.

(** SYN-SENT takes the SYN-ACK. *)
Lemma syn_ack_taken t segment :
  state t = SynSent -> flags segment = union_flags SYN ACK -> acknowledgment segment = Some (send_next t) ->
  exists t', on_segment t segment = (t', Ok [DisarmRetransmission; Connected; Send (ack t')]) /\
    state t' = Established /\ send_unacked t' = send_next t /\ send_next t' = send_next t /\
    recv_next t' = seq_add (sequence segment) 1.
Proof.
  intros Hs Ef Ea. unfold on_segment, state_is. rewrite Hs. cbn [bool_decide].
  rewrite bool_decide_eq_false_2, bool_decide_eq_true_2 by done.
  unfold on_syn_sent_segment. rewrite Ef, Ea.
  change (contains (union_flags SYN ACK) ACK) with true.
  change (contains (union_flags SYN ACK) RST) with false.
  change (contains (union_flags SYN ACK) SYN) with true. rewrite Z.eqb_refl. cbn [negb].
  eexists. split; [reflexivity|]. done.
Qed.

(** SYN-RECEIVED takes the final ACK. *)
Lemma final_ack_taken t tm segment :
  tcb_wf t -> timers_ok t tm -> segment_ok segment -> state t = SynReceived -> active_open t = false ->
  pending_initial_payload_len t = 0 -> pending_initial_fin t = false ->
  flags segment = ACK -> payload_len segment = 0 -> sequence segment = recv_next t ->
  acknowledgment segment = Some (send_next t) ->
  exists t', on_segment t segment = (t', Ok [Accepted; DisarmRetransmission]) /\
    state t' = Established /\ send_unacked t' = send_next t /\ send_next t' = send_next t /\
    recv_next t' = recv_next t.
Proof.
  intros W T Hseg Hs Hact Hp Hfin Ef Epl Eq Ea. unfold on_segment, state_is. rewrite Hs, Hact.
  rewrite !bool_decide_eq_false_2 by done. cbn [andb]. rewrite Ef. change (contains ACK RST) with false.
  assert (A : accepts_final_ack t segment = true).
  { unfold accepts_final_ack, state_is, ack_is. rewrite Hs, Ef, Ea, Hp, Hfin, Eq, Z.eqb_refl.
    change (uadd 0 (b2z false)) with 0. rewrite seq_add_0, Z.eqb_refl by (by destruct W). done. }
  unfold complete_passive_handshake, state_is. rewrite Hs, A, bool_decide_eq_true_2 by done. cbn [negb].
  destruct (finish_handshake t []) as [t1 acts1] eqn:F.
  destruct (finish_handshake_ok _ _ _ _ _ F W Hs (tracked_start tm t W T)) as (W1 & T1 & _).
  unfold finish_handshake in F. tcb_simpl. rewrite Hp, Hact in F. cbn in F.
  rewrite Hfin in F. simplify_eq.
  cbn [mret outcome_ret].
  destruct (quiet_ack (set_state Established (set_send_unacked (send_next t) t)) segment
              [Accepted; DisarmRetransmission] (origin_of tm t) W1 T1 Hseg Eq Epl Ef Ea eq_refl eq_refl)
    as (t' & E & S & [U1 U2] & N).
  exists t'. split; [exact E|done].
Qed.

(** ** Properties *)

(** C7: the three-way handshake agrees.  For any initial sequence numbers,
    capacities, segment sizes and window scales, the client's SYN is accepted,
    the server's SYN-ACK connects the client, the client's ACK is accepted by
    the server, and both end ESTABLISHED, each expecting exactly what the
    other sends next with nothing in flight. *)
Theorem handshake_agreement (isn_c cap_c mss_c scale_c isn_s cap_s mss_s scale_s shift : Z) :
  open_ok isn_c cap_c mss_c scale_c -> open_ok isn_s cap_s mss_s scale_s -> 0 <= shift <= 14 ->
  exists c syn arm_c s synack arm_s c' ack s',
    connect isn_c cap_c mss_c scale_c = Ok (c, [Send syn; arm_c]) /\
    from_syn_with_options (wire 0 syn) isn_s cap_s mss_s scale_s = Ok (s, [Send synack; arm_s]) /\
    on_segment c (wire 0 synack) = (c', Ok [DisarmRetransmission; Connected; Send ack]) /\
    on_segment s (wire shift ack) = (s', Ok [Accepted; DisarmRetransmission]) /\
    state c' = Established /\ state s' = Established /\
    recv_next c' = send_next s' /\ recv_next s' = send_next c' /\
    in_flight c' = 0 /\ in_flight s' = 0.
Proof.
  intros Oc Os Hsh.
  destruct (connect_plain _ _ _ _ Oc) as (c & Ec & Sc & Uc & Nc).
  destruct (connect_ok _ _ _ _ Oc) as (c0 & acts0 & Ec0 & Wc & Tc). rewrite Ec in Ec0. simplify_eq.
  set (syn := control c0 SYN (send_unacked c0)) in *.
  destruct (from_syn_plain (wire 0 syn) _ _ _ _ Os eq_refl eq_refl)
    as (s & Es & Ss & Rs & Us & Ns & Ps & Fs & As).
  assert (Ksyn : segment_ok (wire 0 syn)) by (apply wire_ok; [done|by destruct Wc|lia]).
  destruct (from_syn_ok _ _ _ _ _ _ _ Es Os Ksyn) as [Ws Ts].
  set (synack := control s (union_flags SYN ACK) isn_s) in *.
  assert (Ksa : segment_ok (wire 0 synack)) by (apply wire_ok; [done|apply Os|lia]).
  destruct (syn_ack_taken c0 (wire 0 synack) Sc eq_refl) as (c' & E1 & S1 & U1 & N1 & R1);
    [cbn; by rewrite Rs, Nc|].
  pose proof (tcb_step_ok _ c0 (OnSegment (wire 0 synack)) Wc Tc Ksa) as P. cbn [tcb_step] in P.
  rewrite E1 in P. destruct P as [W1 _ _ _ _].
  assert (A : acceptable_seq c' = send_next c')
    by (apply acceptable_seq_idle; [by destruct W1|by destruct W1|congruence]).
  destruct (final_ack_taken s _ (wire shift (ack c')) Ws Ts) as (s' & E2 & S2 & U2 & N2 & R2); try done.
  { apply wire_ok; [done|rewrite A; by destruct W1|lia]. }
  { cbn. by rewrite A, N1, Rs, Nc. }
  { cbn. by rewrite R1, Ns. }
  exists c0, syn, (ArmRetransmission (rto_ms (rto c0))), s, synack, (ArmRetransmission (rto_ms (rto s))), c', (ack c'), s'.
  assert (forall t, send_unacked t = send_next t -> in_flight t = 0)
    by (intros t E; unfold in_flight; rewrite E; apply distance_self).
  split_and!; try done; [by rewrite R1, N2, Ns|by rewrite R2, N1, Rs, Nc|auto with congruence..].
Qed.

Lemma handshake_agreement_witness :
  exists c syn arm_c s synack arm_s c' ack s',
    connect 4294967295 65535 1460 7 = Ok (c, [Send syn; arm_c]) /\
    from_syn_with_options (wire 0 syn) 77 100000 1400 2 = Ok (s, [Send synack; arm_s]) /\
    on_segment c (wire 0 synack) = (c', Ok [DisarmRetransmission; Connected; Send ack]) /\
    on_segment s (wire 7 ack) = (s', Ok [Accepted; DisarmRetransmission]) /\
    state c' = Established /\ state s' = Established /\
    recv_next c' = send_next s' /\ recv_next s' = send_next c' /\
    in_flight c' = 0 /\ in_flight s' = 0.
Proof.
  apply (handshake_agreement 4294967295 65535 1460 7 77 100000 1400 2 7);
    [unfold open_ok, is_seq, u64_max; lia..|lia].
Defined.

(** The block after a segment that moves neither RCV.NXT nor the right edge
    inward still has its window. *)
Lemma window_kept tm t e t' acts :
  tcb_wf t -> timers_ok t tm -> event_ok t e -> state t <> SynSent -> tcb_step t e = (t', Ok acts) ->
  recv_next t' = recv_next t -> open_window t <= open_window t'.
Proof.
  intros W T He Hs E N. pose proof (tcb_step_ok tm t e W T He) as P. rewrite E in P.
  destruct P as [_ _ _ _ G]. unfold open_window at 2. rewrite N. by apply G.
Qed.

Lemma elem_of_middle {A} (x : A) l r : x ∈ l ++ x :: r.
Proof. apply elem_of_app. right. apply list_elem_of_here. Qed.

(** ** One direction of a close *)

(** Nothing in flight either way, each side expecting what the other sends. *)
Record matched (x y : TcpTcb) : Prop := {
  ma_idle : send_unacked x = send_next x /\ send_unacked y = send_next y;
  ma_expects : recv_next x = send_next y /\ recv_next y = send_next x
}.

Definition fin_sent (s : TcpState) : TcpState :=
  if bool_decide (s = Established) then FinWait2 else Closed.
Definition fin_received (s : TcpState) : TcpState :=
  if bool_decide (s = Established) then CloseWait else TimeWait.

(** [x] closes, [y] takes and acknowledges the FIN, [x] takes the
    acknowledgment; the two are matched again. *)
Lemma fin_exchange x y tx ty shift_x shift_y :
  reachable x tx -> reachable y ty -> matched x y -> 0 < open_window y ->
  0 <= shift_x <= 14 -> 0 <= shift_y <= 14 ->
  state x = Established \/ state x = CloseWait -> state y = Established \/ state y = FinWait2 ->
  exists x1 acts1 fin y1 acts2 ack x2 acts3 tx2 ty1,
    on_app_event x Close = (x1, Ok acts1) /\ Send fin ∈ acts1 /\
    on_segment y (wire shift_x fin) = (y1, Ok acts2) /\ Send ack ∈ acts2 /\
    on_segment x1 (wire shift_y ack) = (x2, Ok acts3) /\
    state x2 = fin_sent (state x) /\ state y1 = fin_received (state y) /\
    reachable x2 tx2 /\ reachable y1 ty1 /\ matched x2 y1 /\ open_window x <= open_window x2.
Proof.
  intros Rx Ry [[Ux Uy] [Ex Ey]] Oy Hx Hy Sx Sy.
  destruct (reachable_ok x tx Rx) as [Wx Tx]. destruct (reachable_ok y ty Ry) as [Wy Ty].
  destruct (close_sends_fin x Wx Sx) as (x1 & l1 & C1 & S1 & U1 & N1 & R1 & O1).
  pose proof (reach_step x tx (OnApp Close) _ _ Rx I C1) as Rx1.
  destruct (reachable_ok _ _ Rx1) as [Wx1 Tx1].
  set (fin := control x1 (union_flags FIN ACK) (send_next x)) in *.
  assert (Kf : segment_ok (wire shift_x fin)) by (apply wire_ok; [done|by destruct Wx|done]).
  destruct (fin_taken y (wire shift_x fin) Wy Kf) as (y1 & l2 & C2 & S2 & [U2 N2] & R2 & _); try done.
  { cbn. by rewrite R1, Ex. }
  pose proof (reach_step y ty (OnSegment (wire shift_x fin)) _ _ Ry Kf C2) as Ry1.
  destruct (reachable_ok _ _ Ry1) as [Wy1 Ty1].
  assert (A1 : acceptable_seq y1 = send_next y1)
    by (apply acceptable_seq_idle; [by destruct Wy1|by destruct Wy1|congruence]).
  assert (Ka : segment_ok (wire shift_y (ack y1)))
    by (apply wire_ok; [done|rewrite A1; by destruct Wy1|done]).
  assert (Sx1 : state x1 = FinWait1 \/ state x1 = LastAck)
    by (rewrite S1; destruct Sx as [-> | ->]; cbn; auto).
  destruct (fin_acknowledged _ x1 (wire shift_y (ack y1)) Wx1 Tx1 Ka)
    as (x2 & l3 & C3 & S3 & U3 & N3 & R3); try done.
  { cbn. by rewrite A1, N2, R1, Ex. }
  { cbn. by rewrite R2, N1, Ey. }
  pose proof (reach_step x1 _ (OnSegment (wire shift_y (ack y1))) _ _ Rx1 Ka C3) as Rx2.
  assert (O3 : open_window x1 <= open_window x2).
  { apply (window_kept _ x1 (OnSegment (wire shift_y (ack y1))) x2 l3 Wx1 Tx1 Ka); [|done..].
    destruct Sx1 as [-> | ->]; done. }
  exists x1, (l1 ++ [Send fin; ArmRetransmission (rto_ms (rto x1))]), fin, y1, (l2 ++ [Send (ack y1)]),
    (ack y1), x2, l3. do 2 eexists.
  split_and!; try done; try apply elem_of_middle; try lia.
  - rewrite S3, S1. unfold fin_sent. destruct Sx as [-> | ->]; done.
  - split; [split; congruence|]. rewrite R3, R1, N2, R2, Ey, N3, N1. done.
Qed.

(** Two established blocks with nothing in flight, each expecting what the
    other sends next, both windows open. *)
Record in_step (a b : TcpTcb) : Prop := {
  is_states : state a = Established /\ state b = Established;
  is_idle : send_unacked a = send_next a /\ send_unacked b = send_next b;
  is_expects : recv_next a = send_next b /\ recv_next b = send_next a;
  is_open : 0 < open_window a /\ 0 < open_window b
}.


(** C8: the four-way close completes.  When one of two blocks in step closes,
    its FIN, the answering ACK, the other's FIN and the last ACK are each
    accepted, and the exchange ends with the first in TIME-WAIT and the second
    CLOSED. *)
Theorem close_agreement (a b : TcpTcb) (tma tmb : timers) (shift_a shift_b : Z) :
  reachable a tma -> reachable b tmb -> in_step a b ->
  0 <= shift_a <= 14 -> 0 <= shift_b <= 14 ->
  exists a1 acts1 fin_a b1 acts2 ack_b a2 acts3 b2 acts4 fin_b a3 acts5 ack_a b3 acts6,
    on_app_event a Close = (a1, Ok acts1) /\ Send fin_a ∈ acts1 /\
    on_segment b (wire shift_a fin_a) = (b1, Ok acts2) /\ Send ack_b ∈ acts2 /\
    on_segment a1 (wire shift_b ack_b) = (a2, Ok acts3) /\
    on_app_event b1 Close = (b2, Ok acts4) /\ Send fin_b ∈ acts4 /\
    on_segment a2 (wire shift_b fin_b) = (a3, Ok acts5) /\ Send ack_a ∈ acts5 /\
    on_segment b2 (wire shift_a ack_a) = (b3, Ok acts6) /\
    state a3 = TimeWait /\ state b3 = Closed.
Proof.
  intros Ra Rb [[Sa Sb] [Ua Ub] [Ea Eb] [Oa Ob]] Ha Hb.
  destruct (fin_exchange a b tma tmb shift_a shift_b)
    as (a1 & acts1 & fin_a & b1 & acts2 & ack_b & a2 & acts3 & ta2 & tb1 &
        C1 & F1 & C2 & F2 & C3 & S2 & T1 & Ra2 & Rb1 & M & O); try done; [by left|by left|].
  rewrite Sa in S2. rewrite Sb in T1. destruct M as [[M1 M2] [M3 M4]].
  destruct (fin_exchange b1 a2 tb1 ta2 shift_b shift_a)
    as (b2 & acts4 & fin_b & a3 & acts5 & ack_a & b3 & acts6 & tb3 & ta3 &
        C4 & F4 & C5 & F5 & C6 & S3 & T3 & _); try done; [lia|by right|by right|].
  rewrite T1 in S3. rewrite S2 in T3.
  by exists a1, acts1, fin_a, b1, acts2, ack_b, a2, acts3, b2, acts4, fin_b, a3, acts5, ack_a, b3, acts6.
Qed.

(** A client and a server after their handshake. *)
Definition pair_client_syn : TcpTcb :=
  Eval vm_compute in
    match connect 77 65535 1460 0 with Ok (c, _) => c | _ => sample_established end.
Definition pair_syn : SendControl := control pair_client_syn SYN 77.
Definition pair_server_syn : TcpTcb :=
  Eval vm_compute in
    match from_syn_with_options (wire 0 pair_syn) 900 100000 1460 2 with
    | Ok (s, _) => s | _ => sample_established
    end.
Definition pair_syn_ack : TcpSegmentMeta :=
  wire 0 (control pair_server_syn (union_flags SYN ACK) 900).
Definition pair_client : TcpTcb := Eval vm_compute in fst (on_segment pair_client_syn pair_syn_ack).
Definition pair_ack : TcpSegmentMeta := wire 0 (ack pair_client).
Definition pair_server : TcpTcb := Eval vm_compute in fst (on_segment pair_server_syn pair_ack).

Ltac pair_ok := vm_compute; reflexivity.
Ltac pair_segment := apply sample_segment_ok; (vm_compute; split; first [reflexivity|discriminate]).

Lemma pair_client_reachable : reachable pair_client idle.
Proof.
  eapply (reach_by pair_client_syn sample_armed (OnSegment pair_syn_ack));
    [|cbn [event_ok]; pair_segment|pair_ok|pair_ok].
  apply (reach_connect 77 65535 1460 0 pair_client_syn [Send pair_syn; ArmRetransmission 1000]);
    [unfold open_ok, is_seq, u64_max; lia|pair_ok].
Qed.

Lemma pair_server_reachable : reachable pair_server idle.
Proof.
  eapply (reach_by pair_server_syn sample_armed (OnSegment pair_ack));
    [|cbn [event_ok]; pair_segment|pair_ok|pair_ok].
  apply (reach_from_syn (wire 0 pair_syn) 900 100000 1460 2 pair_server_syn
    [Send (control pair_server_syn (union_flags SYN ACK) 900); ArmRetransmission 1000]);
    [unfold open_ok, is_seq, u64_max; lia|pair_segment|pair_ok].
Qed.

Lemma close_agreement_witness :
  exists a1 acts1 fin_a b1 acts2 ack_b a2 acts3 b2 acts4 fin_b a3 acts5 ack_a b3 acts6,
    on_app_event pair_client Close = (a1, Ok acts1) /\ Send fin_a ∈ acts1 /\
    on_segment pair_server (wire 0 fin_a) = (b1, Ok acts2) /\ Send ack_b ∈ acts2 /\
    on_segment a1 (wire 2 ack_b) = (a2, Ok acts3) /\
    on_app_event b1 Close = (b2, Ok acts4) /\ Send fin_b ∈ acts4 /\
    on_segment a2 (wire 2 fin_b) = (a3, Ok acts5) /\ Send ack_a ∈ acts5 /\
    on_segment b2 (wire 0 ack_a) = (b3, Ok acts6) /\
    state a3 = TimeWait /\ state b3 = Closed.
Proof.
  apply (close_agreement pair_client pair_server idle idle 0 2);
    [exact pair_client_reachable|exact pair_server_reachable| |lia|lia].
  split; split; vm_compute; reflexivity.
Defined.
