(* ===== verification/Budget.v ===== *)
(** The resource ledger of [sail-netstack/src/buffer/budget.rs]: budgets and
    their validation, pressure levels, and the lock-free accounting, both as
    one uncontended call and as the atomic steps of many threads. *)
From stdpp Require Import strings relations.
From S2P Require Import Prelude.

(** ** Budgets *)
Record ResourceBudget := mkBudget {
  total_bytes : Z;
  metadata_bytes : Z;
  tcp_payload_bytes : Z;
  packet_bytes : Z;
  control_packet_bytes : Z;
  fragment_bytes : Z;
  max_tcp_flows : Z;
  max_syn_received : Z;
  max_accept_queue : Z;
  max_udp_flows : Z;
  max_fragments : Z;
  max_time_wait : Z;
  max_pmtu_entries : Z
}.

Inductive ResourceKind :=
| MetadataBytes | TcpPayloadBytes | PacketBytes | ControlPacketBytes | FragmentBytes
| TcpFlows | SynReceivedFlows | AcceptQueue | UdpFlows | Fragments | TimeWaitFlows | PmtuEntries.

#[export] Instance ResourceKind_eq_dec : EqDecision ResourceKind.
Proof. solve_decision. Defined.

Definition RESOURCE_KIND_COUNT : Z := 12.

Definition is_bytes (k : ResourceKind) : bool :=
  match k with
  | MetadataBytes | TcpPayloadBytes | PacketBytes | ControlPacketBytes | FragmentBytes => true
  | _ => false
  end.

Definition index (k : ResourceKind) : Z :=
  match k with
  | MetadataBytes => 0 | TcpPayloadBytes => 1 | PacketBytes => 2 | ControlPacketBytes => 3
  | FragmentBytes => 4 | TcpFlows => 5 | SynReceivedFlows => 6 | AcceptQueue => 7 | UdpFlows => 8
  | Fragments => 9 | TimeWaitFlows => 10 | PmtuEntries => 11
  end.

Inductive BudgetError :=
| Invalid (message : string)
| Exhausted (kind : ResourceKind) (requested available : Z).

Definition validate (b : ResourceBudget) : outcome BudgetError ResourceBudget :=
  pools ← ok_or
    (v ← checked_add (metadata_bytes b) (tcp_payload_bytes b);
     v ← checked_add v (packet_bytes b);
     v ← checked_add v (control_packet_bytes b);
     checked_add v (fragment_bytes b))
    (Invalid "byte pool sum overflows usize");
  if (total_bytes b =? 0) || (total_bytes b <? pools)
  then Err (Invalid "byte pools must fit within a non-zero total_bytes")
  else if (max_tcp_flows b =? 0) || (max_udp_flows b =? 0)
  then Err (Invalid "flow limits must be non-zero")
  else if (max_tcp_flows b <? max_syn_received b) || (max_tcp_flows b <? max_accept_queue b)
  then Err (Invalid "TCP sub-state limits must not exceed max_tcp_flows")
  else if (max_fragments b =? 0) || (max_time_wait b =? 0) || (max_pmtu_entries b =? 0)
  then Err (Invalid "fragment, TIME-WAIT, and PMTU limits must be non-zero")
  else mret b.

Definition tcp_receive_ceiling (b : ResourceBudget) : Z := tcp_payload_bytes b / 4 * 3.
Definition tcp_optional_ceiling (b : ResourceBudget) : Z := tcp_payload_bytes b / 2.

Definition limit (b : ResourceBudget) (k : ResourceKind) : Z :=
  match k with
  | MetadataBytes => metadata_bytes b
  | TcpPayloadBytes => tcp_payload_bytes b
  | PacketBytes => packet_bytes b
  | ControlPacketBytes => control_packet_bytes b
  | FragmentBytes => fragment_bytes b
  | TcpFlows => max_tcp_flows b
  | SynReceivedFlows => max_syn_received b
  | AcceptQueue => max_accept_queue b
  | UdpFlows => max_udp_flows b
  | Fragments => max_fragments b
  | TimeWaitFlows => max_time_wait b
  | PmtuEntries => max_pmtu_entries b
  end.

Inductive BudgetProfile := Mobile | Router | Desktop | Server.

Definition KiB : Z := 1024.
Definition MiB : Z := 1024 * 1024.
Definition budget (p : BudgetProfile) : ResourceBudget :=
  match p with
  | Mobile =>
    {| total_bytes := 24 * MiB; metadata_bytes := 4 * MiB; tcp_payload_bytes := 12 * MiB;
       packet_bytes := 6 * MiB - 256 * KiB; control_packet_bytes := 256 * KiB;
       fragment_bytes := 2 * MiB; max_tcp_flows := 4096; max_syn_received := 512;
       max_accept_queue := 512; max_udp_flows := 2048; max_fragments := 256;
       max_time_wait := 8192; max_pmtu_entries := 2048 |}
  | Router =>
    {| total_bytes := 16 * MiB; metadata_bytes := 3 * MiB; tcp_payload_bytes := 8 * MiB;
       packet_bytes := 4 * MiB - 256 * KiB; control_packet_bytes := 256 * KiB;
       fragment_bytes := MiB; max_tcp_flows := 2048; max_syn_received := 256;
       max_accept_queue := 256; max_udp_flows := 1024; max_fragments := 128;
       max_time_wait := 4096; max_pmtu_entries := 1024 |}
  | Desktop =>
    {| total_bytes := 128 * MiB; metadata_bytes := 16 * MiB; tcp_payload_bytes := 72 * MiB;
       packet_bytes := 31 * MiB; control_packet_bytes := MiB;
       fragment_bytes := 8 * MiB; max_tcp_flows := 32768; max_syn_received := 4096;
       max_accept_queue := 4096; max_udp_flows := 16384; max_fragments := 1024;
       max_time_wait := 65536; max_pmtu_entries := 16384 |}
  | Server =>
    {| total_bytes := 1024 * MiB; metadata_bytes := 128 * MiB; tcp_payload_bytes := 640 * MiB;
       packet_bytes := 184 * MiB; control_packet_bytes := 8 * MiB;
       fragment_bytes := 64 * MiB; max_tcp_flows := 262144; max_syn_received := 32768;
       max_accept_queue := 32768; max_udp_flows := 131072; max_fragments := 8192;
       max_time_wait := 524288; max_pmtu_entries := 131072 |}
  end.

(** ** Pressure *)
Inductive PressureLevel := Normal | Constrained | Critical | ExhaustedLevel.

#[export] Instance PressureLevel_eq_dec : EqDecision PressureLevel.
Proof. solve_decision. Defined.

(** The derived [Ord], by order of declaration. *)
Definition level_rank (l : PressureLevel) : Z :=
  match l with Normal => 0 | Constrained => 1 | Critical => 2 | ExhaustedLevel => 3 end.
Definition level_max (a b : PressureLevel) : PressureLevel :=
  if level_rank a <=? level_rank b then b else a.

Definition pressure_level (value limit : Z) : PressureLevel :=
  let value := sat_mul value 1000 in
  if sat_mul limit 1000 <=? value then ExhaustedLevel
  else if sat_mul limit 850 <=? value then Critical
  else if sat_mul limit 700 <=? value then Constrained
  else Normal.

Definition all_kinds : list ResourceKind :=
  [MetadataBytes; TcpPayloadBytes; PacketBytes; ControlPacketBytes; FragmentBytes; TcpFlows;
   SynReceivedFlows; AcceptQueue; UdpFlows; Fragments; TimeWaitFlows; PmtuEntries].

Definition pressure_of (b : ResourceBudget) (total : Z) (used : ResourceKind -> Z)
    (except : option ResourceKind) : PressureLevel :=
  foldl (fun level k =>
           if decide (Some k = except) then level
           else level_max level (pressure_level (used k) (limit b k)))
        (pressure_level total (total_bytes b)) all_kinds.

(** ** The ledger

    The arrays of counters are indexed by [index], which is injective and
    below [RESOURCE_KIND_COUNT], so an array is a function of the kind. *)
Record ResourceLedger := mkLedger {
  l_total : Z;
  l_used : ResourceKind -> Z;
  l_peaks : ResourceKind -> Z;
  l_denied : Z
}.

Definition ledger_new : ResourceLedger := mkLedger 0 (fun _ => 0) (fun _ => 0) 0.

(** [ResourceLedger::new]: the budget, which the operations take as an argument, and
    its counters. *)
Definition ledger_create (budget : ResourceBudget) : outcome BudgetError (ResourceBudget * ResourceLedger) :=
  budget ← validate budget;
  mret (budget, ledger_new).

Definition upd (f : ResourceKind -> Z) (k : ResourceKind) (v : Z) : ResourceKind -> Z :=
  fun k' => if decide (k' = k) then v else f k'.

Definition set_total (v : Z) (l : ResourceLedger) := mkLedger v (l_used l) (l_peaks l) (l_denied l).
Definition set_used (k : ResourceKind) (v : Z) (l : ResourceLedger) :=
  mkLedger (l_total l) (upd (l_used l) k v) (l_peaks l) (l_denied l).
Definition set_peak (k : ResourceKind) (v : Z) (l : ResourceLedger) :=
  mkLedger (l_total l) (l_used l) (upd (l_peaks l) k v) (l_denied l).
Definition set_denied (v : Z) (l : ResourceLedger) :=
  mkLedger (l_total l) (l_used l) (l_peaks l) v.

Definition pressure (b : ResourceBudget) (l : ResourceLedger) : PressureLevel :=
  pressure_of b (l_total l) (l_used l) None.
Definition admission (b : ResourceBudget) (l : ResourceLedger) : PressureLevel :=
  pressure_of b (l_total l) (l_used l) (Some TcpPayloadBytes).

Record BudgetSnapshot := mkSnapshot {
  snap_total : Z;
  snap_used : ResourceKind -> Z;
  snap_peaks : ResourceKind -> Z;
  snap_denied : Z;
  snap_pressure : PressureLevel;
  snap_admission : PressureLevel
}.
Definition snapshot (b : ResourceBudget) (l : ResourceLedger) : BudgetSnapshot :=
  mkSnapshot (l_total l) (l_used l) (l_peaks l) (l_denied l) (pressure b l) (admission b l).

(** The two counters a request passes through, and the limit of each. *)
Inductive counter := CTotal | CPool.
Record request := mkRequest { rq_kind : ResourceKind; rq_amount : Z; rq_ceiling : Z }.

Definition read_counter (l : ResourceLedger) (c : counter) (r : request) : Z :=
  match c with CTotal => l_total l | CPool => l_used l (rq_kind r) end.
Definition write_counter (l : ResourceLedger) (c : counter) (r : request) (v : Z) : ResourceLedger :=
  match c with CTotal => set_total v l | CPool => set_used (rq_kind r) v l end.
Definition counter_limit (b : ResourceBudget) (c : counter) (r : request) : Z :=
  match c with
  | CTotal => total_bytes b
  | CPool => Z.min (limit b (rq_kind r)) (rq_ceiling r)
  end.

(** [current.checked_add(amount)] within the limit. *)
Definition next_value (b : ResourceBudget) (c : counter) (r : request) (current : Z) : option Z :=
  match checked_add current (rq_amount r) with
  | Some next => if counter_limit b c r <? next then None else Some next
  | None => None
  end.

(** The error of a request that does not fit. *)
Definition refusal (b : ResourceBudget) (c : counter) (r : request) (current : Z) : BudgetError :=
  Exhausted (rq_kind r) (rq_amount r) (sat_sub (counter_limit b c r) current).

Definition record_denial (l : ResourceLedger) : ResourceLedger :=
  if l_denied l =? usize_max then l else set_denied (l_denied l + 1) l.

(** [reserve] with no other thread between the load and the exchange. *)
Definition reserve (b : ResourceBudget) (c : counter) (r : request) (l : ResourceLedger)
    : ResourceLedger * outcome BudgetError unit :=
  let current := read_counter l c r in
  match next_value b c r current with
  | Some next => (write_counter l c r next, Ok tt)
  | None => (record_denial l, Err (refusal b c r current))
  end.

Record BudgetLease := mkLease { lease_kind : ResourceKind; lease_amount : Z }.

(** [try_acquire_within]; subtraction is [fetch_sub], which wraps. *)
Definition try_acquire_within (b : ResourceBudget) (r : request) (l : ResourceLedger)
    : ResourceLedger * outcome BudgetError BudgetLease :=
  let k := rq_kind r in
  let pool (l : ResourceLedger) :=
    match reserve b CPool r l with
    | (l, Ok _) =>
      (set_peak k (Z.max (l_peaks l k) (l_used l k)) l, Ok (mkLease k (rq_amount r)))
    | (l, e) =>
      (if is_bytes k then set_total (wrap64 (l_total l - rq_amount r)) l else l,
       (fun _ => mkLease k (rq_amount r)) <$> e)
    end in
  if rq_amount r =? 0 then (l, Ok (mkLease k 0))
  else if is_bytes k then
    match reserve b CTotal r l with
    | (l, Ok _) => pool l
    | (l, e) => (l, (fun _ => mkLease k (rq_amount r)) <$> e)
    end
  else pool l.

Definition try_acquire (b : ResourceBudget) (k : ResourceKind) (amount : Z) (l : ResourceLedger) :=
  try_acquire_within b (mkRequest k amount usize_max) l.

(** Giving [released] back: the pool first, then the total. *)
Definition give_back (k : ResourceKind) (released : Z) (l : ResourceLedger) : ResourceLedger :=
  let l := set_used k (wrap64 (l_used l k - released)) l in
  if is_bytes k then set_total (wrap64 (l_total l - released)) l else l.

(** [shrink_to] and [split_off] assert their bound. *)
Definition shrink_to (amount : Z) (lease : BudgetLease) (l : ResourceLedger)
    : outcome BudgetError (BudgetLease * ResourceLedger) :=
  if lease_amount lease <? amount then Panic
  else
    let released := lease_amount lease - amount in
    if released =? 0 then mret (lease, l)
    else mret (mkLease (lease_kind lease) amount, give_back (lease_kind lease) released l).

Definition split_off (at_ : Z) (lease : BudgetLease) : outcome BudgetError (BudgetLease * BudgetLease) :=
  if lease_amount lease <? at_ then Panic
  else mret (mkLease (lease_kind lease) at_, mkLease (lease_kind lease) (lease_amount lease - at_)).

Definition drop_lease (lease : BudgetLease) (l : ResourceLedger) : ResourceLedger :=
  if lease_amount lease =? 0 then l else give_back (lease_kind lease) (lease_amount lease) l.

(** ** Threads

    Each atomic operation is one step, and steps of different threads
    interleave freely.  A [compare_exchange_weak] may fail spuriously; it then
    reports what it observed.  A refused request carries its error until the call
    returns it. *)
Inductive pc :=
| Idle
| Load (c : counter) (r : request)
| Exchange (c : counter) (r : request) (current : Z)
| DenialLoad (c : counter) (r : request) (e : BudgetError)
| DenialExchange (c : counter) (r : request) (e : BudgetError) (denied : Z)
| Rollback (r : request) (e : BudgetError)
| PeakLoad (r : request)
| PeakMax (r : request) (seen : Z)
| Release (k : ResourceKind) (amount : Z)
| ReleaseTotal (k : ResourceKind) (amount : Z).

Record thread := mkThread { th_pc : pc; th_leases : list BudgetLease }.

(** What follows a refused reservation. *)
Definition after_denial (c : counter) (r : request) (e : BudgetError) : pc :=
  match c with CPool => if is_bytes (rq_kind r) then Rollback r e else Idle | CTotal => Idle end.
(** Whether the call returns then. *)
Definition denial_result (c : counter) (r : request) (e : BudgetError) : option (outcome BudgetError BudgetLease) :=
  match c with CPool => if is_bytes (rq_kind r) then None else Some (Err e) | CTotal => Some (Err e) end.
(** What follows a granted one. *)
Definition after_grant (c : counter) (r : request) : pc :=
  match c with CTotal => Load CPool r | CPool => PeakLoad r end.
Definition first_counter (r : request) : counter :=
  if is_bytes (rq_kind r) then CTotal else CPool.

(** One atomic step of a thread holding [ls], and what a request returns with it. *)
Inductive thread_step (b : ResourceBudget) :
    ResourceLedger -> thread -> option (outcome BudgetError BudgetLease) -> ResourceLedger -> thread -> Prop :=
| step_acquire l ls r :
    is_u64 (rq_amount r) -> rq_amount r <> 0 ->
    thread_step b l (mkThread Idle ls) None l (mkThread (Load (first_counter r) r) ls)
| step_acquire_none l ls r :
    rq_amount r = 0 ->
    thread_step b l (mkThread Idle ls) (Some (Ok (mkLease (rq_kind r) 0))) l (mkThread Idle (mkLease (rq_kind r) 0 :: ls))
| step_load l ls c r :
    thread_step b l (mkThread (Load c r) ls) None l (mkThread (Exchange c r (read_counter l c r)) ls)
| step_refuse l ls c r current :
    next_value b c r current = None ->
    thread_step b l (mkThread (Exchange c r current) ls) None l (mkThread (DenialLoad c r (refusal b c r current)) ls)
| step_exchange l ls c r current next :
    next_value b c r current = Some next -> read_counter l c r = current ->
    thread_step b l (mkThread (Exchange c r current) ls) None
      (write_counter l c r next) (mkThread (after_grant c r) ls)
| step_exchange_fails l ls c r current next :
    next_value b c r current = Some next ->
    thread_step b l (mkThread (Exchange c r current) ls) None
      l (mkThread (Exchange c r (read_counter l c r)) ls)
| step_denial_load l ls c r e :
    thread_step b l (mkThread (DenialLoad c r e) ls) None l (mkThread (DenialExchange c r e (l_denied l)) ls)
| step_denial_full l ls c r e :
    thread_step b l (mkThread (DenialExchange c r e usize_max) ls) (denial_result c r e) l (mkThread (after_denial c r e) ls)
| step_denial l ls c r e :
    l_denied l <> usize_max ->
    thread_step b l (mkThread (DenialExchange c r e (l_denied l)) ls) (denial_result c r e)
      (set_denied (l_denied l + 1) l) (mkThread (after_denial c r e) ls)
| step_denial_fails l ls c r e denied :
    denied <> usize_max ->
    thread_step b l (mkThread (DenialExchange c r e denied) ls) None
      l (mkThread (DenialExchange c r e (l_denied l)) ls)
| step_rollback l ls r e :
    thread_step b l (mkThread (Rollback r e) ls) (Some (Err e))
      (set_total (wrap64 (l_total l - rq_amount r)) l) (mkThread Idle ls)
| step_peak_load l ls r :
    thread_step b l (mkThread (PeakLoad r) ls) None l (mkThread (PeakMax r (l_used l (rq_kind r))) ls)
| step_peak_max l ls r seen :
    thread_step b l (mkThread (PeakMax r seen) ls) (Some (Ok (mkLease (rq_kind r) (rq_amount r))))
      (set_peak (rq_kind r) (Z.max (l_peaks l (rq_kind r)) seen) l)
      (mkThread Idle (mkLease (rq_kind r) (rq_amount r) :: ls))
| step_shrink l ls1 ls2 k amount keep :
    0 <= keep < amount ->
    thread_step b l (mkThread Idle (ls1 ++ mkLease k amount :: ls2)) None
      l (mkThread (Release k (amount - keep)) (ls1 ++ mkLease k keep :: ls2))
| step_split l ls1 ls2 k amount at_ :
    0 <= at_ <= amount ->
    thread_step b l (mkThread Idle (ls1 ++ mkLease k amount :: ls2)) None
      l (mkThread Idle (ls1 ++ mkLease k at_ :: mkLease k (amount - at_) :: ls2))
| step_drop l ls1 ls2 k amount :
    thread_step b l (mkThread Idle (ls1 ++ mkLease k amount :: ls2)) None
      l (mkThread (if amount =? 0 then Idle else Release k amount) (ls1 ++ ls2))
| step_release l ls k amount :
    thread_step b l (mkThread (Release k amount) ls) None
      (set_used k (wrap64 (l_used l k - amount)) l)
      (mkThread (if is_bytes k then ReleaseTotal k amount else Idle) ls)
| step_release_total l ls k amount :
    thread_step b l (mkThread (ReleaseTotal k amount) ls) None
      (set_total (wrap64 (l_total l - amount)) l) (mkThread Idle ls).

(** The ledger shared by any number of threads; a lease may be handed over. *)
Inductive ledger_step (b : ResourceBudget) :
    ResourceLedger * list thread -> ResourceLedger * list thread -> Prop :=
| ledger_thread l ths i th result l' th' :
    ths !! i = Some th -> thread_step b l th result l' th' ->
    ledger_step b (l, ths) (l', <[i := th']> ths)
| ledger_spawn l ths : ledger_step b (l, ths) (l, ths ++ [mkThread Idle []])
| ledger_move l ths i j pi lease li pj lj :
    i <> j -> ths !! i = Some (mkThread pi (lease :: li)) -> ths !! j = Some (mkThread pj lj) ->
    ledger_step b (l, ths) (l, <[j := mkThread pj (lease :: lj)]> (<[i := mkThread pi li]> ths)).

(** ** Accounting *)

(** What a lease and a thread have charged to the total and to pool [k]. *)
Definition lease_total (x : BudgetLease) : Z := if is_bytes (lease_kind x) then lease_amount x else 0.
Definition lease_pool (k : ResourceKind) (x : BudgetLease) : Z :=
  if decide (lease_kind x = k) then lease_amount x else 0.

Definition total_if (k : ResourceKind) (amount : Z) : Z := if is_bytes k then amount else 0.
Definition pool_if (k k' : ResourceKind) (amount : Z) : Z := if decide (k' = k) then amount else 0.

Definition pc_total (p : pc) : Z :=
  match p with
  | Load CPool r | Exchange CPool r _ | DenialLoad CPool r _ | DenialExchange CPool r _ _
  | PeakLoad r | PeakMax r _ => total_if (rq_kind r) (rq_amount r)
  | Rollback r _ => rq_amount r
  | Release k amount => total_if k amount
  | ReleaseTotal _ amount => amount
  | _ => 0
  end.
Definition pc_pool (k : ResourceKind) (p : pc) : Z :=
  match p with
  | PeakLoad r | PeakMax r _ => pool_if k (rq_kind r) (rq_amount r)
  | Release k' amount => pool_if k k' amount
  | _ => 0
  end.

Definition thread_total (th : thread) : Z := pc_total (th_pc th) + zsum lease_total (th_leases th).
Definition thread_pool (k : ResourceKind) (th : thread) : Z :=
  pc_pool k (th_pc th) + zsum (lease_pool k) (th_leases th).

(** A request in progress is one the code can have: a non-zero [usize]
    amount, and the total counter only for byte kinds. *)
Definition pc_ok (p : pc) : Prop :=
  match p with
  | Idle => True
  | Load c r | Exchange c r _ | DenialLoad c r _ | DenialExchange c r _ _ =>
      0 < rq_amount r /\ (c = CTotal -> is_bytes (rq_kind r) = true)
  | Rollback r _ => 0 < rq_amount r /\ is_bytes (rq_kind r) = true
  | PeakLoad r | PeakMax r _ => 0 < rq_amount r
  | Release _ amount => 0 < amount
  | ReleaseTotal k amount => 0 < amount /\ is_bytes k = true
  end.
(** A value read for an exchange was a counter's, so it is not negative. *)
Definition read_ok (p : pc) : Prop := match p with Exchange _ _ current => 0 <= current | _ => True end.

Definition thread_ok (th : thread) : Prop :=
  pc_ok (th_pc th) /\ read_ok (th_pc th) /\ Forall (fun x => 0 <= lease_amount x) (th_leases th).

(** The ledger's counters are exactly what the threads hold, and no counter
    is ever above its limit. *)
Record ledger_ok (b : ResourceBudget) (l : ResourceLedger) (ths : list thread) : Prop := {
  lo_threads : Forall thread_ok ths;
  lo_total : l_total l = zsum thread_total ths;
  lo_used : forall k, l_used l k = zsum (thread_pool k) ths;
  lo_total_max : l_total l <= total_bytes b;
  lo_used_max : forall k, l_used l k <= limit b k
}.

(** Budgets hold [usize] values. *)
Record budget_range (b : ResourceBudget) : Prop := {
  br_total : 0 <= total_bytes b <= u64_max;
  br_limit : forall k, 0 <= limit b k <= u64_max
}.

(** ** Lemmas *)
Lemma upd_same f k v : upd f k v k = v.
Proof. unfold upd. by rewrite decide_True. Qed.
Lemma upd_other f k k' v : k' <> k -> upd f k v k' = f k'.
Proof. intros H. unfold upd. by rewrite decide_False. Qed.

Lemma next_value_some b c r current next :
  next_value b c r current = Some next ->
  next = current + rq_amount r /\ next <= counter_limit b c r.
Proof.
  unfold next_value, checked_add. case_bool; [|done]. case_bool; [done|]. intros; simplify_eq. lia.
Qed.

Lemma lease_total_nonneg x : 0 <= lease_amount x -> 0 <= lease_total x.
Proof. unfold lease_total. by case_bool. Qed.
Lemma lease_pool_nonneg k x : 0 <= lease_amount x -> 0 <= lease_pool k x.
Proof. unfold lease_pool. by case_decide. Qed.

Lemma lease_total_mk k a : lease_total (mkLease k a) = total_if k a.
Proof. done. Qed.
Lemma lease_pool_mk k k' a : lease_pool k (mkLease k' a) = pool_if k k' a.
Proof. done. Qed.

(** Equality of what two threads have charged. *)
Ltac charges :=
  unfold thread_total, thread_pool; cbn [th_pc th_leases];
  rewrite ?zsum_app, ?zsum_cons, ?lease_total_mk, ?lease_pool_mk;
  cbn [pc_total pc_pool after_denial]; unfold total_if, pool_if;
  repeat first [case_decide | case_bool]; cbn [pc_total pc_pool];
  unfold total_if, pool_if; repeat first [case_decide | case_bool]; first [done | congruence | lia].

Lemma leases_total_nonneg ls :
  Forall (fun x => 0 <= lease_amount x) ls -> 0 <= zsum lease_total ls.
Proof. intros L. apply zsum_nonneg. induction L; constructor; auto using lease_total_nonneg. Qed.
Lemma leases_pool_nonneg k ls :
  Forall (fun x => 0 <= lease_amount x) ls -> 0 <= zsum (lease_pool k) ls.
Proof. intros L. apply zsum_nonneg. induction L; constructor; auto using lease_pool_nonneg. Qed.

Lemma thread_total_nonneg th : thread_ok th -> 0 <= thread_total th.
Proof.
  intros (P & _ & L). unfold thread_total.
  pose proof (leases_total_nonneg _ L).
  assert (0 <= pc_total (th_pc th)); [|lia].
  destruct (th_pc th) as [|[] r|[] r ?|[] r ?|[] r ? ?|r ?|r|r ?|k a|k a]; cbn in *; unfold total_if;
    try case_bool; lia.
Qed.

Lemma thread_pool_nonneg k th : thread_ok th -> 0 <= thread_pool k th.
Proof.
  intros (P & _ & L). unfold thread_pool.
  pose proof (leases_pool_nonneg k _ L).
  assert (0 <= pc_pool k (th_pc th)); [|lia].
  destruct (th_pc th); cbn in *; unfold pool_if; try case_decide; lia.
Qed.

(** The bookkeeping of one thread against what the others hold. *)
Record balanced (b : ResourceBudget) (rest_total : Z) (rest_pool : ResourceKind -> Z)
    (l : ResourceLedger) (th : thread) : Prop := {
  ba_thread : thread_ok th;
  ba_total : l_total l = thread_total th + rest_total;
  ba_pool : forall k, l_used l k = thread_pool k th + rest_pool k;
  ba_total_max : l_total l <= total_bytes b;
  ba_pool_max : forall k, l_used l k <= limit b k
}.

Section ThreadSteps.
Context (b : ResourceBudget) (Hb : budget_range b).
Context (rest_total : Z) (rest_pool : ResourceKind -> Z).
Hypothesis rest_total_nonneg : 0 <= rest_total.
Hypothesis rest_pool_nonneg : forall k, 0 <= rest_pool k.
Abbreviation bal := (balanced b rest_total rest_pool).

(** Only the program counter and leases moved, with the same charges. *)
Lemma bal_same l th th' :
  bal l th -> thread_ok th' -> thread_total th' = thread_total th ->
  (forall k, thread_pool k th' = thread_pool k th) -> bal l th'.
Proof. intros [] Hok Ht Hp. split; try done; [by rewrite Ht|]. intros k. by rewrite Hp. Qed.

Lemma bal_grant l ls c r next current :
  bal l (mkThread (Exchange c r current) ls) ->
  next_value b c r current = Some next -> read_counter l c r = current ->
  bal (write_counter l c r next) (mkThread (after_grant c r) ls).
Proof.
  intros [[P [_ L]] T U Tm Um] E R. apply next_value_some in E as [-> Hl]. cbn in P.
  destruct c; cbn [read_counter write_counter after_grant counter_limit] in *; subst current.
  - split; cbn [l_total l_used set_total th_pc th_leases]; try done; [split; [|split]; try done; cbn; tauto|].
    unfold thread_total in *. cbn in *. unfold total_if. destruct P as [P1 P2]. rewrite (P2 eq_refl). lia.
  - split; cbn [l_total l_used set_used th_pc th_leases]; try done; [split; [|split]; try done; cbn; tauto| |].
    + intros k. unfold thread_pool in *. cbn. unfold pool_if. case_decide as D.
      * subst k. rewrite upd_same, U. cbn. lia.
      * rewrite upd_other by congruence. rewrite U. cbn. lia.
    + intros k. destruct (decide (k = rq_kind r)) as [->|N]; [rewrite upd_same; lia|by rewrite upd_other].
Qed.

(** A subtraction from the total never goes below zero. *)
Lemma bal_sub_total l ls p amount :
  bal l (mkThread p ls) -> pc_total p = amount -> 0 <= amount -> (forall k, pc_pool k p = 0) ->
  bal (set_total (wrap64 (l_total l - amount)) l) (mkThread Idle ls).
Proof.
  intros [[P [_ L]] T U Tm Um] Ea Ha Ep. pose proof (br_total b Hb).
  pose proof (leases_total_nonneg _ L).
  unfold thread_total, thread_pool in *. cbn [th_pc th_leases] in *.
  split; cbn [l_total l_used set_total]; try done.
  - rewrite wrap64_small by lia. unfold thread_total. cbn [th_pc th_leases pc_total]. lia.
  - intros k. rewrite U, Ep. done.
  - rewrite wrap64_small by lia. lia.
Qed.

Lemma bal_release l ls k amount :
  bal l (mkThread (Release k amount) ls) ->
  bal (set_used k (wrap64 (l_used l k - amount)) l)
      (mkThread (if is_bytes k then ReleaseTotal k amount else Idle) ls).
Proof.
  intros [[P [_ L]] T U Tm Um]. cbn in P.
  assert (S : forall k, 0 <= zsum (lease_pool k) ls) by (intros; by apply leases_pool_nonneg).
  assert (W : wrap64 (l_used l k - amount) = l_used l k - amount).
  { apply wrap64_small. pose proof (Um k). pose proof (br_limit b Hb k).
    rewrite (U k) in *. unfold thread_pool in *. cbn in *. unfold pool_if in *. rewrite decide_True in * by done.
    specialize (S k). specialize (rest_pool_nonneg k). lia. }
  rewrite W. split; cbn [l_total l_used set_used].
  - destruct (is_bytes k) eqn:B; by split.
  - rewrite T. unfold thread_total. cbn. unfold total_if. by destruct (is_bytes k).
  - intros k'. assert (Q : pc_pool k' (if is_bytes k then ReleaseTotal k amount else Idle) = 0)
      by (by destruct (is_bytes k)).
    unfold thread_pool in *. cbn [th_pc th_leases] in *. rewrite Q.
    destruct (decide (k' = k)) as [->|N].
    + rewrite upd_same, U. cbn. unfold pool_if. rewrite decide_True by done. lia.
    + rewrite upd_other by done. rewrite U. cbn. unfold pool_if. rewrite decide_False by congruence. lia.
  - done.
  - intros k'. destruct (decide (k' = k)) as [->|N]; [rewrite upd_same|by rewrite upd_other].
    specialize (Um k). lia.
Qed.

Lemma thread_step_balanced l th result l' th' : thread_step b l th result l' th' -> bal l th -> bal l' th'.
Proof.
  intros St Hbal. pose proof Hbal as [[P [Q L]] T U Tm Um].
  assert (N : forall c r, 0 <= read_counter l c r).
  { intros [] r; cbn.
    - rewrite T. pose proof (thread_total_nonneg th (conj P (conj Q L))). lia.
    - rewrite U. pose proof (thread_pool_nonneg (rq_kind r) th (conj P (conj Q L))).
      specialize (rest_pool_nonneg (rq_kind r)). lia. }
  assert (D : forall c r e ls, pc_ok (DenialLoad c r e) -> thread_ok (mkThread Idle ls) ->
    bal l (mkThread (DenialLoad c r e) ls) -> bal l (mkThread (after_denial c r e) ls)).
  { intros c r e ls P0 (_ & _ & L0) H0. apply (bal_same _ _ _ H0); destruct c; try done; try charges.
    destruct P0 as [P0 _]. split; [|split; [|done]]; cbn; by destruct (is_bytes (rq_kind r)) eqn:B; cbn. }
  destruct St; cbn [th_pc th_leases] in *.
  - apply (bal_same _ _ _ Hbal); [split; [|by split]| |]; unfold first_counter;
      destruct (is_bytes (rq_kind r)) eqn:B; try (intros; charges); try charges;
      cbn; unfold is_u64 in *; split; try done; lia.
  - apply (bal_same _ _ _ Hbal); [split; [done|split; [done|by constructor]]| |]; intros; charges.
  - apply (bal_same _ _ _ Hbal); [split; [done|split; [apply N|done]]| |]; by destruct c.
  - apply (bal_same _ _ _ Hbal); [by split|by destruct c|done].
  - by eapply bal_grant.
  - apply (bal_same _ _ _ Hbal); [split; [done|split; [apply N|done]]|by destruct c|done].
  - apply (bal_same _ _ _ Hbal); [by split|by destruct c|done].
  - by apply D.
  - assert (bal l (mkThread (after_denial c r e) ls)) as []; [|by split].
    by apply D.
  - apply (bal_same _ _ _ Hbal); [by split|by destruct c|done].
  - cbn in P. eapply bal_sub_total; [done|done|lia|done].
  - by apply (bal_same _ _ _ Hbal).
  - assert (bal l (mkThread Idle (mkLease (rq_kind r) (rq_amount r) :: ls))) as []; [|by split].
    apply (bal_same _ _ _ Hbal); [split; [done|split; [done|]]| |]; try (intros; charges).
    constructor; [cbn in *; lia|done].
  - apply Forall_app in L as [L1 L2]. inversion L2; subst.
    apply (bal_same _ _ _ Hbal); [split; [cbn; lia|split; [done|]]| |]; try (intros; charges).
    apply Forall_app. split; [done|]. constructor; [cbn; lia|done].
  - apply Forall_app in L as [L1 L2]. inversion L2; subst.
    apply (bal_same _ _ _ Hbal); [split; [done|split; [done|]]| |]; try (intros; charges).
    apply Forall_app. split; [done|]. constructor; [cbn; lia|]. constructor; [cbn; lia|done].
  - apply Forall_app in L as [L1 L2]. inversion L2 as [|x ? Hx ?]; subst. cbn in Hx.
    apply (bal_same _ _ _ Hbal); [split; [|split; [by case_bool|by apply Forall_app]]| |];
      try (intros; charges). cbn. case_bool; [done|cbn; lia].
  - by apply bal_release.
  - cbn in P. eapply bal_sub_total; [done|done|lia|done].
Qed.
End ThreadSteps.

(** ** Interleavings *)
Lemma others_balanced b l ths i th :
  ledger_ok b l ths -> ths !! i = Some th ->
  balanced b (zsum thread_total ths - thread_total th)
    (fun k => zsum (thread_pool k) ths - thread_pool k th) l th.
Proof.
  intros [F T U Tm Um] E. split; try done; [|lia|intros k; rewrite U; lia].
  by eapply Forall_lookup_1 in F.
Qed.

Lemma threads_nonneg ths : Forall thread_ok ths ->
  Forall (fun th => 0 <= thread_total th) ths /\ forall k, Forall (fun th => 0 <= thread_pool k th) ths.
Proof.
  intros F. split; [|intros k]; induction F; constructor; auto using thread_total_nonneg, thread_pool_nonneg.
Qed.

Lemma ledger_step_ok b s s' : budget_range b -> ledger_step b s s' ->
  ledger_ok b (fst s) (snd s) -> ledger_ok b (fst s') (snd s').
Proof.
  intros Hb St H. destruct St as [l ths i th result l' th' E St|l ths|l ths i j pi lease li pj lj Hij Ei Ej]; cbn in *.
  - pose proof (others_balanced b l ths i th H E) as B. destruct H as [F T U Tm Um].
    destruct (threads_nonneg ths F) as [Nt Np].
    pose proof (zsum_lookup_le thread_total ths i th Nt E) as Lt.
    assert (Lp : forall k, thread_pool k th <= zsum (thread_pool k) ths)
      by (intros k; by apply (zsum_lookup_le (thread_pool k) ths i)).
    eapply thread_step_balanced in B; [|done|lia|intros k; specialize (Lp k); lia|done].
    destruct B as [Ok' T' U' Tm' Um']. split; try done.
    + by apply Forall_insert.
    + rewrite (zsum_insert _ _ _ th) by done. lia.
    + intros k. rewrite (zsum_insert _ _ _ th) by done. rewrite U'. lia.
  - destruct H as [F T U Tm Um]. split; try done.
    + apply Forall_app. split; [done|]. constructor; [by repeat split|done].
    + rewrite zsum_app, T. by rewrite Z.add_0_r.
    + intros k. rewrite zsum_app, U. by rewrite Z.add_0_r.
  - destruct H as [F T U Tm Um].
    pose proof (Forall_lookup_1 _ _ _ _ F Ei) as (P1 & Q1 & L1). cbn in *. inversion L1; subst.
    pose proof (Forall_lookup_1 _ _ _ _ F Ej) as (P2 & Q2 & L2). cbn in *.
    assert (Ej' : <[i := mkThread pi li]> ths !! j = Some (mkThread pj lj))
      by (by rewrite list_lookup_insert_ne).
    split; try done.
    + apply Forall_insert; [by apply Forall_insert|]. split; [done|]. split; [done|]. by constructor.
    + rewrite (zsum_insert _ _ _ _ _ Ej'), (zsum_insert _ _ _ _ _ Ei), T. charges.
    + intros k. rewrite (zsum_insert _ _ _ _ _ Ej'), (zsum_insert _ _ _ _ _ Ei), U. charges.
Qed.

(** A thread run alone, one atomic step after another, and what its requests
    return. *)
Inductive alone (b : ResourceBudget) :
    ResourceLedger * thread -> list (outcome BudgetError BudgetLease) -> ResourceLedger * thread -> Prop :=
| alone_done s : alone b s [] s
| alone_silent l th l1 th1 rs s : thread_step b l th None l1 th1 -> alone b (l1, th1) rs s -> alone b (l, th) rs s
| alone_returns l th result l1 th1 rs s :
    thread_step b l th (Some result) l1 th1 -> alone b (l1, th1) rs s -> alone b (l, th) (result :: rs) s.

Lemma alone_step b l th o l1 th1 rs s : thread_step b l th o l1 th1 -> alone b (l1, th1) rs s ->
  alone b (l, th) (option_list o ++ rs) s.
Proof. destruct o; [apply alone_returns|apply alone_silent]. Qed.

Lemma alone_trans b s1 s2 s3 rs rs' : alone b s1 rs s2 -> alone b s2 rs' s3 -> alone b s1 (rs ++ rs') s3.
Proof. induction 1; intros; cbn; [done|eapply alone_silent|eapply alone_returns]; eauto. Qed.

(** Counting a denial is what the load and an exchange that succeeds do. *)
Lemma alone_refuse b l ls c r current : next_value b c r current = None ->
  alone b (l, mkThread (Exchange c r current) ls) (option_list (denial_result c r (refusal b c r current)))
    (record_denial l, mkThread (after_denial c r (refusal b c r current)) ls).
Proof.
  intros E. eapply alone_silent; [by apply step_refuse|]. eapply alone_silent; [apply step_denial_load|].
  rewrite <- (app_nil_r (option_list _)). unfold record_denial. destruct (Z.eqb_spec (l_denied l) usize_max) as [D|D].
  - rewrite D. eapply alone_step; [apply step_denial_full|apply alone_done].
  - eapply alone_step; [by apply step_denial|apply alone_done].
Qed.

(** [reserve] is what the load, the check and an exchange that succeeds do. *)
Lemma alone_reserve b l ls c r :
  match reserve b c r l with
  | (l', Ok _) => alone b (l, mkThread (Load c r) ls) [] (l', mkThread (after_grant c r) ls)
  | (l', Err e) => alone b (l, mkThread (Load c r) ls) (option_list (denial_result c r e)) (l', mkThread (after_denial c r e) ls)
  | _ => False
  end.
Proof.
  unfold reserve. destruct (next_value b c r (read_counter l c r)) as [next|] eqn:E.
  - eapply alone_silent; [apply step_load|]. eapply alone_silent; [by apply step_exchange|apply alone_done].
  - eapply alone_silent; [apply step_load|]. by apply alone_refuse.
Qed.

Lemma alone_pool b l ls r :
  match reserve b CPool r l with
  | (l1, Ok _) =>
    alone b (l, mkThread (Load CPool r) ls) [Ok (mkLease (rq_kind r) (rq_amount r))]
      (set_peak (rq_kind r) (Z.max (l_peaks l1 (rq_kind r)) (l_used l1 (rq_kind r))) l1,
       mkThread Idle (mkLease (rq_kind r) (rq_amount r) :: ls))
  | (l1, Err e) =>
    alone b (l, mkThread (Load CPool r) ls) [Err e]
      (if is_bytes (rq_kind r) then set_total (wrap64 (l_total l1 - rq_amount r)) l1 else l1,
       mkThread Idle ls)
  | _ => False
  end.
Proof.
  pose proof (alone_reserve b l ls CPool r) as H. destruct (reserve b CPool r l) as [l1 [u|e| |]]; try done;
    cbn [after_grant after_denial denial_result] in H.
  - apply (alone_trans _ _ _ _ _ _ H). eapply alone_silent; [apply step_peak_load|].
    eapply alone_returns; [apply step_peak_max|apply alone_done].
  - destruct (is_bytes _); [|exact H]. apply (alone_trans _ _ _ _ _ _ H). eapply alone_returns; [apply step_rollback|apply alone_done].
Qed.

(** What follows the reservation of the total. *)
Lemma alone_acquires b r l ls l0 : alone b (l, mkThread Idle ls) [] (l0, mkThread (Load CPool r) ls) ->
  match match reserve b CPool r l0 with
        | (l1, Ok _) => (set_peak (rq_kind r) (Z.max (l_peaks l1 (rq_kind r)) (l_used l1 (rq_kind r))) l1,
                         Ok (mkLease (rq_kind r) (rq_amount r)))
        | (l1, e) => (if is_bytes (rq_kind r) then set_total (wrap64 (l_total l1 - rq_amount r)) l1 else l1,
                      (fun _ => mkLease (rq_kind r) (rq_amount r)) <$> e)
        end with
  | (l', Ok lease) => alone b (l, mkThread Idle ls) [Ok lease] (l', mkThread Idle (lease :: ls))
  | (l', Err e) => alone b (l, mkThread Idle ls) [Err e] (l', mkThread Idle ls)
  | _ => False
  end.
Proof.
  intros A. pose proof (alone_pool b l0 ls r) as P.
  destruct (reserve b CPool r l0) as [l1 [u|e| |]]; try done; exact (alone_trans _ _ _ _ _ _ A P).
Qed.

(** ** Properties *)

(** C16: the ledger never overcommits.  However the atomic steps of any number
    of threads interleave (stale reads, failed exchanges, hand-overs of leases
    and refusals rolled back included), each counter is exactly the sum of
    what the threads hold or are still giving back, and neither the global
    ceiling nor a pool's ever is exceeded. *)
Theorem ledger_never_overcommits (b : ResourceBudget) (l : ResourceLedger) (ths : list thread) :
  budget_range b -> rtc (ledger_step b) (ledger_new, []) (l, ths) -> ledger_ok b l ths.
Proof.
  intros Hb R.
  assert (H0 : ledger_ok b (fst (ledger_new, @nil thread)) (snd (ledger_new, @nil thread))).
  { destruct Hb. split; try done; cbn; [lia|intros k; apply br_limit0]. }
  change (ledger_ok b (fst (l, ths)) (snd (l, ths))). revert H0.
  induction R as [s|s s1 s2 St R IH]; intros H; [done|]. apply IH. by eapply ledger_step_ok.
Qed.

Definition tight_budget : ResourceBudget := mkBudget 100 0 100 0 0 0 4 4 4 4 1 1 1.

Lemma tight_budget_range : budget_range tight_budget.
Proof. split; [cbn; unfold u64_max; lia|]. intros []; cbn; unfold u64_max; lia. Qed.

Lemma ledger_never_overcommits_witness :
  exists l ths, ledger_ok tight_budget l ths /\ l_total l = 60.
Proof.
  pose (r := mkRequest TcpPayloadBytes 60 u64_max).
  assert (R : exists l ths, rtc (ledger_step tight_budget) (ledger_new, []) (l, ths) /\ l_total l = 60).
  { do 2 eexists. split.
    - eapply rtc_l; [apply ledger_spawn|].
      eapply rtc_l; [eapply (ledger_thread _ _ _ 0 (mkThread Idle [])); [reflexivity|]|].
      { apply (step_acquire _ _ _ r); cbn; unfold is_u64; lia. }
      eapply rtc_l; [eapply (ledger_thread _ _ _ 0); [reflexivity|apply step_load]|].
      eapply rtc_l; [eapply (ledger_thread _ _ _ 0); [reflexivity|]|apply rtc_refl].
      apply step_exchange with (next := 60); reflexivity.
    - reflexivity. }
  destruct R as (l & ths & R & E). exists l, ths. split; [|exact E].
  apply (ledger_never_overcommits tight_budget l ths tight_budget_range R).
Defined.

(** C17: [try_acquire_within] is its atomic steps.  An uncontended call, as the
    function describes it, is a run of the thread's atomic steps from idle to idle
    that returns once, the same lease or the same error (kind, amount and what was
    available), leaves the same ledger and, exactly when it succeeds, the new
    lease. *)
Theorem acquire_refines_steps (b : ResourceBudget) (r : request) (l : ResourceLedger)
    (ls : list BudgetLease) :
  is_u64 (rq_amount r) ->
  match try_acquire_within b r l with
  | (l', Ok lease) => alone b (l, mkThread Idle ls) [Ok lease] (l', mkThread Idle (lease :: ls))
  | (l', Err e) => alone b (l, mkThread Idle ls) [Err e] (l', mkThread Idle ls)
  | _ => False
  end.
Proof.
  intros Hu. unfold try_acquire_within. destruct (Z.eqb_spec (rq_amount r) 0) as [Z0|Z0].
  { eapply alone_returns; [by apply step_acquire_none|apply alone_done]. }
  assert (start : forall rs s, alone b (l, mkThread (Load (first_counter r) r) ls) rs s -> alone b (l, mkThread Idle ls) rs s)
    by (intros rs s; apply alone_silent; by apply step_acquire).
  unfold first_counter in start. destruct (is_bytes (rq_kind r)) eqn:B.
  - pose proof (alone_reserve b l ls CTotal r) as P. destruct (reserve b CTotal r l) as [l1 [u|e| |]]; try done.
    + pose proof (alone_acquires b r l ls l1 (start _ _ P)) as A. by rewrite B in A.
    + by apply start.
  - pose proof (alone_acquires b r l ls l (start _ _ (alone_done _ _))) as A. by rewrite B in A.
Qed.

(** Sixty bytes do not fit under a ceiling of fifty: the total is taken and given
    back. *)
Lemma acquire_refines_steps_witness :
  alone tight_budget (ledger_new, mkThread Idle []) [Err (Exhausted TcpPayloadBytes 60 50)]
    ((try_acquire_within tight_budget (mkRequest TcpPayloadBytes 60 50) ledger_new).1, mkThread Idle []).
Proof.
  pose proof (acquire_refines_steps tight_budget (mkRequest TcpPayloadBytes 60 50) ledger_new []) as A.
  apply A. cbn. unfold is_u64. lia.
Defined.

(** The counters of a ledger in range. *)
Definition counters_ok (b : ResourceBudget) (l : ResourceLedger) : Prop :=
  0 <= l_total l <= total_bytes b /\ forall k, 0 <= l_used l k <= limit b k.

(** Whether a request fits what is left. *)
Definition fits (b : ResourceBudget) (r : request) (l : ResourceLedger) : Prop :=
  (is_bytes (rq_kind r) = true -> l_total l + rq_amount r <= total_bytes b) /\
  l_used l (rq_kind r) + rq_amount r <= Z.min (limit b (rq_kind r)) (rq_ceiling r).

Definition charged (l l' : ResourceLedger) (k : ResourceKind) (amount : Z) : Prop :=
  l_total l' = l_total l + total_if k amount /\ (forall k', l_used l' k' = l_used l k' + pool_if k' k amount).

Lemma next_value_none b c r current : budget_range b ->
  next_value b c r current = None -> counter_limit b c r < current + rq_amount r.
Proof.
  intros [Ht Hl] E. unfold next_value, checked_add in E.
  destruct (Z.leb_spec (current + rq_amount r) u64_max).
  - by destruct (Z.ltb_spec (counter_limit b c r) (current + rq_amount r)).
  - destruct c; cbn; [lia|]. specialize (Hl (rq_kind r)). lia.
Qed.

Lemma reserve_cases b c r l : budget_range b ->
  (exists next, next = read_counter l c r + rq_amount r /\ next <= counter_limit b c r /\
     reserve b c r l = (write_counter l c r next, Ok tt)) \/
  (counter_limit b c r < read_counter l c r + rq_amount r /\
     reserve b c r l = (record_denial l,
       Err (Exhausted (rq_kind r) (rq_amount r) (sat_sub (counter_limit b c r) (read_counter l c r))))).
Proof.
  intros Hb. unfold reserve. destruct (next_value b c r _) as [next|] eqn:E.
  - left. apply next_value_some in E as [-> H]. by eauto.
  - right. apply next_value_none in E; [|done]. done.
Qed.

Lemma record_denial_counters l : l_total (record_denial l) = l_total l /\ l_used (record_denial l) = l_used l.
Proof. unfold record_denial. by destruct (_ =? _). Qed.

Lemma charged_none l l' k : l_total l' = l_total l -> l_used l' = l_used l -> charged l l' k 0.
Proof.
  intros E1 E2. unfold charged, total_if, pool_if. rewrite E1, E2. split; [by destruct (is_bytes k); lia|].
  intros k'. case_decide; lia.
Qed.

(** The pool's half of an acquisition, the total already charged for bytes. *)
Lemma acquire_pool b k amount ceiling l l0 :
  budget_range b -> counters_ok b l -> 0 < amount <= u64_max ->
  l_total l0 = l_total l + total_if k amount -> l_used l0 = l_used l ->
  l_total l0 <= total_bytes b ->
  match match reserve b CPool (mkRequest k amount ceiling) l0 with
        | (l1, Ok _) => (set_peak k (Z.max (l_peaks l1 k) (l_used l1 k)) l1, Ok (mkLease k amount))
        | (l1, e) => (if is_bytes k then set_total (wrap64 (l_total l1 - amount)) l1 else l1,
                      (fun _ => mkLease k amount) <$> e)
        end with
  | (l', Ok lease) =>
      ((is_bytes k = true -> l_total l + amount <= total_bytes b) /\
       l_used l k + amount <= Z.min (limit b k) ceiling) /\
      lease = mkLease k amount /\ charged l l' k amount /\ counters_ok b l'
  | (l', Err e) =>
      ~ ((is_bytes k = true -> l_total l + amount <= total_bytes b) /\
         l_used l k + amount <= Z.min (limit b k) ceiling) /\
      charged l l' k 0 /\ exists available, e = Exhausted k amount available /\ 0 <= available
  | _ => False
  end.
Proof.
  intros Hb [Ct Cu] Ha E1 E2 E3. pose proof (br_total b Hb) as Bt.
  assert (Sat : forall x y, 0 <= sat_sub x y) by (unfold sat_sub; lia).
  unfold total_if in E1.
  destruct (reserve_cases b CPool (mkRequest k amount ceiling) l0 Hb) as [(next & -> & Hn & ->)|[Hn ->]];
    cbn in Hn; rewrite E2 in Hn.
  - split; [split; [intros B; rewrite B in E1; lia|exact Hn]|]. split; [done|]. split.
    + split; [exact E1|]. intros k'. cbn. rewrite E2. unfold upd, pool_if.
      repeat case_decide; subst; try lia; congruence.
    + split; [cbn; destruct (is_bytes k); lia|]. intros k'. cbn. rewrite E2. specialize (Cu k') as Cu'.
      destruct (decide (k' = k)) as [->|N]; [rewrite upd_same; lia|by rewrite upd_other].
  - cbn. split; [intros [_ F]; lia|]. split; [|by eauto].
    destruct (record_denial_counters l0) as [D1 D2]. apply charged_none.
    + destruct (is_bytes k); cbn; rewrite ?D1; [rewrite wrap64_small; lia|lia].
    + destruct (is_bytes k); cbn; by rewrite ?D2.
Qed.

Lemma acquire_spec (b : ResourceBudget) (r : request) (l : ResourceLedger) :
  budget_range b -> counters_ok b l -> 0 < rq_amount r <= u64_max ->
  match try_acquire_within b r l with
  | (l', Ok lease) => fits b r l /\ lease = mkLease (rq_kind r) (rq_amount r) /\
      charged l l' (rq_kind r) (rq_amount r) /\ counters_ok b l'
  | (l', Err e) => ~ fits b r l /\ charged l l' (rq_kind r) 0 /\
      exists available, e = Exhausted (rq_kind r) (rq_amount r) available /\ 0 <= available
  | _ => False
  end.
Proof.
  intros Hb [Ct Cu] Ha. unfold try_acquire_within, fits. destruct r as [k amount ceiling].
  cbn [rq_kind rq_amount rq_ceiling] in *. destruct (Z.eqb_spec amount 0); [lia|].
  set (r := mkRequest k amount ceiling). assert (Sat : forall x y, 0 <= sat_sub x y) by (unfold sat_sub; lia).
  pose proof (br_total b Hb) as Bt. pose proof (br_limit b Hb) as Bl.
  destruct (is_bytes k) eqn:B.
  - destruct (reserve_cases b CTotal r l Hb) as [(next & -> & Hn & ->)|[Hn ->]]; cbn in Hn.
    + pose proof (acquire_pool b k amount ceiling l (set_total (l_total l + amount) l) Hb (conj Ct Cu) Ha) as P.
      unfold total_if in P. rewrite B in P. by apply P.
    + cbn. split; [intros [F _]; specialize (F eq_refl); lia|]. split; [|by eauto].
      destruct (record_denial_counters l). by apply charged_none.
  - pose proof (acquire_pool b k amount ceiling l l Hb (conj Ct Cu) Ha) as P.
    unfold total_if in P. rewrite B in P. apply P; [lia|done|lia].
Qed.

(** Giving a charged lease back. *)
Lemma drop_lease_spec (b : ResourceBudget) (x : BudgetLease) (l : ResourceLedger) :
  budget_range b -> counters_ok b l -> 0 <= lease_amount x -> lease_total x <= l_total l ->
  lease_amount x <= l_used l (lease_kind x) ->
  charged l (drop_lease x l) (lease_kind x) (- lease_amount x) /\ counters_ok b (drop_lease x l).
Proof.
  intros Hb [Ct Cu] H0 Ht Hu. destruct x as [k amount]. cbn [lease_kind lease_amount] in *.
  unfold drop_lease, lease_total in *. cbn [lease_kind lease_amount] in *.
  pose proof (br_total b Hb) as Bt. pose proof (br_limit b Hb k) as Bl. specialize (Cu k) as Cuk.
  destruct (Z.eqb_spec amount 0) as [->|Hne]; [split; [by apply charged_none|done]|].
  assert (wrap64 (l_used l k - amount) = l_used l k - amount) as E1 by (apply wrap64_small; lia).
  unfold give_back, charged, counters_ok, total_if, pool_if. rewrite E1.
  destruct (is_bytes k); cbn; rewrite ?(wrap64_small (l_total l - amount)) by lia; unfold upd;
    (split; split; [lia| |lia|]); intros k'; specialize (Cu k'); repeat case_decide; subst; try lia; congruence.
Qed.

(** An acquisition charges exactly or not at all.  A request that fits
    the global ceiling, its pool and its own ceiling is granted and charged to
    both counters; any other is refused with [Exhausted], and the accounting is
    as before, a total reserved first given back. *)
Lemma acquire_charges_exactly (b : ResourceBudget) (r : request) (l : ResourceLedger) :
  budget_range b -> counters_ok b l -> 0 < rq_amount r <= u64_max ->
  match try_acquire_within b r l with
  | (l', Ok lease) => fits b r l /\ lease = mkLease (rq_kind r) (rq_amount r) /\
      charged l l' (rq_kind r) (rq_amount r) /\ counters_ok b l'
  | (l', Err e) => ~ fits b r l /\ charged l l' (rq_kind r) 0 /\
      exists available, e = Exhausted (rq_kind r) (rq_amount r) available /\ 0 <= available
  | _ => False
  end.
Proof. apply acquire_spec. Qed.


(** What [validate] accepts, as a list of requirements. *)
Record budget_valid (b : ResourceBudget) : Prop := {
  bv_pools : metadata_bytes b + tcp_payload_bytes b + packet_bytes b + control_packet_bytes b +
             fragment_bytes b <= total_bytes b;
  bv_total : total_bytes b <> 0;
  bv_flows : max_tcp_flows b <> 0 /\ max_udp_flows b <> 0;
  bv_sub_states : max_syn_received b <= max_tcp_flows b /\ max_accept_queue b <= max_tcp_flows b;
  bv_others : max_fragments b <> 0 /\ max_time_wait b <> 0 /\ max_pmtu_entries b <> 0
}.

(** [validate] accepts exactly the consistent budgets, overflow of the
    pools' sum included, and every built-in profile is one of them with room
    for receive windows and for sends. *)
Lemma budget_validation (b : ResourceBudget) :
  budget_range b -> (validate b = Ok b <-> budget_valid b) /\
  forall p, validate (budget p) = Ok (budget p) /\
    tcp_optional_ceiling (budget p) < tcp_receive_ceiling (budget p) < tcp_payload_bytes (budget p).
Proof.
  intros [Bt Bl]. split; [|by intros []].
  pose proof (Bl MetadataBytes). pose proof (Bl TcpPayloadBytes). pose proof (Bl PacketBytes).
  pose proof (Bl ControlPacketBytes). pose proof (Bl FragmentBytes). cbn in *. clear Bl.
  unfold validate, checked_add. split.
  - intros E.
    do 4 match type of E with context [?x <=? u64_max] =>
      destruct (Z.leb_spec x u64_max); cbn in E; [|done] end.
    repeat match type of E with context [?x =? 0] => destruct (Z.eqb_spec x 0); cbn in E; [done|]
      | context [?x <? ?y] => destruct (Z.ltb_spec x y); cbn in E; [done|] end.
    split; split_and?; lia.
  - intros [P1 P2 [P3 P4] [P5 P6] (P7 & P8 & P9)].
    do 4 match goal with |- context [?x <=? u64_max] => destruct (Z.leb_spec x u64_max); [cbn|lia] end.
    repeat match goal with |- context [?x =? 0] => destruct (Z.eqb_spec x 0); [done|] end.
    repeat match goal with |- context [?x <? ?y] => destruct (Z.ltb_spec x y); [lia|] end. done.
Qed.

Lemma ledger_create_ok (b : ResourceBudget) : budget_range b -> budget_valid b ->
  exists l, ledger_create b = Ok (b, l) /\ ledger_ok b l [].
Proof.
  intros R V. destruct (budget_validation b R) as [[_ E] _]. exists ledger_new. unfold ledger_create. rewrite E by done. split; [done|].
  destruct R. split; cbn; try done; [lia|]. intros k. apply br_limit0.
Qed.


Lemma pressure_level_mono v v' lim : v <= v' ->
  level_rank (pressure_level v lim) <= level_rank (pressure_level v' lim).
Proof.
  intros H. unfold pressure_level, sat_mul. repeat case_bool; cbn; lia.
Qed.

Lemma level_max_rank a c : level_rank (level_max a c) = Z.max (level_rank a) (level_rank c).
Proof. unfold level_max. case_bool; lia. Qed.

(** The folded level is the worst of the start and the pools looked at. *)
Lemma pressure_fold_rank b used except ks : forall start,
  level_rank (foldl (fun level k =>
      if decide (Some k = except) then level
      else level_max level (pressure_level (used k) (limit b k))) start ks) =
  foldl (fun r k => if decide (Some k = except) then r
                    else Z.max r (level_rank (pressure_level (used k) (limit b k)))) (level_rank start) ks.
Proof.
  induction ks as [|k ks IH]; intros start; [done|]. cbn [foldl]. rewrite IH.
  case_decide; [done|]. by rewrite level_max_rank.
Qed.

Lemma fold_max_mono b used used' except except' ks : forall r r',
  (forall k, used k <= used' k) -> (forall k, Some k = except' -> Some k = except) -> r <= r' ->
  foldl (fun r k => if decide (Some k = except) then r
                    else Z.max r (level_rank (pressure_level (used k) (limit b k)))) r ks <=
  foldl (fun r k => if decide (Some k = except') then r
                    else Z.max r (level_rank (pressure_level (used' k) (limit b k)))) r' ks.
Proof.
  induction ks as [|k ks IH]; intros r r' Hu He Hr; [done|]. cbn [foldl]. apply IH; try done.
  pose proof (pressure_level_mono _ _ (limit b k) (Hu k)). specialize (He k).
  repeat case_decide; try tauto; lia.
Qed.

(** Pressure follows use.  With no counter lower the pressure is no lower;
    leaving the TCP bytes out never raises it; and a pool reads Constrained,
    Critical and Exhausted exactly from 70, 85 and 100 percent of its limit. *)
Lemma pressure_follows_use (b : ResourceBudget) (l l' : ResourceLedger) (value lim : Z) :
  l_total l <= l_total l' -> (forall k, l_used l k <= l_used l' k) ->
  0 <= value <= 18014398509481984 -> 0 <= lim <= 18014398509481984 ->
  level_rank (pressure b l) <= level_rank (pressure b l') /\
  level_rank (admission b l) <= level_rank (pressure b l) /\
  (1 <= level_rank (pressure_level value lim) <-> 70 * lim <= 100 * value) /\
  (2 <= level_rank (pressure_level value lim) <-> 85 * lim <= 100 * value) /\
  (3 <= level_rank (pressure_level value lim) <-> lim <= value).
Proof.
  intros Ht Hu Hv Hl. unfold pressure, admission, pressure_of. rewrite !pressure_fold_rank.
  split; [apply fold_max_mono; [done|done|by apply pressure_level_mono]|].
  split; [by apply fold_max_mono|].
  unfold pressure_level, sat_mul, u64_max. split_and!; split; repeat case_bool; cbn; lia.
Qed.

