(* ===== verification/Scheduler.v ===== *)
(** The bounded deficit-round-robin scheduler of
    [sail-netstack/src/engine/scheduler.rs].

    The work items are of any type [T].  The clock is [elapsed]: what the n-th
    reading of [started.elapsed()] in a round returns; nothing is assumed of
    it.  The [process] callback is the list of what it was called with. *)
From S2P Require Import Prelude.
From stdpp Require Import list gmap.
#[local] Open Scope Z_scope.

Definition FlowId := Z.

Record SchedulerConfig := mkSchedulerConfig {
  quantum_bytes : Z;
  max_packets_per_round : Z;
  max_bytes_per_round : Z;
  max_time_per_round : Z;
  max_contiguous_flow_bytes : Z;
  max_queued_packets : Z;
  max_queued_bytes : Z;
  max_active_flows : Z;
  max_packets_per_flow : Z;
  max_control_packets : Z;
  max_packet_bytes : Z
}.

Inductive SchedulerConfigError := ZeroLimit | PacketExceedsBudget | ControlExceedsRound.

Definition config_validate (c : SchedulerConfig) : outcome SchedulerConfigError SchedulerConfig :=
  if (quantum_bytes c =? 0) || (max_packets_per_round c =? 0) || (max_bytes_per_round c =? 0) ||
     (max_time_per_round c =? 0) || (max_contiguous_flow_bytes c =? 0) ||
     (max_queued_packets c =? 0) || (max_queued_bytes c =? 0) || (max_active_flows c =? 0) ||
     (max_packets_per_flow c =? 0) || (max_control_packets c =? 0) || (max_packet_bytes c =? 0)
  then Err ZeroLimit
  else if (max_bytes_per_round c <? max_packet_bytes c) ||
          (max_queued_bytes c <? max_packet_bytes c) ||
          (max_contiguous_flow_bytes c <? max_packet_bytes c)
  then Err PacketExceedsBudget
  else if max_packets_per_round c <? max_control_packets c then Err ControlExceedsRound
  else mret c.

(** [Default]; the time is in nanoseconds. *)
Definition default_config : SchedulerConfig :=
  {| quantum_bytes := 16 * 1024; max_packets_per_round := 256; max_bytes_per_round := 1024 * 1024;
     max_time_per_round := 2000000; max_contiguous_flow_bytes := 64 * 1024;
     max_queued_packets := 4096; max_queued_bytes := 8 * 1024 * 1024; max_active_flows := 2048;
     max_packets_per_flow := 128; max_control_packets := 32; max_packet_bytes := 65535 |}.

Inductive WorkClass :=
| Control
| Data (flow : FlowId) (weight : Z).

Record RoundStats := mkStats {
  st_packets : Z;
  st_bytes : Z;
  st_control_packets : Z;
  st_active_flows_visited : Z;
  st_time_budget_exhausted : bool
}.
Definition no_stats : RoundStats := mkStats 0 0 0 0 false.

Record SchedulerSnapshot := mkSchedulerSnapshot {
  sn_active_flows : Z; sn_queued_packets : Z; sn_queued_bytes : Z; sn_control_packets : Z
}.

Section Scheduler.
Context {T : Type}.

Record Item := mkItem { it_bytes : Z; it_value : T }.

Record FlowQueue := mkFlowQueue {
  fq_weight : Z;
  fq_deficit : Z;
  fq_bytes : Z;
  fq_items : list Item
}.

Inductive EnqueueError :=
| PacketTooLarge (v : T)
| QueueFull (v : T)
| FlowQueueFull (v : T)
| TooManyFlows (v : T)
| InvalidWeight (v : T).

Definition into_inner (e : EnqueueError) : T :=
  match e with
  | PacketTooLarge v | QueueFull v | FlowQueueFull v | TooManyFlows v | InvalidWeight v => v
  end.

Record Scheduler := mkScheduler {
  config : SchedulerConfig;
  sch_control : list Item;
  sch_flows : gmap FlowId FlowQueue;
  sch_active : list FlowId;
  queued_packets : Z;
  queued_bytes : Z
}.

Definition scheduler_new (c : SchedulerConfig) : outcome SchedulerConfigError Scheduler :=
  c ← config_validate c;
  mret (mkScheduler c [] ∅ [] 0 0).

Definition scheduler_clear (s : Scheduler) : Scheduler := mkScheduler (config s) [] ∅ [] 0 0.

Definition scheduler_snapshot (s : Scheduler) : SchedulerSnapshot :=
  mkSchedulerSnapshot (Z.of_nat (size (sch_flows s))) (queued_packets s) (queued_bytes s)
    (len (sch_control s)).

(** The counters after an admission. *)
Definition count_in (bytes : Z) (s : Scheduler) : Scheduler :=
  mkScheduler (config s) (sch_control s) (sch_flows s) (sch_active s)
    (uadd (queued_packets s) 1) (uadd (queued_bytes s) bytes).

Definition enqueue (class : WorkClass) (bytes : Z) (value : T) (s : Scheduler)
    : Scheduler * outcome EnqueueError unit :=
  let item := mkItem bytes value in
  if max_packet_bytes (config s) <? bytes then (s, Err (PacketTooLarge value))
  else if (queued_packets s =? max_queued_packets (config s)) ||
          (max_queued_bytes (config s) <? sat_add (queued_bytes s) bytes)
  then (s, Err (QueueFull value))
  else
    match class with
    | Control =>
      (count_in bytes (mkScheduler (config s) (sch_control s ++ [item]) (sch_flows s) (sch_active s)
                         (queued_packets s) (queued_bytes s)), Ok tt)
    | Data flow weight =>
      if weight =? 0 then (s, Err (InvalidWeight value))
      else
        match sch_flows s !! flow with
        | Some queue =>
          if len (fq_items queue) =? max_packets_per_flow (config s)
          then (s, Err (FlowQueueFull value))
          else
            let queue := mkFlowQueue (fq_weight queue) (fq_deficit queue)
                           (uadd (fq_bytes queue) bytes) (fq_items queue ++ [item]) in
            (count_in bytes (mkScheduler (config s) (sch_control s) (<[flow := queue]> (sch_flows s))
                               (sch_active s) (queued_packets s) (queued_bytes s)), Ok tt)
        | None =>
          if Z.of_nat (size (sch_flows s)) =? max_active_flows (config s)
          then (s, Err (TooManyFlows value))
          else
            let queue := mkFlowQueue weight 0 bytes [item] in
            (count_in bytes (mkScheduler (config s) (sch_control s) (<[flow := queue]> (sch_flows s))
                               (sch_active s ++ [flow]) (queued_packets s) (queued_bytes s)), Ok tt)
        end
    end.

(** ** A round *)

Context (elapsed : nat -> Z).

(** A round in progress: the scheduler, the statistics, how often the clock
    was read, and the calls of [process] so far. *)
Record Round := mkRound {
  rd_sched : Scheduler;
  rd_stats : RoundStats;
  rd_reads : nat;
  rd_out : list (WorkClass * T)
}.

Definition fits_round (stats : RoundStats) (bytes max_packets max_bytes : Z) : bool :=
  (st_packets stats <? max_packets) && (sat_add (st_bytes stats) bytes <=? max_bytes).

Definition account_dequeue (bytes : Z) (rd : Round) : Round :=
  let s := rd_sched rd in
  let st := rd_stats rd in
  mkRound
    (mkScheduler (config s) (sch_control s) (sch_flows s) (sch_active s)
       (usub (queued_packets s) 1) (usub (queued_bytes s) bytes))
    (mkStats (uadd (st_packets st) 1) (uadd (st_bytes st) bytes) (st_control_packets st)
       (st_active_flows_visited st) (st_time_budget_exhausted st))
    (rd_reads rd) (rd_out rd).

Definition process (class : WorkClass) (value : T) (rd : Round) : Round :=
  mkRound (rd_sched rd) (rd_stats rd) (rd_reads rd) (rd_out rd ++ [(class, value)]).

(** [started.elapsed() >= max_time_per_round], one reading of the clock. *)
Definition out_of_time (rd : Round) : Round * bool :=
  (mkRound (rd_sched rd) (rd_stats rd) (S (rd_reads rd)) (rd_out rd),
   max_time_per_round (config (rd_sched rd)) <=? elapsed (rd_reads rd)).

Definition mark_exhausted (rd : Round) : Round :=
  let st := rd_stats rd in
  mkRound (rd_sched rd)
    (mkStats (st_packets st) (st_bytes st) (st_control_packets st) (st_active_flows_visited st) true)
    (rd_reads rd) (rd_out rd).

Definition set_control (q : list Item) (rd : Round) : Round :=
  let s := rd_sched rd in
  mkRound (mkScheduler (config s) q (sch_flows s) (sch_active s) (queued_packets s) (queued_bytes s))
    (rd_stats rd) (rd_reads rd) (rd_out rd).
Definition count_control (rd : Round) : Round :=
  let st := rd_stats rd in
  mkRound (rd_sched rd)
    (mkStats (st_packets st) (st_bytes st) (uadd (st_control_packets st) 1)
       (st_active_flows_visited st) (st_time_budget_exhausted st))
    (rd_reads rd) (rd_out rd).

(** The control prefix; [q] is the control queue.  [true] is the early return. *)
Fixpoint control_loop (max_packets max_bytes : Z) (q : list Item) (rd : Round) : Round * bool :=
  if st_control_packets (rd_stats rd) <? max_control_packets (config (rd_sched rd)) then
    match q with
    | [] => (rd, false)
    | front :: rest =>
      if negb (fits_round (rd_stats rd) (it_bytes front) max_packets max_bytes) then (rd, false)
      else
        let rd := set_control rest rd in
        let rd := account_dequeue (it_bytes front) rd in
        let rd := count_control rd in
        let rd := process Control (it_value front) rd in
        let '(rd, expired) := out_of_time rd in
        if expired then (mark_exhausted rd, true)
        else control_loop max_packets max_bytes rest rd
    end
  else (rd, false).

(** The visit of one flow; [items] is its queue. *)
Fixpoint flow_loop (max_packets max_bytes : Z) (flow : FlowId) (weight : Z) (items : list Item)
    (deficit bytes contiguous : Z) (rd : Round) : FlowQueue * Round :=
  match items with
  | [] => (mkFlowQueue weight deficit bytes [], rd)
  | front :: rest =>
    if (deficit <? it_bytes front) ||
       (max_contiguous_flow_bytes (config (rd_sched rd)) <? sat_add contiguous (it_bytes front)) ||
       negb (fits_round (rd_stats rd) (it_bytes front) max_packets max_bytes)
    then (mkFlowQueue weight deficit bytes items, rd)
    else
      let deficit := usub deficit (it_bytes front) in
      let bytes := usub bytes (it_bytes front) in
      let contiguous := uadd contiguous (it_bytes front) in
      let rd := account_dequeue (it_bytes front) rd in
      let rd := process (Data flow weight) (it_value front) rd in
      let '(rd, expired) := out_of_time rd in
      if expired then (mkFlowQueue weight deficit bytes rest, mark_exhausted rd)
      else flow_loop max_packets max_bytes flow weight rest deficit bytes contiguous rd
  end.

Definition count_visit (rd : Round) : Round :=
  let st := rd_stats rd in
  mkRound (rd_sched rd)
    (mkStats (st_packets st) (st_bytes st) (st_control_packets st)
       (uadd (st_active_flows_visited st) 1) (st_time_budget_exhausted st))
    (rd_reads rd) (rd_out rd).
Definition set_flows (flows : gmap FlowId FlowQueue) (active : list FlowId) (rd : Round) : Round :=
  let s := rd_sched rd in
  mkRound (mkScheduler (config s) (sch_control s) flows active (queued_packets s) (queued_bytes s))
    (rd_stats rd) (rd_reads rd) (rd_out rd).

(** One turn of the visit loop for a flow that was popped from [active]. *)
Definition visit (max_packets max_bytes : Z) (flow : FlowId) (queue : FlowQueue) (rd : Round) : Round :=
  let rd := count_visit rd in
  let deficit := sat_add (fq_deficit queue)
                   (sat_mul (quantum_bytes (config (rd_sched rd))) (fq_weight queue)) in
  let '(queue, rd) :=
    flow_loop max_packets max_bytes flow (fq_weight queue) (fq_items queue) deficit (fq_bytes queue) 0 rd in
  match fq_items queue with
  | [] => rd
  | _ => set_flows (<[flow := queue]> (sch_flows (rd_sched rd))) (sch_active (rd_sched rd) ++ [flow]) rd
  end.

(** [for _ in 0..visits]. *)
Fixpoint visit_loop (visits : nat) (max_packets max_bytes : Z) (rd : Round)
    : outcome Empty_set Round :=
  match visits with
  | O => mret rd
  | S visits =>
    if st_packets (rd_stats rd) =? max_packets then mret rd
    else
      let '(rd, expired) := if 0 <? st_packets (rd_stats rd) then out_of_time rd else (rd, false) in
      if expired then mret (mark_exhausted rd)
      else
        match sch_active (rd_sched rd) with
        | [] => Panic
        | flow :: active =>
          queue ← expect (sch_flows (rd_sched rd) !! flow);
          let rd := set_flows (delete flow (sch_flows (rd_sched rd))) active rd in
          let rd := visit max_packets max_bytes flow queue rd in
          if st_time_budget_exhausted (rd_stats rd) then mret rd
          else visit_loop visits max_packets max_bytes rd
        end
  end.

Definition run_round_limited (max_packets max_bytes : Z) (s : Scheduler) : outcome Empty_set Round :=
  let max_packets := Z.min max_packets (max_packets_per_round (config s)) in
  let max_bytes := Z.min max_bytes (max_bytes_per_round (config s)) in
  let rd := mkRound s no_stats 0 [] in
  let '(rd, returned) := control_loop max_packets max_bytes (sch_control s) rd in
  if returned then mret rd
  else visit_loop (length (sch_active (rd_sched rd))) max_packets max_bytes rd.

Definition run_round (s : Scheduler) : outcome Empty_set Round :=
  run_round_limited (max_packets_per_round (config s)) (max_bytes_per_round (config s)) s.
End Scheduler.
Arguments Item : clear implicits.
Arguments FlowQueue : clear implicits.
Arguments Scheduler : clear implicits.
Arguments Round : clear implicits.
Arguments EnqueueError : clear implicits.

(** * Well-formed schedulers *)

(** A validated configuration.  The byte limit of the queue is below the largest
    [usize]: at that value the saturating sum of [enqueue] is never above it. *)
Definition cfg_ok (c : SchedulerConfig) : Prop :=
  config_validate c = Ok c /\
  Forall is_u64 [quantum_bytes c; max_packets_per_round c; max_bytes_per_round c;
    max_contiguous_flow_bytes c; max_queued_packets c; max_queued_bytes c; max_active_flows c;
    max_packets_per_flow c; max_control_packets c; max_packet_bytes c] /\
  max_queued_bytes c < u64_max /\ 0 <= max_time_per_round c.

Lemma cfg_ok_limits c :
  cfg_ok c ->
  1 <= quantum_bytes c <= u64_max /\ 1 <= max_packets_per_round c <= u64_max /\
  1 <= max_control_packets c <= max_packets_per_round c /\
  1 <= max_packet_bytes c /\
  max_packet_bytes c <= max_bytes_per_round c <= u64_max /\
  max_packet_bytes c <= max_contiguous_flow_bytes c <= u64_max /\
  max_packet_bytes c <= max_queued_bytes c < u64_max /\
  1 <= max_queued_packets c <= u64_max /\ 1 <= max_packets_per_flow c <= u64_max /\
  1 <= max_active_flows c <= u64_max.
Proof.
  intros (Hv & Hu & Hq & Ht). unfold config_validate in Hv.
  decompose_Forall_hyps. unfold is_u64, u64_max in *.
  destruct (_ || _) eqn:E1 in Hv; [done|]. destruct (_ || _) eqn:E2 in Hv; [done|].
  destruct (_ <? _) eqn:E3 in Hv; [done|]. lia.
Qed.

Section Invariant.
Context {T : Type}.
Implicit Types (s : Scheduler T) (q : FlowQueue T) (it : Item T).

Definition flow_items (flows : gmap FlowId (FlowQueue T)) (f : FlowId) : list (Item T) :=
  match flows !! f with Some q => fq_items q | None => [] end.

Definition item_ok (c : SchedulerConfig) it : Prop := 0 <= it_bytes it <= max_packet_bytes c.

Record queue_ok (c : SchedulerConfig) q : Prop := {
  qo_weight : 1 <= fq_weight q <= 65535;
  qo_deficit : 0 <= fq_deficit q <= u64_max;
  qo_bytes : fq_bytes q = zsum it_bytes (fq_items q);
  qo_items : fq_items q <> [];
  qo_len : len (fq_items q) <= max_packets_per_flow c;
  qo_each : Forall (item_ok c) (fq_items q)
}.

(** The invariant, with [n] packets of [b] bytes taken out of the queues but not
    yet out of the counters, as while a flow is being visited. *)
Record sched_inv (n b : Z) s : Prop := {
  si_cfg : cfg_ok (config s);
  si_nodup : NoDup (sch_active s);
  si_active : forall f, f ∈ sch_active s <-> is_Some (sch_flows s !! f);
  si_queues : forall f q, sch_flows s !! f = Some q -> queue_ok (config s) q;
  si_control : Forall (item_ok (config s)) (sch_control s);
  si_packets : queued_packets s =
    len (sch_control s) + zsum (fun f => len (flow_items (sch_flows s) f)) (sch_active s) + n;
  si_bytes : queued_bytes s =
    zsum it_bytes (sch_control s) +
    zsum (fun f => zsum it_bytes (flow_items (sch_flows s) f)) (sch_active s) + b;
  si_max_packets : queued_packets s <= max_queued_packets (config s);
  si_max_bytes : queued_bytes s <= max_queued_bytes (config s);
  si_max_flows : len (sch_active s) <= max_active_flows (config s)
}.
Definition sched_wf s : Prop := sched_inv 0 0 s.

Lemma zsum_ext {A} (f g : A -> Z) l : (forall x, x ∈ l -> f x = g x) -> zsum f l = zsum g l.
Proof.
  induction l as [|x l IH]; intros H; [done|].
  rewrite !zsum_cons, IH, (H x); [done|left|intros; apply H; by right].
Qed.

Lemma items_bytes_nonneg c (l : list (Item T)) : Forall (item_ok c) l -> 0 <= zsum it_bytes l.
Proof. intros H. apply zsum_nonneg. eapply Forall_impl; [exact H|]. unfold item_ok. intros; lia. Qed.

Lemma flow_items_Some (m : gmap FlowId (FlowQueue T)) f q : m !! f = Some q -> flow_items m f = fq_items q.
Proof. unfold flow_items. by intros ->. Qed.

Lemma flow_items_insert (m : gmap FlowId (FlowQueue T)) f q g :
  flow_items (<[f := q]> m) g = if decide (f = g) then fq_items q else flow_items m g.
Proof. unfold flow_items. rewrite lookup_insert. by repeat case_decide. Qed.

Lemma flow_items_delete (m : gmap FlowId (FlowQueue T)) f g :
  f <> g -> flow_items (delete f m) g = flow_items m g.
Proof. intros H. unfold flow_items. by rewrite lookup_delete_ne. Qed.

Lemma sched_flow_items_ok n b s f : sched_inv n b s -> Forall (item_ok (config s)) (flow_items (sch_flows s) f).
Proof.
  intros H. unfold flow_items. destruct (sch_flows s !! f) eqn:E; [|constructor].
  apply (si_queues _ _ _ H) in E. apply E.
Qed.

Lemma sched_sums_nonneg n b s :
  sched_inv n b s ->
  0 <= zsum (fun f => len (flow_items (sch_flows s) f)) (sch_active s) /\
  0 <= zsum (fun f => zsum it_bytes (flow_items (sch_flows s) f)) (sch_active s) /\
  0 <= zsum it_bytes (sch_control s).
Proof.
  intros H. repeat split.
  - apply zsum_nonneg, Forall_forall. intros; apply len_nonneg.
  - apply zsum_nonneg, Forall_forall. intros f _.
    eapply items_bytes_nonneg, sched_flow_items_ok; exact H.
  - eapply items_bytes_nonneg, (si_control _ _ _ H).
Qed.

Lemma sched_counters n b s :
  sched_inv n b s -> 0 <= n -> 0 <= b ->
  n + len (sch_control s) <= queued_packets s <= u64_max /\
  b + zsum it_bytes (sch_control s) <= queued_bytes s <= u64_max /\
  0 <= zsum it_bytes (sch_control s).
Proof.
  intros H Hn Hb. pose proof (sched_sums_nonneg _ _ _ H). pose proof (cfg_ok_limits _ (si_cfg _ _ _ H)).
  pose proof (si_packets _ _ _ H). pose proof (si_bytes _ _ _ H).
  pose proof (si_max_packets _ _ _ H). pose proof (si_max_bytes _ _ _ H). lia.
Qed.

Lemma sched_wf_counters s :
  sched_wf s ->
  0 <= len (sch_control s) <= queued_packets s /\ queued_packets s <= u64_max /\
  0 <= zsum it_bytes (sch_control s) <= queued_bytes s /\ queued_bytes s <= u64_max.
Proof.
  intros H. pose proof (sched_counters _ _ _ H ltac:(lia) ltac:(lia)).
  pose proof (len_nonneg (sch_control s)). lia.
Qed.

Lemma sched_size n b s : sched_inv n b s -> Z.of_nat (size (sch_flows s)) = len (sch_active s).
Proof.
  intros H. unfold len. f_equal. rewrite <- size_dom.
  rewrite <- (size_list_to_set (C := gset FlowId) (sch_active s)) by apply (si_nodup _ _ _ H).
  f_equal. apply set_eq. intros f. rewrite elem_of_dom, elem_of_list_to_set.
  symmetry. apply (si_active _ _ _ H).
Qed.

(** Popping the first active flow and removing its queue. *)
Lemma pop_flow_inv s f active :
  sched_wf s -> sch_active s = f :: active ->
  exists q, (sch_flows s !! f = Some q) /\ queue_ok (config s) q /\ (f ∉ active) /\
    sched_inv (len (fq_items q)) (zsum it_bytes (fq_items q))
      (mkScheduler (config s) (sch_control s) (delete f (sch_flows s)) active
         (queued_packets s) (queued_bytes s)).
Proof.
  intros H Ha.
  assert (is_Some (sch_flows s !! f)) as [q Hq]
    by (apply (si_active _ _ _ H); rewrite Ha; left).
  pose proof (si_nodup _ _ _ H) as Hn. rewrite Ha in Hn. apply NoDup_cons in Hn as [Hf Hn].
  exists q. split; [done|]. split; [by eapply (si_queues _ _ _ H)|]. split; [done|].
  pose proof (si_packets _ _ _ H) as Hp. pose proof (si_bytes _ _ _ H) as Hb.
  rewrite Ha, zsum_cons in Hp, Hb.
  rewrite (flow_items_Some _ _ _ Hq) in Hp, Hb.
  assert (forall g, g ∈ active -> flow_items (delete f (sch_flows s)) g = flow_items (sch_flows s) g) as Hd
    by (intros g Hg; apply flow_items_delete; intros ->; done).
  constructor; simpl; try apply H; try done.
  - intros g. destruct (decide (f = g)) as [->|Hne].
    + rewrite lookup_delete_eq. split; [done|intros []; done].
    + rewrite lookup_delete_ne by done. rewrite <- (si_active _ _ _ H), Ha, elem_of_cons. naive_solver.
  - intros g q' Hg. apply lookup_delete_Some in Hg as [_ Hg]. by eapply (si_queues _ _ _ H).
  - rewrite (zsum_ext _ (fun f => len (flow_items (sch_flows s) f))) by (intros g Hg; simpl; by rewrite Hd). lia.
  - rewrite (zsum_ext _ (fun f => zsum it_bytes (flow_items (sch_flows s) f))) by (intros g Hg; simpl; by rewrite Hd). lia.
  - pose proof (si_max_flows _ _ _ H). rewrite Ha, len_cons in *. lia.
Qed.

(** Putting a queue (back) at the end of the active list. *)
Lemma push_flow_inv n b s f q k bts :
  sched_inv n b s -> sch_flows s !! f = None -> queue_ok (config s) q ->
  len (sch_active s) < max_active_flows (config s) ->
  n = len (fq_items q) + k -> b = zsum it_bytes (fq_items q) + bts ->
  sched_inv k bts (mkScheduler (config s) (sch_control s) (<[f := q]> (sch_flows s)) (sch_active s ++ [f])
               (queued_packets s) (queued_bytes s)).
Proof.
  intros H Hf Hq Hlen -> ->.
  assert (f ∉ sch_active s) as Hnot
    by (rewrite (si_active _ _ _ H), Hf; intros []; done).
  assert (forall g, g ∈ sch_active s -> flow_items (<[f := q]> (sch_flows s)) g = flow_items (sch_flows s) g) as Hd.
  { intros g Hg. rewrite flow_items_insert, decide_False; [done|]. intros ->; done. }
  assert (flow_items (<[f := q]> (sch_flows s)) f = fq_items q) as Hdf
    by (rewrite flow_items_insert, decide_True; done).
  constructor; simpl; try apply H.
  - apply NoDup_app. split; [apply H|]. split; [|apply NoDup_singleton].
    intros g Hg ->%list_elem_of_singleton. done.
  - intros g. rewrite elem_of_app, list_elem_of_singleton, (si_active _ _ _ H), lookup_insert_is_Some.
    destruct (decide (f = g)); naive_solver.
  - intros g q' [[-> ->]|[_ Hg]]%lookup_insert_Some; [done|by eapply (si_queues _ _ _ H)].
  - rewrite zsum_app, zsum_singleton, Hdf, (zsum_ext _ _ _ (fun g Hg => f_equal len (Hd g Hg))).
    rewrite (si_packets _ _ _ H). lia.
  - rewrite zsum_app, zsum_singleton, Hdf, (zsum_ext _ _ _ (fun g Hg => f_equal (zsum it_bytes) (Hd g Hg))).
    rewrite (si_bytes _ _ _ H). lia.
  - rewrite len_app, len_singleton. lia.
Qed.

(** Replacing the queue of an active flow. *)
Lemma update_flow_inv n b s f q q' k bts :
  sched_inv n b s -> sch_flows s !! f = Some q -> queue_ok (config s) q' ->
  n + len (fq_items q) = k + len (fq_items q') ->
  b + zsum it_bytes (fq_items q) = bts + zsum it_bytes (fq_items q') ->
  sched_inv k bts (mkScheduler (config s) (sch_control s) (<[f := q']> (sch_flows s)) (sch_active s)
               (queued_packets s) (queued_bytes s)).
Proof.
  intros H Hf Hq Hk Hb.
  assert (f ∈ sch_active s) as Hin by (apply (si_active _ _ _ H); rewrite Hf; eauto).
  pose proof (si_nodup _ _ _ H) as Hn.
  assert (forall (g : list (Item T) -> Z),
    zsum (fun x => g (flow_items (<[f := q']> (sch_flows s)) x)) (sch_active s) + g (fq_items q) =
    zsum (fun x => g (flow_items (sch_flows s) x)) (sch_active s) + g (fq_items q')) as Hsum.
  { intros g. apply list_elem_of_split in Hin as (l1 & l2 & Hl). rewrite Hl in Hn |- *.
    apply NoDup_app in Hn as (_ & Hd1 & [Hd2 _]%NoDup_cons).
    rewrite !zsum_app, !zsum_cons.
    rewrite (zsum_ext _ (fun x => g (flow_items (sch_flows s) x)) l1), (zsum_ext _ (fun x => g (flow_items (sch_flows s) x)) l2).
    - rewrite flow_items_insert, decide_True by done.
      rewrite (flow_items_Some _ _ _ Hf). lia.
    - intros x Hx. rewrite flow_items_insert, decide_False; [done|by intros ->].
    - intros x Hx. rewrite flow_items_insert, decide_False; [done|].
      intros ->. apply (Hd1 _ Hx). left. }
  pose proof (Hsum len). pose proof (Hsum (zsum it_bytes)).
  constructor; simpl; try apply H.
  - intros g. rewrite (si_active _ _ _ H), lookup_insert_is_Some. destruct (decide (f = g)); [subst|]; naive_solver.
  - intros g q'' [[-> ->]|[_ Hg]]%lookup_insert_Some; [done|by eapply (si_queues _ _ _ H)].
  - rewrite (si_packets _ _ _ H). lia.
  - rewrite (si_bytes _ _ _ H). lia.
Qed.

Lemma scheduler_new_wf c s : cfg_ok c -> scheduler_new (T := T) c = Ok s -> sched_wf s.
Proof.
  intros Hc. unfold scheduler_new. rewrite (proj1 Hc). intros [= <-].
  pose proof (cfg_ok_limits _ Hc).
  split; simpl; rewrite ?len_nil; try done; try (unfold zsum; simpl; lia).
  - constructor.
  - intros f. rewrite lookup_empty. split; [intros []%not_elem_of_nil|intros []; done].
Qed.

(** Counting [bytes] more bytes in one more packet. *)
Lemma count_in_inv s bytes n b :
  sched_inv (n - 1) (b - bytes) s -> 0 <= queued_packets s -> 0 <= queued_bytes s -> 0 <= bytes ->
  queued_packets s < max_queued_packets (config s) ->
  queued_bytes s + bytes <= max_queued_bytes (config s) ->
  sched_inv n b (count_in bytes s).
Proof.
  intros H Hn Hb Hbytes Hp Hq. pose proof (cfg_ok_limits _ (si_cfg _ _ _ H)).
  pose proof (si_packets _ _ _ H). pose proof (si_bytes _ _ _ H).
  split; simpl; try apply H; rewrite ?uadd_small by lia; lia.
Qed.
End Invariant.

(** * Admission *)
Section Admission.
Context {T : Type}.
Implicit Types (s : Scheduler T) (q : FlowQueue T) (it : Item T).

(** What is queued in order, for control ([None]) or for a flow, with the class
    it will be processed as. *)
Definition backlog (k : option FlowId) s : list (WorkClass * T) :=
  match k with
  | None => (fun it => (Control, it_value it)) <$> sch_control s
  | Some f =>
    match sch_flows s !! f with
    | Some q => (fun it => (Data f (fq_weight q), it_value it)) <$> fq_items q
    | None => []
    end
  end.

Definition queue_of (class : WorkClass) : option FlowId :=
  match class with Control => None | Data f _ => Some f end.

(** A flow keeps the weight of the packet that activated it. *)
Definition effective_class (class : WorkClass) s : WorkClass :=
  match class with
  | Control => Control
  | Data f w => match sch_flows s !! f with Some q => Data f (fq_weight q) | None => Data f w end
  end.

Definition admits (class : WorkClass) (bytes : Z) s : Prop :=
  bytes <= max_packet_bytes (config s) /\
  queued_packets s < max_queued_packets (config s) /\
  queued_bytes s + bytes <= max_queued_bytes (config s) /\
  match class with
  | Control => True
  | Data f w =>
    w <> 0 /\
    match sch_flows s !! f with
    | Some q => len (fq_items q) < max_packets_per_flow (config s)
    | None => len (sch_active s) < max_active_flows (config s)
    end
  end.

Definition class_ok (class : WorkClass) : Prop :=
  match class with Control => True | Data _ w => is_u16 w end.

Lemma item_queue_ok c q bytes (v : T) :
  queue_ok c q -> 0 <= bytes <= max_packet_bytes c -> len (fq_items q) < max_packets_per_flow c ->
  fq_bytes q + bytes <= u64_max ->
  queue_ok c (mkFlowQueue (fq_weight q) (fq_deficit q) (uadd (fq_bytes q) bytes)
                (fq_items q ++ [mkItem bytes v])).
Proof.
  intros H Hb Hl Hu.
  assert (0 <= fq_bytes q) by (rewrite (qo_bytes _ _ H); eapply items_bytes_nonneg, H).
  split; simpl; try apply H.
  - rewrite uadd_small, zsum_app, zsum_singleton, (qo_bytes _ _ H) by lia. done.
  - by intros [_ [=]]%app_nil.
  - rewrite len_app, len_singleton. lia.
  - apply Forall_app. split; [apply H|]. by apply Forall_singleton.
Qed.

Lemma flow_bytes_le n b s f q :
  sched_inv n b s -> 0 <= b -> sch_flows s !! f = Some q -> fq_bytes q <= queued_bytes s.
Proof.
  intros H Hb Hq. rewrite (qo_bytes _ _ (si_queues _ _ _ H _ _ Hq)), (si_bytes _ _ _ H).
  assert (f ∈ sch_active s) as [i Hi]%list_elem_of_lookup by (apply (si_active _ _ _ H); rewrite Hq; eauto).
  pose proof (sched_sums_nonneg _ _ _ H).
  pose proof (zsum_lookup_le (fun f => zsum it_bytes (flow_items (sch_flows s) f)) (sch_active s) i f) as Hz.
  simpl in Hz. rewrite (flow_items_Some _ _ _ Hq) in Hz.
  assert (zsum it_bytes (fq_items q) <=
          zsum (fun f => zsum it_bytes (flow_items (sch_flows s) f)) (sch_active s)); [|lia].
  apply Hz; [|done]. apply Forall_forall. intros g _. eapply items_bytes_nonneg, sched_flow_items_ok, H.
Qed.

Lemma enqueue_control_ok s bytes (v : T) :
  sched_wf s -> admits Control bytes s -> 0 <= bytes ->
  sched_wf (count_in bytes (mkScheduler (config s) (sch_control s ++ [mkItem bytes v]) (sch_flows s)
                              (sch_active s) (queued_packets s) (queued_bytes s))).
Proof.
  intros H (A1 & A2 & A3 & _) Hb. pose proof (sched_wf_counters _ H).
  apply count_in_inv; simpl; try lia.
  split; simpl; try apply H.
  - apply Forall_app. split; [apply H|]. by apply Forall_singleton.
  - rewrite len_app, len_singleton, (si_packets _ _ _ H). lia.
  - rewrite zsum_app, zsum_singleton, (si_bytes _ _ _ H). simpl. lia.
Qed.

Lemma enqueue_existing_ok s f w bytes (v : T) q :
  sched_wf s -> admits (Data f w) bytes s -> 0 <= bytes -> sch_flows s !! f = Some q ->
  sched_wf (count_in bytes (mkScheduler (config s) (sch_control s)
    (<[f := mkFlowQueue (fq_weight q) (fq_deficit q) (uadd (fq_bytes q) bytes) (fq_items q ++ [mkItem bytes v])]>
       (sch_flows s)) (sch_active s) (queued_packets s) (queued_bytes s))).
Proof.
  intros H (A1 & A2 & A3 & _ & A5) Hb Hq. rewrite Hq in A5.
  pose proof (sched_wf_counters _ H).
  pose proof (flow_bytes_le _ _ _ _ _ H ltac:(lia) Hq).
  pose proof (cfg_ok_limits _ (si_cfg _ _ _ H)).
  apply count_in_inv; simpl; try lia.
  eapply update_flow_inv; [exact H|exact Hq| |simpl; rewrite len_app, len_singleton; lia|].
  - apply item_queue_ok; [by eapply (si_queues _ _ _ H)|lia..].
  - simpl. rewrite zsum_app, zsum_singleton. simpl. lia.
Qed.

Lemma enqueue_new_ok s f w bytes (v : T) :
  sched_wf s -> admits (Data f w) bytes s -> 0 <= bytes -> is_u16 w -> sch_flows s !! f = None ->
  sched_wf (count_in bytes (mkScheduler (config s) (sch_control s)
    (<[f := mkFlowQueue w 0 bytes [mkItem bytes v]]> (sch_flows s)) (sch_active s ++ [f])
    (queued_packets s) (queued_bytes s))).
Proof.
  intros H (A1 & A2 & A3 & A4 & A5) Hb Hw Hq. rewrite Hq in A5.
  pose proof (sched_wf_counters _ H).
  pose proof (cfg_ok_limits _ (si_cfg _ _ _ H)). unfold is_u16 in Hw.
  apply count_in_inv; simpl; try lia.
  eapply push_flow_inv; [exact H|exact Hq| |done|simpl; rewrite len_singleton; lia|].
  - split; simpl; try done; try (width_unfold; lia).
    + rewrite zsum_singleton. simpl. lia.
    + rewrite len_singleton. lia.
    + by apply Forall_singleton.
  - simpl. rewrite zsum_singleton. simpl. lia.
Qed.

(** The queue of every class after an admission. *)
Lemma enqueue_backlog s class bytes (v : T) s' :
  enqueue class bytes v s = (s', Ok tt) ->
  forall k, backlog k s' =
    backlog k s ++ (if decide (k = queue_of class) then [(effective_class class s, v)] else []).
Proof.
  unfold enqueue. intros E k.
  destruct (max_packet_bytes _ <? _); [done|]. destruct (_ || _); [done|].
  destruct class as [|f w]; simpl in *.
  - injection E as <-. destruct k as [g|]; simpl.
    + by rewrite app_nil_r.
    + by rewrite fmap_app.
  - destruct (w =? 0); [done|].
    destruct (sch_flows s !! f) as [q|] eqn:Hq; (destruct (_ =? _); [done|]); injection E as <-;
      (destruct k as [g|]; simpl; [|by rewrite app_nil_r]);
      (destruct (decide (Some g = Some f)) as [[= ->]|Hne];
        [rewrite lookup_insert_eq, Hq | rewrite lookup_insert_ne, app_nil_r by congruence; done]).
    + simpl. by rewrite fmap_app.
    + done.
Qed.

Lemma enqueue_admits s class bytes (v : T) :
  sched_wf s -> 0 <= bytes ->
  match enqueue class bytes v s with
  | (s', Ok _) => admits class bytes s
  | (s', Err e) => ~ admits class bytes s /\ s' = s /\ into_inner e = v
  | _ => False
  end.
Proof.
  intros H Hb. pose proof (sched_wf_counters _ H).
  pose proof (cfg_ok_limits _ (si_cfg _ _ _ H)). pose proof (si_max_packets _ _ _ H).
  pose proof (sched_size _ _ _ H) as Hsize. pose proof (si_max_flows _ _ _ H).
  unfold enqueue, admits, sat_add.
  case_bool; [by split; [lia|]|]. destruct (_ || _) eqn:E; [split; [width_unfold; lia|done]|].
  destruct class as [|f w]; [lia|].
  case_bool; [by split; [lia|]|]. destruct (sch_flows s !! f) as [q|] eqn:Hq.
  - pose proof (qo_len _ _ (si_queues _ _ _ H _ _ Hq)). case_bool; [by split; [lia|]|]. lia.
  - rewrite Hsize. case_bool; [by split; [lia|]|]. lia.
Qed.

Lemma enqueue_wf s class bytes (v : T) :
  sched_wf s -> 0 <= bytes -> class_ok class ->
  sched_wf (enqueue class bytes v s).1 /\ config (enqueue class bytes v s).1 = config s.
Proof.
  intros H Hb Hc. pose proof (enqueue_admits s class bytes v H Hb) as Ha. revert Ha.
  unfold enqueue.
  destruct (max_packet_bytes _ <? _); [done|]. destruct (_ || _); [done|].
  destruct class as [|f w].
  - intros Ha. split; [|done]. by apply enqueue_control_ok.
  - destruct (w =? 0); [done|]. destruct (sch_flows s !! f) as [q|] eqn:Hq; (destruct (_ =? _); [done|]);
      intros Ha; (split; [|done]).
    + by eapply enqueue_existing_ok.
    + by eapply enqueue_new_ok.
Qed.

(** [enqueue] keeps the scheduler well formed, and admits exactly when the
    packet fits [max_packet_bytes], the packet and byte totals stay within the
    queue limits and, for data, the weight is not zero and the flow's queue (or,
    for a new flow, the flow table) has room.  An admitted packet is the last of
    its class's queue and every other queue is as it was; a refused one comes
    back in the error and leaves the scheduler untouched. *)
Lemma enqueue_admission s class bytes (v : T) :
  sched_wf s -> is_u64 bytes -> class_ok class ->
  let '(s', r) := enqueue class bytes v s in
  sched_wf s' /\ config s' = config s /\
  match r with
  | Ok _ =>
    admits class bytes s /\
    forall k, backlog k s' =
      backlog k s ++ (if decide (k = queue_of class) then [(effective_class class s, v)] else [])
  | Err e => ~ admits class bytes s /\ s' = s /\ into_inner e = v
  | Panic | OutOfFuel => False
  end.
Proof.
  intros H Hb Hc. unfold is_u64 in Hb.
  pose proof (enqueue_wf s class bytes v H ltac:(lia) Hc).
  pose proof (enqueue_admits s class bytes v H ltac:(lia)).
  pose proof (enqueue_backlog s class bytes v).
  destruct (enqueue class bytes v s) as [s' [[]| | |]]; simpl in *; naive_solver.
Qed.
End Admission.

(** ** A concrete scheduler: two flows and a control packet *)
Definition sample_config : SchedulerConfig := mkSchedulerConfig 100 4 3000 10 1500 16 8000 4 8 2 1500.
Definition sample_empty : Scheduler nat := mkScheduler sample_config [] ∅ [] 0 0.
Definition sample_scheduler : Scheduler nat :=
  let s := (enqueue (Data 1 1) 150 10%nat sample_empty).1 in
  let s := (enqueue (Data 2 3) 250 20%nat s).1 in
  let s := (enqueue (Data 1 1) 50 11%nat s).1 in
  (enqueue Control 40 1%nat s).1.

Lemma sample_empty_wf : sched_wf sample_empty.
Proof.
  apply (scheduler_new_wf sample_config); [|done].
  split; [done|]. split; [repeat constructor; done|]. done.
Qed.

Lemma sample_scheduler_wf : sched_wf sample_scheduler.
Proof.
  unfold sample_scheduler. repeat (apply enqueue_wf; [|lia|done || by unfold class_ok, is_u16; lia]).
  apply sample_empty_wf.
Qed.

