(* ===== verification/SchedulerRound.v ===== *)
(** The rounds of the deficit-round-robin scheduler of
    [sail-netstack/src/engine/scheduler.rs]: what a round dispatches, the limits
    it keeps, and that enough rounds drain the scheduler. *)
From S2P Require Import Prelude Scheduler.
From stdpp Require Import list gmap.
#[local] Open Scope Z_scope.

Section Round.
Context {T : Type} (elapsed : nat -> Z).
Implicit Types (s : Scheduler T) (q : FlowQueue T) (it : Item T) (rd : Round T).

(** ** What the two loops do *)

Definition dequeued (n b : Z) s : Scheduler T :=
  mkScheduler (config s) (sch_control s) (sch_flows s) (sch_active s)
    (queued_packets s - n) (queued_bytes s - b).

Lemma dequeued_inv n b s k l :
  sched_inv n b s -> 0 <= k -> 0 <= l -> sched_inv (n - k) (b - l) (dequeued k l s).
Proof.
  intros H Hk Hl. pose proof (si_packets _ _ _ H). pose proof (si_bytes _ _ _ H).
  pose proof (si_max_packets _ _ _ H). pose proof (si_max_bytes _ _ _ H).
  split; simpl; try apply H; lia.
Qed.

(** A round after [sent] was taken from a queue and processed as [class]. *)
Definition advanced (class : WorkClass) (sent : list (Item T)) (control reads : nat) (exhausted : bool) rd
    : Round T :=
  let st := rd_stats rd in
  mkRound (dequeued (len sent) (zsum it_bytes sent) (rd_sched rd))
    (mkStats (st_packets st + len sent) (st_bytes st + zsum it_bytes sent)
       (st_control_packets st + Z.of_nat control) (st_active_flows_visited st) exhausted)
    reads (rd_out rd ++ ((fun it => (class, it_value it)) <$> sent)).

Lemma advanced_nil class rd :
  advanced class [] 0 (rd_reads rd) (st_time_budget_exhausted (rd_stats rd)) rd = rd.
Proof.
  destruct rd as [[? ? ? ? ? ?] [? ? ? ? ?] ? ?]. unfold advanced, dequeued. simpl.
  change (len (@nil (Item T))) with 0. rewrite zsum_nil, !Z.sub_0_r, !Z.add_0_r, app_nil_r. done.
Qed.

(** Room for [l] in the counters, as well-formedness gives it. *)
Definition counters_fit (l : list (Item T)) rd : Prop :=
  len l <= queued_packets (rd_sched rd) <= u64_max /\
  zsum it_bytes l <= queued_bytes (rd_sched rd) <= u64_max /\
  0 <= st_packets (rd_stats rd) /\ st_packets (rd_stats rd) + queued_packets (rd_sched rd) <= u64_max /\
  0 <= st_bytes (rd_stats rd) /\ st_bytes (rd_stats rd) + queued_bytes (rd_sched rd) <= u64_max.

Definition limits_ok (mp mb : Z) rd : Prop :=
  st_packets (rd_stats rd) <= mp <= u64_max /\ st_bytes (rd_stats rd) <= mb <= u64_max.

Lemma account_dequeue_fits it l rd :
  counters_fit (it :: l) rd -> 0 <= it_bytes it -> 0 <= zsum it_bytes l ->
  account_dequeue (it_bytes it) rd =
  mkRound (dequeued 1 (it_bytes it) (rd_sched rd))
    (mkStats (st_packets (rd_stats rd) + 1) (st_bytes (rd_stats rd) + it_bytes it)
       (st_control_packets (rd_stats rd)) (st_active_flows_visited (rd_stats rd))
       (st_time_budget_exhausted (rd_stats rd)))
    (rd_reads rd) (rd_out rd).
Proof.
  intros H Hb Hl. unfold counters_fit in H. rewrite len_cons, zsum_cons in H.
  pose proof (len_nonneg l). unfold account_dequeue, dequeued.
  rewrite !uadd_small, !usub_small by lia. done.
Qed.

Lemma fits_round_spec (st : RoundStats) bytes mp mb :
  st_bytes st + bytes <= u64_max ->
  fits_round st bytes mp mb = true <-> st_packets st < mp /\ st_bytes st + bytes <= mb.
Proof. intros H. unfold fits_round, sat_add. rewrite andb_true_iff. lia. Qed.

(** The state the loops continue with after one item. *)
Definition after_item (class : WorkClass) it rd : Round T :=
  advanced class [it] 0 (S (rd_reads rd)) (st_time_budget_exhausted (rd_stats rd)) rd.

Lemma advanced_after class it sent reads exhausted rd :
  advanced class sent 0 reads exhausted (after_item class it rd) =
  advanced class (it :: sent) 0 reads exhausted rd.
Proof.
  unfold after_item, advanced, dequeued; simpl. rewrite len_singleton, zsum_singleton, len_cons, zsum_cons.
  rewrite <- app_assoc. simpl. f_equal; f_equal; lia.
Qed.

Lemma counters_fit_after class it l rd :
  counters_fit (it :: l) rd -> 0 <= it_bytes it -> counters_fit l (after_item class it rd).
Proof.
  unfold counters_fit, after_item, advanced, dequeued; simpl.
  rewrite len_singleton, zsum_singleton, len_cons, zsum_cons. lia.
Qed.

Lemma dispatch_step class it l rd :
  counters_fit (it :: l) rd -> 0 <= it_bytes it -> 0 <= zsum it_bytes l ->
  out_of_time elapsed (process class (it_value it) (account_dequeue (it_bytes it) rd)) =
  (after_item class it rd, max_time_per_round (config (rd_sched rd)) <=? elapsed (rd_reads rd)).
Proof.
  intros H H1 H2. rewrite (account_dequeue_fits it l) by done.
  unfold out_of_time, process, after_item, advanced, dequeued; simpl.
  rewrite len_singleton, zsum_singleton, Z.add_0_r. done.
Qed.

(** Why a flow's visit dispatched nothing. *)
Definition blocked (mp mb : Z) (deficit contiguous : Z) it rd : Prop :=
  deficit < it_bytes it \/
  max_contiguous_flow_bytes (config (rd_sched rd)) < contiguous + it_bytes it \/
  ~ (st_packets (rd_stats rd) < mp /\ st_bytes (rd_stats rd) + it_bytes it <= mb).

Lemma flow_loop_spec mp mb f w items deficit contiguous rd :
  Forall (fun it => 0 <= it_bytes it) items -> counters_fit items rd -> limits_ok mp mb rd ->
  0 <= deficit <= u64_max ->
  0 <= contiguous <= max_contiguous_flow_bytes (config (rd_sched rd)) ->
  contiguous + zsum it_bytes items <= u64_max ->
  exists sent rest reads exhausted,
    items = sent ++ rest /\
    flow_loop elapsed mp mb f w items deficit (zsum it_bytes items) contiguous rd =
      (mkFlowQueue w (deficit - zsum it_bytes sent) (zsum it_bytes rest) rest,
       advanced (Data f w) sent 0 reads exhausted rd) /\
    limits_ok mp mb (advanced (Data f w) sent 0 reads exhausted rd) /\
    contiguous + zsum it_bytes sent <= max_contiguous_flow_bytes (config (rd_sched rd)) /\
    zsum it_bytes sent <= deficit /\
    (exhausted = true -> st_time_budget_exhausted (rd_stats rd) = true \/ sent <> []) /\
    (sent = [] -> forall it, head items = Some it -> blocked mp mb deficit contiguous it rd).
Proof.
  revert deficit contiguous rd.
  induction items as [|it items IH]; intros deficit contiguous rd Hall Hfit Hlim Hd Hc Hsum.
  - exists [], [], (rd_reads rd), (st_time_budget_exhausted (rd_stats rd)).
    rewrite advanced_nil, zsum_nil, Z.add_0_r, Z.sub_0_r. simpl.
    repeat split; try done; try lia; try (by left). apply Hlim. apply Hlim. apply Hlim. apply Hlim.
  - apply Forall_cons in Hall as [Hit Hall]. pose proof (zsum_nonneg _ _ Hall) as Hnn.
    assert (zsum it_bytes (it :: items) = it_bytes it + zsum it_bytes items) as Hz by apply zsum_cons.
    rewrite Hz in Hsum.
    assert (st_bytes (rd_stats rd) + it_bytes it <= u64_max) as Hsb
      by (unfold counters_fit in Hfit; rewrite Hz in Hfit; lia).
    pose proof (fits_round_spec (rd_stats rd) (it_bytes it) mp mb Hsb) as Hf.
    cbn [flow_loop]. destruct (_ || _) eqn:E.
    + exists [], (it :: items), (rd_reads rd), (st_time_budget_exhausted (rd_stats rd)).
      rewrite advanced_nil, zsum_nil, Z.add_0_r, Z.sub_0_r.
      split; [done|]. split; [done|]. split; [done|]. split; [lia|]. split; [lia|].
      split; [by left|]. intros _ ? [= <-]. unfold blocked. rewrite <- Hf.
      unfold sat_add in E. destruct (fits_round _ _ _ _); [|by right; right].
      simpl in E. lia.
    + rewrite (dispatch_step (Data f w) it items rd Hfit Hit Hnn).
      apply orb_false_iff in E as [E E3]. apply negb_false_iff, Hf in E3.
      unfold sat_add in E.
      assert (limits_ok mp mb (after_item (Data f w) it rd)) as Hlim'.
      { unfold limits_ok, after_item, advanced in *; simpl. rewrite len_singleton, zsum_singleton. lia. }
      rewrite !usub_small, uadd_small by (rewrite ?Hz; lia).
      replace (zsum it_bytes (it :: items) - it_bytes it) with (zsum it_bytes items) by lia.
      destruct (_ <=? _).
      * exists [it], items, (S (rd_reads rd)), true. rewrite zsum_singleton.
        split; [done|]. split; [done|]. split; [exact Hlim'|]. split; [lia|]. split; [lia|].
        split; [by right|done].
      * destruct (IH (deficit - it_bytes it) (contiguous + it_bytes it) (after_item (Data f w) it rd))
          as (sent & rest & reads & ex & -> & Heq & L & C1 & C2 & C3 & _); try done; simpl; try lia.
        { eapply counters_fit_after; done. }
        exists (it :: sent), rest, reads, ex. rewrite zsum_cons.
        rewrite Heq, advanced_after. rewrite advanced_after in L. simpl in C1.
        split; [done|]. split; [do 2 f_equal; lia|]. split; [done|]. split; [lia|]. split; [lia|].
        split; [by right|done].
Qed.

Definition after_control it rest rd : Round T :=
  set_control rest (advanced Control [it] 1 (S (rd_reads rd)) (st_time_budget_exhausted (rd_stats rd)) rd).

Lemma advanced_after_control it rest rest' sent n reads exhausted rd :
  set_control rest' (advanced Control sent n reads exhausted (after_control it rest rd)) =
  set_control rest' (advanced Control (it :: sent) (S n) reads exhausted rd).
Proof.
  unfold after_control, set_control, advanced, dequeued; simpl.
  rewrite len_singleton, zsum_singleton, len_cons, zsum_cons, <- app_assoc.
  simpl. f_equal; f_equal; lia.
Qed.

Lemma control_dispatch it l rd :
  counters_fit (it :: l) rd -> 0 <= it_bytes it -> 0 <= zsum it_bytes l ->
  0 <= st_control_packets (rd_stats rd) < u64_max ->
  out_of_time elapsed (process Control (it_value it)
    (count_control (account_dequeue (it_bytes it) (set_control l rd)))) =
  (after_control it l rd, max_time_per_round (config (rd_sched rd)) <=? elapsed (rd_reads rd)).
Proof.
  intros H H1 H2 H3.
  rewrite (account_dequeue_fits it l (set_control l rd)) by done.
  unfold out_of_time, process, after_control, set_control, count_control, advanced, dequeued; simpl.
  rewrite len_singleton, zsum_singleton, uadd_small by (width_unfold; lia). done.
Qed.

Lemma control_loop_spec mp mb ctl rd :
  sch_control (rd_sched rd) = ctl -> max_control_packets (config (rd_sched rd)) <= u64_max ->
  Forall (fun it => 0 <= it_bytes it) ctl -> counters_fit ctl rd -> limits_ok mp mb rd ->
  0 <= st_control_packets (rd_stats rd) <= max_control_packets (config (rd_sched rd)) ->
  exists sent rest reads exhausted returned,
    ctl = sent ++ rest /\
    control_loop elapsed mp mb ctl rd =
      (set_control rest (advanced Control sent (length sent) reads exhausted rd), returned) /\
    limits_ok mp mb (advanced Control sent (length sent) reads exhausted rd) /\
    st_control_packets (rd_stats rd) + len sent <= max_control_packets (config (rd_sched rd)) /\
    (exhausted = true -> st_time_budget_exhausted (rd_stats rd) = true \/ sent <> []) /\
    (returned = true -> sent <> []) /\
    (returned = false -> exhausted = st_time_budget_exhausted (rd_stats rd)) /\
    (sent = [] -> forall it, head ctl = Some it ->
       st_control_packets (rd_stats rd) = max_control_packets (config (rd_sched rd)) \/
       ~ (st_packets (rd_stats rd) < mp /\ st_bytes (rd_stats rd) + it_bytes it <= mb)).
Proof.
  revert rd. induction ctl as [|it ctl IH]; intros rd Hctl Hmax Hall Hfit Hlim Hcp.
  - exists [], [], (rd_reads rd), (st_time_budget_exhausted (rd_stats rd)), false.
    rewrite advanced_nil. replace (set_control [] rd) with rd
      by (destruct rd as [[] ? ? ?]; simpl in *; by subst).
    cbn [control_loop]. change (len (@nil (Item T))) with 0.
    destruct (_ <? _); (repeat (split; [first [done | lia | by left]|]); done).
  - apply Forall_cons in Hall as [Hit Hall]. pose proof (zsum_nonneg _ _ Hall) as Hnn.
    assert (st_bytes (rd_stats rd) + it_bytes it <= u64_max) as Hsb
      by (unfold counters_fit in Hfit; rewrite zsum_cons in Hfit; lia).
    cbn [control_loop].
    destruct (_ <? _) eqn:Ec; [destruct (fits_round _ _ _ _) eqn:Ef|]; cbn [negb].
    2,3: exists [], (it :: ctl), (rd_reads rd), (st_time_budget_exhausted (rd_stats rd)), false;
      rewrite advanced_nil; replace (set_control (it :: ctl) rd) with rd
        by (destruct rd as [[] ? ? ?]; simpl in *; by subst);
      change (len (@nil (Item T))) with 0;
      (repeat (split; [first [done | lia | by left]|]); intros _ ? [= <-]; rewrite <- (fits_round_spec _ _ _ _ Hsb), ?Ef; first [by right | left; lia]).
    apply Z.ltb_lt in Ec. apply (fits_round_spec _ _ _ _ Hsb) in Ef.
    rewrite (control_dispatch it ctl rd Hfit Hit Hnn) by (width_unfold; lia).
    assert (limits_ok mp mb (after_control it ctl rd)) as Hlim'.
    { unfold limits_ok, after_control, set_control, advanced in *; simpl.
      rewrite len_singleton, zsum_singleton. lia. }
    destruct (_ <=? _).
    + exists [it], ctl, (S (rd_reads rd)), true, true. rewrite len_singleton.
      split; [done|]. split; [done|]. split; [exact Hlim'|]. split; [lia|].
      split; [by right|]. done.
    + destruct (IH (after_control it ctl rd))
        as (sent & rest & reads & ex & ret & -> & Heq & L & C1 & C2 & C3 & C4 & _); try done; simpl; try lia.
      { eapply (counters_fit_after Control); done. }
      exists (it :: sent), rest, reads, ex, ret. rewrite Heq, advanced_after_control. simpl in C1. rewrite len_cons.
      split; [done|]. split; [done|]. split.
      { unfold limits_ok, after_control, set_control, advanced in L |- *; simpl in L |- *.
        rewrite len_singleton, zsum_singleton in L. rewrite len_cons, zsum_cons. lia. }
      split; [lia|]. split; [by right|]. split; [done|]. split; [done|]. done.
Qed.

(** ** The visit of a flow *)

(** A flow's queue when its visit begins: one quantum per unit of weight more. *)
Definition topped_up (c : SchedulerConfig) q : FlowQueue T :=
  mkFlowQueue (fq_weight q) (sat_add (fq_deficit q) (sat_mul (quantum_bytes c) (fq_weight q)))
    (fq_bytes q) (fq_items q).

Lemma topped_up_deficit c q :
  cfg_ok c -> queue_ok c q ->
  Z.min (fq_deficit q + quantum_bytes c) u64_max <= fq_deficit (topped_up c q) <= u64_max.
Proof.
  intros Hc Hq. pose proof (cfg_ok_limits _ Hc). pose proof (qo_weight _ _ Hq). pose proof (qo_deficit _ _ Hq).
  simpl. unfold sat_add, sat_mul.
  assert (quantum_bytes c * 1 <= quantum_bytes c * fq_weight q) by (apply Z.mul_le_mono_nonneg_l; lia). lia.
Qed.

(** What the visit of [f], with queue [q], does to a round. *)
Record visited (mp mb : Z) (f : FlowId) q rd rd' (sent rest : list (Item T)) : Prop := {
  vd_items : fq_items q = sent ++ rest;
  vd_wf : sched_wf (rd_sched rd');
  vd_config : config (rd_sched rd') = config (rd_sched rd);
  vd_control : sch_control (rd_sched rd') = sch_control (rd_sched rd);
  vd_active : sch_active (rd_sched rd') =
    sch_active (rd_sched rd) ++ (match rest with [] => [] | _ => [f] end);
  vd_flows : forall g, sch_flows (rd_sched rd') !! g =
    if decide (g = f) then
      match rest with
      | [] => None
      | _ => Some (mkFlowQueue (fq_weight q)
                     (fq_deficit (topped_up (config (rd_sched rd)) q) - zsum it_bytes sent)
                     (zsum it_bytes rest) rest)
      end
    else sch_flows (rd_sched rd) !! g;
  vd_out : rd_out rd' = rd_out rd ++ ((fun it => (Data f (fq_weight q), it_value it)) <$> sent);
  vd_packets : st_packets (rd_stats rd') = st_packets (rd_stats rd) + len sent;
  vd_queued : queued_packets (rd_sched rd') = queued_packets (rd_sched rd) - len sent;
  vd_bytes : st_bytes (rd_stats rd') = st_bytes (rd_stats rd) + zsum it_bytes sent;
  vd_queued_bytes : queued_bytes (rd_sched rd') = queued_bytes (rd_sched rd) - zsum it_bytes sent;
  vd_controls : st_control_packets (rd_stats rd') = st_control_packets (rd_stats rd);
  vd_limits : limits_ok mp mb rd';
  vd_contiguous : zsum it_bytes sent <= max_contiguous_flow_bytes (config (rd_sched rd));
  vd_deficit : zsum it_bytes sent <= fq_deficit (topped_up (config (rd_sched rd)) q);
  vd_time : st_time_budget_exhausted (rd_stats rd') = true ->
    st_time_budget_exhausted (rd_stats rd) = true \/ sent <> [];
  vd_idle : sent = [] -> forall it, head (fq_items q) = Some it ->
    blocked mp mb (fq_deficit (topped_up (config (rd_sched rd)) q)) 0 it rd
}.
#[local] Arguments vd_items {_ _ _ _ _ _ _ _} _.
#[local] Arguments vd_wf {_ _ _ _ _ _ _ _} _.
#[local] Arguments vd_config {_ _ _ _ _ _ _ _} _.
#[local] Arguments vd_control {_ _ _ _ _ _ _ _} _.
#[local] Arguments vd_active {_ _ _ _ _ _ _ _} _.
#[local] Arguments vd_flows {_ _ _ _ _ _ _ _} _.
#[local] Arguments vd_out {_ _ _ _ _ _ _ _} _.
#[local] Arguments vd_packets {_ _ _ _ _ _ _ _} _.
#[local] Arguments vd_queued {_ _ _ _ _ _ _ _} _.
#[local] Arguments vd_bytes {_ _ _ _ _ _ _ _} _.
#[local] Arguments vd_queued_bytes {_ _ _ _ _ _ _ _} _.
#[local] Arguments vd_controls {_ _ _ _ _ _ _ _} _.
#[local] Arguments vd_limits {_ _ _ _ _ _ _ _} _.
#[local] Arguments vd_contiguous {_ _ _ _ _ _ _ _} _.
#[local] Arguments vd_deficit {_ _ _ _ _ _ _ _} _.
#[local] Arguments vd_time {_ _ _ _ _ _ _ _} _.
#[local] Arguments vd_idle {_ _ _ _ _ _ _ _} _.

Lemma rest_queue_ok c q sent rest d :
  queue_ok c q -> fq_items q = sent ++ rest -> rest <> [] -> 0 <= d <= u64_max ->
  queue_ok c (mkFlowQueue (fq_weight q) d (zsum it_bytes rest) rest).
Proof.
  intros H Hi Hr Hd. pose proof (qo_len _ _ H) as Hl. rewrite Hi, len_app in Hl.
  pose proof (len_nonneg sent). split; simpl; try done; try apply H; try lia.
  pose proof (qo_each _ _ H) as He. rewrite Hi in He. by apply Forall_app in He as [_ ?].
Qed.

Lemma item_ok_nonneg c (l : list (Item T)) : Forall (item_ok c) l -> Forall (fun it => 0 <= it_bytes it) l.
Proof. intros H. eapply Forall_impl; [exact H|]. unfold item_ok. intros; lia. Qed.

Lemma visit_spec mp mb f q rd :
  sched_inv (len (fq_items q)) (zsum it_bytes (fq_items q)) (rd_sched rd) ->
  sch_flows (rd_sched rd) !! f = None -> queue_ok (config (rd_sched rd)) q ->
  len (sch_active (rd_sched rd)) < max_active_flows (config (rd_sched rd)) ->
  counters_fit (fq_items q) rd -> limits_ok mp mb rd ->
  exists sent rest, visited mp mb f q rd (visit elapsed mp mb f q rd) sent rest.
Proof.
  intros Hinv Hf Hq Hlen Hfit Hlim.
  pose proof (si_cfg _ _ _ Hinv) as Hc. pose proof (cfg_ok_limits _ Hc).
  pose proof (topped_up_deficit _ _ Hc Hq) as Hd. pose proof (qo_deficit _ _ Hq).
  destruct (flow_loop_spec mp mb f (fq_weight q) (fq_items q)
    (fq_deficit (topped_up (config (rd_sched rd)) q)) 0 (count_visit rd))
    as (sent & rest & reads & ex & Hi & Heq & L & C1 & C2 & C3 & C4); try done; simpl in *; try lia.
  { eapply item_ok_nonneg, Hq. }
  { unfold counters_fit in Hfit. lia. }
  exists sent, rest.
  pose proof (item_ok_nonneg _ _ (qo_each _ _ Hq)) as Hnn. rewrite Hi in Hnn.
  apply Forall_app in Hnn as [Hn1%zsum_nonneg Hn2%zsum_nonneg].
  pose proof (dequeued_inv _ _ _ (len sent) (zsum it_bytes sent) Hinv (len_nonneg _) Hn1) as Hinv'.
  rewrite Hi, len_app, zsum_app in Hinv'.
  replace (len sent + len rest - len sent) with (len rest) in Hinv' by lia.
  replace (zsum it_bytes sent + zsum it_bytes rest - zsum it_bytes sent) with (zsum it_bytes rest) in Hinv' by lia.
  unfold visit. rewrite <- (qo_bytes _ _ Hq) in Heq.
  change (flow_loop elapsed mp mb f (fq_weight q) (fq_items q)
    (sat_add (fq_deficit q) (sat_mul (quantum_bytes (config (rd_sched (count_visit rd)))) (fq_weight q)))
    (fq_bytes q) 0 (count_visit rd)) with
    (flow_loop elapsed mp mb f (fq_weight q) (fq_items q)
      (sat_add (fq_deficit q) (sat_mul (quantum_bytes (config (rd_sched rd))) (fq_weight q)))
      (fq_bytes q) 0 (count_visit rd)).
  rewrite Heq. destruct rest as [|it rest]; cbn [fq_items].
  - split; simpl; try done; try lia.
    + by rewrite app_nil_r.
    + intros g. case_decide; [by subst|done].
  - split; simpl; try done; try lia.
    + eapply (push_flow_inv _ _ _ f _ 0 0 Hinv'); simpl; try done; try lia.
      eapply rest_queue_ok; try done. simpl. unfold sat_add, sat_mul in *. lia.
    + intros g. case_decide; [subst; by rewrite lookup_insert_eq|by rewrite lookup_insert_ne].
Qed.

(** ** The visits of a round *)

(** The calls of [process] for control ([None]) or for a flow. *)
Definition dispatched (k : option FlowId) (out : list (WorkClass * T)) : list (WorkClass * T) :=
  filter (fun p => queue_of p.1 = k) out.

Lemma dispatched_app k out out' : dispatched k (out ++ out') = dispatched k out ++ dispatched k out'.
Proof. apply filter_app. Qed.

Lemma dispatched_len k out : len (dispatched k out) <= len out.
Proof. unfold len, dispatched. pose proof (length_filter (fun p => queue_of p.1 = k) out). lia. Qed.

Lemma dispatched_class k class (l : list (Item T)) :
  dispatched k ((fun it => (class, it_value it)) <$> l) =
  if decide (queue_of class = k) then (fun it => (class, it_value it)) <$> l else [].
Proof.
  unfold dispatched. induction l as [|it l IH]; [by case_decide|].
  rewrite fmap_cons. case_decide as H.
  - rewrite filter_cons_True, IH by done. done.
  - rewrite filter_cons_False, IH by done. done.
Qed.

(** What a round did for a flow that had queue [q]: a prefix of the queue went
    out, in order and with its weight, and it is no more than the flow was
    entitled to. *)
Definition served (c : SchedulerConfig) (f : FlowId) q rd : Prop :=
  exists sent,
    fq_items q = sent ++ flow_items (sch_flows (rd_sched rd)) f /\
    dispatched (Some f) (rd_out rd) = ((fun it => (Data f (fq_weight q), it_value it)) <$> sent) /\
    (forall q', sch_flows (rd_sched rd) !! f = Some q' -> fq_weight q' = fq_weight q) /\
    zsum it_bytes sent <= max_contiguous_flow_bytes c /\
    zsum it_bytes sent <= fq_deficit (topped_up c q).

(** The counters of a round begun at [s], with [n] packets and [b] bytes queued
    or dispatched in all. *)
Record counted (s : Scheduler T) (mp mb n b : Z) rd : Prop := {
  co_wf : sched_wf (rd_sched rd);
  co_config : config (rd_sched rd) = config s;
  co_packets : st_packets (rd_stats rd) = len (rd_out rd);
  co_bytes : 0 <= st_bytes (rd_stats rd);
  co_zero : st_packets (rd_stats rd) = 0 -> st_bytes (rd_stats rd) = 0;
  co_limits : limits_ok mp mb rd;
  co_total : st_packets (rd_stats rd) + queued_packets (rd_sched rd) = n;
  co_total_bytes : st_bytes (rd_stats rd) + queued_bytes (rd_sched rd) = b;
  co_controls : 0 <= st_control_packets (rd_stats rd) <= max_control_packets (config s);
  co_control_out : len (dispatched None (rd_out rd)) = st_control_packets (rd_stats rd);
  co_time : st_time_budget_exhausted (rd_stats rd) = true -> 0 < st_packets (rd_stats rd)
}.
#[local] Arguments co_wf {_ _ _ _ _ _} _.
#[local] Arguments co_config {_ _ _ _ _ _} _.
#[local] Arguments co_packets {_ _ _ _ _ _} _.
#[local] Arguments co_bytes {_ _ _ _ _ _} _.
#[local] Arguments co_zero {_ _ _ _ _ _} _.
#[local] Arguments co_limits {_ _ _ _ _ _} _.
#[local] Arguments co_total {_ _ _ _ _ _} _.
#[local] Arguments co_total_bytes {_ _ _ _ _ _} _.
#[local] Arguments co_controls {_ _ _ _ _ _} _.
#[local] Arguments co_control_out {_ _ _ _ _ _} _.
#[local] Arguments co_time {_ _ _ _ _ _} _.

(** The flows of a round begun at [s], where control work [ctl] went out first;
    [todo] are those still to visit. *)
Record visiting s (ctl : list (WorkClass * T)) (mp mb : Z) (todo done : list FlowId) rd : Prop := {
  vi_control : ctl ++ ((fun it => (Control, it_value it)) <$> sch_control (rd_sched rd)) = backlog None s;
  vi_control_out : dispatched None (rd_out rd) = ctl;
  vi_active : sch_active (rd_sched rd) = todo ++ done;
  vi_todo : forall f, f ∈ todo ->
    sch_flows (rd_sched rd) !! f = sch_flows s !! f /\ dispatched (Some f) (rd_out rd) = [];
  vi_served : forall f q, sch_flows s !! f = Some q -> served (config s) f q rd;
  vi_none : forall f, sch_flows s !! f = None ->
    sch_flows (rd_sched rd) !! f = None /\ dispatched (Some f) (rd_out rd) = [];
  vi_idle : st_packets (rd_stats rd) = 0 -> 1 <= mp -> max_packet_bytes (config s) <= mb ->
    forall f q, f ∉ todo -> sch_flows s !! f = Some q ->
      sch_flows (rd_sched rd) !! f = Some (topped_up (config s) q) /\
      exists it, head (fq_items q) = Some it /\ fq_deficit (topped_up (config s) q) < it_bytes it
}.
#[local] Arguments vi_control {_ _ _ _ _ _ _} _.
#[local] Arguments vi_control_out {_ _ _ _ _ _ _} _.
#[local] Arguments vi_active {_ _ _ _ _ _ _} _.
#[local] Arguments vi_todo {_ _ _ _ _ _ _} _.
#[local] Arguments vi_served {_ _ _ _ _ _ _} _.
#[local] Arguments vi_none {_ _ _ _ _ _ _} _.
#[local] Arguments vi_idle {_ _ _ _ _ _ _} _.

(** The clock does not matter to them. *)
Lemma counted_out_of_time s mp mb n b rd :
  counted s mp mb n b rd -> counted s mp mb n b (out_of_time elapsed rd).1.
Proof. intros []. by split. Qed.
Lemma visiting_out_of_time s ctl mp mb todo done rd :
  visiting s ctl mp mb todo done rd -> visiting s ctl mp mb todo done (out_of_time elapsed rd).1.
Proof. intros []. by split. Qed.
Lemma counted_exhausted s mp mb n b rd :
  counted s mp mb n b rd -> 0 < st_packets (rd_stats rd) -> counted s mp mb n b (mark_exhausted rd).
Proof. intros [] H. by split. Qed.
Lemma visiting_exhausted s ctl mp mb todo done rd :
  visiting s ctl mp mb todo done rd -> visiting s ctl mp mb todo done (mark_exhausted rd).
Proof. intros []. by split. Qed.

Lemma served_init c f q rd :
  sch_flows (rd_sched rd) !! f = Some q -> dispatched (Some f) (rd_out rd) = [] ->
  cfg_ok c -> queue_ok c q -> served c f q rd.
Proof.
  intros H1 H2 Hc Hq. exists []. rewrite (flow_items_Some _ _ _ H1), zsum_nil.
  pose proof (cfg_ok_limits _ Hc). pose proof (topped_up_deficit _ _ Hc Hq). pose proof (qo_deficit _ _ Hq).
  split; [done|]. split; [done|]. split; [|lia]. intros q' Hq'. rewrite H1 in Hq'. by injection Hq' as ->.
Qed.

Lemma served_frame c f q rd rd' :
  served c f q rd -> sch_flows (rd_sched rd') !! f = sch_flows (rd_sched rd) !! f ->
  dispatched (Some f) (rd_out rd') = dispatched (Some f) (rd_out rd) -> served c f q rd'.
Proof.
  intros (sent & A & B & C & D & E) H1 H2. exists sent. unfold flow_items in *. rewrite H1, H2. done.
Qed.

(** The front flow is popped and visited. *)
Lemma visiting_pop s ctl mp mb n b f todo done rd :
  counted s mp mb n b rd -> visiting s ctl mp mb (f :: todo) done rd -> n <= u64_max -> b <= u64_max ->
  let rd1 := set_flows (delete f (sch_flows (rd_sched rd))) (todo ++ done) rd in
  exists q sent rest,
    sch_flows (rd_sched rd) !! f = Some q /\ sch_flows s !! f = Some q /\ (f ∉ todo ++ done) /\
    queue_ok (config s) q /\ visited mp mb f q rd1 (visit elapsed mp mb f q rd1) sent rest.
Proof.
  intros C H Hn Hb rd1.
  destruct (pop_flow_inv (rd_sched rd) f (todo ++ done) (co_wf C) (vi_active H))
    as (q & Hq & Hqo & Hnot & Hinv).
  destruct (vi_todo H f) as [Hs _]; [left|].
  pose proof (co_limits C) as Hlim.
  destruct (visit_spec mp mb f q rd1) as (sent & rest & Hv); simpl; try done.
  - apply lookup_delete_eq.
  - pose proof (si_max_flows _ _ _ (co_wf C)) as Hm.
    rewrite (vi_active H), <- app_comm_cons, len_cons in Hm. lia.
  - pose proof (co_packets C). pose proof (co_bytes C).
    pose proof (len_nonneg (rd_out rd)).
    pose proof (co_total C). pose proof (co_total_bytes C).
    pose proof (items_bytes_nonneg _ _ (qo_each _ _ Hqo)).
    pose proof (sched_counters _ _ _ Hinv (len_nonneg _) ltac:(lia)) as Hcnt. simpl in Hcnt.
    pose proof (len_nonneg (sch_control (rd_sched rd))).
    unfold counters_fit; simpl. lia.
  - exists q, sent, rest. rewrite <- Hs. rewrite <- (co_config C). done.
Qed.

(** What the visit does to the other flows. *)
Lemma visited_others mp mb f q rd rd' sent rest g :
  visited mp mb f q rd rd' sent rest -> g <> f ->
  sch_flows (rd_sched rd') !! g = sch_flows (rd_sched rd) !! g /\
  dispatched (Some g) (rd_out rd') = dispatched (Some g) (rd_out rd).
Proof.
  intros V Hg. rewrite (vd_flows V), decide_False by done. split; [done|].
  rewrite (vd_out V), dispatched_app, dispatched_class, decide_False by (simpl; congruence).
  apply app_nil_r.
Qed.

Lemma visited_served mp mb f q rd rd' sent rest :
  visited mp mb f q rd rd' sent rest -> dispatched (Some f) (rd_out rd) = [] ->
  served (config (rd_sched rd)) f q rd'.
Proof.
  intros V Hd. exists sent.
  pose proof (vd_flows V f) as Hf. rewrite decide_True in Hf by done.
  split; [|split; [|split; [|split]]].
  - rewrite (vd_items V). unfold flow_items. rewrite Hf. by destruct rest.
  - rewrite (vd_out V), dispatched_app, dispatched_class, Hd, decide_True by done. done.
  - intros q' Hq'. rewrite Hf in Hq'. destruct rest; [done|]. by injection Hq' as <-.
  - apply V.
  - apply V.
Qed.

(** If nothing was dispatched, the flow only got its quantum. *)
Lemma visited_idle mp mb f q rd rd' sent rest :
  visited mp mb f q rd rd' sent rest -> queue_ok (config (rd_sched rd)) q -> cfg_ok (config (rd_sched rd)) ->
  st_packets (rd_stats rd') = 0 -> 0 <= st_packets (rd_stats rd) -> st_bytes (rd_stats rd) = 0 ->
  1 <= mp -> max_packet_bytes (config (rd_sched rd)) <= mb ->
  sch_flows (rd_sched rd') !! f = Some (topped_up (config (rd_sched rd)) q) /\
  exists it, head (fq_items q) = Some it /\ fq_deficit (topped_up (config (rd_sched rd)) q) < it_bytes it.
Proof.
  intros V Hq Hc Hp Hp0 Hb0 Hmp Hmb. pose proof (len_nonneg sent).
  rewrite (vd_packets V) in Hp.
  assert (sent = []) as -> by (destruct sent; [done|]; rewrite len_cons in *; pose proof (len_nonneg sent); lia).
  pose proof (vd_flows V f) as Hf. rewrite decide_True in Hf by done.
  pose proof (vd_items V) as Hi. simpl in Hi. subst rest.
  pose proof (qo_items _ _ Hq). destruct (fq_items q) as [|it l] eqn:El; [done|].
  split.
  - rewrite Hf, zsum_nil, Z.sub_0_r. unfold topped_up. rewrite <- El, (qo_bytes _ _ Hq). done.
  - exists it. split; [done|].
    pose proof (vd_idle V eq_refl it) as Hblk. rewrite El in Hblk.
    pose proof (cfg_ok_limits _ Hc). pose proof (qo_each _ _ Hq) as He. rewrite El in He.
    apply Forall_cons in He as [He _]. unfold item_ok in He.
    destruct (Hblk eq_refl) as [?|[?|Hno]]; [done|lia|]. exfalso. apply Hno. lia.
Qed.

Lemma visited_counted s mp mb n b f q rd flows active rd' sent rest :
  counted s mp mb n b rd -> visited mp mb f q (set_flows flows active rd) rd' sent rest -> 0 <= zsum it_bytes sent ->
  counted s mp mb n b rd'.
Proof.
  intros C V Hnn. pose proof (len_nonneg sent). pose proof (len_nonneg (rd_out rd)).
  pose proof (co_packets C) as Hp.
  split; try apply V; rewrite ?(vd_packets V), ?(vd_bytes V), ?(vd_queued V), ?(vd_queued_bytes V), ?(vd_controls V); simpl.
  - rewrite (vd_config V). apply C.
  - rewrite (vd_out V), len_app, len_fmap. simpl. lia.
  - pose proof (co_bytes C). lia.
  - intros Hz. pose proof (co_zero C). destruct sent as [|it sent]; [rewrite zsum_nil; change (len (@nil (Item T))) with 0 in Hz; lia|].
    rewrite len_cons in Hz. pose proof (len_nonneg sent). lia.
  - pose proof (co_total C). lia.
  - pose proof (co_total_bytes C). lia.
  - apply C.
  - rewrite (vd_out V), dispatched_app, dispatched_class, decide_False, app_nil_r by done. apply C.
  - intros He. destruct (vd_time V He) as [Ht|Ht].
    + pose proof (co_time C Ht). lia.
    + destruct sent; [done|]. rewrite len_cons. pose proof (len_nonneg sent). lia.
Qed.

Lemma visiting_visit s ctl mp mb n b f todo done rd :
  counted s mp mb n b rd -> visiting s ctl mp mb (f :: todo) done rd -> n <= u64_max -> b <= u64_max ->
  exists q done', sch_flows (rd_sched rd) !! f = Some q /\
    let rd' := visit elapsed mp mb f q (set_flows (delete f (sch_flows (rd_sched rd))) (todo ++ done) rd) in
    counted s mp mb n b rd' /\ visiting s ctl mp mb todo done' rd'.
Proof.
  intros C H Hn Hb. destruct (visiting_pop _ _ _ _ _ _ _ _ _ _ C H Hn Hb) as (q & sent & rest & Hq & Hs & Hnot & Hqo & V).
  exists q, (done ++ match rest with [] => [] | _ => [f] end). split; [done|].
  set (rd1 := set_flows _ _ rd) in *. set (rd' := visit _ _ _ _ _ _) in *. intros rd''. subst rd''.
  pose proof (item_ok_nonneg _ _ (qo_each _ _ Hqo)) as Hnn. rewrite (vd_items V) in Hnn.
  apply Forall_app in Hnn as [Hnn%zsum_nonneg _].
  split; [by eapply visited_counted|].
  assert (config (rd_sched rd1) = config s) as Hcfg by apply C.
  pose proof (vi_todo H f) as [_ Hdf]; [left|].
  assert (forall g, g <> f -> sch_flows (rd_sched rd') !! g = sch_flows (rd_sched rd) !! g /\
                    dispatched (Some g) (rd_out rd') = dispatched (Some g) (rd_out rd)) as Hothers.
  { intros g Hg. destruct (visited_others _ _ _ _ _ _ _ _ g V Hg) as [-> ->].
    split; [|done]. simpl. by rewrite lookup_delete_ne. }
  split.
  - rewrite (vd_control V). apply H.
  - rewrite (vd_out V), dispatched_app, dispatched_class, decide_False, app_nil_r by done. apply H.
  - rewrite (vd_active V). simpl. by rewrite app_assoc.
  - intros g Hg. destruct (Hothers g) as [-> ->]; [intros ->; set_solver|]. apply H. by right.
  - intros g q' Hg. destruct (decide (g = f)) as [->|Hne].
    + rewrite Hs in Hg. injection Hg as <-. rewrite <- Hcfg. by eapply visited_served.
    + destruct (Hothers g Hne). eapply served_frame; [|done..]. by apply H.
  - intros g Hg. destruct (Hothers g) as [-> ->]; [intros ->; congruence|]. by apply H.
  - intros H0 Hmp Hmb g q' Hg Hgs.
    pose proof H0 as H0'. rewrite (vd_packets V) in H0'. simpl in H0'. pose proof (len_nonneg sent).
    pose proof (co_packets C). pose proof (len_nonneg (rd_out rd)).
    destruct (decide (g = f)) as [->|Hne].
    + rewrite Hs in Hgs. injection Hgs as <-. rewrite <- Hcfg.
      eapply visited_idle; try done; rewrite ?Hcfg; try done; simpl; try lia; [|apply (co_zero C); lia].
      rewrite <- (co_config C). apply (co_wf C).
    + destruct (Hothers g Hne) as [-> _]. eapply (vi_idle H); try done; try lia.
      intros [->|?]%elem_of_cons; done.
Qed.

(** How a visit loop ends: every flow was visited, the packet limit was reached,
    or time ran out. *)
Definition loop_end (mp : Z) (todo : list FlowId) rd : Prop :=
  todo = [] \/ st_packets (rd_stats rd) = mp \/ 0 < st_packets (rd_stats rd).

Lemma visit_loop_spec s ctl mp mb n b todo done rd :
  counted s mp mb n b rd -> visiting s ctl mp mb todo done rd -> n <= u64_max -> b <= u64_max ->
  exists rd' todo' done',
    visit_loop elapsed (length todo) mp mb rd = Ok rd' /\
    counted s mp mb n b rd' /\ visiting s ctl mp mb todo' done' rd' /\ loop_end mp todo' rd'.
Proof.
  revert done rd. induction todo as [|f todo IH]; intros done rd C H Hn Hb.
  - exists rd, [], done. split; [done|]. split; [done|]. split; [done|]. by left.
  - cbn [length visit_loop]. case_bool.
    + exists rd, (f :: todo), done. split; [done|]. split; [done|]. split; [done|]. right; left. lia.
    + set (rx := if 0 <? _ then _ else _).
      assert (exists rd0 expired, rx = (rd0, expired) /\ counted s mp mb n b rd0 /\
        visiting s ctl mp mb (f :: todo) done rd0 /\
        (expired = true -> 0 < st_packets (rd_stats rd0))) as (rd0 & ex & -> & C0 & H0 & Hx).
      { subst rx. case_bool.
        - eexists _, _. split; [reflexivity|]. split; [by apply counted_out_of_time|].
          split; [by apply visiting_out_of_time|]. done.
        - exists rd, false. done. }
      destruct ex.
      * exists (mark_exhausted rd0), (f :: todo), done. specialize (Hx eq_refl). split; [done|].
        split; [by apply counted_exhausted|]. split; [by apply visiting_exhausted|]. by right; right.
      * destruct (visiting_visit _ _ _ _ _ _ _ _ _ _ C0 H0 Hn Hb) as (q & done' & Hq & C1 & H1).
        rewrite (vi_active H0). rewrite <- app_comm_cons, Hq. simpl.
        destruct (st_time_budget_exhausted _) eqn:Et.
        -- eexists _, todo, done'. split; [reflexivity|]. split; [done|]. split; [done|].
           right; right. by apply (co_time C1).
        -- by apply (IH done').
Qed.

(** ** A whole round *)

Lemma control_dequeued_wf s sent rest :
  sched_wf s -> sch_control s = sent ++ rest ->
  sched_wf (mkScheduler (config s) rest (sch_flows s) (sch_active s)
              (queued_packets s - len sent) (queued_bytes s - zsum it_bytes sent)).
Proof.
  intros H Hc. pose proof (si_control _ _ _ H) as Hall. rewrite Hc in Hall.
  apply Forall_app in Hall as [H1 H2]. pose proof (items_bytes_nonneg _ _ H1). pose proof (len_nonneg sent).
  pose proof (si_packets _ _ _ H) as Hp. pose proof (si_bytes _ _ _ H) as Hb.
  rewrite Hc, len_app in Hp. rewrite Hc, zsum_app in Hb.
  pose proof (si_max_packets _ _ _ H). pose proof (si_max_bytes _ _ _ H).
  split; simpl; try apply H; try done; lia.
Qed.

(** The state the visits start from. *)
Lemma control_phase s mp mb sent rest reads exhausted :
  let rd := set_control rest (advanced Control sent (length sent) reads exhausted (mkRound s no_stats 0 [])) in
  sched_wf s -> sch_control s = sent ++ rest -> limits_ok mp mb rd ->
  len sent <= max_control_packets (config s) -> (exhausted = true -> sent <> []) ->
  counted s mp mb (queued_packets s) (queued_bytes s) rd /\
  visiting s (dispatched None (rd_out rd)) mp mb (sch_active s) [] rd.
Proof.
  intros rd H Hc Hlim Hmax Hex.
  assert (0 <= zsum it_bytes sent) as Hnn.
  { pose proof (si_control _ _ _ H) as Hall. rewrite Hc in Hall. apply Forall_app in Hall as [Hall _].
    by eapply items_bytes_nonneg. }
  pose proof (len_nonneg sent).
  assert (forall f, dispatched (Some f) (rd_out rd) = []) as Hdisp.
  { intros f. simpl. by rewrite dispatched_class, decide_False. }
  split; split; try done.
  - exact (control_dequeued_wf s sent rest H Hc).
  - simpl. by rewrite len_fmap.
  - simpl. destruct sent as [|it sent]; [done|]. rewrite len_cons. pose proof (len_nonneg sent). lia.
  - simpl. lia.
  - simpl. lia.
  - simpl. rewrite dispatched_class, decide_True, len_fmap by done. unfold len. lia.
  - simpl. intros Ht. specialize (Hex Ht). destruct sent; [done|]. rewrite len_cons.
    pose proof (len_nonneg sent). lia.
  - simpl. rewrite dispatched_class, decide_True by done. unfold backlog. by rewrite Hc, fmap_app.
  - simpl. by rewrite app_nil_r.
  - intros f q Hq. eapply served_init; try done; [apply H|]. by eapply (si_queues _ _ _ H).
  - intros _ _ _ f q Hn Hq. exfalso. apply Hn, (si_active _ _ _ H). eauto.
Qed.

Lemma run_round_spec s max_packets max_bytes :
  let mp := Z.min max_packets (max_packets_per_round (config s)) in
  let mb := Z.min max_bytes (max_bytes_per_round (config s)) in
  sched_wf s -> 0 <= max_packets -> 0 <= max_bytes ->
  exists rd todo done,
    run_round_limited elapsed max_packets max_bytes s = Ok rd /\
    counted s mp mb (queued_packets s) (queued_bytes s) rd /\
    visiting s (dispatched None (rd_out rd)) mp mb todo done rd /\
    loop_end mp todo rd /\
    (sch_control s <> [] -> 1 <= mp -> max_packet_bytes (config s) <= mb -> 0 < st_packets (rd_stats rd)).
Proof.
  intros mp mb H Hmp Hmb. pose proof (cfg_ok_limits _ (si_cfg _ _ _ H)).
  pose proof (sched_wf_counters _ H). pose proof (si_control _ _ _ H) as Hctl.
  destruct (control_loop_spec mp mb (sch_control s) (mkRound s no_stats 0 []))
    as (sent & rest & reads & ex & ret & Hc & Heq & L & C1 & C2 & C3 & C4 & C5); simpl; try done; try lia.
  { by eapply item_ok_nonneg. }
  { unfold counters_fit; simpl. lia. }
  { unfold limits_ok; simpl. lia. }
  simpl in *.
  destruct (control_phase s mp mb sent rest reads ex) as [C V]; try done.
  { intros Hx. by destruct (C2 Hx). }
  set (rd1 := set_control rest _) in *.
  assert (sent <> [] -> 0 < st_packets (rd_stats rd1)) as Hpos.
  { simpl. destruct sent; [done|]. rewrite len_cons. pose proof (len_nonneg sent). lia. }
  assert (sch_control s <> [] -> 1 <= mp -> max_packet_bytes (config s) <= mb -> sent <> []) as Hfirst.
  { intros Hne Hm1 Hm2 ->. simpl in Hc. subst rest. destruct (sch_control s) as [|it l]; [done|].
    apply Forall_cons in Hctl as [Hit _]. unfold item_ok in Hit.
    destruct (C5 eq_refl it eq_refl); lia. }
  unfold run_round_limited. fold mp mb. rewrite Heq. destruct ret.
  - exists rd1, (sch_active s), []. split; [done|]. split; [done|]. split; [done|].
    split; [right; right|intros _ _ _]; apply Hpos, C3; done.
  - destruct (visit_loop_spec s (dispatched None (rd_out rd1)) mp mb (queued_packets s) (queued_bytes s)
      (sch_active s) [] rd1 C V) as (rd & todo & done & Hrun & C' & V' & Hend); [lia|lia|].
    exists rd, todo, done. split; [exact Hrun|]. split; [done|]. split; [by rewrite (vi_control_out V')|]. split; [done|].
    intros Hn1 Hn2 Hn3. specialize (Hfirst Hn1 Hn2 Hn3).
    pose proof (dispatched_len None (rd_out rd)) as Hle. rewrite (vi_control_out V'), (co_control_out C) in Hle.
    rewrite (co_packets C'). simpl in Hle. destruct sent; [done|]. simpl in Hle. lia.
Qed.

(** C18: From a well-formed scheduler, and whatever the clock reads, a round
    returns (it never panics), leaves the scheduler well formed, and stays
    within the caller's and the configuration's packet and byte limits and the
    control limit.  Its counts of packets, bytes and control packets are exact: they
    are what it called [process] with and what left the queues. *)
Theorem round_within_limits s max_packets max_bytes :
  sched_wf s -> 0 <= max_packets -> 0 <= max_bytes ->
  exists rd,
    run_round_limited elapsed max_packets max_bytes s = Ok rd /\
    sched_wf (rd_sched rd) /\
    st_packets (rd_stats rd) = len (rd_out rd) /\
    len (rd_out rd) <= Z.min max_packets (max_packets_per_round (config s)) /\
    st_bytes (rd_stats rd) <= Z.min max_bytes (max_bytes_per_round (config s)) /\
    st_control_packets (rd_stats rd) = len (dispatched None (rd_out rd)) /\
    st_control_packets (rd_stats rd) <= max_control_packets (config s) /\
    queued_packets (rd_sched rd) = queued_packets s - st_packets (rd_stats rd) /\
    queued_bytes (rd_sched rd) = queued_bytes s - st_bytes (rd_stats rd).
Proof.
  intros H Hmp Hmb. destruct (run_round_spec s max_packets max_bytes H Hmp Hmb) as (rd & todo & done & Hr & C & _).
  exists rd. pose proof (co_limits C) as L. unfold limits_ok in L.
  pose proof (co_packets C). pose proof (co_total C). pose proof (co_total_bytes C).
  pose proof (co_control_out C). pose proof (co_controls C).
  split; [done|]. split; [apply C|]. lia.
Qed.

(** C19: A round neither loses, duplicates nor reorders work: for control and for
    every flow, what it dispatched followed by what is still queued is what was
    queued before.  A flow gets at most [max_contiguous_flow_bytes] and at most
    its deficit plus one quantum per unit of weight. *)
Theorem round_is_fifo_and_fair s max_packets max_bytes rd :
  sched_wf s -> 0 <= max_packets -> 0 <= max_bytes ->
  run_round_limited elapsed max_packets max_bytes s = Ok rd ->
  (forall k, dispatched k (rd_out rd) ++ backlog k (rd_sched rd) = backlog k s) /\
  forall f q, sch_flows s !! f = Some q ->
    exists sent, fq_items q = sent ++ flow_items (sch_flows (rd_sched rd)) f /\
      zsum it_bytes sent <= max_contiguous_flow_bytes (config s) /\
      zsum it_bytes sent <= fq_deficit q + quantum_bytes (config s) * fq_weight q.
Proof.
  intros H Hmp Hmb Hr.
  destruct (run_round_spec s max_packets max_bytes H Hmp Hmb) as (rd' & todo & done & Hr' & C & V & _).
  rewrite Hr in Hr'. injection Hr' as <-. split.
  - intros [f|]; [|apply V]. simpl. destruct (sch_flows s !! f) as [q|] eqn:Hq.
    + destruct (vi_served V _ _ Hq) as (sent & A & -> & W & _).
      rewrite A, fmap_app. f_equal. unfold flow_items. destruct (sch_flows (rd_sched rd) !! f) as [q'|]; [|done].
      by rewrite (W q').
    + destruct (vi_none V _ Hq) as [-> ->]. done.
  - intros f q Hq. destruct (vi_served V _ _ Hq) as (sent & A & _ & _ & D & E). exists sent.
    split; [done|]. split; [done|]. simpl in E. unfold sat_add, sat_mul in E. lia.
Qed.

(** A round that dispatches nothing only tops the deficits up. *)
Lemma idle_round s rd :
  sched_wf s -> run_round elapsed s = Ok rd -> st_packets (rd_stats rd) = 0 ->
  sch_control s = [] /\
  forall f q, sch_flows s !! f = Some q ->
    sch_flows (rd_sched rd) !! f = Some (topped_up (config s) q) /\
    exists it, head (fq_items q) = Some it /\ fq_deficit (topped_up (config s) q) < it_bytes it.
Proof.
  intros H Hr Hz. pose proof (cfg_ok_limits _ (si_cfg _ _ _ H)). unfold run_round in Hr.
  destruct (run_round_spec s (max_packets_per_round (config s)) (max_bytes_per_round (config s)))
    as (rd' & todo & dn & Hr' & C & V & Hend & Hctl); [done|lia|lia|].
  rewrite Hr in Hr'. injection Hr' as <-. split.
  - destruct (sch_control s); [done|]. exfalso. cut (0 < st_packets (rd_stats rd)); [lia|].
    apply Hctl; [done|lia..].
  - intros f q Hq. apply (vi_idle V); try done; try lia.
    destruct Hend as [->|[?|?]]; [apply not_elem_of_nil|lia..].
Qed.
End Round.

(** ** Liveness *)
Section Drain.
Context {T : Type} (clocks : nat -> nat -> Z).
Implicit Types (s : Scheduler T).

(** [n] rounds from the [i]-th on, each with its own clock. *)
Fixpoint run_rounds (n i : nat) s : outcome Empty_set (Scheduler T) :=
  match n with
  | O => mret s
  | S n => rd ← run_round (clocks i) s; run_rounds n (S i) (rd_sched rd)
  end.

(** Rounds it takes a full-sized packet to be covered by its flow's deficit. *)
Definition patience (c : SchedulerConfig) : Z := div_ceil (max_packet_bytes c) (quantum_bytes c).

Lemma patience_spec c :
  cfg_ok c -> 1 <= patience c /\ max_packet_bytes c <= patience c * quantum_bytes c.
Proof.
  intros Hc. pose proof (cfg_ok_limits _ Hc). unfold patience, div_ceil.
  pose proof (Z.div_mod (max_packet_bytes c + quantum_bytes c - 1) (quantum_bytes c) ltac:(lia)).
  pose proof (Z.mod_pos_bound (max_packet_bytes c + quantum_bytes c - 1) (quantum_bytes c) ltac:(lia)).
  split; [apply Z.div_le_lower_bound; lia|lia].
Qed.

Lemma round_result clock s :
  sched_wf s ->
  exists rd, run_round clock s = Ok rd /\ sched_wf (rd_sched rd) /\ config (rd_sched rd) = config s /\
    queued_packets (rd_sched rd) = queued_packets s - st_packets (rd_stats rd) /\
    0 <= st_packets (rd_stats rd).
Proof.
  intros H. pose proof (cfg_ok_limits _ (si_cfg _ _ _ H)).
  destruct (run_round_spec clock s (max_packets_per_round (config s)) (max_bytes_per_round (config s)))
    as (rd & todo & dn & Hr & C & _); [done|lia|lia|].
  exists rd. split; [done|]. destruct C as [Hw Hc Hp _ _ _ Ht _ _ _ _]. pose proof (len_nonneg (rd_out rd)).
  split; [done|]. split; [done|]. lia.
Qed.

(** Something goes out within [k] rounds. *)
Definition soon (k : Z) s : Prop :=
  queued_packets s = 0 \/
  1 <= k /\
  (sch_control s <> [] \/
   exists f q it, sch_flows s !! f = Some q /\ head (fq_items q) = Some it /\
     it_bytes it <= fq_deficit q + k * quantum_bytes (config s)).

Lemma soon_patience s : sched_wf s -> soon (patience (config s)) s.
Proof.
  intros H. pose proof (patience_spec _ (si_cfg _ _ _ H)) as [Hk Hp].
  pose proof (si_packets _ _ _ H) as Hq. destruct (sch_control s) eqn:Ec; [|right; split; [done|left; by rewrite Ec]].
  destruct (sch_active s) as [|f l] eqn:Ea.
  - left. rewrite Hq, zsum_nil. done.
  - right. split; [done|]. right.
    assert (is_Some (sch_flows s !! f)) as [q Hf] by (apply (si_active _ _ _ H); rewrite Ea; left).
    pose proof (si_queues _ _ _ H _ _ Hf) as Hqo. pose proof (qo_each _ _ Hqo) as He.
    pose proof (qo_items _ _ Hqo). pose proof (qo_deficit _ _ Hqo).
    destruct (fq_items q) as [|it items] eqn:Ei; [done|]. apply Forall_cons in He as [He _]. unfold item_ok in He.
    exists f, q, it. rewrite Ei. split; [done|]. split; [done|]. lia.
Qed.

Lemma soon_idle s rd clock k :
  sched_wf s -> queued_packets s <> 0 -> run_round clock s = Ok rd -> st_packets (rd_stats rd) = 0 ->
  config (rd_sched rd) = config s -> soon k s -> soon (k - 1) (rd_sched rd).
Proof.
  intros H Hne Hr Hz Hc [?|[Hk Hs]]; [done|]. destruct (idle_round clock s rd H Hr Hz) as [Hctl Hfl].
  destruct Hs as [?|(f & q & it & Hf & Hit & Hd)]; [done|].
  destruct (Hfl f q Hf) as [Hf' (it' & Hit' & Hblk)]. rewrite Hit in Hit'. injection Hit' as <-.
  pose proof (si_queues _ _ _ H _ _ Hf) as Hqo.
  pose proof (topped_up_deficit _ _ (si_cfg _ _ _ H) Hqo) as [Hlo _].
  pose proof (cfg_ok_limits _ (si_cfg _ _ _ H)).
  assert (it_bytes it <= u64_max).
  { pose proof (qo_each _ _ Hqo) as He. destruct (fq_items q); [done|]. injection Hit as ->.
    apply Forall_cons in He as [He _]. unfold item_ok in He. lia. }
  right. assert (k <> 1) by (intros ->; lia). split; [lia|]. right. exists f, (topped_up (config s) q), it.
  split; [done|]. split; [done|]. rewrite Hc. lia.
Qed.

Lemma run_rounds_drain n : forall i s k,
  sched_wf s -> soon k s ->
  (queued_packets s <> 0 -> (queued_packets s - 1) * patience (config s) + k <= Z.of_nat n) ->
  exists s', run_rounds n i s = Ok s' /\ sched_wf s' /\ queued_packets s' = 0.
Proof.
  induction n as [|n IH]; intros i s k H Hs Hm; pose proof (patience_spec _ (si_cfg _ _ _ H)) as [Hp _];
    pose proof (sched_wf_counters _ H) as Hcnt.
  - exists s. split; [done|]. split; [done|]. destruct Hs as [?|[Hk _]]; [done|].
    destruct (decide (queued_packets s = 0)); [done|]. specialize (Hm ltac:(done)). nia.
  - destruct (round_result (clocks i) s H) as (rd & Hr & Hw & Hc & Hq & Hst).
    simpl. rewrite Hr. simpl. pose proof (sched_wf_counters _ Hw) as Hcnt'.
    destruct (decide (queued_packets s = 0)) as [Hz|Hz].
    + apply (IH _ _ (patience (config (rd_sched rd))) Hw); [by apply soon_patience|]. lia.
    + specialize (Hm Hz). destruct (decide (st_packets (rd_stats rd) = 0)) as [H0|H0].
      * apply (IH _ _ (k - 1) Hw); [exact (soon_idle s rd _ k H Hz Hr H0 Hc Hs)|]. rewrite Hc, Hq, H0, Z.sub_0_r. lia.
      * apply (IH _ _ (patience (config (rd_sched rd))) Hw); [by apply soon_patience|]. intros _.
        destruct Hs as [?|[Hk _]]; [done|]. rewrite Hc.
        assert (queued_packets (rd_sched rd) * patience (config s) <=
                (queued_packets s - 1) * patience (config s)) by (apply Z.mul_le_mono_nonneg_r; lia). lia.
Qed.

(** C20: No queued packet starves.  Whatever the clocks read, and with nothing
    more enqueued, as many rounds as there are queued packets times
    ceil([max_packet_bytes] / [quantum_bytes]) leave the scheduler empty; none of
    the rounds panics. *)
Theorem scheduler_drains s :
  sched_wf s ->
  exists s', run_rounds (Z.to_nat (queued_packets s * patience (config s))) 0 s = Ok s' /\
    sched_wf s' /\ queued_packets s' = 0.
Proof.
  intros H. pose proof (sched_wf_counters _ H). pose proof (patience_spec _ (si_cfg _ _ _ H)).
  apply (run_rounds_drain _ _ _ (patience (config s)) H); [by apply soon_patience|].
  intros _. rewrite Z2Nat.id by (apply Z.mul_nonneg_nonneg; lia). lia.
Qed.
End Drain.

(** ** Rounds of the sample scheduler *)
Lemma round_within_limits_witness :
  exists rd, run_round_limited (fun _ => 0) 2 5000 sample_scheduler = Ok rd /\ len (rd_out rd) <= 2.
Proof.
  destruct (round_within_limits (fun _ => 0) sample_scheduler 2 5000 sample_scheduler_wf)
    as (rd & Hr & _ & _ & Hl & _); [lia|lia|].
  exists rd. split; [exact Hr|]. etrans; [exact Hl|apply Z.le_min_l].
Defined.

Lemma round_is_fifo_and_fair_witness :
  exists rd, run_round_limited (fun _ => 0) 4 5000 sample_scheduler = Ok rd /\
    dispatched (Some 2) (rd_out rd) ++ backlog (Some 2) (rd_sched rd) = backlog (Some 2) sample_scheduler.
Proof.
  eexists. split; [vm_compute; reflexivity|].
  refine (proj1 (round_is_fifo_and_fair (fun _ => 0) sample_scheduler 4 5000 _ sample_scheduler_wf _ _ _) (Some 2));
    [lia|lia|vm_compute; reflexivity].
Defined.

Lemma scheduler_drains_witness :
  exists s', run_rounds (fun _ _ => 100) 60 0 sample_scheduler = Ok s' /\ sched_wf s' /\ queued_packets s' = 0.
Proof. exact (scheduler_drains (fun _ _ => 100) sample_scheduler sample_scheduler_wf). Defined.
