(* ===== verification/Timer.v ===== *)
(** The hierarchical timer wheel of [sail-netstack/src/timer.rs]: four levels of
    256 slots, its occupancy bitmaps, and that it refines a plain table of
    deadlines.

    The [LEVELS] x [SLOTS] vector of [BTreeSet]s is a map from (level, slot) to
    sets, empty where nothing was put; the bitmap words are a map from (level,
    word), 0 where nothing was set.  A [BTreeSet] is iterated in increasing
    order.  The hash map of entries is iterated in some order. *)
From S2P Require Import Prelude.
From stdpp Require Import list sorting gmap.
#[local] Open Scope Z_scope.

Definition LEVELS : Z := 4.
Definition SLOTS : Z := 256.
Definition LARGE_ADVANCE_TICKS : Z := 65536.

(** [TimerId(u64)]. *)
Abbreviation TimerId := Z (only parsing).

Inductive TimerError :=
| ClockWentBackwards (current_ms requested_ms : Z)
| DeadlineOutOfRange.

(** [trailing_zeros] of a non-zero word. *)
Fixpoint ctz_pos (p : positive) : Z :=
  match p with xO p => 1 + ctz_pos p | _ => 0 end.
Definition trailing_zeros (x : Z) : Z := match x with Zpos p => ctz_pos p | _ => 64 end.

Definition slot_for (tick level : Z) : Z := Z.land (Z.shiftr tick (8 * level)) 255.

Definition bucket_for (current_tick deadline_tick : Z) : Z * Z :=
  let delta := sat_sub deadline_tick current_tick in
  let level := if delta <=? 255 then 0 else if delta <=? 65535 then 1
               else if delta <=? 16777215 then 2 else 3 in
  (level, slot_for deadline_tick level).

(** The words from [word] on, [n] of them; [mask] applies to the first. *)
Fixpoint scan_words (occupied : Z -> Z) (start : Z) (n : nat) (word mask : Z) : option Z :=
  match n with
  | O => None
  | S n =>
    let hits := Z.land (occupied (word mod 4)) mask in
    if negb (hits =? 0) then
      let bit := trailing_zeros hits in
      let slot := word mod 4 * 64 + bit in
      Some ((slot + SLOTS - start) mod SLOTS)
    else scan_words occupied start n (word + 1) u64_max
  end.
Definition first_occupied (occupied : Z -> Z) (start : Z) : option Z :=
  scan_words occupied start 5 (start / 64) (wrap64 (Z.shiftl u64_max (start mod 64))).

Section Wheel.
Context {T : Type}.

Record Entry := mkEntry {
  deadline_tick : Z;
  e_level : Z;
  e_slot : Z;
  e_value : T
}.

Record TimerWheel := mkWheel {
  tick_ms : Z;
  current_tick : Z;
  next_id : Z;
  buckets : gmap (Z * Z) (gset TimerId);
  occupied : gmap (Z * Z) Z;
  entries : gmap TimerId Entry
}.

Definition wheel_new {E} (tick now_ms : Z) : outcome E TimerWheel :=
  if 0 <? tick then mret (mkWheel tick (now_ms / tick) 0 ∅ ∅ ∅) else Panic.

Definition now_ms (w : TimerWheel) : Z := sat_mul (current_tick w) (tick_ms w).
Definition wheel_len (w : TimerWheel) : Z := Z.of_nat (size (entries w)).
Definition wheel_is_empty (w : TimerWheel) : bool := bool_decide (entries w = ∅).

Definition bucket (w : TimerWheel) (level slot : Z) : gset TimerId := default ∅ (buckets w !! (level, slot)).
Definition word_of (w : TimerWheel) (level word : Z) : Z := default 0 (occupied w !! (level, word)).

Definition set_bucket (level slot : Z) (ids : gset TimerId) (word : Z) (w : TimerWheel) : TimerWheel :=
  mkWheel (tick_ms w) (current_tick w) (next_id w) (<[(level, slot) := ids]> (buckets w))
    (<[(level, slot / 64) := word]> (occupied w)) (entries w).
Definition set_entries (es : gmap TimerId Entry) (w : TimerWheel) : TimerWheel :=
  mkWheel (tick_ms w) (current_tick w) (next_id w) (buckets w) (occupied w) es.
Definition set_tick (tick : Z) (w : TimerWheel) : TimerWheel :=
  mkWheel (tick_ms w) tick (next_id w) (buckets w) (occupied w) (entries w).

(** [1 << (slot % 64)] and its complement. *)
Definition slot_bit (slot : Z) : Z := Z.shiftl 1 (slot mod 64).
Definition clear_bit (word slot : Z) : Z := Z.land word (u64_max - slot_bit slot).

Definition insert_into (level slot : Z) (id : TimerId) (w : TimerWheel) : TimerWheel :=
  set_bucket level slot ({[id]} ∪ bucket w level slot)
    (Z.lor (word_of w level (slot / 64)) (slot_bit slot)) w.

Definition remove_from (level slot : Z) (id : TimerId) (w : TimerWheel) : TimerWheel :=
  let ids := bucket w level slot ∖ {[id]} in
  set_bucket level slot ids
    (if decide (ids = ∅) then clear_bit (word_of w level (slot / 64)) slot
     else word_of w level (slot / 64)) w.

Definition take_slot (level slot : Z) (w : TimerWheel) : TimerWheel * list TimerId :=
  (set_bucket level slot ∅ (clear_bit (word_of w level (slot / 64)) slot) w,
   merge_sort Z.le (elements (bucket w level slot))).

Definition relocate (level slot : Z) (e : Entry) : Entry :=
  mkEntry (deadline_tick e) level slot (e_value e).

Definition place (id : TimerId) (deadline : Z) (w : TimerWheel) : TimerWheel :=
  let '(level, slot) := bucket_for (current_tick w) deadline in
  insert_into level slot id (set_entries (alter (relocate level slot) id (entries w)) w).

Definition schedule (deadline_ms : Z) (value : T) (w : TimerWheel)
    : TimerWheel * outcome TimerError TimerId :=
  let deadline := Z.max (div_ceil deadline_ms (tick_ms w)) (sat_add (current_tick w) 1) in
  if 4294967296 <=? sat_sub deadline (current_tick w) then (w, Err DeadlineOutOfRange)
  else
    let id := next_id w in
    let '(level, slot) := bucket_for (current_tick w) deadline in
    let w := mkWheel (tick_ms w) (current_tick w) (wrap64 (next_id w + 1)) (buckets w) (occupied w)
               (<[id := mkEntry deadline level slot value]> (entries w)) in
    (insert_into level slot id w, Ok id).

Definition cancel (id : TimerId) (w : TimerWheel) : TimerWheel * option T :=
  match entries w !! id with
  | None => (w, None)
  | Some entry =>
    (remove_from (e_level entry) (e_slot entry) id (set_entries (delete id (entries w)) w),
     Some (e_value entry))
  end.

(** The loop over the levels, from [level] on, [n] of them. *)
Fixpoint soonest_tick (n : nat) (level : Z) (w : TimerWheel) (soonest : option Z) : option Z :=
  match n with
  | O => soonest
  | S n =>
    let shift := 8 * level in
    let window := Z.shiftr (current_tick w) shift in
    if match soonest with
       | Some tick => tick <=? wrap64 (Z.shiftl (sat_add window 1) shift)
       | None => false
       end
    then soonest
    else
      match first_occupied (word_of w level) (slot_for (current_tick w) level) with
      | None => soonest_tick n (level + 1) w soonest
      | Some ahead =>
        let tick := Z.max (wrap64 (Z.shiftl (sat_add window ahead) shift)) (uadd (current_tick w) 1) in
        soonest_tick n (level + 1) w
          (Some (match soonest with Some s => Z.min s tick | None => tick end))
      end
  end.

Definition next_deadline_ms (w : TimerWheel) : option Z :=
  if wheel_is_empty w then None
  else option_map (fun tick => sat_mul tick (tick_ms w)) (soonest_tick 4 0 w None).

(** The ids of a slot, moved to the bucket their deadline now belongs to. *)
Fixpoint place_ids (ids : list TimerId) (w : TimerWheel) : TimerWheel :=
  match ids with
  | [] => w
  | id :: ids =>
    place_ids ids
      match entries w !! id with
      | Some entry => place id (deadline_tick entry) w
      | None => w
      end
  end.

Definition cascade_level (level : Z) (w : TimerWheel) : TimerWheel :=
  let mask := Z.shiftl 1 (8 * level) - 1 in
  if negb (Z.land (current_tick w) mask =? 0) then w
  else
    let '(w, ids) := take_slot level (slot_for (current_tick w) level) w in
    place_ids ids w.

Definition cascade_boundaries (w : TimerWheel) : TimerWheel :=
  cascade_level 1 (cascade_level 2 (cascade_level 3 w)).

(** The ids of the current slot: expired ones leave, others are placed again. *)
Fixpoint fire_ids (ids : list TimerId) (w : TimerWheel) (expired : list T) : TimerWheel * list T :=
  match ids with
  | [] => (w, expired)
  | id :: ids =>
    match entries w !! id with
    | None => fire_ids ids w expired
    | Some entry =>
      let w := set_entries (delete id (entries w)) w in
      if deadline_tick entry <=? current_tick w then fire_ids ids w (expired ++ [e_value entry])
      else fire_ids ids (place id (deadline_tick entry) (set_entries (<[id := entry]> (entries w)) w)) expired
    end
  end.

Definition advance_tick (w : TimerWheel) (expired : list T) : TimerWheel * list T :=
  let w := set_tick (uadd (current_tick w) 1) w in
  let w := cascade_boundaries w in
  let '(w, due) := take_slot 0 (slot_for (current_tick w) 0) w in
  fire_ids due w expired.

(** [while current_tick < target_tick]: [n] is how many ticks are left. *)
Fixpoint advance_ticks (n : nat) (w : TimerWheel) (expired : list T) : TimerWheel * list T :=
  match n with
  | O => (w, expired)
  | S n => let '(w, expired) := advance_tick w expired in advance_ticks n w expired
  end.

(** [(deadline, id)] in lexicographic order. *)
Definition key_le (a b : Z * TimerId) : Prop := a.1 < b.1 \/ a.1 = b.1 /\ a.2 <= b.2.
#[global] Instance key_le_dec a b : Decision (key_le a b).
Proof. unfold key_le. apply _. Defined.

Fixpoint remove_ids (ids : list TimerId) (es : gmap TimerId Entry) : gmap TimerId Entry * list T :=
  match ids with
  | [] => (es, [])
  | id :: ids =>
    let '(es', values) := remove_ids ids (delete id es) in
    (es', match es !! id with Some e => e_value e :: values | None => values end)
  end.

Definition large_advance (target : Z) (w : TimerWheel) : TimerWheel * list T :=
  let due := omap (fun p => if deadline_tick p.2 <=? target then Some (deadline_tick p.2, p.1) else None)
               (map_to_list (entries w)) in
  let due := merge_sort key_le due in
  let '(es, expired) := remove_ids due.*2 (entries w) in
  let w := mkWheel (tick_ms w) target (next_id w) ∅ ∅ es in
  (place_ids (map_to_list es).*1 w, expired).

Definition advance_to (now : Z) (w : TimerWheel) : TimerWheel * outcome TimerError (list T) :=
  if now <? now_ms w then (w, Err (ClockWentBackwards (now_ms w) now))
  else
    let target := if now =? u64_max then div_ceil now (tick_ms w) else now / tick_ms w in
    if LARGE_ADVANCE_TICKS <? sat_sub target (current_tick w) then
      let '(w, expired) := large_advance target w in (w, Ok expired)
    else
      let '(w, expired) := advance_ticks (Z.to_nat (target - current_tick w)) w [] in (w, Ok expired).
End Wheel.
Arguments Entry : clear implicits.
Arguments TimerWheel : clear implicits.

(** * Slots and windows *)

(** The ticks one slot of a level covers. *)
Definition span (level : Z) : Z := 2 ^ (8 * level).

Lemma slot_for_spec tick level : 0 <= level -> slot_for tick level = tick / span level mod 256.
Proof.
  intros H. unfold slot_for, span. rewrite Z.shiftr_div_pow2 by lia.
  change 255 with (Z.ones 8). rewrite Z.land_ones by lia. done.
Qed.

Lemma level_cases (P : Z -> Prop) : P 0 -> P 1 -> P 2 -> P 3 -> forall level, 0 <= level < 4 -> P level.
Proof.
  intros ???? level H.
  assert (level = 0 \/ level = 1 \/ level = 2 \/ level = 3) as [-> | [-> | [-> | -> ]]] by lia; done.
Qed.

Lemma span_values : span 0 = 1 /\ span 1 = 256 /\ span 2 = 65536 /\ span 3 = 16777216.
Proof. done. Qed.

(** Proves a fact about windows at each of the four levels. *)
Ltac by_level :=
  refine (level_cases _ _ _ _ _); destruct span_values as (E0 & E1 & E2 & E3);
  rewrite ?E0, ?E1, ?E2, ?E3; clear E0 E1 E2 E3; intros; Z.to_euclidean_division_equations; lia.

(** A deadline [d] waits at [level] for the tick at which its window starts. *)
Definition waits (c d level : Z) : Prop :=
  0 <= level < 4 /\ c / span level < d / span level <= c / span level + 256.

Lemma boundary_test c level :
  0 <= level -> (Z.land c (Z.shiftl 1 (8 * level) - 1) =? 0) = (c mod span level =? 0).
Proof.
  intros H. unfold span. rewrite Z.shiftl_1_l.
  replace (2 ^ (8 * level) - 1) with (Z.ones (8 * level)) by (rewrite Z.ones_equiv; lia).
  rewrite Z.land_ones by lia. done.
Qed.

Lemma bucket_for_level c d :
  c <= d -> d - c < 4294967296 ->
  0 <= (bucket_for c d).1 < 4 /\ ((bucket_for c d).1 = 0 \/ span (bucket_for c d).1 <= d - c) /\
  d - c < 256 * span (bucket_for c d).1.
Proof.
  intros H Hd. unfold bucket_for, sat_sub; simpl. destruct span_values as (E0 & E1 & E2 & E3).
  repeat case_bool; rewrite ?E0, ?E1, ?E2, ?E3; lia.
Qed.

Lemma waits_new c d : 0 <= c < d -> d - c < 4294967296 -> waits c d (bucket_for c d).1.
Proof.
  intros H Hd. destruct (bucket_for_level c d) as (H1 & H2 & H3); [lia|done|].
  split; [done|]. revert H2 H3. generalize H1. generalize (bucket_for c d).1. by_level.
Qed.

(** From [c - 1] to [c] without crossing a window of the level. *)
Lemma waits_same c d level : waits (c - 1) d level -> c mod span level <> 0 -> waits c d level.
Proof.
  intros [Hl H] Hm. split; [done|]. revert level Hl H Hm. by_level.
Qed.

(** At a boundary of the level, those that wait elsewhere keep waiting, ... *)
Lemma waits_other c d level :
  waits (c - 1) d level -> c mod span level = 0 -> d / span level mod 256 <> c / span level mod 256 ->
  waits c d level.
Proof.
  intros [Hl H] Hm Hs. split; [done|]. revert level Hl H Hm Hs. by_level.
Qed.

(** ... and those in the slot have less than a window to go. *)
Lemma waits_due c d level :
  waits (c - 1) d level -> c mod span level = 0 -> d / span level mod 256 = c / span level mod 256 ->
  c <= d < c + span level.
Proof.
  intros [Hl H]. revert level Hl H. by_level.
Qed.

(** They move to a lower level, where they wait as if placed a tick ago. *)
Lemma waits_cascaded c d level :
  0 < level < 4 -> c mod span level = 0 -> c <= d < c + span level ->
  (bucket_for c d).1 < level /\ waits (c - 1) d (bucket_for c d).1.
Proof.
  intros Hl Hm Hd. assert (0 <= level < 4) as Hl' by lia.
  assert (d - c < 4294967296) as Hr by (revert level Hl' Hl Hm Hd; by_level).
  destruct (bucket_for_level c d) as (H1 & H2 & H3); [lia|done|].
  assert ((bucket_for c d).1 < level) as Hlt.
  { destruct H2 as [->|H2]; [lia|]. destruct (Z.lt_ge_cases (bucket_for c d).1 level) as [?|Hge]; [done|].
    assert (span level <= span (bucket_for c d).1); [|lia]. unfold span. apply Z.pow_le_mono_r; lia. }
  split; [done|]. split; [done|].
  assert (forall level, 0 <= level < 4 -> forall l, 0 <= l < 4 -> c mod span level = 0 -> c <= d < c + span level ->
    l = 0 \/ span l <= d - c -> d - c < 256 * span l -> l < level ->
    (c - 1) / span l < d / span l <= (c - 1) / span l + 256) as Hall;
    [|exact (Hall level Hl' _ H1 Hm Hd H2 H3 Hlt)].
  clear.
  refine (level_cases _ _ _ _ _); destruct span_values as (E0 & E1 & E2 & E3); rewrite ?E0, ?E1, ?E2, ?E3;
    refine (level_cases _ _ _ _ _); rewrite ?E0, ?E1, ?E2, ?E3; clear E0 E1 E2 E3; intros;
    Z.to_euclidean_division_equations; lia.
Qed.

(** * Occupancy bits *)

Lemma testbit_slot_bit slot i : 0 <= i < 64 -> Z.testbit (slot_bit slot) i = bool_decide (i = slot mod 64).
Proof.
  intros H. unfold slot_bit. rewrite Z.shiftl_1_l, Z.pow2_bits_eqb by (apply Z.mod_pos_bound; lia).
  destruct (Z.eqb_spec (slot mod 64) i); symmetry; [apply bool_decide_eq_true|apply bool_decide_eq_false]; lia.
Qed.

Lemma testbit_clear_bit word slot i :
  0 <= i < 64 -> Z.testbit (clear_bit word slot) i = Z.testbit word i && negb (bool_decide (i = slot mod 64)).
Proof.
  intros H. unfold clear_bit. rewrite Z.land_spec. f_equal.
  assert (0 <= slot mod 64 < 64) as Hm by (apply Z.mod_pos_bound; lia).
  change u64_max with (Z.ones 64). unfold slot_bit. rewrite Z.shiftl_1_l, Z.sub_nocarry_ldiff.
  - rewrite Z.ldiff_spec, Z.ones_spec_low, <- Z.shiftl_1_l by lia. simpl.
    f_equal. by apply testbit_slot_bit.
  - apply Z.bits_inj_iff'. intros j Hj. rewrite Z.ldiff_spec, Z.bits_0, Z.pow2_bits_eqb by lia.
    destruct (Z.eqb_spec (slot mod 64) j); [|done]. rewrite Z.ones_spec_low by lia. done.
Qed.

Lemma ctz_pos_spec p :
  0 <= ctz_pos p /\ Z.testbit (Zpos p) (ctz_pos p) = true /\
  forall i, 0 <= i < ctz_pos p -> Z.testbit (Zpos p) i = false.
Proof.
  induction p as [p IH|p IH|]; simpl ctz_pos.
  - split; [done|]. split; [done|]. lia.
  - destruct IH as (H0 & H1 & H2). split; [lia|].
    change (Zpos p~0) with (2 * Zpos p). rewrite Z.add_comm, Z.add_1_r, Z.testbit_even_succ by done.
    split; [done|]. intros i Hi. destruct (Z.eq_dec i 0) as [->|Hne]; [apply Z.testbit_even_0|].
    replace i with (Z.succ (i - 1)) by lia. rewrite Z.testbit_even_succ by lia. apply H2. lia.
  - split; [done|]. split; [done|]. lia.
Qed.

Lemma trailing_zeros_spec x :
  0 < x -> 0 <= trailing_zeros x /\ Z.testbit x (trailing_zeros x) = true /\
  forall i, 0 <= i < trailing_zeros x -> Z.testbit x i = false.
Proof. destruct x; [done| |done]. intros _. apply ctz_pos_spec. Qed.

(** The mask of the scan's [k]-th word. *)
Definition scan_mask (start : Z) (k : Z) : Z :=
  if k =? 0 then wrap64 (Z.shiftl u64_max (start mod 64)) else u64_max.

Lemma testbit_u64_max i : 0 <= i -> Z.testbit u64_max i = (i <? 64).
Proof.
  intros H. change u64_max with (Z.ones 64). destruct (Z.ltb_spec i 64).
  - by rewrite Z.ones_spec_low by lia.
  - by rewrite Z.ones_spec_high by lia.
Qed.

Lemma scan_mask_bits start k i :
  0 <= i -> Z.testbit (scan_mask start k) i = (i <? 64) && (negb (k =? 0) || (start mod 64 <=? i)).
Proof.
  intros H. unfold scan_mask. pose proof (Z.mod_pos_bound start 64 ltac:(lia)).
  destruct (k =? 0); simpl; [|by rewrite testbit_u64_max, andb_true_r].
  unfold wrap64. change 18446744073709551616 with (2 ^ 64). destruct (Z.ltb_spec i 64) as [Hi|Hi]; simpl.
  - rewrite Z.mod_pow2_bits_low, Z.shiftl_spec by lia. destruct (Z.leb_spec (start mod 64) i).
    + rewrite testbit_u64_max by lia. apply Z.ltb_lt. lia.
    + apply Z.testbit_neg_r. lia.
  - apply Z.mod_pow2_bits_high. lia.
Qed.

Lemma scan_mask_nonneg start k : 0 <= scan_mask start k.
Proof.
  unfold scan_mask. destruct (k =? 0); [|done]. unfold wrap64. apply Z.mod_pos_bound. lia.
Qed.

(** The slots whose bit is set. *)
Definition slot_set (occupied : Z -> Z) (s : Z) : Prop :=
  0 <= s < 256 /\ Z.testbit (occupied (s / 64)) (s mod 64) = true.

Lemma scan_words_spec occupied start n : forall k,
  Z.of_nat n + k = 5 -> 0 <= k -> 0 <= start < 256 ->
  (forall s, slot_set occupied s -> 64 * k - start mod 64 <= (s - start) mod 256) ->
  match scan_words occupied start n (start / 64 + k) (scan_mask start k) with
  | None => forall s, ~ slot_set occupied s
  | Some ahead => 0 <= ahead < 256 /\ forall s, slot_set occupied s -> ahead <= (s - start) mod 256
  end.
Proof.
  induction n as [|n IH]; intros k Hn Hk Hs Hbefore; cbn [scan_words].
  - intros s Hset. specialize (Hbefore s Hset). Z.to_euclidean_division_equations. lia.
  - set (word := (start / 64 + k) mod 4). set (hits := Z.land _ _).
    assert (0 <= hits) as Hnn by (apply Z.land_nonneg; right; apply scan_mask_nonneg).
    assert (forall i, 0 <= i -> Z.testbit hits i =
      Z.testbit (occupied word) i && ((i <? 64) && (negb (k =? 0) || (start mod 64 <=? i)))) as Hbits
      by (intros i Hi; unfold hits; by rewrite Z.land_spec, scan_mask_bits).
    (* a set slot of this word is a hit *)
    assert (forall s, slot_set occupied s -> (s - start) mod 256 < 64 * k - start mod 64 + 64 ->
      Z.testbit hits ((s - start) mod 256 - (64 * k - start mod 64)) = true) as Hword.
    { intros s Hset Hlt. pose proof (Hbefore s Hset). destruct Hset as [Hr Hbit].
      assert ((s - start) mod 256 - (64 * k - start mod 64) = s mod 64 /\ s / 64 = word) as [Ei Ew]
        by (unfold word; Z.to_euclidean_division_equations; lia).
      rewrite Ei, Hbits, <- Ew, Hbit by (apply Z.mod_pos_bound; lia).
      pose proof (Z.mod_pos_bound s 64 ltac:(lia)). pose proof (Z.mod_pos_bound (s - start) 256 ltac:(lia)).
      rewrite (proj2 (Z.ltb_lt (s mod 64) 64)) by lia. simpl. destruct (Z.eqb_spec k 0); [|done]. simpl.
      apply Z.leb_le. lia. }
    destruct (Z.eqb_spec hits 0) as [Hz|Hz]; simpl negb; cbv iota.
    + specialize (IH (k + 1)). rewrite (Z.add_assoc (start / 64) k 1) in IH.
      replace (scan_mask start (k + 1)) with u64_max in IH
        by (unfold scan_mask; by rewrite (proj2 (Z.eqb_neq (k + 1) 0)) by lia).
      apply IH; [lia|lia|done|]. intros s Hset.
      destruct (Z.lt_ge_cases ((s - start) mod 256) (64 * k - start mod 64 + 64)) as [Hlt|Hge]; [|lia].
      specialize (Hword s Hset Hlt). by rewrite Hz, Z.bits_0 in Hword.
    + destruct (trailing_zeros_spec hits ltac:(lia)) as (T0 & T1 & T2).
      set (bit := trailing_zeros hits) in *.
      rewrite Hbits in T1 by done. apply andb_true_iff in T1 as [_ [T64 Tm]%andb_true_iff].
      apply Z.ltb_lt in T64. unfold SLOTS. split; [apply Z.mod_pos_bound; lia|]. intros s Hset.
      assert ((word * 64 + bit + 256 - start) mod 256 <= 64 * k - start mod 64 + bit) as Hle.
      { destruct (Z.eqb_spec k 0) as [Hk0|Hk0]; simpl in Tm; [apply Z.leb_le in Tm|];
          unfold word; clear -Tm Hk0 Hk Hs T0 T64 Hn; Z.to_euclidean_division_equations; lia. }
      destruct (Z.lt_ge_cases ((s - start) mod 256) (64 * k - start mod 64 + 64)) as [Hlt|Hge]; [|lia].
      specialize (Hword s Hset Hlt). pose proof (Hbefore s Hset).
      destruct (Z.lt_ge_cases ((s - start) mod 256 - (64 * k - start mod 64)) bit) as [Hb|Hb]; [|lia].
      rewrite T2 in Hword by lia. done.
Qed.

Lemma first_occupied_spec occupied start :
  0 <= start < 256 ->
  match first_occupied occupied start with
  | None => forall s, ~ slot_set occupied s
  | Some ahead => 0 <= ahead < 256 /\ forall s, slot_set occupied s -> ahead <= (s - start) mod 256
  end.
Proof.
  intros Hs. pose proof (scan_words_spec occupied start 5 0) as H. rewrite (Z.add_0_r (start / 64)) in H.
  apply H; [done|done|done|]. intros s _. Z.to_euclidean_division_equations. lia.
Qed.

Section Links.
Context {T : Type}.
Implicit Types (w : TimerWheel T) (e : Entry T).

Definition occ_bit w (level slot : Z) : bool := Z.testbit (word_of w level (slot / 64)) (slot mod 64).

Lemma bucket_set level slot ids word w l s :
  bucket (set_bucket level slot ids word w) l s = if decide ((level, slot) = (l, s)) then ids else bucket w l s.
Proof. unfold bucket, set_bucket; simpl. rewrite lookup_insert. by case_decide. Qed.

Lemma occ_bit_set level slot ids word w l s b :
  (forall i, 0 <= i < 64 -> Z.testbit word i =
     if decide (i = slot mod 64) then b else Z.testbit (word_of w level (slot / 64)) i) ->
  occ_bit (set_bucket level slot ids word w) l s =
  if decide ((level, slot) = (l, s)) then b else occ_bit w l s.
Proof.
  intros H. unfold occ_bit, word_of, set_bucket; simpl. rewrite lookup_insert.
  assert (0 <= s mod 64 < 64) by (apply Z.mod_pos_bound; lia).
  pose proof (Z.div_mod s 64). pose proof (Z.div_mod slot 64).
  destruct (decide ((level, slot / 64) = (l, s / 64))) as [[= -> E]|Hne].
  - simpl. rewrite H by done. unfold word_of. rewrite E.
    destruct (decide (s mod 64 = slot mod 64)) as [Em|Em], (decide _) as [Ed|Ed]; try done.
    + exfalso. apply Ed. f_equal. lia.
    + exfalso. apply Em. congruence.
  - rewrite (decide_False (P := (level, slot) = (l, s))); [done|]. intros [= -> ->]. done.
Qed.

(** Buckets and entries agree, but for the ids [X], which are in no bucket; the
    bitmap agrees with the buckets. *)
Record linked (X : gset TimerId) w : Prop := {
  lk_in : forall id e, entries w !! id = Some e -> id ∉ X -> id ∈ bucket w (e_level e) (e_slot e);
  lk_out : forall l s id, id ∈ bucket w l s ->
    (id ∉ X) /\ exists e, entries w !! id = Some e /\ e_level e = l /\ e_slot e = s;
  lk_occ : forall l s, occ_bit w l s = bool_decide (bucket w l s <> ∅)
}.

Lemma set_bucket_occ level slot ids word w b :
  (forall l s, occ_bit w l s = bool_decide (bucket w l s <> ∅)) ->
  (forall i, 0 <= i < 64 -> Z.testbit word i =
     if decide (i = slot mod 64) then b else Z.testbit (word_of w level (slot / 64)) i) ->
  b = bool_decide (ids <> ∅) ->
  forall l s, occ_bit (set_bucket level slot ids word w) l s =
    bool_decide (bucket (set_bucket level slot ids word w) l s <> ∅).
Proof.
  intros H Hw -> l s. rewrite bucket_set, (occ_bit_set _ _ _ _ _ _ _ _ Hw).
  destruct (decide ((level, slot) = (l, s))); [done|apply H].
Qed.

Lemma insert_into_bits level slot w :
  forall i, 0 <= i < 64 -> Z.testbit (Z.lor (word_of w level (slot / 64)) (slot_bit slot)) i =
    if decide (i = slot mod 64) then true else Z.testbit (word_of w level (slot / 64)) i.
Proof.
  intros i Hi. rewrite Z.lor_spec, testbit_slot_bit by done.
  case_decide; [rewrite bool_decide_eq_true_2 by done; apply orb_true_r|].
  rewrite bool_decide_eq_false_2 by done. apply orb_false_r.
Qed.

Lemma clear_bits level slot w :
  forall i, 0 <= i < 64 -> Z.testbit (clear_bit (word_of w level (slot / 64)) slot) i =
    if decide (i = slot mod 64) then false else Z.testbit (word_of w level (slot / 64)) i.
Proof.
  intros i Hi. rewrite testbit_clear_bit by done.
  case_decide; [rewrite bool_decide_eq_true_2 by done; apply andb_false_r|].
  rewrite bool_decide_eq_false_2 by done. apply andb_true_r.
Qed.

(** An id of [X] whose entry names the bucket is put there. *)
Lemma insert_into_linked X w id e :
  linked X w -> id ∈ X -> entries w !! id = Some e ->
  linked (X ∖ {[id]}) (insert_into (e_level e) (e_slot e) id w).
Proof.
  intros H Hid He. unfold insert_into. split.
  - intros id' e' He' Hx. simpl in He'. rewrite bucket_set. destruct (decide (id' = id)) as [->|Hne].
    + rewrite He in He'. injection He' as <-. rewrite decide_True by done. set_solver.
    + case_decide as Hd.
      * apply elem_of_union_r. injection Hd as -> ->. apply H; [done|set_solver].
      * apply H; [done|set_solver].
  - intros l s id'. rewrite bucket_set. case_decide as Hd.
    + injection Hd as <- <-. intros [->%elem_of_singleton|Hin]%elem_of_union; [set_solver|].
      destruct (lk_out _ _ H _ _ _ Hin) as [? ?]. simpl. set_solver.
    + intros Hin. destruct (lk_out _ _ H _ _ _ Hin) as [? ?]. simpl. set_solver.
  - eapply set_bucket_occ; [apply H|by apply insert_into_bits|].
    symmetry. apply bool_decide_eq_true. set_solver.
Qed.

Lemma take_slot_linked w level slot :
  linked ∅ w -> linked (bucket w level slot) (take_slot level slot w).1.
Proof.
  intros H. unfold take_slot. simpl. split.
  - intros id e He Hx. simpl in He. rewrite bucket_set. pose proof (lk_in _ _ H _ _ He) as Hin.
    case_decide as Hd; [|set_solver]. injection Hd as -> ->. set_solver.
  - intros l s id. rewrite bucket_set. case_decide as Hd; [set_solver|]. intros Hin.
    destruct (lk_out _ _ H _ _ _ Hin) as [_ (e & He & <- & <-)]. simpl. split; [|eauto].
    intros Hin'. destruct (lk_out _ _ H _ _ _ Hin') as [_ (e' & He' & <- & <-)]. rewrite He in He'.
    injection He' as <-. done.
  - eapply set_bucket_occ; [apply H|by apply clear_bits|]. symmetry. by apply bool_decide_eq_false; intros [].
Qed.

(** An id of [X] may be dropped from the entries ... *)
Lemma drop_entry_linked X w id :
  linked X w -> id ∈ X -> linked (X ∖ {[id]}) (set_entries (delete id (entries w)) w).
Proof.
  intros H Hid. split; [| |apply H].
  - intros id' e' He' Hx. simpl in He'. apply lookup_delete_Some in He' as [Hne He']. apply H; [done|set_solver].
  - intros l s id' Hin. destruct (lk_out _ _ H l s id' Hin) as [Hx (e & He & ?)]. split; [set_solver|].
    exists e. split; [|done]. simpl. rewrite lookup_delete_ne; [done|]. intros ->. done.
Qed.

(** ... or get another entry. *)
Lemma set_entry_linked X w id e :
  linked X w -> id ∈ X -> linked X (set_entries (<[id := e]> (entries w)) w).
Proof.
  intros H Hid. split; [| |apply H].
  - intros id' e' He' Hx. simpl in He'. rewrite lookup_insert_ne in He' by (intros ->; done). by apply H.
  - intros l s id' Hin. destruct (lk_out _ _ H l s id' Hin) as [Hx (e' & He & ?)]. split; [done|].
    exists e'. split; [|done]. simpl. rewrite lookup_insert_ne; [done|]. intros ->. done.
Qed.

Definition relocated (c : Z) e : Entry T :=
  relocate (bucket_for c (deadline_tick e)).1 (bucket_for c (deadline_tick e)).2 e.

Lemma place_spec X w id e :
  linked X w -> id ∈ X -> entries w !! id = Some e ->
  linked (X ∖ {[id]}) (place id (deadline_tick e) w) /\
  entries (place id (deadline_tick e) w) = <[id := relocated (current_tick w) e]> (entries w) /\
  current_tick (place id (deadline_tick e) w) = current_tick w /\
  tick_ms (place id (deadline_tick e) w) = tick_ms w /\ next_id (place id (deadline_tick e) w) = next_id w.
Proof.
  intros H Hid He. unfold place, relocated.
  destruct (bucket_for (current_tick w) (deadline_tick e)) as [l s] eqn:E.
  split; [|split; [|done]].
  - assert (alter (relocate l s) id (entries w) = <[id := relocate l s e]> (entries w)) as ->.
    { apply map_eq. intros j. destruct (decide (j = id)) as [->|Hne].
      - by rewrite lookup_alter_eq, He, lookup_insert_eq.
      - by rewrite lookup_alter_ne, lookup_insert_ne. }
    apply (insert_into_linked X (set_entries (<[id := relocate l s e]> (entries w)) w) id (relocate l s e)).
    + by apply set_entry_linked.
    + done.
    + simpl. apply lookup_insert_eq.
  - simpl. apply map_eq. intros j. destruct (decide (j = id)) as [->|Hne].
    + by rewrite lookup_alter_eq, He, lookup_insert_eq.
    + by rewrite lookup_alter_ne, lookup_insert_ne.
Qed.

(** The entries after the ids [l] were placed again. *)
Definition relocated_at (c : Z) (l : list TimerId) (es es' : gmap TimerId (Entry T)) : Prop :=
  forall id, es' !! id = if decide (id ∈ l) then relocated c <$> es !! id else es !! id.

Lemma relocated_idem c e : relocated c (relocated c e) = relocated c e.
Proof. done. Qed.

Lemma place_ids_spec ids : forall w,
  linked (list_to_set ids) w -> (forall id, id ∈ ids -> is_Some (entries w !! id)) -> NoDup ids ->
  linked ∅ (place_ids ids w) /\
  relocated_at (current_tick w) ids (entries w) (entries (place_ids ids w)) /\
  current_tick (place_ids ids w) = current_tick w /\
  tick_ms (place_ids ids w) = tick_ms w /\ next_id (place_ids ids w) = next_id w.
Proof.
  induction ids as [|id ids IH]; intros w H Hsome Hnd.
  - split; [done|]. split; [|done]. intros id. by rewrite decide_False by apply not_elem_of_nil.
  - apply NoDup_cons in Hnd as [Hnot Hnd].
    destruct (Hsome id) as [e He]; [left|]. cbn [place_ids]. rewrite He.
    destruct (place_spec _ _ id _ H ltac:(simpl; set_solver) He) as (L & E & C & K & N).
    assert (list_to_set (id :: ids) ∖ {[id]} = (list_to_set ids : gset TimerId)) as HX by set_solver.
    rewrite HX in L. destruct (IH _ L) as (L' & R & C' & K' & N'); [|done|].
    { intros j Hj. rewrite E, lookup_insert_ne by (intros ->; done). apply Hsome. by right. }
    split; [done|]. split; [|split; [congruence|split; congruence]].
    intros j. rewrite (R j), C, E. destruct (decide (j = id)) as [->|Hne].
    + rewrite decide_False, (decide_True (P := id ∈ id :: ids)), lookup_insert_eq, He by (done || left). done.
    + rewrite lookup_insert_ne by done. destruct (decide (j ∈ ids)).
      * rewrite decide_True by (by right). done.
      * rewrite decide_False; [done|]. intros [->|?]%elem_of_cons; done.
Qed.

(** The ids of a bucket as [take_slot] returns them. *)
Lemma take_slot_ids w level slot id : id ∈ (take_slot level slot w).2 <-> id ∈ bucket w level slot.
Proof. simpl. rewrite merge_sort_Permutation, elem_of_elements. done. Qed.

Lemma take_slot_nodup w level slot : NoDup (take_slot level slot w).2.
Proof. simpl. rewrite merge_sort_Permutation. apply NoDup_elements. Qed.

Lemma take_slot_place w level slot :
  linked ∅ w ->
  let '(w', ids) := take_slot level slot w in
  linked ∅ (place_ids ids w') /\
  relocated_at (current_tick w) ids (entries w) (entries (place_ids ids w')) /\
  current_tick (place_ids ids w') = current_tick w /\
  tick_ms (place_ids ids w') = tick_ms w /\ next_id (place_ids ids w') = next_id w.
Proof.
  intros H. pose proof (take_slot_linked w level slot H) as L.
  pose proof (take_slot_ids w level slot) as Hin. pose proof (take_slot_nodup w level slot) as Hnd.
  unfold take_slot in *. simpl in Hin, Hnd, L.
  apply (place_ids_spec (merge_sort Z.le (elements (bucket w level slot))) (set_bucket level slot ∅
     (clear_bit (word_of w level (slot / 64)) slot) w)); [|intros id Hid%Hin|done].
  - replace (list_to_set _) with (bucket w level slot); [done|]. apply set_eq. intros id.
    by rewrite elem_of_list_to_set, Hin.
  - destruct (lk_out _ _ H _ _ _ Hid) as [_ (e & He & _)]. simpl. eauto.
Qed.
End Links.
