(* ===== verification/TimerRefine.v ===== *)
(** The timer wheel of [sail-netstack/src/timer.rs] refines a table of deadlines:
    advancing it fires exactly the timers that are due, in order, whether tick
    by tick or by the rebuild of a large jump; and the deadline it announces is
    never late. *)
From S2P Require Import Prelude Timer.
From stdpp Require Import list sorting gmap.
#[local] Open Scope Z_scope.

(** * The specification: a table of deadlines *)
Section Spec.
Context {T : Type}.
Implicit Types (m : gmap TimerId (Z * T)).

(** The (deadline, id) of the timers due by tick [t], in order. *)
Definition due_keys (t : Z) m : list (Z * TimerId) :=
  merge_sort key_le
    (omap (fun p => if p.2.1 <=? t then Some (p.2.1, p.1) else None) (map_to_list m)).

Definition fired_values (l : list (Z * TimerId)) m : list T := omap (fun k => snd <$> m !! k.2) l.

(** Everything due by [t] fires, by deadline and then by id. *)
Definition expire (t : Z) m : gmap TimerId (Z * T) * list T :=
  (filter (fun p => t < p.2.1) m, fired_values (due_keys t m) m).

#[global] Instance key_le_total : Total key_le.
Proof. intros [d i] [d' i']. unfold key_le; simpl. lia. Qed.
#[global] Instance key_le_trans : Transitive key_le.
Proof. intros [d i] [d' i'] [d'' i'']. unfold key_le; simpl. lia. Qed.
#[global] Instance key_le_antisymm : AntiSymm (=) key_le.
Proof. intros [d i] [d' i']. unfold key_le; simpl. intros. f_equal; lia. Qed.

Definition lists_due (t : Z) m (l : list (Z * TimerId)) : Prop :=
  StronglySorted key_le l /\ NoDup l /\
  forall d id, (d, id) ∈ l <-> d <= t /\ exists v, m !! id = Some (d, v).

Lemma due_keys_nodup t m : NoDup (due_keys t m).*2.
Proof.
  unfold due_keys. rewrite merge_sort_Permutation.
  eapply (sublist_NoDup _ ((map_to_list m).*1)); [apply NoDup_fst_map_to_list|].
  generalize (map_to_list m). intros l. induction l as [|[i [d v]] l IH]; simpl; [constructor|].
  case_bool; simpl; by constructor.
Qed.

Lemma due_keys_lists t m : lists_due t m (due_keys t m).
Proof.
  split; [apply StronglySorted_merge_sort; apply _|].
  split; [apply NoDup_fmap_1 with (f := snd), due_keys_nodup|].
  unfold due_keys.
  intros d id. rewrite merge_sort_Permutation, list_elem_of_omap. split.
  - intros ([i [d' v]] & Hin & He). simpl in He. destruct (Z.leb_spec d' t); [|done].
    injection He as <- <-. apply elem_of_map_to_list in Hin. eauto.
  - intros [Hd (v & Hv)]. exists (id, (d, v)). split; [by apply elem_of_map_to_list|].
    simpl. by rewrite (proj2 (Z.leb_le d t)).
Qed.

Lemma lists_due_unique t m l : lists_due t m l -> l = due_keys t m.
Proof.
  intros (S1 & N1 & E1). destruct (due_keys_lists t m) as (S2 & N2 & E2).
  apply (StronglySorted_unique key_le); [done..|].
  apply NoDup_Permutation; [done..|]. intros [d id]. by rewrite E1, E2.
Qed.

Lemma fired_values_app l l' m : fired_values (l ++ l') m = fired_values l m ++ fired_values l' m.
Proof. apply omap_app. Qed.

Lemma fired_values_cons k l m :
  fired_values (k :: l) m =
  match m !! k.2 with Some p => p.2 :: fired_values l m | None => fired_values l m end.
Proof. unfold fired_values. cbn. by destruct (m !! k.2). Qed.

Lemma fired_values_ext l m m' :
  (forall k, k ∈ l -> m !! k.2 = m' !! k.2) -> fired_values l m = fired_values l m'.
Proof.
  intros H. induction l as [|k l IH]; [done|]. rewrite !fired_values_cons.
  rewrite (H k) by left. rewrite IH by (intros; apply H; by right). done.
Qed.

(** What fires is what was due. *)
Lemma elem_of_expire t m v : v ∈ (expire t m).2 <-> exists id d, m !! id = Some (d, v) /\ d <= t.
Proof.
  destruct (due_keys_lists t m) as (_ & _ & E). cbn [expire snd]. unfold fired_values. rewrite list_elem_of_omap. split.
  - intros ([d id] & [Hd (v' & Hv)]%E & Hf). cbn in Hf. rewrite Hv in Hf. injection Hf as ->. eauto.
  - intros (id & d & Hv & Hd). exists (d, id). split; [apply E; eauto|]. cbn. by rewrite Hv.
Qed.

(** Advancing in two steps is advancing in one. *)
Lemma expire_expire t t' m :
  t <= t' -> expire t' m =
  let '(m1, v1) := expire t m in let '(m2, v2) := expire t' m1 in (m2, v1 ++ v2).
Proof.
  intros Ht. unfold expire. set (m1 := filter (fun p : TimerId * (Z * T) => t < p.2.1) m).
  assert (forall id d v, m1 !! id = Some (d, v) <-> m !! id = Some (d, v) /\ t < d) as Hm1.
  { intros id d v. unfold m1. rewrite map_lookup_filter_Some. reflexivity. }
  destruct (due_keys_lists t m) as (S1 & N1 & E1). destruct (due_keys_lists t' m1) as (S2 & N2 & E2).
  assert (due_keys t m ++ due_keys t' m1 = due_keys t' m) as <-.
  { apply lists_due_unique. split; [|split].
    - apply StronglySorted_app_2; [|done..]. intros [d i] [d' i'] [H1 _]%E1 [_ (v & [_ H2]%Hm1)]%E2.
      unfold key_le; simpl. lia.
    - apply NoDup_app. split; [done|]. split; [|done]. intros [d i] [H1 _]%E1 [_ (v & [_ H2]%Hm1)]%E2. lia.
    - intros d id. rewrite elem_of_app, E1, E2. setoid_rewrite Hm1. split.
      + intros [[? ?]|[? (v & ? & ?)]]; (split; [lia|eauto]).
      + intros [? (v & Hv)]. destruct (Z.le_gt_cases d t); [left|right]; (split; [done|]); eauto. }
  rewrite fired_values_app. f_equal; [|f_equal].
  - unfold m1. rewrite map_filter_filter. apply map_filter_ext. intros id [d v] _. simpl. lia.
  - apply fired_values_ext. intros [d id] [_ (v & Hv)]%E2. simpl. rewrite Hv.
    apply Hm1 in Hv as [-> _]. done.
Qed.
End Spec.

(** * The wheel *)
Section Refine.
Context {T : Type}.
Implicit Types (w : TimerWheel T) (e : Entry T).

Definition deadline_of e : Z * T := (deadline_tick e, e_value e).
(** The table of deadlines a wheel stands for. *)
Definition pending w : gmap TimerId (Z * T) := deadline_of <$> entries w.

Definition entry_ok (c : Z) e : Prop :=
  waits c (deadline_tick e) (e_level e) /\
  e_slot e = slot_for (deadline_tick e) (e_level e) /\
  deadline_tick e - c < 4294967296 /\ deadline_tick e <= u64_max.

Record wheel_wf w : Prop := {
  wf_linked : linked ∅ w;
  wf_tick_ms : 1 <= tick_ms w <= u64_max;
  wf_current : 0 <= current_tick w <= div_ceil u64_max (tick_ms w);
  wf_entries : forall id e, entries w !! id = Some e -> entry_ok (current_tick w) e /\ 0 <= id < next_id w;
  wf_next_id : 0 <= next_id w <= u64_max
}.

Lemma horizon_le tick : 1 <= tick -> div_ceil u64_max tick <= u64_max.
Proof. intros H. unfold div_ceil. width_unfold. apply Z.div_le_upper_bound; lia. Qed.

Lemma div_le_horizon now tick : 1 <= tick -> now <= u64_max -> now / tick <= div_ceil u64_max tick.
Proof. intros H Hn. unfold div_ceil. apply Z.div_le_mono; lia. Qed.

Lemma u64_max_nonneg : 0 <= u64_max.
Proof. unfold u64_max. lia. Qed.

Lemma is_u64_range x : is_u64 x -> 0 <= x <= u64_max.
Proof. unfold is_u64, u64_max. lia. Qed.

Lemma sat_mul_le a b c : sat_mul a b <= c -> c < u64_max -> a * b <= c.
Proof. unfold sat_mul. lia. Qed.

Lemma sat_add_1 a : a < u64_max -> sat_add a 1 = a + 1.
Proof. unfold sat_add. lia. Qed.

Lemma sat_sub_small a b : b <= a -> sat_sub a b = a - b.
Proof. unfold sat_sub. lia. Qed.

Lemma div_ceil_le a b c : 1 <= b -> 0 <= a <= c -> div_ceil a b <= c.
Proof. intros Hb Ha. unfold div_ceil. assert (c <= b * c) by nia. apply Z.lt_succ_r, Z.div_lt_upper_bound; lia. Qed.

Lemma waits_later c d level : waits c d level -> c < d.
Proof. intros [Hl H]. revert level Hl H. by_level. Qed.

Lemma relocated_pending c l es es' :
  relocated_at c l es es' -> (deadline_of <$> es' : gmap TimerId (Z * T)) = deadline_of <$> es.
Proof.
  intros H. apply map_eq. intros id. rewrite !lookup_fmap, (H id). case_decide; [|done].
  by destruct (es !! id).
Qed.

(** While tick [c] is processed: every entry waits as of [c - 1], and those of
    [level] and above already as of [c]. *)
Record cascading (c level : Z) w : Prop := {
  cs_linked : linked ∅ w;
  cs_current : current_tick w = c;
  cs_entries : forall id e, entries w !! id = Some e ->
    waits (c - 1) (deadline_tick e) (e_level e) /\
    e_slot e = slot_for (deadline_tick e) (e_level e) /\
    (level <= e_level e -> waits c (deadline_tick e) (e_level e))
}.

Definition same_timers w w' : Prop :=
  pending w' = pending w /\ tick_ms w' = tick_ms w /\ next_id w' = next_id w.

(** The ids in the slot of [c] at a boundary of the level. *)
Lemma slot_members c level w id e :
  cascading c (level + 1) w -> 0 <= level -> entries w !! id = Some e ->
  id ∈ bucket w level (slot_for c level) <->
  e_level e = level /\ deadline_tick e / span level mod 256 = c / span level mod 256.
Proof.
  intros H Hl He. destruct (cs_entries _ _ _ H _ _ He) as (Hw & Hs & _). split.
  - intros Hin. destruct (lk_out _ _ (cs_linked _ _ _ H) _ _ _ Hin) as [_ (e' & He' & <- & Hs')].
    rewrite He in He'. injection He' as <-. split; [done|]. by rewrite <- !slot_for_spec, <- Hs, Hs'.
  - intros [<- Hm]. rewrite slot_for_spec, <- Hm, <- slot_for_spec, <- Hs by done.
    apply (lk_in _ _ (cs_linked _ _ _ H)); [done|set_solver].
Qed.

Lemma cascade_level_spec c level w :
  1 <= level <= 3 -> cascading c (level + 1) w ->
  cascading c level (cascade_level level w) /\ same_timers w (cascade_level level w).
Proof.
  intros Hl H. unfold cascade_level. rewrite (cs_current _ _ _ H), boundary_test by lia.
  destruct (Z.eqb_spec (c mod span level) 0) as [Hb|Hb]; simpl negb; cbv iota.
  - pose proof (take_slot_place w level (slot_for c level) (cs_linked _ _ _ H)) as Hp.
    pose proof (take_slot_ids w level (slot_for c level)) as Hids.
    destruct (take_slot level (slot_for c level) w) as [w' ids] eqn:Et. simpl in Hids.
    destruct Hp as (L & R & C & K & N). rewrite (cs_current _ _ _ H) in R, C.
    split; [|split; [by eapply relocated_pending|done]].
    split; [done|done|]. intros id e He. rewrite (R id) in He. destruct (decide (id ∈ ids)) as [Hin|Hin].
    + destruct (entries w !! id) as [e0|] eqn:He0; [|done]. simpl in He. injection He as <-.
      apply Hids in Hin. destruct (proj1 (slot_members c level w id e0 H ltac:(lia) He0) Hin) as [Hlev Hm].
      destruct (cs_entries _ _ _ H _ _ He0) as (Hw & _ & _). rewrite Hlev in Hw.
      pose proof (waits_due _ _ _ Hw Hb Hm) as Hd.
      destruct (waits_cascaded c _ level ltac:(lia) Hb Hd) as [Hlt Hw'].
      unfold relocated, relocate. cbn [e_level e_slot deadline_tick].
      split; [done|]. split; [done|intros; lia].
    + destruct (cs_entries _ _ _ H _ _ He) as (Hw & Hs & Hdone). split; [done|]. split; [done|].
      intros Hle. destruct (decide (e_level e = level)) as [Heq|Hne]; [|apply Hdone; lia].
      rewrite Heq in *. apply waits_other; [done..|]. intros Hm. apply Hin, Hids.
      by apply (proj2 (slot_members c level w id e H ltac:(lia) He)).
  - split; [|done]. split; [apply H|apply H|]. intros id e He.
    destruct (cs_entries _ _ _ H _ _ He) as (Hw & Hs & Hdone). split; [done|]. split; [done|].
    intros Hle. destruct (decide (e_level e = level)) as [Heq|Hne]; [|apply Hdone; lia].
    rewrite Heq in *. by apply waits_same.
Qed.

Lemma cascade_boundaries_spec c w :
  cascading c 4 w -> cascading c 1 (cascade_boundaries w) /\ same_timers w (cascade_boundaries w).
Proof.
  intros H3. unfold cascade_boundaries.
  destruct (cascade_level_spec c 3 w) as [H2 (P3 & K3 & N3)]; [lia|done|].
  destruct (cascade_level_spec c 2 (cascade_level 3 w)) as [H1 (P2 & K2 & N2)]; [lia|done|].
  destruct (cascade_level_spec c 1 (cascade_level 2 (cascade_level 3 w))) as [H0 (P1 & K1 & N1)]; [lia|done|].
  split; [done|]. split; [|split]; congruence.
Qed.

Lemma remove_ids_spec ids : forall (es : gmap TimerId (Entry T)),
  NoDup ids ->
  (forall id, (remove_ids ids es).1 !! id = if decide (id ∈ ids) then None else es !! id) /\
  (remove_ids ids es).2 = omap (fun id => e_value <$> es !! id) ids.
Proof.
  induction ids as [|id ids IH]; intros es Hnd.
  - split; [|done]. intros id. by rewrite decide_False by apply not_elem_of_nil.
  - apply NoDup_cons in Hnd as [Hnot Hnd]. destruct (IH (delete id es) Hnd) as [H1 H2].
    cbn [remove_ids].
    destruct (remove_ids ids (delete id es)) as [es' vs]. cbn [fst snd] in *. split.
    + intros j. rewrite H1. destruct (decide (j = id)) as [->|Hne].
      * rewrite decide_False, (decide_True (P := id ∈ id :: ids)) by (done || left). apply lookup_delete_eq.
      * rewrite lookup_delete_ne by done. destruct (decide (j ∈ ids)).
        -- rewrite decide_True by (by right). done.
        -- rewrite decide_False; [done|]. intros [->|?]%elem_of_cons; done.
    + assert (vs = omap (fun id => e_value <$> es !! id) ids) as ->.
      { rewrite H2. apply list_omap_ext, Forall_Forall2_diag, Forall_forall. intros j Hj.
        rewrite lookup_delete_ne; [done|]. intros ->. done. }
      cbn. by destruct (es !! id).
Qed.

Lemma fire_ids_spec ids : forall w expired,
  linked (list_to_set ids) w -> NoDup ids ->
  (forall id, id ∈ ids -> exists e, entries w !! id = Some e /\ deadline_tick e <= current_tick w) ->
  fire_ids ids w expired =
    (set_entries (remove_ids ids (entries w)).1 w, expired ++ (remove_ids ids (entries w)).2) /\
  linked ∅ (set_entries (remove_ids ids (entries w)).1 w).
Proof.
  induction ids as [|id ids IH]; intros w expired H Hnd Hdue.
  - simpl. rewrite app_nil_r. destruct w; done.
  - apply NoDup_cons in Hnd as [Hnot Hnd]. destruct (Hdue id) as (e & He & Hd); [left|].
    cbn [fire_ids]. rewrite He. cbn [current_tick set_entries]. rewrite (proj2 (Z.leb_le _ _) Hd).
    set (w1 := set_entries (delete id (entries w)) w).
    assert (linked (list_to_set ids) w1) as L.
    { replace (list_to_set ids : gset TimerId) with (list_to_set (id :: ids) ∖ {[id]} : gset TimerId) by set_solver.
      apply drop_entry_linked; [done|]. simpl. set_solver. }
    destruct (IH w1 (expired ++ [e_value e]) L Hnd) as [Hf L'].
    { intros j Hj. destruct (Hdue j) as (e' & He' & Hd'); [by right|]. exists e'. split; [|done].
      simpl. rewrite lookup_delete_ne; [done|]. intros ->. done. }
    change (entries w1) with (delete id (entries w)) in Hf, L'. cbn [remove_ids]. rewrite He.
    destruct (remove_ids ids (delete id (entries w))) as [es' vs]. simpl in *.
    split; [|done]. rewrite Hf, <- app_assoc. done.
Qed.

(** Removing the entries that are due leaves what the table leaves. *)
Lemma remove_ids_expire t ids w :
  NoDup ids -> (forall id, id ∈ ids <-> exists e, entries w !! id = Some e /\ deadline_tick e <= t) ->
  deadline_of <$> (remove_ids ids (entries w)).1 = (expire t (pending w)).1.
Proof.
  intros Hnd Hids. destruct (remove_ids_spec ids (entries w) Hnd) as [H1 _].
  apply map_eq. intros id. rewrite lookup_fmap, H1. unfold expire, pending; simpl. symmetry.
  destruct (decide (id ∈ ids)) as [Hin|Hin].
  - simpl. apply Hids in Hin as (e & He & Hd). apply map_lookup_filter_None. right.
    intros [d v]. rewrite lookup_fmap, He. intros [= <- <-]. simpl. lia.
  - destruct (entries w !! id) as [e|] eqn:He; simpl.
    + apply map_lookup_filter_Some. rewrite lookup_fmap, He. split; [done|]. simpl.
      destruct (Z.le_gt_cases (deadline_tick e) t); [|done]. exfalso. apply Hin, Hids. eauto.
    + apply map_lookup_filter_None. left. by rewrite lookup_fmap, He.
Qed.

Lemma remove_ids_values keys w :
  NoDup keys.*2 -> (remove_ids keys.*2 (entries w)).2 = fired_values keys (pending w).
Proof.
  intros Hnd. rewrite (proj2 (remove_ids_spec _ _ Hnd)). unfold fired_values.
  apply list_omap_ext, Forall2_fmap_l, Forall_Forall2_diag, Forall_forall. intros [d id] _. simpl.
  unfold pending. rewrite lookup_fmap. by destruct (entries w !! id).
Qed.

Lemma pending_entry w w' id e :
  pending w' = pending w -> entries w' !! id = Some e ->
  exists e', entries w !! id = Some e' /\ deadline_tick e' = deadline_tick e.
Proof.
  intros P He. pose proof (f_equal (lookup id) P) as Hl. unfold pending in Hl. rewrite !lookup_fmap, He in Hl.
  destruct (entries w !! id) as [e'|]; [|done]. simpl in Hl. injection Hl as Hd _. eauto.
Qed.

(** In the slot of [c] are exactly the entries due. *)
Lemma due_members c w id e :
  cascading c 1 w -> entries w !! id = Some e ->
  id ∈ bucket w 0 (slot_for c 0) <-> deadline_tick e <= c.
Proof.
  intros H He. rewrite (slot_members c 0 w id e H ltac:(lia) He).
  destruct (cs_entries _ _ _ H _ _ He) as (Hw & Hs & Hdone). pose proof (waits_later _ _ _ Hw) as Hgt. split.
  - intros [Hl Hm]. rewrite Hl in Hw. pose proof (waits_due c _ 0 Hw (Z.mod_1_r c) Hm) as Hd.
    change (span 0) with 1 in Hd. lia.
  - intros Hle. assert (deadline_tick e = c) as -> by lia. split; [|done].
    destruct (Z.le_gt_cases 1 (e_level e)) as [Hl|Hl].
    + pose proof (waits_later _ _ _ (Hdone Hl)). lia.
    + destruct Hw as [? _]. lia.
Qed.

Lemma due_ids c w :
  cascading c 1 w ->
  let ids := (take_slot 0 (slot_for c 0) w).2 in
  NoDup ids /\ (forall id, id ∈ ids <-> exists e, entries w !! id = Some e /\ deadline_tick e <= c) /\
  ((fun id => (c, id)) <$> ids) = due_keys c (pending w).
Proof.
  intros H ids. pose proof (take_slot_nodup w 0 (slot_for c 0)) as Hnd. fold ids in Hnd.
  assert (forall id, id ∈ ids <-> exists e, entries w !! id = Some e /\ deadline_tick e <= c) as Hin.
  { intros id. unfold ids. rewrite take_slot_ids. split.
    - intros Hb. destruct (lk_out _ _ (cs_linked _ _ _ H) _ _ _ Hb) as [_ (e & He & _)].
      exists e. split; [done|]. by apply (due_members c w id e H He).
    - intros (e & He & Hd). by apply (due_members c w id e H He). }
  split; [done|]. split; [done|]. apply lists_due_unique. split; [|split].
  - assert (StronglySorted Z.le ids) as Hs by (apply StronglySorted_merge_sort; apply _).
    clear -Hs. induction Hs as [|x l Hs IH Hall]; simpl; constructor; [done|].
    apply Forall_fmap. eapply Forall_impl; [exact Hall|]. intros y Hy. right. simpl. lia.
  - apply NoDup_fmap_2; [|done]. intros ? ? [= ->]. done.
  - intros d id. rewrite list_elem_of_fmap. unfold pending. rewrite lookup_fmap. split.
    + intros (? & [= -> ->] & (e & He & Hd)%Hin). split; [lia|]. exists (e_value e). rewrite He. simpl.
      unfold deadline_of. repeat f_equal.
      destruct (cs_entries _ _ _ H _ _ He) as (Hw & _). pose proof (waits_later _ _ _ Hw). lia.
    + intros [Hd (v & Hv)]. destruct (entries w !! id) as [e|] eqn:He; [|done]. injection Hv as <- <-.
      exists id. destruct (cs_entries _ _ _ H _ _ He) as (Hw & _). pose proof (waits_later _ _ _ Hw).
      split; [f_equal; lia|]. apply Hin. eauto.
Qed.

(** What is left after the slot of [c] waits as of [c]. *)
Lemma cascaded_entry_ok c w id e :
  cascading c 1 w -> entries w !! id = Some e -> c < deadline_tick e ->
  waits c (deadline_tick e) (e_level e) /\ e_slot e = slot_for (deadline_tick e) (e_level e).
Proof.
  intros H He Hd. destruct (cs_entries _ _ _ H _ _ He) as (Hw & Hs & Hdone). split; [|done].
  destruct (Z.le_gt_cases 1 (e_level e)) as [Hl|Hl]; [by apply Hdone|].
  assert (e_level e = 0) as Hl0 by (destruct Hw; lia). rewrite Hl0 in *.
  apply waits_other; [done|apply Z.mod_1_r|]. intros Hm.
  assert (id ∈ bucket w 0 (slot_for c 0)) as Hb by (by apply (slot_members c 0 w id e H ltac:(lia) He)).
  apply (due_members c w id e H He) in Hb. lia.
Qed.

Lemma linked_tick X c w : linked X w -> linked X (set_tick c w).
Proof. intros []. by split. Qed.

(** One tick fires what is due at it. *)
Lemma advance_tick_spec w expired :
  wheel_wf w -> current_tick w < div_ceil u64_max (tick_ms w) ->
  let '(w', out) := advance_tick w expired in
  wheel_wf w' /\ current_tick w' = current_tick w + 1 /\ tick_ms w' = tick_ms w /\ next_id w' = next_id w /\
  (pending w', out) =
    let '(m, vs) := expire (current_tick w + 1) (pending w) in (m, expired ++ vs).
Proof.
  intros H Hc. pose proof (wf_current _ H) as Hcur. pose proof (horizon_le _ (proj1 (wf_tick_ms _ H))) as Hhor.
  unfold advance_tick. rewrite uadd_small by (width_unfold; lia).
  set (c := current_tick w + 1).
  assert (cascading c 4 (set_tick c w)) as H4.
  { split; [apply linked_tick, H|done|]. intros id e He. destruct (wf_entries _ H _ _ He) as [(Hw & Hs & _) _].
    replace (c - 1) with (current_tick w) by lia. split; [done|]. split; [done|].
    intros. destruct Hw. lia. }
  destruct (cascade_boundaries_spec c _ H4) as [H1 (P & K & N)].
  set (w1 := cascade_boundaries (set_tick c w)) in *.
  change (pending (set_tick c w)) with (pending w) in P.
  rewrite (cs_current _ _ _ H1). destruct (due_ids c w1 H1) as (Hnd & Hids & Hkeys).
  pose proof (take_slot_linked w1 0 (slot_for c 0) (cs_linked _ _ _ H1)) as L.
  pose proof (take_slot_ids w1 0 (slot_for c 0)) as Htake.
  assert (entries (take_slot 0 (slot_for c 0) w1).1 = entries w1 /\
          current_tick (take_slot 0 (slot_for c 0) w1).1 = c /\
          tick_ms (take_slot 0 (slot_for c 0) w1).1 = tick_ms w /\
          next_id (take_slot 0 (slot_for c 0) w1).1 = next_id w) as (He2 & Hc2 & Hk2 & Hn2).
  { split; [done|]. split; [apply H1|]. done. }
  destruct (take_slot 0 (slot_for c 0) w1) as [w2 ids]. cbn [fst snd] in *.
  destruct (fire_ids_spec ids w2 expired) as [Hfire Hlink].
  { replace (list_to_set ids : gset TimerId) with (bucket w1 0 (slot_for c 0)); [done|].
    apply set_eq. intros id. by rewrite elem_of_list_to_set, Htake. }
  { done. }
  { intros id (e & He & Hd)%Hids. rewrite He2, Hc2. eauto. }
  rewrite Hfire, He2 in *.
  assert (keys_eq : ((fun id => (c, id)) <$> ids).*2 = ids)
    by (rewrite <- list_fmap_compose; apply list_fmap_id).
  split; [|split; [exact Hc2|split; [exact Hk2|split; [exact Hn2|]]]].
  - destruct (remove_ids_spec ids (entries w1) Hnd) as [Hrm _].
    split; [done|..]; cbn [set_entries tick_ms current_tick next_id entries]; rewrite ?Hk2, ?Hc2, ?Hn2; try apply H; try lia.
    intros id e He. rewrite Hrm in He. revert He. case_decide as Hin; [done|]. intros He.
    destruct (pending_entry _ _ _ _ P He) as (e' & He' & Hd').
    destruct (wf_entries _ H _ _ He') as [(_ & _ & Hr & Hm) Hid]. split; [|done].
    assert (c < deadline_tick e) as Hlt.
    { destruct (Z.le_gt_cases (deadline_tick e) c); [|done]. exfalso. apply Hin, Hids. eauto. }
    destruct (cascaded_entry_ok c w1 id e H1 He Hlt). unfold entry_ok. rewrite <- Hd' in *.
    split; [done|]. split; [done|]. split; [lia|done].
  - rewrite <- P. unfold expire at 1. cbn [fst snd]. f_equal.
    + unfold pending at 1. cbn [entries set_entries]. rewrite (remove_ids_expire c ids w1 Hnd Hids). done.
    + f_equal. rewrite <- keys_eq at 1. rewrite remove_ids_values by (by rewrite keys_eq). by rewrite Hkeys.
Qed.

Lemma expire_none t (m : gmap TimerId (Z * T)) :
  (forall id d v, m !! id = Some (d, v) -> t < d) -> expire t m = (m, []).
Proof.
  intros H. unfold expire. f_equal.
  - apply map_filter_id. intros id [d v] Hm. simpl. by eapply H.
  - replace (due_keys t m) with (@nil (Z * TimerId)); [done|]. apply lists_due_unique.
    split; [constructor|]. split; [constructor|]. intros d id. split; [by intros ?%not_elem_of_nil|].
    intros [Hd (v & Hv)]. apply H in Hv. lia.
Qed.

Lemma wf_expire_none w : wheel_wf w -> expire (current_tick w) (pending w) = (pending w, []).
Proof.
  intros H. apply expire_none. intros id d v. unfold pending. rewrite lookup_fmap.
  destruct (entries w !! id) as [e|] eqn:He; [|done]. intros [= <- <-].
  destruct (wf_entries _ H _ _ He) as [(Hw & _) _]. by eapply waits_later.
Qed.

Lemma advance_ticks_spec n : forall w expired,
  wheel_wf w -> current_tick w + Z.of_nat n <= div_ceil u64_max (tick_ms w) ->
  let '(w', out) := advance_ticks n w expired in
  wheel_wf w' /\ current_tick w' = current_tick w + Z.of_nat n /\
  tick_ms w' = tick_ms w /\ next_id w' = next_id w /\
  (pending w', out) =
    let '(m, vs) := expire (current_tick w + Z.of_nat n) (pending w) in (m, expired ++ vs).
Proof.
  induction n as [|n IH]; intros w expired H Hc; cbn [advance_ticks].
  - rewrite Z.add_0_r, wf_expire_none by done. rewrite app_nil_r. done.
  - pose proof (advance_tick_spec w expired H ltac:(lia)) as Ht.
    destruct (advance_tick w expired) as [w1 out1]. destruct Ht as (H1 & C1 & K1 & N1 & P1).
    specialize (IH w1 out1 H1 ltac:(rewrite K1; lia)). destruct (advance_ticks n w1 out1) as [w2 out2].
    destruct IH as (H2 & C2 & K2 & N2 & P2).
    split; [done|]. split; [lia|]. split; [congruence|]. split; [congruence|]. rewrite P2, C1.
    replace (current_tick w + 1 + Z.of_nat n) with (current_tick w + Z.of_nat (S n)) by lia.
    rewrite (expire_expire (current_tick w + 1) (current_tick w + Z.of_nat (S n)) (pending w)) by lia.
    destruct (expire (current_tick w + 1) (pending w)) as [m1 v1]. injection P1 as -> ->.
    destruct (expire _ m1) as [m2 v2]. by rewrite app_assoc.
Qed.

(** The due list of [large_advance] is the one of the table. *)
Lemma large_due target w :
  merge_sort key_le
    (omap (fun p => if deadline_tick p.2 <=? target then Some (deadline_tick p.2, p.1) else None)
       (map_to_list (entries w))) = due_keys target (pending w).
Proof.
  unfold due_keys, pending. rewrite map_to_list_fmap. f_equal.
  apply list_omap_ext, Forall2_fmap_r, Forall_Forall2_diag, Forall_forall. by intros [id e] _.
Qed.

Lemma due_ids_members t w id :
  id ∈ (due_keys t (pending w)).*2 <-> exists e, entries w !! id = Some e /\ deadline_tick e <= t.
Proof.
  destruct (due_keys_lists t (pending w)) as (_ & _ & Hin). unfold pending in Hin at 2.
  setoid_rewrite lookup_fmap in Hin. rewrite list_elem_of_fmap. split.
  - intros ([d i] & -> & [Hd (v & Hv)]%Hin). simpl. destruct (entries w !! i); [|done]. injection Hv as <- <-. eauto.
  - intros (e & He & Hd). exists (deadline_tick e, id). split; [done|]. apply Hin. split; [done|].
    rewrite He. by eexists.
Qed.

Lemma map_to_list_keys (es : gmap TimerId (Entry T)) id : id ∈ (map_to_list es).*1 <-> is_Some (es !! id).
Proof.
  rewrite list_elem_of_fmap. split.
  - intros ([i e] & -> & ?%elem_of_map_to_list). eauto.
  - intros [e He]. exists (id, e). split; [done|]. by apply elem_of_map_to_list.
Qed.

Lemma rebuilt_linked tick target next (es : gmap TimerId (Entry T)) :
  linked (dom es) (mkWheel tick target next ∅ ∅ es).
Proof.
  split.
  - intros id e He Hn. exfalso. apply Hn, elem_of_dom. eauto.
  - intros l s id. unfold bucket; simpl. rewrite lookup_empty. simpl. set_solver.
  - intros l s. unfold occ_bit, word_of, bucket; simpl. rewrite !lookup_empty. simpl. rewrite Z.bits_0.
    symmetry. apply bool_decide_eq_false. by intros [].
Qed.

Lemma large_advance_spec target w :
  wheel_wf w -> current_tick w <= target <= div_ceil u64_max (tick_ms w) ->
  let '(w', out) := large_advance target w in
  wheel_wf w' /\ current_tick w' = target /\ tick_ms w' = tick_ms w /\ next_id w' = next_id w /\
  (pending w', out) = expire target (pending w).
Proof.
  intros H Ht. pose proof (wf_current _ H). unfold large_advance. rewrite large_due.
  pose proof (due_keys_nodup target (pending w)) as Hnd.
  pose proof (remove_ids_values (due_keys target (pending w)) w Hnd) as Hvals.
  pose proof (proj1 (remove_ids_spec _ (entries w) Hnd)) as Hrm.
  pose proof (remove_ids_expire target (due_keys target (pending w)).*2 w Hnd) as Hexp.
  destruct (remove_ids (due_keys target (pending w)).*2 (entries w)) as [es out]. cbn [fst snd] in *.
  assert (deadline_of <$> es = (expire target (pending w)).1) as Hes.
  { apply Hexp, due_ids_members. }
  destruct (place_ids_spec (map_to_list es).*1 (mkWheel (tick_ms w) target (next_id w) ∅ ∅ es))
    as (L & R & C & K & N).
  { replace (list_to_set _) with (dom es); [apply rebuilt_linked|]. apply set_eq. intros id.
    by rewrite elem_of_list_to_set, elem_of_dom, map_to_list_keys. }
  { intros id Hid. by apply map_to_list_keys. }
  { apply NoDup_fst_map_to_list. }
  cbn [entries current_tick tick_ms next_id] in *.
  split; [|split; [done|split; [done|split; [done|]]]].
  - split; rewrite ?C, ?K, ?N; try apply H; try done; [lia|].
    intros id e He. rewrite R in He.
    assert (exists e0, es !! id = Some e0 /\ e = relocated target e0) as (e0 & He0 & ->).
    { revert He. case_decide as Hk.
      - intros (e0 & He0 & ->)%fmap_Some. eauto.
      - intros He. exfalso. apply Hk, map_to_list_keys. eauto. }
    clear He. rewrite Hrm in He0. revert He0. case_decide as Hin; [done|]. intros He0.
    destruct (wf_entries _ H _ _ He0) as [(_ & _ & Hr & Hm) Hid]. split; [|done].
    assert (target < deadline_tick e0) as Hlt.
    { destruct (Z.le_gt_cases (deadline_tick e0) target); [|done]. exfalso. apply Hin, due_ids_members. eauto. }
    unfold entry_ok, relocated, relocate. cbn [deadline_tick e_level e_slot].
    split; [apply waits_new; lia|]. split; [done|]. split; [lia|done].
  - unfold pending at 1. rewrite (relocated_pending _ _ _ _ R), Hes, Hvals. done.
Qed.

(** The tick [advance_to] goes to. *)
Definition target_tick (now : Z) w : Z :=
  if now =? u64_max then div_ceil now (tick_ms w) else now / tick_ms w.

Lemma target_tick_range now w :
  wheel_wf w -> is_u64 now -> now_ms w <= now ->
  current_tick w <= target_tick now w <= div_ceil u64_max (tick_ms w).
Proof.
  intros H Hn Hle. pose proof (wf_tick_ms _ H) as Ht. pose proof (wf_current _ H) as Hc.
  pose proof (is_u64_range _ Hn) as Hr. unfold target_tick.
  destruct (Z.eqb_spec now u64_max) as [E|Hne].
  - rewrite E. split; [apply Hc|apply Z.le_refl].
  - split; [|apply div_le_horizon; lia]. apply Z.div_le_lower_bound; [lia|].
    rewrite Z.mul_comm. apply sat_mul_le; [exact Hle|lia].
Qed.

Lemma advance_to_spec now w :
  wheel_wf w -> is_u64 now ->
  let '(w', r) := advance_to now w in
  if now <? now_ms w then w' = w /\ r = Err (ClockWentBackwards (now_ms w) now)
  else
    wheel_wf w' /\ current_tick w' = target_tick now w /\ tick_ms w' = tick_ms w /\ next_id w' = next_id w /\
    (pending w', r) =
      let '(m, fired) := expire (target_tick now w) (pending w) in (m, Ok fired).
Proof.
  intros H Hn. unfold advance_to. destruct (Z.ltb_spec now (now_ms w)) as [Hlt|Hge]; [done|].
  pose proof (target_tick_range now w H Hn Hge). fold (target_tick now w). set (t := target_tick now w) in *.
  destruct (_ <? _).
  - pose proof (large_advance_spec t w H ltac:(done)) as Hl. destruct (large_advance t w) as [w' out].
    destruct Hl as (H' & C & K & N & P). destruct (expire t (pending w)). injection P as -> ->. done.
  - pose proof (advance_ticks_spec (Z.to_nat (t - current_tick w)) w [] H ltac:(lia)) as Ha.
    replace (current_tick w + Z.of_nat (Z.to_nat (t - current_tick w))) with t in Ha by lia.
    destruct (advance_ticks _ w []) as [w' out]. destruct Ha as (H' & C & K & N & P).
    destruct (expire t (pending w)). injection P as -> ->. done.
Qed.

(** C21: Advancing the wheel implements the table of deadlines: a clock that went
    back is refused and changes nothing; otherwise exactly the timers whose
    deadline is at or before the new tick fire, ordered by deadline and then by
    id, whether the wheel goes tick by tick through its cascades or rebuilds
    after a large jump, all other timers stay as they were, and the wheel is
    well formed again. *)
Theorem advance_to_refines now w :
  wheel_wf w -> is_u64 now ->
  let '(w', r) := advance_to now w in
  if now <? now_ms w then w' = w /\ r = Err (ClockWentBackwards (now_ms w) now)
  else
    wheel_wf w' /\ current_tick w' = target_tick now w /\ tick_ms w' = tick_ms w /\ next_id w' = next_id w /\
    (pending w', r) =
      let '(m, fired) := expire (target_tick now w) (pending w) in (m, Ok fired).
Proof. apply advance_to_spec. Qed.

Lemma wheel_new_wf tick now w : 1 <= tick <= u64_max -> is_u64 now ->
  wheel_new (E := TimerError) tick now = Ok w -> wheel_wf w /\ pending w = ∅.
Proof.
  intros Ht Hn. unfold wheel_new. rewrite (proj2 (Z.ltb_lt 0 tick)) by lia. intros [= <-].
  unfold is_u64 in Hn. split; [|apply fmap_empty].
  split; cbn [tick_ms current_tick next_id entries]; [..|split; [done|apply u64_max_nonneg]].
  - replace (∅ : gset TimerId) with (dom (∅ : gmap TimerId (Entry T)) : gset TimerId) by apply dom_empty_L.
    apply rebuilt_linked.
  - done.
  - split; [apply Z.div_pos; lia|]. apply div_le_horizon; [lia|]. apply Hn.
  - intros id e He. by rewrite lookup_empty in He.
Qed.

(** The tick a deadline is rounded up to. *)
Definition rounded (deadline : Z) w : Z := Z.max (div_ceil deadline (tick_ms w)) (current_tick w + 1).

Lemma rounded_not_early deadline w : 1 <= tick_ms w -> deadline <= rounded deadline w * tick_ms w.
Proof.
  intros H. unfold rounded, div_ceil.
  pose proof (Z.div_mod (deadline + tick_ms w - 1) (tick_ms w) ltac:(lia)).
  pose proof (Z.mod_pos_bound (deadline + tick_ms w - 1) (tick_ms w) ltac:(lia)).
  assert ((deadline + tick_ms w - 1) / tick_ms w * tick_ms w <=
    Z.max ((deadline + tick_ms w - 1) / tick_ms w) (current_tick w + 1) * tick_ms w)
    by (apply Z.mul_le_mono_nonneg_r; lia). lia.
Qed.

Lemma schedule_linked w e :
  wheel_wf w -> linked ∅ (insert_into (e_level e) (e_slot e) (next_id w)
    (mkWheel (tick_ms w) (current_tick w) (wrap64 (next_id w + 1)) (buckets w) (occupied w)
       (<[next_id w := e]> (entries w)))).
Proof.
  intros H. replace (∅ : gset TimerId) with ({[next_id w]} ∖ {[next_id w]} : gset TimerId) by set_solver.
  apply insert_into_linked; [|set_solver|simpl; apply lookup_insert_eq].
  assert (entries w !! next_id w = None) as Hfresh.
  { destruct (entries w !! next_id w) eqn:He; [|done]. destruct (wf_entries _ H _ _ He). lia. }
  split; simpl.
  - intros id e' He' Hn. rewrite lookup_insert_ne in He' by set_solver.
    apply (lk_in _ _ (wf_linked _ H)); [done|set_solver].
  - intros l s id Hin. destruct (lk_out _ _ (wf_linked _ H) _ _ _ Hin) as [_ (e' & He' & ?)].
    assert (id <> next_id w) by (intros ->; congruence).
    split; [set_solver|]. exists e'. by rewrite lookup_insert_ne.
  - apply (lk_occ _ _ (wf_linked _ H)).
Qed.

Lemma schedule_spec deadline (v : T) w :
  wheel_wf w -> is_u64 deadline -> current_tick w < u64_max -> next_id w < u64_max ->
  let '(w', r) := schedule deadline v w in
  match r with
  | Ok id =>
    wheel_wf w' /\ pending w !! id = None /\ rounded deadline w - current_tick w < 4294967296 /\
    pending w' = <[id := (rounded deadline w, v)]> (pending w) /\
    deadline <= rounded deadline w * tick_ms w
  | Err e => e = DeadlineOutOfRange /\ w' = w /\ 4294967296 <= rounded deadline w - current_tick w
  | Panic | OutOfFuel => False
  end.
Proof.
  intros H Hd Hc Hn. pose proof (wf_tick_ms _ H) as Ht. pose proof (wf_current _ H) as Hcur.
  pose proof (wf_next_id _ H) as Hid. pose proof (is_u64_range _ Hd) as Hdr.
  unfold schedule. rewrite sat_add_1 by lia. fold (rounded deadline w).
  assert (current_tick w < rounded deadline w) as Hr by (unfold rounded; lia).
  assert (rounded deadline w <= u64_max) as Hru
    by (apply Z.max_lub; [apply div_ceil_le; lia|lia]).
  rewrite (sat_sub_small (rounded deadline w)) by lia.
  destruct (Z.leb_spec 4294967296 (rounded deadline w - current_tick w)) as [Hfar|Hnear]; [done|].
  pose proof (waits_new (current_tick w) (rounded deadline w) ltac:(lia) Hnear) as Hw.
  rewrite (surjective_pairing (bucket_for _ _)).
  set (l := (bucket_for _ _).1) in *. set (sl := (bucket_for _ _).2).
  pose proof (schedule_linked w (mkEntry (rounded deadline w) l sl v) H) as Hl. cbn [e_level e_slot] in Hl.
  assert (wrap64 (next_id w + 1) = next_id w + 1) as Hwrap by (apply wrap64_small; lia).
  split.
  - split; cbn [insert_into set_bucket tick_ms current_tick next_id entries]; [done|done|done| |lia].
    rewrite Hwrap. intros id e [[<- <-]|[Hne He]]%lookup_insert_Some.
    + split; [|lia]. split; [done|]. split; [done|]. split; [done|done].
    + destruct (wf_entries _ H _ _ He) as [? ?]. split; [done|lia].
  - split.
    + unfold pending. rewrite lookup_fmap. destruct (entries w !! next_id w) eqn:He; [|done].
      destruct (wf_entries _ H _ _ He). lia.
    + split; [done|]. split; [|apply rounded_not_early; lia].
      unfold pending. cbn [insert_into set_bucket entries]. by rewrite fmap_insert.
Qed.

(** Taking an entry out of the wheel, from its bucket too. *)
Lemma remove_linked w id e :
  linked ∅ w -> entries w !! id = Some e ->
  linked ∅ (remove_from (e_level e) (e_slot e) id (set_entries (delete id (entries w)) w)).
Proof.
  intros H He. unfold remove_from.
  set (ids := bucket (set_entries _ w) (e_level e) (e_slot e) ∖ {[id]}).
  split.
  - intros j ej Hj _. cbn [entries set_bucket set_entries] in Hj. apply lookup_delete_Some in Hj as [Hne Hj].
    pose proof (lk_in _ _ H _ _ Hj ltac:(set_solver)) as Hin.
    rewrite bucket_set. case_decide as Hd; [|exact Hin]. injection Hd as E1 E2.
    subst ids. rewrite E1, E2. apply elem_of_difference. split; [exact Hin|set_solver].
  - intros l s j. rewrite bucket_set. intros Hj.
    assert (j <> id /\ j ∈ bucket w l s) as [Hne Hin].
    { revert Hj. case_decide as Hd.
      - injection Hd as <- <-. intros [Hin Hne]%elem_of_difference. split; [set_solver|exact Hin].
      - intros Hin. split; [|exact Hin]. intros ->. apply Hd.
        destruct (lk_out _ _ H _ _ _ Hin) as [_ (e' & He' & <- & <-)]. rewrite He in He'. by injection He' as <-. }
    destruct (lk_out _ _ H _ _ _ Hin) as [_ (e' & He' & ?)]. split; [set_solver|]. exists e'.
    cbn [entries set_bucket set_entries]. by rewrite lookup_delete_ne.
  - destruct (decide (ids = ∅)) as [E|E].
    + eapply set_bucket_occ; [apply H|apply clear_bits|]. symmetry. apply bool_decide_eq_false. by intros [].
    + eapply (set_bucket_occ _ _ _ _ _ true); [apply H| |symmetry; by apply bool_decide_eq_true].
      intros i Hi. case_decide as Hm; [|done]. subst i.
      change (occ_bit w (e_level e) (e_slot e) = true).
      rewrite (lk_occ _ _ H). apply bool_decide_eq_true. intros Hz. apply E. subst ids.
      change (bucket w (e_level e) (e_slot e) ∖ {[id]} = ∅). rewrite Hz. set_solver.
Qed.

Lemma cancel_spec id w :
  wheel_wf w ->
  let '(w', r) := Timer.cancel id w in
  wheel_wf w' /\ r = snd <$> pending w !! id /\ pending w' = delete id (pending w).
Proof.
  intros H. unfold Timer.cancel, pending. rewrite lookup_fmap. destruct (entries w !! id) as [e|] eqn:He.
  - split; [|split; [done|cbn; apply fmap_delete]].
    split; [apply remove_linked; [apply H|done]|apply H|apply H| |apply H].
    intros j ej. cbn. intros [_ Hj]%lookup_delete_Some. by apply (wf_entries _ H).
  - split; [done|]. split; [done|]. rewrite delete_id; [done|]. by rewrite lookup_fmap, He.
Qed.

(** [schedule] adds a timer under a fresh id at the first tick not before its
    deadline, so it cannot fire early, keeps the wheel well formed and every
    other timer as it was; it refuses, changing nothing, exactly the deadlines
    2^32 ticks away or more.  [cancel] takes the timer out and returns its value;
    cancelling what is not there returns nothing and changes no timer. *)
Lemma schedule_and_cancel deadline (v : T) w :
  wheel_wf w -> is_u64 deadline -> current_tick w < u64_max -> next_id w < u64_max ->
  (let '(w', r) := schedule deadline v w in
   match r with
   | Ok id =>
     wheel_wf w' /\ pending w !! id = None /\ rounded deadline w - current_tick w < 4294967296 /\
     pending w' = <[id := (rounded deadline w, v)]> (pending w) /\
     deadline <= rounded deadline w * tick_ms w
   | Err e => e = DeadlineOutOfRange /\ w' = w /\ 4294967296 <= rounded deadline w - current_tick w
   | Panic | OutOfFuel => False
   end) /\
  forall id, let '(w', r) := Timer.cancel id w in
    wheel_wf w' /\ r = snd <$> pending w !! id /\ pending w' = delete id (pending w).
Proof.
  intros H Hd Hc Hn. split; [by apply schedule_spec|]. intros id. by apply cancel_spec.
Qed.

(** ** The next deadline *)

Lemma entry_slot_set w id e :
  wheel_wf w -> entries w !! id = Some e ->
  slot_set (word_of w (e_level e)) (deadline_tick e / span (e_level e) mod 256).
Proof.
  intros H He. destruct (wf_entries _ H _ _ He) as [(Hw & Hs & _) _].
  split; [apply Z.mod_pos_bound; lia|]. rewrite <- slot_for_spec, <- Hs by (destruct Hw; lia).
  change (occ_bit w (e_level e) (e_slot e) = true). rewrite (lk_occ _ _ (wf_linked _ H)).
  apply bool_decide_eq_true. intros Hz.
  pose proof (lk_in _ _ (wf_linked _ H) _ _ He ltac:(set_solver)) as Hin. rewrite Hz in Hin. set_solver.
Qed.

(** The start of the [ahead]-th window of a level. *)
Lemma window_start c level ahead :
  0 <= level < 4 -> 0 <= c -> c + 8589934592 <= u64_max -> 0 <= ahead < 256 ->
  wrap64 (Z.shiftl (sat_add (Z.shiftr c (8 * level)) ahead) (8 * level)) =
  (c / span level + ahead) * span level.
Proof.
  intros Hl Hc Hu Ha. rewrite Z.shiftr_div_pow2, Z.shiftl_mul_pow2 by lia. fold (span level).
  assert (0 <= (c / span level + ahead) * span level <= c + 8589934592 /\ c / span level + ahead <= c + 256) as [Hb Hw].
  { revert level Hl. by_level. }
  unfold sat_add. rewrite Z.min_l by lia. apply wrap64_small. lia.
Qed.

Lemma ahead_not_late c d level ahead :
  waits c d level -> ahead <= (d / span level mod 256 - c / span level mod 256) mod 256 -> 0 <= ahead ->
  (c / span level + ahead) * span level <= d.
Proof. intros [Hl H]. revert level Hl H. by_level. Qed.

Lemma waits_above c d level level' :
  waits c d level' -> 0 <= level <= level' -> (c / span level + 1) * span level <= d.
Proof.
  intros [Hl H] Hle. assert (0 <= level < 4) as Hl' by lia. revert level Hl' Hle.
  assert (forall l', 0 <= l' < 4 -> c / span l' < d / span l' <= c / span l' + 256 ->
    forall l, 0 <= l < 4 -> 0 <= l <= l' -> (c / span l + 1) * span l <= d) as Hall; [|by apply Hall].
  clear. refine (level_cases _ _ _ _ _); destruct span_values as (E0 & E1 & E2 & E3); rewrite ?E0, ?E1, ?E2, ?E3;
    intros ?; refine (level_cases _ _ _ _ _); rewrite ?E0, ?E1, ?E2, ?E3; clear E0 E1 E2 E3; intros;
    Z.to_euclidean_division_equations; lia.
Qed.

(** [soonest] bounds the deadlines of the levels below [level]. *)
Definition soonest_ok w (level : Z) (soonest : option Z) : Prop :=
  match soonest with
  | None => forall id e, entries w !! id = Some e -> level <= e_level e
  | Some tick => current_tick w < tick /\
      forall id e, entries w !! id = Some e -> e_level e < level -> tick <= deadline_tick e
  end.

(** A level whose bitmap is empty holds no entry; the first occupied slot of
    another starts no later than any of its deadlines. *)
Lemma soonest_level w level soonest :
  wheel_wf w -> 0 <= level < 4 -> current_tick w + 8589934592 <= u64_max -> soonest_ok w level soonest ->
  soonest_ok w (level + 1)
    (match first_occupied (word_of w level) (slot_for (current_tick w) level) with
     | None => soonest
     | Some ahead =>
       let tick := Z.max ((current_tick w / span level + ahead) * span level) (current_tick w + 1) in
       Some (match soonest with Some s => Z.min s tick | None => tick end)
     end).
Proof.
  intros H Hl Hu Hs. rewrite slot_for_spec by lia. set (c := current_tick w) in *.
  pose proof (first_occupied_spec (word_of w level) (c / span level mod 256)
    (Z.mod_pos_bound _ 256 ltac:(lia))) as Hf.
  destruct (first_occupied _ _) as [ahead|].
  - destruct Hf as [Ha Hf].
    set (tick := Z.max ((c / span level + ahead) * span level) (c + 1)).
    assert (forall id e, entries w !! id = Some e -> e_level e = level -> tick <= deadline_tick e) as Hlev.
    { intros id e He <-. pose proof (Hf _ (entry_slot_set w id e H He)) as Hd.
      destruct (wf_entries _ H _ _ He) as [(Hw & _) _].
      pose proof (ahead_not_late _ _ _ _ Hw Hd ltac:(lia)). pose proof (waits_later _ _ _ Hw).
      apply Z.max_lub; [done|]. subst c. lia. }
    destruct soonest as [s|]; simpl in *.
    + destruct Hs as [H1 H2]. split; [lia|]. intros id e He Hle.
      destruct (Z.eq_dec (e_level e) level) as [E|E]; [specialize (Hlev id e He E); lia|].
      specialize (H2 id e He ltac:(lia)). lia.
    + split; [lia|]. intros id e He Hle. specialize (Hs id e He). apply (Hlev id e He). lia.
  - assert (forall id e, entries w !! id = Some e -> e_level e <> level) as Hne.
    { intros id e He <-. by apply (Hf _ (entry_slot_set w id e H He)). }
    destruct soonest as [s|]; simpl in *.
    + destruct Hs as [H1 H2]. split; [done|]. intros id e He Hle. apply (H2 id e He).
      specialize (Hne id e He). lia.
    + intros id e He. specialize (Hne id e He). specialize (Hs id e He). lia.
Qed.

Lemma soonest_tick_spec w n : forall level soonest,
  wheel_wf w -> current_tick w + 8589934592 <= u64_max -> level + Z.of_nat n = 4 -> 0 <= level ->
  soonest_ok w level soonest -> soonest_ok w 4 (soonest_tick n level w soonest).
Proof.
  induction n as [|n IH]; intros level soonest H Hu Hn Hl Hs; cbn [soonest_tick].
  { by replace 4 with level by lia. }
  assert (0 <= level < 4) as Hlev by lia. pose proof (wf_current _ H) as Hc.
  rewrite (window_start (current_tick w) level 1) by lia. case_bool.
  - destruct soonest as [tick|]; [|done]. apply Z.leb_le in Hif. destruct Hs as [H1 H2]. split; [done|].
    intros id e He _. destruct (Z.lt_ge_cases (e_level e) level) as [Hlow|Hhigh]; [by eapply H2|].
    destruct (wf_entries _ H _ _ He) as [(Hw & _) _].
    pose proof (waits_above _ _ level _ Hw ltac:(lia)). lia.
  - pose proof (soonest_level w level soonest H Hlev Hu Hs) as Hnext.
    pose proof (first_occupied_spec (word_of w level) (slot_for (current_tick w) level)) as Hf.
    destruct (first_occupied _ _) as [ahead|]; apply IH; try done; try lia.
    rewrite window_start, uadd_small; [exact Hnext| |done|lia|done|].
    + lia.
    + apply Hf. rewrite slot_for_spec by lia. apply Z.mod_pos_bound. lia.
Qed.

(** C22: The announced deadline is never late, up to two laps of the wheel before the
    tick counter overflows: with no timer there is none;
    otherwise it is a tick after the current one and at or before the deadline
    of every timer, so a caller that sleeps until it and then advances misses
    none. *)
Theorem next_deadline_never_late w :
  wheel_wf w -> current_tick w + 8589934592 <= u64_max ->
  match next_deadline_ms w with
  | None => pending w = ∅
  | Some t => exists tick, t = sat_mul tick (tick_ms w) /\ current_tick w < tick /\
      forall id d v, pending w !! id = Some (d, v) -> tick <= d
  end.
Proof.
  intros H Hu. unfold next_deadline_ms, wheel_is_empty. case_bool_decide as He.
  { unfold pending. rewrite He. apply fmap_empty. }
  pose proof (soonest_tick_spec w 4 0 None H Hu ltac:(lia) ltac:(lia)) as Hs.
  assert (soonest_ok w 0 None) as H0.
  { intros id e Hid. destruct (wf_entries _ H _ _ Hid) as [([? _] & _) _]. lia. }
  specialize (Hs H0). destruct (soonest_tick 4 0 w None) as [tick|]; simpl.
  - exists tick. destruct Hs as [H1 H2]. split; [done|]. split; [done|]. intros id d v.
    unfold pending. rewrite lookup_fmap. destruct (entries w !! id) as [e|] eqn:Hid; [|done].
    intros [= <- _]. apply (H2 id e Hid). destruct (wf_entries _ H _ _ Hid) as [([? _] & _) _]. lia.
  - exfalso. apply He. apply map_empty. intros id. destruct (entries w !! id) as [e|] eqn:Hid; [|done].
    specialize (Hs id e Hid). destruct (wf_entries _ H _ _ Hid) as [([? _] & _) _]. lia.
Qed.
End Refine.

(** ** A concrete wheel *)
Definition sample_wheel : TimerWheel nat :=
  let w := mkWheel 1 10 0 ∅ ∅ ∅ in
  let w := (schedule 12 1%nat w).1 in
  let w := (schedule 700 2%nat w).1 in
  (schedule 70000 3%nat w).1.

Lemma schedule_wf {T} deadline (v : T) w :
  wheel_wf w -> is_u64 deadline -> current_tick w < u64_max -> next_id w < u64_max ->
  wheel_wf (schedule deadline v w).1.
Proof.
  intros H H1 H2 H3. pose proof (schedule_spec deadline v w H H1 H2 H3) as Hs.
  destruct (schedule deadline v w) as [w' [id|e| |]]; simpl in *; try done; [apply Hs|].
  by destruct Hs as (_ & -> & _).
Qed.

Lemma sample_wheel_wf : wheel_wf sample_wheel.
Proof.
  unfold sample_wheel. repeat (apply schedule_wf; [|by unfold is_u64; lia|by vm_compute|by vm_compute]).
  apply (wheel_new_wf 1 10); [|unfold is_u64; lia|done]. unfold u64_max. lia.
Qed.

Lemma advance_to_refines_witness :
  let '(w', r) := advance_to 700 sample_wheel in
  wheel_wf w' /\ r = Ok [1%nat; 2%nat].
Proof.
  pose proof (advance_to_refines 700 sample_wheel sample_wheel_wf ltac:(unfold is_u64; lia)) as H.
  destruct (advance_to 700 sample_wheel) as [w' r] eqn:E.
  assert ((700 <? now_ms sample_wheel) = false) as Hn by (by vm_compute). rewrite Hn in H.
  split; [apply H|]. apply (f_equal snd) in E. cbn [snd] in E. rewrite <- E. vm_compute. reflexivity.
Defined.


Lemma next_deadline_never_late_witness :
  next_deadline_ms sample_wheel = Some 12 /\
  exists tick, 12 = sat_mul tick 1 /\ forall id d v, pending sample_wheel !! id = Some (d, v) -> tick <= d.
Proof.
  assert (next_deadline_ms sample_wheel = Some 12) as Hn by (by vm_compute). split; [exact Hn|].
  pose proof (next_deadline_never_late sample_wheel sample_wheel_wf ltac:(by vm_compute)) as H.
  rewrite Hn in H. destruct H as (tick & H1 & _ & H2). exists tick. split; [exact H1|exact H2].
Defined.

(** A timer one lap of its level ahead is in the slot the level is at now, which
    [first_occupied] reports as 0 windows ahead.  The announced deadline is then
    the very next tick, tick after tick until the level's window changes, not
    the start of the timer's bucket. *)
Definition lap_wheel : TimerWheel nat := (schedule 65545 1%nat (mkWheel 1 10 0 ∅ ∅ ∅)).1.

Theorem early_wakeups :
  Forall (fun n => next_deadline_ms (advance_to (10 + n) lap_wheel).1 = Some (11 + n) /\
                   (advance_to (10 + n) lap_wheel).2 = Ok []) [0; 1; 2; 3; 244].
Proof. repeat constructor. Qed.
