(* ===== verification/TcpWire.v ===== *)
(** The TCP wire format of [sail-netstack/src/tcp/wire.rs]: parsing of segments
    and their options, and emission.  Every index and slice is modelled with
    its panic; the properties show that no input reaches one and that what is
    emitted parses back. *)
From S2P Require Import Prelude Checksum IpWire TcpSeq.

(** ** Data *)
Record SackBlock := mkSackBlock { left : SeqNumber; right : SeqNumber }.

Record TcpOptions := mkTcpOptions {
  maximum_segment_size : option Z;
  window_scale : option Z;
  window_scale_clamped : bool;
  sack_permitted : bool;
  sack_blocks : list (option SackBlock);
  timestamps : option (Z * Z)
}.

(** [TcpOptions::default]; there is room for four blocks. *)
Definition default_options : TcpOptions := mkTcpOptions None None false false [None; None; None; None] None.

Record ParsedTcpSegment := mkParsedTcpSegment {
  tcp_source : SocketAddr;
  tcp_destination : SocketAddr;
  tcp_meta : TcpSegmentMeta;
  tcp_options : TcpOptions;
  tcp_payload : list Z
}.

Definition set_mss (v : Z) (o : TcpOptions) : TcpOptions :=
  mkTcpOptions (Some v) (window_scale o) (window_scale_clamped o) (sack_permitted o) (sack_blocks o) (timestamps o).
Definition set_window_scale (v : Z) (o : TcpOptions) : TcpOptions :=
  mkTcpOptions (maximum_segment_size o) (Some (Z.min v 14)) (14 <? v) (sack_permitted o) (sack_blocks o) (timestamps o).
Definition set_sack_permitted (o : TcpOptions) : TcpOptions :=
  mkTcpOptions (maximum_segment_size o) (window_scale o) (window_scale_clamped o) true (sack_blocks o) (timestamps o).
Definition set_sack_block (i : nat) (b : SackBlock) (o : TcpOptions) : TcpOptions :=
  mkTcpOptions (maximum_segment_size o) (window_scale o) (window_scale_clamped o) (sack_permitted o)
    (<[i := Some b]> (sack_blocks o)) (timestamps o).
Definition set_timestamps (v : Z * Z) (o : TcpOptions) : TcpOptions :=
  mkTcpOptions (maximum_segment_size o) (window_scale o) (window_scale_clamped o) (sack_permitted o) (sack_blocks o)
    (Some v).

(** ** Options *)

(** The eight-byte chunks of a SACK option. *)
Fixpoint parse_sack_blocks (data : list Z) (options : TcpOptions) (sack_index : nat)
    : outcome WireError (TcpOptions * nat) :=
  match data with
  | a :: b :: c :: d :: e :: f :: g :: h :: rest =>
    if Nat.eqb sack_index (length (sack_blocks options))
    then Err (Malformed "too many TCP SACK blocks")
    else
      let left := be32 a b c d in
      let right := be32 e f g h in
      if negb (after right left) then Err (Malformed "invalid TCP SACK block")
      else parse_sack_blocks rest (set_sack_block sack_index (mkSackBlock left right) options) (S sack_index)
  | _ => mret (options, sack_index)
  end.

(** The match on [(kind, length)]. *)
Definition parse_option (kind length : Z) (data : list Z) (options : TcpOptions) (sack_index : nat)
    : outcome WireError (TcpOptions * nat) :=
  if (kind =? 2) && (length =? 4) then
    if bool_decide (is_Some (maximum_segment_size options)) then Err (Malformed "duplicate TCP MSS option")
    else mss ← idx_be16 data 0; mret (set_mss mss options, sack_index)
  else if (kind =? 3) && (length =? 3) then
    if bool_decide (is_Some (window_scale options)) then Err (Malformed "duplicate TCP window scale")
    else scale ← idx data 0; mret (set_window_scale scale options, sack_index)
  else if (kind =? 4) && (length =? 2) then mret (set_sack_permitted options, sack_index)
  else if (kind =? 5) && ((10 <=? length) && ((length - 2) mod 8 =? 0)) then
    parse_sack_blocks data options sack_index
  else if (kind =? 8) && (length =? 10) then
    if bool_decide (is_Some (timestamps options)) then Err (Malformed "duplicate TCP timestamp option")
    else
      value ← idx_be32 data 0;
      echo ← idx_be32 data 4;
      mret (set_timestamps (value, echo) options, sack_index)
  else if (kind =? 2) || (kind =? 3) || (kind =? 4) || (kind =? 5) || (kind =? 8)
  then Err (Malformed "invalid known TCP option length")
  else mret (options, sack_index).

Fixpoint parse_options_loop (fuel : nat) (bytes : list Z) (options : TcpOptions) (sack_index : nat)
    : outcome WireError TcpOptions :=
  match fuel with
  | O => OutOfFuel
  | S fuel =>
    match bytes with
    | [] => mret options
    | kind :: bytes =>
      if kind =? 0 then
        if any_nonzero bytes then Err (Malformed "nonzero TCP option padding") else mret options
      else if kind =? 1 then parse_options_loop fuel bytes options sack_index
      else
        match bytes with
        | [] => Err Truncated
        | length :: remainder =>
          if (length <? 2) || (len bytes <? length - 1) then Err (Malformed "TCP option length")
          else
            data ← slice remainder 0 (length - 2);
            '(options, sack_index) ← parse_option kind length data options sack_index;
            bytes ← slice_from bytes (length - 1);
            parse_options_loop fuel bytes options sack_index
        end
    end
  end.
Definition parse_options (bytes : list Z) : outcome WireError TcpOptions :=
  parse_options_loop (S (length bytes)) bytes default_options 0.

(** ** Segments *)
Definition parse_tcp_segment (le : bool) (ip : ParsedIpPacket) (verify_checksum : bool)
    : outcome WireError ParsedTcpSegment :=
  if negb (next_header ip =? TCP_PROTOCOL) then Err (Unsupported "not TCP") else
  if fragmented ip then Err (Unsupported "TCP requires IP reassembly") else
  if len (payload ip) <? 20 then Err Truncated else
  data_offset ← idx (payload ip) 12;
  let header_len := Z.shiftr data_offset 4 * 4 in
  if negb ((20 <=? header_len) && (header_len <=? 60)) || (len (payload ip) <? header_len)
  then Err (Malformed "TCP data offset") else
  bad ← (if verify_checksum then
           sum ← transport_checksum_sum le (source ip) (destination ip) TCP_PROTOCOL (payload ip);
           mret (negb (sum =? 0xffff))
         else mret false);
  if (bad : bool) then Err Checksum else
  bits ← idx (payload ip) 13;
  let flags := from_bits bits in
  acknowledgment ← (if contains flags ACK then
                      ack ← idx_be32 (payload ip) 8; mret (Some ack)
                    else mret None);
  option_bytes ← slice (payload ip) 20 header_len;
  options ← parse_options option_bytes;
  data ← slice_from (payload ip) header_len;
  source_port ← idx_be16 (payload ip) 0;
  destination_port ← idx_be16 (payload ip) 2;
  sequence ← idx_be32 (payload ip) 4;
  window ← idx_be16 (payload ip) 14;
  mret {| tcp_source := mkSocketAddr (source ip) source_port;
          tcp_destination := mkSocketAddr (destination ip) destination_port;
          tcp_meta := mkSegment sequence acknowledgment flags window (len data);
          tcp_options := options; tcp_payload := data |}.

(** The segment after the IP header: header fields, options, then the checksum. *)
Definition write_tcp (le : bool) (packet : list Z) (ip_header_len : Z) (source destination : SocketAddr)
    (control : SendControl) (options : list Z) (tcp_header_len : Z) : outcome WireError (list Z) :=
  packet ← write_at packet ip_header_len (to_be16 (sa_port source));
  packet ← write_at packet (ip_header_len + 2) (to_be16 (sa_port destination));
  packet ← write_at packet (ip_header_len + 4) (to_be32 (sc_sequence control));
  packet ← write_at packet (ip_header_len + 8) (to_be32 (sc_acknowledgment control));
  packet ← write_at packet (ip_header_len + 12)
             [Z.shiftl (if tcp_header_len / 4 <=? 255 then tcp_header_len / 4 else 15) 4 mod 256];
  packet ← write_at packet (ip_header_len + 13) [sc_flags control];
  packet ← write_at packet (ip_header_len + 14) (to_be16 (sc_window control));
  packet ← write_at packet (ip_header_len + 20) options;
  tcp ← slice_from packet ip_header_len;
  sum ← transport_checksum_sum le (sa_ip source) (sa_ip destination) TCP_PROTOCOL tcp;
  write_at packet (ip_header_len + 16) (to_be16 (finalize_checksum sum)).

Definition emit_tcp_segment_with_options (le : bool) (source destination : SocketAddr) (control : SendControl)
    (options payload : list Z) (hop_limit ipv4_identification : Z) : outcome WireError (list Z) :=
  if (40 <? len options) || negb (len options mod 4 =? 0)
  then Err (Malformed "TCP options must be padded to 32 bits") else
  _ ← parse_options options;
  ip_header_len ← match sa_ip source, sa_ip destination with
                  | V4 _, V4 _ => mret 20
                  | V6 _, V6 _ => mret 40
                  | _, _ => Err (Malformed "mixed address families")
                  end;
  let tcp_header_len := 20 + len options in
  tcp_len ← ok_or (checked_add tcp_header_len (len payload)) (Malformed "TCP segment too large");
  ip_len ← ok_or (checked_add ip_header_len tcp_len) (Malformed "TCP segment too large");
  tcp_len_u16 ← ok_or (try_u16 tcp_len) (Malformed "TCP segment too large");
  ip_len_u16 ← ok_or (try_u16 ip_len) (Malformed "TCP segment too large");
  let packet := zeros (ip_header_len + tcp_header_len) ++ payload in
  packet ← match sa_ip source, sa_ip destination with
           | V4 s, V4 d =>
             packet ← write_ipv4_header packet ip_len_u16 ipv4_identification hop_limit TCP_PROTOCOL s d;
             header ← slice packet 0 20;
             checksum ← header_checksum header;
             write_at packet 10 (to_be16 checksum)
           | V6 s, V6 d => write_ipv6_header packet tcp_len_u16 hop_limit TCP_PROTOCOL s d
           | _, _ => Panic
           end;
  write_tcp le packet ip_header_len source destination control options tcp_header_len.

Definition emit_tcp_segment (le : bool) (source destination : SocketAddr) (control : SendControl)
    (payload : list Z) (hop_limit ipv4_identification : Z) : outcome WireError (list Z) :=
  emit_tcp_segment_with_options le source destination control [] payload hop_limit ipv4_identification.

Definition emit_tcp_control (le : bool) (source destination : SocketAddr) (control : SendControl)
    (hop_limit ipv4_identification : Z) : outcome WireError (list Z) :=
  emit_tcp_segment le source destination control [] hop_limit ipv4_identification.

(** A SYN with MSS, window scale, SACK-permitted and timestamps, both ways. *)
Example tcp_roundtrip_syn :
  (wire ← emit_tcp_segment_with_options true (mkSocketAddr (V4 [10; 0; 0; 1]) 1000)
            (mkSocketAddr (V4 [10; 0; 0; 2]) 443) (mkControl 7 0 SYN 65535)
            [2; 4; 5; 180; 4; 2; 8; 10; 0; 0; 0; 9; 0; 0; 0; 0; 1; 3; 3; 7] [] 64 42;
   ip ← parse_ip_packet true wire true;
   tcp ← parse_tcp_segment true ip true; mret (tcp_meta tcp, tcp_options tcp))
  = Ok (mkSegment 7 None SYN 65535 0,
        mkTcpOptions (Some 1460) (Some 7) false true [None; None; None; None] (Some (9, 0))).
Proof. vm_compute. reflexivity. Qed.

(** ** The parser never panics *)

Definition sack_block_ok (b : option SackBlock) : Prop :=
  match b with
  | Some b => is_u32 (left b) /\ is_u32 (right b) /\ after (right b) (left b) = true
  | None => True
  end.

(** What the options of a parsed segment guarantee. *)
Record options_ok (o : TcpOptions) : Prop := {
  oo_mss : match maximum_segment_size o with Some v => is_u16 v | None => True end;
  oo_scale : match window_scale o with Some v => 0 <= v <= 14 | None => True end;
  oo_len : length (sack_blocks o) = 4%nat;
  oo_sack : Forall sack_block_ok (sack_blocks o);
  oo_timestamps : match timestamps o with Some (a, b) => is_u32 a /\ is_u32 b | None => True end
}.

Lemma default_options_ok : options_ok default_options.
Proof. split; try done. repeat constructor. Qed.

Lemma set_sack_block_ok i b o : options_ok o -> sack_block_ok (Some b) -> options_ok (set_sack_block i b o).
Proof.
  intros [] H. split; simpl; try done.
  - by rewrite length_insert.
  - by apply Forall_insert.
Qed.

Definition options_state_ok (r : TcpOptions * nat) : Prop := options_ok r.1 /\ (r.2 <= 4)%nat.

Lemma parse_sack_blocks_runs n : forall data options i,
  (length data <= n)%nat -> bytes_ok data -> options_ok options -> (i <= 4)%nat ->
  runs (parse_sack_blocks data options i) options_state_ok.
Proof.
  induction n as [n IH] using lt_wf_ind. intros data options i Hn Hb Ho Hi.
  destruct data as [|a [|b [|c [|d [|e [|f [|g [|h rest]]]]]]]]; try (by split).
  cbn [parse_sack_blocks]. rewrite (oo_len _ Ho). destruct (Nat.eqb_spec i 4); [exact I|].
  repeat (apply bytes_ok_cons in Hb; destruct Hb as [? Hb]).
  destruct (after _ _) eqn:Ea; simpl; [|exact I].
  simpl in Hn. apply (IH (length rest)); [lia|lia|done| |lia].
  apply set_sack_block_ok; [done|]. simpl. split; [by apply be32_range|]. split; [by apply be32_range|done].
Qed.

Lemma parse_option_runs kind length data options i :
  bytes_ok data -> len data = length - 2 -> options_ok options -> (i <= 4)%nat ->
  runs (parse_option kind length data options i) options_state_ok.
Proof.
  intros Hb Hl Ho Hi. unfold parse_option. pose proof Ho as [].
  runs_step. { runs_step; [exact I|]. repeat runs_step. by split; [split|]. }
  runs_step. { runs_step; [exact I|]. repeat runs_step. split; [split; simpl; try done; width|done]. }
  runs_step. { by split; [split|]. }
  runs_step. { by eapply parse_sack_blocks_runs. }
  runs_step. { runs_step; [exact I|]. repeat runs_step. by split; [split|]. }
  runs_step; [exact I|]. by split.
Qed.

Lemma parse_options_loop_runs fuel : forall bytes options i,
  (length bytes < fuel)%nat -> bytes_ok bytes -> options_ok options -> (i <= 4)%nat ->
  runs (parse_options_loop fuel bytes options i) options_ok.
Proof.
  induction fuel as [|fuel IH]; intros bytes options i Hf Hb Ho Hi; [lia|].
  cbn [parse_options_loop]. destruct bytes as [|kind bytes]; [done|]. simpl in Hf.
  apply bytes_ok_cons in Hb as [Hk Hb].
  runs_step; [runs_step; [exact I|done]|]. runs_step; [apply IH; [lia|done..]|].
  destruct bytes as [|length remainder]; [exact I|]. runs_step; [exact I|].
  assert (len (length :: remainder) = 1 + len remainder) as Hlen by apply len_cons.
  assert (bytes_ok remainder) as Hrem by (by apply bytes_ok_cons in Hb as [_ ?]).
  runs_step. apply runs_slice_bytes; [done|lia|lia|]. intros data Hdata Hd Hdl.
  runs_step. apply (runs_mono _ options_state_ok); [apply parse_option_runs; try done; lia|].
  intros [options' i'] [Ho' Hi']. runs_step. unfold slice_from.
  apply runs_slice_bytes; [done|lia|lia|]. intros rest Hrest Hr Hrl.
  apply IH; [|done..]. unfold len in *. simpl in *. lia.
Qed.

Lemma parse_options_runs bytes : bytes_ok bytes -> runs (parse_options bytes) options_ok.
Proof. intros H. apply parse_options_loop_runs; [lia|done|apply default_options_ok|lia]. Qed.

(** What a parsed segment guarantees the connection table. *)
Record tcp_parsed_ok (ip : ParsedIpPacket) (tcp : ParsedTcpSegment) : Prop := {
  tp_source : sa_ip (tcp_source tcp) = source ip /\ is_u16 (sa_port (tcp_source tcp));
  tp_destination : sa_ip (tcp_destination tcp) = destination ip /\ is_u16 (sa_port (tcp_destination tcp));
  tp_sequence : is_seq (sequence (tcp_meta tcp));
  tp_ack : match acknowledgment (tcp_meta tcp) with
           | Some a => is_seq a /\ contains (flags (tcp_meta tcp)) ACK = true
           | None => contains (flags (tcp_meta tcp)) ACK = false
           end;
  tp_flags : 0 <= flags (tcp_meta tcp) <= 31;
  tp_window : is_u16 (window (tcp_meta tcp));
  tp_options : options_ok (tcp_options tcp);
  tp_payload : exists n, 20 <= n <= 60 /\ n <= len (payload ip) /\
    tcp_payload tcp = sub (payload ip) n (len (payload ip)) /\ payload_len (tcp_meta tcp) = len (tcp_payload tcp)
}.

Lemma from_bits_range b : 0 <= from_bits b <= 31.
Proof. unfold from_bits. apply (land_field b 5 31); [lia|done|lia]. Qed.

Lemma parse_tcp_segment_runs le packet verify verify' ip :
  bytes_ok packet -> parse_ip_packet le packet verify = Ok ip ->
  runs (parse_tcp_segment le ip verify') (tcp_parsed_ok ip).
Proof.
  intros H Hip. pose proof (runs_ok _ _ _ (parse_ip_packet_runs le packet verify H) Hip) as Hok.
  destruct (po_payload _ _ Hok) as (a & b & Ha & Hb & Hb' & Hpl).
  assert (bytes_ok (payload ip)) as Hpok by (rewrite Hpl; auto with bytes).
  assert (len (payload ip) <= 65555) as Hplen by (rewrite Hpl, len_sub; lia).
  unfold parse_tcp_segment. runs_step; [exact I|]. runs_step; [exact I|]. runs_step; [exact I|].
  runs_step. runs_step. runs_step; [exact I|]. runs_step. apply (runs_mono _ (fun _ => True)).
  { runs_step; [|done]. runs_step.
    rewrite transport_checksum_ones; [done|apply Hok|apply Hok| |done|done|lia].
    pose proof (po_family _ _ Hok) as Hf. destruct (version ip), (source ip), (destination ip); done. }
  intros bad _. runs_step; [exact I|]. runs_step. runs_step. runs_step.
  set (fl := from_bits _). apply (runs_mono _ (fun o => match o with
    | Some a => is_seq a /\ contains fl ACK = true | None => contains fl ACK = false end)).
  { runs_step; [|done]. runs_step. runs_step. runs_step. split; [|done]. unfold is_seq. width. }
  intros ack Hack. runs_step. runs_step. runs_step.
  eapply runs_mono; [by apply parse_options_runs|]. intros options Hopt. repeat runs_step.
  split; simpl; try done.
  - unfold is_seq. width.
  - apply from_bits_range.
  - eexists. split; [|split; [|split; [eassumption|done]]]; lia.
Qed.

(** ** The round trip *)
Definition tcp_header (sp dp seq ack off flags win : Z) (ck options : list Z) : list Z :=
  to_be16 sp ++ to_be16 dp ++ to_be32 seq ++ to_be32 ack ++ [off; flags] ++ to_be16 win ++ ck ++ [0; 0] ++ options.

Definition control_header (source destination : SocketAddr) (control : SendControl) (ck options : list Z) : list Z :=
  tcp_header (sa_port source) (sa_port destination) (sc_sequence control) (sc_acknowledgment control)
    (16 * ((20 + len options) / 4)) (sc_flags control) (sc_window control) ck options.

Lemma tcp_header_len sp dp seq ack off flags win ck options :
  len ck = 2 -> len (tcp_header sp dp seq ack off flags win ck options) = 20 + len options.
Proof. intros. unfold tcp_header. autorewrite with lens. lia. Qed.

Lemma bytes_ok_tcp_header sp dp seq ack off flags win ck options :
  is_u16 sp -> is_u16 dp -> is_u32 seq -> is_u32 ack -> is_u8 off -> is_u8 flags -> is_u16 win ->
  bytes_ok ck -> bytes_ok options -> bytes_ok (tcp_header sp dp seq ack off flags win ck options).
Proof.
  intros. unfold tcp_header. rewrite !bytes_ok_app, !bytes_ok_cons.
  repeat split; auto using bytes_ok_nil with bytes; width.
Qed.

Lemma word_sum_tcp_header sp dp seq ack off flags win ck options data :
  word_sum (tcp_header sp dp seq ack off flags win (to_be16 ck) options ++ data)
  = word_sum (tcp_header sp dp seq ack off flags win [0; 0] options ++ data) + ck.
Proof.
  unfold tcp_header. rewrite <- !(assoc_L (++)).
  exact (word_sum_patch (to_be16 sp ++ to_be16 dp ++ to_be32 seq ++ to_be32 ack ++ [off; flags] ++ to_be16 win)
    ([0; 0] ++ options ++ data) ck eq_refl).
Qed.

(** A 32-bit field read back from a list known by the equation [H]. *)
Ltac be32_field x H :=
  rewrite H;
  transitivity (Ok (E := WireError) (be32 (x / 16777216) (x / 65536 mod 256) (x / 256 mod 256) (x mod 256)));
  [reflexivity | by rewrite be32_to_be32].

(** One write of [write_tcp]: [pre] is written, [x] is overwritten by [y]. *)
Ltac tcp_write pre x y post :=
  rewrite (write_at_parts _ pre x y post);
  [cbn [mbind outcome_bind]
  |rewrite <- ?(assoc_L (++)); reflexivity
  |first [reflexivity | assumption]
  |autorewrite with lens; lia].

Definition data_offset_byte (options : list Z) : Z := 16 * ((20 + len options) / 4).

Lemma data_offset_byte_ok options :
  len options <= 40 -> len options mod 4 = 0 ->
  Z.shiftl (if (20 + len options) / 4 <=? 255 then (20 + len options) / 4 else 15) 4 mod 256
    = data_offset_byte options /\
  is_u8 (data_offset_byte options) /\ Z.shiftr (data_offset_byte options) 4 * 4 = 20 + len options.
Proof.
  intros H Hm. pose proof (len_nonneg options). unfold data_offset_byte.
  rewrite Z.shiftr_div_pow2, Z.shiftl_mul_pow2 by lia. change (2 ^ 4) with 16.
  assert (0 <= (20 + len options) / 4 <= 15 /\ (20 + len options) / 4 * 4 = 20 + len options)
    by (Z.to_euclidean_division_equations; lia).
  replace ((20 + len options) / 4 <=? 255) with true by lia.
  unfold is_u8. rewrite Z.mod_small by lia. rewrite (Z.mul_comm 16), Z.div_mul by lia. lia.
Qed.

Definition tcp_checksum (source destination : SocketAddr) (control : SendControl) (options data : list Z) : Z :=
  finalize_checksum (ones (pseudo_sum (sa_ip source) (sa_ip destination) TCP_PROTOCOL (20 + len options + len data)
    + word_sum (control_header source destination control [0; 0] options ++ data))).

Record control_ok (c : SendControl) : Prop := {
  ctl_seq : is_u32 (sc_sequence c);
  ctl_ack : is_u32 (sc_acknowledgment c);
  ctl_flags : 0 <= sc_flags c <= 31;
  ctl_window : is_u16 (sc_window c)
}.

Section Emission.
Context (source destination : SocketAddr) (control : SendControl) (options data : list Z).
Context (Hs : ip_wf (sa_ip source)) (Hd : ip_wf (sa_ip destination)).
Context (Hf : same_family (sa_ip source) (sa_ip destination)).
Context (Hsp : is_u16 (sa_port source)) (Hdp : is_u16 (sa_port destination)) (Hc : control_ok control).
Context (Ho : bytes_ok options) (Hdata : bytes_ok data).
Context (Hol : len options <= 40) (Hom : len options mod 4 = 0).
Context (Hn : is_u16 (20 + len options + len data)).

Lemma control_header_ok ck : bytes_ok ck -> bytes_ok (control_header source destination control ck options).
Proof.
  intros H. destruct Hc. destruct (data_offset_byte_ok options Hol Hom) as (_ & ? & _).
  apply bytes_ok_tcp_header; try done. width.
Qed.

Lemma tcp_sum_nonneg :
  0 <= pseudo_sum (sa_ip source) (sa_ip destination) TCP_PROTOCOL (20 + len options + len data)
    + word_sum (control_header source destination control [0; 0] options ++ data).
Proof.
  destruct (ip_wf_octets _ Hs) as [H1 _]. destruct (ip_wf_octets _ Hd) as [H2 _].
  pose proof (word_sum_nonneg _ H1). pose proof (word_sum_nonneg _ H2).
  assert (bytes_ok (control_header source destination control [0; 0] options ++ data)) as Hb.
  { apply bytes_ok_app. split; [|done]. apply control_header_ok. repeat constructor; done. }
  pose proof (word_sum_nonneg _ Hb). unfold pseudo_sum, TCP_PROTOCOL. unfold is_u16 in Hn. lia.
Qed.

Lemma tcp_checksum_range : is_u16 (tcp_checksum source destination control options data).
Proof. pose proof (ones_range _ tcp_sum_nonneg). unfold tcp_checksum, finalize_checksum. width. Qed.

Lemma write_tcp_value le h :
  write_tcp le (h ++ zeros (20 + len options) ++ data) (len h) source destination control options (20 + len options)
  = Ok (h ++ control_header source destination control
               (to_be16 (tcp_checksum source destination control options data)) options ++ data).
Proof.
  unfold write_tcp. rewrite (proj1 (data_offset_byte_ok options Hol Hom)).
  set (sp := sa_port source). set (dp := sa_port destination). set (off := data_offset_byte options).
  pose proof (len_nonneg options) as Hlo. pose proof (len_nonneg data) as Hld.
  rewrite zeros_app by lia.
  change (zeros 20) with ([0;0] ++ [0;0] ++ [0;0;0;0] ++ [0;0;0;0] ++ [0] ++ [0] ++ [0;0] ++ [0;0] ++ [0;0]).
  set (z := zeros (len options)). assert (len z = len options) by (apply len_zeros; lia).
  tcp_write h [0;0] (to_be16 sp) ([0;0] ++ [0;0;0;0] ++ [0;0;0;0] ++ [0] ++ [0] ++ [0;0] ++ [0;0] ++ [0;0] ++ z ++ data).
  tcp_write (h ++ to_be16 sp) [0;0] (to_be16 dp)
    ([0;0;0;0] ++ [0;0;0;0] ++ [0] ++ [0] ++ [0;0] ++ [0;0] ++ [0;0] ++ z ++ data).
  tcp_write (h ++ to_be16 sp ++ to_be16 dp) [0;0;0;0] (to_be32 (sc_sequence control))
    ([0;0;0;0] ++ [0] ++ [0] ++ [0;0] ++ [0;0] ++ [0;0] ++ z ++ data).
  tcp_write (h ++ to_be16 sp ++ to_be16 dp ++ to_be32 (sc_sequence control)) [0;0;0;0]
    (to_be32 (sc_acknowledgment control)) ([0] ++ [0] ++ [0;0] ++ [0;0] ++ [0;0] ++ z ++ data).
  set (addr := to_be16 sp ++ to_be16 dp ++ to_be32 (sc_sequence control) ++ to_be32 (sc_acknowledgment control)).
  assert (len addr = 12) as Haddr by done.
  tcp_write (h ++ addr) [0] [off] ([0] ++ [0;0] ++ [0;0] ++ [0;0] ++ z ++ data).
  tcp_write (h ++ addr ++ [off]) [0] [sc_flags control] ([0;0] ++ [0;0] ++ [0;0] ++ z ++ data).
  tcp_write (h ++ addr ++ [off; sc_flags control]) [0;0] (to_be16 (sc_window control)) ([0;0] ++ [0;0] ++ z ++ data).
  tcp_write (h ++ addr ++ [off; sc_flags control] ++ to_be16 (sc_window control) ++ [0; 0] ++ [0; 0]) z options data.
  replace ((h ++ addr ++ [off; sc_flags control] ++ to_be16 (sc_window control) ++ [0; 0] ++ [0; 0]) ++ options ++ data)
    with (h ++ control_header source destination control [0; 0] options ++ data)
    by (unfold control_header, tcp_header, addr; by rewrite <- !(assoc_L (++))).
  assert (Hlen : len (control_header source destination control [0; 0] options ++ data) = 20 + len options + len data)
    by (unfold control_header; rewrite len_app, tcp_header_len by done; lia).
  assert (Hb : bytes_ok (control_header source destination control [0; 0] options ++ data)).
  { apply bytes_ok_app. split; [|done]. apply control_header_ok. repeat constructor; done. }
  unfold slice_from. rewrite slice_Ok by (rewrite ?(len_app h); pose proof (len_nonneg h); width).
  rewrite sub_app_tail by (rewrite ?len_app; done). cbn [mbind outcome_bind].
  rewrite transport_checksum_ones by (done || width). rewrite Hlen. cbn [mbind outcome_bind].
  fold (tcp_checksum source destination control options data).
  set (ck := tcp_checksum source destination control options data).
  rewrite (write_at_parts _ (h ++ addr ++ [off; sc_flags control] ++ to_be16 (sc_window control)) [0; 0] (to_be16 ck)
    ([0; 0] ++ options ++ data)).
  - unfold control_header, tcp_header, addr. by rewrite <- !(assoc_L (++)).
  - unfold control_header, tcp_header, addr. by rewrite <- !(assoc_L (++)).
  - done.
  - autorewrite with lens. lia.
Qed.

Lemma emit_tcp_v4_value le hop id s d o :
  sa_ip source = V4 s -> sa_ip destination = V4 d -> parse_options options = Ok o ->
  20 + (20 + len options + len data) <= 65535 -> is_u8 hop -> is_u16 id ->
  let total := 20 + (20 + len options + len data) in
  let ck := finalize_checksum (ones (word_sum (ipv4_header total id hop TCP_PROTOCOL [0; 0] s d))) in
  emit_tcp_segment_with_options le source destination control options data hop id
  = Ok (ipv4_header total id hop TCP_PROTOCOL (to_be16 ck) s d ++
        control_header source destination control
          (to_be16 (tcp_checksum source destination control options data)) options ++ data).
Proof.
  intros Es Ed Hpo Hmax Hhop Hid total ck. pose proof (len_nonneg options). pose proof (len_nonneg data).
  unfold emit_tcp_segment_with_options.
  replace ((40 <? len options) || negb (len options mod 4 =? 0)) with false by lia.
  rewrite Hpo, Es, Ed. cbn [mbind outcome_bind mret outcome_ret]. unfold checked_add, try_u16.
  decide_if. cbn [ok_or mbind outcome_bind]. decide_if. cbn [ok_or mbind outcome_bind].
  decide_if. cbn [ok_or mbind outcome_bind]. decide_if. cbn [ok_or mbind outcome_bind]. fold total.
  rewrite zeros_app, <- (assoc_L (++)) by lia.
  pose proof Hs as Hs'. pose proof Hd as Hd'. rewrite Es in Hs'. rewrite Ed in Hd'.
  destruct Hs' as [Hsl Hsb], Hd' as [Hdl Hdb].
  assert (Hlen : forall c, len c = 2 -> len (ipv4_header total id hop TCP_PROTOCOL c s d) = 20)
    by (intros; apply ipv4_header_len; unfold len in *; lia).
  assert (Hok : bytes_ok (ipv4_header total id hop TCP_PROTOCOL [0; 0] s d)).
  { apply ipv4_header_ok; try done; [width|repeat constructor; done]. }
  rewrite write_ipv4_header_value by done. cbn [mbind outcome_bind].
  set (t := zeros (20 + len options) ++ data). pose proof (len_nonneg t).
  rewrite slice_Ok by (rewrite ?len_app, ?Hlen by done; lia).
  rewrite sub_app_l by (by rewrite Hlen). cbn [mbind outcome_bind].
  rewrite header_checksum_ones; [|done| |rewrite Hlen; [lia|done]].
  2:{ apply Nat.even_spec. exists 10%nat. specialize (Hlen [0; 0] eq_refl). unfold len in Hlen. lia. }
  cbn [mbind outcome_bind]. fold ck.
  rewrite (write_at_parts _ ([0x45; 0] ++ to_be16 total ++ to_be16 id ++ [0x40; 0; hop; TCP_PROTOCOL])
             [0; 0] (to_be16 ck) (s ++ d ++ t));
    [|unfold ipv4_header; by rewrite <- !(assoc_L (++))|done|done].
  cbn [mbind outcome_bind].
  replace (([0x45; 0] ++ to_be16 total ++ to_be16 id ++ [0x40; 0; hop; TCP_PROTOCOL]) ++ to_be16 ck ++ s ++ d ++ t)
    with (ipv4_header total id hop TCP_PROTOCOL (to_be16 ck) s d ++ t)
    by (unfold ipv4_header; by rewrite <- !(assoc_L (++))).
  pose proof (write_tcp_value le (ipv4_header total id hop TCP_PROTOCOL (to_be16 ck) s d)) as HW.
  rewrite Hlen in HW by done. exact HW.
Qed.

Lemma emit_tcp_v6_value le hop id s d o :
  sa_ip source = V6 s -> sa_ip destination = V6 d -> parse_options options = Ok o ->
  40 + (20 + len options + len data) <= 65535 ->
  emit_tcp_segment_with_options le source destination control options data hop id
  = Ok (ipv6_header (20 + len options + len data) hop TCP_PROTOCOL s d ++
        control_header source destination control
          (to_be16 (tcp_checksum source destination control options data)) options ++ data).
Proof.
  intros Es Ed Hpo Hmax. pose proof (len_nonneg options). pose proof (len_nonneg data).
  unfold emit_tcp_segment_with_options.
  replace ((40 <? len options) || negb (len options mod 4 =? 0)) with false by lia.
  rewrite Hpo, Es, Ed. cbn [mbind outcome_bind mret outcome_ret]. unfold checked_add, try_u16.
  decide_if. cbn [ok_or mbind outcome_bind]. decide_if. cbn [ok_or mbind outcome_bind].
  decide_if. cbn [ok_or mbind outcome_bind]. decide_if. cbn [ok_or mbind outcome_bind].
  rewrite zeros_app, <- (assoc_L (++)) by lia.
  pose proof Hs as Hs'. pose proof Hd as Hd'. rewrite Es in Hs'. rewrite Ed in Hd'.
  destruct Hs' as [Hsl Hsb], Hd' as [Hdl Hdb].
  rewrite write_ipv6_header_value by done. cbn [mbind outcome_bind].
  pose proof (write_tcp_value le (ipv6_header (20 + len options + len data) hop TCP_PROTOCOL s d)) as HW.
  rewrite ipv6_header_len in HW by (unfold len; lia). exact HW.
Qed.

Lemma tcp_fixed_part a b c d e f g (rest : list Z) :
  to_be16 a ++ to_be16 b ++ to_be32 c ++ to_be32 d ++ [e; f] ++ to_be16 g ++
    to_be16 (tcp_checksum source destination control options data) ++ [0; 0] ++ rest =
  (to_be16 a ++ to_be16 b ++ to_be32 c ++ to_be32 d ++ [e; f] ++ to_be16 g ++
    to_be16 (tcp_checksum source destination control options data) ++ [0; 0]) ++ rest.
Proof. by rewrite <- !(assoc_L (++)). Qed.

Lemma from_bits_id b : 0 <= b <= 31 -> from_bits b = b.
Proof. intros H. unfold from_bits. change 0x1f with (Z.ones 5). rewrite Z.land_ones by lia. apply Z.mod_small. lia. Qed.

(** What the emitted segment gives the receiver. *)
Lemma parse_emitted_tcp le ip o :
  next_header ip = TCP_PROTOCOL -> fragment ip = None ->
  IpWire.source ip = sa_ip source -> IpWire.destination ip = sa_ip destination ->
  parse_options options = Ok o ->
  payload ip = control_header source destination control
    (to_be16 (tcp_checksum source destination control options data)) options ++ data ->
  parse_tcp_segment le ip true
  = Ok {| tcp_source := bare source; tcp_destination := bare destination;
          tcp_meta := mkSegment (sc_sequence control)
            (if contains (sc_flags control) ACK then Some (sc_acknowledgment control) else None)
            (sc_flags control) (sc_window control) (len data);
          tcp_options := o; tcp_payload := data |}.
Proof.
  intros Hnh Hfr Es Ed Hpo Hpl. pose proof (len_nonneg options). pose proof (len_nonneg data).
  set (ck := tcp_checksum source destination control options data) in *.
  destruct (data_offset_byte_ok options Hol Hom) as (_ & Hoff & Hhl). pose proof tcp_checksum_range as Hck. fold ck in Hck.
  assert (Hok : bytes_ok (payload ip)).
  { rewrite Hpl. apply bytes_ok_app. split; [|done]. apply control_header_ok. by apply to_be16_ok. }
  assert (Hlen : len (payload ip) = 20 + len options + len data)
    by (rewrite Hpl; unfold control_header; rewrite len_app, tcp_header_len by done; lia).
  assert (I0 : idx_be16 (E := WireError) (payload ip) 0 = Ok (sa_port source)) by be16_field (sa_port source) Hpl.
  assert (I2 : idx_be16 (E := WireError) (payload ip) 2 = Ok (sa_port destination))
    by be16_field (sa_port destination) Hpl.
  assert (I4 : idx_be32 (E := WireError) (payload ip) 4 = Ok (sc_sequence control))
    by be32_field (sc_sequence control) Hpl.
  assert (I8 : idx_be32 (E := WireError) (payload ip) 8 = Ok (sc_acknowledgment control))
    by be32_field (sc_acknowledgment control) Hpl.
  assert (I12 : idx (E := WireError) (payload ip) 12 = Ok (data_offset_byte options)) by (rewrite Hpl; reflexivity).
  assert (I13 : idx (E := WireError) (payload ip) 13 = Ok (sc_flags control)) by (rewrite Hpl; reflexivity).
  assert (I14 : idx_be16 (E := WireError) (payload ip) 14 = Ok (sc_window control))
    by be16_field (sc_window control) Hpl.
  assert (Sopt : sub (payload ip) 20 (20 + len options) = options).
  { rewrite Hpl. unfold control_header, tcp_header. rewrite <- !(assoc_L (++)).
    rewrite (tcp_fixed_part _ _ _ _ _ _ _ (options ++ data)).
    rewrite sub_app_r by (autorewrite with lens; lia). rewrite sub_app_l; [done|]. autorewrite with lens. lia. }
  assert (Sdata : sub (payload ip) (20 + len options) (len (payload ip)) = data).
  { rewrite Hlen, Hpl. apply sub_app_tail; unfold control_header; rewrite tcp_header_len by done; lia. }
  unfold parse_tcp_segment, fragmented. rewrite Hnh, Hfr. cbn [negb Z.eqb TCP_PROTOCOL Pos.eqb].
  decide_if. rewrite I12. cbn [mbind outcome_bind]. rewrite Hhl.
  replace (negb ((20 <=? 20 + len options) && (20 + len options <=? 60)) || (len (payload ip) <? 20 + len options))
    with false by lia.
  assert (ones (pseudo_sum (sa_ip source) (sa_ip destination) TCP_PROTOCOL (len (payload ip)) + word_sum (payload ip))
    = 65535) as Hsum.
  { rewrite Hlen, Hpl. unfold control_header. rewrite word_sum_tcp_header, Z.add_assoc.
    apply ones_finalize, tcp_sum_nonneg. }
  rewrite Es, Ed, transport_checksum_ones, Hsum by (done || width).
  cbn [mbind outcome_bind mret outcome_ret]. change (negb (65535 =? 65535)) with false. cbn iota.
  rewrite I13. cbn [mbind outcome_bind]. rewrite from_bits_id by apply Hc.
  rewrite slice_Ok by lia. rewrite Sopt. unfold slice_from. rewrite slice_Ok, Sdata by lia.
  rewrite I0, I2, I4, I8, I14.
  destruct (contains (sc_flags control) ACK); cbn [mbind outcome_bind mret outcome_ret];
    rewrite Hpo; cbn [mbind outcome_bind]; by destruct source, destination.
Qed.
End Emission.

(** ** Properties *)

(** C15: Parsing a TCP segment out of any packet [parse_ip_packet] returned never
    panics and its option loop ends.  A segment it returns is what the
    connection machinery relies on: ports, sequence and window in range, an
    acknowledgment exactly with the ACK flag, a window scale of at most 14, SACK
    blocks that do not run backwards, and the data after the header. *)
Theorem parse_tcp_segment_total (le : bool) (packet : list Z) (verify verify' : bool) (ip : ParsedIpPacket) :
  bytes_ok packet -> parse_ip_packet le packet verify = Ok ip ->
  runs (parse_tcp_segment le ip verify') (tcp_parsed_ok ip).
Proof. apply parse_tcp_segment_runs. Qed.

(** A SYN with one option, as emitted. *)
Definition sample_syn : list Z :=
  [69; 0; 0; 44; 0; 42; 64; 0; 64; 6; 38; 160; 10; 0; 0; 1; 10; 0; 0; 2;
   3; 232; 1; 187; 0; 0; 0; 7; 0; 0; 0; 0; 96; 2; 255; 255; 126; 122; 0; 0; 2; 4; 5; 180].

Lemma parse_tcp_segment_total_witness :
  exists ip, parse_ip_packet true sample_syn true = Ok ip /\
    runs (parse_tcp_segment true ip true) (tcp_parsed_ok ip) /\
    exists tcp, parse_tcp_segment true ip true = Ok tcp.
Proof.
  eexists. split; [vm_compute; reflexivity|]. split; [|eexists; vm_compute; reflexivity].
  eapply (parse_tcp_segment_total true sample_syn true true).
  - repeat constructor; discriminate.
  - vm_compute. reflexivity.
Defined.

(** C14: The TCP round trip.  For any two addresses of one family, ports, control
    fields, padded options the parser accepts and payload that fits the
    family's packet, [emit_tcp_segment_with_options] succeeds, and what it emits
    parses back, with every checksum verified and on a machine of either byte
    order, to the same addresses and ports, sequence and acknowledgment numbers, flags,
    window, options and data. *)
Theorem tcp_emit_parse_roundtrip (le le' : bool) (src dst : SocketAddr) (control : SendControl)
    (options data : list Z) (o : TcpOptions) (hop id : Z) :
  ip_wf (sa_ip src) -> ip_wf (sa_ip dst) -> same_family (sa_ip src) (sa_ip dst) ->
  is_u16 (sa_port src) -> is_u16 (sa_port dst) -> control_ok control -> is_u8 hop -> is_u16 id ->
  bytes_ok options -> bytes_ok data -> len options <= 40 -> len options mod 4 = 0 ->
  parse_options options = Ok o ->
  (match sa_ip src with V4 _ => 20 | V6 _ => 40 end) + (20 + len options + len data) <= 65535 ->
  exists wire ip,
    emit_tcp_segment_with_options le src dst control options data hop id = Ok wire /\
    parse_ip_packet le' wire true = Ok ip /\ hop_limit ip = hop /\ fragment ip = None /\
    parse_tcp_segment le' ip true
    = Ok {| tcp_source := bare src; tcp_destination := bare dst;
            tcp_meta := mkSegment (sc_sequence control)
              (if contains (sc_flags control) ACK then Some (sc_acknowledgment control) else None)
              (sc_flags control) (sc_window control) (len data);
            tcp_options := o; tcp_payload := data |}.
Proof.
  intros Hs Hd Hf Hsp Hdp Hc Hhop Hid Ho Hdata Hol Hom Hpo Hmax.
  pose proof (len_nonneg options). pose proof (len_nonneg data).
  assert (is_u16 (20 + len options + len data)) as Hn by (destruct (sa_ip src); unfold is_u16; lia).
  assert (len (control_header src dst control (to_be16 (tcp_checksum src dst control options data)) options ++ data)
    = 20 + len options + len data) as Hlen
    by (unfold control_header; rewrite len_app, tcp_header_len by done; lia).
  destruct (sa_ip src) as [s|s] eqn:Es, (sa_ip dst) as [d|d] eqn:Ed; try done.
  - destruct (Hs) as [Hsl Hsb]. destruct (Hd) as [Hdl Hdb]. eexists _, _.
    split; [eapply emit_tcp_v4_value; rewrite ?Es, ?Ed; try done|].
    set (total := 20 + (20 + len options + len data)).
    assert (Hok : bytes_ok (ipv4_header total id hop TCP_PROTOCOL [0; 0] s d))
      by (apply ipv4_header_ok; try done; [unfold total, is_u16; lia|repeat constructor; done]).
    split; [apply parse_emitted_ipv4; try done|].
    + rewrite Hlen. done.
    + unfold total, is_u16. lia.
    + pose proof (ones_range _ (word_sum_nonneg _ Hok)). unfold finalize_checksum, is_u16 in *. lia.
    + by apply ipv4_header_verifies.
    + do 2 (split; [done|]). apply (parse_emitted_tcp src dst control options data); rewrite ?Es, ?Ed; try done.
  - destruct (Hs) as [Hsl Hsb]. destruct (Hd) as [Hdl Hdb]. eexists _, _.
    split; [eapply emit_tcp_v6_value; rewrite ?Es, ?Ed; try done|].
    split; [apply parse_emitted_ipv6; try done; by rewrite Hlen|].
    do 2 (split; [done|]). apply (parse_emitted_tcp src dst control options data); rewrite ?Es, ?Ed; try done.
Qed.

Lemma tcp_emit_parse_roundtrip_witness :
  exists wire ip,
    emit_tcp_segment_with_options true (mkSocketAddr (V4 [10; 0; 0; 1]) 1000) (mkSocketAddr (V4 [10; 0; 0; 2]) 443)
      (mkControl 7 9 ACK 1000) [1; 1; 1; 1] [5; 6] 64 42 = Ok wire /\
    parse_ip_packet false wire true = Ok ip /\ hop_limit ip = 64 /\ fragment ip = None /\
    parse_tcp_segment false ip true
    = Ok {| tcp_source := mkSocketAddr (V4 [10; 0; 0; 1]) 1000;
            tcp_destination := mkSocketAddr (V4 [10; 0; 0; 2]) 443;
            tcp_meta := mkSegment 7 (Some 9) ACK 1000 2; tcp_options := default_options;
            tcp_payload := [5; 6] |}.
Proof.
  apply (tcp_emit_parse_roundtrip true false (mkSocketAddr (V4 [10; 0; 0; 1]) 1000)
           (mkSocketAddr (V4 [10; 0; 0; 2]) 443) (mkControl 7 9 ACK 1000) [1; 1; 1; 1] [5; 6] default_options 64 42);
    try (split; [reflexivity|repeat constructor; discriminate]);
    try (split; discriminate); try exact I; try (repeat constructor; discriminate); try discriminate; reflexivity.
Defined.
