(* ===== verification/StateMonad.v ===== *)
(** A state and error monad for the tables of [sail-netstack]: a method that
    borrows its table mutably and returns a [Result] is a function from the
    state to the state it leaves behind and the outcome, so that what an early
    return leaves is visible.  [wp] is its weakest precondition. *)
From S2P Require Import Prelude.

Definition sm (S E A : Type) : Type := S -> S * outcome E A.

#[export] Instance sm_ret {S E} : MRet (sm S E) := fun A a s => (s, Ok a).
#[export] Instance sm_bind {S E} : MBind (sm S E) := fun A B f m s =>
  match m s with
  | (s', Ok a) => f a s'
  | (s', Err e) => (s', Err e)
  | (s', Panic) => (s', Panic)
  | (s', OutOfFuel) => (s', OutOfFuel)
  end.

Section Operations.
Context {S E : Type}.

Definition get_state : sm S E S := fun s => (s, Ok s).
Definition modify (f : S -> S) : sm S E unit := fun s => (f s, Ok tt).
Definition throw {A} (e : E) : sm S E A := fun s => (s, Err e).
Definition lift {A} (m : outcome E A) : sm S E A := fun s => (s, m).

(** A call on a part of the state, its errors converted ([From] and [?]). *)
Definition on {S1 E1 A} (part : S -> S1) (update : S1 -> S -> S) (convert : E1 -> E)
    (m : S1 -> S1 * outcome E1 A) : sm S E A :=
  fun s =>
    match m (part s) with
    | (p, Ok a) => (update p s, Ok a)
    | (p, Err e) => (update p s, Err (convert e))
    | (p, Panic) => (update p s, Panic)
    | (p, OutOfFuel) => (update p s, OutOfFuel)
    end.

(** Both arms of a [match] on a result the code inspects itself. *)
Definition attempt {A} (m : sm S E A) : sm S E (A + E) :=
  fun s =>
    match m s with
    | (s', Ok a) => (s', Ok (inl a))
    | (s', Err e) => (s', Ok (inr e))
    | (s', Panic) => (s', Panic)
    | (s', OutOfFuel) => (s', OutOfFuel)
    end.
End Operations.

(** ** Reasoning: [Q] after a value, [X] after an error, never a panic *)
Section Logic.
Context {S E : Type}.
Implicit Types (s : S).

Definition wp {A} (m : sm S E A) s (Q : A -> S -> Prop) (X : E -> S -> Prop) : Prop :=
  match m s with
  | (s', Ok a) => Q a s'
  | (s', Err e) => X e s'
  | _ => False
  end.

Lemma wp_mono {A} (m : sm S E A) s (Q Q' : A -> S -> Prop) (X X' : E -> S -> Prop) :
  wp m s Q X -> (forall a s', Q a s' -> Q' a s') -> (forall e s', X e s' -> X' e s') -> wp m s Q' X'.
Proof. unfold wp. destruct (m s) as [s' [a|e| |]]; auto. Qed.

Lemma wp_ret {A} (a : A) s Q X : Q a s -> wp (mret a) s Q X.
Proof. done. Qed.

Lemma wp_bind {A B} (m : sm S E A) (f : A -> sm S E B) s Q X :
  wp m s (fun a s' => wp (f a) s' Q X) X -> wp (x ← m; f x) s Q X.
Proof. unfold wp at 1. unfold wp, mbind, sm_bind. destruct (m s) as [s' [a|e| |]]; auto. Qed.

Lemma wp_assoc {A B C} (m : sm S E A) (f : A -> sm S E B) (g : B -> sm S E C) s Q X :
  wp (y ← (x ← m; f x); g y) s Q X -> wp (x ← m; y ← f x; g y) s Q X.
Proof. unfold wp, mbind, sm_bind. by destruct (m s) as [s' [a|e| |]]. Qed.

Lemma wp_get s (Q : S -> S -> Prop) X : Q s s -> wp get_state s Q X.
Proof. done. Qed.

Lemma wp_modify f s (Q : unit -> S -> Prop) X : Q tt (f s) -> wp (modify f) s Q X.
Proof. done. Qed.

Lemma wp_throw {A} (e : E) s (Q : A -> S -> Prop) (X : E -> S -> Prop) : X e s -> wp (throw e) s Q X.
Proof. done. Qed.

Lemma wp_if {A} (b : bool) (m n : sm S E A) s Q X :
  (b = true -> wp m s Q X) -> (b = false -> wp n s Q X) -> wp (if b then m else n) s Q X.
Proof. destruct b; auto. Qed.

Lemma wp_lift {A} (m : outcome E A) s (Q : A -> S -> Prop) (X : E -> S -> Prop) :
  match m with Ok a => Q a s | Err e => X e s | _ => False end -> wp (lift m) s Q X.
Proof. unfold wp, lift. by destruct m. Qed.

Lemma wp_on {S1 E1 A} (part : S -> S1) (update : S1 -> S -> S) (convert : E1 -> E)
    (m : S1 -> S1 * outcome E1 A) s (Q : A -> S -> Prop) (X : E -> S -> Prop) :
  match m (part s) with
  | (p, Ok a) => Q a (update p s)
  | (p, Err e) => X (convert e) (update p s)
  | _ => False
  end -> wp (on part update convert m) s Q X.
Proof. unfold wp, on. by destruct (m (part s)) as [p [a|e| |]]. Qed.

Lemma wp_attempt {A} (m : sm S E A) s (Q : A + E -> S -> Prop) X :
  wp m s (fun a s' => Q (inl a) s') (fun e s' => Q (inr e) s') -> wp (attempt m) s Q X.
Proof. unfold wp, attempt. by destruct (m s) as [s' [a|e| |]]. Qed.
End Logic.

(** One step of a [wp] proof, by the shape of the program. *)
Ltac wp_step :=
  lazymatch goal with
  | |- wp (_ ≫= _) _ _ _ => apply wp_bind
  | |- wp (mret _) _ _ _ => apply wp_ret
  | |- wp get_state _ _ _ => apply wp_get
  | |- wp (modify _) _ _ _ => apply wp_modify
  | |- wp (throw _) _ _ _ => apply wp_throw
  | |- wp (lift _) _ _ _ => apply wp_lift
  | |- wp (attempt _) _ _ _ => apply wp_attempt
  | |- wp (if ?b then _ else _) _ _ _ => apply wp_if; intros
  end.

(** The state after a run, from its result. *)
Lemma pair_result {A B} (p : A * B) r : p.2 = r -> p = (p.1, r).
Proof. by destruct p as [a b0]; intros <-. Qed.
