(* ===== verification/TimerInterface.v ===== *)
(** What the tables that expire their entries rely on in [TimerWheel]
    ([sail-netstack/src/timer.rs]): the operations they call, and their effect on
    a table of pending deadlines.  The wheel is the instance. *)
From S2P Require Import Prelude Timer TimerRefine.
From stdpp Require Import list gmap.
#[local] Open Scope Z_scope.

Class TimerQueue (T W : Type) := {
  tq_new : Z -> Z -> outcome TimerError W;
  tq_schedule : Z -> T -> W -> W * outcome TimerError TimerId;
  tq_cancel : TimerId -> W -> W * option T;
  tq_advance : Z -> W -> W * outcome TimerError (list T);
  tq_next_deadline : W -> option Z;
  tq_ok : W -> Prop;
  tq_pending : W -> gmap TimerId (Z * T);
  tq_tick_ms : W -> Z;
  tq_current : W -> Z;
  (** Ids handed out so far. *)
  tq_ids : W -> Z
}.

(** The laws; [w'] is always the queue after the call. *)
Class TimerQueueLaws (T W : Type) `{TimerQueue T W} := {
  tq_new_law tick now :
    1 <= tick <= u64_max -> is_u64 now ->
    exists w, tq_new tick now = Ok w /\ tq_ok w /\ tq_pending w = ∅ /\ tq_tick_ms w = tick /\
      tq_current w = now / tick /\ tq_ids w = 0;
  tq_schedule_law deadline (v : T) (w : W) :
    tq_ok w -> is_u64 deadline -> tq_current w < u64_max -> tq_ids w < u64_max ->
    let d := Z.max (div_ceil deadline (tq_tick_ms w)) (tq_current w + 1) in
    d - tq_current w < 4294967296 ->
    exists w' id, tq_schedule deadline v w = (w', Ok id) /\ tq_ok w' /\
      tq_pending w !! id = None /\ tq_pending w' = <[id := (d, v)]> (tq_pending w) /\
      tq_tick_ms w' = tq_tick_ms w /\ tq_current w' = tq_current w /\ tq_ids w' = tq_ids w + 1;
  tq_cancel_law id (w : W) :
    tq_ok w ->
    exists w' r, tq_cancel id w = (w', r) /\ tq_ok w' /\ r = snd <$> tq_pending w !! id /\
      tq_pending w' = delete id (tq_pending w) /\
      tq_tick_ms w' = tq_tick_ms w /\ tq_current w' = tq_current w /\ tq_ids w' = tq_ids w;
  tq_advance_law now (w : W) :
    tq_ok w -> is_u64 now -> now < u64_max -> tq_current w * tq_tick_ms w <= now ->
    let t := now / tq_tick_ms w in
    exists w', tq_advance now w = (w', Ok (expire t (tq_pending w)).2) /\ tq_ok w' /\
      tq_pending w' = (expire t (tq_pending w)).1 /\
      tq_tick_ms w' = tq_tick_ms w /\ tq_current w' = t /\ tq_ids w' = tq_ids w;
  tq_range (w : W) : tq_ok w -> 1 <= tq_tick_ms w <= u64_max /\ 0 <= tq_current w
}.

#[export] Instance wheel_queue T : TimerQueue T (TimerWheel T) := {
  tq_new := wheel_new;
  tq_schedule := schedule;
  tq_cancel := Timer.cancel;
  tq_advance := advance_to;
  tq_next_deadline := next_deadline_ms;
  tq_ok := wheel_wf;
  tq_pending := pending;
  tq_tick_ms := tick_ms;
  tq_current := current_tick;
  tq_ids := next_id
}.

Lemma schedule_frame {T} deadline (v : T) w :
  next_id w < u64_max -> 0 <= next_id w ->
  tick_ms (schedule deadline v w).1 = tick_ms w /\ current_tick (schedule deadline v w).1 = current_tick w /\
  forall id, (schedule deadline v w).2 = Ok id -> next_id (schedule deadline v w).1 = next_id w + 1.
Proof.
  intros Hn H0. unfold schedule. destruct (_ <=? _); [done|]. destruct (bucket_for _ _) as [l s].
  cbn [insert_into set_bucket fst snd tick_ms current_tick next_id]. split; [done|]. split; [done|].
  intros _ _. apply wrap64_small. lia.
Qed.

Lemma cancel_frame {T} id (w : TimerWheel T) :
  tick_ms (Timer.cancel id w).1 = tick_ms w /\ current_tick (Timer.cancel id w).1 = current_tick w /\
  next_id (Timer.cancel id w).1 = next_id w.
Proof. unfold Timer.cancel. by destruct (entries w !! id). Qed.

#[export] Instance wheel_queue_laws T : TimerQueueLaws T (TimerWheel T).
Proof.
  split; cbn [tq_new tq_schedule tq_cancel tq_advance tq_ok tq_pending tq_tick_ms tq_current tq_ids wheel_queue].
  - intros tick now Ht Hn. exists (mkWheel tick (now / tick) 0 ∅ ∅ ∅).
    assert (wheel_new (T := T) (E := TimerError) tick now = Ok (mkWheel tick (now / tick) 0 ∅ ∅ ∅)) as E
      by (unfold wheel_new; by rewrite (proj2 (Z.ltb_lt 0 tick)) by lia).
    split; [done|]. destruct (wheel_new_wf tick now _ Ht Hn E) as [Hw Hp]. done.
  - intros deadline v w Hw Hd Hc Hi Hr. pose proof (schedule_spec deadline v w Hw Hd Hc Hi) as Hs.
    pose proof (schedule_frame deadline v w Hi (proj1 (wf_next_id _ Hw))) as (F1 & F2 & F3).
    destruct (schedule deadline v w) as [w' [id|e| |]]; [|by destruct Hs as (_ & _ & ?); unfold rounded in *; lia|done|done].
    destruct Hs as (H1 & H2 & _ & H3 & _). exists w', id. split; [done|]. split; [done|]. split; [done|].
    split; [done|]. split; [done|]. split; [done|]. by apply (F3 id).
  - intros id w Hw. pose proof (cancel_spec id w Hw) as Hs. pose proof (cancel_frame id w) as Hf.
    destruct (Timer.cancel id w) as [w' r]. exists w', r. naive_solver.
  - intros now w Hw Hn Hlt Hle. pose proof (advance_to_spec now w Hw Hn) as Hs.
    pose proof (wf_tick_ms _ Hw). assert (now_ms w <= now) as Hge by (unfold now_ms, sat_mul; lia).
    destruct (advance_to now w) as [w' r]. rewrite (proj2 (Z.ltb_ge now (now_ms w)) Hge) in Hs.
    destruct Hs as (H1 & H2 & H3 & H4 & H5).
    assert (target_tick now w = now / tick_ms w) as Ht
      by (unfold target_tick; by rewrite (proj2 (Z.eqb_neq now u64_max)) by lia).
    rewrite Ht in *. destruct (expire (now / tick_ms w) (pending w)) as [m fired]. injection H5 as E1 E2. exists w'.
    rewrite E2. done.
  - intros w Hw. split; [apply Hw|apply (wf_current _ Hw)].
Qed.
