(* ===== verification/Leases.v ===== *)
(** Accounting for the leases a table holds on the shared ledger of
    [sail-netstack/src/buffer/budget.rs]: the ledger is what the rest of the
    process holds plus the sum of the table's own leases.  The tables prove that
    every return, early ones included, leaves this true, so that no lease leaks
    and none is given back twice. *)
From S2P Require Import Prelude Budget.
From stdpp Require Import list gmap.
#[local] Open Scope Z_scope.

(** What the rest of the process holds. *)
Record holdings := mkHoldings { h_total : Z; h_used : ResourceKind -> Z }.

Record accounts (b : ResourceBudget) (rest : holdings) (l : ResourceLedger) (ls : list BudgetLease) : Prop := {
  ac_counters : counters_ok b l;
  ac_total : l_total l = h_total rest + zsum lease_total ls;
  ac_used : forall k, l_used l k = h_used rest k + zsum (lease_pool k) ls;
  ac_rest_total : 0 <= h_total rest;
  ac_rest_used : forall k, 0 <= h_used rest k;
  ac_amounts : Forall (fun x => 0 <= lease_amount x) ls
}.

Section Accounts.
Context (b : ResourceBudget) (rest : holdings) (Hb : budget_range b).
Abbreviation accounted := (accounts b rest).

Lemma zsum_perm {A} (f : A -> Z) l l' : Permutation l l' -> zsum f l = zsum f l'.
Proof. induction 1; cbn [zsum foldr] in *; unfold zsum in *; cbn [foldr]; lia. Qed.

Lemma accounts_perm l ls ls' : Permutation ls ls' -> accounted l ls -> accounted l ls'.
Proof.
  intros P [? Ht Hu ? ? Ha]. split; [done| | |done|done|by rewrite <- P].
  - by rewrite <- (zsum_perm _ _ _ P).
  - intros k. by rewrite <- (zsum_perm _ _ _ P).
Qed.

Lemma accounts_charged l l' ls : charged l l' PmtuEntries 0 -> accounted l ls -> accounted l' ls.
Proof.
  intros [Ct Cu] [[Kt Ku] Ht Hu ? ? Ha].
  assert (l_total l' = l_total l) as Et by (unfold total_if in Ct; simpl in Ct; lia).
  assert (forall k, l_used l' k = l_used l k) as Eu by (intros k; rewrite Cu; unfold pool_if; case_decide; lia).
  split; [split; [lia|intros k; by rewrite Eu]|by rewrite Et|intros k; by rewrite Eu|done..].
Qed.

(** An acquisition adds the lease, a refusal adds nothing; it never panics. *)
Lemma accounts_acquire_within r l ls :
  accounted l ls -> 0 < rq_amount r <= u64_max ->
  match try_acquire_within b r l with
  | (l', Ok lease) => fits b r l /\ lease = mkLease (rq_kind r) (rq_amount r) /\ accounted l' (lease :: ls)
  | (l', Err e) => ~ fits b r l /\ accounted l' ls
  | _ => False
  end.
Proof.
  intros H Ha. pose proof (acquire_spec b r l Hb (ac_counters _ _ _ _ H) Ha) as S.
  destruct (try_acquire_within b r l) as [l' [lease|e| |]]; [|..|done].
  - destruct S as (Hf & -> & [Ct Cu] & Hk). destruct H as [? Ht Hu ? ? HF].
    split; [done|]. split; [done|]. split; [done| | |done|done|constructor; [cbn; lia|done]].
    + rewrite zsum_cons, lease_total_mk. lia.
    + intros k. rewrite zsum_cons, lease_pool_mk, Cu, Hu. lia.
  - destruct S as (Hf & [Ct Cu] & _). split; [done|]. apply (accounts_charged l); [|done]. split.
    + rewrite Ct. unfold total_if. by repeat case_match.
    + intros k. rewrite Cu. unfold pool_if. by repeat case_decide.
  - done.
Qed.

(** What the limits can carry beside the rest. *)
Definition affords ls : Prop :=
  h_total rest + zsum lease_total ls <= total_bytes b /\ forall k, h_used rest k + zsum (lease_pool k) ls <= limit b k.

Lemma accounts_affords l ls : accounted l ls -> affords ls.
Proof. intros [[K1 K2] Ht Hu _ _ _]. split; [lia|]. intros k. rewrite <- Hu. apply K2. Qed.

Lemma affords_perm ls ls' : Permutation ls ls' -> affords ls -> affords ls'.
Proof. intros P [A1 A2]. split; [by rewrite <- (zsum_perm _ _ _ P)|]. intros k. by rewrite <- (zsum_perm _ _ _ P). Qed.

Lemma affords_tail x ls : 0 <= lease_amount x -> affords (x :: ls) -> affords ls.
Proof.
  intros Hx [A1 A2]. destruct x as [k amount]. cbn in Hx. rewrite zsum_cons, lease_total_mk in A1. split.
  - unfold total_if in A1. case_match; lia.
  - intros k'. specialize (A2 k'). rewrite zsum_cons, lease_pool_mk in A2. unfold pool_if in A2. case_decide; lia.
Qed.

Lemma affords_sub ls ls' : ls ⊆+ ls' -> Forall (fun x => 0 <= lease_amount x) ls' -> affords ls' -> affords ls.
Proof.
  intros [xs P]%submseteq_Permutation F A. rewrite Permutation_app_comm in P. rewrite P in F.
  apply (affords_perm _ _ P) in A. clear P.
  induction xs as [|x xs IH]; [done|]. apply Forall_cons in F as [Hx F]. by apply IH, (affords_tail x).
Qed.

(** A lease is refused only if the limits could not carry it. *)
Lemma accounts_acquire k amount l ls :
  accounted l ls -> 0 < amount <= u64_max ->
  match try_acquire b k amount l with
  | (l', Ok lease) => lease = mkLease k amount /\ accounted l' (lease :: ls)
  | (l', Err e) => ~ affords (mkLease k amount :: ls) /\ accounted l' ls
  | _ => False
  end.
Proof.
  intros H Ha. unfold try_acquire.
  match goal with |- context [try_acquire_within b ?r l] => pose proof (accounts_acquire_within r l ls H Ha) as S end.
  destruct (try_acquire_within _ _ _) as [l' [lease|e| |]]; [naive_solver| |done..].
  destruct S as [Nf S]. split; [|done]. intros [A1 A2]. apply Nf. destruct H as [_ Ht Hu _ _ _].
  rewrite zsum_cons, lease_total_mk in A1. specialize (A2 k). rewrite zsum_cons, lease_pool_mk in A2.
  unfold total_if, pool_if in *. rewrite decide_True in A2 by done. destruct Hb as [_ Hl]. specialize (Hl k).
  split; cbn; [intros Hk; rewrite Hk in A1; lia|]. rewrite Hu. unfold usize_max, u64_max in *. lia.
Qed.

(** Dropping a held lease gives back exactly it. *)
Lemma accounts_drop x l ls : accounted l (x :: ls) -> accounted (drop_lease x l) ls.
Proof.
  intros [K Ht Hu Rt Ru Ha]. apply Forall_cons in Ha as [H0 Ha].
  pose proof (leases_total_nonneg ls Ha) as Pt.
  assert (lease_pool (lease_kind x) x = lease_amount x) as E by (unfold lease_pool; by case_decide).
  destruct (drop_lease_spec b x l Hb K H0) as [[Ct Cu] K'].
  - rewrite Ht, zsum_cons. lia.
  - rewrite Hu, zsum_cons, E. specialize (Ru (lease_kind x)).
    pose proof (leases_pool_nonneg (lease_kind x) ls Ha). lia.
  - split; [done| | |done..].
    + rewrite Ct, Ht, zsum_cons. destruct x as [k a]. rewrite lease_total_mk. unfold total_if. cbn. case_match; lia.
    + intros k. rewrite Cu, Hu, zsum_cons. destruct x as [k' a]. rewrite lease_pool_mk. unfold pool_if. cbn.
      case_decide; lia.
Qed.

(** Dropping several leases in a row. *)
Lemma accounts_drop_all xs l ls :
  accounted l (xs ++ ls) -> accounted (foldl (fun l x => drop_lease x l) l xs) ls.
Proof. revert l. induction xs as [|x xs IH]; intros l H; [done|]. cbn. apply IH. by apply accounts_drop. Qed.
End Accounts.

(** ** The leases of the entries of a table *)
Section MapLeases.
Context `{Countable K} {E : Type} (leases : E -> list BudgetLease).
Implicit Types (m : gmap K E).

Definition map_leases m : list BudgetLease := flat_map (fun p => leases p.2) (map_to_list m).

Lemma map_leases_empty : map_leases ∅ = [].
Proof. unfold map_leases. by rewrite map_to_list_empty. Qed.

Lemma map_leases_insert m a e : m !! a = None ->
  Permutation (map_leases (<[a := e]> m)) (leases e ++ map_leases m).
Proof. intros N. unfold map_leases. by rewrite (map_to_list_insert m a e N). Qed.

Lemma map_leases_delete m a e : m !! a = Some e ->
  Permutation (map_leases m) (leases e ++ map_leases (delete a m)).
Proof. intros N. unfold map_leases. by rewrite <- (map_to_list_delete m a e N). Qed.

Lemma map_leases_replace m a e e' : m !! a = Some e ->
  Permutation (map_leases (<[a := e']> m)) (leases e' ++ map_leases (delete a m)).
Proof. intros N. rewrite <- insert_delete_eq. apply map_leases_insert, lookup_delete_eq. Qed.

Lemma map_leases_sub m m' : m' ⊆ m -> map_leases m' ⊆+ map_leases m.
Proof.
  intros Sub. unfold map_leases. apply map_to_list_submseteq in Sub. apply submseteq_Permutation in Sub as [k P].
  rewrite P, flat_map_app. by apply submseteq_inserts_r.
Qed.

(** Dropping all of them, entry by entry; the others [ls] stay. *)
Lemma map_leases_drop_over (b : ResourceBudget) (rest : holdings) m l ls : budget_range b ->
  accounts b rest l (map_leases m ++ ls) ->
  accounts b rest (foldr (fun p l => foldl (fun l x => drop_lease x l) l (leases p.2)) l (map_to_list m)) ls.
Proof.
  intros Hb Ha. unfold map_leases in Ha. revert l ls Ha. induction (map_to_list m) as [|p ps IH]; intros l ls Ha; [done|]. cbn.
  apply (accounts_drop_all b rest Hb), IH. eapply accounts_perm; [|exact Ha]. cbn.
  by rewrite !(assoc_L (++)), (Permutation_app_comm (leases p.2)).
Qed.

Lemma map_leases_drop_all (b : ResourceBudget) (rest : holdings) m l : budget_range b ->
  accounts b rest l (map_leases m) ->
  accounts b rest (foldr (fun p l => foldl (fun l x => drop_lease x l) l (leases p.2)) l (map_to_list m)) [].
Proof. intros Hb Ha. apply map_leases_drop_over; [done|]. by rewrite app_nil_r. Qed.
End MapLeases.

(** A process on the mobile profile that holds nothing yet. *)
Definition nothing_held : holdings := mkHoldings 0 (fun _ => 0).

Lemma mobile_range : budget_range (budget Mobile).
Proof. split; [cbn; unfold u64_max, MiB; lia|]. intros []; cbn; unfold u64_max, MiB, KiB; lia. Qed.

Lemma nothing_accounted : accounts (budget Mobile) nothing_held ledger_new [].
Proof.
  split; try done. split; [cbn; unfold MiB; lia|]. intros []; cbn; unfold MiB, KiB; lia.
Qed.
