(* ===== verification/ExpiryIndex.v ===== *)
(** Tables whose entries expire: one timer per entry, due at the entry's deadline
    rounded up to the tick.  Shared by the path-MTU table and the reassembler
    ([sail-netstack/src/ip/pmtu.rs], [ip/reassembly.rs]). *)
From S2P Require Import Prelude Timer TimerRefine TimerInterface.
From stdpp Require Import list gmap.
#[local] Open Scope Z_scope.

Lemma div_ceil_bounds x k : 1 <= k -> k * (div_ceil x k - 1) < x <= k * div_ceil x k.
Proof.
  intros Hk. unfold div_ceil. pose proof (Z.div_mod (x + k - 1) k ltac:(lia)) as E.
  pose proof (Z.mod_pos_bound (x + k - 1) k ltac:(lia)). lia.
Qed.

(** The tick both tables choose: coarse enough for every timeout to fit the
    horizon of the queue. *)
Definition safe_tick (timeout : Z) : Z := Z.max (div_ceil timeout 4294967294) 10.

Lemma safe_tick_covers timeout :
  0 < timeout <= u64_max -> 10 <= safe_tick timeout <= u64_max /\ timeout <= safe_tick timeout * 4294967294.
Proof.
  intros Ht. unfold safe_tick. pose proof (div_ceil_bounds timeout 4294967294 ltac:(lia)). unfold u64_max in *. lia.
Qed.

(** A deadline after [now] and at most a timeout ahead is in range. *)
Lemma deadline_in_range now timeout x :
  0 <= now -> 0 < timeout <= u64_max -> now < x <= now + timeout ->
  let tick := safe_tick timeout in
  now / tick < div_ceil x tick /\ div_ceil x tick - now / tick < 4294967296.
Proof.
  intros Hn Ht Hx. cbv zeta. destruct (safe_tick_covers timeout Ht) as [Hk Hc].
  revert Hk Hc. generalize (safe_tick timeout) as tick. intros tick Hk Hc.
  pose proof (div_ceil_bounds x tick ltac:(lia)) as Hd. pose proof (Z.div_mod now tick ltac:(lia)) as Hq.
  pose proof (Z.mod_pos_bound now tick ltac:(lia)) as Hr. revert Hd Hq.
  generalize (div_ceil x tick) as c, (now / tick) as q. intros c q Hd Hq. split.
  - apply (Z.mul_lt_mono_pos_l tick); lia.
  - assert (tick * (c - 1) < tick * (q + 4294967295)) as G by lia. apply Z.mul_lt_mono_pos_l in G; lia.
Qed.

(** An entry is alive until its deadline, and not a tick after. *)
Lemma alive_until tick now x : 1 <= tick -> now < x -> (now / tick <? div_ceil x tick) = true.
Proof.
  intros Ht Hx. pose proof (div_ceil_bounds x tick Ht). pose proof (Z.mul_div_le now tick ltac:(lia)).
  apply Z.ltb_lt, (Z.mul_lt_mono_pos_l tick); lia.
Qed.

Lemma dead_after tick now x : 1 <= tick -> x + tick <= now -> (now / tick <? div_ceil x tick) = false.
Proof.
  intros Ht Hx. pose proof (div_ceil_bounds x tick Ht). apply Z.ltb_ge, Z.div_le_lower_bound; lia.
Qed.

(** Scheduling a deadline after the present and within the timeout always succeeds. *)
Lemma schedule_in_range `{TimerQueueLaws K W} (w : W) (v : K) now timeout x :
  tq_ok w -> 0 < timeout <= u64_max -> tq_tick_ms w = safe_tick timeout -> tq_current w = now / safe_tick timeout ->
  0 <= now < u64_max -> now < x <= now + timeout -> x <= u64_max -> tq_ids w < u64_max ->
  exists w' id, tq_schedule x v w = (w', Ok id) /\ tq_ok w' /\ tq_pending w !! id = None /\
    tq_pending w' = <[id := (div_ceil x (safe_tick timeout), v)]> (tq_pending w) /\
    tq_tick_ms w' = tq_tick_ms w /\ tq_current w' = tq_current w /\ tq_ids w' = tq_ids w + 1.
Proof.
  intros Hw Ht Hk Hc Hn Hx Hxm Hi. destruct (safe_tick_covers timeout Ht) as [Rt _].
  destruct (deadline_in_range now timeout x) as [D1 D2]; [lia|done|done|].
  pose proof (tq_schedule_law x v w Hw) as L. cbv zeta in L. rewrite Hk, Hc in L. rewrite Z.max_l in L by lia.
  rewrite Hk, Hc. apply L; [unfold is_u64, u64_max in *; lia| |done|done].
  apply (Z.le_lt_trans _ now); [|lia]. apply Z.div_le_upper_bound; [lia|]. nia.
Qed.

Section Timed.
Context `{Countable K} {E : Type} (timer : E -> TimerId) (deadline : E -> Z).
Implicit Types (timers : gmap TimerId (Z * K)) (es : gmap K E).

Definition timed (tick : Z) timers es : Prop :=
  forall id d a, timers !! id = Some (d, a) <->
    exists e, es !! a = Some e /\ timer e = id /\ d = div_ceil (deadline e) tick.

Lemma timed_lookup tick timers es a e : timed tick timers es -> es !! a = Some e ->
  timers !! timer e = Some (div_ceil (deadline e) tick, a).
Proof. intros T Ea. apply T. by exists e. Qed.

Lemma timed_empty tick : timed tick ∅ ∅.
Proof. intros id d a. rewrite lookup_empty. setoid_rewrite lookup_empty. naive_solver. Qed.

Lemma timed_delete tick timers es a e : timed tick timers es -> es !! a = Some e ->
  timed tick (delete (timer e) timers) (delete a es).
Proof.
  intros T Ea id d a'. pose proof (timed_lookup _ _ _ _ _ T Ea) as Pe. unfold timed in T.
  rewrite lookup_delete_Some, T. setoid_rewrite lookup_delete_Some. split.
  - intros (Hne & e' & E' & <- & ->). exists e'. split_and!; try done. intros ->. naive_solver.
  - intros (e' & (Hne & E') & <- & ->). split; [|by exists e']. intros Heq.
    pose proof (timed_lookup _ _ _ _ _ T E'). congruence.
Qed.

Lemma timed_insert tick timers es a e : timed tick timers es -> es !! a = None -> timers !! timer e = None ->
  timed tick (<[timer e := (div_ceil (deadline e) tick, a)]> timers) (<[a := e]> es).
Proof.
  intros T Ea N id d a'. assert (T' := T). unfold timed in T.
  rewrite lookup_insert_Some, T. setoid_rewrite lookup_insert_Some. split.
  - intros [[<- [= <- <-]]|(Hne & e' & E' & <- & ->)]; [naive_solver|]. exists e'. split_and!; try done.
    right. split; [congruence|done].
  - intros (e' & [[-> ->]|[Hne E']] & <- & ->); [by left|]. right. split; [|by exists e'].
    intros Heq. pose proof (timed_lookup _ _ _ _ _ T' E'). congruence.
Qed.

Lemma timed_replace tick timers es a e e' : timed tick timers es -> es !! a = Some e ->
  timer e' = timer e -> deadline e' = deadline e -> timed tick timers (<[a := e']> es).
Proof.
  intros T Ea Et Ed id d a'. unfold timed in T. rewrite T. setoid_rewrite lookup_insert_Some.
  destruct (decide (a = a')) as [<-|]; [|naive_solver]. split; [intros (x & Ex & <- & ->)|intros (x & [[_ <-]|[[]]] & <- & ->); [|done]].
  - exists e'. rewrite Ea in Ex. injection Ex as <-. split_and!; [by left|done|by rewrite Ed].
  - exists e. split_and!; [done|done|by rewrite Ed].
Qed.

(** A fresh timer for an entry, then the old one goes. *)
Lemma timed_refresh tick timers es a e e' : timed tick timers es -> es !! a = Some e -> timers !! timer e' = None ->
  timed tick (delete (timer e) (<[timer e' := (div_ceil (deadline e') tick, a)]> timers)) (<[a := e']> es).
Proof.
  intros T Ea N. assert (timer e <> timer e') as Hne by (intros Heq; pose proof (timed_lookup _ _ _ _ _ T Ea); congruence).
  rewrite delete_insert_ne by done. rewrite <- (insert_delete_eq es).
  apply timed_insert; [by apply timed_delete|apply lookup_delete_eq|by rewrite lookup_delete_ne].
Qed.

(** The entry outlives the time [now]: its timer is due after the tick of [now]. *)
Definition alive_at (tick now : Z) (e : E) : Prop := now / tick < div_ceil (deadline e) tick.

(** The timers that fire are those of the entries that are no longer alive. *)
Lemma timed_fired tick timers es now a : timed tick timers es ->
  a ∈ (expire (now / tick) timers).2 <-> exists e, es !! a = Some e /\ ~ alive_at tick now e.
Proof.
  intros T. rewrite elem_of_expire. unfold alive_at, timed in *. split.
  - intros (id & d & (e & Ea & _ & ->)%T & Hd). exists e. split; [done|]. lia.
  - intros (e & Ea & Hd). exists (timer e), (div_ceil (deadline e) tick). split; [|lia]. apply T. by exists e.
Qed.

Lemma timed_survivors tick timers es now a e : timed tick timers es ->
  filter (fun p => p.1 ∉ (expire (now / tick) timers).2) es !! a = Some e <->
  es !! a = Some e /\ alive_at tick now e.
Proof.
  intros T. rewrite map_lookup_filter_Some. cbn. rewrite (timed_fired _ _ es now a T). unfold alive_at.
  split; intros [Ea H']; (split; [done|]).
  - destruct (Z.lt_ge_cases (now / tick) (div_ceil (deadline e) tick)); [done|]. destruct H'. exists e. split; [done|lia].
  - intros (e' & E' & H2). naive_solver.
Qed.

Lemma timed_expire tick timers es es' now : timed tick timers es ->
  es' = filter (fun p => p.1 ∉ (expire (now / tick) timers).2) es ->
  timed tick (expire (now / tick) timers).1 es'.
Proof.
  intros T -> id d a. cbn [expire fst]. rewrite map_lookup_filter_Some. cbn. rewrite (T id d a).
  setoid_rewrite (fun e => timed_survivors tick timers es now a e T). unfold alive_at. naive_solver.
Qed.
End Timed.
