(* ===== verification/Pmtu.v ===== *)
(** The path-MTU table of [sail-netstack/src/ip/pmtu.rs]: what an ICMP quote
    teaches it, the expiry of its entries by the timer queue, the eviction of
    the entry that expires first, and the leases every entry holds on the
    resource ledger.

    The table is proved against the timer interface, not against the wheel.
    The state of a call is the table with the ledger it shares; dropping an
    entry drops its leases.  The [BTreeSet] of eviction candidates is a set
    whose first element is the least by expiry and then by address. *)
From S2P Require Import Prelude StateMonad Checksum IpWire Budget Timer TimerRefine TimerInterface.
From stdpp Require Import list sorting gmap.
#[local] Open Scope Z_scope.

(** ** Addresses as keys, in the order of [IpAddr] *)
#[export] Instance IpAddr_countable : Countable IpAddr.
Proof.
  apply (inj_countable' (fun a => match a with V4 o => inl o | V6 o => inr o end)
    (fun s : list Z + list Z => match s with inl o => V4 o | inr o => V6 o end)). by intros [].
Defined.

Definition addr_key (a : IpAddr) : list Z := match a with V4 o => 4 :: o | V6 o => 6 :: o end.
Fixpoint lex_le (a b : list Z) : bool :=
  match a, b with
  | [], _ => true
  | _ :: _, [] => false
  | x :: a, y :: b => (x <? y) || ((x =? y) && lex_le a b)
  end.
Definition evict_le (a b : Z * IpAddr) : Prop :=
  a.1 < b.1 \/ a.1 = b.1 /\ lex_le (addr_key a.2) (addr_key b.2) = true.
#[export] Instance evict_le_dec a b : Decision (evict_le a b).
Proof. unfold evict_le. apply _. Defined.


(** ** Data *)
Definition PMTU_METADATA_CHARGE : Z := 128.
Definition PMTU_TIMER_MIN_TICK_MS : Z := 10.
Definition TIMER_WHEEL_SAFE_DELTA_TICKS : Z := 4294967294.
Definition IPV4_MTU_PLATEAUS : list Z := [65535; 32000; 17914; 8166; 4352; 2002; 1492; 1006; 508; 296; 68].

Record PmtuEntry := mkPmtuEntry {
  mtu : Z;
  expires_at_ms : Z;
  expiry_timer : TimerId;
  entry_lease : BudgetLease;
  metadata_lease : BudgetLease
}.

Record PmtuStats := mkPmtuStats {
  ps_active_entries : Z; ps_learned : Z; ps_lowered : Z; ps_expired : Z; ps_evicted : Z; ps_rejected : Z
}.

Inductive PmtuError :=
| PmtuBudget (e : BudgetError)
| PmtuClockWentBackwards
| PmtuTimer (e : TimerError)
| InvalidMtu
| InvalidQuote (e : WireError)
| QuoteSourceMismatch.

(** [From<TimerError>]. *)
Definition pmtu_timer_error (e : TimerError) : PmtuError :=
  match e with ClockWentBackwards _ _ => PmtuClockWentBackwards | DeadlineOutOfRange => PmtuTimer e end.

(** ** Quotes *)
Definition quoted_endpoints (le : bool) (packet : list Z) : outcome PmtuError (IpVersion * IpAddr * IpAddr) :=
  first ← ok_or (get packet 0) (InvalidQuote Truncated);
  let version := Z.shiftr first 4 in
  if (version =? 4) && (20 <=? len packet) then
    b0 ← idx packet 0;
    let header_len := Z.land b0 0x0f * 4 in
    if (header_len <? 20) || (len packet <? header_len)
    then Err (InvalidQuote (Malformed "quoted IPv4 header length")) else
    total_len ← idx_be16 packet 2;
    if total_len <? header_len then Err (InvalidQuote (Malformed "quoted IPv4 total length")) else
    header ← slice packet 0 header_len;
    sum ← checksum_sum le header 0;
    if negb (sum =? 0xffff) then Err (InvalidQuote Checksum) else
    source ← slice packet 12 16;
    destination ← slice packet 16 20;
    mret (IpV4, V4 source, V4 destination)
  else if (version =? 6) && (40 <=? len packet) then
    source ← slice packet 8 24;
    destination ← slice packet 24 40;
    mret (IpV6, V6 source, V6 destination)
  else if (version =? 4) || (version =? 6) then Err (InvalidQuote Truncated)
  else Err (InvalidQuote (Unsupported "quoted IP version")).

Definition infer_old_style_ipv4_mtu (packet : list Z) (current_mtu : Z) : option Z :=
  b0 ← get packet 0;
  let header_len := Z.land b0 0x0f * 4 in
  hi ← get packet 2;
  lo ← get packet 3;
  let total_len := be16 hi lo in
  total_len ← (if current_mtu <=? total_len then checked_sub total_len header_len else Some total_len);
  head (filter (fun plateau => plateau < total_len) IPV4_MTU_PLATEAUS).

(** ** The table *)
Section Table.
Context {W : Type} `{!TimerQueue IpAddr W} (budget : ResourceBudget).

Record PmtuTable := mkPmtuTable {
  pm_generation : Z;
  pm_timeout_ms : Z;
  pm_last_now_ms : Z;
  pm_expiry_tick_ms : Z;
  pm_expiry : W;
  pm_entries : gmap IpAddr PmtuEntry;
  pm_eviction_order : gset (Z * IpAddr);
  pm_stats : PmtuStats
}.

(** The table with the ledger it shares. *)
Definition state : Type := PmtuTable * ResourceLedger.
Definition M (A : Type) : Type := sm state PmtuError A.

Definition set_last_now (v : Z) (t : PmtuTable) : PmtuTable :=
  mkPmtuTable (pm_generation t) (pm_timeout_ms t) v (pm_expiry_tick_ms t) (pm_expiry t) (pm_entries t)
    (pm_eviction_order t) (pm_stats t).
Definition set_expiry (w : W) (t : PmtuTable) : PmtuTable :=
  mkPmtuTable (pm_generation t) (pm_timeout_ms t) (pm_last_now_ms t) (pm_expiry_tick_ms t) w (pm_entries t)
    (pm_eviction_order t) (pm_stats t).
Definition set_pm_entries (es : gmap IpAddr PmtuEntry) (order : gset (Z * IpAddr)) (t : PmtuTable) : PmtuTable :=
  mkPmtuTable (pm_generation t) (pm_timeout_ms t) (pm_last_now_ms t) (pm_expiry_tick_ms t) (pm_expiry t) es order
    (pm_stats t).
Definition set_stats (v : PmtuStats) (t : PmtuTable) : PmtuTable :=
  mkPmtuTable (pm_generation t) (pm_timeout_ms t) (pm_last_now_ms t) (pm_expiry_tick_ms t) (pm_expiry t)
    (pm_entries t) (pm_eviction_order t) v.

Definition count_active (t : PmtuTable) : PmtuTable :=
  let s := pm_stats t in
  set_stats (mkPmtuStats (Z.of_nat (size (pm_entries t))) (ps_learned s) (ps_lowered s) (ps_expired s)
    (ps_evicted s) (ps_rejected s)) t.
Definition count_learned (t : PmtuTable) : PmtuTable :=
  let s := pm_stats t in
  set_stats (mkPmtuStats (ps_active_entries s) (sat_add (ps_learned s) 1) (ps_lowered s) (ps_expired s)
    (ps_evicted s) (ps_rejected s)) t.
Definition count_lowered (t : PmtuTable) : PmtuTable :=
  let s := pm_stats t in
  set_stats (mkPmtuStats (ps_active_entries s) (ps_learned s) (sat_add (ps_lowered s) 1) (ps_expired s)
    (ps_evicted s) (ps_rejected s)) t.
Definition count_expired (n : Z) (t : PmtuTable) : PmtuTable :=
  let s := pm_stats t in
  set_stats (mkPmtuStats (ps_active_entries s) (ps_learned s) (ps_lowered s) (sat_add (ps_expired s) n)
    (ps_evicted s) (ps_rejected s)) t.
Definition count_evicted (t : PmtuTable) : PmtuTable :=
  let s := pm_stats t in
  set_stats (mkPmtuStats (ps_active_entries s) (ps_learned s) (ps_lowered s) (ps_expired s)
    (sat_add (ps_evicted s) 1) (ps_rejected s)) t.
(** Also the whole of [reject_unmatched_flow]. *)
Definition count_rejected (t : PmtuTable) : PmtuTable :=
  let s := pm_stats t in
  set_stats (mkPmtuStats (ps_active_entries s) (ps_learned s) (ps_lowered s) (ps_expired s)
    (ps_evicted s) (sat_add (ps_rejected s) 1)) t.

Definition on_table (f : PmtuTable -> PmtuTable) : M unit := modify (fun s => (f s.1, s.2)).
Definition on_timers {A} (m : W -> W * outcome TimerError A) : M A :=
  on (fun s => pm_expiry s.1) (fun w s => (set_expiry w s.1, s.2)) pmtu_timer_error m.
Definition acquire (k : ResourceKind) (amount : Z) : M BudgetLease :=
  on snd (fun l s => (s.1, l)) PmtuBudget (try_acquire budget k amount).

(** Dropping an entry drops its two leases, in the order of its fields. *)
Definition drop_entry (e : PmtuEntry) (l : ResourceLedger) : ResourceLedger :=
  drop_lease (metadata_lease e) (drop_lease (entry_lease e) l).

(** [entries.remove] of a present entry, with its eviction key. *)
Definition remove_entry (a : IpAddr) (e : PmtuEntry) (s : state) : state :=
  (set_pm_entries (delete a (pm_entries s.1)) (pm_eviction_order s.1 ∖ {[(expires_at_ms e, a)]}) s.1,
   drop_entry e s.2).

Definition expiry_tick (timeout_ms : Z) : Z :=
  Z.max (div_ceil timeout_ms TIMER_WHEEL_SAFE_DELTA_TICKS) PMTU_TIMER_MIN_TICK_MS.

Definition pmtu_new (generation timeout_ms : Z) : outcome TimerError PmtuTable :=
  if 0 <? timeout_ms then
    w ← tq_new (expiry_tick timeout_ms) 0;
    mret (mkPmtuTable generation timeout_ms 0 (expiry_tick timeout_ms) w ∅ ∅ (mkPmtuStats 0 0 0 0 0 0))
  else Panic.

Definition update_time (now_ms : Z) : M unit :=
  s ← get_state;
  if now_ms <? pm_last_now_ms s.1 then throw PmtuClockWentBackwards
  else on_table (set_last_now now_ms).

Fixpoint expire_due (due : list IpAddr) (expired : Z) : M Z :=
  match due with
  | [] => mret expired
  | destination :: due =>
    s ← get_state;
    match pm_entries s.1 !! destination with
    | Some entry =>
      _ ← modify (remove_entry destination entry);
      expire_due due (expired + 1)
    | None => expire_due due expired
    end
  end.

Definition pmtu_expire (now_ms : Z) : M Z :=
  _ ← update_time now_ms;
  due ← on_timers (tq_advance now_ms);
  expired ← expire_due due 0;
  _ ← on_table (count_expired expired);
  _ ← on_table count_active;
  mret expired.

(** [BTreeSet::pop_first]. *)
Definition first_eviction (order : gset (Z * IpAddr)) : option (Z * IpAddr) :=
  head (merge_sort evict_le (elements order)).

Definition evict_one : M bool :=
  s ← get_state;
  match first_eviction (pm_eviction_order s.1) with
  | None => mret false
  | Some (expires, destination) =>
    _ ← on_table (fun t => set_pm_entries (pm_entries t) (pm_eviction_order t ∖ {[(expires, destination)]}) t);
    match pm_entries s.1 !! destination with
    | None => mret false
    | Some entry =>
      _ ← modify (fun s => (set_pm_entries (delete destination (pm_entries s.1)) (pm_eviction_order s.1) s.1, s.2));
      _ ← on_timers (fun w => let '(w, _) := tq_cancel (expiry_timer entry) w in (w, Ok tt));
      _ ← modify (fun s => (s.1, drop_entry entry s.2));
      _ ← on_table count_evicted;
      _ ← on_table count_active;
      mret true
    end
  end.

Definition minimum_mtu (v : IpVersion) : Z := match v with IpV4 => 68 | IpV6 => 1280 end.

Definition rejecting {A} (e : PmtuError) : M A := _ ← on_table count_rejected; throw e.

(** An entry that is there: a new timer, then the old one goes; the MTU only falls. *)
Definition refresh_entry (destination : IpAddr) (entry : PmtuEntry) (new_mtu expires : Z) : M Z :=
  timer ← on_timers (tq_schedule expires destination);
  _ ← on_timers (fun w => let '(w, _) := tq_cancel (expiry_timer entry) w in (w, Ok tt));
  let entry' := mkPmtuEntry (if new_mtu <? mtu entry then new_mtu else mtu entry) expires timer
                  (entry_lease entry) (metadata_lease entry) in
  _ ← (if new_mtu <? mtu entry then on_table count_lowered else mret tt);
  _ ← on_table (fun t => set_pm_entries (<[destination := entry']> (pm_entries t))
         ({[(expires, destination)]} ∪ pm_eviction_order t ∖ {[(expires_at_ms entry, destination)]}) t);
  mret (mtu entry').

(** A new entry: a lease, evicting if it takes that, its metadata, its timer.
    A lease acquired before an error is dropped by the early return. *)
Definition dropping {A} (x : BudgetLease) (m : M A) : M A :=
  r ← attempt m;
  match r with
  | inl a => mret a
  | inr e => _ ← modify (fun s => (s.1, drop_lease x s.2)); throw e
  end.

Definition insert_leased (destination : IpAddr) (new_mtu expires : Z) (lease : BudgetLease) : M Z :=
  dropping lease (
    metadata ← acquire MetadataBytes PMTU_METADATA_CHARGE;
    dropping metadata (
      timer ← on_timers (tq_schedule expires destination);
      _ ← on_table (fun t => set_pm_entries
             (<[destination := mkPmtuEntry new_mtu expires timer lease metadata]> (pm_entries t))
             ({[(expires, destination)]} ∪ pm_eviction_order t) t);
      _ ← on_table count_learned;
      _ ← on_table count_active;
      mret new_mtu)).

Definition insert_entry (destination : IpAddr) (new_mtu expires : Z) : M Z :=
  first ← attempt (acquire PmtuEntries 1);
  lease ← match first with
          | inl lease => mret lease
          | inr e =>
            evicted ← evict_one;
            if (evicted : bool) then acquire PmtuEntries 1 else throw e
          end;
  insert_leased destination new_mtu expires lease.

Definition learn_from_icmp (le : bool) (icmp_destination : IpAddr) (quoted_packet : list Z)
    (reported_mtu platform_mtu now_ms : Z) : M Z :=
  _ ← pmtu_expire now_ms;
  match quoted_endpoints le quoted_packet with
  | Err e => rejecting e
  | Panic => lift Panic
  | OutOfFuel => lift OutOfFuel
  | Ok (version, quoted_source, destination) =>
    if negb (bool_decide (quoted_source = icmp_destination)) then rejecting QuoteSourceMismatch
    else if is_unspecified destination || is_multicast destination
    then rejecting (InvalidQuote (Malformed "invalid quoted destination"))
    else
      s ← get_state;
      let current_mtu := match pm_entries s.1 !! destination with
                         | Some entry => Z.min (mtu entry) platform_mtu
                         | None => platform_mtu
                         end in
      match (if bool_decide (version = IpV4) && (reported_mtu =? 0)
             then infer_old_style_ipv4_mtu quoted_packet current_mtu else Some reported_mtu) with
      | None => rejecting InvalidMtu
      | Some reported =>
        if reported <? minimum_mtu version then rejecting InvalidMtu
        else
          let new_mtu := Z.min reported platform_mtu in
          let expires := sat_add now_ms (pm_timeout_ms s.1) in
          match pm_entries s.1 !! destination with
          | Some entry => refresh_entry destination entry new_mtu expires
          | None => insert_entry destination new_mtu expires
          end
      end
  end.

Definition effective_mtu (destination : IpAddr) (platform_mtu now_ms : Z) : M Z :=
  _ ← pmtu_expire now_ms;
  s ← get_state;
  mret (match pm_entries s.1 !! destination with
        | Some entry => Z.min (mtu entry) platform_mtu
        | None => platform_mtu
        end).

(** [entries.clear()]: every entry is dropped, in some order. *)
Definition drop_entries (es : gmap IpAddr PmtuEntry) (l : ResourceLedger) : ResourceLedger :=
  foldr (fun p l => drop_entry p.2 l) l (map_to_list es).

(** The common tail of [clear] and [reset_network]: the wheel restarts at [last_now]. *)
Definition pmtu_clear_at (generation last_now : Z) (s : state) : state * outcome PmtuError unit :=
  let t := s.1 in
  let st := pm_stats t in
  let cleared w active := mkPmtuTable generation (pm_timeout_ms t) last_now (pm_expiry_tick_ms t) w ∅ ∅
    (mkPmtuStats active (ps_learned st) (ps_lowered st) (ps_expired st) (ps_evicted st) (ps_rejected st)) in
  let l := drop_entries (pm_entries t) s.2 in
  match tq_new (pm_expiry_tick_ms t) last_now with
  | Ok w => ((cleared w 0, l), Ok tt)
  | _ => ((cleared (pm_expiry t) (ps_active_entries st), l), Panic)
  end.
Definition pmtu_clear : M unit := fun s => pmtu_clear_at (pm_generation s.1) (pm_last_now_ms s.1) s.
Definition reset_network (generation : Z) : M unit := pmtu_clear_at generation 0.

Definition pmtu_next_deadline_ms (t : PmtuTable) : option Z := tq_next_deadline (pm_expiry t).
End Table.
