(* ===== verification/PmtuTheorems.v ===== *)
(** What the path-MTU table promises: an invariant of every sequence of calls
    (one timer and one eviction key per entry, and no lease lost or given back
    twice), the life of a learned MTU, and what an error leaves behind. *)
From S2P Require Import Prelude StateMonad Checksum IpWire Budget Timer TimerRefine TimerInterface Leases ExpiryIndex Pmtu.
From stdpp Require Import list sorting gmap.
#[local] Open Scope Z_scope.

(** ** The invariant *)

Definition leases_of (e : PmtuEntry) : list BudgetLease := [entry_lease e; metadata_lease e].
Definition entry_leases (es : gmap IpAddr PmtuEntry) : list BudgetLease := map_leases leases_of es.

Lemma expiry_tick_covers timeout :
  0 < timeout <= u64_max -> 10 <= expiry_tick timeout <= u64_max /\ timeout <= expiry_tick timeout * 4294967294.
Proof. apply safe_tick_covers. Qed.

(** ** Quotes *)
Lemma quoted_endpoints_runs le packet : bytes_ok packet ->
  runs (quoted_endpoints le packet) (fun q => family q.1.2 = q.1.1 /\ family q.2 = q.1.1).
Proof.
  intros B. unfold quoted_endpoints. apply runs_bind, runs_ok_or. intros first Hf.
  apply runs_if; [intros [_ H4]%andb_prop; apply Z.leb_le in H4|intros _].
  - apply runs_bind, runs_idx_u8; [done|lia|]. intros b0 Hb0. pose proof (land_15 b0) as Hh.
    apply runs_if; [done|]. intros [Hl1 Hl2]%orb_false_iff. apply Z.ltb_ge in Hl1, Hl2.
    apply runs_bind, runs_idx_be16; [done|lia|lia|]. intros total Ht. apply runs_if; [done|intros _].
    apply runs_bind, runs_slice_bytes; [done|lia|lia|]. intros header _ Bh Lh.
    apply runs_bind, checksum_sum_runs; [done|width|unfold short_enough; lia|]. intros sum _.
    apply runs_if; [done|intros _].
    do 2 (apply runs_bind, runs_slice_bytes; [done|lia|lia|]; intros ? _ _ _). done.
  - apply runs_if; [intros [_ H6]%andb_prop; apply Z.leb_le in H6|intros _; by apply runs_if].
    do 2 (apply runs_bind, runs_slice_bytes; [done|lia|lia|]; intros ? _ _ _). done.
Qed.

(** ** The order of eviction *)
Lemma lex_le_total a : forall b, lex_le a b = false -> lex_le b a = true.
Proof.
  induction a as [|x a IH]; intros [|y b]; cbn; try done.
  destruct (Z.ltb_spec x y), (Z.ltb_spec y x), (Z.eqb_spec x y), (Z.eqb_spec y x); cbn; try lia; auto.
Qed.

Lemma lex_le_trans a : forall b c, lex_le a b = true -> lex_le b c = true -> lex_le a c = true.
Proof.
  induction a as [|x a IH]; intros [|y b] [|z c]; cbn; try done.
  destruct (Z.ltb_spec x y), (Z.ltb_spec y z), (Z.eqb_spec x y), (Z.eqb_spec y z); cbn; try done;
    destruct (Z.ltb_spec x z), (Z.eqb_spec x z); cbn; try lia; eauto.
Qed.

#[export] Instance evict_le_total : Total evict_le.
Proof.
  intros [x a] [y b]. unfold evict_le. cbn. destruct (Z.lt_trichotomy x y) as [?|[->|?]]; [lia| |lia].
  destruct (lex_le (addr_key a) (addr_key b)) eqn:E; [auto|]. apply lex_le_total in E. auto.
Qed.

#[export] Instance evict_le_trans : Transitive evict_le.
Proof.
  intros [x a] [y b] [z c]. unfold evict_le. cbn. intros [?|[-> E1]] [?|[-> E2]]; [left; lia..|].
  right. split; [done|]. by eapply lex_le_trans.
Qed.

(** [pop_first] takes a candidate that expires no later than any other. *)
Lemma first_eviction_spec order :
  match first_eviction order with
  | Some k => k ∈ order /\ forall k', k' ∈ order -> k.1 <= k'.1
  | None => order = ∅
  end.
Proof.
  unfold first_eviction. pose proof (merge_sort_Permutation evict_le (elements order)) as P.
  pose proof (StronglySorted_merge_sort evict_le (elements order)) as S.
  destruct (merge_sort evict_le (elements order)) as [|k l]; cbn.
  - apply Permutation_nil in P. by apply elements_empty_inv, leibniz_equiv in P.
  - split; [apply elem_of_elements; rewrite <- P; left|]. intros k' Hk'.
    apply elem_of_elements in Hk'. rewrite <- P in Hk'. apply StronglySorted_inv in S as [_ S].
    apply elem_of_cons in Hk' as [->|Hk']; [lia|]. rewrite Forall_forall in S.
    specialize (S k' Hk'). unfold evict_le in S. lia.
Qed.

Section Invariant.
Context {W : Type} `{TimerQueueLaws IpAddr W} (b : ResourceBudget) (rest : holdings) (Hb : budget_range b).
Abbreviation state := (@state W).
Implicit Types (t : @PmtuTable W) (s : state) (w : W) (es : gmap IpAddr PmtuEntry).

(** One eviction key per entry. *)
Definition keyed es (order : gset (Z * IpAddr)) : Prop :=
  forall x a, (x, a) ∈ order <-> exists e, es !! a = Some e /\ expires_at_ms e = x.

(** Timers and eviction keys, one each per entry. *)
Record indexed (tick : Z) (timers : gmap TimerId (Z * IpAddr)) es (order : gset (Z * IpAddr)) : Prop := {
  ix_timers : timed expiry_timer expires_at_ms tick timers es;
  ix_order : keyed es order
}.

Record pmtu_inv s : Prop := {
  pi_timeout : 0 < pm_timeout_ms s.1 <= u64_max;
  pi_tick : pm_expiry_tick_ms s.1 = expiry_tick (pm_timeout_ms s.1);
  pi_queue : tq_ok (pm_expiry s.1);
  pi_queue_tick : tq_tick_ms (pm_expiry s.1) = pm_expiry_tick_ms s.1;
  pi_clock : tq_current (pm_expiry s.1) * pm_expiry_tick_ms s.1 <= pm_last_now_ms s.1;
  pi_now : 0 <= pm_last_now_ms s.1 <= u64_max;
  pi_index : indexed (pm_expiry_tick_ms s.1) (tq_pending (pm_expiry s.1)) (pm_entries s.1) (pm_eviction_order s.1);
  pi_accounts : accounts b rest s.2 (entry_leases (pm_entries s.1));
  pi_active : ps_active_entries (pm_stats s.1) = Z.of_nat (size (pm_entries s.1))
}.

(** ** Leases of the entries *)
Lemma entry_leases_replace es a e e' : es !! a = Some e -> leases_of e' = leases_of e ->
  Permutation (entry_leases (<[a := e']> es)) (entry_leases es).
Proof.
  intros E L. unfold entry_leases. by rewrite (map_leases_replace _ es a e e' E), (map_leases_delete _ es a e E), L.
Qed.

Lemma drop_entry_accounts es a e l : es !! a = Some e ->
  accounts b rest l (entry_leases es) -> accounts b rest (drop_entry e l) (entry_leases (delete a es)).
Proof.
  intros E Ha. apply (accounts_drop_all b rest Hb (leases_of e)).
  by apply (accounts_perm _ _ _ _ _ (map_leases_delete leases_of es a e E)).
Qed.

(** ** Expiry *)
Lemma set_entries_twice es order es' order' t :
  set_pm_entries es' order' (set_pm_entries es order t) = set_pm_entries es' order' t.
Proof. done. Qed.

Lemma set_entries_id t : set_pm_entries (pm_entries t) (pm_eviction_order t) t = t.
Proof. by destruct t. Qed.

Lemma keyed_delete es order a e : es !! a = Some e ->
  keyed es order -> keyed (delete a es) (order ∖ {[(expires_at_ms e, a)]}).
Proof.
  unfold keyed. intros E K x a'. rewrite elem_of_difference, elem_of_singleton, K. setoid_rewrite lookup_delete_Some.
  split; [|naive_solver]. intros [(e' & E' & <-) Hne]. exists e'. split_and!; [|done..]. intros ->. naive_solver.
Qed.

Lemma keyed_insert es order a e : es !! a = None ->
  keyed es order -> keyed (<[a := e]> es) ({[(expires_at_ms e, a)]} ∪ order).
Proof.
  unfold keyed. intros E K x a'. rewrite elem_of_union, elem_of_singleton, K. setoid_rewrite lookup_insert_Some.
  split; [|naive_solver]. intros [[= -> ->]|(e' & E' & <-)]; [naive_solver|]. exists e'. split; [|done].
  right. split; [|done]. congruence.
Qed.

(** The loop of [expire] removes the entries it is given, and only them. *)
Lemma expire_due_spec due n s :
  keyed (pm_entries s.1) (pm_eviction_order s.1) -> accounts b rest s.2 (entry_leases (pm_entries s.1)) ->
  wp (expire_due due n) s
    (fun _ s' => s'.1 = set_pm_entries (pm_entries s'.1) (pm_eviction_order s'.1) s.1 /\
       pm_entries s'.1 = filter (fun p => p.1 ∉ due) (pm_entries s.1) /\
       keyed (pm_entries s'.1) (pm_eviction_order s'.1) /\
       accounts b rest s'.2 (entry_leases (pm_entries s'.1)))
    (fun _ _ => False).
Proof.
  revert n s. induction due as [|a due IH]; intros n s K A; cbn [expire_due].
  - wp_step. rewrite set_entries_id. split_and!; [done| |done..]. symmetry. apply map_filter_id.
    intros. apply not_elem_of_nil.
  - repeat wp_step. destruct (pm_entries s.1 !! a) as [e|] eqn:E.
    + repeat wp_step. eapply wp_mono; [apply IH| |done].
      * by apply keyed_delete.
      * by apply drop_entry_accounts.
      * intros _ s' (H1 & H2 & H3 & H4). split_and!; [done| |done..]. rewrite H2. cbn.
        apply map_eq. intros a'. apply option_eq. intros e'.
        rewrite !map_lookup_filter_Some, lookup_delete_Some, not_elem_of_cons. naive_solver.
    + eapply wp_mono; [by apply IH| |done]. intros _ s' (H1 & H2 & H3 & H4). split_and!; [done| |done..].
      rewrite H2. apply map_eq. intros a'. apply option_eq. intros e'.
      rewrite !map_lookup_filter_Some, not_elem_of_cons. naive_solver congruence.
Qed.

(** The entry outlives the time [now]: its timer is due after the tick of [now]. *)
Definition alive (tick now : Z) (e : PmtuEntry) : Prop := alive_at expires_at_ms tick now e.

Record expired_to (now : Z) s s' : Prop := {
  xt_inv : pmtu_inv s';
  xt_generation : pm_generation s'.1 = pm_generation s.1;
  xt_timeout : pm_timeout_ms s'.1 = pm_timeout_ms s.1;
  xt_tick : pm_expiry_tick_ms s'.1 = pm_expiry_tick_ms s.1;
  xt_now : pm_last_now_ms s'.1 = now;
  xt_current : tq_current (pm_expiry s'.1) = now / pm_expiry_tick_ms s.1;
  xt_ids : tq_ids (pm_expiry s'.1) = tq_ids (pm_expiry s.1);
  xt_entries a e : pm_entries s'.1 !! a = Some e <->
    pm_entries s.1 !! a = Some e /\ alive (pm_expiry_tick_ms s.1) now e
}.

Lemma indexed_expire tick timers timers' es es' order order' now : indexed tick timers es order ->
  timers' = (expire (now / tick) timers).1 ->
  es' = filter (fun p => p.1 ∉ (expire (now / tick) timers).2) es -> keyed es' order' ->
  indexed tick timers' es' order' /\ forall a e, es' !! a = Some e <-> es !! a = Some e /\ alive tick now e.
Proof.
  intros [T _] -> E K. split; [split; [by apply (timed_expire _ _ _ _ es)|done]|].
  intros a e. rewrite E. by apply (timed_survivors expiry_timer).
Qed.

Lemma pmtu_expire_spec now s : pmtu_inv s -> 0 <= now < u64_max ->
  wp (pmtu_expire now) s
    (fun _ s' => pm_last_now_ms s.1 <= now /\ expired_to now s s')
    (fun e s' => now < pm_last_now_ms s.1 /\ e = PmtuClockWentBackwards /\ s' = s).
Proof.
  intros I Hn. unfold pmtu_expire, update_time, on_table, on_timers. repeat wp_step.
  - by apply Z.ltb_lt in H1.
  - apply Z.ltb_ge in H1. apply wp_on. cbn [fst pm_expiry set_last_now].
    destruct (tq_advance_law now (pm_expiry s.1) (pi_queue _ I)) as (w' & -> & Ok' & P & T & C & N);
      [unfold is_u64, u64_max in *; lia|lia|rewrite (pi_queue_tick _ I); pose proof (pi_clock _ I); lia|].
    rewrite (pi_queue_tick _ I) in *. apply wp_bind.
    eapply wp_mono; [apply expire_due_spec; [apply I|apply I]| |done]. cbn [fst snd].
    intros n s' (Fr & E & K & A). repeat wp_step. split; [done|].
    destruct (indexed_expire _ _ (tq_pending w') _ _ _ _ now (pi_index _ I) P E K) as [I' F].
    destruct s' as [t' l']. cbn [fst snd] in *. rewrite Fr. cbn in *.
    split; cbn; try done. split; cbn; try done; try apply I; try congruence.
    + rewrite C. pose proof (tq_range (pm_expiry s.1) (pi_queue _ I)) as [R _]. rewrite (pi_queue_tick _ I) in R.
      rewrite Z.mul_comm. apply Z.mul_div_le. lia.
    + lia.
Qed.

(** ** Learning *)

(** The state a call works on once it has expired what is due at [now]. *)
Record ready (now : Z) s : Prop := {
  rd_inv : pmtu_inv s;
  rd_now : 0 <= now < u64_max;
  rd_last : pm_last_now_ms s.1 = now;
  rd_current : tq_current (pm_expiry s.1) = now / pm_expiry_tick_ms s.1
}.

Lemma expired_ready now s s' : 0 <= now < u64_max -> expired_to now s s' -> ready now s'.
Proof. intros Hn [I _ _ T N C _ _]. split; [done..|]. by rewrite T. Qed.

(** Scheduling an expiry always succeeds: it is after the present, within the horizon. *)
Lemma schedule_expiry now a s : ready now s -> tq_ids (pm_expiry s.1) < u64_max ->
  let x := sat_add now (pm_timeout_ms s.1) in
  exists w' id, tq_schedule x a (pm_expiry s.1) = (w', Ok id) /\ tq_ok w' /\
    tq_pending (pm_expiry s.1) !! id = None /\
    tq_pending w' = <[id := (div_ceil x (pm_expiry_tick_ms s.1), a)]> (tq_pending (pm_expiry s.1)) /\
    tq_tick_ms w' = tq_tick_ms (pm_expiry s.1) /\ tq_current w' = tq_current (pm_expiry s.1) /\
    tq_ids w' = tq_ids (pm_expiry s.1) + 1.
Proof.
  intros [I Hn Hl Hc] Hi x. pose proof (pi_timeout _ I) as Ht. rewrite (pi_tick _ I) in *.
  apply (schedule_in_range _ _ now (pm_timeout_ms s.1)); try done; try apply I.
  - rewrite (pi_queue_tick _ I). apply I.
  - unfold x, sat_add. lia.
  - unfold x, sat_add. lia.
Qed.

Lemma indexed_delete tick timers timers' es order a e : indexed tick timers es order -> es !! a = Some e ->
  timers' = delete (expiry_timer e) timers ->
  indexed tick timers' (delete a es) (order ∖ {[(expires_at_ms e, a)]}).
Proof. intros [T K] E ->. split; [by apply timed_delete|by apply keyed_delete]. Qed.

Lemma indexed_insert tick timers timers' es order a e : indexed tick timers es order -> es !! a = None ->
  timers !! expiry_timer e = None ->
  timers' = <[expiry_timer e := (div_ceil (expires_at_ms e) tick, a)]> timers ->
  indexed tick timers' (<[a := e]> es) ({[(expires_at_ms e, a)]} ∪ order).
Proof. intros [T K] E N ->. split; [by apply timed_insert|by apply keyed_insert]. Qed.

(** What no call but the clock changes. *)
Record framed t t' : Prop := {
  fr_generation : pm_generation t' = pm_generation t;
  fr_timeout : pm_timeout_ms t' = pm_timeout_ms t;
  fr_tick : pm_expiry_tick_ms t' = pm_expiry_tick_ms t;
  fr_last : pm_last_now_ms t' = pm_last_now_ms t;
  fr_current : tq_current (pm_expiry t') = tq_current (pm_expiry t)
}.

Lemma framed_refl t : framed t t.
Proof. by split. Qed.
Lemma framed_trans t1 t2 t3 : framed t1 t2 -> framed t2 t3 -> framed t1 t3.
Proof. intros [] []. split; congruence. Qed.
Lemma framed_ready now s s' : ready now s -> framed s.1 s'.1 -> pmtu_inv s' -> ready now s'.
Proof. intros [? ? ? ?] [] ?. split; [done|done|congruence|congruence]. Qed.

(** An entry that expires first is gone, and nothing else. *)
Definition evicted (es es' : gmap IpAddr PmtuEntry) : Prop :=
  exists a e, es !! a = Some e /\ es' = delete a es /\
    forall a' e', es !! a' = Some e' -> expires_at_ms e <= expires_at_ms e'.

(** [evict_one] takes the timer and the leases of that entry with it. *)
Lemma evict_one_spec s : pmtu_inv s ->
  wp evict_one s
    (fun r s' => pmtu_inv s' /\ framed s.1 s'.1 /\ tq_ids (pm_expiry s'.1) = tq_ids (pm_expiry s.1) /\
       if (r : bool) then evicted (pm_entries s.1) (pm_entries s'.1) else s' = s)
    (fun _ _ => False).
Proof.
  intros I. unfold evict_one, on_table, on_timers. repeat wp_step.
  pose proof (first_eviction_spec (pm_eviction_order s.1)) as F.
  destruct (first_eviction (pm_eviction_order s.1)) as [[x a]|]; [|by wp_step; split_and!; [done|split|..]].
  destruct F as [Hin Hmin]. pose proof (ix_order _ _ _ _ (pi_index _ I)) as K. unfold keyed in K.
  destruct (proj1 (K x a) Hin) as (e & E & <-). repeat wp_step. rewrite E. repeat wp_step.
  apply wp_on. cbn [fst snd pm_expiry set_pm_entries].
  destruct (tq_cancel_law (expiry_timer e) (pm_expiry s.1) (pi_queue _ I))
    as (w' & r & -> & Ok' & _ & P & T & C & N).
  repeat wp_step. cbn.
  pose proof (indexed_delete _ _ (tq_pending w') _ _ a e (pi_index _ I) E P) as I'.
  split_and!; [|by split|done|].
  - split; cbn; try done; try apply I.
    + rewrite T. apply I.
    + rewrite C. apply I.
    + by apply drop_entry_accounts; [|apply I].
  - exists a, e. split_and!; [done..|]. intros a' e' E'. apply (Hmin (expires_at_ms e', a')). apply K. by exists e'.
Qed.

Lemma inv_ledger t l l' :
  pmtu_inv (t, l) -> accounts b rest l' (entry_leases (pm_entries t)) -> pmtu_inv (t, l').
Proof. intros [] A. by split. Qed.

(** The invariant reads the statistics only for the number of entries. *)
Lemma inv_table t t' l : pmtu_inv (t, l) ->
  set_stats (pm_stats t) t' = t -> ps_active_entries (pm_stats t') = ps_active_entries (pm_stats t) ->
  pmtu_inv (t', l).
Proof.
  destruct t, t'. cbn. intros I [= -> -> -> -> -> -> ->] E. destruct I. split; cbn in *; try done. congruence.
Qed.

(** A destination's entry with a fresh expiry. *)
Definition learned (now timeout : Z) (dst : IpAddr) (m : Z) (es es' : gmap IpAddr PmtuEntry) : Prop :=
  exists e, es' = <[dst := e]> es /\ mtu e = m /\ expires_at_ms e = sat_add now timeout.

Lemma refresh_entry_spec now dst e new_mtu s :
  ready now s -> tq_ids (pm_expiry s.1) < u64_max -> pm_entries s.1 !! dst = Some e ->
  wp (refresh_entry dst e new_mtu (sat_add now (pm_timeout_ms s.1))) s
    (fun m s' => m = Z.min new_mtu (mtu e) /\ pmtu_inv s' /\ framed s.1 s'.1 /\
       tq_ids (pm_expiry s'.1) = tq_ids (pm_expiry s.1) + 1 /\
       learned now (pm_timeout_ms s.1) dst m (pm_entries s.1) (pm_entries s'.1))
    (fun _ _ => False).
Proof.
  intros R Hi E. pose proof (rd_inv _ _ R) as I. unfold refresh_entry, on_table, on_timers. wp_step.
  destruct (schedule_expiry now dst s R Hi) as (w1 & id & S1 & K1 & N1 & P1 & T1 & C1 & I1).
  apply wp_on. rewrite S1. wp_step. apply wp_on. cbn [fst snd pm_expiry set_expiry].
  destruct (tq_cancel_law (expiry_timer e) w1 K1) as (w2 & r & -> & K2 & _ & P2 & T2 & C2 & I2).
  set (m := if new_mtu <? mtu e then new_mtu else mtu e).
  set (e' := mkPmtuEntry m (sat_add now (pm_timeout_ms s.1)) id (entry_lease e) (metadata_lease e)).
  assert (m = Z.min new_mtu (mtu e)) as Em by (unfold m; destruct (Z.ltb_spec new_mtu (mtu e)); lia).
  assert (tq_pending w2 = <[id := (div_ceil (expires_at_ms e') (pm_expiry_tick_ms s.1), dst)]>
    (delete (expiry_timer e) (tq_pending (pm_expiry s.1)))) as P3.
  { rewrite P2, P1. apply delete_insert_ne. intros Heq. rewrite <- Heq in N1.
    pose proof (timed_lookup _ _ _ _ _ _ _ (ix_timers _ _ _ _ (pi_index _ I)) E). congruence. }
  assert (pmtu_inv (set_pm_entries (<[dst := e']> (pm_entries s.1))
     ({[(expires_at_ms e', dst)]} ∪ pm_eviction_order s.1 ∖ {[(expires_at_ms e, dst)]}) (set_expiry w2 s.1), s.2)) as I'.
  { split; cbn; try done; try apply I.
    - rewrite T2, T1. apply I.
    - rewrite C2, C1. apply I.
    - rewrite <- insert_delete_eq. rewrite P3. eapply indexed_insert; [|by rewrite lookup_delete_eq| |done].
      + by apply (indexed_delete _ (tq_pending (pm_expiry s.1)) _ _ _ dst e (pi_index _ I) E).
      + cbn. by rewrite lookup_delete_None, N1; right.
    - eapply accounts_perm; [|apply I]. by rewrite (entry_leases_replace _ _ _ _ E).
    - rewrite (pi_active _ I). f_equal. symmetry. by apply map_size_insert_Some. }
  assert (learned now (pm_timeout_ms s.1) dst m (pm_entries s.1) (<[dst := e']> (pm_entries s.1))) as L by (by exists e').
  assert (tq_ids w2 = tq_ids (pm_expiry s.1) + 1) as Hids by congruence.
  assert (tq_current w2 = tq_current (pm_expiry s.1)) as Hcur by congruence.
  repeat wp_step; (split_and!; [done|eapply inv_table; [exact I'|done..]|by split|done|done]).
Qed.

Lemma wp_dropping {A} x (m : sm state PmtuError A) s Q X :
  wp m s Q (fun e s' => X e (s'.1, drop_lease x s'.2)) -> wp (dropping x m) s Q X.
Proof.
  intros Hm. unfold dropping. wp_step. wp_step. eapply wp_mono; [exact Hm|..].
  - intros a s' Ha. by apply wp_ret.
  - intros e s' He. apply wp_bind, wp_modify. by apply wp_throw.
Qed.

(** An acquisition holds one more lease, or reports the ledger's refusal. *)
Lemma wp_acquire k amount s ls (Q : BudgetLease -> state -> Prop) (X : PmtuError -> state -> Prop) :
  accounts b rest s.2 ls -> 0 < amount <= u64_max ->
  (forall l, accounts b rest l (mkLease k amount :: ls) -> Q (mkLease k amount) (s.1, l)) ->
  (forall e l, accounts b rest l ls -> X (PmtuBudget e) (s.1, l)) ->
  wp (acquire b k amount) s Q X.
Proof.
  intros A Ha HQ HX. unfold acquire. apply wp_on.
  pose proof (accounts_acquire b rest Hb k amount s.2 ls A Ha) as S.
  destruct (try_acquire b k amount s.2) as [l [lease|e| |]]; [|apply HX, S|done..].
  destruct S as [-> S]. by apply HQ.
Qed.

(** The error of a ledger that refused. *)
Definition refused (e : PmtuError) : Prop := exists be, e = PmtuBudget be.

(** With the first lease in hand: the metadata lease, the timer and the entry. *)
Lemma insert_leased_spec now dst new_mtu s l0 :
  ready now (s.1, l0) -> tq_ids (pm_expiry s.1) < u64_max -> pm_entries s.1 !! dst = None ->
  accounts b rest s.2 (mkLease PmtuEntries 1 :: entry_leases (pm_entries s.1)) ->
  wp (insert_leased b dst new_mtu (sat_add now (pm_timeout_ms s.1)) (mkLease PmtuEntries 1)) s
    (fun m s' => m = new_mtu /\ pmtu_inv s' /\ framed s.1 s'.1 /\
       tq_ids (pm_expiry s'.1) = tq_ids (pm_expiry s.1) + 1 /\
       learned now (pm_timeout_ms s.1) dst m (pm_entries s.1) (pm_entries s'.1))
    (fun e s' => refused e /\ s'.1 = s.1 /\ pmtu_inv s').
Proof.
  intros R Hi E A. pose proof (rd_inv _ _ R) as I. unfold insert_leased, on_table, on_timers.
  apply wp_dropping. wp_step.
  eapply wp_acquire; [exact A|unfold PMTU_METADATA_CHARGE, u64_max; lia| |].
  - clear A. intros l A. apply wp_dropping. wp_step. apply wp_on. cbn [fst snd].
    destruct (schedule_expiry now dst _ R Hi) as (w' & id & S1 & K1 & N1 & P1 & T1 & C1 & I1). cbn [fst snd] in *.
    rewrite S1. repeat wp_step. cbn.
    set (e := mkPmtuEntry new_mtu (sat_add now (pm_timeout_ms s.1)) id (mkLease PmtuEntries 1)
                (mkLease MetadataBytes PMTU_METADATA_CHARGE)).
    split_and!; [done| |by split|done|by exists e].
    split; cbn; try done; try apply I.
    + rewrite T1. apply I.
    + rewrite C1. apply I.
    + rewrite P1. by apply (indexed_insert _ (tq_pending (pm_expiry s.1)) _ _ _ dst e (pi_index _ I) E N1).
    + eapply accounts_perm; [|exact A]. unfold entry_leases. rewrite (map_leases_insert _ _ _ e E). apply Permutation_swap.
  - intros be l A'. split; [by eexists|]. split; [done|]. cbn [fst snd]. eapply inv_ledger; [exact I|].
    by apply (accounts_drop b rest Hb).
Qed.

(** What an insertion may have cost: at most the entry that expires first. *)
Definition spared (es es' : gmap IpAddr PmtuEntry) : Prop := es' = es \/ evicted es es'.

Lemma spared_none es es' a : spared es es' -> es !! a = None -> es' !! a = None.
Proof. intros [->|(a' & e & _ & -> & _)] E; [done|]. rewrite lookup_delete_None. auto. Qed.

Lemma insert_entry_spec now dst new_mtu s :
  ready now s -> tq_ids (pm_expiry s.1) < u64_max -> pm_entries s.1 !! dst = None ->
  wp (insert_entry b dst new_mtu (sat_add now (pm_timeout_ms s.1))) s
    (fun m s' => m = new_mtu /\ pmtu_inv s' /\ framed s.1 s'.1 /\
       tq_ids (pm_expiry s'.1) = tq_ids (pm_expiry s.1) + 1 /\
       exists es, spared (pm_entries s.1) es /\ learned now (pm_timeout_ms s.1) dst m es (pm_entries s'.1))
    (fun e s' => refused e /\ pmtu_inv s' /\ framed s.1 s'.1 /\
       tq_ids (pm_expiry s'.1) = tq_ids (pm_expiry s.1) /\ spared (pm_entries s.1) (pm_entries s'.1)).
Proof.
  intros R Hi E. pose proof (rd_inv _ _ R) as I. unfold insert_entry. wp_step. wp_step.
  eapply wp_acquire; [apply (pi_accounts _ I)|unfold u64_max; lia| |].
  - intros l A. apply wp_bind, wp_ret. eapply wp_mono; [eapply (insert_leased_spec now dst new_mtu (s.1, l) s.2)| |]; try done.
    + by destruct s.
    + intros m s' (-> & I' & F & N & L). split_and!; [done..|]. exists (pm_entries s.1). split; [by left|done].
    + intros e s' (Re & Es & I'). rewrite Es. split_and!; [done|done|apply framed_refl|done|by left].
  - intros be l A. apply wp_bind. wp_step.
    assert (pmtu_inv (s.1, l)) as Il by (apply (inv_ledger s.1 s.2); [by destruct s|exact A]).
    eapply wp_mono; [apply (evict_one_spec (s.1, l) Il)| |done].
    intros [] s1 (I1 & F1 & N1 & V); cbn [fst] in *.
    + assert (spared (pm_entries s.1) (pm_entries s1.1)) as Sp by (by right).
      eapply wp_acquire; [apply (pi_accounts _ I1)|unfold u64_max; lia| |].
      * intros l2 A2. rewrite <- (fr_timeout _ _ F1).
        eapply wp_mono; [eapply (insert_leased_spec now dst new_mtu (s1.1, l2) s1.2)| |]; try done.
        -- destruct s1. by apply (framed_ready now s).
        -- cbn. by rewrite N1.
        -- by eapply spared_none.
        -- intros m s' (-> & I' & F & N & L). cbn [fst] in *. rewrite N, N1.
           split_and!; [done|done|by eapply framed_trans|done|by exists (pm_entries s1.1)].
        -- intros e s' (Re & Es & I'). rewrite Es. by split_and!.
      * intros e2 l2 A2. destruct s1 as [t1 l1]. split_and!; [by eexists|by eapply inv_ledger|done..].
    + subst s1. wp_step. split_and!; [by eexists|done|apply framed_refl|done|by left].
Qed.

(** What the table gives for a destination whose entry, if any, is alive. *)
Definition current_mtu (platform : Z) (entry : option PmtuEntry) : Z :=
  match entry with Some e => Z.min (mtu e) platform | None => platform end.

(** The MTU a report stands for: an old router reports 0 and leaves it to the
    quote and what is in use. *)
Definition report_of (quoted : list Z) (v : IpVersion) (reported current : Z) : option Z :=
  if bool_decide (v = IpV4) && (reported =? 0) then infer_old_style_ipv4_mtu quoted current else Some reported.

(** A successful call: the present is expired first; then the quoted
    destination's entry is refreshed or made, for at most one eviction. *)
Record learn_ok (quoted : list Z) (reported platform now : Z) s (m : Z) s' s1 (dst : IpAddr) es : Prop := {
  lo_clock : pm_last_now_ms s.1 <= now;
  lo_expired : expired_to now s s1;
  lo_inv : pmtu_inv s';
  lo_frame : framed s1.1 s'.1;
  lo_ids : tq_ids (pm_expiry s'.1) = tq_ids (pm_expiry s1.1) + 1;
  lo_spared : spared (pm_entries s1.1) es;
  lo_entry : learned now (pm_timeout_ms s.1) dst m es (pm_entries s'.1);
  lo_value : exists rep, report_of quoted (family dst) reported (current_mtu platform (pm_entries s1.1 !! dst)) = Some rep /\
    minimum_mtu (family dst) <= rep /\ m = Z.min rep (current_mtu platform (pm_entries s1.1 !! dst))
}.

(** A failed call: nothing happened, or the present was expired and then the
    report was rejected, or the ledger refused. *)
Inductive learn_failed (now : Z) s : PmtuError -> state -> Prop :=
| failed_clock : now < pm_last_now_ms s.1 -> learn_failed now s PmtuClockWentBackwards s
| failed_rejected s1 e : pm_last_now_ms s.1 <= now -> expired_to now s s1 -> learn_failed now s e (count_rejected s1.1, s1.2)
| failed_budget s1 be s' : pm_last_now_ms s.1 <= now -> expired_to now s s1 -> pmtu_inv s' -> framed s1.1 s'.1 ->
    tq_ids (pm_expiry s'.1) = tq_ids (pm_expiry s1.1) -> spared (pm_entries s1.1) (pm_entries s'.1) ->
    learn_failed now s (PmtuBudget be) s'.

Lemma wp_rejecting {A} e s (Q : A -> state -> Prop) X :
  X e (count_rejected s.1, s.2) -> wp (rejecting e) s Q X.
Proof. done. Qed.

Lemma learn_spec le icmp_destination quoted reported platform now s :
  pmtu_inv s -> bytes_ok quoted -> 0 <= now < u64_max -> tq_ids (pm_expiry s.1) < u64_max ->
  wp (learn_from_icmp b le icmp_destination quoted reported platform now) s
    (fun m s' => exists s1 dst es,
       quoted_endpoints le quoted = Ok (family dst, icmp_destination, dst) /\
       learn_ok quoted reported platform now s m s' s1 dst es)
    (learn_failed now s).
Proof.
  intros I B Hn Hi. unfold learn_from_icmp. wp_step.
  eapply wp_mono; [by apply pmtu_expire_spec| |intros e s' (Hlt & -> & ->); by constructor].
  intros _ s1 [Hc X]. pose proof (quoted_endpoints_runs le quoted B) as Hq.
  assert (ready now s1) as R by (by eapply expired_ready).
  assert (forall e, learn_failed now s e (count_rejected s1.1, s1.2)) as Rj by (intros; by constructor).
  destruct (quoted_endpoints le quoted) as [[[v src] dst]|e| |]; [|by apply wp_rejecting|done..].
  destruct Hq as [_ Hv]. cbn in Hv. subst v.
  apply wp_if; [intros _; by apply wp_rejecting|]. intros Hs%negb_false_iff%bool_decide_eq_true. subst src.
  apply wp_if; [intros _; by apply wp_rejecting|]. intros _. wp_step. wp_step.
  change (match pm_entries s1.1 !! dst with Some entry => Z.min (mtu entry) platform | None => platform end)
    with (current_mtu platform (pm_entries s1.1 !! dst)).
  match goal with |- context [match ?o with Some r => @?f r | None => _ end] =>
    change o with (report_of quoted (family dst) reported (current_mtu platform (pm_entries s1.1 !! dst))) end.
  destruct (report_of _ _ _ _) as [rep|] eqn:Er; [|by apply wp_rejecting].
  apply wp_if; [intros _; by apply wp_rejecting|]. intros Hm%Z.ltb_ge.
  rewrite <- (xt_ids _ _ _ X) in Hi.
  destruct (pm_entries s1.1 !! dst) as [e|] eqn:E; cbn [current_mtu] in Er.
  - eapply wp_mono; [by apply (refresh_entry_spec now dst e)| |done].
    intros m s' (-> & I' & F & N & L). exists s1, dst, (pm_entries s1.1). split; [done|].
    rewrite (xt_timeout _ _ _ X) in L. split; [done..|by left|done|]. rewrite E. exists rep. split_and!; [done..|]. cbn. lia.
  - eapply wp_mono; [by apply (insert_entry_spec now dst)| |].
    + intros m s' (-> & I' & F & N & es & Sp & L). exists s1, dst, es. split; [done|].
      rewrite (xt_timeout _ _ _ X) in L. split; [done..|]. rewrite E. by exists rep.
    + intros e s' ((be & ->) & I' & F & N & Sp). by eapply failed_budget.
Qed.

(** ** The other calls *)
Lemma indexed_empty tick : indexed tick ∅ ∅ ∅.
Proof. split; [apply timed_empty|]. intros x a. rewrite elem_of_empty. setoid_rewrite lookup_empty. naive_solver. Qed.

Lemma pmtu_new_spec generation timeout l : 0 < timeout <= u64_max -> accounts b rest l [] ->
  exists t, pmtu_new generation timeout = Ok t /\ pmtu_inv (t, l) /\ pm_entries t = ∅ /\ tq_ids (pm_expiry t) = 0.
Proof.
  intros Ht A. destruct (expiry_tick_covers timeout Ht) as [Hk _]. unfold pmtu_new.
  rewrite (proj2 (Z.ltb_lt 0 timeout)) by lia.
  destruct (tq_new_law (expiry_tick timeout) 0) as (w & -> & K & P & T & C & N); [lia|unfold is_u64; lia|].
  eexists. split; [reflexivity|]. split; [|done]. split; cbn; try done.
  - rewrite C. by rewrite Z.div_0_l by lia.
  - rewrite P. apply indexed_empty.
Qed.

Lemma clear_spec generation last_now s : pmtu_inv s -> 0 <= last_now <= u64_max ->
  wp (pmtu_clear_at generation last_now) s
    (fun _ s' => pmtu_inv s' /\ pm_entries s'.1 = ∅ /\ accounts b rest s'.2 [] /\ tq_ids (pm_expiry s'.1) = 0)
    (fun _ _ => False).
Proof.
  intros I Hl. destruct (expiry_tick_covers _ (pi_timeout _ I)) as [Hk _]. rewrite <- (pi_tick _ I) in Hk.
  unfold wp, pmtu_clear_at.
  destruct (tq_new_law (pm_expiry_tick_ms s.1) last_now) as (w & -> & K & P & T & C & N);
    [lia|unfold is_u64, u64_max in *; lia|].
  pose proof (map_leases_drop_all leases_of b rest (pm_entries s.1) s.2 Hb (pi_accounts _ I)) as A. cbn.
  split_and!; [|done..]. split; cbn; try done; try apply I.
  - rewrite C. rewrite Z.mul_comm. apply Z.mul_div_le. lia.
  - rewrite P. apply indexed_empty.
Qed.

Lemma clear_all_spec s : pmtu_inv s ->
  wp pmtu_clear s
    (fun _ s' => pmtu_inv s' /\ pm_entries s'.1 = ∅ /\ accounts b rest s'.2 [] /\ tq_ids (pm_expiry s'.1) = 0)
    (fun _ _ => False).
Proof. intros I. exact (clear_spec _ _ s I (pi_now _ I)). Qed.

(** The MTU an entry stands for, if it is alive. *)
Definition cached (tick now platform : Z) (entry : option PmtuEntry) : Z :=
  match entry with
  | Some e => if now / tick <? div_ceil (expires_at_ms e) tick then Z.min (mtu e) platform else platform
  | None => platform
  end.

Lemma expired_cached now platform a s s' : expired_to now s s' ->
  cached (pm_expiry_tick_ms s.1) now platform (pm_entries s'.1 !! a) =
  cached (pm_expiry_tick_ms s.1) now platform (pm_entries s.1 !! a).
Proof.
  intros X. pose proof (xt_entries _ _ _ X a) as F. unfold alive, alive_at in F. unfold cached.
  destruct (pm_entries s'.1 !! a) as [e|]; [by destruct (proj1 (F e) eq_refl) as [-> _]|].
  destruct (pm_entries s.1 !! a) as [e|]; [|done]. destruct (Z.ltb_spec (now / pm_expiry_tick_ms s.1)
    (div_ceil (expires_at_ms e) (pm_expiry_tick_ms s.1))) as [Ha|]; [|done].
  by pose proof (proj2 (F e) (conj eq_refl Ha)).
Qed.

Lemma effective_mtu_spec dst platform now s : pmtu_inv s -> 0 <= now < u64_max ->
  wp (effective_mtu dst platform now) s
    (fun m s' => pm_last_now_ms s.1 <= now /\ expired_to now s s' /\
       m = cached (pm_expiry_tick_ms s.1) now platform (pm_entries s.1 !! dst))
    (fun e s' => now < pm_last_now_ms s.1 /\ e = PmtuClockWentBackwards /\ s' = s).
Proof.
  intros I Hn. unfold effective_mtu. wp_step. eapply wp_mono; [by apply pmtu_expire_spec| |done].
  intros _ s' [Hl X]. repeat wp_step. split_and!; [done..|]. rewrite <- (expired_cached _ _ _ _ _ X).
  unfold cached. destruct (pm_entries s'.1 !! dst) as [e|] eqn:E; [|done].
  apply (xt_entries _ _ _ X) in E as [_ Ha]. by rewrite (proj2 (Z.ltb_lt _ _) Ha).
Qed.

Lemma effective_value dst platform now s : pmtu_inv s -> 0 <= now < u64_max -> pm_last_now_ms s.1 <= now ->
  (effective_mtu dst platform now s).2 = Ok (cached (pm_expiry_tick_ms s.1) now platform (pm_entries s.1 !! dst)).
Proof.
  intros I Hn Hl. pose proof (effective_mtu_spec dst platform now s I Hn) as E. unfold wp in E.
  destruct (effective_mtu dst platform now s) as [s' [m|e| |]]; [|lia|done..]. by destruct E as (_ & _ & ->).
Qed.

Lemma spared_others (es es' : gmap IpAddr PmtuEntry) : spared es es' ->
  exists victim, forall a, victim <> Some a -> es' !! a = es !! a.
Proof.
  intros [->|(v & e & _ & -> & _)]; [by exists None|]. exists (Some v). intros a Hne.
  apply lookup_delete_ne. congruence.
Qed.

(** ** Any sequence of calls *)
Inductive pmtu_call :=
| CLearn (icmp_destination : IpAddr) (quoted : list Z) (reported platform now : Z)
| CEffective (destination : IpAddr) (platform now : Z)
| CExpire (now : Z)
| CReset (generation : Z)
| CClear
| CRejectFlow.

Definition pmtu_do (le : bool) (c : pmtu_call) : sm state PmtuError Z :=
  match c with
  | CLearn a q r p now => learn_from_icmp b le a q r p now
  | CEffective a p now => effective_mtu a p now
  | CExpire now => pmtu_expire now
  | CReset g => _ ← reset_network g; mret 0
  | CClear => _ ← pmtu_clear; mret 0
  | CRejectFlow => _ ← on_table count_rejected; mret 0
  end.

(** Bytes are bytes, the MTU of the interface is at least [floor], and the clock has
    not run out. *)
Definition pmtu_call_ok (floor : Z) (c : pmtu_call) : Prop :=
  match c with
  | CLearn _ q _ p now => bytes_ok q /\ floor <= p /\ 0 <= now < u64_max
  | CEffective _ _ now | CExpire now => 0 <= now < u64_max
  | _ => True
  end.

Inductive pmtu_reaches (le : bool) (floor : Z) : Z -> state -> Prop :=
| reach_new generation timeout t l :
    0 < timeout <= u64_max -> accounts b rest l [] -> pmtu_new generation timeout = Ok t ->
    pmtu_reaches le floor 0 (t, l)
| reach_call n s c : pmtu_reaches le floor n s -> pmtu_call_ok floor c -> pmtu_reaches le floor (n + 1) (pmtu_do le c s).1.

(** No MTU below the minimum of its family, unless an interface was. *)
Definition at_least (floor : Z) (es : gmap IpAddr PmtuEntry) : Prop :=
  forall a e, es !! a = Some e -> Z.min (minimum_mtu (family a)) floor <= mtu e.

Lemma at_least_mono floor es es' : es' ⊆ es -> at_least floor es -> at_least floor es'.
Proof. intros S L a e E. apply (L a e). by eapply lookup_weaken. Qed.

Lemma spared_subseteq es es' : spared es es' -> es' ⊆ es.
Proof. intros [->|(v & e1 & _ & -> & _)]; [done|]. apply delete_subseteq. Qed.

Lemma expired_subseteq now s s' : expired_to now s s' -> pm_entries s'.1 ⊆ pm_entries s.1.
Proof. intros X. apply map_subseteq_spec. intros a e E. by apply (xt_entries _ _ _ X) in E as [E _]. Qed.

Lemma learn_at_least floor quoted reported platform now s m s' s1 dst es : floor <= platform ->
  learn_ok quoted reported platform now s m s' s1 dst es -> at_least floor (pm_entries s.1) -> at_least floor (pm_entries s'.1).
Proof.
  intros Hp L Hl. pose proof (at_least_mono _ _ _ (expired_subseteq _ _ _ (lo_expired _ _ _ _ _ _ _ _ _ _ L)) Hl) as H1.
  destruct (lo_entry _ _ _ _ _ _ _ _ _ _ L) as (e & -> & Em & _). destruct (lo_value _ _ _ _ _ _ _ _ _ _ L) as (rep & _ & Hr & Ev).
  intros a e1 [[<- <-]|[_ E1]]%lookup_insert_Some.
  - rewrite Em, Ev. destruct (pm_entries s1.1 !! dst) as [e0|] eqn:E0; cbn; [specialize (H1 _ _ E0)|]; lia.
  - eapply H1, lookup_weaken; [exact E1|]. apply spared_subseteq, L.
Qed.

Lemma inv_rejected s : pmtu_inv s -> pmtu_inv (count_rejected s.1, s.2).
Proof. destruct s as [t l]. intros I. apply (inv_table t); [done|by destruct t|done]. Qed.

Lemma learn_failed_inv now s e s' : pmtu_inv s -> learn_failed now s e s' ->
  pmtu_inv s' /\ tq_ids (pm_expiry s'.1) = tq_ids (pm_expiry s.1) /\ pm_entries s'.1 ⊆ pm_entries s.1.
Proof.
  intros I [? |s1 e1 _ X|s1 be s2 _ X I' F N Sp]; [done| |].
  - split_and!; [apply inv_rejected, X|apply X|by apply expired_subseteq in X].
  - split_and!; [done|rewrite N; apply X|]. etrans; [by apply spared_subseteq|by eapply expired_subseteq].
Qed.

(** A call keeps the invariant and the bound, makes at most one timer and never
    panics. *)
Lemma pmtu_do_spec le floor c s :
  pmtu_inv s -> at_least floor (pm_entries s.1) -> pmtu_call_ok floor c -> 0 <= tq_ids (pm_expiry s.1) < u64_max ->
  let good s' := pmtu_inv s' /\ at_least floor (pm_entries s'.1) /\ 0 <= tq_ids (pm_expiry s'.1) <= tq_ids (pm_expiry s.1) + 1 in
  wp (pmtu_do le c) s (fun _ => good) (fun _ => good).
Proof.
  intros I Hl Hc Hi. cbv zeta.
  assert (forall now s', expired_to now s s' -> pmtu_inv s' /\ at_least floor (pm_entries s'.1) /\
    0 <= tq_ids (pm_expiry s'.1) <= tq_ids (pm_expiry s.1) + 1) as Ex.
  { intros now s' X. split_and!; [apply X|eapply at_least_mono; [by eapply expired_subseteq|done]|rewrite (xt_ids _ _ _ X); lia..]. }
  assert (forall s', pm_entries s'.1 = ∅ -> at_least floor (pm_entries s'.1)) as Em by (intros s' -> a e; by rewrite lookup_empty).
  destruct c as [a q r p now|a p now|now|g| |]; cbn [pmtu_do pmtu_call_ok] in *.
  - destruct Hc as (B & Hp & Hn). eapply wp_mono; [by apply learn_spec; [..|lia]| |].
    + intros m s' (s1 & dst & es & _ & L). split; [apply L|]. split; [by eapply learn_at_least|].
      rewrite (lo_ids _ _ _ _ _ _ _ _ _ _ L), (xt_ids _ _ _ (lo_expired _ _ _ _ _ _ _ _ _ _ L)). lia.
    + intros e s' F. destruct (learn_failed_inv _ _ _ _ I F) as (I' & -> & Sub). split_and!; [done|by eapply at_least_mono|lia..].
  - eapply wp_mono; [by apply effective_mtu_spec|intros m s' (_ & X & _); by apply (Ex now)|intros e s' (_ & _ & ->); split_and!; [done..|lia|lia]].
  - eapply wp_mono; [by apply pmtu_expire_spec|intros m s' (_ & X); by apply (Ex now)|intros e s' (_ & _ & ->); split_and!; [done..|lia|lia]].
  - wp_step. eapply wp_mono; [apply (clear_spec g 0 s I); unfold u64_max; lia| |done].
    intros _ s' (I' & E & _ & N). wp_step. split_and!; [done|by apply Em|lia..].
  - wp_step. eapply wp_mono; [apply (clear_all_spec s I)| |done]. intros _ s' (I' & E & _ & N). wp_step. split_and!; [done|by apply Em|lia..].
  - unfold on_table. repeat wp_step. split_and!; [by apply inv_rejected|done|cbn; lia..].
Qed.

Lemma reaches_inv le floor n s : pmtu_reaches le floor n s -> n < u64_max ->
  pmtu_inv s /\ at_least floor (pm_entries s.1) /\ 0 <= tq_ids (pm_expiry s.1) <= n.
Proof.
  induction 1 as [generation timeout t l Ht A E|n s c R IH Hc]; intros Hn.
  - destruct (pmtu_new_spec generation timeout l Ht A) as (t' & E' & I & Ee & N). rewrite E in E'. injection E' as <-.
    split; [done|]. cbn. rewrite Ee. split; [intros a e; by rewrite lookup_empty|lia].
  - destruct IH as (I & Hl & Hi); [lia|]. pose proof (pmtu_do_spec le floor c s I Hl Hc ltac:(lia)) as S. unfold wp in S.
    destruct (pmtu_do le c s) as [s' [r|e| |]]; [..|done|done]; cbn; (split_and!; [apply S|apply S|lia..]).
Qed.

(** C29: After any sequence of calls of the path-MTU table, fewer than 2^64 of
    them, every entry has exactly one timer, at its expiry rounded up to the
    tick, and exactly one eviction key; no MTU is below the minimum of its family
    or, where the interface has been narrower than that, the smallest MTU of the
    interface; and the ledger is what the rest of the process holds plus the leases
    of the entries.  The next call does not panic, and clearing the table gives the
    ledger back exactly. *)
Theorem pmtu_table_invariant (le : bool) (floor n : Z) (s : state) :
  pmtu_reaches le floor n s -> n < u64_max ->
  pmtu_inv s /\
  (forall a e, pm_entries s.1 !! a = Some e -> Z.min (minimum_mtu (family a)) floor <= mtu e) /\
  (forall c, pmtu_call_ok floor c -> (pmtu_do le c s).2 <> Panic /\ (pmtu_do le c s).2 <> OutOfFuel) /\
  exists s', pmtu_clear s = (s', Ok tt) /\ pm_entries s'.1 = ∅ /\
    l_total s'.2 = h_total rest /\ forall k, l_used s'.2 k = h_used rest k.
Proof.
  intros R Hn. destruct (reaches_inv le floor n s R Hn) as (I & Hl & Hi). split; [done|]. split; [done|]. split.
  - intros c Hc. pose proof (pmtu_do_spec le floor c s I Hl Hc ltac:(lia)) as S. unfold wp in S.
    by destruct (pmtu_do le c s) as [s' [r|e| |]].
  - pose proof (clear_all_spec s I) as C. unfold wp in C. destruct (pmtu_clear s) as [s' [[]|e| |]]; [|done..].
    destruct C as (_ & E & [_ Ht Hu _ _ _] & _). exists s'. split_and!; [done|done| |].
    + rewrite Ht, zsum_nil. lia.
    + intros k. rewrite Hu, zsum_nil. lia.
Qed.

(** What the table gave before, at the time of the call. *)
Lemma learned_before quoted reported platform now s m s' s1 dst es : pmtu_inv s -> 0 <= now < u64_max ->
  learn_ok quoted reported platform now s m s' s1 dst es ->
  (effective_mtu dst platform now s).2 = Ok (current_mtu platform (pm_entries s1.1 !! dst)).
Proof.
  intros I Hn L. rewrite effective_value by (done || apply L). f_equal.
  pose proof (lo_expired _ _ _ _ _ _ _ _ _ _ L) as X. rewrite <- (expired_cached _ _ _ _ _ X). unfold cached, current_mtu.
  destruct (pm_entries s1.1 !! dst) as [e|] eqn:E; [|done].
  apply (xt_entries _ _ _ X) in E as [_ Ha]. by rewrite (proj2 (Z.ltb_lt _ _) Ha).
Qed.

(** C30: When an ICMP report is learned, the quote was sent by the address the
    ICMP message came to.  The MTU that results is the smaller of what is reported,
    which is at least the minimum of the family, and what the table gave before,
    which is at most the interface's.  An IPv4 report of 0 stands for the plateau
    inferred from the quote.  The table then answers with it until the timeout has
    passed, and with the interface's MTU a tick later at the latest.  At most one
    other destination is forgotten. *)
Theorem learned_mtu_lifetime (le : bool) (icmp_destination : IpAddr) (quoted : list Z)
    (reported platform now m : Z) (s s' : state) :
  pmtu_inv s -> bytes_ok quoted -> 0 <= now < u64_max -> tq_ids (pm_expiry s.1) < u64_max ->
  learn_from_icmp b le icmp_destination quoted reported platform now s = (s', Ok m) ->
  exists dst before rep, quoted_endpoints le quoted = Ok (family dst, icmp_destination, dst) /\
    (effective_mtu dst platform now s).2 = Ok before /\ before <= platform /\
    report_of quoted (family dst) reported before = Some rep /\ minimum_mtu (family dst) <= rep /\ m = Z.min rep before /\
    (forall platform' t : Z, now <= t < sat_add now (pm_timeout_ms s.1) ->
       (effective_mtu dst platform' t s').2 = Ok (Z.min m platform')) /\
    (forall platform' t : Z, sat_add now (pm_timeout_ms s.1) + pm_expiry_tick_ms s.1 <= t < u64_max ->
       (effective_mtu dst platform' t s').2 = Ok platform') /\
    exists victim, forall a platform', a <> dst -> victim <> Some a ->
      (effective_mtu a platform' now s').2 = (effective_mtu a platform' now s).2.
Proof.
  intros I B Hn Hi E. pose proof (learn_spec le icmp_destination quoted reported platform now s I B Hn Hi) as S.
  unfold wp in S. rewrite E in S. destruct S as (s1 & dst & es & Q & L). pose proof (learned_before _ _ _ _ _ _ _ _ _ _ I Hn L) as Eb.
  destruct L as [Hc X I' [_ Ft Fk Fl _] _ Sp (e & Es & Em & Ex) (rep & Er & Hr & Ev)].
  exists dst, (current_mtu platform (pm_entries s1.1 !! dst)), rep. split; [done|]. split; [done|]. split; [destruct (pm_entries s1.1 !! dst); cbn; lia|].
  split; [done|]. split; [done|]. split; [done|]. clear Ev Er Eb. subst m.
  pose proof (tq_range _ (pi_queue _ I)) as [Rk _]. rewrite (pi_queue_tick _ I) in Rk.
  rewrite (xt_tick _ _ _ X) in Fk. rewrite (xt_now _ _ _ X) in Fl.
  assert (pm_entries s'.1 !! dst = Some e) as Ed by (rewrite Es; apply lookup_insert_eq).
  assert (now < sat_add now (pm_timeout_ms s.1) <= u64_max) as Hx
    by (pose proof (pi_timeout _ I); unfold sat_add; lia).
  split_and!.
  - intros p u Hu. rewrite effective_value by (done || lia). rewrite Ed, Fk. cbn [cached].
    rewrite Ex, alive_until by lia. done.
  - intros p u Hu. rewrite effective_value by (done || lia). rewrite Ed, Fk. cbn [cached].
    rewrite Ex, dead_after by lia. done.
  - destruct (spared_others _ _ Sp) as [v Hv]. exists v. intros a p Hne Hva.
    rewrite !effective_value by (done || lia). rewrite Fk, Es, lookup_insert_ne, Hv by done.
    by rewrite (expired_cached _ _ _ _ _ X).
Qed.

(** A report that is not learned leaves no partial entry behind: the table
    still satisfies its invariant, so no lease is held without an entry and no
    timer runs without one; every entry left was there before; only a ledger
    that refuses can cost an entry that was still alive, and then at most one.
    A clock that went backwards changes nothing at all. *)
Lemma learn_error_leaves_no_entry (le : bool) (icmp_destination : IpAddr) (quoted : list Z)
    (reported platform now : Z) (e : PmtuError) (s s' : state) :
  pmtu_inv s -> bytes_ok quoted -> 0 <= now < u64_max ->
  tq_ids (pm_expiry s.1) < u64_max ->
  learn_from_icmp b le icmp_destination quoted reported platform now s = (s', Err e) ->
  pmtu_inv s' /\ pm_entries s'.1 ⊆ pm_entries s.1 /\
  (now < pm_last_now_ms s.1 -> e = PmtuClockWentBackwards /\ s' = s) /\
  (pm_last_now_ms s.1 <= now -> exists victim, ((forall be, e <> PmtuBudget be) -> victim = None) /\
     forall a entry, victim <> Some a ->
       pm_entries s'.1 !! a = Some entry <->
       pm_entries s.1 !! a = Some entry /\ alive (pm_expiry_tick_ms s.1) now entry).
Proof.
  intros I B Hn Hi E. pose proof (learn_spec le icmp_destination quoted reported platform now s I B Hn Hi) as S.
  unfold wp in S. rewrite E in S. destruct (learn_failed_inv _ _ _ _ I S) as (I' & _ & Sub). split; [done|]. split; [done|]. clear Sub.
  destruct S as [Hlt|s1 e1 Hc X|s1 be s2 Hc X _ _ _ Sp].
  - split; [done|lia].
  - split; [lia|]. intros _. exists None. split; [done|].
    intros a entry _. apply (xt_entries _ _ _ X).
  - split; [lia|].
    + intros _. destruct (spared_others _ _ Sp) as [v Hv]. exists v. split; [naive_solver|].
      intros a entry Ha. rewrite (Hv a Ha). apply (xt_entries _ _ _ X).
Qed.
End Invariant.

(** ** The theorems on the timer wheel *)
(** An IPv4 header of 192.0.2.1 to 198.51.100.7, as a router quotes it. *)
Definition sample_quote : list Z := [69; 0; 5; 220; 0; 0; 64; 0; 64; 17; 72; 213; 192; 0; 2; 1; 198; 51; 100; 7].
Definition sample_table : @PmtuTable (TimerWheel IpAddr) :=
  match pmtu_new 1 600000 with Ok t => t | _ => mkPmtuTable 0 0 0 0 (mkWheel 1 0 0 ∅ ∅ ∅) ∅ ∅ (mkPmtuStats 0 0 0 0 0 0) end.
Definition sample_learn (reported : Z) :=
  learn_from_icmp (budget Mobile) true (V4 [192; 0; 2; 1]) sample_quote reported 1500 5000 (sample_table, ledger_new).

Lemma sample_inv : pmtu_inv (budget Mobile) nothing_held (sample_table, ledger_new) /\
  pmtu_new 1 600000 = Ok sample_table.
Proof.
  destruct (pmtu_new_spec (W := TimerWheel IpAddr) (budget Mobile) nothing_held 1 600000 ledger_new)
    as (t & E & I & _); [unfold u64_max; lia|apply nothing_accounted|].
  assert (sample_table = t) as -> by (unfold sample_table; by rewrite E). done.
Qed.

Lemma sample_call_ok reported : pmtu_call_ok 576 (CLearn (V4 [192; 0; 2; 1]) sample_quote reported 1500 5000).
Proof. split; [|unfold u64_max; lia]. repeat constructor; discriminate. Qed.

Lemma sample_learn_call reported : sample_learn reported =
  pmtu_do (budget Mobile) true (CLearn (V4 [192; 0; 2; 1]) sample_quote reported 1500 5000) (sample_table, ledger_new).
Proof. unfold sample_learn, pmtu_do. reflexivity. Qed.

Lemma pmtu_table_invariant_witness : size (pm_entries (sample_learn 1400).1.1) = 1%nat /\
  exists s', pmtu_clear (sample_learn 1400).1 = (s', Ok tt) /\
  pm_entries s'.1 = ∅ /\ l_total s'.2 = 0 /\ forall k, l_used s'.2 k = 0.
Proof.
  split; [vm_compute; reflexivity|].
  apply (pmtu_table_invariant (W := TimerWheel IpAddr) (budget Mobile) nothing_held mobile_range true 576 (0 + 1));
    [|unfold u64_max; lia].
  rewrite sample_learn_call. apply reach_call.
  - eapply (reach_new _ _ true 576 1 600000); [unfold u64_max; lia|apply nothing_accounted|apply sample_inv].
  - apply sample_call_ok.
Defined.

Lemma learned_mtu_lifetime_witness :
  (effective_mtu (V4 [198; 51; 100; 7]) 1500 604999 (sample_learn 1400).1).2 = Ok 1400 /\
  (effective_mtu (V4 [198; 51; 100; 7]) 1500 605010 (sample_learn 1400).1).2 = Ok 1500.
Proof.
  assert (sample_learn 1400 = ((sample_learn 1400).1, Ok 1400)) as E
    by (apply pair_result; vm_compute; reflexivity).
  destruct (learned_mtu_lifetime (W := TimerWheel IpAddr) (budget Mobile) nothing_held mobile_range true
    (V4 [192; 0; 2; 1]) sample_quote 1400 1500 5000 1400 (sample_table, ledger_new) (sample_learn 1400).1
    (proj1 sample_inv) (proj1 (sample_call_ok 1400)) ltac:(unfold u64_max; lia) ltac:(vm_compute; reflexivity) E)
    as (dst & before & rep & Q & _ & _ & _ & _ & _ & L & D & _).
  assert (quoted_endpoints true sample_quote = Ok (IpV4, V4 [192; 0; 2; 1], V4 [198; 51; 100; 7])) as Q'
    by (vm_compute; reflexivity).
  rewrite Q' in Q. injection Q as _ <-. split.
  - apply (L 1500 604999). vm_compute. split; [discriminate|reflexivity].
  - apply (D 1500 605010). vm_compute. split; [discriminate|reflexivity].
Defined.

(** An IPv6 report that arrives while the interface is narrower than 1280 bytes: what
    is stored is below the minimum of the family, and stays so when the interface
    is widened. *)
Definition sample_address6 (last : Z) : IpAddr := V6 ([32; 1; 13; 184] ++ repeat 0 11 ++ [last]).
Definition sample_quote6 : list Z := [96; 0; 0; 0; 0; 0; 17; 64] ++ octets (sample_address6 1) ++ octets (sample_address6 2).
Definition narrow_learn :=
  learn_from_icmp (budget Mobile) true (sample_address6 1) sample_quote6 1280 576 5000 (sample_table, ledger_new).

Example narrow_interface_mtu_remains :
  narrow_learn.2 = Ok 576 /\ (effective_mtu (sample_address6 2) 1500 6000 narrow_learn.1).2 = Ok 576.
Proof. split; vm_compute; reflexivity. Qed.
