(* ===== verification/IcmpPmtu.v ===== *)
(** Path MTU discovery across two stacks: what [emit_icmp_error] of
    [sail-netstack/src/ip/icmp.rs] reports, [learn_from_icmp] of [ip/pmtu.rs]
    takes, for the destination of the packet the report is about. *)
From S2P Require Import Prelude StateMonad Checksum IpWire Icmp IcmpTheorems Budget Timer TimerRefine TimerInterface Leases.
From S2P Require Import ExpiryIndex Pmtu PmtuTheorems.
From stdpp Require Import list sorting gmap.
#[local] Open Scope Z_scope.

(** ** The quote names the ends of the packet *)
Lemma quoted4 le le' packet ip n : bytes_ok packet -> parse_ip_packet le packet true = Ok ip -> version ip = IpV4 ->
  idx_be16 (E := WireError) packet 2 = Ok n ->
  quoted_endpoints le' (sub packet 0 (Z.min n 548)) = Ok (IpV4, source ip, destination ip).
Proof.
  intros B H Hv En. unfold parse_ip_packet in H. ok_step H. rename x into b0. unfold ok_or in Hx.
  destruct (get packet 0) as [b|] eqn:G0; [|done]. injection Hx as ->.
  ok_step H; [|ok_step H; [unfold parse_ipv6 in H; repeat ok_step H; apply chain_ends in H as [? _]; congruence|done]].
  apply Z.eqb_eq in Hb as H4. clear Hb. unfold parse_ipv4 in H. ok_step H; [done|]. apply Z.ltb_ge in Hb. ok_step H.
  rewrite (idx_get _ _ _ G0) in Hx. injection Hx as <-. ok_step H; [done|]. apply orb_false_iff in Hb0 as [H20%Z.ltb_ge Hl%Z.ltb_ge].
  ok_step H. rewrite En in Hx. injection Hx as <-. ok_step H; [done|]. apply orb_false_iff in Hb0 as [Hn%Z.ltb_ge Hn2%Z.ltb_ge].
  ok_step H. ok_step H. ok_step H. ok_step Hx1. apply slice_inv in Hx2 as (-> & _). ok_step Hx1. ok_step Hx1. subst x1.
  rename x2 into sum, Hx2 into Hsum. ok_step H; [done|]. apply negb_false_iff, Z.eqb_eq in Hb0 as ->.
  assert (source ip = V4 (sub packet 12 16) /\ destination ip = V4 (sub packet 16 20)) as [-> ->].
  { cbv zeta in H. repeat ok_step H; try done. subst ip. cbn. apply slice_inv in Hx4 as [-> _], Hx5 as [-> _]. done. }
  set (h := Z.land b0 15 * 4) in *. pose proof (land_15 b0) as H15.
  set (q := sub packet 0 (Z.min n 548)). assert (len q = Z.min n 548) as Lq by (unfold q; rewrite len_sub; lia).
  assert (forall i, 0 <= i < 20 -> get q i = get packet i) as G by (intros i Hi; unfold q; rewrite get_sub by lia; done).
  assert (forall a c, 0 <= a <= c -> c <= h -> sub q a c = sub packet a c) as Es.
  { intros a c Ha Hc. apply get_ext; rewrite !len_sub by lia; [done|]. intros i Hi. unfold q. by rewrite !get_sub by lia. }
  assert (idx_be16 (E := PmtuError) q 2 = Ok n) as En'
    by (apply (idx_be16_at (E := WireError) q packet 2 2); [intros d Hd; apply G; lia|done]).
  assert (checksum_sum (E := PmtuError) le' (sub q 0 h) 0 = Ok 65535) as Ck.
  { rewrite Es by lia. assert (bytes_ok (sub packet 0 h)) as Bh by auto with bytes.
    rewrite checksum_sum_ones in Hsum by (done || width || unfold short_enough; rewrite len_sub; lia).
    rewrite checksum_sum_ones by (done || width || unfold short_enough; rewrite len_sub; lia). congruence. }
  unfold quoted_endpoints. rewrite G, G0 by lia. cbn [ok_or mbind outcome_bind]. rewrite H4, Z.eqb_refl, (proj2 (Z.leb_le 20 _)) by lia.
  cbn [andb]. assert (idx (E := PmtuError) q 0 = Ok b0) as -> by (apply idx_get; by rewrite G by lia). cbn [mbind outcome_bind]. fold h.
  rewrite (proj2 (Z.ltb_ge h 20)), (proj2 (Z.ltb_ge (len q) h)) by lia. cbn [orb]. rewrite En'. cbn [mbind outcome_bind].
  rewrite (proj2 (Z.ltb_ge n h)) by lia. rewrite (slice_Ok q 0 h) by lia. cbn [mbind outcome_bind]. rewrite Ck. cbn [mbind outcome_bind].
  cbn [Z.eqb Pos.eqb negb]. rewrite !slice_Ok by lia. cbn [mbind outcome_bind]. by rewrite !Es by lia.
Qed.

Lemma quoted6 le le' packet ip n : bytes_ok packet -> parse_ip_packet le packet true = Ok ip -> version ip = IpV6 ->
  idx_be16 (E := WireError) packet 4 = Ok n ->
  quoted_endpoints le' (sub packet 0 (Z.min (40 + n) 1232)) = Ok (IpV6, source ip, destination ip).
Proof.
  intros B H Hv En. destruct (parse_v6_inv le packet ip H Hv) as (n' & nh & En' & L40 & Hn & _ & Hc).
  rewrite En in En'. injection En' as <-. destruct (version_nibble _ _ _ _ H) as (b0 & G0 & [H6 _]). specialize (H6 Hv).
  destruct (chain_ends _ _ _ _ _ _ _ _ _ _ _ _ Hc) as (_ & -> & ->).
  assert (runs (idx_be16 (E := WireError) packet 4) is_u16) as R by (apply runs_idx_be16; try done; lia). rewrite En in R. cbn in R.
  set (q := sub packet 0 (Z.min (40 + n) 1232)). assert (len q = Z.min (40 + n) 1232) as Lq by (unfold q; rewrite len_sub; width).
  assert (40 <= len q) as Lq40 by width.
  assert (forall a c, 0 <= a <= c -> c <= 40 -> sub q a c = sub packet a c) as Es.
  { intros a c Ha Hc'. apply get_ext; rewrite !len_sub by lia; [done|]. intros i Hi. unfold q. by rewrite !get_sub by width. }
  unfold quoted_endpoints. assert (get q 0 = Some b0) as -> by (unfold q; by rewrite get_sub by width).
  cbn [ok_or mbind outcome_bind]. rewrite H6. cbn [Z.eqb Pos.eqb andb]. rewrite (proj2 (Z.leb_le 40 _)) by lia.
  rewrite !slice_Ok by lia. cbn [mbind outcome_bind]. by rewrite !Es by lia.
Qed.

(** ** A report that can be used is learned *)
Section Learn.
Context {W : Type} `{TimerQueueLaws IpAddr W} (b : ResourceBudget) (rest : holdings) (Hb : budget_range b).
Abbreviation state := (@PmtuTable W * ResourceLedger)%type.

Lemma learn_accepts le icmp_destination quoted dst reported platform now (s : state) :
  pmtu_inv b rest s -> quoted_endpoints le quoted = Ok (family dst, icmp_destination, dst) ->
  is_unspecified dst || is_multicast dst = false -> minimum_mtu (family dst) <= reported ->
  pm_last_now_ms s.1 <= now -> 0 <= now < u64_max -> tq_ids (pm_expiry s.1) < u64_max ->
  wp (learn_from_icmp b le icmp_destination quoted reported platform now) s
    (fun _ _ => True) (fun e _ => exists be, e = PmtuBudget be).
Proof.
  intros I Q Hd Hr Hc Hn Hi. unfold learn_from_icmp. wp_step.
  eapply wp_mono; [by apply (pmtu_expire_spec b rest Hb)| |intros e s' (Hlt & _); lia].
  intros _ s1 [_ X]. assert (ready b rest now s1) as R by (by eapply expired_ready).
  assert (68 <= minimum_mtu (family dst)) as H68 by (by destruct dst).
  rewrite Q. rewrite bool_decide_true by done. cbn [negb]. rewrite Hd. do 2 wp_step.
  rewrite (proj2 (Z.eqb_neq reported 0)), andb_false_r by lia. rewrite (proj2 (Z.ltb_ge reported _)) by lia.
  rewrite <- (xt_ids _ _ _ _ _ X) in Hi.
  destruct (pm_entries s1.1 !! dst) as [e|] eqn:E.
  - eapply wp_mono; [by apply (refresh_entry_spec b rest now dst e)|done..].
  - eapply wp_mono; [by apply (insert_entry_spec b rest Hb now dst)|done|]. intros e s' ((be & ->) & _). by exists be.
Qed.

(** What is learned is the smaller of the report and what was in use, and in use
    from now on. *)
Lemma learned_value le icmp_destination quoted dst reported platform now m (s s' : state) :
  pmtu_inv b rest s -> bytes_ok quoted -> quoted_endpoints le quoted = Ok (family dst, icmp_destination, dst) ->
  minimum_mtu (family dst) <= reported -> 0 <= now < u64_max -> tq_ids (pm_expiry s.1) < u64_max ->
  learn_from_icmp b le icmp_destination quoted reported platform now s = (s', Ok m) ->
  exists before, (effective_mtu dst platform now s).2 = Ok before /\ before <= platform /\ m = Z.min reported before /\
    (effective_mtu dst platform now s').2 = Ok m.
Proof.
  intros I B Q Hr Hn Hi E. pose proof (learn_spec b rest Hb le icmp_destination quoted reported platform now s I B Hn Hi) as S.
  unfold wp in S. rewrite E in S. destruct S as (s1 & dst' & es & Q' & L). rewrite Q in Q'. injection Q' as _ <-.
  pose proof (learned_before b rest Hb _ _ _ _ _ _ _ _ _ _ I Hn L) as Eb.
  destruct L as [Hc X I' [_ Ft Fk Fl _] _ Sp (e & Es & Em & Ex) (rep & Er & _ & Ev)].
  assert (68 <= minimum_mtu (family dst)) as H68 by (by destruct dst).
  unfold report_of in Er. rewrite (proj2 (Z.eqb_neq reported 0)), andb_false_r in Er by lia. injection Er as <-.
  exists (current_mtu platform (pm_entries s1.1 !! dst)). assert (current_mtu platform (pm_entries s1.1 !! dst) <= platform) as Hle
    by (destruct (pm_entries s1.1 !! dst); cbn; lia).
  split_and!; [done..|]. pose proof (tq_range _ (pi_queue _ _ _ I)) as [Rk _]. rewrite (pi_queue_tick _ _ _ I) in Rk.
  pose proof (pi_timeout _ _ _ I) as Rt. rewrite (xt_tick _ _ _ _ _ X) in Fk. rewrite (xt_now _ _ _ _ _ X) in Fl.
  rewrite (effective_value b rest Hb) by (done || lia). rewrite Es, lookup_insert_eq, Fk. cbn [cached].
  rewrite Ex, alive_until; [f_equal; lia|lia|unfold sat_add; lia].
Qed.

(** C27: Path MTU discovery works across two stacks.  When one stack reports an MTU
    for a packet, the receiver, of any byte order, reads the MTU (capped at 16
    bits for IPv4) and the quote.  If the MTU is at least the minimum of the family
    and the clock does not run backwards, its table then has for the packet's
    destination exactly the smaller of the reported MTU and what it gave before, and
    answers with it at once: only the ledger can refuse. *)
Theorem packet_too_big_teaches_sender (le le' : bool) (packet wire : list Z) (mtu hop : Z) :
  bytes_ok packet -> is_u32 mtu -> is_u8 hop -> emit_icmp_error le packet (EPacketTooBig mtu) hop = Ok wire ->
  exists ip ip' quote reported, parse_ip_packet le packet true = Ok ip /\ parse_ip_packet le' wire true = Ok ip' /\
    parse_icmp_packet le' ip' true = Ok (mkParsedIcmp (PacketTooBig reported) quote) /\
    reported = match version ip with IpV4 => Z.min mtu 65535 | IpV6 => mtu end /\
    forall (s : state) (platform now : Z), pmtu_inv b rest s -> minimum_mtu (version ip) <= reported ->
      pm_last_now_ms s.1 <= now -> 0 <= now < u64_max -> tq_ids (pm_expiry s.1) < u64_max ->
      exists s', (exists before, learn_from_icmp b le' (destination ip') quote reported platform now s = (s', Ok (Z.min reported before)) /\
                    (effective_mtu (destination ip) platform now s).2 = Ok before /\ before <= platform /\
                    (effective_mtu (destination ip) platform now s').2 = Ok (Z.min reported before)) \/
                 (exists be, learn_from_icmp b le' (destination ip') quote reported platform now s = (s', Err (PmtuBudget be))).
Proof.
  intros B Hm Hh Ew. pose proof (emitted_only_if le packet (EPacketTooBig mtu) hop wire Ew) as (ip & Ep & Es).
  destruct (error_emitted le le' packet (EPacketTooBig mtu) hop ip B Hm Hh Ep Es)
    as (wire' & n & pointer & body & Ew' & _ & En & _ & _ & P1 & _ & P3).
  rewrite Ew in Ew'. injection Ew' as <-. cbn [parse_invoking] in Ep.
  destruct (parsed_family le packet true ip B Ep) as (_ & _ & Fs & Fd & _ & _).
  set (m' := match version ip with IpV4 => Z.min mtu 65535 | IpV6 => mtu end).
  exists ip, (icmp_packet (destination ip) (source ip) hop body), (sub packet 0 (Z.min n (max_quote (version ip)))), m'.
  split; [done|]. split; [exact P1|]. split; [rewrite P3; unfold m'; by destruct (version ip)|]. split; [done|].
  intros s platform now I Hr Hc Hn Hi.
  assert (quoted_endpoints le' (sub packet 0 (Z.min n (max_quote (version ip)))) = Ok (family (destination ip), source ip, destination ip)) as Q.
  { rewrite Fd. destruct (version ip) eqn:Hv; [by apply (quoted4 le)|]. cbn [invoking_len] in En. ok_step En. ok_step En. subst n. by apply (quoted6 le). }
  assert (is_unspecified (destination ip) || is_multicast (destination ip) = false) as Hd.
  { unfold suppressed, invalid_error_address in Es. destruct (is_unspecified _ || is_multicast _); [|done].
    cbn [orb] in Es. rewrite orb_true_r in Es. discriminate Es. }
  rewrite <- Fd in Hr.
  pose proof (learn_accepts le' (source ip) _ (destination ip) m' platform now s I Q Hd Hr Hc Hn Hi) as L. unfold wp in L.
  cbn [IpWire.destination icmp_packet].
  destruct (learn_from_icmp b le' (source ip) _ m' platform now s) as [s' [m|e| |]] eqn:El; [|destruct L as [be ->]|done..].
  - exists s'. left. destruct (learned_value le' (source ip) _ (destination ip) m' platform now m s s' I (bytes_ok_sub _ _ _ B) Q Hr Hn Hi El)
      as (before & E1 & E2 & -> & E3). by exists before.
  - exists s'. right. by exists be.
Qed.
End Learn.

(** ** The theorem on the timer wheel *)
Lemma packet_too_big_teaches_sender_witness : exists ip' quote s', parse_ip_packet false sample_error true = Ok ip' /\
  ((learn_from_icmp (W := TimerWheel IpAddr) (budget Mobile) false (destination ip') quote 1400 1500 5000 (sample_table, ledger_new) = (s', Ok 1400) /\
      (effective_mtu (V4 [10; 0; 0; 2]) 1500 5000 s').2 = Ok 1400) \/
   (exists be, learn_from_icmp (W := TimerWheel IpAddr) (budget Mobile) false (destination ip') quote 1400 1500 5000 (sample_table, ledger_new) = (s', Err (PmtuBudget be)))).
Proof.
  destruct (packet_too_big_teaches_sender (W := TimerWheel IpAddr) (budget Mobile) nothing_held mobile_range true false sample_datagram sample_error 1400 64)
    as (ip & ip' & quote & reported & E1 & E2 & E3 & E4 & L).
  - repeat constructor; discriminate.
  - unfold is_u32. lia.
  - unfold is_u8. lia.
  - vm_compute. reflexivity.
  - vm_compute in E1. injection E1 as <-. cbn [version destination] in *. subst reported.
    destruct (L (sample_table, ledger_new) 1500 5000) as [s' [(before & D1 & D2 & _ & D3)|D]].
    + apply sample_inv.
    + vm_compute. discriminate.
    + vm_compute. discriminate.
    + unfold u64_max. lia.
    + vm_compute. reflexivity.
    + vm_compute in D2. injection D2 as <-. exists ip', quote, s'. split; [exact E2|]. left. exact (conj D1 D3).
    + exists ip', quote, s'. split; [exact E2|]. right. exact D.
Defined.
