(* ===== verification/Fragmentation.v ===== *)
(** Source fragmentation, [sail-netstack/src/ip/fragmentation.rs]: the fragments
    of a locally made IPv4 or IPv6 packet that exceeds the MTU, with the option
    copying of IPv4 and the place of the Fragment header of IPv6. *)
From S2P Require Import Prelude Checksum IpWire.
From stdpp Require Import list.
#[local] Open Scope Z_scope.

Definition aligned_chunk (mtu header_len : Z) : outcome WireError Z :=
  available ← ok_or (checked_sub mtu header_len) (Malformed "MTU smaller than IP header");
  let chunk := available / 8 * 8 in
  if chunk =? 0 then Err (Malformed "MTU cannot carry an IP fragment") else mret chunk.

(** ** IPv4 *)
Fixpoint copied_options_loop (fuel : nat) (options : list Z) (offset : Z) (copied : list Z)
    : outcome WireError (list Z) :=
  match fuel with
  | O => OutOfFuel
  | S fuel =>
    if offset <? len options then
      kind ← idx options offset;
      if kind =? 0 then mret copied
      else if kind =? 1 then copied_options_loop fuel options (offset + 1) copied
      else
        length ← ok_or (get options (offset + 1)) (Malformed "truncated IPv4 option");
        if (length <? 2) || (len options <? offset + length) then Err (Malformed "invalid IPv4 option length")
        else
          copied ← (if negb (Z.land kind 0x80 =? 0)
                    then option ← slice options offset (offset + length); mret (copied ++ option)
                    else mret copied);
          copied_options_loop fuel options (offset + length) copied
    else mret copied
  end.

(** [resize(len.next_multiple_of(4), 0)]. *)
Definition pad4 (l : list Z) : list Z := l ++ zeros (div_ceil (len l) 4 * 4 - len l).

Definition copied_ipv4_options (options : list Z) : outcome WireError (list Z) :=
  copied ← copied_options_loop (S (length options)) options 0 [];
  let copied := pad4 copied in
  if 40 <? len copied then Err (Malformed "copied IPv4 options exceed header") else mret copied.

(** The fields of a fragment written over its copied header: identification,
    length, offset and flag, checksum. *)
Definition seal_ipv4_fragment (le : bool) (fragment : list Z) (current_header_len identification offset : Z) (more : bool)
    : outcome WireError (list Z) :=
  fragment ← write_at fragment 4 (drop 2 (to_be32 identification));
  fragment_len ← ok_or (try_u16 (len fragment)) (Malformed "IPv4 fragment too large");
  fragment ← write_at fragment 2 (to_be16 fragment_len);
  bits ← ok_or (try_u16 (offset / 8)) (Malformed "IPv4 fragment offset overflow");
  let bits := if more then Z.lor bits 0x2000 else bits in
  fragment ← write_at fragment 6 (to_be16 bits);
  fragment ← write_at fragment 10 [0; 0];
  header ← slice fragment 0 current_header_len;
  sum ← checksum_sum le header 0;
  write_at fragment 10 (to_be16 (finalize_checksum sum)).

(** One turn of the loop of [fragment_ipv4]: the fragment at [offset]. *)
Definition ipv4_fragment (le : bool) (packet copied_options payload : list Z) (header_len later_header_len : Z)
    (identification offset amount : Z) : outcome WireError (list Z) :=
  let first := offset =? 0 in
  chunk ← slice payload offset (offset + amount);
  let current_header_len := if first then header_len else later_header_len in
  fragment ← (if first then slice packet 0 header_len
              else
                header ← slice packet 0 20;
                ihl ← expect (try_u8 (later_header_len / 4));
                write_at (header ++ copied_options) 0 [Z.lor 0x40 ihl]);
  seal_ipv4_fragment le (fragment ++ chunk) current_header_len identification offset
    (offset + amount <? len payload).

Fixpoint fragment_ipv4_loop (fuel : nat) (le : bool) (packet copied_options payload : list Z)
    (header_len later_header_len first_chunk_len later_chunk_len identification offset : Z)
    (fragments : list (list Z)) : outcome WireError (list (list Z)) :=
  match fuel with
  | O => OutOfFuel
  | S fuel =>
    if offset <? len payload then
      let capacity := if offset =? 0 then first_chunk_len else later_chunk_len in
      let remaining := usub (len payload) offset in
      let amount := Z.min remaining capacity in
      fragment ← ipv4_fragment le packet copied_options payload header_len later_header_len identification offset amount;
      offset ← ok_or (checked_add offset amount) (Malformed "IPv4 fragment offset overflow");
      fragment_ipv4_loop fuel le packet copied_options payload header_len later_header_len first_chunk_len
        later_chunk_len identification offset (fragments ++ [fragment])
    else mret fragments
  end.

Definition fragment_ipv4 (le : bool) (packet : list Z) (mtu identification : Z) : outcome WireError (list (list Z)) :=
  b0 ← idx packet 0;
  let header_len := Z.land b0 0x0f * 4 in
  options ← slice packet 20 header_len;
  copied_options ← copied_ipv4_options options;
  let later_header_len := 20 + len copied_options in
  first_chunk_len ← aligned_chunk mtu header_len;
  later_chunk_len ← aligned_chunk mtu later_header_len;
  payload ← slice_from packet header_len;
  fragment_ipv4_loop (S (length payload)) le packet copied_options payload header_len later_header_len
    first_chunk_len later_chunk_len identification 0 [].

(** ** IPv6 *)

(** The walk over the extension headers: what is left of the eight rounds, and
    the (next header, offset, length) records so far. *)
Fixpoint extension_records (rounds : nat) (packet : list Z) (total_len next_header offset : Z)
    (records : list (Z * Z * Z)) : outcome WireError (Z * list (Z * Z * Z)) :=
  match rounds with
  | O => mret (next_header, records)
  | S rounds =>
    let extend length :=
      if total_len <? offset + length then Err Truncated
      else
        next ← idx packet offset;
        extension_records rounds packet total_len next (offset + length) (records ++ [(next_header, offset, length)]) in
    if (next_header =? 0) || (next_header =? 43) || (next_header =? 60) then
      if total_len <? offset + 2 then Err Truncated
      else units ← idx packet (offset + 1); extend ((units + 1) * 8)
    else if next_header =? 51 then
      if total_len <? offset + 2 then Err Truncated
      else units ← idx packet (offset + 1); extend ((units + 2) * 4)
    else if next_header =? 44 then Err (Unsupported "already-fragmented IPv6 packet")
    else mret (next_header, records)
  end.

(** [iter().rposition(..)] and [iter().take_while(..).count()]. *)
Fixpoint rposition {A} (p : A -> bool) (l : list A) : option Z :=
  match l with
  | [] => None
  | x :: l =>
    match rposition p l with
    | Some i => Some (i + 1)
    | None => if p x then Some 0 else None
    end
  end.
Fixpoint take_while_count {A} (p : A -> bool) (l : list A) : Z :=
  match l with
  | x :: l => if p x then 1 + take_while_count p l else 0
  | [] => 0
  end.

Definition ipv6_fragment_insertion (packet : list Z) : outcome WireError (Z * Z * Z) :=
  payload_len ← idx_be16 packet 4;
  total_len ← ok_or (checked_add 40 payload_len) Truncated;
  first ← idx packet 6;
  '(next_header, records) ← extension_records 8 packet total_len first 40 [];
  if is_extension next_header then Err (Unsupported "IPv6 extension chain exceeds limit") else
  let included := match rposition (fun r => r.1.1 =? 43) records with
                  | Some routing => routing + 1
                  | None => take_while_count (fun r => r.1.1 =? 0) records
                  end in
  '(insertion, previous_next_header) ←
    (if included =? 0 then mret (40, 6)
     else r ← idx records (included - 1); mret (r.1.2 + r.2, r.1.2));
  original ← idx packet previous_next_header;
  mret (insertion, previous_next_header, original).

(** [payload.chunks(n)], for [n] not zero. *)
Fixpoint chunks_fuel {A} (fuel n : nat) (l : list A) : list (list A) :=
  match fuel, l with
  | S fuel, _ :: _ => take n l :: chunks_fuel fuel n (drop n l)
  | _, _ => []
  end.
Definition chunks {A} (n : Z) (l : list A) : list (list A) := chunks_fuel (length l) (Z.to_nat n) l.

(** One turn of the loop of [fragment_ipv6]. *)
Definition ipv6_fragment (packet payload chunk : list Z)
    (insertion previous_next_header original_next_header chunk_len identification index : Z)
    : outcome WireError (list Z) :=
  offset ← ok_or (checked_mul index chunk_len) (Malformed "IPv6 fragment offset overflow");
  fragment ← slice packet 0 insertion;
  fragment ← write_at fragment previous_next_header [44];
  payload_len ← ok_or (try_u16 (insertion - 40 + 8 + len chunk)) (Malformed "IPv6 fragment too large");
  fragment ← write_at fragment 4 (to_be16 payload_len);
  bits ← ok_or (try_u16 offset) (Malformed "IPv6 fragment offset overflow");
  let bits := if offset + len chunk <? len payload then Z.lor bits 1 else bits in
  mret (fragment ++ [original_next_header; 0] ++ to_be16 bits ++ to_be32 identification ++ chunk).

Fixpoint ipv6_fragments (packet payload : list Z)
    (insertion previous_next_header original_next_header chunk_len identification : Z)
    (index : Z) (cs : list (list Z)) : outcome WireError (list (list Z)) :=
  match cs with
  | [] => mret []
  | chunk :: cs =>
    fragment ← ipv6_fragment packet payload chunk insertion previous_next_header original_next_header chunk_len
                 identification index;
    fragments ← ipv6_fragments packet payload insertion previous_next_header original_next_header chunk_len
                  identification (index + 1) cs;
    mret (fragment :: fragments)
  end.

Definition fragment_ipv6 (packet : list Z) (mtu identification : Z) : outcome WireError (list (list Z)) :=
  '(insertion, previous_next_header, original_next_header) ← ipv6_fragment_insertion packet;
  chunk_len ← aligned_chunk mtu (insertion + 8);
  payload ← slice_from packet insertion;
  ipv6_fragments packet payload insertion previous_next_header original_next_header chunk_len identification 0
    (chunks chunk_len payload).

(** ** The entry point *)
Definition fragment_outbound_ip_packet (le : bool) (packet : list Z) (mtu identification : Z)
    : outcome WireError (list (list Z)) :=
  ip ← parse_ip_packet le packet true;
  packet_len ← match version ip with
               | IpV4 => idx_be16 packet 2
               | IpV6 => n ← idx_be16 packet 4; mret (40 + n)
               end;
  if packet_len <=? mtu then (whole ← slice packet 0 packet_len; mret [whole])
  else if fragmented ip then Err (Unsupported "source fragmentation cannot refragment an IP fragment")
  else
    whole ← slice packet 0 packet_len;
    match version ip with
    | IpV4 => fragment_ipv4 le whole mtu identification
    | IpV6 => fragment_ipv6 whole mtu identification
    end.
