(* ===== verification/FragmentTheorems.v ===== *)
(** What source fragmentation promises: the fragments of a packet fit the MTU,
    carry its payload once and in order at offsets that are multiples of eight,
    and an IPv4 fragment is a packet of the same flow that every receiver's
    parser accepts. *)
From S2P Require Import Prelude Checksum IpWire Fragmentation.
From stdpp Require Import list.
#[local] Open Scope Z_scope.

(** ** Pieces of a payload *)

(** Consecutive non-empty pieces from [o] to [total]; only the last may have a
    length that is not a multiple of eight. *)
Fixpoint tiles (o total : Z) (ps : list (Z * list Z)) : Prop :=
  match ps with
  | [] => o = total
  | (q, c) :: ps => q = o /\ 0 < len c /\ (o + len c < total -> (8 | len c)) /\ tiles (o + len c) total ps
  end.

(** The pieces the loop of [fragment_ipv4] makes. *)
Fixpoint cut (fuel : nat) (first later offset : Z) (payload : list Z) : list (Z * list Z) :=
  match fuel with
  | O => []
  | S fuel =>
    if offset <? len payload then
      let amount := Z.min (len payload - offset) (if offset =? 0 then first else later) in
      (offset, sub payload offset (offset + amount)) :: cut fuel first later (offset + amount) payload
    else []
  end.

Lemma cut_tiles fuel first later offset payload :
  0 < first -> 0 < later -> (8 | first) -> (8 | later) -> 0 <= offset <= len payload ->
  len payload - offset <= Z.of_nat fuel -> tiles offset (len payload) (cut fuel first later offset payload).
Proof.
  intros H1 H2 D1 D2. revert offset. induction fuel as [|fuel IH]; intros offset Ho Hf; cbn [cut].
  { cbn. lia. }
  destruct (Z.ltb_spec offset (len payload)); [|cbn; lia].
  set (c := if offset =? 0 then first else later).
  assert (0 < c /\ (8 | c)) as [Hc Dc] by (unfold c; by case_bool).
  cbn [tiles]. rewrite len_sub by lia. split; [done|]. split; [lia|]. split.
  - intros Hlt. by replace (offset + _ - offset) with c by lia.
  - replace (offset + (offset + _ - offset)) with (offset + Z.min (len payload - offset) c) by lia.
    apply IH; lia.
Qed.

Lemma sub_app_sub {A} (l : list A) a b c : 0 <= a <= b -> b <= c -> sub l a b ++ sub l b c = sub l a c.
Proof.
  intros Ha Hb. unfold sub. replace (drop (Z.to_nat b) l) with (drop (Z.to_nat (b - a)) (drop (Z.to_nat a) l))
    by (rewrite drop_drop; f_equal; lia).
  replace (Z.to_nat (c - a)) with (Z.to_nat (b - a) + Z.to_nat (c - b))%nat by lia.
  apply take_take_drop.
Qed.

Lemma cut_concat fuel first later offset payload :
  0 < first -> 0 < later -> 0 <= offset <= len payload -> len payload - offset <= Z.of_nat fuel ->
  concat (cut fuel first later offset payload).*2 = sub payload offset (len payload).
Proof.
  intros H1 H2. revert offset. induction fuel as [|fuel IH]; intros offset Ho Hf; cbn [cut].
  { replace offset with (len payload) by lia. unfold sub. by rewrite Z.sub_diag. }
  destruct (Z.ltb_spec offset (len payload)); [|replace offset with (len payload) by lia; unfold sub; by rewrite Z.sub_diag].
  set (c := if offset =? 0 then first else later).
  assert (0 < c) as Hc by (unfold c; by case_bool).
  cbn [fmap list_fmap concat snd]. rewrite IH by lia. apply sub_app_sub; lia.
Qed.

Lemma aligned_chunk_Ok mtu header_len chunk :
  aligned_chunk mtu header_len = Ok chunk -> 0 < chunk /\ (8 | chunk) /\ header_len + chunk <= mtu.
Proof.
  unfold aligned_chunk, checked_sub. destruct (Z.leb_spec header_len mtu); [|discriminate]. cbn.
  destruct (Z.eqb_spec ((mtu - header_len) / 8 * 8) 0); [discriminate|]. intros [= <-].
  pose proof (Z.div_pos (mtu - header_len) 8 ltac:(lia) ltac:(lia)).
  pose proof (Z.mul_div_le (mtu - header_len) 8 ltac:(lia)). split; [lia|]. split; [|lia]. by exists ((mtu - header_len) / 8).
Qed.

(** ** IPv4 headers *)
Definition ip4_header (b0 tos total id bits ttl proto : Z) (ck src dst opts : list Z) : list Z :=
  [b0; tos] ++ to_be16 total ++ to_be16 id ++ to_be16 bits ++ [ttl; proto] ++ ck ++ src ++ dst ++ opts.

(** The header bytes that no fragmentation changes, and what they must satisfy. *)
Record ip4_ok (b0 tos total id bits ttl proto : Z) (src dst opts : list Z) : Prop := {
  i4_b0 : b0 = 64 + (20 + len opts) / 4;
  i4_opts4 : (4 | len opts);
  i4_opts40 : len opts <= 40;
  i4_tos : is_u8 tos;
  i4_total : is_u16 total;
  i4_id : is_u16 id;
  i4_bits : is_u16 bits;
  i4_ttl : is_u8 ttl;
  i4_proto : is_u8 proto;
  i4_src : length src = 4%nat /\ bytes_ok src;
  i4_dst : length dst = 4%nat /\ bytes_ok dst;
  i4_opts : bytes_ok opts
}.

Lemma ip4_header_len b0 tos total id bits ttl proto ck src dst opts :
  length ck = 2%nat -> length src = 4%nat -> length dst = 4%nat ->
  len (ip4_header b0 tos total id bits ttl proto ck src dst opts) = 20 + len opts.
Proof.
  intros H1 H2 H3. assert (len ck = 2 /\ len src = 4 /\ len dst = 4) by (unfold len; lia).
  unfold ip4_header. autorewrite with lens. lia.
Qed.

Lemma ip4_header_ok b0 tos total id bits ttl proto ck src dst opts :
  ip4_ok b0 tos total id bits ttl proto src dst opts -> bytes_ok ck ->
  bytes_ok (ip4_header b0 tos total id bits ttl proto ck src dst opts).
Proof.
  intros [-> [k D] L] Hck. pose proof (len_nonneg opts). unfold ip4_header. rewrite !bytes_ok_app, !bytes_ok_cons.
  repeat split; try tauto; auto using bytes_ok_nil with bytes; try (unfold is_u8 in *; tauto).
  all: rewrite D; replace (20 + k * 4) with ((5 + k) * 4) by lia; rewrite Z.div_mul by lia; lia.
Qed.

Lemma ip4_header_verifies b0 tos total id bits ttl proto src dst opts :
  ip4_ok b0 tos total id bits ttl proto src dst opts ->
  let hdr ck := ip4_header b0 tos total id bits ttl proto ck src dst opts in
  ones (word_sum (hdr (to_be16 (finalize_checksum (ones (word_sum (hdr [0; 0]))))))) = 65535.
Proof.
  intros H. cbv beta zeta. assert (bytes_ok [0; 0]) as Z2 by (repeat constructor; width).
  pose proof (word_sum_nonneg _ (ip4_header_ok _ _ _ _ _ _ _ _ _ _ _ H Z2)) as Hn.
  set (h0 := ip4_header b0 tos total id bits ttl proto [0; 0] src dst opts) in *.
  assert (forall ck, word_sum (ip4_header b0 tos total id bits ttl proto (to_be16 ck) src dst opts) = word_sum h0 + ck) as E.
  { intros ck. exact (word_sum_patch ([b0; tos] ++ to_be16 total ++ to_be16 id ++ to_be16 bits ++ [ttl; proto])
      (src ++ dst ++ opts) ck eq_refl). }
  rewrite E. by apply ones_finalize.
Qed.

(** Reading the first byte back. *)
Lemma ip4_first_byte n : (4 | n) -> 0 <= n <= 40 ->
  Z.land (64 + (20 + n) / 4) 0x0f * 4 = 20 + n /\ Z.shiftr (64 + (20 + n) / 4) 4 = 4 /\
  Z.lor 0x40 ((20 + n) / 4) = 64 + (20 + n) / 4 /\ (20 + n) / 4 <= 15.
Proof.
  intros [k ->] Hn. replace (20 + k * 4) with ((5 + k) * 4) by lia. rewrite Z.div_mul by lia.
  assert (k = 0 \/ k = 1 \/ k = 2 \/ k = 3 \/ k = 4 \/ k = 5 \/ k = 6 \/ k = 7 \/ k = 8 \/ k = 9 \/ k = 10) as C by lia.
  by destruct C as [->|[->|[->|[->|[->|[->|[->|[->|[->|[->| ->]]]]]]]]]].
Qed.

(** The fragment fields of the flag and offset word. *)
Definition fragment_bits (o : Z) (more : bool) : Z := if more then Z.lor (o / 8) 0x2000 else o / 8.

Definition fragment_info (id o : Z) (more : bool) : option FragmentInfo :=
  if negb (o =? 0) || more then Some (mkFragmentInfo id o more) else None.

Lemma fragment_bits_ok o more : (8 | o) -> 0 <= o <= 65535 ->
  let bits := fragment_bits o more in
  is_u16 bits /\ Z.land bits 0x8000 = 0 /\ Z.land bits 0x4000 = 0 /\ Z.land bits 0x1fff * 8 = o /\
  negb (Z.land bits 0x2000 =? 0) = more.
Proof.
  intros [k ->] Hk bits. assert (0 <= k < 8192) as Kr by lia. unfold bits, fragment_bits. rewrite Z.div_mul by lia.
  assert (forall n, 13 <= n -> Z.testbit k n = false) as Kb.
  { intros n Hn. apply Z.bits_above_log2; [lia|]. destruct (Z.eq_dec k 0) as [->|]; [cbn; lia|].
    apply (Z.le_lt_trans _ 12); [|lia]. apply Z.lt_succ_r, Z.log2_lt_pow2; lia. }
  assert (Z.land k 0x1fff = k) as K1.
  { change 0x1fff with (Z.ones 13). rewrite Z.land_ones by lia. apply Z.mod_small. lia. }
  assert (forall i, 13 <= i -> Z.land k (2 ^ i) = 0) as K0.
  { intros i Hi. apply Z.bits_inj'. intros n Hn. rewrite Z.land_spec, Z.bits_0, Z.pow2_bits_eqb by lia.
    destruct (Z.eqb_spec i n); [subst; by rewrite Kb|by rewrite andb_false_r]. }
  assert (Z.land k 0x8000 = 0 /\ Z.land k 0x4000 = 0 /\ Z.land k 0x2000 = 0) as (Z15 & Z14 & Z13)
    by (split; [apply (K0 15)|split; [apply (K0 14)|apply (K0 13)]]; lia).
  destruct more.
  - assert (Z.lor k 0x2000 = k + 0x2000) as E
      by (rewrite <- Z.lxor_lor by done; symmetry; by apply Z.add_nocarry_lxor).
    split; [rewrite E; width|]. rewrite !Z.land_lor_distr_l, Z15, Z14, Z13, K1.
    split; [done|]. split; [done|]. split; [|done]. change (Z.land 0x2000 0x1fff) with 0. by rewrite Z.lor_0_r.
  - rewrite Z15, Z14, Z13, K1. split; [width|done].
Qed.

(** What any receiver parses out of an IPv4 packet with such a header. *)
Lemma parse_ip4 le b0 tos total id o more ttl proto ck src dst opts body :
  ip4_ok b0 tos total id (fragment_bits o more) ttl proto src dst opts -> is_u16 ck ->
  total = 20 + len opts + len body -> (8 | o) -> 0 <= o <= 65535 ->
  validate_ipv4_options opts = Ok tt ->
  ones (word_sum (ip4_header b0 tos total id (fragment_bits o more) ttl proto (to_be16 ck) src dst opts)) = 65535 ->
  parse_ip_packet le (ip4_header b0 tos total id (fragment_bits o more) ttl proto (to_be16 ck) src dst opts ++ body) true
  = Ok {| version := IpV4; source := V4 src; destination := V4 dst; next_header := proto; hop_limit := ttl;
          fragment := fragment_info id o more;
          fragment_payload := match fragment_info id o more with Some _ => Some body | None => None end;
          payload := body |}.
Proof.
  intros H Hck Ht Do Ho Hv Hs.
  pose proof (ip4_header_ok _ _ _ _ _ _ _ (to_be16 ck) _ _ _ H (to_be16_ok _ Hck)) as Hok.
  pose proof (ip4_header_len b0 tos total id (fragment_bits o more) ttl proto (to_be16 ck) src dst opts eq_refl
    (proj1 (i4_src _ _ _ _ _ _ _ _ _ _ H)) (proj1 (i4_dst _ _ _ _ _ _ _ _ _ _ H))) as Hlen.
  destruct (fragment_bits_ok o more Do Ho) as (_ & B15 & B14 & B13 & Bm).
  destruct H as [Hb0 D4 L40 _ Hu _ _ _ _ [Ls _] [Ld _] _].
  pose proof (len_nonneg body) as Hbody. pose proof (len_nonneg opts) as Hopts.
  destruct (ip4_first_byte (len opts) D4 ltac:(lia)) as (F1 & F2 & _).
  apply list_4 in Ls as (a & b & c & e & ->). apply list_4 in Ld as (a' & b' & c' & e' & ->).
  set (bits := fragment_bits o more) in *.
  remember (ip4_header b0 tos total id bits ttl proto (to_be16 ck) [a; b; c; e] [a'; b'; c'; e'] opts) as h eqn:Eh.
  assert (G0 : get (h ++ body) 0 = Some b0) by (subst h; reflexivity).
  assert (I2 : idx_be16 (E := WireError) (h ++ body) 2 = Ok total) by be16_field total Eh.
  assert (I4 : idx_be16 (E := WireError) (h ++ body) 4 = Ok id) by be16_field id Eh.
  assert (I6 : idx_be16 (E := WireError) (h ++ body) 6 = Ok bits) by be16_field bits Eh.
  assert (I8 : idx (E := WireError) (h ++ body) 8 = Ok ttl) by (subst h; reflexivity).
  assert (I9 : idx (E := WireError) (h ++ body) 9 = Ok proto) by (subst h; reflexivity).
  assert (S12 : sub (h ++ body) 12 16 = [a; b; c; e]) by (subst h; reflexivity).
  assert (S16 : sub (h ++ body) 16 20 = [a'; b'; c'; e']) by (subst h; reflexivity).
  assert (So : sub (h ++ body) 20 (20 + len opts) = opts).
  { subst h. change (sub ([b0; tos; total / 256; total mod 256; id / 256; id mod 256; bits / 256; bits mod 256; ttl; proto;
      ck / 256; ck mod 256; a; b; c; e; a'; b'; c'; e'] ++ opts ++ body) 20 (20 + len opts) = opts).
    rewrite sub_app_r by (done || lia). apply sub_app_l. lia. }
  assert (Sh : sub (h ++ body) 0 (20 + len opts) = h) by (by apply sub_app_l).
  assert (Sb : sub (h ++ body) (20 + len opts) total = body) by (apply sub_app_tail; lia).
  clear Eh. unfold parse_ip_packet. rewrite G0. cbn [ok_or mbind outcome_bind]. rewrite Hb0, F2. cbn [Z.eqb Pos.eqb].
  unfold parse_ipv4. decide_if.
  assert (I0 : idx (E := WireError) (h ++ body) 0 = Ok b0) by (unfold idx; by rewrite G0).
  rewrite I0, Hb0. cbn [mbind outcome_bind]. rewrite F1. decide_if. rewrite I2. cbn [mbind outcome_bind]. decide_if.
  rewrite !slice_Ok by (autorewrite with lens; lia). cbn [mbind outcome_bind]. rewrite So, Hv. cbn [mbind outcome_bind].
  rewrite Sh, checksum_sum_ones by (done || width || unfold short_enough; lia).
  rewrite Z.add_0_l, Hs. cbn [mbind outcome_bind mret outcome_ret]. change (negb (65535 =? 65535)) with false.
  cbn iota. rewrite I6. cbn [mbind outcome_bind]. rewrite B15, B14, B13, Bm. cbn [negb Z.eqb andb].
  rewrite I4. cbn [mbind outcome_bind]. by rewrite Sb, S12, S16, I9, I8.
Qed.

Lemma parse_ipv6_chain_version rounds packet enforce total_len src dst nh pointer offset frag fp ip :
  parse_ipv6_chain rounds packet enforce total_len src dst nh pointer offset frag fp = Ok ip -> version ip = IpV6.
Proof.
  revert nh pointer offset frag fp. induction rounds as [|rounds IH]; intros nh pointer offset frag fp H; [done|].
  cbn [parse_ipv6_chain] in H. cbv zeta beta in H.
  repeat ok_step H; try (by eapply IH); subst; done.
Qed.

Lemma parse_v4_inv le p ip : parse_ip_packet le p true = Ok ip -> version ip = IpV4 ->
  exists b0, get p 0 = Some b0 /\ Z.shiftr b0 4 = 4 /\ parse_ipv4 le p true = Ok ip.
Proof.
  unfold parse_ip_packet. intros H Hv. ok_step H. exists x. destruct (get p 0) as [b0|]; [|done]. injection Hx as ->.
  split; [done|]. ok_step H; [by apply Z.eqb_eq in Hb|]. ok_step H; [|done]. exfalso. revert H. unfold parse_ipv6. intros H.
  repeat ok_step H. apply parse_ipv6_chain_version in H. congruence.
Qed.

(** The same from the other side: the parts of a packet that parses as IPv4. *)
Record ip4_view (p : list Z) (ip : ParsedIpPacket) (b0 tos total id bits ttl proto ck : Z)
    (src dst opts body rest : list Z) : Prop := {
  v4_packet : p = ip4_header b0 tos total id bits ttl proto (to_be16 ck) src dst opts ++ body ++ rest;
  v4_ok : ip4_ok b0 tos total id bits ttl proto src dst opts;
  v4_ck : is_u16 ck;
  v4_total : total = 20 + len opts + len body;
  v4_options : validate_ipv4_options opts = Ok tt;
  v4_body : bytes_ok body;
  v4_source : source ip = V4 src;
  v4_destination : destination ip = V4 dst;
  v4_next_header : next_header ip = proto;
  v4_hop_limit : hop_limit ip = ttl;
  v4_payload : payload ip = body;
  v4_whole : version ip = IpV4 /\ (fragmented ip = false -> fragment ip = None /\ fragment_payload ip = None)
}.

Lemma list_ge20 (p : list Z) : 20 <= len p ->
  exists x0 x1 x2 x3 x4 x5 x6 x7 x8 x9 y0 y1 y2 y3 y4 y5 y6 y7 y8 y9 q,
    p = [x0; x1; x2; x3; x4; x5; x6; x7; x8; x9; y0; y1; y2; y3; y4; y5; y6; y7; y8; y9] ++ q.
Proof.
  unfold len. do 20 (destruct p as [|? p]; [cbn; lia|]). intros _. by do 21 eexists.
Qed.

Lemma to_be16_be16 a b : is_u8 a -> is_u8 b -> to_be16 (be16 a b) = [a; b].
Proof.
  intros Ha Hb. unfold to_be16, be16, is_u8 in *. f_equal; [|f_equal].
  - symmetry. apply (Z.div_unique _ _ _ b); lia.
  - symmetry. apply (Z.mod_unique _ _ a); lia.
Qed.

Lemma first_byte_v4 b : is_u8 b -> Z.shiftr b 4 = 4 -> b = 64 + Z.land b 0x0f.
Proof.
  intros Hb Hs. change 0x0f with (Z.ones 4). rewrite Z.land_ones by lia. rewrite Z.shiftr_div_pow2 in Hs by lia.
  pose proof (Z.div_mod b (2 ^ 4)). change (2 ^ 4) with 16 in *. lia.
Qed.

Lemma parse_ip4_inv le p ip : bytes_ok p -> parse_ip_packet le p true = Ok ip -> version ip = IpV4 ->
  exists b0 tos total id bits ttl proto ck src dst opts body rest,
    ip4_view p ip b0 tos total id bits ttl proto ck src dst opts body rest.
Proof.
  intros Hp H Hv. apply parse_v4_inv in H as (b0 & G0 & Hs & H); [|done]. unfold parse_ipv4 in H.
  ok_step H; [done|]. apply Z.ltb_ge in Hb.
  destruct (list_ge20 p Hb) as (c0 & c1 & c2 & c3 & c4 & c5 & c6 & c7 & c8 & c9 & c10 & c11 & c12 & c13 & c14 & c15 & c16 & c17 & c18 & c19 & q & Ep).
  assert (bytes_ok [c0; c1; c2; c3; c4; c5; c6; c7; c8; c9; c10; c11; c12; c13; c14; c15; c16; c17; c18; c19] /\ bytes_ok q) as [Hh Hq]
    by (apply bytes_ok_app; congruence).
  assert (get p 0 = Some c0) as G0' by (subst p; reflexivity). rewrite G0 in G0'. injection G0' as ->.
  ok_step H. assert (x = c0) as -> by (unfold idx in Hx; rewrite G0 in Hx; by injection Hx).
  set (hl := Z.land c0 15 * 4) in *. ok_step H; [done|]. rename Hb0 into Hhl. ok_step H. rename x into total, Hx0 into Ht.
  ok_step H; [done|]. rename Hb0 into Htl. ok_step H. rename x into opts, Hx0 into Ho. ok_step H. rename Hx0 into Hval.
  destruct x. ok_step H. clear Hx0. ok_step H; [done|]. ok_step H. rename x0 into bits, Hx0 into Hbits.
  ok_step H; [done|]. ok_step H; [done|]. ok_step H. rename x0 into id, Hx0 into Hid.
  ok_step H. rename x0 into body, Hx0 into Hbody. ok_step H. rename x0 into src, Hx0 into Hsrc.
  ok_step H. rename x0 into dst, Hx0 into Hdst. ok_step H. rename x0 into proto, Hx0 into Hproto.
  ok_step H. rename x0 into ttl, Hx0 into Httl. ok_step H.
  apply orb_false_iff in Hhl as [Hhl1 Hhl2]. apply orb_false_iff in Htl as [Htl1 Htl2].
  apply Z.ltb_ge in Hhl1, Hhl2, Htl1, Htl2.
  apply slice_inv in Ho as (Eo & Ro), Hbody as (Eb & Rb), Hsrc as (Es & _), Hdst as (Ed & _).
  exists c0, c1, total, id, bits, ttl, proto, (be16 c10 c11), src, dst, opts, body, (sub p total (len p)).
  assert (opts ++ body ++ sub p total (len p) = q) as Eq.
  { rewrite Eo, Eb, !sub_app_sub by lia. rewrite Ep. apply sub_app_tail; [done|]. by rewrite len_app. }
  assert (len opts = hl - 20) as Lo by (rewrite Eo; apply len_sub; lia).
  assert (len body = total - hl) as Lb by (rewrite Eb; apply len_sub; lia).
  assert (idx_be16 (E := WireError) p 2 = Ok (be16 c2 c3)) as E2 by (rewrite Ep; reflexivity).
  assert (idx_be16 (E := WireError) p 4 = Ok (be16 c4 c5)) as E4 by (rewrite Ep; reflexivity).
  assert (idx_be16 (E := WireError) p 6 = Ok (be16 c6 c7)) as E6 by (rewrite Ep; reflexivity).
  assert (idx (E := WireError) p 8 = Ok c8) as E8 by (rewrite Ep; reflexivity).
  assert (idx (E := WireError) p 9 = Ok c9) as E9 by (rewrite Ep; reflexivity).
  assert (sub p 12 16 = [c12; c13; c14; c15] /\ sub p 16 20 = [c16; c17; c18; c19]) as [E12 E16] by (by rewrite Ep).
  rewrite E2 in Ht. rewrite E4 in Hid. rewrite E6 in Hbits. rewrite E8 in Httl. rewrite E9 in Hproto.
  injection Ht as <-. injection Hid as <-. injection Hbits as <-. injection Httl as <-. injection Hproto as <-.
  rewrite E12 in Es. rewrite E16 in Ed. subst src dst.
  rewrite !bytes_ok_cons in Hh. destruct Hh as (B0 & B1 & B2 & B3 & B4 & B5 & B6 & B7 & B8 & B9 & B10 & B11 &
    B12 & B13 & B14 & B15 & B16 & B17 & B18 & B19 & _).
  pose proof (land_15 c0) as Hl15. pose proof (first_byte_v4 c0 B0 Hs) as Hc0.
  split; try (subst ip; done); try (by apply be16_range); try lia.
  - unfold ip4_header. rewrite !to_be16_be16 by done. rewrite Ep at 1. rewrite <- Eq. by rewrite <- !(assoc_L (++)).
  - split; try done; try (by apply be16_range); try lia.
    + rewrite Lo. replace (20 + (hl - 20)) with (Z.land c0 15 * 4) by (unfold hl; lia). rewrite Z.div_mul by lia. done.
    + rewrite Lo. exists (Z.land c0 15 - 5). unfold hl. lia.
    + split; [done|]. do 4 (apply bytes_ok_cons; split; [done|]). apply bytes_ok_nil.
    + split; [done|]. do 4 (apply bytes_ok_cons; split; [done|]). apply bytes_ok_nil.
    + rewrite Eo. by apply bytes_ok_sub.
  - rewrite Eb. by apply bytes_ok_sub.
  - subst ip. split; [done|]. unfold fragmented, is_atomic. cbn [fragment fragment_payload].
    destruct (Z.land (be16 c6 c7) 8191 * 8 =? 0) eqn:F1, (Z.land (be16 c6 c7) 8192 =? 0); cbn; rewrite ?F1; done.
Qed.

(** ** Copied options *)

(** An option with a length byte that counts the whole of it. *)
Definition option_ok (o : list Z) : Prop :=
  exists kind n data, o = kind :: n :: data /\ kind <> 0 /\ kind <> 1 /\ n = len o.

Lemma get_at {A} (pre l : list A) i k : k = len pre + i -> 0 <= i -> get (pre ++ l) k = get l i.
Proof. intros -> Hi. rewrite get_app_r by lia. f_equal. lia. Qed.

(** Options followed by zero padding are accepted. *)
Lemma validate_concat os k fuel pre : Forall option_ok os -> 0 <= k ->
  len (concat os) + k < Z.of_nat fuel -> len pre + len (concat os) + k <= u64_max ->
  validate_ipv4_options_loop fuel (pre ++ concat os ++ zeros k) (len pre) = Ok tt.
Proof.
  intros Hos Hk. revert fuel pre. induction Hos as [|o os (kind & n & data & Eo & K0 & K1 & En) _ IH]; intros fuel pre Hf Hm.
  - destruct fuel as [|fuel]; [cbn in Hf; unfold len in Hf; cbn in Hf; lia|]. cbn [concat app] in *. rewrite len_nil in *.
    cbn [validate_ipv4_options_loop]. rewrite len_app, len_zeros by lia.
    destruct (Z.ltb_spec (len pre) (len pre + k)) as [Hlt|]; [|done].
    assert (exists m, zeros k = 0 :: zeros m /\ 0 <= m) as (m & Ez & Hm0).
    { exists (k - 1). split; [|lia]. replace k with (1 + (k - 1)) at 1 by lia. by rewrite zeros_app by lia. }
    unfold idx. rewrite (get_at pre _ 0 (len pre)), Ez by lia. cbn [get Z.leb Z.to_nat lookup list_lookup expect mbind outcome_bind].
    change (0 =? 0) with true. cbn iota. unfold slice_from.
    rewrite slice_Ok by (autorewrite with lens; pose proof (len_nonneg pre); pose proof (len_nonneg (zeros m)); lia).
    cbn [mbind outcome_bind]. replace (pre ++ 0 :: zeros m) with ((pre ++ [0]) ++ zeros m) by (by rewrite <- (assoc_L (++))).
    rewrite sub_app_tail by (autorewrite with lens; lia).
    assert (any_nonzero (zeros m) = false) as -> by (unfold any_nonzero, zeros; by induction (Z.to_nat m)). done.
  - cbn [concat] in *. rewrite len_app in *. assert (2 <= len o) as Ho2 by (rewrite Eo, !len_cons; pose proof (len_nonneg data); lia).
    pose proof (len_nonneg pre). pose proof (len_nonneg (concat os)).
    destruct fuel as [|fuel]; [cbn in Hf; lia|]. cbn [validate_ipv4_options_loop].
    rewrite !len_app, len_zeros by lia. rewrite (proj2 (Z.ltb_lt _ _)) by lia.
    assert (get ((o ++ concat os) ++ zeros k) 0 = Some kind /\ get ((o ++ concat os) ++ zeros k) 1 = Some n) as [G0 G1]
      by (by rewrite Eo).
    unfold idx. rewrite (get_at pre _ 0 (len pre)), (get_at pre _ 1 (len pre + 1)), G0, G1 by lia.
    cbn [expect ok_or mbind outcome_bind].
    rewrite (proj2 (Z.eqb_neq kind 0) K0), (proj2 (Z.eqb_neq kind 1) K1), (proj2 (Z.ltb_ge n 2)) by lia.
    unfold checked_add. rewrite (proj2 (Z.leb_le (len pre + n) u64_max)) by lia. cbn [mbind option_bind].
    rewrite (proj2 (Z.leb_le _ _)) by lia. cbn [ok_or mbind outcome_bind].
    replace (pre ++ (o ++ concat os) ++ zeros k) with ((pre ++ o) ++ concat os ++ zeros k) by (by rewrite !(assoc_L (++))).
    rewrite En, <- len_app. apply IH; rewrite ?len_app; lia.
Qed.

Lemma sub_one {A} (l : list A) i x k : get l i = Some x -> k = i + 1 -> sub l i k = [x].
Proof.
  intros G ->. unfold get in G. destruct (Z.leb_spec 0 i); [|done]. unfold sub. replace (i + 1 - i) with 1 by lia.
  by rewrite (drop_S l x _ G).
Qed.

(** The loop copies whole options out of validated ones. *)
Lemma copied_loop_spec fuel opts off acc : bytes_ok opts -> 0 <= off <= len opts ->
  validate_ipv4_options_loop fuel opts off = Ok tt ->
  exists os, copied_options_loop fuel opts off acc = Ok (acc ++ concat os) /\ Forall option_ok os /\
    bytes_ok (concat os) /\ len (concat os) <= len opts - off.
Proof.
  intros Hok. revert off acc. induction fuel as [|fuel IH]; intros off acc Ho H; [done|].
  cbn [validate_ipv4_options_loop] in H. cbn [copied_options_loop].
  assert (copy_none : exists os, Ok (E := WireError) acc = Ok (acc ++ concat os) /\ Forall option_ok os /\
    bytes_ok (concat os) /\ len (concat os) <= len opts - off).
  { exists []. cbn [concat]. rewrite app_nil_r, len_nil. split_and!; [done|constructor|apply bytes_ok_nil|lia]. }
  destruct (Z.ltb_spec off (len opts)); [|done].
  ok_step H. rewrite Hx. cbn [mbind outcome_bind].
  destruct (Z.eqb_spec x 0) as [|N0]; [done|]. destruct (Z.eqb_spec x 1) as [|N1].
  { destruct (IH (off + 1) acc ltac:(lia) H) as (os & E & F & B & L). exists os. split_and!; [done..|lia]. }
  ok_step H. rewrite Hx0. cbn [mbind outcome_bind]. ok_step H; [done|]. rename x0 into n. apply Z.ltb_ge in Hb.
  ok_step H. assert (Hx2 := Hx1). unfold checked_add in Hx2. destruct (Z.leb_spec (off + n) u64_max); [|done].
  cbn [mbind option_bind] in Hx2. destruct (Z.leb_spec (off + n) (len opts)); [|done]. injection Hx2 as <-.
  rewrite (proj2 (Z.ltb_ge (len opts) (off + n))) by lia. cbn [orb].
  destruct (negb (Z.land x 128 =? 0)); cbn [mbind outcome_bind mret outcome_ret].
  - rewrite slice_Ok by lia. cbn [mbind outcome_bind mret outcome_ret].
    destruct (IH (off + n) (acc ++ sub opts off (off + n)) ltac:(lia) H) as (os & E & F & B & L).
    exists (sub opts off (off + n) :: os). cbn [concat]. rewrite E, len_app, len_sub by lia.
    rewrite (assoc_L (++)). split_and!; [done| |apply bytes_ok_app; split; [by apply bytes_ok_sub|done]|lia].
    constructor; [|done]. exists x, n, (sub opts (off + 2) (off + n)).
    split_and!; [|done|done|rewrite len_sub; lia].
    rewrite <- (sub_app_sub opts off (off + 1)), <- (sub_app_sub opts (off + 1) (off + 2)) by lia.
    unfold idx in Hx. destruct (get opts off) eqn:G0; [|done]. injection Hx as ->.
    destruct (get opts (off + 1)) eqn:G1; [|done]. injection Hx0 as ->.
    by rewrite (sub_one opts off x), (sub_one opts (off + 1) n) by (done || lia).
  - destruct (IH (off + n) acc ltac:(lia) H) as (os & E & F & B & L). exists os. split_and!; [done..|lia].
Qed.

Lemma div_ceil4 n : 0 <= n -> n <= div_ceil n 4 * 4 /\ forall m, (4 | m) -> n <= m -> div_ceil n 4 * 4 <= m.
Proof.
  intros Hn. unfold div_ceil. pose proof (Z.div_mod (n + 4 - 1) 4 ltac:(lia)). pose proof (Z.mod_pos_bound (n + 4 - 1) 4 ltac:(lia)).
  split; [lia|]. intros m [k ->] Hm. lia.
Qed.

(** The options of the later fragments: whole options, padded, no longer than the original ones. *)
Lemma copied_options_spec opts :
  bytes_ok opts -> (4 | len opts) -> len opts <= 40 -> validate_ipv4_options opts = Ok tt ->
  exists copied, copied_ipv4_options opts = Ok copied /\ bytes_ok copied /\ (4 | len copied) /\ len copied <= len opts /\
    validate_ipv4_options copied = Ok tt.
Proof.
  intros Hok D L V. pose proof (len_nonneg opts).
  destruct (copied_loop_spec _ opts 0 [] Hok ltac:(lia) V) as (os & E & F & B & Lc).
  unfold copied_ipv4_options. rewrite E. cbn [app mbind outcome_bind].
  pose proof (len_nonneg (concat os)) as Hc. destruct (div_ceil4 (len (concat os)) Hc) as [P1 P2].
  specialize (P2 (len opts) D ltac:(lia)). set (k := div_ceil (len (concat os)) 4 * 4) in *.
  assert (len (pad4 (concat os)) = k) as Lp by (unfold pad4; rewrite len_app, len_zeros; unfold k; lia).
  rewrite Lp. rewrite (proj2 (Z.ltb_ge 40 k)) by lia. eexists. split; [reflexivity|]. rewrite Lp. split_and!.
  - apply bytes_ok_app. auto with bytes.
  - by exists (div_ceil (len (concat os)) 4).
  - lia.
  - unfold validate_ipv4_options, pad4. fold k. apply (validate_concat os (k - len (concat os)) _ []); [done|lia| |].
    + fold (pad4 (concat os)). unfold len in Lp. unfold pad4 in Lp. fold k in Lp. lia.
    + change (len (@nil Z)) with 0. unfold u64_max. lia.
Qed.

(** ** The IPv4 fragment at an offset *)
Lemma low16 x : is_u32 x -> drop 2 (to_be32 x) = to_be16 (x mod 65536).
Proof.
  intros _. unfold to_be32, to_be16. cbn [drop]. f_equal; [|f_equal].
  - Z.div_mod_to_equations. lia.
  - Z.div_mod_to_equations. lia.
Qed.

(** Writing the fields of a header. *)
Ltac ip4_parts := unfold ip4_header; by rewrite <- !(assoc_L (++)).

Section Fields.
Context (b0 tos total id bits ttl proto : Z) (ck src dst opts rest : list Z).

Lemma write_b0 {E} b : write_at (E := E) (ip4_header b0 tos total id bits ttl proto ck src dst opts ++ rest) 0 [b]
  = Ok (ip4_header b tos total id bits ttl proto ck src dst opts ++ rest).
Proof.
  rewrite (write_at_parts _ [] [b0] [b] ([tos] ++ to_be16 total ++ to_be16 id ++ to_be16 bits ++ [ttl; proto] ++
    ck ++ src ++ dst ++ opts ++ rest)); [ip4_parts|ip4_parts|done..].
Qed.

Lemma write_total {E} x : write_at (E := E) (ip4_header b0 tos total id bits ttl proto ck src dst opts ++ rest) 2 (to_be16 x)
  = Ok (ip4_header b0 tos x id bits ttl proto ck src dst opts ++ rest).
Proof.
  rewrite (write_at_parts _ [b0; tos] (to_be16 total) (to_be16 x) (to_be16 id ++ to_be16 bits ++ [ttl; proto] ++
    ck ++ src ++ dst ++ opts ++ rest)); [ip4_parts|ip4_parts|done..].
Qed.

Lemma write_id {E} x : write_at (E := E) (ip4_header b0 tos total id bits ttl proto ck src dst opts ++ rest) 4 (to_be16 x)
  = Ok (ip4_header b0 tos total x bits ttl proto ck src dst opts ++ rest).
Proof.
  rewrite (write_at_parts _ ([b0; tos] ++ to_be16 total) (to_be16 id) (to_be16 x) (to_be16 bits ++ [ttl; proto] ++
    ck ++ src ++ dst ++ opts ++ rest)); [ip4_parts|ip4_parts|done..].
Qed.

Lemma write_bits {E} x : write_at (E := E) (ip4_header b0 tos total id bits ttl proto ck src dst opts ++ rest) 6 (to_be16 x)
  = Ok (ip4_header b0 tos total id x ttl proto ck src dst opts ++ rest).
Proof.
  rewrite (write_at_parts _ ([b0; tos] ++ to_be16 total ++ to_be16 id) (to_be16 bits) (to_be16 x) ([ttl; proto] ++
    ck ++ src ++ dst ++ opts ++ rest)); [ip4_parts|ip4_parts|done..].
Qed.

Lemma write_ck {E} x : length ck = 2%nat -> length x = 2%nat ->
  write_at (E := E) (ip4_header b0 tos total id bits ttl proto ck src dst opts ++ rest) 10 x
  = Ok (ip4_header b0 tos total id bits ttl proto x src dst opts ++ rest).
Proof.
  intros H1 H2.
  rewrite (write_at_parts _ ([b0; tos] ++ to_be16 total ++ to_be16 id ++ to_be16 bits ++ [ttl; proto]) ck x
    (src ++ dst ++ opts ++ rest)); [ip4_parts|ip4_parts|unfold len; lia|done].
Qed.
End Fields.

(** Sealing a header whose first byte, addresses and options are in place. *)
Lemma seal_value le b0 tos total id bits ttl proto ck src dst opts chunk identification o more :
  length ck = 2%nat ->
  let n := 20 + len opts + len chunk in
  let id' := identification mod 65536 in
  ip4_ok b0 tos n id' (fragment_bits o more) ttl proto src dst opts ->
  is_u32 identification -> (8 | o) -> 0 <= o <= 65535 ->
  exists c, is_u16 c /\
    seal_ipv4_fragment le (ip4_header b0 tos total id bits ttl proto ck src dst opts ++ chunk) (20 + len opts)
      identification o more
    = Ok (ip4_header b0 tos n id' (fragment_bits o more) ttl proto (to_be16 c) src dst opts ++ chunk) /\
    ones (word_sum (ip4_header b0 tos n id' (fragment_bits o more) ttl proto (to_be16 c) src dst opts)) = 65535.
Proof.
  intros Lck n id' H Hid Do Ho. pose proof (ip4_header_verifies _ _ _ _ _ _ _ _ _ _ H) as Hv. cbv beta zeta in Hv.
  assert (bytes_ok [0; 0]) as Z2 by (repeat constructor; width).
  pose proof (ip4_header_ok _ _ _ _ _ _ _ [0; 0] _ _ _ H Z2) as Hok.
  pose proof (ip4_header_len b0 tos n id' (fragment_bits o more) ttl proto [0; 0] src dst opts eq_refl
    (proj1 (i4_src _ _ _ _ _ _ _ _ _ _ H)) (proj1 (i4_dst _ _ _ _ _ _ _ _ _ _ H))) as Hlen.
  set (h0 := ip4_header b0 tos n id' (fragment_bits o more) ttl proto [0; 0] src dst opts) in *.
  pose proof (word_sum_nonneg _ Hok) as Hw. pose proof (ones_range _ Hw) as Ho1.
  exists (finalize_checksum (ones (word_sum h0))). split; [unfold finalize_checksum; width|]. split; [|done].
  pose proof (i4_total _ _ _ _ _ _ _ _ _ _ H) as Hn. pose proof (i4_opts40 _ _ _ _ _ _ _ _ _ _ H) as H40.
  destruct H as [_ _ _ _ _ _ _ _ _ [Ls _] [Ld _] _].
  unfold seal_ipv4_fragment. rewrite low16 by done. fold id'. rewrite write_id. cbn [mbind outcome_bind].
  rewrite len_app, ip4_header_len by done. change (20 + len opts + len chunk) with n. rewrite (try_u16_Ok n Hn). cbn [ok_or mbind outcome_bind].
  rewrite write_total. cbn [mbind outcome_bind].
  assert (0 <= o / 8 <= 65535) as Ho8 by (Z.div_mod_to_equations; lia).
  rewrite try_u16_Ok by (split; lia). cbn [ok_or mbind outcome_bind]. fold (fragment_bits o more).
  rewrite write_bits. cbn [mbind outcome_bind]. rewrite write_ck by done. cbn [mbind outcome_bind]. fold h0.
  pose proof (len_nonneg opts). pose proof (len_nonneg chunk).
  rewrite slice_Ok by (rewrite ?len_app; lia). cbn [mbind outcome_bind]. rewrite sub_app_l by done.
  rewrite checksum_sum_ones by (done || width || unfold short_enough; lia). cbn [mbind outcome_bind].
  rewrite Z.add_0_l. by apply write_ck.
Qed.

Lemma ip4_header_options b0 tos total id bits ttl proto ck src dst opts :
  ip4_header b0 tos total id bits ttl proto ck src dst opts =
  ip4_header b0 tos total id bits ttl proto ck src dst [] ++ opts.
Proof. unfold ip4_header. by rewrite app_nil_r, <- !(assoc_L (++)). Qed.

Section Fragments4.
Context (le : bool) (tos ttl proto : Z) (src dst opts copied payload : list Z) (identification : Z).

(** The options of the fragment at [o]. *)
Definition options_at (o : Z) : list Z := if o =? 0 then opts else copied.

(** A piece of the payload as an IPv4 packet of its own. *)
Definition ip4_fragment_of (piece : Z * list Z) (f : list Z) : Prop :=
  let '(o, c) := piece in
  let n := 20 + len (options_at o) + len c in
  let bits := fragment_bits o (o + len c <? len payload) in
  ip4_ok (64 + (20 + len (options_at o)) / 4) tos n (identification mod 65536) bits ttl proto src dst (options_at o) /\
  exists ck, is_u16 ck /\
    let h := ip4_header (64 + (20 + len (options_at o)) / 4) tos n (identification mod 65536) bits ttl proto
      (to_be16 ck) src dst (options_at o) in
    f = h ++ c /\ ones (word_sum h) = 65535.

Context (b0 total id bits : Z) (ck : list Z).
Context (Hok : ip4_ok b0 tos total id bits ttl proto src dst opts) (Lck : length ck = 2%nat).
Context (Htotal : total = 20 + len opts + len payload) (Hid : is_u32 identification) (Hpay : bytes_ok payload).
Context (Cok : bytes_ok copied) (C4 : (4 | len copied)) (Cle : len copied <= len opts).
Abbreviation packet := (ip4_header b0 tos total id bits ttl proto ck src dst opts ++ payload).

Lemma options_at_ok o : bytes_ok (options_at o) /\ (4 | len (options_at o)) /\ 0 <= len (options_at o) <= 40.
Proof.
  pose proof (i4_opts40 _ _ _ _ _ _ _ _ _ _ Hok). pose proof (len_nonneg (options_at o)). unfold options_at in *.
  destruct Hok. case_bool; split_and!; done || lia.
Qed.

Lemma ip4_piece_ok o (c : list Z) more : 0 < len c -> o + len c <= len payload -> (8 | o) -> 0 <= o ->
  ip4_ok (64 + (20 + len (options_at o)) / 4) tos (20 + len (options_at o) + len c) (identification mod 65536)
    (fragment_bits o more) ttl proto src dst (options_at o).
Proof.
  intros Hc Hle Do Ho. destruct (options_at_ok o) as (O1 & O2 & O3).
  pose proof (i4_total _ _ _ _ _ _ _ _ _ _ Hok) as Ht. pose proof (len_nonneg opts).
  assert (len (options_at o) <= len opts) by (unfold options_at; case_bool; lia).
  destruct (fragment_bits_ok o more Do ltac:(width)) as (Hb & _).
  destruct Hok. split; try done; try lia; try width.
  unfold is_u16. pose proof (Z.mod_pos_bound identification 65536 ltac:(lia)). lia.
Qed.

Lemma ipv4_fragment_value o n : 0 < n -> o + n <= len payload -> (8 | o) -> 0 <= o ->
  exists f, ipv4_fragment le packet copied payload (20 + len opts) (20 + len copied) identification o n = Ok f /\
    ip4_fragment_of (o, sub payload o (o + n)) f.
Proof.
  intros Hn Hle Do Ho. assert (len (sub payload o (o + n)) = n) as Ln by (rewrite len_sub; lia).
  set (c := sub payload o (o + n)) in *. set (more := o + len c <? len payload).
  assert ((o + n <? len payload) = more) as Em by (unfold more; by rewrite Ln).
  pose proof (ip4_piece_ok o c more ltac:(lia) ltac:(lia) Do Ho) as Hp.
  pose proof (i4_total _ _ _ _ _ _ _ _ _ _ Hok) as Ht. pose proof (len_nonneg opts). pose proof (len_nonneg copied).
  destruct (seal_value le (64 + (20 + len (options_at o)) / 4) tos total id bits ttl proto ck src dst (options_at o) c
    identification o more Lck Hp Hid Do ltac:(width)) as (k & Hk & Es & Hv).
  eexists. split; [|split; [exact Hp|]; exists k; split; [done|split; [reflexivity|exact Hv]]].
  refine (eq_trans _ Es). unfold ipv4_fragment. rewrite (slice_Ok payload o (o + n)) by lia. cbn [mbind outcome_bind]. fold c. rewrite Em.
  pose proof (ip4_header_len b0 tos total id bits ttl proto ck src dst opts Lck
    (proj1 (i4_src _ _ _ _ _ _ _ _ _ _ Hok)) (proj1 (i4_dst _ _ _ _ _ _ _ _ _ _ Hok))) as Lh.
  unfold options_at. destruct (Z.eqb_spec o 0).
  - rewrite slice_Ok by (rewrite ?len_app; pose proof (len_nonneg payload); lia). cbn [mbind outcome_bind].
    rewrite sub_app_l by lia. by rewrite <- (i4_b0 _ _ _ _ _ _ _ _ _ _ Hok).
  - destruct (ip4_first_byte (len copied) C4) as (_ & _ & F3 & F4); [pose proof (i4_opts40 _ _ _ _ _ _ _ _ _ _ Hok); lia|].
    rewrite (ip4_header_options b0), <- (assoc_L (++)).
    rewrite slice_Ok, sub_app_l; [|rewrite ?len_app, ?(ip4_header_len _ _ _ _ _ _ _ _ _ _ []), ?len_nil; try apply Hok; try done; pose proof (len_nonneg payload); lia..].
    cbn [mbind outcome_bind]. unfold try_u8. rewrite (proj2 (Z.leb_le _ u8_max)) by (unfold u8_max; lia).
    cbn [expect mbind outcome_bind]. rewrite F3, write_b0. cbn [mbind outcome_bind]. by rewrite <- ip4_header_options.
Qed.

Lemma fragment_loop_value first later fuel o acc :
  0 < first -> 0 < later -> (8 | first) -> (8 | later) ->
  0 <= o <= len payload -> (o < len payload -> (8 | o)) -> len payload - o < Z.of_nat fuel ->
  exists fs, fragment_ipv4_loop fuel le packet copied payload (20 + len opts) (20 + len copied) first later
      identification o acc = Ok (acc ++ fs) /\
    Forall2 ip4_fragment_of (cut fuel first later o payload) fs.
Proof.
  intros F0 L0 F8 L8. pose proof (i4_total _ _ _ _ _ _ _ _ _ _ Hok) as Ht. pose proof (len_nonneg opts).
  revert o acc. induction fuel as [|fuel IH]; intros o acc Ho Do Hf; [cbn in Hf; lia|].
  cbn [fragment_ipv4_loop cut]. destruct (Z.ltb_spec o (len payload)) as [Hlt|]; [|exists []; by rewrite app_nil_r].
  rewrite usub_small by width. set (c := if o =? 0 then first else later).
  assert (0 < c /\ (8 | c)) as [Hc Dc] by (unfold c; by case_bool). set (n := Z.min (len payload - o) c).
  destruct (ipv4_fragment_value o n) as (f & -> & Hf1); [lia|lia|auto|lia|]. cbn [mbind outcome_bind].
  unfold checked_add. rewrite (proj2 (Z.leb_le _ _)) by width. cbn [ok_or mbind outcome_bind].
  destruct (IH (o + n) (acc ++ [f])) as (fs & -> & Hfs); [lia| |lia|].
  - intros Hlt2. replace n with c by lia. apply Z.divide_add_r; auto.
  - exists (f :: fs). rewrite <- (assoc_L (++)). split; [done|]. by constructor.
Qed.
End Fragments4.

(** ** The IPv4 path *)
Lemma cut_capacity fuel first later o payload : 0 < first -> 0 < later -> 0 <= o ->
  Forall (fun p => len p.2 <= if p.1 =? 0 then first else later) (cut fuel first later o payload).
Proof.
  intros F L. revert o. induction fuel as [|fuel IH]; intros o Ho; cbn [cut]; [constructor|].
  destruct (Z.ltb_spec o (len payload)); [|constructor].
  assert (0 < if o =? 0 then first else later) by (by case_bool).
  constructor; [|apply IH; lia]. cbn [fst snd]. rewrite len_sub by lia. lia.
Qed.

(** What a receiver makes of the fragment with a given piece of the payload. *)
Definition received_fragment (ip : ParsedIpPacket) (identification total : Z) (piece : Z * list Z) : ParsedIpPacket :=
  {| version := version ip; source := source ip; destination := destination ip;
     next_header := next_header ip; hop_limit := hop_limit ip;
     fragment := Some (mkFragmentInfo identification piece.1 (piece.1 + len piece.2 <? total));
     fragment_payload := Some piece.2; payload := piece.2 |}.

Lemma tiles_le o total ps : tiles o total ps -> o <= total.
Proof.
  revert o. induction ps as [|[q c] ps IH]; intros o T; cbn [tiles] in T; [lia|].
  destruct T as (_ & ? & _ & T). apply IH in T. lia.
Qed.

Lemma tiles_in o total ps p : tiles o total ps -> (8 | o) -> p ∈ ps ->
  o <= p.1 /\ (8 | p.1) /\ 0 < len p.2 /\ p.1 + len p.2 <= total.
Proof.
  revert o. induction ps as [|[q c] ps IH]; intros o T D Hin; [by apply not_elem_of_nil in Hin|].
  cbn [tiles] in T. destruct T as (-> & Hc & D8 & T). pose proof (tiles_le _ _ _ T).
  apply elem_of_cons in Hin as [->|Hin]; [cbn; split_and!; done || lia|].
  assert (o + len c < total) as Hlt.
  { destruct ps as [|[q c'] ps]; [by apply not_elem_of_nil in Hin|]. cbn [tiles] in T.
    destruct T as (_ & ? & _ & T). apply tiles_le in T. lia. }
  destruct (IH (o + len c) T (Z.divide_add_r _ _ _ D (D8 Hlt)) Hin) as (? & ? & ?). split; [lia|done].
Qed.

(** The fragments of an IPv4 packet that exceeds the MTU. *)
Lemma fragment_ipv4_value le p ip mtu identification b0 tos total id bits ttl proto ck src dst opts body rest :
  ip4_view p ip b0 tos total id bits ttl proto ck src dst opts body rest ->
  is_u32 identification -> 68 <= mtu < total ->
  exists pieces fs copied, copied_ipv4_options opts = Ok copied /\ validate_ipv4_options copied = Ok tt /\
    fragment_ipv4 le (ip4_header b0 tos total id bits ttl proto (to_be16 ck) src dst opts ++ body) mtu identification = Ok fs /\
    tiles 0 (len body) pieces /\ concat pieces.*2 = body /\
    Forall2 (ip4_fragment_of tos ttl proto src dst opts copied body identification) pieces fs /\
    Forall (fun q => 20 + len (options_at opts copied q.1) + len q.2 <= mtu) pieces.
Proof.
  intros [_ Hok Hck Ht Hv Hbody _ _ _ _ _ _] Hid Hm. pose proof (len_nonneg opts) as Ho. pose proof (len_nonneg body).
  destruct (copied_options_spec opts) as (copied & Ec & Cok & C4 & Cle & Cv); [apply Hok..|done|].
  assert (len opts <= 40) as H40 by apply Hok. pose proof (len_nonneg copied).
  pose proof (ip4_header_len b0 tos total id bits ttl proto (to_be16 ck) src dst opts eq_refl
    (proj1 (i4_src _ _ _ _ _ _ _ _ _ _ Hok)) (proj1 (i4_dst _ _ _ _ _ _ _ _ _ _ Hok))) as Lh.
  assert (forall h, 20 <= h <= 60 -> exists c, aligned_chunk mtu h = Ok c) as Hal.
  { intros h Hh. unfold aligned_chunk, checked_sub. rewrite (proj2 (Z.leb_le h mtu)) by lia. cbn.
    assert (1 <= (mtu - h) / 8) by (apply Z.div_le_lower_bound; lia).
    rewrite (proj2 (Z.eqb_neq _ 0)) by lia. by eexists. }
  destruct (Hal (20 + len opts)) as (first & E1); [lia|]. destruct (Hal (20 + len copied)) as (later & E2); [lia|].
  destruct (aligned_chunk_Ok _ _ _ E1) as (F0 & F8 & Fm). destruct (aligned_chunk_Ok _ _ _ E2) as (L0 & L8 & Lm).
  destruct (fragment_loop_value le tos ttl proto src dst opts copied body identification b0 total id bits (to_be16 ck)
    Hok eq_refl Ht Hid Cok C4 Cle first later (S (length body)) 0 [] F0 L0 F8 L8) as (fs & Ef & Hfs);
    [lia|intros _; by exists 0|unfold len; lia|].
  exists (cut (S (length body)) first later 0 body), fs, copied. split_and!; [done|done| | | |done|].
  - destruct (ip4_first_byte (len opts)) as (F1 & _); [apply Hok|lia|]. rewrite <- (i4_b0 _ _ _ _ _ _ _ _ _ _ Hok) in F1.
    set (h := ip4_header b0 tos total id bits ttl proto (to_be16 ck) src dst opts) in *.
    assert (idx (E := WireError) (h ++ body) 0 = Ok b0) as I0 by done.
    assert (sub (h ++ body) 20 (20 + len opts) = opts) as So.
    { unfold h. rewrite ip4_header_options, <- (assoc_L (++)).
      rewrite sub_app_r; [|by rewrite ip4_header_len by (done || apply Hok)|lia]. apply sub_app_l. lia. }
    unfold fragment_ipv4, slice_from. rewrite I0. cbn [mbind outcome_bind]. rewrite F1.
    rewrite !slice_Ok by (rewrite ?len_app; lia). cbn [mbind outcome_bind]. rewrite So, Ec. cbn [mbind outcome_bind].
    rewrite E1. cbn [mbind outcome_bind]. rewrite E2. cbn [mbind outcome_bind].
    rewrite sub_app_tail by (rewrite ?len_app; lia). exact Ef.
  - apply cut_tiles; try done; try lia. unfold len; lia.
  - rewrite cut_concat; [apply sub_all|done|done|lia|unfold len; lia].
  - eapply Forall_impl; [apply (cut_capacity _ first later); lia|]. intros [o c]. cbn. unfold options_at. case_bool; lia.
Qed.

Lemma view_total {E} p ip b0 tos total id bits ttl proto ck src dst opts body rest :
  ip4_view p ip b0 tos total id bits ttl proto ck src dst opts body rest -> idx_be16 (E := E) p 2 = Ok total.
Proof. intros [-> _ _ _ _ _ _ _ _ _ _ _]. transitivity (Ok (E := E) (be16 (total / 256) (total mod 256))); [done|by rewrite be16_to_be16]. Qed.

Lemma view_whole p ip b0 tos total id bits ttl proto ck src dst opts body rest :
  ip4_view p ip b0 tos total id bits ttl proto ck src dst opts body rest ->
  sub p 0 total = ip4_header b0 tos total id bits ttl proto (to_be16 ck) src dst opts ++ body /\ total <= len p.
Proof.
  intros [-> Hok _ -> _ _ _ _ _ _ _ _]. rewrite (assoc_L (++)), len_app.
  set (n := len (ip4_header _ _ _ _ _ _ _ _ _ _ _ ++ body)). pose proof (len_nonneg rest).
  assert (n = 20 + len opts + len body) as E by (unfold n; rewrite len_app, ip4_header_len by (done || apply Hok); lia).
  split; [|lia]. apply sub_app_l. lia.
Qed.

(** The piece of a fragment within the MTU of an oversized packet is a proper one. *)
Lemma proper_fragment id o (c : list Z) total : (o = 0 -> len c < total) ->
  fragment_info id o (o + len c <? total) = Some (mkFragmentInfo id o (o + len c <? total)).
Proof.
  intros H. unfold fragment_info. destruct (Z.eqb_spec o 0) as [->|]; [|done]. cbn [negb orb].
  by rewrite (proj2 (Z.ltb_lt _ _)) by (apply H; done).
Qed.

(** A locally made IPv4 packet is fragmented whenever the MTU is at least 68
    bytes: it goes out whole if it fits; otherwise its payload is cut into
    consecutive non-empty pieces, all but the last a multiple of eight bytes long,
    and each piece becomes a packet of at most the MTU that every receiver parses
    as a fragment of the same flow, with the piece, its offset, the
    more-fragments flag exactly on all but the last, and the given
    identification. *)
Lemma ipv4_fragments_cover (le le' : bool) (packet : list Z) (mtu identification : Z) (ip : ParsedIpPacket) :
  bytes_ok packet -> is_u32 identification -> 68 <= mtu ->
  parse_ip_packet le packet true = Ok ip -> version ip = IpV4 -> fragmented ip = false ->
  exists fs, fragment_outbound_ip_packet le packet mtu identification = Ok fs /\
    ((exists total, idx_be16 (E := unit) packet 2 = Ok total /\ total <= mtu /\ fs = [sub packet 0 total]) \/
     exists pieces, tiles 0 (len (payload ip)) pieces /\ concat pieces.*2 = payload ip /\
       Forall2 (fun piece f => len f <= mtu /\
         parse_ip_packet le' f true = Ok (received_fragment ip (identification mod 65536) (len (payload ip)) piece))
         pieces fs).
Proof.
  intros Hp Hid Hm E Hv Hf.
  destruct (parse_ip4_inv le packet ip Hp E Hv) as (b0 & tos & total & id & bits & ttl & proto & ck & src & dst & opts & body &
    rest & V).
  destruct (view_whole _ _ _ _ _ _ _ _ _ _ _ _ _ _ _ V) as [Ew Hle].
  assert (0 <= total) by (pose proof (v4_total _ _ _ _ _ _ _ _ _ _ _ _ _ _ _ V); pose proof (len_nonneg opts); pose proof (len_nonneg body); lia).
  unfold fragment_outbound_ip_packet. rewrite E. cbn [mbind outcome_bind]. rewrite Hv, (view_total _ _ _ _ _ _ _ _ _ _ _ _ _ _ _ V), Hf.
  cbn [mbind outcome_bind]. rewrite slice_Ok by lia. destruct (Z.leb_spec total mtu) as [Hs|Hl].
  { eexists. split; [reflexivity|]. left. exists total. by rewrite (view_total _ _ _ _ _ _ _ _ _ _ _ _ _ _ _ V). }
  destruct (fragment_ipv4_value le _ _ mtu identification _ _ _ _ _ _ _ _ _ _ _ _ _ V Hid ltac:(lia))
    as (pieces & fs & copied & Ec & Cv & Ef & Ht & Hc & H2 & Hcap).
  cbn [mbind outcome_bind]. rewrite Ew, Ef. exists fs. split; [done|]. right. exists pieces.
  rewrite (v4_payload _ _ _ _ _ _ _ _ _ _ _ _ _ _ _ V). split_and!; [done|done|].
  apply Forall2_same_length_lookup. split; [by eapply Forall2_length|]. intros i [o c] f Hi Hfi.
  pose proof (tiles_in _ _ _ _ Ht ltac:(by exists 0) (list_elem_of_lookup_2 _ _ _ Hi)) as (Ho & Do & Hc0 & Hce).
  pose proof (proj1 (Forall_lookup _ _) Hcap i _ Hi) as Hcapi. cbn [fst snd] in *.
  destruct (Forall2_lookup_lr _ _ _ _ _ _ H2 Hi Hfi) as (Hok & k & Hk & -> & Hv1).
  pose proof (i4_total _ _ _ _ _ _ _ _ _ _ Hok) as Hu. pose proof (len_nonneg (options_at opts copied o)).
  split; [rewrite len_app, ip4_header_len by (done || apply Hok); lia|].
  pose proof (v4_total _ _ _ _ _ _ _ _ _ _ _ _ _ _ _ V) as Htot. pose proof (len_nonneg opts).
  assert (total <= 65535) by apply (i4_total _ _ _ _ _ _ _ _ _ _ (v4_ok _ _ _ _ _ _ _ _ _ _ _ _ _ _ _ V)).
  rewrite (parse_ip4 le'); [|done|done|lia|done|lia| |done].
  - rewrite proper_fragment.
    + destruct V. unfold received_fragment. cbn. congruence.
    + intros ->. unfold options_at in Hcapi. cbn in Hcapi. lia.
  - unfold options_at. case_bool; [apply V|done].
Qed.

(** ** IPv6 fragments *)
