(* ===== verification/Reassembly.v ===== *)
(** The reassembler of [sail-netstack/src/ip/reassembly.rs]: pieces of a datagram
    kept under a key until they tile it, their expiry by the timer queue under a
    pressure-dependent timeout, the eviction of the oldest datagram, and the
    leases every piece and datagram holds.

    A [BTreeMap] of pieces is an association list kept sorted by offset; the
    eviction index is a map whose first key is the least.  The iteration order of
    a hash map is that of [map_to_list].  An early return drops the leases that
    were acquired before it. *)
From S2P Require Import Prelude StateMonad Checksum IpWire Budget Timer TimerRefine TimerInterface Pmtu.
From stdpp Require Import list sorting gmap.
#[local] Open Scope Z_scope.

Definition ASSEMBLY_METADATA_BYTES : Z := 192.
Definition PIECE_METADATA_BYTES : Z := 64.
Definition MAX_REASSEMBLED_BYTES : Z := 65535.
Definition FRAGMENT_TIMER_MIN_TICK_MS : Z := 10.
Definition FRAGMENT_SAFE_DELTA_TICKS : Z := 4294967294.

(** ** Data *)
Record FragmentKey := mkFragmentKey {
  fk_version : IpVersion; fk_source : IpAddr; fk_destination : IpAddr; fk_protocol : Z; fk_identification : Z
}.

#[export] Instance IpVersion_countable : Countable IpVersion.
Proof.
  apply (inj_countable' (fun v => match v with IpV4 => true | IpV6 => false end)
    (fun b : bool => if b then IpV4 else IpV6)). by intros [].
Defined.
#[export] Instance FragmentKey_eq_dec : EqDecision FragmentKey.
Proof. solve_decision. Defined.
#[export] Instance FragmentKey_countable : Countable FragmentKey.
Proof.
  apply (inj_countable' (fun k => (fk_version k, fk_source k, fk_destination k, fk_protocol k, fk_identification k))
    (fun p => mkFragmentKey p.1.1.1.1 p.1.1.1.2 p.1.1.2 p.1.2 p.2)). by intros [].
Defined.

Record Piece := mkPiece { pc_bytes : list Z; pc_slot : BudgetLease; pc_payload : BudgetLease; pc_metadata : BudgetLease }.

Record Assembly := mkAssembly {
  as_header : option (list Z);
  as_previous_next_header : option Z;
  as_protocol : Z;
  as_pieces : list (Z * Piece);
  as_total_payload_len : option Z;
  as_created_at_ms : Z;
  as_expiry_timer : TimerId;
  as_eviction_key : Z * Z;
  as_metadata : BudgetLease
}.

Record PendingFragmentCredit := mkCredit {
  cr_slot : BudgetLease; cr_payload : BudgetLease; cr_piece_metadata : BudgetLease; cr_assembly_metadata : option BudgetLease
}.

Record FragmentStats := mkFragmentStats {
  fs_active_datagrams : Z; fs_buffered_fragments : Z; fs_completed_datagrams : Z; fs_expired_datagrams : Z;
  fs_evicted_datagrams : Z; fs_overlap_drops : Z
}.

Record FragmentExpirations := mkExpirations { fx_expired_datagrams : Z; fx_invoking_packets : list (list Z) }.

Inductive FragmentError :=
| FragmentWire (e : WireError)
| FragmentBudget (e : BudgetError)
| FragmentClockWentBackwards
| FragmentTimer (e : TimerError)
| FragmentMalformed (message : string)
| FragmentOverlap.

(** [From<TimerError>]. *)
Definition fragment_timer_error (e : TimerError) : FragmentError :=
  match e with ClockWentBackwards _ _ => FragmentClockWentBackwards | DeadlineOutOfRange => FragmentTimer e end.

(** [u32::try_from(..).unwrap_or(u32::MAX)] and [u32::saturating_add]. *)
Definition len32 (l : list Z) : Z := default u32_max (try_u32 (len l)).
Definition sat_add32 (a b : Z) : Z := Z.min (a + b) u32_max.

(** ** Functions of a packet or an assembly *)
Definition fragment_end (f : FragmentInfo) (payload_len : Z) : outcome FragmentError Z :=
  if payload_len =? 0 then Err (FragmentMalformed "empty non-atomic fragment")
  else if more_fragments f && negb (payload_len mod 8 =? 0)
  then Err (FragmentMalformed "non-final fragment payload is not a multiple of eight")
  else
    length ← ok_or (try_u32 payload_len) (FragmentMalformed "fragment payload length exceeds u32");
    end_ ← ok_or (try_u32 (offset_bytes f + length)) (FragmentMalformed "fragment range overflow");
    if MAX_REASSEMBLED_BYTES <? end_ then Err (FragmentMalformed "reassembled datagram is too large") else mret end_.

Definition reassembled_size_exceeds (v : IpVersion) (header_len payload_len : Z) : bool :=
  let field_len := match v with
                   | IpV4 => checked_add header_len payload_len
                   | IpV6 => n ← checked_sub header_len 40; checked_add n payload_len
                   end in
  match field_len with Some length => u16_max <? length | None => true end.

Definition validate_reassembled_size (v : IpVersion) (header_len payload_len : Z) : outcome FragmentError unit :=
  if reassembled_size_exceeds v header_len payload_len
  then Err (FragmentMalformed "reassembled IP datagram is too large") else mret tt.

(** The walk of [ipv6_fragment_header]; [rounds] is what is left of the eight. *)
Fixpoint ipv6_fragment_header_loop (rounds : nat) (packet : list Z) (next_header offset previous_next_header : Z)
    : outcome FragmentError (list Z * option Z * Z) :=
  match rounds with
  | O => Err (FragmentMalformed "IPv6 extension chain exceeds limit")
  | S rounds =>
    if next_header =? 44 then
      if len packet <? offset + 8 then Err (FragmentMalformed "truncated IPv6 fragment header")
      else
        header ← slice packet 0 offset;
        protocol ← idx packet offset;
        mret (header, Some previous_next_header, protocol)
    else
      length ← (if (next_header =? 0) || (next_header =? 43) || (next_header =? 60)
                then units ← idx packet (offset + 1); mret ((units + 1) * 8)
                else if next_header =? 51 then units ← idx packet (offset + 1); mret ((units + 2) * 4)
                else Err (FragmentMalformed "IPv6 fragment header not found"));
      if len packet <? offset + length then Err (FragmentMalformed "truncated IPv6 extension header")
      else
        next ← idx packet offset;
        ipv6_fragment_header_loop rounds packet next (offset + length) offset
  end.
Definition ipv6_fragment_header (packet : list Z) : outcome FragmentError (list Z * option Z * Z) :=
  next_header ← idx packet 6;
  ipv6_fragment_header_loop 8 packet next_header 40 6.

Definition fragment_header (packet : list Z) (v : IpVersion) : outcome FragmentError (list Z * option Z * Z) :=
  match v with
  | IpV4 =>
    b0 ← idx packet 0;
    header ← slice packet 0 (Z.land b0 0x0f * 4);
    protocol ← idx packet 9;
    mret (header, None, protocol)
  | IpV6 => ipv6_fragment_header packet
  end.

Fixpoint pieces_end (expected : Z) (pieces : list (Z * Piece)) : option Z :=
  match pieces with
  | [] => Some expected
  | (offset, piece) :: pieces =>
    if offset =? expected then pieces_end (sat_add32 expected (len32 (pc_bytes piece))) pieces else None
  end.
Definition is_complete (a : Assembly) : bool :=
  match as_total_payload_len a, as_header a with
  | Some total, Some _ => match pieces_end 0 (as_pieces a) with Some expected => expected =? total | None => false end
  | _, _ => false
  end.

Definition ipv4_checksum {E} (header : list Z) : outcome E Z := header_checksum header.

Definition rebuild (a : Assembly) (v : IpVersion) : outcome FragmentError (list Z) :=
  header ← ok_or (as_header a) (FragmentMalformed "missing first fragment");
  let packet := header ++ concat (map (fun p => pc_bytes p.2) (as_pieces a)) in
  match v with
  | IpV4 =>
    total ← ok_or (try_u16 (len packet)) (FragmentMalformed "IPv4 datagram too large");
    packet ← write_at packet 2 (to_be16 total);
    packet ← write_at packet 6 (to_be16 0);
    packet ← write_at packet 10 (to_be16 0);
    b0 ← idx packet 0;
    header ← slice packet 0 (Z.land b0 0x0f * 4);
    checksum ← ipv4_checksum header;
    write_at packet 10 (to_be16 checksum)
  | IpV6 =>
    previous ← ok_or (as_previous_next_header a) (FragmentMalformed "missing IPv6 fragment predecessor");
    packet ← write_at packet previous [as_protocol a];
    payload_len ← ok_or (try_u16 (sat_sub (len packet) 40)) (FragmentMalformed "IPv6 datagram too large");
    write_at packet 4 (to_be16 payload_len)
  end.

(** The first fragment of a datagram that timed out, for the ICMP quote. *)
Definition initial_fragment_packet (a : Assembly) (key : FragmentKey) : outcome FragmentError (option (list Z)) :=
  match list_find (fun p => p.1 = 0) (as_pieces a), as_header a with
  | Some (_, (_, first)), Some packet =>
    match fk_version key with
    | IpV4 => mret (Some (packet ++ pc_bytes first))
    | IpV6 =>
      match (n ← checked_sub (len packet) 40; n ← checked_add n 8; n ← checked_add n (len (pc_bytes first)); try_u16 n) with
      | Some payload_len =>
        packet ← write_at packet 4 (to_be16 payload_len);
        mret (Some (packet ++ [as_protocol a; 0] ++ to_be16 1 ++ to_be32 (fk_identification key) ++ pc_bytes first))
      | None => mret None
      end
    end
  | _, _ => mret None
  end.

(** Field updates of a datagram. *)
Definition with_header (header : list Z) (previous : option Z) (a : Assembly) : Assembly :=
  mkAssembly (Some header) previous (as_protocol a) (as_pieces a) (as_total_payload_len a) (as_created_at_ms a)
    (as_expiry_timer a) (as_eviction_key a) (as_metadata a).
Definition with_total (total : Z) (a : Assembly) : Assembly :=
  mkAssembly (as_header a) (as_previous_next_header a) (as_protocol a) (as_pieces a) (Some total) (as_created_at_ms a)
    (as_expiry_timer a) (as_eviction_key a) (as_metadata a).
Definition with_pieces (pieces : list (Z * Piece)) (a : Assembly) : Assembly :=
  mkAssembly (as_header a) (as_previous_next_header a) (as_protocol a) pieces (as_total_payload_len a)
    (as_created_at_ms a) (as_expiry_timer a) (as_eviction_key a) (as_metadata a).
Definition with_timer (timer : TimerId) (a : Assembly) : Assembly :=
  mkAssembly (as_header a) (as_previous_next_header a) (as_protocol a) (as_pieces a) (as_total_payload_len a)
    (as_created_at_ms a) timer (as_eviction_key a) (as_metadata a).

(** [BTreeMap::insert]; the piece it replaces is returned. *)
Fixpoint insert_piece (offset : Z) (p : Piece) (l : list (Z * Piece)) : list (Z * Piece) * option Piece :=
  match l with
  | [] => ([(offset, p)], None)
  | (o, q) :: rest =>
    if offset <? o then ((offset, p) :: l, None)
    else if offset =? o then ((offset, p) :: rest, Some q)
    else let '(rest, old) := insert_piece offset p rest in ((o, q) :: rest, old)
  end.

(** ** The reassembler *)
Section Reassembler.
Context {W : Type} `{!TimerQueue FragmentKey W} (budget : ResourceBudget).

Record FragmentReassembler := mkReassembler {
  fr_timeout_ms : Z;
  fr_now_ms : Z;
  fr_timeout_divisor : Z;
  fr_expiry_tick_ms : Z;
  fr_expiry : W;
  fr_assemblies : gmap FragmentKey Assembly;
  fr_eviction_index : gmap (Z * Z) FragmentKey;
  fr_next_eviction_serial : Z;
  fr_stats : FragmentStats
}.

(** The reassembler with the ledger it shares. *)
Definition fstate : Type := FragmentReassembler * ResourceLedger.
Definition FM (A : Type) : Type := sm fstate FragmentError A.

Definition set_fr_now (v : Z) (r : FragmentReassembler) : FragmentReassembler :=
  mkReassembler (fr_timeout_ms r) v (fr_timeout_divisor r) (fr_expiry_tick_ms r) (fr_expiry r) (fr_assemblies r)
    (fr_eviction_index r) (fr_next_eviction_serial r) (fr_stats r).
Definition set_fr_divisor (v : Z) (r : FragmentReassembler) : FragmentReassembler :=
  mkReassembler (fr_timeout_ms r) (fr_now_ms r) v (fr_expiry_tick_ms r) (fr_expiry r) (fr_assemblies r)
    (fr_eviction_index r) (fr_next_eviction_serial r) (fr_stats r).
Definition set_fr_expiry (w : W) (r : FragmentReassembler) : FragmentReassembler :=
  mkReassembler (fr_timeout_ms r) (fr_now_ms r) (fr_timeout_divisor r) (fr_expiry_tick_ms r) w (fr_assemblies r)
    (fr_eviction_index r) (fr_next_eviction_serial r) (fr_stats r).
Definition set_fr_tables (m : gmap FragmentKey Assembly) (index : gmap (Z * Z) FragmentKey) (r : FragmentReassembler)
    : FragmentReassembler :=
  mkReassembler (fr_timeout_ms r) (fr_now_ms r) (fr_timeout_divisor r) (fr_expiry_tick_ms r) (fr_expiry r) m index
    (fr_next_eviction_serial r) (fr_stats r).
Definition set_fr_serial (v : Z) (r : FragmentReassembler) : FragmentReassembler :=
  mkReassembler (fr_timeout_ms r) (fr_now_ms r) (fr_timeout_divisor r) (fr_expiry_tick_ms r) (fr_expiry r)
    (fr_assemblies r) (fr_eviction_index r) v (fr_stats r).
Definition set_fr_stats (v : FragmentStats) (r : FragmentReassembler) : FragmentReassembler :=
  mkReassembler (fr_timeout_ms r) (fr_now_ms r) (fr_timeout_divisor r) (fr_expiry_tick_ms r) (fr_expiry r)
    (fr_assemblies r) (fr_eviction_index r) (fr_next_eviction_serial r) v.

Definition on_reassembler (f : FragmentReassembler -> FragmentReassembler) : FM unit := modify (fun s => (f s.1, s.2)).
Definition on_ledger (f : ResourceLedger -> ResourceLedger) : FM unit := modify (fun s => (s.1, f s.2)).
Definition on_expiry {A} (m : W -> W * outcome TimerError A) : FM A :=
  on (fun s => fr_expiry s.1) (fun w s => (set_fr_expiry w s.1, s.2)) fragment_timer_error m.

Definition count_stats (f : FragmentStats -> FragmentStats) (r : FragmentReassembler) : FragmentReassembler :=
  set_fr_stats (f (fr_stats r)) r.
Definition st_removed (active pieces : Z) (s : FragmentStats) : FragmentStats :=
  mkFragmentStats active (sat_sub (fs_buffered_fragments s) pieces) (fs_completed_datagrams s)
    (fs_expired_datagrams s) (fs_evicted_datagrams s) (fs_overlap_drops s).
Definition st_active (active : Z) (s : FragmentStats) : FragmentStats :=
  mkFragmentStats active (fs_buffered_fragments s) (fs_completed_datagrams s)
    (fs_expired_datagrams s) (fs_evicted_datagrams s) (fs_overlap_drops s).
Definition st_buffered (s : FragmentStats) : FragmentStats :=
  mkFragmentStats (fs_active_datagrams s) (sat_add (fs_buffered_fragments s) 1) (fs_completed_datagrams s)
    (fs_expired_datagrams s) (fs_evicted_datagrams s) (fs_overlap_drops s).
Definition st_completed (s : FragmentStats) : FragmentStats :=
  mkFragmentStats (fs_active_datagrams s) (fs_buffered_fragments s) (sat_add (fs_completed_datagrams s) 1)
    (fs_expired_datagrams s) (fs_evicted_datagrams s) (fs_overlap_drops s).
Definition st_expired (n : Z) (s : FragmentStats) : FragmentStats :=
  mkFragmentStats (fs_active_datagrams s) (fs_buffered_fragments s) (fs_completed_datagrams s)
    (sat_add (fs_expired_datagrams s) n) (fs_evicted_datagrams s) (fs_overlap_drops s).
Definition st_evicted (s : FragmentStats) : FragmentStats :=
  mkFragmentStats (fs_active_datagrams s) (fs_buffered_fragments s) (fs_completed_datagrams s)
    (fs_expired_datagrams s) (sat_add (fs_evicted_datagrams s) 1) (fs_overlap_drops s).
Definition st_overlap (s : FragmentStats) : FragmentStats :=
  mkFragmentStats (fs_active_datagrams s) (fs_buffered_fragments s) (fs_completed_datagrams s)
    (fs_expired_datagrams s) (fs_evicted_datagrams s) (sat_add (fs_overlap_drops s) 1).

(** Dropping a piece or a datagram drops its leases, in the order of the fields. *)
Definition piece_leases (p : Piece) : list BudgetLease := [pc_slot p; pc_payload p; pc_metadata p].
Definition assembly_leases (a : Assembly) : list BudgetLease :=
  flat_map (fun p => piece_leases p.2) (as_pieces a) ++ [as_metadata a].
Definition drop_leases (ls : list BudgetLease) (l : ResourceLedger) : ResourceLedger :=
  foldl (fun l x => drop_lease x l) l ls.

Definition fragment_tick (timeout_ms : Z) : Z :=
  Z.max (div_ceil timeout_ms FRAGMENT_SAFE_DELTA_TICKS) FRAGMENT_TIMER_MIN_TICK_MS.

Definition reassembler_new (timeout_ms : Z) : outcome TimerError FragmentReassembler :=
  if 0 <? timeout_ms then
    w ← tq_new (fragment_tick timeout_ms) 0;
    mret (mkReassembler timeout_ms 0 1 (fragment_tick timeout_ms) w ∅ ∅ 0 (mkFragmentStats 0 0 0 0 0 0))
  else Panic.

Definition fragment_update_time (now_ms : Z) : FM unit :=
  s ← get_state;
  if now_ms <? fr_now_ms s.1 then throw FragmentClockWentBackwards else on_reassembler (set_fr_now now_ms).

Definition effective_timeout (r : FragmentReassembler) (timeout_divisor : Z) : Z :=
  Z.max (fr_timeout_ms r / Z.max timeout_divisor 1) 1.

Definition take_assembly (key : FragmentKey) : FM (option Assembly) :=
  s ← get_state;
  match fr_assemblies s.1 !! key with
  | None => mret None
  | Some a =>
    _ ← on_reassembler (fun r =>
          let m := delete key (fr_assemblies r) in
          count_stats (st_removed (Z.of_nat (size m)) (len (as_pieces a)))
            (set_fr_tables m (delete (as_eviction_key a) (fr_eviction_index r)) r));
    mret (Some a)
  end.

Definition remove_assembly (key : FragmentKey) : FM (option Assembly) :=
  taken ← take_assembly key;
  match taken with
  | None => mret None
  | Some a =>
    _ ← on_expiry (fun w => let '(w, _) := tq_cancel (as_expiry_timer a) w in (w, Ok tt));
    mret (Some a)
  end.

(** [self.remove_assembly(&key);] as a statement: what it returns is dropped. *)
Definition discard_assembly (key : FragmentKey) : FM bool :=
  removed ← remove_assembly key;
  match removed with
  | None => mret false
  | Some a => _ ← on_ledger (drop_leases (assembly_leases a)); mret true
  end.

Fixpoint fragment_expire_due (due : list FragmentKey) (max_quotes : Z) (expired : FragmentExpirations)
    : FM FragmentExpirations :=
  match due with
  | [] => mret expired
  | key :: due =>
    taken ← take_assembly key;
    match taken with
    | None => fragment_expire_due due max_quotes expired
    | Some a =>
      let n := sat_add (fx_expired_datagrams expired) 1 in
      packets ← (if len (fx_invoking_packets expired) <? max_quotes then
                   quote ← lift (initial_fragment_packet a key);
                   mret (match quote with
                         | Some packet => fx_invoking_packets expired ++ [packet]
                         | None => fx_invoking_packets expired
                         end)
                 else mret (fx_invoking_packets expired));
      _ ← on_ledger (drop_leases (assembly_leases a));
      fragment_expire_due due max_quotes (mkExpirations n packets)
    end
  end.

Definition advance_current (now_ms : Z) : FM Z :=
  _ ← fragment_update_time now_ms;
  due ← on_expiry (tq_advance now_ms);
  expired ← fragment_expire_due due 0 (mkExpirations 0 []);
  _ ← on_reassembler (count_stats (st_expired (fx_expired_datagrams expired)));
  mret (fx_expired_datagrams expired).

(** [assembly.field = ..] through the borrowed entry. *)
Definition put_assembly (key : FragmentKey) (a : Assembly) : FM unit :=
  on_reassembler (fun r => set_fr_tables (<[key := a]> (fr_assemblies r)) (fr_eviction_index r) r).

(** The loop of [rebuild_expiry] over the datagrams. *)
Fixpoint reschedule (now_ms timeout : Z) (es : list (FragmentKey * Assembly)) (expired : list FragmentKey)
    : FM (list FragmentKey) :=
  match es with
  | [] => mret expired
  | (key, a) :: es =>
    if timeout <=? sat_sub now_ms (as_created_at_ms a) then reschedule now_ms timeout es (expired ++ [key])
    else
      timer ← on_expiry (tq_schedule (sat_add (as_created_at_ms a) timeout) key);
      _ ← put_assembly key (with_timer timer a);
      reschedule now_ms timeout es expired
  end.

Definition rebuild_expiry (now_ms timeout_divisor : Z) : FM (list FragmentKey) :=
  s ← get_state;
  let timeout := effective_timeout s.1 timeout_divisor in
  _ ← on_expiry (fun w => match tq_new (fr_expiry_tick_ms s.1) now_ms with
                          | Ok w' => (w', Ok tt)
                          | Err e => (w, Err e)
                          | Panic => (w, Panic)
                          | OutOfFuel => (w, OutOfFuel)
                          end);
  expired ← reschedule now_ms timeout (map_to_list (fr_assemblies s.1)) [];
  _ ← on_reassembler (set_fr_divisor timeout_divisor);
  mret expired.

Definition advance_time_under_pressure_with_quotes (now_ms timeout_divisor max_quotes : Z) : FM FragmentExpirations :=
  _ ← fragment_update_time now_ms;
  let timeout_divisor := Z.max timeout_divisor 1 in
  s ← get_state;
  due ← (if timeout_divisor =? fr_timeout_divisor s.1 then on_expiry (tq_advance now_ms)
         else rebuild_expiry now_ms timeout_divisor);
  expired ← fragment_expire_due due max_quotes (mkExpirations 0 []);
  _ ← on_reassembler (count_stats (st_expired (fx_expired_datagrams expired)));
  mret expired.

Definition advance_time_under_pressure (now_ms timeout_divisor : Z) : FM Z :=
  expired ← advance_time_under_pressure_with_quotes now_ms timeout_divisor 0;
  mret (fx_expired_datagrams expired).
Definition advance_time (now_ms : Z) : FM Z := advance_time_under_pressure now_ms 1.

(** ** Admission of a fragment *)
Definition piece_end (p : Z * Piece) : Z := sat_add32 p.1 (len32 (pc_bytes p.2)).

Definition overlaps (r : FragmentReassembler) (key : FragmentKey) (start end_ : Z) : bool :=
  match fr_assemblies r !! key with
  | None => false
  | Some a => existsb (fun p => (start <? piece_end p) && (p.1 <? end_)) (as_pieces a)
  end.

Definition conflicts (r : FragmentReassembler) (key : FragmentKey) (protocol : Z) (f : FragmentInfo)
    (end_ header_len : Z) : bool :=
  match fr_assemblies r !! key with
  | None => false
  | Some a =>
    if negb (as_protocol a =? protocol)
       || (match as_total_payload_len a with Some total => total <? end_ | None => false end) then true
    else if negb (more_fragments f) && existsb (fun p => end_ <? piece_end p) (as_pieces a) then true
    else
      let total := if more_fragments f then as_total_payload_len a else Some end_ in
      let final_header_len := if offset_bytes f =? 0 then Some header_len else len <$> as_header a in
      match total, final_header_len with
      | Some total, Some header_len => reassembled_size_exceeds (fk_version key) header_len total
      | _, _ => false
      end
  end.

Definition fragment_acquire (k : ResourceKind) (amount : Z) : FM BudgetLease :=
  on snd (fun l s => (s.1, l)) FragmentBudget (try_acquire budget k amount).

(** An early return in [m] drops the leases in hand. *)
Definition holding {A} (ls : list BudgetLease) (m : FM A) : FM A :=
  r ← attempt m;
  match r with
  | inl a => mret a
  | inr e => _ ← on_ledger (drop_leases ls); throw e
  end.

Definition try_acquire_fragment_credit (payload_len : Z) (needs_assembly : bool) : FM PendingFragmentCredit :=
  slot ← fragment_acquire Fragments 1;
  holding [slot] (
    payload ← fragment_acquire FragmentBytes payload_len;
    holding [payload] (
      piece_metadata ← fragment_acquire MetadataBytes PIECE_METADATA_BYTES;
      holding [piece_metadata] (
        assembly_metadata ← (if needs_assembly then
                               m ← fragment_acquire MetadataBytes ASSEMBLY_METADATA_BYTES; mret (Some m)
                             else mret None);
        mret (mkCredit slot payload piece_metadata assembly_metadata)))).

(** [BTreeMap::first_key_value] of the eviction index. *)
Definition pair_le (a b : (Z * Z) * FragmentKey) : Prop :=
  a.1.1 < b.1.1 \/ a.1.1 = b.1.1 /\ a.1.2 <= b.1.2.
#[global] Instance pair_le_dec a b : Decision (pair_le a b).
Proof. unfold pair_le. apply _. Defined.
Definition oldest (index : gmap (Z * Z) FragmentKey) : option FragmentKey :=
  snd <$> head (merge_sort pair_le (map_to_list index)).

Definition evict_oldest_assembly : FM bool :=
  s ← get_state;
  match oldest (fr_eviction_index s.1) with
  | None => mret false
  | Some key => discard_assembly key
  end.

Fixpoint acquire_fragment_credit_loop (fuel : nat) (key : FragmentKey) (payload_len : Z) : FM PendingFragmentCredit :=
  match fuel with
  | O => lift OutOfFuel
  | S fuel =>
    s ← get_state;
    let needs_assembly := bool_decide (fr_assemblies s.1 !! key = None) in
    r ← attempt (try_acquire_fragment_credit payload_len needs_assembly);
    match r with
    | inl credit => mret credit
    | inr e =>
      evicted ← evict_oldest_assembly;
      if (evicted : bool) then
        _ ← on_reassembler (count_stats st_evicted);
        acquire_fragment_credit_loop fuel key payload_len
      else throw e
    end
  end.
(** Every turn but the last evicts a datagram. *)
Definition acquire_fragment_credit (key : FragmentKey) (payload_len : Z) : FM PendingFragmentCredit :=
  s ← get_state;
  acquire_fragment_credit_loop (S (size (fr_assemblies s.1))) key payload_len.

Fixpoint next_eviction_key_loop (fuel : nat) (created_at_ms : Z) : FM (Z * Z) :=
  match fuel with
  | O => lift OutOfFuel
  | S fuel =>
    s ← get_state;
    let key := (created_at_ms, fr_next_eviction_serial s.1) in
    _ ← on_reassembler (set_fr_serial (wrap64 (fr_next_eviction_serial s.1 + 1)));
    if bool_decide (fr_eviction_index s.1 !! key = None) then mret key
    else next_eviction_key_loop fuel created_at_ms
  end.
(** One serial more than there are keys in use. *)
Definition next_eviction_key (created_at_ms : Z) : FM (Z * Z) :=
  s ← get_state;
  next_eviction_key_loop (S (size (fr_eviction_index s.1))) created_at_ms.

Definition credit_leases (c : PendingFragmentCredit) : list BudgetLease :=
  [cr_slot c; cr_payload c; cr_piece_metadata c].

(** The datagram of the first fragment that arrives for a key. *)
Definition open_assembly (key : FragmentKey) (protocol now_ms : Z) (credit : PendingFragmentCredit) : FM unit :=
  metadata ← lift (ok_or (cr_assembly_metadata credit) (FragmentMalformed "new assembly lacked metadata credit"));
  holding [metadata] (
    s ← get_state;
    let deadline := sat_add now_ms (effective_timeout s.1 (fr_timeout_divisor s.1)) in
    expiry_timer ← on_expiry (tq_schedule deadline key);
    eviction_key ← next_eviction_key now_ms;
    on_reassembler (fun r =>
      let m := <[key := mkAssembly None None protocol [] None now_ms expiry_timer eviction_key metadata]> (fr_assemblies r) in
      count_stats (st_active (Z.of_nat (size m)))
        (set_fr_tables m (<[eviction_key := key]> (fr_eviction_index r)) r))).

(** The piece goes in; the leases of the credit go with it. *)
Definition add_piece (key : FragmentKey) (f : FragmentInfo) (fragment_payload header : list Z)
    (previous : option Z) (end_ : Z) (credit : PendingFragmentCredit) : FM Assembly :=
  holding (credit_leases credit) (
    s ← get_state;
    a ← lift (ok_or (fr_assemblies s.1 !! key) (FragmentMalformed "fragment assembly disappeared"));
    let a := if offset_bytes f =? 0 then with_header header previous a else a in
    _ ← put_assembly key a;
    a ← (if more_fragments f then mret a
         else if match as_total_payload_len a with Some total => negb (total =? end_) | None => false end then
           _ ← discard_assembly key;
           throw (FragmentMalformed "conflicting final fragment lengths")
         else mret (with_total end_ a));
    let '(pieces, old) := insert_piece (offset_bytes f)
      (mkPiece fragment_payload (cr_slot credit) (cr_payload credit) (cr_piece_metadata credit)) (as_pieces a) in
    _ ← on_ledger (drop_leases (match old with Some p => piece_leases p | None => [] end));
    let a := with_pieces pieces a in
    _ ← put_assembly key a;
    _ ← on_reassembler (count_stats st_buffered);
    mret a).

(** A complete datagram is taken out and rebuilt. *)
Definition finish_assembly (key : FragmentKey) : FM (option (list Z)) :=
  removed ← remove_assembly key;
  a ← lift (ok_or removed (FragmentMalformed "complete assembly disappeared"));
  _ ← on_ledger (drop_leases (assembly_leases a));
  packet ← lift (rebuild a (fk_version key));
  _ ← on_reassembler (count_stats st_completed);
  mret (Some packet).

(** From the credit to the packet, for a fragment that has passed the checks. *)
Definition accept_fragment (key : FragmentKey) (f : FragmentInfo) (fragment_payload header : list Z)
    (previous : option Z) (protocol end_ now_ms : Z) : FM (option (list Z)) :=
  credit ← acquire_fragment_credit key (len fragment_payload);
  s ← get_state;
  _ ← (if bool_decide (fr_assemblies s.1 !! key = None)
       then holding (credit_leases credit) (open_assembly key protocol now_ms credit) else mret tt);
  a ← add_piece key f fragment_payload header previous end_ credit;
  if is_complete a then finish_assembly key else mret None.

Definition fragment_key (ip : ParsedIpPacket) (f : FragmentInfo) (protocol : Z) : FragmentKey :=
  mkFragmentKey (version ip) (source ip) (destination ip)
    (if bool_decide (version ip = IpV4) then protocol else 0) (identification f).

Definition wire_outcome {A} (m : outcome WireError A) : outcome FragmentError A :=
  match m with Ok a => Ok a | Err e => Err (FragmentWire e) | Panic => Panic | OutOfFuel => OutOfFuel end.

Definition ingest_fragment (packet : list Z) (ip : ParsedIpPacket) (f : FragmentInfo) (now_ms : Z)
    : FM (option (list Z)) :=
  let fragment_payload := default (payload ip) (fragment_payload ip) in
  end_ ← lift (fragment_end f (len fragment_payload));
  '(header, previous, protocol) ← lift (fragment_header packet (version ip));
  _ ← lift (validate_reassembled_size (version ip) (len header) end_);
  let key := fragment_key ip f protocol in
  s ← get_state;
  if overlaps s.1 key (offset_bytes f) end_ then
    _ ← discard_assembly key;
    _ ← on_reassembler (count_stats st_overlap);
    throw FragmentOverlap
  else if conflicts s.1 key protocol f end_ (len header) then
    _ ← discard_assembly key;
    throw (FragmentMalformed "fragment conflicts with established datagram bounds")
  else accept_fragment key f fragment_payload header previous protocol end_ now_ms.

Definition ingest (le : bool) (packet : list Z) (now_ms : Z) : FM (option (list Z)) :=
  _ ← advance_current now_ms;
  ip ← lift (wire_outcome (parse_ip_packet le packet true));
  match fragment ip with
  | None => mret (Some packet)
  | Some f => if is_atomic f then mret (Some packet) else ingest_fragment packet ip f now_ms
  end.

Definition reassembler_clear : FM unit := fun s =>
  let r := s.1 in
  let st := fr_stats r in
  let l := foldr (fun p l => drop_leases (assembly_leases p.2) l) s.2 (map_to_list (fr_assemblies r)) in
  let cleared w active buffered :=
    mkReassembler (fr_timeout_ms r) (fr_now_ms r) (fr_timeout_divisor r) (fr_expiry_tick_ms r) w ∅ ∅
      (fr_next_eviction_serial r)
      (mkFragmentStats active buffered (fs_completed_datagrams st) (fs_expired_datagrams st) (fs_evicted_datagrams st)
         (fs_overlap_drops st)) in
  match tq_new (fr_expiry_tick_ms r) (fr_now_ms r) with
  | Ok w => ((cleared w 0 0, l), Ok tt)
  | _ => ((cleared (fr_expiry r) (fs_active_datagrams st) (fs_buffered_fragments st), l), Panic)
  end.

Definition fragment_next_deadline_ms (r : FragmentReassembler) : option Z := tq_next_deadline (fr_expiry r).
End Reassembler.
