(* ===== verification/ReassemblyInv.v ===== *)
(** The invariant of the reassembler ([sail-netstack/src/ip/reassembly.rs]): one
    timer and one eviction key per datagram, disjoint pieces within 64 KiB, a
    header that fits what it announces, and leases accounted for to the byte. *)
From S2P Require Import Prelude StateMonad Checksum IpWire Budget Timer TimerRefine TimerInterface Leases ExpiryIndex.
From S2P Require Import Pmtu Fragmentation FragmentTheorems Reassembly.
From stdpp Require Import list sorting gmap.
#[local] Open Scope Z_scope.

(** ** Datagrams *)

(** Disjoint non-empty pieces in the order of their offsets, from [lo] on. *)
Fixpoint pieces_ok (lo : Z) (ps : list (Z * Piece)) : Prop :=
  match ps with
  | [] => True
  | (o, p) :: ps =>
    lo <= o /\ 0 < len (pc_bytes p) /\ o + len (pc_bytes p) <= 65535 /\ pieces_ok (o + len (pc_bytes p)) ps
  end.

(** The header a datagram is rebuilt on. *)
Definition header_ok (v : IpVersion) (h : list Z) (previous : option Z) : Prop :=
  match v with
  | IpV4 => bytes_ok h /\ 20 <= len h /\ exists b0, get h 0 = Some b0 /\ Z.land b0 0x0f * 4 = len h
  | IpV6 => 40 <= len h /\ exists q, previous = Some q /\ 0 <= q < len h
  end.

Record assembly_ok (k : FragmentKey) (a : Assembly) : Prop := {
  ao_pieces : pieces_ok 0 (as_pieces a);
  ao_header h : as_header a = Some h -> header_ok (fk_version k) h (as_previous_next_header a);
  ao_size h total : as_header a = Some h -> as_total_payload_len a = Some total ->
    reassembled_size_exceeds (fk_version k) (len h) total = false;
  ao_total total : as_total_payload_len a = Some total ->
    Exists (fun p => piece_end p = total) (as_pieces a) /\ Forall (fun p => piece_end p <= total) (as_pieces a)
}.

Lemma piece_end_exact o p : 0 <= o -> o + len (pc_bytes p) <= 65535 -> piece_end (o, p) = o + len (pc_bytes p).
Proof.
  intros H0 H1. pose proof (len_nonneg (pc_bytes p)). unfold piece_end, len32, try_u32, sat_add32, u32_max. cbn [fst snd].
  rewrite (proj2 (Z.leb_le _ _)) by lia. cbn. lia.
Qed.

(** A piece that overlaps none goes in between its neighbours. *)
Lemma insert_piece_ok o p ps lo : 0 <= lo <= o -> 0 < len (pc_bytes p) -> o + len (pc_bytes p) <= 65535 ->
  pieces_ok lo ps ->
  existsb (fun q => (o <? piece_end q) && (q.1 <? o + len (pc_bytes p))) ps = false ->
  pieces_ok lo (insert_piece o p ps).1 /\ (insert_piece o p ps).2 = None /\
  Permutation (insert_piece o p ps).1 ((o, p) :: ps).
Proof.
  intros Hlo Hp H65. revert lo Hlo. induction ps as [|[q x] ps IH]; intros lo Hlo Hps Hov; cbn [insert_piece].
  { cbn. split_and!; try done; lia. }
  cbn [pieces_ok] in Hps. destruct Hps as (L1 & L2 & L3 & Hps). cbn [existsb fst] in Hov.
  apply orb_false_iff in Hov as [Hq Hov]. rewrite piece_end_exact in Hq by lia.
  destruct (Z.ltb_spec o q).
  { cbn [fst snd pieces_ok]. split_and!; try done; lia. }
  destruct (Z.eqb_spec o q); [lia|].
  destruct (IH (q + len (pc_bytes x))) as (I1 & I2 & I3); [lia|done|done|].
  destruct (insert_piece o p ps) as [ps' old]. cbn [fst snd pieces_ok] in *. split_and!; try done; try lia.
  rewrite I3. apply Permutation_swap.
Qed.

(** Pieces without a gap add up to what follows them. *)
Lemma pieces_end_spec lo ps e : pieces_ok lo ps -> 0 <= lo <= 65535 -> pieces_end lo ps = Some e ->
  e = lo + len (concat (map (fun p => pc_bytes p.2) ps)) /\ e <= 65535.
Proof.
  revert lo. induction ps as [|[o p] ps IH]; intros lo Hps Hlo He; cbn [pieces_end pieces_ok map concat] in *.
  { injection He as <-. rewrite len_nil. lia. }
  destruct Hps as (L1 & L2 & L3 & Hps). destruct (Z.eqb_spec o lo) as [->|]; [|done].
  assert (sat_add32 lo (len32 (pc_bytes p)) = lo + len (pc_bytes p)) as E by (apply (piece_end_exact lo p); lia).
  rewrite E in He. apply IH in He as [-> He]; [|done|lia]. rewrite len_app. cbn [snd]. lia.
Qed.

(** ** Rebuilding *)
Lemma write_at_Ok {E} (l : list Z) a bs : 0 <= a -> a + len bs <= len l ->
  exists l', write_at (E := E) l a bs = Ok l' /\ len l' = len l /\ (forall i, i < a -> get l' i = get l i) /\
    (bytes_ok l -> bytes_ok bs -> bytes_ok l').
Proof.
  intros Ha Hl. pose proof (len_nonneg bs). unfold write_at. rewrite (proj2 (Z.leb_le 0 a)), (proj2 (Z.leb_le _ (len l))) by lia.
  eexists. split; [reflexivity|]. split_and!.
  - rewrite !len_app, len_take, len_drop by lia. lia.
  - intros i Hi. rewrite get_app_l by (rewrite len_take; lia). unfold get. destruct (0 <=? i) eqn:E0; [|done].
    rewrite lookup_take_lt by lia. done.
  - intros B1 B2. rewrite !bytes_ok_app. auto with bytes.
Qed.

Lemma rebuild_ok k a : assembly_ok k a -> is_complete a = true -> exists packet, rebuild a (fk_version k) = Ok packet.
Proof.
  intros [Hp Hh Hs _] Hc. unfold is_complete in Hc. destruct (as_total_payload_len a) as [total|]; [|done].
  destruct (as_header a) as [h|] eqn:Eh; [|done]. destruct (pieces_end 0 (as_pieces a)) as [e|] eqn:Ee; [|done].
  apply Z.eqb_eq in Hc as ->. destruct (pieces_end_spec _ _ _ Hp ltac:(lia) Ee) as [Et H65].
  specialize (Hh h eq_refl). specialize (Hs h total eq_refl eq_refl).
  unfold rebuild. rewrite Eh. cbn [ok_or mbind outcome_bind].
  set (body := concat (map (fun p => pc_bytes p.2) (as_pieces a))) in *. pose proof (len_nonneg body).
  unfold reassembled_size_exceeds in Hs. destruct (fk_version k); cbn [header_ok] in Hh.
  - destruct Hh as (Bh & L20 & b0 & G0 & Hl). pose proof (land_15 b0) as H15.
    unfold checked_add in Hs. destruct (Z.leb_spec (len h + total) u64_max); [|done]. apply Z.ltb_ge in Hs.
    rewrite len_app, try_u16_Ok by width. cbn [ok_or mbind outcome_bind].
    destruct (write_at_Ok (E := FragmentError) h 2 (to_be16 (len h + len body))) as (h1 & E1 & L1 & G1 & B1);
      [lia|rewrite len_to_be16; lia|].
    destruct (write_at_Ok (E := FragmentError) h1 6 (to_be16 0)) as (h2 & E2 & L2 & G2 & B2); [lia|rewrite len_to_be16; lia|].
    destruct (write_at_Ok (E := FragmentError) h2 10 (to_be16 0)) as (h3 & E3 & L3 & G3 & B3); [lia|rewrite len_to_be16; lia|].
    rewrite write_at_app_l, E1 by (rewrite len_to_be16; lia). cbn [mbind outcome_bind].
    rewrite write_at_app_l, E2 by (rewrite len_to_be16; lia). cbn [mbind outcome_bind].
    rewrite write_at_app_l, E3 by (rewrite len_to_be16; lia). cbn [mbind outcome_bind].
    assert (bytes_ok h3) as Bh3.
    { apply B3; [apply B2; [apply B1; [done|]|]|]; apply to_be16_ok; width. }
    unfold idx. rewrite get_app_l, G3, G2, G1, G0 by lia. cbn [expect mbind outcome_bind]. rewrite Hl.
    rewrite slice_Ok by (rewrite ?len_app; lia). cbn [mbind outcome_bind]. rewrite sub_app_l by lia.
    unfold ipv4_checksum. rewrite header_checksum_ones; [|done| |lia].
    + cbn [mbind outcome_bind]. destruct (write_at_Ok (E := FragmentError) (h3 ++ body) 10
        (to_be16 (finalize_checksum (ones (word_sum h3))))) as (p & Ep & _); [lia|rewrite len_app, len_to_be16; lia|]. eauto.
    + replace (length h3) with (2 * Z.to_nat (Z.land b0 15 * 2))%nat by (unfold len in *; lia). apply Nat.even_even.
  - destruct Hh as (L40 & q & Eq & Hq). rewrite Eq. cbn [ok_or mbind outcome_bind].
    unfold checked_sub in Hs. rewrite (proj2 (Z.leb_le 40 (len h))) in Hs by lia. cbn [mbind option_bind] in Hs.
    unfold checked_add in Hs. destruct (Z.leb_spec (len h - 40 + total) u64_max); [|done]. apply Z.ltb_ge in Hs.
    destruct (write_at_Ok (E := FragmentError) (h ++ body) q [as_protocol a]) as (p & Ep & Lp & _);
      [lia|rewrite len_app, len_singleton; lia|].
    rewrite Ep. cbn [mbind outcome_bind]. rewrite len_app in Lp.
    rewrite try_u16_Ok by (unfold sat_sub; width). cbn [ok_or mbind outcome_bind].
    destruct (write_at_Ok (E := FragmentError) p 4 (to_be16 (sat_sub (len p) 40))) as (p' & Ep' & _); [lia|rewrite len_to_be16; lia|].
    eauto.
Qed.

(** ** The headers of a parsed fragment *)

(** The parser keeps the fragment header it met. *)
Lemma chain_keeps rounds packet enforce total_len src dst nh pointer offset info fp ip :
  parse_ipv6_chain rounds packet enforce total_len src dst nh pointer offset (Some info) (Some fp) = Ok ip ->
  fragment ip = Some info /\ fragment_payload ip = Some fp.
Proof.
  revert nh pointer offset. induction rounds as [|rounds IH]; intros nh pointer offset H; [done|].
  cbn [parse_ipv6_chain] in H. cbv zeta beta in H.
  repeat ok_step H; try discriminate; first [exact (IH _ _ _ H)|by subst].
Qed.

(** What the parser read where the walk of the reassembler ends. *)
Record fragment_at (packet : list Z) (total_len ins : Z) (info : FragmentInfo) (fp : list Z) : Prop := {
  fa_fits : ins + 8 <= total_len /\ total_len <= len packet;
  fa_id : idx_be32 (E := WireError) packet (ins + 4) = Ok (identification info);
  fa_bits : exists bits, idx_be16 (E := WireError) packet (ins + 2) = Ok bits /\
    offset_bytes info = Z.land (Z.shiftr bits 3) 0x1fff * 8 /\ more_fragments info = negb (Z.land bits 1 =? 0);
  fa_payload : fp = sub packet (ins + 8) total_len
}.

Lemma chain_fragment rounds packet enforce total_len src dst nh pointer offset previous ip info :
  parse_ipv6_chain rounds packet enforce total_len src dst nh pointer offset None None = Ok ip ->
  fragment ip = Some info -> 40 <= offset -> total_len <= len packet -> bytes_ok packet ->
  exists ins q proto fp,
    ipv6_fragment_header_loop rounds packet nh offset previous = Ok (sub packet 0 ins, Some q, proto) /\
    offset <= ins /\ (q = previous \/ offset <= q < ins) /\ get packet ins = Some proto /\
    fragment_payload ip = Some fp /\ fragment_at packet total_len ins info fp.
Proof.
  revert nh pointer offset previous. induction rounds as [|rounds IH]; intros nh pointer offset previous H Hf Ho Ht Hb; [done|].
  cbn [parse_ipv6_chain] in H. cbv zeta beta in H. cbn [ipv6_fragment_header_loop].
  assert (forall n nh', 0 < n -> offset + n <= total_len -> idx (E := WireError) packet offset = Ok nh' ->
    parse_ipv6_chain rounds packet enforce total_len src dst nh' offset (offset + n) None None = Ok ip ->
    exists ins q proto fp,
      (if len packet <? offset + n then Err (FragmentMalformed "truncated IPv6 extension header")
       else next ← idx packet offset; ipv6_fragment_header_loop rounds packet next (offset + n) offset) =
        Ok (sub packet 0 ins, Some q, proto) /\
      offset <= ins /\ (q = previous \/ offset <= q < ins) /\ get packet ins = Some proto /\
      fragment_payload ip = Some fp /\ fragment_at packet total_len ins info fp) as Step.
  { intros n nh' Hn Hle Hi Hp. destruct (IH nh' offset (offset + n) offset Hp Hf) as (ins & q & proto & fp & E & L1 & Q & G & P & F);
      [lia|done|done|]. exists ins, q, proto, fp. rewrite (proj2 (Z.ltb_ge (len packet) _)) by lia.
    rewrite (idx_get _ _ _ (idx_inv _ _ _ Hi)). split_and!; try done; lia. }
  ok_step H; [by repeat ok_step H|]. rename Hb0 into Hz. ok_step H; [|ok_step H; [|ok_step H]].
  - ok_step H. apply require_inv in Hx as [R1 R2]. ok_step H. rename x0 into units, Hx into Hu. ok_step H.
    apply require_inv in Hx as [R3 R4]. ok_step H. ok_step H; [by repeat ok_step H|]. ok_step H. ok_step H.
    apply idx_inv in Hu. pose proof (get_u8 _ _ _ Hb Hu) as Hu8.
    assert ((nh =? 44) = false) as -> by lia. rewrite (idx_get _ _ _ Hu). cbn [mbind outcome_bind mret outcome_ret].
    eapply Step; [width|lia|done|done].
  - ok_step H. apply require_inv in Hx as [R1 R2]. ok_step H. rename x0 into units, Hx into Hu. ok_step H.
    apply require_inv in Hx as [R3 R4]. ok_step H.
    apply idx_inv in Hu. pose proof (get_u8 _ _ _ Hb Hu) as Hu8.
    assert ((nh =? 44) = false) as -> by lia. rewrite (idx_get _ _ _ Hu). cbn [mbind outcome_bind mret outcome_ret].
    eapply Step; [width|lia|done|done].
  - ok_step H. apply require_inv in Hx as [R1 R2]. ok_step H. rename x0 into proto, Hx into Hpr.
    ok_step H; [done|]. ok_step H. rename x0 into bits, Hx into Hbits. ok_step H. rename x0 into id, Hx into Hid.
    ok_step H. rename x0 into fp, Hx into Hfp. apply slice_inv in Hfp as (-> & _). apply idx_inv in Hpr.
    assert (fragment ip = Some (mkFragmentInfo id (Z.land (Z.shiftr bits 3) 8191 * 8) (negb (Z.land bits 1 =? 0))) /\
      fragment_payload ip = Some (sub packet (offset + 8) total_len)) as [Ei Ep].
    { ok_step H; [ok_step H; ok_step H; by subst|]. ok_step H. by eapply chain_keeps. }
    rewrite Hf in Ei. injection Ei as ->. exists offset, previous, proto, (sub packet (offset + 8) total_len).
    rewrite (proj2 (Z.ltb_ge (len packet) _)) by lia. rewrite slice_Ok by lia. cbn [mbind outcome_bind].
    rewrite (idx_get _ _ _ Hpr). cbn [mbind outcome_bind]. do 5 (split; [first [done|lia|by left]|]).
    split; [done|done|by exists bits|done].
  - exfalso. ok_step H. ok_step H. ok_step H. subst. done.
Qed.

(** A parsed fragment has the header the reassembler looks for. *)
Lemma fragment_header_ok le packet ip info : bytes_ok packet -> parse_ip_packet le packet true = Ok ip ->
  fragment ip = Some info ->
  exists h previous proto, fragment_header packet (version ip) = Ok (h, previous, proto) /\
    header_ok (version ip) h previous /\ is_u8 proto.
Proof.
  intros B H Hf. destruct (version ip) eqn:Hv.
  - destruct (parse_ip4_inv le packet ip B H Hv) as (b0 & tos & total & id & bits & ttl & proto & ck & src & dst & opts &
      body & rest & [Ep Hok Hck _ _ _ _ _ _ _ _ _]).
    destruct (ip4_first_byte (len opts)) as (F1 & _); [apply Hok|pose proof (len_nonneg opts); split; [lia|apply Hok]|].
    rewrite <- (i4_b0 _ _ _ _ _ _ _ _ _ _ Hok) in F1.
    pose proof (ip4_header_ok _ _ _ _ _ _ _ (to_be16 ck) _ _ _ Hok (to_be16_ok _ Hck)) as Hh.
    pose proof (ip4_header_len b0 tos total id bits ttl proto (to_be16 ck) src dst opts eq_refl
      (proj1 (i4_src _ _ _ _ _ _ _ _ _ _ Hok)) (proj1 (i4_dst _ _ _ _ _ _ _ _ _ _ Hok))) as Lh.
    assert (forall l, get (ip4_header b0 tos total id bits ttl proto (to_be16 ck) src dst opts ++ l) 0 = Some b0 /\
      get (ip4_header b0 tos total id bits ttl proto (to_be16 ck) src dst opts ++ l) 9 = Some proto) as G by done.
    set (h := ip4_header b0 tos total id bits ttl proto (to_be16 ck) src dst opts) in *.
    destruct (G (body ++ rest)) as [G0 G9]. pose proof (len_nonneg (body ++ rest)). pose proof (len_nonneg opts).
    exists h, None, proto. cbn [fragment_header]. rewrite Ep, (idx_get _ _ _ G0). cbn [mbind outcome_bind]. rewrite F1.
    rewrite slice_Ok by (rewrite ?(len_app h); lia). rewrite sub_app_l by lia. cbn [mbind outcome_bind].
    rewrite (idx_get _ _ _ G9). split; [done|]. split; [|apply Hok]. split; [done|]. split; [lia|]. exists b0.
    split; [|lia]. specialize (G []). rewrite app_nil_r in G. apply G.
  - destruct (parse_v6_inv le packet ip H Hv) as (n & nh & _ & L40 & Hn & G6 & Hc).
    destruct (chain_fragment _ _ _ _ _ _ _ _ _ 6 _ _ Hc Hf) as (ins & q & proto & fp & E & L1 & Q & G & _ & F); [lia|lia|done|].
    destruct (fa_fits _ _ _ _ _ F) as [F1 F2].
    exists (sub packet 0 ins), (Some q), proto. cbn [fragment_header]. unfold ipv6_fragment_header.
    rewrite (idx_get _ _ _ G6). cbn [mbind outcome_bind]. split; [done|]. split; [|by eapply get_u8].
    cbn. rewrite len_sub by lia. split; [lia|]. exists q. split; [done|lia].
Qed.

(** ** Adding a fragment to a datagram *)
Section Extend.
Context (key : FragmentKey) (f : FragmentInfo) (fp header : list Z) (previous : option Z) (end_ : Z).

(** What [ingest] has checked before it takes the fragment. *)
Record admissible (a : Assembly) : Prop := {
  am_bytes : 0 < len fp /\ 0 <= offset_bytes f /\ end_ = offset_bytes f + len fp /\ end_ <= 65535;
  am_header : header_ok (fk_version key) header previous;
  am_free : existsb (fun p => (offset_bytes f <? piece_end p) && (p.1 <? end_)) (as_pieces a) = false;
  am_within total : as_total_payload_len a = Some total -> end_ <= total;
  am_final : more_fragments f = false -> Forall (fun p => piece_end p <= end_) (as_pieces a);
  am_size total header_len : (if more_fragments f then as_total_payload_len a else Some end_) = Some total ->
    (if offset_bytes f =? 0 then Some (len header) else len <$> as_header a) = Some header_len ->
    reassembled_size_exceeds (fk_version key) header_len total = false
}.

(** The datagram with the fragment. *)
Definition extended (c : PendingFragmentCredit) (a : Assembly) : Assembly :=
  let a := if offset_bytes f =? 0 then with_header header previous a else a in
  let a := if more_fragments f then a else with_total end_ a in
  with_pieces (insert_piece (offset_bytes f) (mkPiece fp (cr_slot c) (cr_payload c) (cr_piece_metadata c)) (as_pieces a)).1 a.

(** Two final fragments never disagree. *)
Lemma admissible_final a total : assembly_ok key a -> admissible a -> more_fragments f = false ->
  as_total_payload_len a = Some total -> total = end_.
Proof.
  intros [_ _ _ Ht] A Hm E. destruct (Ht total E) as [X _]. pose proof (am_within _ A total E).
  apply Exists_exists in X as (p & Hin & <-). pose proof (am_final _ A Hm) as F. rewrite Forall_forall in F.
  specialize (F p Hin). cbn in F. lia.
Qed.

Lemma extended_pieces c a : assembly_ok key a -> admissible a ->
  let p := mkPiece fp (cr_slot c) (cr_payload c) (cr_piece_metadata c) in
  pieces_ok 0 (as_pieces (extended c a)) /\ (insert_piece (offset_bytes f) p (as_pieces a)).2 = None /\
  Permutation (as_pieces (extended c a)) ((offset_bytes f, p) :: as_pieces a).
Proof.
  intros O A p. destruct (am_bytes _ A) as (B1 & B2 & B3 & B4).
  assert (as_pieces (extended c a) = (insert_piece (offset_bytes f) p (as_pieces a)).1) as ->
    by (unfold extended; by destruct (offset_bytes f =? 0), (more_fragments f)).
  apply insert_piece_ok; cbn [pc_bytes p]; [lia|lia|lia|apply O|]. rewrite <- B3. apply A.
Qed.

Lemma extended_ok c a : assembly_ok key a -> admissible a -> assembly_ok key (extended c a).
Proof.
  intros O A. destruct (extended_pieces c a O A) as (P1 & _ & P3). cbn zeta in *. destruct (am_bytes _ A) as (B1 & B2 & B3 & B4).
  set (p := mkPiece fp _ _ _) in P3.
  assert (piece_end (offset_bytes f, p) = end_) as Pe by (rewrite piece_end_exact; cbn; lia).
  assert (as_header (extended c a) = if offset_bytes f =? 0 then Some header else as_header a) as Eh
    by (unfold extended; by destruct (offset_bytes f =? 0), (more_fragments f)).
  assert (as_total_payload_len (extended c a) = if more_fragments f then as_total_payload_len a else Some end_) as Et
    by (unfold extended; by destruct (offset_bytes f =? 0), (more_fragments f)).
  split; [done|..].
  - intros h. rewrite Eh. unfold extended. destruct (offset_bytes f =? 0), (more_fragments f); cbn;
      try (intros [= <-]; apply A); apply O.
  - intros h total. rewrite Eh, Et. intros Hh Ht. apply (am_size _ A total); [done|].
    destruct (offset_bytes f =? 0); [by injection Hh as ->|by rewrite Hh].
  - intros total. rewrite Et. intros Ht. setoid_rewrite P3. rewrite Exists_cons, Forall_cons, Pe.
    destruct (more_fragments f) eqn:Hm.
    + destruct (ao_total _ _ O total Ht) as [X F]. split_and!; [by right|by apply A|done].
    + injection Ht as <-. split_and!; [by left|done|by apply A].
Qed.
End Extend.
