(* ===== verification/ReassemblyOps.v ===== *)
(** Every operation of the reassembler ([sail-netstack/src/ip/reassembly.rs]) keeps
    its invariant, whatever it returns, and never panics. *)
From S2P Require Import Prelude StateMonad Checksum IpWire Budget Timer TimerRefine TimerInterface Leases ExpiryIndex.
From S2P Require Import Pmtu Fragmentation FragmentTheorems Reassembly ReassemblyInv.
From stdpp Require Import list sorting gmap.
#[local] Open Scope Z_scope.

Section Invariant.
Context {W : Type} `{TimerQueueLaws FragmentKey W} (b : ResourceBudget) (rest : holdings) (Hb : budget_range b).
Abbreviation fstate := (@fstate W).
Implicit Types (r : @FragmentReassembler W) (s : fstate) (w : W) (m : gmap FragmentKey Assembly) (ls : list BudgetLease).

(** ** The invariant *)
Definition timeout_of r : Z := effective_timeout r (fr_timeout_divisor r).
Definition deadline_of r (a : Assembly) : Z := sat_add (as_created_at_ms a) (timeout_of r).

Record clock_ok r : Prop := {
  co_timeout : 0 < fr_timeout_ms r <= u64_max;
  co_tick : fr_expiry_tick_ms r = fragment_tick (fr_timeout_ms r);
  co_divisor : 1 <= fr_timeout_divisor r;
  co_queue : tq_ok (fr_expiry r);
  co_queue_tick : tq_tick_ms (fr_expiry r) = fr_expiry_tick_ms r;
  co_clock : tq_current (fr_expiry r) * fr_expiry_tick_ms r <= fr_now_ms r;
  co_now : 0 <= fr_now_ms r <= u64_max
}.

(** The eviction index, the datagrams and the count of them; [now] bounds their ages. *)
Record tables_ok r : Prop := {
  ta_created k a : fr_assemblies r !! k = Some a ->
    0 <= as_created_at_ms a <= fr_now_ms r /\ (as_eviction_key a).1 = as_created_at_ms a;
  ta_evict ek k : fr_eviction_index r !! ek = Some k <->
    exists a, fr_assemblies r !! k = Some a /\ as_eviction_key a = ek;
  ta_serial ek k : fr_eviction_index r !! ek = Some k -> ek.2 < fr_next_eviction_serial r;
  ta_serial0 : 0 <= fr_next_eviction_serial r;
  ta_assembly k a : fr_assemblies r !! k = Some a -> assembly_ok k a;
  ta_active : fs_active_datagrams (fr_stats r) = Z.of_nat (size (fr_assemblies r))
}.

(** [ls] are the leases in the hands of the running call. *)
Record frag_inv ls s : Prop := {
  fi_clock : clock_ok s.1;
  fi_tables : tables_ok s.1;
  fi_timers : timed as_expiry_timer (deadline_of s.1) (fr_expiry_tick_ms s.1) (tq_pending (fr_expiry s.1)) (fr_assemblies s.1);
  fi_accounts : accounts b rest s.2 (ls ++ map_leases assembly_leases (fr_assemblies s.1))
}.

(** What an operation on the datagrams leaves alone. *)
Record same_clock r r' : Prop := {
  sc_timeout : fr_timeout_ms r' = fr_timeout_ms r;
  sc_now : fr_now_ms r' = fr_now_ms r;
  sc_divisor : fr_timeout_divisor r' = fr_timeout_divisor r;
  sc_tick : fr_expiry_tick_ms r' = fr_expiry_tick_ms r;
  sc_current : tq_current (fr_expiry r') = tq_current (fr_expiry r)
}.

Lemma same_clock_refl r : same_clock r r.
Proof. by split. Qed.
Lemma same_clock_trans r1 r2 r3 : same_clock r1 r2 -> same_clock r2 r3 -> same_clock r1 r3.
Proof. intros [] []. split; congruence. Qed.
Lemma same_deadline r r' : same_clock r r' -> deadline_of r' = deadline_of r.
Proof. intros [T _ D _ _]. unfold deadline_of, timeout_of, effective_timeout. by rewrite T, D. Qed.

(** ** Taking a datagram out *)
Definition taken (key : FragmentKey) (a : Assembly) r : FragmentReassembler :=
  count_stats (st_removed (Z.of_nat (size (delete key (fr_assemblies r)))) (len (as_pieces a)))
    (set_fr_tables (delete key (fr_assemblies r)) (delete (as_eviction_key a) (fr_eviction_index r)) r).

Lemma wp_take_assembly key s (Q : option Assembly -> fstate -> Prop) X :
  (fr_assemblies s.1 !! key = None -> Q None s) ->
  (forall a, fr_assemblies s.1 !! key = Some a -> Q (Some a) (taken key a s.1, s.2)) ->
  wp (take_assembly key) s Q X.
Proof.
  intros H1 H2. unfold take_assembly, on_reassembler. repeat wp_step.
  destruct (fr_assemblies s.1 !! key) as [a|]; repeat wp_step; auto.
Qed.

Lemma taken_tables key a r : fr_assemblies r !! key = Some a -> tables_ok r -> tables_ok (taken key a r).
Proof.
  intros E [T1 T2 T3 T4 T5 T6]. split; cbn.
  - intros k a' [_ Ha]%lookup_delete_Some. eauto.
  - intros ek k. rewrite lookup_delete_Some, T2. setoid_rewrite lookup_delete_Some. split.
    + intros (Hne & a' & E' & <-). exists a'. split_and!; try done. intros ->. naive_solver.
    + intros (a' & (Hne & E') & <-). split; [|by exists a']. intros Heq.
      assert (fr_eviction_index r !! as_eviction_key a = Some key) as I1 by (apply T2; by exists a).
      assert (fr_eviction_index r !! as_eviction_key a' = Some k) as I2 by (apply T2; by exists a'). congruence.
  - intros ek k [_ Hk]%lookup_delete_Some. eauto.
  - done.
  - intros k a' [_ Ha]%lookup_delete_Some. eauto.
  - done.
Qed.

Lemma taken_accounts key a r l ls : fr_assemblies r !! key = Some a ->
  accounts b rest l (ls ++ map_leases assembly_leases (fr_assemblies r)) ->
  accounts b rest l (assembly_leases a ++ ls ++ map_leases assembly_leases (fr_assemblies (taken key a r))).
Proof.
  intros E A. cbn. eapply accounts_perm; [|exact A]. rewrite (map_leases_delete assembly_leases _ _ _ E).
  rewrite !(assoc_L (++)). by rewrite (Permutation_app_comm ls).
Qed.

(** Removing a datagram: its timer goes, its leases come into the caller's hands. *)
Record removed (key : FragmentKey) s s' : Prop := {
  rm_clock : same_clock s.1 s'.1;
  rm_ids : tq_ids (fr_expiry s'.1) = tq_ids (fr_expiry s.1);
  rm_serial : fr_next_eviction_serial s'.1 = fr_next_eviction_serial s.1;
  rm_assemblies : fr_assemblies s'.1 = delete key (fr_assemblies s.1)
}.

Definition leases_opt (o : option Assembly) : list BudgetLease := match o with Some a => assembly_leases a | None => [] end.

Lemma remove_spec ls key s : frag_inv ls s ->
  wp (remove_assembly key) s
    (fun o s' => o = fr_assemblies s.1 !! key /\ frag_inv (leases_opt o ++ ls) s' /\ removed key s s')
    (fun _ _ => False).
Proof.
  intros [C T Ti A]. unfold remove_assembly, on_expiry. wp_step.
  apply wp_take_assembly.
  - intros N. wp_step. split_and!; [done|done|]. split; [apply same_clock_refl|done..|by rewrite delete_id].
  - intros a E. wp_step. apply wp_on. cbn [fst snd].
    destruct (tq_cancel_law (as_expiry_timer a) (fr_expiry s.1) (co_queue _ C)) as (w' & v & Ec & K & _ & P & Tk & Cu & Id).
    cbn [fr_expiry taken count_stats set_fr_stats set_fr_tables]. rewrite Ec. repeat wp_step. cbn [fst snd].
    split_and!; [done| |split; [by split|done..]].
    pose proof (taken_tables key a s.1 E T) as T'. pose proof (timed_delete _ _ _ _ _ _ _ Ti E) as Ti'.
    split; cbn.
    + destruct C. split; cbn; congruence || done.
    + by destruct T'.
    + by rewrite P.
    + rewrite <- (assoc_L (++)). by apply (taken_accounts key).
Qed.

Lemma inv_drop xs ls s : frag_inv (xs ++ ls) s -> frag_inv ls (s.1, drop_leases xs s.2).
Proof. intros [? ? ? A]. split; try done. rewrite <- (assoc_L (++)) in A. by apply (accounts_drop_all b rest Hb). Qed.

Lemma discard_spec ls key s : frag_inv ls s ->
  wp (discard_assembly key) s
    (fun found s' => frag_inv ls s' /\ removed key s s' /\ found = bool_decide (is_Some (fr_assemblies s.1 !! key)))
    (fun _ _ => False).
Proof.
  intros I. unfold discard_assembly, on_ledger. wp_step. eapply wp_mono; [by apply (remove_spec ls key)| |done].
  intros o s' (Eo & J & R). rewrite <- Eo. destruct o as [a|]; repeat wp_step; (split_and!; [|by destruct R|done]); [|done].
  by apply inv_drop in J.
Qed.

(** ** Expiry *)
Lemma initial_packet_ok k a : assembly_ok k a -> exists quote, initial_fragment_packet a k = Ok quote.
Proof.
  intros [_ Hh _ _]. unfold initial_fragment_packet. destruct (list_find _ _) as [[? [? p]]|]; [|eauto].
  destruct (as_header a) as [h|]; [|eauto]. specialize (Hh h eq_refl). destruct (fk_version k); [eauto|].
  destruct (_ ≫= _) as [size|]; [|eauto]. cbn in Hh.
  destruct (write_at_Ok (E := FragmentError) h 4 (to_be16 size)) as (h' & -> & _); [lia|rewrite len_to_be16; lia|]. cbn. eauto.
Qed.

Lemma fragment_expire_due_spec due max_quotes x ls s :
  tables_ok s.1 -> accounts b rest s.2 (ls ++ map_leases assembly_leases (fr_assemblies s.1)) ->
  wp (fragment_expire_due due max_quotes x) s
    (fun _ s' => tables_ok s'.1 /\ accounts b rest s'.2 (ls ++ map_leases assembly_leases (fr_assemblies s'.1)) /\
       fr_assemblies s'.1 = filter (fun p => p.1 ∉ due) (fr_assemblies s.1) /\
       fr_expiry s'.1 = fr_expiry s.1 /\ same_clock s.1 s'.1 /\
       fr_next_eviction_serial s'.1 = fr_next_eviction_serial s.1)
    (fun _ _ => False).
Proof.
  revert x s. induction due as [|k due IH]; intros x s T A; cbn [fragment_expire_due].
  - wp_step. split_and!; [done|done| |done|apply same_clock_refl|done]. symmetry. apply map_filter_id.
    intros. apply not_elem_of_nil.
  - wp_step. apply wp_take_assembly.
    + intros N. eapply wp_mono; [by apply IH| |done]. intros _ s' (H1 & H2 & H3 & H4 & H5 & H6). split_and!; try done.
      rewrite H3. apply map_eq. intros k'. apply option_eq. intros a'.
      rewrite !map_lookup_filter_Some, not_elem_of_cons. naive_solver congruence.
    + intros a E. pose proof (taken_tables k a s.1 E T) as T'. pose proof (taken_accounts k a s.1 s.2 ls E A) as A'.
      destruct (initial_packet_ok k a (ta_assembly _ T k a E)) as (quote & Eq).
      wp_step. eapply (wp_mono _ _ (fun _ s' => s' = (taken k a s.1, s.2)) _ (fun _ _ => False)); [|intros packets s' ->|done].
      { wp_step; [|by wp_step]. wp_step. apply wp_lift. rewrite Eq. by wp_step. }
      unfold on_ledger. wp_step. wp_step. eapply wp_mono; [apply IH; [done|]| |done].
      * cbn [fst snd]. by apply (accounts_drop_all b rest Hb).
      * intros _ s' (H1 & H2 & H3 & H4 & H5 & H6). cbn [fst snd] in *. split_and!; try done; [|by destruct H5; split].
        rewrite H3. cbn. apply map_eq. intros k'. apply option_eq. intros a'.
        rewrite !map_lookup_filter_Some, lookup_delete_Some, not_elem_of_cons. naive_solver.
Qed.

(** The datagrams that are left, and nothing else but the clock has changed. *)
Record advanced_to (now : Z) ls s s' : Prop := {
  ad_inv : frag_inv ls s';
  ad_now : fr_now_ms s'.1 = now;
  ad_timeout : fr_timeout_ms s'.1 = fr_timeout_ms s.1;
  ad_divisor : fr_timeout_divisor s'.1 = fr_timeout_divisor s.1;
  ad_tick : fr_expiry_tick_ms s'.1 = fr_expiry_tick_ms s.1;
  ad_current : tq_current (fr_expiry s'.1) = now / fr_expiry_tick_ms s.1;
  ad_ids : tq_ids (fr_expiry s'.1) = tq_ids (fr_expiry s.1);
  ad_serial : fr_next_eviction_serial s'.1 = fr_next_eviction_serial s.1;
  ad_assemblies k a : fr_assemblies s'.1 !! k = Some a <->
    fr_assemblies s.1 !! k = Some a /\ alive_at (deadline_of s.1) (fr_expiry_tick_ms s.1) now a
}.

Lemma set_now_tables now r : fr_now_ms r <= now -> tables_ok r -> tables_ok (set_fr_now now r).
Proof.
  intros Hn [T1 T2 T3 T4 T5 T6]. split; cbn; try done. intros k a Ha. pose proof (T1 k a Ha). lia.
Qed.

Lemma set_expiry_tables w r : tables_ok r -> tables_ok (set_fr_expiry w r).
Proof. by intros []. Qed.

Lemma stats_tables (f : FragmentStats -> FragmentStats) r :
  (forall st, fs_active_datagrams (f st) = fs_active_datagrams st) -> tables_ok r -> tables_ok (count_stats f r).
Proof. intros Hf []. split; cbn; try done. by rewrite Hf. Qed.

(** Advancing by the running divisor: [advance_current], and the same of [advance_time..]. *)
Lemma advance_spec now ls s max_quotes x : frag_inv ls s -> 0 <= now < u64_max -> fr_now_ms s.1 <= now ->
  wp (due ← on_expiry (tq_advance now); fragment_expire_due due max_quotes x) (set_fr_now now s.1, s.2)
    (fun _ s' => advanced_to now ls s s') (fun _ _ => False).
Proof.
  intros [C T Ti A] Hn Hle. unfold on_expiry. wp_step. apply wp_on. cbn [fst snd fr_expiry set_fr_now].
  destruct (tq_advance_law now (fr_expiry s.1) (co_queue _ C)) as (w' & -> & K & P & Tk & Cu & Id);
    [unfold is_u64, u64_max in *; lia|lia|rewrite (co_queue_tick _ C); pose proof (co_clock _ C); lia|].
  rewrite (co_queue_tick _ C) in *.
  eapply wp_mono; [apply (fragment_expire_due_spec _ _ _ ls)| |done].
  - cbn. apply set_expiry_tables. by apply set_now_tables.
  - done.
  - intros _ s' (T' & A' & E & Ex & Sc & Se). destruct Sc as [S1 S2 S3 S4 S5].
    cbn in E, Ex, Se, S1, S2, S3, S4, S5.
    pose proof (timed_expire _ _ _ _ _ _ now Ti E) as Ti'. rewrite <- P, <- Ex in Ti'.
    assert (deadline_of s'.1 = deadline_of s.1) as Ed
      by (unfold deadline_of, timeout_of, effective_timeout; by rewrite S1, S3).
    pose proof (tq_range _ (co_queue _ C)) as [Rt _]. rewrite (co_queue_tick _ C) in Rt.
    split; try done; try congruence.
    + split; [|done| |done].
      * destruct C. split; rewrite ?S1, ?S2, ?S3, ?S4, ?Ex; try done; try congruence; [|lia].
        rewrite Cu, Z.mul_comm. apply Z.mul_div_le. lia.
      * by rewrite Ed, S4.
    + intros k a. rewrite E. by apply (timed_survivors as_expiry_timer).
Qed.

(** ** Changing a datagram in place *)
Definition put (key : FragmentKey) (a : Assembly) r : FragmentReassembler :=
  set_fr_tables (<[key := a]> (fr_assemblies r)) (fr_eviction_index r) r.

Lemma put_tables key a a' r : fr_assemblies r !! key = Some a ->
  as_created_at_ms a' = as_created_at_ms a -> as_eviction_key a' = as_eviction_key a -> assembly_ok key a' ->
  tables_ok r -> tables_ok (put key a' r).
Proof.
  intros E Hc He Ha [T1 T2 T3 T4 T5 T6]. split; cbn; try done.
  - intros k x [[<- <-]|[_ Hx]]%lookup_insert_Some; [|eauto]. rewrite Hc, He. eauto.
  - intros ek k. rewrite T2. setoid_rewrite lookup_insert_Some. destruct (decide (k = key)) as [->|]; naive_solver.
  - intros k x [[<- <-]|[_ Hx]]%lookup_insert_Some; eauto.
  - rewrite T6. f_equal. symmetry. by apply map_size_insert_Some.
Qed.

(** ** A new timeout divisor *)
Definition same_but_timer (a a' : Assembly) : Prop := exists t, a' = with_timer t a.

Lemma same_timer_trans a1 a2 a3 : same_but_timer a1 a2 -> same_but_timer a2 a3 -> same_but_timer a1 a3.
Proof. intros [t ->] [t' ->]. by exists t'. Qed.

Lemma with_timer_ok k t a : assembly_ok k a -> assembly_ok k (with_timer t a).
Proof. by intros []. Qed.

(** The datagrams with new timers, of the same ages and leases. *)
Record retimed r r' : Prop := {
  rt_same : fr_timeout_ms r' = fr_timeout_ms r /\ fr_now_ms r' = fr_now_ms r /\
    fr_timeout_divisor r' = fr_timeout_divisor r /\ fr_expiry_tick_ms r' = fr_expiry_tick_ms r /\
    fr_next_eviction_serial r' = fr_next_eviction_serial r;
  rt_assemblies k : match fr_assemblies r !! k, fr_assemblies r' !! k with
    | Some a, Some a' => same_but_timer a a'
    | None, None => True
    | _, _ => False
    end;
  rt_tables : tables_ok r -> tables_ok r';
  rt_leases l ls : accounts b rest l (ls ++ map_leases assembly_leases (fr_assemblies r)) ->
    accounts b rest l (ls ++ map_leases assembly_leases (fr_assemblies r'))
}.

Lemma retimed_refl r w : retimed r (set_fr_expiry w r).
Proof. split; cbn; try done; [|apply set_expiry_tables]. intros k. destruct (_ !! k); [by exists (as_expiry_timer a); destruct a|done]. Qed.

Lemma retimed_trans r1 r2 r3 : retimed r1 r2 -> retimed r2 r3 -> retimed r1 r3.
Proof.
  intros [S1 A1 T1 L1] [S2 A2 T2 L2]. split; [naive_solver congruence| |by auto|by auto].
  intros k. specialize (A1 k). specialize (A2 k).
  destruct (fr_assemblies r1 !! k), (fr_assemblies r2 !! k), (fr_assemblies r3 !! k); try done.
  by eapply same_timer_trans.
Qed.

Lemma retimed_put r key a t : fr_assemblies r !! key = Some a -> retimed r (put key (with_timer t a) r).
Proof.
  intros E. split; [done| | |].
  - intros k. cbn. destruct (decide (k = key)) as [->|].
    + rewrite E, lookup_insert_eq. by exists t.
    + rewrite lookup_insert_ne by done. destruct (_ !! k) as [x|]; [|done]. exists (as_expiry_timer x). by destruct x.
  - intros T. eapply put_tables; [done..| |done]. by apply with_timer_ok, (ta_assembly _ T).
  - intros l ls A. eapply accounts_perm; [|exact A]. cbn.
    rewrite (map_leases_replace assembly_leases _ _ _ (with_timer t a) E), (map_leases_delete assembly_leases _ _ _ E). done.
Qed.

(** The queue while its timers are set again: at the present, on the right tick. *)
Record queue_at (now : Z) r : Prop := {
  qa_ok : tq_ok (fr_expiry r);
  qa_tick : tq_tick_ms (fr_expiry r) = fr_expiry_tick_ms r;
  qa_safe : fr_expiry_tick_ms r = safe_tick (fr_timeout_ms r);
  qa_current : tq_current (fr_expiry r) = now / fr_expiry_tick_ms r
}.

Definition due_after (timeout : Z) (a : Assembly) : Z := sat_add (as_created_at_ms a) timeout.

(** Datagrams still to be looked at are untouched. *)
Definition untouched (now : Z) r (mk : gmap FragmentKey Assembly) (es : list (FragmentKey * Assembly)) : Prop :=
  NoDup es.*1 /\ forall k a, (k, a) ∈ es ->
    (fr_assemblies r !! k = Some a) /\ (mk !! k = None) /\ 0 <= as_created_at_ms a <= now.

Lemma untouched_tail now r mk k a es : untouched now r mk ((k, a) :: es) ->
  (fr_assemblies r !! k = Some a) /\ (mk !! k = None) /\ 0 <= as_created_at_ms a <= now /\ untouched now r mk es /\
  forall t, untouched now (put k (with_timer t a) r) (<[k := with_timer t a]> mk) es.
Proof.
  intros [N U]. destruct (U k a ltac:(left)) as (U1 & U2 & U3). cbn in N. apply NoDup_cons in N as [Nk N].
  assert (forall k' a', (k', a') ∈ es -> k' <> k) as Hne.
  { intros k' a' Hin ->. apply Nk. apply (list_elem_of_fmap_2 fst _ _ Hin). }
  split_and!; try done; try lia.
  - split; [done|]. intros k' a' Hin. apply U. by right.
  - intros t. split; [done|]. intros k' a' Hin. destruct (U k' a' ltac:(by right)) as (V1 & V2 & V3). cbn.
    rewrite !lookup_insert_ne by (apply not_eq_sym; by eapply Hne). done.
Qed.

(** What is left of the timers and what has expired, when the loop ends. *)
Record rescheduled (now timeout : Z) r (mk : gmap FragmentKey Assembly) (es : list (FragmentKey * Assembly)) (expired : list FragmentKey)
    r' (expired' : list FragmentKey) (mk' : gmap FragmentKey Assembly) : Prop := {
  rs_retimed : retimed r r';
  rs_queue : queue_at now r';
  rs_ids : tq_ids (fr_expiry r') <= tq_ids (fr_expiry r) + len es;
  rs_timed : timed as_expiry_timer (due_after timeout) (fr_expiry_tick_ms r') (tq_pending (fr_expiry r')) mk';
  rs_kept : mk' ⊆ fr_assemblies r';
  rs_expired k : k ∈ expired' <-> k ∈ expired \/ exists a, (k, a) ∈ es /\ timeout <= now - as_created_at_ms a;
  rs_alive k : is_Some (mk' !! k) <-> is_Some (mk !! k) \/ exists a, (k, a) ∈ es /\ now - as_created_at_ms a < timeout
}.

Lemma reschedule_spec now timeout es : forall expired s mk,
  queue_at now s.1 -> 0 <= now < u64_max -> 0 < fr_timeout_ms s.1 <= u64_max -> 1 <= timeout <= fr_timeout_ms s.1 ->
  tq_ids (fr_expiry s.1) + len es <= u64_max ->
  timed as_expiry_timer (due_after timeout) (fr_expiry_tick_ms s.1) (tq_pending (fr_expiry s.1)) mk ->
  mk ⊆ fr_assemblies s.1 -> untouched now s.1 mk es ->
  wp (reschedule now timeout es expired) s
    (fun expired' s' => s'.2 = s.2 /\ exists mk', rescheduled now timeout s.1 mk es expired s'.1 expired' mk')
    (fun _ _ => False).
Proof.
  induction es as [|[k a] es IH]; intros expired s mk Q Hn Ht0 Ht Hi Ti Sub U; cbn [reschedule].
  - wp_step. split; [done|]. exists mk. split; try done.
    + destruct s as [r l]. apply (retimed_trans _ _ _ (retimed_refl r (fr_expiry r))). by destruct r; apply retimed_refl.
    + rewrite len_nil. lia.
    + intros k. split; [by left|]. intros [?|(a & Hin & _)]; [done|by apply not_elem_of_nil in Hin].
    + intros k. split; [by left|]. intros [?|(a & Hin & _)]; [done|by apply not_elem_of_nil in Hin].
  - destruct (untouched_tail _ _ _ _ _ _ U) as (E & N & Hc & U' & Ut). rewrite len_cons in Hi.
    assert (sat_sub now (as_created_at_ms a) = now - as_created_at_ms a) as Es by (unfold sat_sub; lia). rewrite Es.
    pose proof (len_nonneg es) as Hes. wp_step.
    + apply Z.leb_le in H1. eapply wp_mono; [apply (IH _ s mk); try done; lia| |done].
      intros exp' s' (El & mk' & [R1 R2 R3 R4 R5 R6 R7]). split; [done|]. exists mk'. split; try done.
      * rewrite len_cons. lia.
      * intros k'. rewrite R6. setoid_rewrite elem_of_cons. rewrite elem_of_app, list_elem_of_singleton. split.
        -- intros [[?| ->]|(a' & ? & ?)]; [by left|right; exists a; split; [by left|done]|right; exists a'; split; [by right|done]].
        -- intros [?|(a' & [[= -> ->]|?] & ?)]; [left; by left|left; by right|right; by exists a'].
      * intros k'. rewrite R7. setoid_rewrite elem_of_cons. split.
        -- intros [?|(a' & ? & ?)]; [by left|right; exists a'; split; [by right|done]].
        -- intros [?|(a' & [[= -> ->]|?] & ?)]; [by left|lia|right; by exists a'].
    + apply Z.leb_gt in H1. unfold on_expiry, put_assembly, on_reassembler. destruct Q as [Q1 Q2 Q3 Q4]. wp_step. apply wp_on.
      destruct (schedule_in_range (fr_expiry s.1) k now (fr_timeout_ms s.1) (due_after timeout a)) as
        (w' & id & E1 & K & P0 & P1 & Tk & Cu & Id); try done; try congruence; try (unfold due_after, sat_add; lia).
      unfold due_after in E1. rewrite E1. repeat wp_step. fold (due_after timeout a) in *.
      change (wp (reschedule now timeout es expired) (put k (with_timer id a) (set_fr_expiry w' s.1), s.2)
        (fun expired' s' => s'.2 = s.2 /\ exists mk',
           rescheduled now timeout s.1 mk ((k, a) :: es) expired s'.1 expired' mk') (fun _ _ => False)).
      eapply wp_mono; [apply (IH expired (put k (with_timer id a) (set_fr_expiry w' s.1), s.2) (<[k := with_timer id a]> mk))| |done];
        cbn [fst snd put set_fr_tables set_fr_expiry fr_expiry fr_timeout_ms fr_expiry_tick_ms fr_assemblies].
      * split; cbn; congruence.
      * done.
      * done.
      * done.
      * lia.
      * rewrite P1, <- Q3. by apply (timed_insert as_expiry_timer (due_after timeout) _ _ _ k (with_timer id a)).
      * by apply insert_mono.
      * exact (Ut id).
      * intros exp' s' (El & mk' & [R1 R2 R3 R4 R5 R6 R7]). split; [done|]. exists mk'. split; try done.
        -- eapply retimed_trans; [apply (retimed_refl s.1 w')|]. eapply retimed_trans; [|exact R1]. by apply retimed_put.
        -- rewrite len_cons. cbn in R3. lia.
        -- intros k'. rewrite R6. setoid_rewrite elem_of_cons. split.
           ++ intros [?|(a' & ? & ?)]; [by left|right; exists a'; split; [by right|done]].
           ++ intros [?|(a' & [[= -> ->]|?] & ?)]; [by left|lia|right; by exists a'].
        -- intros k'. rewrite R7. setoid_rewrite elem_of_cons. rewrite lookup_insert_is_Some. split.
           ++ intros [[->|[_ ?]]|(a' & ? & ?)]; [right; exists a; split; [by left|done]|by left|right; exists a'; split; [by right|done]].
           ++ intros [?|(a' & [[= -> ->]|?] & ?)]; [|left; by left|right; by exists a'].
              left. destruct (decide (k = k')); [by left|by right].
Qed.

Lemma effective_range r divisor : 0 < fr_timeout_ms r -> 1 <= divisor -> 1 <= effective_timeout r divisor <= fr_timeout_ms r.
Proof.
  intros Ht Hd. unfold effective_timeout. rewrite (Z.max_l divisor) by lia.
  pose proof (Z.div_le_upper_bound (fr_timeout_ms r) divisor (fr_timeout_ms r)). nia.
Qed.

(** After a change of the divisor: new timers for what is younger than the new timeout. *)
Record rebuilt (now divisor : Z) ls s s' : Prop := {
  rb_inv : frag_inv ls s';
  rb_now : fr_now_ms s'.1 = now;
  rb_timeout : fr_timeout_ms s'.1 = fr_timeout_ms s.1;
  rb_divisor : fr_timeout_divisor s'.1 = divisor;
  rb_ids : tq_ids (fr_expiry s'.1) <= Z.of_nat (size (fr_assemblies s.1));
  rb_serial : fr_next_eviction_serial s'.1 = fr_next_eviction_serial s.1;
  rb_assemblies k : match fr_assemblies s'.1 !! k with
    | Some a' => exists a, (fr_assemblies s.1 !! k = Some a) /\ same_but_timer a a' /\
        now - as_created_at_ms a < effective_timeout s.1 divisor
    | None => forall a, fr_assemblies s.1 !! k = Some a -> effective_timeout s.1 divisor <= now - as_created_at_ms a
    end
}.

Lemma map_len m : len (map_to_list m) = Z.of_nat (size m).
Proof. unfold len. by rewrite length_map_to_list. Qed.

(** What did not expire is what has a timer. *)
Lemma rescheduled_survivors now timeout r r' expired mk :
  rescheduled now timeout r ∅ (map_to_list (fr_assemblies r)) [] r' expired mk ->
  filter (fun p => p.1 ∉ expired) (fr_assemblies r') = mk /\
  forall k, match mk !! k with
    | Some a' => exists a, (fr_assemblies r !! k = Some a) /\ same_but_timer a a' /\ now - as_created_at_ms a < timeout
    | None => forall a, fr_assemblies r !! k = Some a -> timeout <= now - as_created_at_ms a
    end.
Proof.
  intros [R1 _ _ _ R5 R6 R7]. setoid_rewrite elem_of_map_to_list in R6. setoid_rewrite elem_of_map_to_list in R7.
  assert (forall k a', mk !! k = Some a' ->
    exists a, (fr_assemblies r !! k = Some a) /\ same_but_timer a a' /\ now - as_created_at_ms a < timeout) as F.
  { intros k a' Hm. destruct (proj1 (R7 k) ltac:(by eexists)) as [[? C]|(a & E & Ha)]; [by rewrite lookup_empty in C|].
    exists a. split_and!; try done. pose proof (rt_assemblies _ _ R1 k) as M. rewrite E in M.
    by rewrite (lookup_weaken _ _ _ _ Hm R5) in M. }
  split.
  - apply map_eq. intros k. apply option_eq. intros a'. rewrite map_lookup_filter_Some. cbn. rewrite R6. split.
    + intros (E' & Hk). pose proof (rt_assemblies _ _ R1 k) as M. rewrite E' in M.
      destruct (fr_assemblies r !! k) as [a|] eqn:E; [|done].
      destruct (proj2 (R7 k)) as [x Hx].
      { right. exists a. split; [done|]. destruct (Z.lt_ge_cases (now - as_created_at_ms a) timeout); [done|].
        destruct Hk. right. by exists a. }
      pose proof (lookup_weaken _ _ _ _ Hx R5). congruence.
    + intros Hm. split; [by eapply lookup_weaken|]. destruct (F k a' Hm) as (a & E & _ & Ha).
      intros [[]%not_elem_of_nil|(a2 & E2 & H2)]. rewrite E in E2. injection E2 as ->. lia.
  - intros k. destruct (mk !! k) as [a'|] eqn:Hm; [by apply F|]. intros a E.
    destruct (Z.lt_ge_cases (now - as_created_at_ms a) timeout); [|lia].
    destruct (proj2 (R7 k)) as [x Hx]; [right; by exists a|]. congruence.
Qed.

Lemma rebuild_spec now divisor ls s max_quotes x :
  frag_inv ls s -> 0 <= now < u64_max -> fr_now_ms s.1 <= now -> 1 <= divisor ->
  Z.of_nat (size (fr_assemblies s.1)) <= u64_max ->
  wp (due ← rebuild_expiry now divisor; fragment_expire_due due max_quotes x) (set_fr_now now s.1, s.2)
    (fun _ s' => rebuilt now divisor ls s s') (fun _ _ => False).
Proof.
  intros [C T Ti A] Hn Hle Hd Hsz. pose proof (co_timeout _ C) as Ht.
  assert (fr_expiry_tick_ms s.1 = safe_tick (fr_timeout_ms s.1)) as Hk by apply (co_tick _ C).
  destruct (safe_tick_covers _ Ht) as [Rt _].
  unfold rebuild_expiry, on_expiry, on_reassembler. do 3 wp_step. wp_step. apply wp_on. cbn [fst snd fr_expiry_tick_ms set_fr_now].
  destruct (tq_new_law (fr_expiry_tick_ms s.1) now) as (w0 & E0 & K0 & P0 & T0 & C0 & I0);
    [rewrite Hk; lia|unfold is_u64, u64_max in *; lia|].
  rewrite E0. wp_step. cbn [fst snd].
  set (r0 := set_fr_expiry w0 (set_fr_now now s.1)).
  assert (untouched now r0 ∅ (map_to_list (fr_assemblies s.1))) as U.
  { split; [apply NoDup_fst_map_to_list|]. intros k a Ha%elem_of_map_to_list. split_and!; [done|done| |];
      pose proof (ta_created _ T k a Ha); lia. }
  pose proof (effective_range s.1 divisor ltac:(lia) Hd) as He.
  eapply wp_mono; [apply (reschedule_spec now _ _ [] (r0, s.2) ∅); cbn; try done| |done].
  - rewrite I0, map_len. lia.
  - rewrite P0. apply timed_empty.
  - apply map_empty_subseteq.
  - intros expired s1 (El & mk & R). wp_step. wp_step. wp_step. cbn [fst snd] in *.
    destruct (rescheduled_survivors _ _ _ _ _ _ R) as [Ef Hs]. destruct R as [R1 R2 R3 R4 _ _ _].
    destruct (rt_same _ _ R1) as (S1 & S2 & S3 & S4 & S5). cbn in S1, S2, S3, S4, S5.
    eapply wp_mono; [apply (fragment_expire_due_spec _ _ _ ls)| |done].
    + assert (tables_ok s1.1) as [] by (apply R1, set_expiry_tables, set_now_tables; done). by split.
    + cbn. rewrite El. by apply R1.
    + intros _ s' (T' & A' & E & Ex & Sc & Se). destruct Sc as [V1 V2 V3 V4 V5]. cbn in E, Ex, Se, V1, V2, V3, V4.
      rewrite Ef in E. destruct R2 as [Q1 Q2 Q3 Q4].
      assert (deadline_of s'.1 = due_after (effective_timeout s.1 divisor)) as Ed.
      { unfold deadline_of, timeout_of, effective_timeout, due_after. by rewrite V1, V3, S1. }
      split; try congruence.
      * split; [|done|rewrite Ed, E, Ex, V4; exact R4|done].
        split; rewrite ?V1, ?V2, ?V3, ?V4, ?Ex, ?S1, ?S2; try done; try lia; [rewrite S4; apply C|].
        rewrite Q4, Z.mul_comm. apply Z.mul_div_le. rewrite S4. lia.
      * rewrite Ex. cbn in R3. rewrite I0, map_len in R3. lia.
      * rewrite E. exact Hs.
Qed.

(** ** The clock *)
Lemma inv_stats (f : FragmentStats -> FragmentStats) ls s :
  (forall st, fs_active_datagrams (f st) = fs_active_datagrams st) -> frag_inv ls s ->
  frag_inv ls (count_stats f s.1, s.2).
Proof. intros Hf [[] T ? ?]. split; try done. by apply stats_tables. Qed.

Definition went_backwards (now : Z) s (e : FragmentError) s' : Prop :=
  now < fr_now_ms s.1 /\ e = FragmentClockWentBackwards /\ s' = s.

Lemma update_time_spec now s : wp (fragment_update_time now) s
  (fun _ s' => fr_now_ms s.1 <= now /\ s' = (set_fr_now now s.1, s.2)) (went_backwards now s).
Proof. unfold fragment_update_time, on_reassembler. repeat wp_step; [by apply Z.ltb_lt in H1|by apply Z.ltb_ge in H1]. Qed.

Lemma advance_current_spec now ls s : frag_inv ls s -> 0 <= now < u64_max ->
  wp (advance_current now) s (fun _ s' => fr_now_ms s.1 <= now /\ advanced_to now ls s s') (went_backwards now s).
Proof.
  intros I Hn. unfold advance_current. wp_step. eapply wp_mono; [apply update_time_spec| |done].
  intros _ s0 [Hle ->]. apply wp_assoc. wp_step. eapply wp_mono; [by apply (advance_spec now ls)| |done].
  intros n s' [J]. unfold on_reassembler. repeat wp_step. split; [done|]. split; try done. by apply inv_stats.
Qed.

(** The divisor decides between advancing the timers and setting them anew. *)
Lemma advance_under_pressure_spec now divisor max_quotes ls s : frag_inv ls s -> 0 <= now < u64_max ->
  Z.of_nat (size (fr_assemblies s.1)) <= u64_max ->
  wp (advance_time_under_pressure_with_quotes now divisor max_quotes) s
    (fun _ s' => fr_now_ms s.1 <= now /\
       if decide (Z.max divisor 1 = fr_timeout_divisor s.1) then advanced_to now ls s s'
       else rebuilt now (Z.max divisor 1) ls s s')
    (went_backwards now s).
Proof.
  intros I Hn Hsz. unfold advance_time_under_pressure_with_quotes.
  wp_step. eapply wp_mono; [apply update_time_spec| |done]. intros _ s0 [Hle ->]. do 2 wp_step.
  apply wp_assoc. cbn [fst snd fr_timeout_divisor set_fr_now]. wp_step. case_decide as Hd.
  - rewrite Hd, Z.eqb_refl. eapply wp_mono; [by apply (advance_spec now ls)| |done].
    intros n s' [J]. unfold on_reassembler. repeat wp_step. split; [done|]. split; try done. by apply inv_stats.
  - rewrite (proj2 (Z.eqb_neq _ _) Hd). eapply wp_mono; [apply (rebuild_spec now _ ls); try done; lia| |done].
    intros n s' [J]. unfold on_reassembler. repeat wp_step. split; [done|]. split; try done. by apply inv_stats.
Qed.
End Invariant.
