(* ===== verification/ReassemblyIngest.v ===== *)
(** Ingesting a fragment ([sail-netstack/src/ip/reassembly.rs]): the credit a
    fragment takes from the ledger, at the price of the oldest datagrams; the
    datagram it opens or extends; the packet a complete datagram gives. *)
From S2P Require Import Prelude StateMonad Checksum IpWire Budget Timer TimerRefine TimerInterface Leases ExpiryIndex.
From S2P Require Import Pmtu Fragmentation FragmentTheorems Reassembly ReassemblyInv ReassemblyOps.
From stdpp Require Import list sorting gmap.
#[local] Open Scope Z_scope.

Section Ingest.
Context {W : Type} `{TimerQueueLaws FragmentKey W} (b : ResourceBudget) (rest : holdings) (Hb : budget_range b).
Abbreviation fstate := (@fstate W).
Abbreviation inv := (frag_inv b rest).
Abbreviation accounted := (accounts b rest).
Implicit Types (r : @FragmentReassembler W) (s : fstate) (w : W) (m : gmap FragmentKey Assembly) (ls : list BudgetLease).

(** ** Credit *)
Lemma wp_holding {A} ls (m : @FM W A) s Q X :
  wp m s Q (fun e s' => X e (s'.1, drop_leases ls s'.2)) -> wp (holding ls m) s Q X.
Proof.
  intros Hm. unfold holding. wp_step. wp_step. eapply wp_mono; [exact Hm|..].
  - intros a s' Ha. by apply wp_ret.
  - intros e s' He. apply wp_bind, wp_modify. by apply wp_throw.
Qed.

Definition refused_budget (e : FragmentError) : Prop := exists be, e = FragmentBudget be.

Lemma wp_fragment_acquire k amount s ls (Q : BudgetLease -> fstate -> Prop) (X : FragmentError -> fstate -> Prop) :
  accounted s.2 ls -> 0 < amount <= u64_max ->
  (forall l, accounted l (mkLease k amount :: ls) -> Q (mkLease k amount) (s.1, l)) ->
  (forall e l, ~ affords b rest (mkLease k amount :: ls) -> accounted l ls -> X (FragmentBudget e) (s.1, l)) ->
  wp (fragment_acquire b k amount) s Q X.
Proof.
  intros A Ha HQ HX. unfold fragment_acquire. apply wp_on.
  pose proof (accounts_acquire b rest Hb k amount s.2 ls A Ha) as S.
  destruct (try_acquire b k amount s.2) as [l [lease|e| |]]; [|by apply HX; apply S|done..].
  destruct S as [-> S]. by apply HQ.
Qed.

(** What a fragment of [n] bytes needs. *)
Definition credit_of (n : Z) (needs_assembly : bool) : PendingFragmentCredit :=
  mkCredit (mkLease Fragments 1) (mkLease FragmentBytes n) (mkLease MetadataBytes PIECE_METADATA_BYTES)
    (if needs_assembly then Some (mkLease MetadataBytes ASSEMBLY_METADATA_BYTES) else None).
Definition metadata_leases (needs_assembly : bool) : list BudgetLease :=
  if needs_assembly then [mkLease MetadataBytes ASSEMBLY_METADATA_BYTES] else [].
Definition needed (n : Z) (needs_assembly : bool) : list BudgetLease :=
  metadata_leases needs_assembly ++ credit_leases (credit_of n needs_assembly).

Lemma needed_amounts n needs ls : 0 < n -> Forall (fun x => 0 <= lease_amount x) ls ->
  Forall (fun x => 0 <= lease_amount x) (needed n needs ++ ls).
Proof. intros Hn F. apply Forall_app. split; [|done]. destruct needs; cbn; repeat (apply Forall_cons; split); try apply Forall_nil; cbn; done || lia. Qed.

Lemma try_credit_spec n needs s ls : accounted s.2 ls -> 0 < n <= u64_max ->
  wp (try_acquire_fragment_credit b n needs) s
    (fun c s' => c = credit_of n needs /\ s'.1 = s.1 /\ accounted s'.2 (needed n needs ++ ls))
    (fun e s' => refused_budget e /\ s'.1 = s.1 /\ accounted s'.2 ls /\ ~ affords b rest (needed n needs ++ ls)).
Proof.
  intros A Hn. pose proof (needed_amounts n needs ls ltac:(lia) (ac_amounts _ _ _ _ A)) as F.
  assert (forall xs e r l, xs ⊆+ needed n needs -> ~ affords b rest (xs ++ ls) -> r = s.1 -> accounted l ls ->
    refused_budget (FragmentBudget e) /\ r = s.1 /\ accounted l ls /\ ~ affords b rest (needed n needs ++ ls)) as R.
  { intros xs e r l Sub Na Er Al. split_and!; [by eexists|done..|]. intros Af. apply Na. eapply affords_sub; [|exact F|done].
    by apply submseteq_app. }
  assert (forall x l ls', accounted l (x :: ls') -> accounted (drop_leases [x] l) ls') as D
    by (intros; by apply (accounts_drop b rest Hb)).
  unfold try_acquire_fragment_credit. wp_step.
  eapply wp_fragment_acquire; [exact A|unfold u64_max; lia| |intros e l Na Al; eapply (R [_]); [|exact Na|done|done]].
  2: { destruct needs; solve_submseteq. }
  clear A. intros l A. apply wp_holding. wp_step. cbn [fst snd].
  eapply wp_fragment_acquire; [exact A|lia| |intros e l' Na Al; eapply (R [_; _]); [|exact Na|done|by apply D]].
  2: { destruct needs; unfold needed; cbn; solve_submseteq. }
  clear A. intros l' A. apply wp_holding. wp_step. cbn [fst snd].
  eapply wp_fragment_acquire; [exact A|unfold PIECE_METADATA_BYTES, u64_max; lia| |].
  2: { intros e l'' Na Al. eapply (R [_; _; _]); [|exact Na|done|by do 2 apply D]. destruct needs; unfold needed; cbn; solve_submseteq. }
  clear A. intros l'' A. apply wp_holding. wp_step. cbn [fst snd]. destruct needs.
  - wp_step. eapply wp_fragment_acquire; [exact A|unfold ASSEMBLY_METADATA_BYTES, u64_max; lia| |].
    + clear A. intros l3 A. repeat wp_step. split_and!; [done|done|]. eapply accounts_perm; [|exact A]. solve_Permutation.
    + intros e l3 Na Al. eapply (R [_; _; _; _]); [|exact Na|done|by do 3 apply D]. unfold needed. cbn. solve_submseteq.
  - repeat wp_step. split_and!; [done|done|]. eapply accounts_perm; [|exact A]. solve_Permutation.
Qed.

(** ** Eviction *)
#[local] Instance pair_le_total : Total pair_le.
Proof. intros x y. unfold pair_le. lia. Qed.
#[local] Instance pair_le_trans : Transitive pair_le.
Proof. intros x y z. unfold pair_le. lia. Qed.

Lemma oldest_spec (index : gmap (Z * Z) FragmentKey) :
  match oldest index with
  | Some k => exists ek, (index !! ek = Some k) /\ forall ek' k', index !! ek' = Some k' -> ek.1 <= ek'.1
  | None => index = ∅
  end.
Proof.
  unfold oldest. pose proof (merge_sort_Permutation pair_le (map_to_list index)) as P.
  pose proof (StronglySorted_merge_sort pair_le (map_to_list index)) as S.
  destruct (merge_sort pair_le (map_to_list index)) as [|[ek k] l]; cbn.
  - apply Permutation_nil in P. by apply map_to_list_empty_iff in P.
  - exists ek. split; [apply elem_of_map_to_list; rewrite <- P; left|]. intros ek' k' Hk'.
    apply elem_of_map_to_list in Hk'. rewrite <- P in Hk'. apply StronglySorted_inv in S as [_ S].
    apply elem_of_cons in Hk' as [[= -> ->]|Hk']; [lia|]. rewrite Forall_forall in S.
    specialize (S _ Hk'). unfold pair_le in S. cbn in S. lia.
Qed.

(** Datagrams given up, the oldest first. *)
Inductive evictions : gmap FragmentKey Assembly -> gmap FragmentKey Assembly -> Prop :=
| evict_none m : evictions m m
| evict_more m k a m' : m !! k = Some a ->
    (forall k' a', m !! k' = Some a' -> as_created_at_ms a <= as_created_at_ms a') ->
    evictions (delete k m) m' -> evictions m m'.

Lemma evictions_sub m m' : evictions m m' -> m' ⊆ m.
Proof. induction 1 as [|m k a m' _ _ _ IH]; [done|]. etrans; [exact IH|apply delete_subseteq]. Qed.

Lemma evictions_size m m' : evictions m m' -> (size m' <= size m)%nat.
Proof. intros E. by apply map_subseteq_size, evictions_sub. Qed.

Record evicted_from s s' : Prop := {
  ev_clock : same_clock s.1 s'.1;
  ev_ids : tq_ids (fr_expiry s'.1) = tq_ids (fr_expiry s.1);
  ev_serial : fr_next_eviction_serial s'.1 = fr_next_eviction_serial s.1;
  ev_assemblies : evictions (fr_assemblies s.1) (fr_assemblies s'.1)
}.

Lemma evict_spec ls s : inv ls s ->
  wp evict_oldest_assembly s
    (fun found s' => inv ls s' /\
       if (found : bool) then exists k a, (fr_assemblies s.1 !! k = Some a) /\ removed k s s' /\
         forall k' a', fr_assemblies s.1 !! k' = Some a' -> as_created_at_ms a <= as_created_at_ms a'
       else s' = s /\ fr_assemblies s.1 = ∅)
    (fun _ _ => False).
Proof.
  intros I. pose proof (fi_tables _ _ _ _ I) as T. unfold evict_oldest_assembly. do 2 wp_step.
  pose proof (oldest_spec (fr_eviction_index s.1)) as O.
  destruct (oldest (fr_eviction_index s.1)) as [k|].
  - destruct O as (ek & Ek & Hmin). destruct (proj1 (ta_evict _ T ek k) Ek) as (a & Ea & <-).
    eapply wp_mono; [by apply (discard_spec b rest Hb ls)| |done]. intros found s' (J & R & ->).
    split; [done|]. rewrite Ea. cbn. exists k, a. split_and!; [done|done|]. intros k' a' E'.
    destruct (ta_created _ T k a Ea) as [_ <-]. destruct (ta_created _ T k' a' E') as [_ <-].
    apply (Hmin _ k'). apply (ta_evict _ T). by exists a'.
  - wp_step. split_and!; [done|done|]. apply map_empty. intros k. destruct (fr_assemblies s.1 !! k) as [a|] eqn:E; [|done].
    assert (fr_eviction_index s.1 !! as_eviction_key a = Some k) as C by (apply (ta_evict _ T); by exists a).
    by rewrite O, lookup_empty in C.
Qed.

Lemma frag_inv_ledger ls ls' s s' : inv ls s -> s'.1 = s.1 ->
  accounted s'.2 (ls' ++ map_leases assembly_leases (fr_assemblies s.1)) -> inv ls' s'.
Proof. intros [? ? ? ?] E A. split; by rewrite E. Qed.

Lemma removed_evicted k a s s' : fr_assemblies s.1 !! k = Some a -> removed k s s' ->
  (forall k' a', fr_assemblies s.1 !! k' = Some a' -> as_created_at_ms a <= as_created_at_ms a') ->
  forall s'', evicted_from s' s'' -> evicted_from s s''.
Proof.
  intros E [R1 R2 R3 R4] Hmin s'' [V1 V2 V3 V4]. split; [by eapply same_clock_trans|congruence..|].
  eapply evict_more; [done|done|]. by rewrite <- R4.
Qed.

Lemma evicted_refl s l : evicted_from s (s.1, l).
Proof. split; [apply same_clock_refl|done..|apply evict_none]. Qed.

Lemma evicted_ledger s s' : s'.1 = s.1 -> evicted_from s s'.
Proof. destruct s'. cbn. intros ->. apply evicted_refl. Qed.

Definition missing (key : FragmentKey) s : bool := bool_decide (fr_assemblies s.1 !! key = None).

(** Credit is refused only when every datagram has been given up for it; and no
    datagram is given up while the limits carry the fragment beside them. *)
Lemma acquire_loop_spec fuel key n ls s : inv ls s -> 0 < n <= u64_max -> (size (fr_assemblies s.1) < fuel)%nat ->
  wp (acquire_fragment_credit_loop b fuel key n) s
    (fun c s' => c = credit_of n (missing key s') /\ inv (needed n (missing key s') ++ ls) s' /\ evicted_from s s' /\
       (affords b rest (needed n (missing key s) ++ ls ++ map_leases assembly_leases (fr_assemblies s.1)) -> s'.1 = s.1))
    (fun e s' => refused_budget e /\ inv ls s' /\ evicted_from s s' /\ fr_assemblies s'.1 = ∅ /\
       ~ affords b rest (needed n true ++ ls) /\
       ~ affords b rest (needed n (missing key s) ++ ls ++ map_leases assembly_leases (fr_assemblies s.1))).
Proof.
  revert s. induction fuel as [|fuel IH]; intros s I Hn Hf; [lia|]. cbn [acquire_fragment_credit_loop]. do 4 wp_step.
  fold (missing key s). eapply wp_mono; [by apply (try_credit_spec n (missing key s) s _ (fi_accounts _ _ _ _ I))|..].
  - intros c s' (-> & E & A). wp_step. unfold missing. rewrite E. fold (missing key s). split_and!; [done| | |done].
    + eapply frag_inv_ledger; [exact I|done|]. by rewrite <- (assoc_L (++)).
    + by apply evicted_ledger.
  - intros e s1 (He & E & A & Na). assert (inv ls s1) as I1 by (by eapply frag_inv_ledger).
    wp_step. eapply wp_mono; [by apply (evict_spec ls)| |done]. intros found s2 (I2 & F). rewrite E in F. wp_step.
    + rewrite H1 in F. destruct F as (k & a & Ea & R & Hmin). rewrite <- E in Ea, Hmin.
      pose proof (removed_evicted k a s1 s2 Ea R Hmin) as V.
      assert (forall s', evicted_from (count_stats st_evicted s2.1, s2.2) s' -> evicted_from s s') as V'.
      { intros s' V0. destruct (V s') as [[] ? ? ?]; [by destruct V0 as [[] ? ? ?]; split; [split|..]|].
        split; [split|..]; try congruence. }
      unfold on_reassembler. do 2 wp_step. eapply wp_mono; [apply IH; [by apply inv_stats|done|]|..].
      * cbn. rewrite (rm_assemblies _ _ _ R). rewrite map_size_delete_Some by (by eexists). rewrite E in *. pose proof (map_size_ne_0_lookup_2 (fr_assemblies s.1) k ltac:(by eexists)). lia.
      * intros c s' (-> & J & Ev & _). split_and!; [done|done|by apply V'|done].
      * intros e' s' (He' & J & Ev & M & Na' & _). split_and!; [done|done|by apply V'|done|done|done].
    + rewrite H1 in F. destruct F as (-> & M). wp_step.
      split_and!; [done|done|by apply evicted_ledger|by rewrite E| |done]. rewrite M in Na. cbn in Na.
      unfold missing in Na. rewrite M, lookup_empty in Na. unfold map_leases in Na.
      rewrite map_to_list_empty in Na. cbn in Na. by rewrite app_nil_r in Na.
Qed.

(** ** Opening a datagram *)

(** The state a call works on once it has expired what is due at [now]. *)
Record ready (now : Z) ls s : Prop := {
  rd_inv : inv ls s;
  rd_now : 0 <= now < u64_max;
  rd_last : fr_now_ms s.1 = now;
  rd_current : tq_current (fr_expiry s.1) = now / fr_expiry_tick_ms s.1;
  rd_ids : tq_ids (fr_expiry s.1) < u64_max;
  rd_serial : fr_next_eviction_serial s.1 < u64_max
}.

Lemma ready_frame now ls ls' s s' : ready now ls s -> same_clock s.1 s'.1 ->
  tq_ids (fr_expiry s'.1) = tq_ids (fr_expiry s.1) -> fr_next_eviction_serial s'.1 = fr_next_eviction_serial s.1 ->
  inv ls' s' -> ready now ls' s'.
Proof. intros [] [] ? ? ?. split; congruence. Qed.

(** The next serial has never been used. *)
Lemma next_eviction_key_spec now s : tables_ok s.1 -> fr_next_eviction_serial s.1 < u64_max ->
  wp (next_eviction_key now) s
    (fun ek s' => ek = (now, fr_next_eviction_serial s.1) /\ (fr_eviction_index s.1 !! ek = None) /\
       s' = (set_fr_serial (fr_next_eviction_serial s.1 + 1) s.1, s.2))
    (fun _ _ => False).
Proof.
  intros T Hs. pose proof (ta_serial0 _ T) as H0'. unfold next_eviction_key. do 2 wp_step. cbn [next_eviction_key_loop]. do 2 wp_step.
  unfold on_reassembler. do 2 wp_step. rewrite wrap64_small by lia.
  destruct (fr_eviction_index s.1 !! (now, fr_next_eviction_serial s.1)) as [k|] eqn:E.
  - apply (ta_serial _ T) in E. cbn in E. lia.
  - rewrite bool_decide_true by done. by wp_step.
Qed.

Definition fresh_assembly (protocol now : Z) (timer : TimerId) (ek : Z * Z) (metadata : BudgetLease) : Assembly :=
  mkAssembly None None protocol [] None now timer ek metadata.

Lemma fresh_ok k protocol now timer ek metadata : assembly_ok k (fresh_assembly protocol now timer ek metadata).
Proof. by split. Qed.

Lemma insert_tables key a r : fr_assemblies r !! key = None ->
  0 <= as_created_at_ms a <= fr_now_ms r -> as_eviction_key a = (as_created_at_ms a, fr_next_eviction_serial r) ->
  assembly_ok key a -> tables_ok r ->
  tables_ok (count_stats (st_active (Z.of_nat (size (<[key := a]> (fr_assemblies r)))))
    (set_fr_tables (<[key := a]> (fr_assemblies r)) (<[as_eviction_key a := key]> (fr_eviction_index r))
       (set_fr_serial (fr_next_eviction_serial r + 1) r))).
Proof.
  intros N Hc He Ha [T1 T2 T3 T4 T5 T6].
  assert (fr_eviction_index r !! as_eviction_key a = None) as Ni.
  { destruct (fr_eviction_index r !! as_eviction_key a) as [k|] eqn:E; [|done]. apply T3 in E. rewrite He in E. cbn in E. lia. }
  split; cbn.
  - intros k x [[<- <-]|[_ Hx]]%lookup_insert_Some; [by rewrite He|eauto].
  - intros ek k. rewrite lookup_insert_Some, T2. setoid_rewrite lookup_insert_Some. split.
    + intros [[<- <-]|(Hne & x & Ex & <-)]; [naive_solver|]. exists x. split; [|done]. right. split; [congruence|done].
    + intros (x & [[<- <-]|[Hne Ex]] & <-); [by left|]. right. split; [|by exists x]. intros Heq.
      assert (fr_eviction_index r !! as_eviction_key x = Some k) by (apply T2; by exists x). congruence.
  - intros ek k [[<- _]|[_ Hx]]%lookup_insert_Some; [rewrite He; cbn; lia|]. apply T3 in Hx. lia.
  - lia.
  - intros k x [[<- <-]|[_ Hx]]%lookup_insert_Some; eauto.
  - done.
Qed.

Record opened (key : FragmentKey) (protocol now : Z) (metadata : BudgetLease) s s' : Prop := {
  op_clock : same_clock s.1 s'.1;
  op_ids : tq_ids (fr_expiry s'.1) = tq_ids (fr_expiry s.1) + 1;
  op_serial : fr_next_eviction_serial s'.1 = fr_next_eviction_serial s.1 + 1;
  op_assemblies : exists timer ek,
    fr_assemblies s'.1 = <[key := fresh_assembly protocol now timer ek metadata]> (fr_assemblies s.1)
}.

Lemma open_spec key protocol now metadata ls s c : ready now (metadata :: ls) s ->
  fr_assemblies s.1 !! key = None -> cr_assembly_metadata c = Some metadata ->
  wp (open_assembly key protocol now c) s
    (fun _ s' => inv ls s' /\ opened key protocol now metadata s s') (fun _ _ => False).
Proof.
  intros [I Hn Hl Hc Hi Hs] N E. destruct I as [C T Ti A]. unfold open_assembly. wp_step. rewrite E. apply wp_lift. cbn [ok_or].
  apply wp_holding. do 2 wp_step. unfold on_expiry. wp_step. apply wp_on.
  pose proof (effective_range s.1 (fr_timeout_divisor s.1) ltac:(apply C) ltac:(apply C)) as He.
  assert (fr_expiry_tick_ms s.1 = safe_tick (fr_timeout_ms s.1)) as Hk by apply (co_tick _ C).
  destruct (schedule_in_range (fr_expiry s.1) key now (fr_timeout_ms s.1)
    (sat_add now (effective_timeout s.1 (fr_timeout_divisor s.1)))) as (w' & id & E1 & K & P0 & P1 & Tk & Cu & Id);
    try done; try apply C; try (unfold sat_add; lia); [rewrite (co_queue_tick _ C); apply C|congruence|].
  rewrite E1. wp_step. eapply wp_mono; [apply next_eviction_key_spec; [by apply set_expiry_tables|done]| |done].
  intros ek s' (-> & _ & ->). unfold on_reassembler. wp_step. cbn [fst snd fr_next_eviction_serial set_fr_expiry].
  split; [|split; [by split|done|done|]; by eexists _, _].
  set (a := fresh_assembly protocol now id (now, fr_next_eviction_serial s.1) metadata).
  pose proof (insert_tables key a (set_fr_expiry w' s.1) N) as T'. cbn in T'.
  split.
  - destruct C. split; cbn; try done; congruence.
  - apply T'; [lia|done|apply fresh_ok|by apply set_expiry_tables].
  - cbn. rewrite P1. replace (safe_tick (fr_timeout_ms s.1)) with (fr_expiry_tick_ms s.1).
    by apply (timed_insert as_expiry_timer (deadline_of s.1) _ _ _ key a).
  - cbn. eapply accounts_perm; [|exact A]. rewrite (map_leases_insert assembly_leases _ key _ N). cbn.
    solve_Permutation.
Qed.

(** ** Extending a datagram *)
Lemma put_put key a a' r : put key a' (put key a r) = put key a' r.
Proof. unfold put, set_fr_tables. cbn. by rewrite insert_insert_eq. Qed.

Lemma wp_put_assembly key a s (Q : unit -> fstate -> Prop) X : Q tt (put key a s.1, s.2) -> wp (put_assembly key a) s Q X.
Proof. done. Qed.

(** Replacing a datagram by one of the same age that holds more. *)
Lemma put_inv xs ls key a a' s : inv (xs ++ ls) s -> fr_assemblies s.1 !! key = Some a -> assembly_ok key a' ->
  as_created_at_ms a' = as_created_at_ms a -> as_eviction_key a' = as_eviction_key a ->
  as_expiry_timer a' = as_expiry_timer a -> Permutation (assembly_leases a') (xs ++ assembly_leases a) ->
  inv ls (put key a' s.1, s.2).
Proof.
  intros [C T Ti A] E Ha Hc He Hi P. split.
  - by destruct C.
  - by apply (put_tables key a).
  - cbn. apply (timed_replace _ _ _ _ _ _ a); try done. unfold deadline_of. by rewrite Hc.
  - cbn. eapply accounts_perm; [|exact A]. rewrite (map_leases_replace assembly_leases _ _ _ a' E).
    rewrite (map_leases_delete assembly_leases _ _ _ E), P. solve_Permutation.
Qed.

Section Extending.
Context (key : FragmentKey) (f : FragmentInfo) (fp header : list Z) (previous : option Z) (end_ : Z).
Abbreviation ext := (extended f fp header previous end_).

Lemma extended_frame c a : as_created_at_ms (ext c a) = as_created_at_ms a /\ as_eviction_key (ext c a) = as_eviction_key a /\
  as_expiry_timer (ext c a) = as_expiry_timer a /\ as_metadata (ext c a) = as_metadata a.
Proof. unfold extended. by destruct (offset_bytes f =? 0), (more_fragments f). Qed.

Lemma extended_leases c a : assembly_ok key a -> admissible key f fp header previous end_ a ->
  Permutation (assembly_leases (ext c a)) (credit_leases c ++ assembly_leases a).
Proof.
  intros O A. destruct (extended_pieces key f fp header previous end_ c a O A) as (_ & _ & P). unfold assembly_leases.
  destruct (extended_frame c a) as (_ & _ & _ & ->). rewrite !flat_map_concat_map, P. cbn. done.
Qed.

Lemma add_piece_spec c ls s a : inv (credit_leases c ++ ls) s -> fr_assemblies s.1 !! key = Some a ->
  admissible key f fp header previous end_ a ->
  wp (add_piece key f fp header previous end_ c) s
    (fun a' s' => a' = ext c a /\ inv ls s' /\ same_clock s.1 s'.1 /\ tq_ids (fr_expiry s'.1) = tq_ids (fr_expiry s.1) /\
       fr_next_eviction_serial s'.1 = fr_next_eviction_serial s.1 /\
       fr_assemblies s'.1 = <[key := ext c a]> (fr_assemblies s.1))
    (fun _ _ => False).
Proof.
  intros I E A. pose proof (ta_assembly _ (fi_tables _ _ _ _ I) key a E) as O.
  destruct (extended_frame c a) as (F1 & F2 & F3 & _).
  pose proof (put_inv _ _ key a (ext c a) s I E (extended_ok _ _ _ _ _ _ c a O A) F1 F2 F3 (extended_leases c a O A)) as J.
  destruct (extended_pieces key f fp header previous end_ c a O A) as (_ & P2 & _). cbn zeta in P2.
  unfold add_piece. apply wp_holding. do 3 wp_step. rewrite E. apply wp_lift. cbn [ok_or].
  set (a1 := if offset_bytes f =? 0 then with_header header previous a else a).
  assert (as_pieces a1 = as_pieces a /\ as_total_payload_len a1 = as_total_payload_len a) as [E1 E2]
    by (unfold a1; by destruct (offset_bytes f =? 0)).
  wp_step. apply wp_put_assembly. wp_step.
  eapply (wp_mono _ _ (fun a2 s' => a2 = (if more_fragments f then a1 else with_total end_ a1) /\ s' = (put key a1 s.1, s.2))
    _ (fun _ _ => False)); [| |done].
  { rewrite E2. destruct (more_fragments f) eqn:Hm; [by wp_step|].
    destruct (as_total_payload_len a) as [total|] eqn:Et; [|by wp_step].
    rewrite (admissible_final _ _ _ _ _ _ a total O A Hm Et), Z.eqb_refl. by wp_step. }
  intros a2 s' [-> ->]. set (a2 := if more_fragments f then a1 else with_total end_ a1).
  assert (as_pieces a2 = as_pieces a) as E3 by (rewrite <- E1; unfold a2; by destruct (more_fragments f)).
  rewrite E3. set (p := mkPiece _ _ _ _) in *.
  destruct (insert_piece (offset_bytes f) p (as_pieces a)) as [pieces old] eqn:Ei. cbn in P2. subst old. cbn [drop_leases foldl].
  assert (with_pieces pieces a2 = ext c a) as Ea.
  { unfold extended. fold a1. fold a2. fold p. by rewrite E3, Ei. }
  rewrite Ea. unfold on_ledger. do 2 wp_step. wp_step. apply wp_put_assembly. unfold on_reassembler. do 3 wp_step.
  cbn [fst snd]. rewrite put_put. split_and!; try done. by apply (inv_stats b rest st_buffered ls (put key (ext c a) s.1, s.2)).
Qed.
End Extending.

(** ** A complete datagram *)
Lemma finish_spec key ls s a : inv ls s -> fr_assemblies s.1 !! key = Some a -> is_complete a = true ->
  wp (finish_assembly key) s
    (fun packet s' => inv ls s' /\ removed key s s' /\ (exists p, packet = Some p /\ rebuild a (fk_version key) = Ok p))
    (fun _ _ => False).
Proof.
  intros I E Hc. pose proof (ta_assembly _ (fi_tables _ _ _ _ I) key a E) as O.
  unfold finish_assembly. wp_step. eapply wp_mono; [by apply (remove_spec b rest ls key)| |done].
  intros o s' (-> & J & R). rewrite E in *. wp_step. apply wp_lift. cbn [ok_or]. unfold on_ledger. do 2 wp_step.
  wp_step. destruct (rebuild_ok key a O Hc) as (p & Ep). rewrite Ep. apply wp_lift. unfold on_reassembler. do 3 wp_step.
  split_and!; [|by destruct R as [[] ? ? ?]; split; [split|..]|by exists p]. cbn [fst snd].
  by apply (inv_stats b rest st_completed ls (s'.1, drop_leases (assembly_leases a) s'.2)), inv_drop.
Qed.

(** ** Accepting a fragment *)
Section Accept.
Context (key : FragmentKey) (f : FragmentInfo) (fp header : list Z) (previous : option Z) (protocol end_ now : Z).

Definition begun (timer : TimerId) (ek : Z * Z) : Assembly :=
  fresh_assembly protocol now timer ek (mkLease MetadataBytes ASSEMBLY_METADATA_BYTES).

(** The datagram a fragment is added to, in the table [m] that is left for it. *)
Definition target m (a : Assembly) : Prop :=
  if bool_decide (m !! key = None) then exists timer ek, a = begun timer ek else m !! key = Some a.
Definition grown m (a : Assembly) : Assembly :=
  extended f fp header previous end_ (credit_of (len fp) (bool_decide (m !! key = None))) a.

(** What is returned and what is kept, of the table [m] and the datagram [a]. *)
Definition delivered m (a : Assembly) (packet : option (list Z)) m' : Prop :=
  if is_complete a then m' = delete key m /\ exists p, packet = Some p /\ rebuild a (fk_version key) = Ok p
  else m' = <[key := a]> m /\ packet = None.

Record accepted ls s (packet : option (list Z)) s' : Prop := {
  ac_clock : same_clock s.1 s'.1;
  ac_ids : tq_ids (fr_expiry s'.1) <= tq_ids (fr_expiry s.1) + 1;
  ac_serial : fr_next_eviction_serial s'.1 <= fr_next_eviction_serial s.1 + 1;
  ac_result : exists m a, evictions (fr_assemblies s.1) m /\
    (affords b rest (needed (len fp) (missing key s) ++ ls ++ map_leases assembly_leases (fr_assemblies s.1)) ->
       m = fr_assemblies s.1) /\
    target m a /\ delivered m (grown m a) packet (fr_assemblies s'.1)
}.

Record no_room ls s (e : FragmentError) s' : Prop := {
  nr_error : refused_budget e;
  nr_inv : inv ls s';
  nr_evicted : evicted_from s s';
  nr_empty : fr_assemblies s'.1 = ∅;
  nr_limits : ~ affords b rest (needed (len fp) true ++ ls);
  nr_first : ~ affords b rest (needed (len fp) (missing key s) ++ ls ++ map_leases assembly_leases (fr_assemblies s.1))
}.

(** The datagram is there, opened if it was not. *)
Lemma target_spec c ls s : ready now (needed (len fp) (missing key s) ++ ls) s -> c = credit_of (len fp) (missing key s) ->
  wp (if bool_decide (fr_assemblies s.1 !! key = None)
      then holding (credit_leases c) (open_assembly key protocol now c) else mret tt) s
    (fun _ s' => inv (credit_leases c ++ ls) s' /\ same_clock s.1 s'.1 /\
       tq_ids (fr_expiry s'.1) <= tq_ids (fr_expiry s.1) + 1 /\
       fr_next_eviction_serial s'.1 <= fr_next_eviction_serial s.1 + 1 /\
       exists a, target (fr_assemblies s.1) a /\ fr_assemblies s'.1 = <[key := a]> (fr_assemblies s.1))
    (fun _ _ => False).
Proof.
  intros R ->. unfold missing in *. unfold target. destruct (fr_assemblies s.1 !! key) as [a|] eqn:E.
  - rewrite bool_decide_false in * by done. wp_step. split_and!; [apply R|apply same_clock_refl|lia|lia|].
    exists a. split; [done|]. by rewrite insert_id.
  - rewrite bool_decide_true in * by done. apply wp_holding.
    eapply wp_mono; [apply (open_spec key protocol now (mkLease MetadataBytes ASSEMBLY_METADATA_BYTES) (credit_leases (credit_of (len fp) true) ++ ls)); [exact R|done..]| |done].
    intros _ s' (J & [O1 O2 O3 (timer & ek & O4)]). split_and!; [done|done|lia|lia|]. eexists. split; [by eexists _, _|done].
Qed.

Lemma accept_spec ls s : ready now ls s ->
  (forall m a, m ⊆ fr_assemblies s.1 -> target m a -> admissible key f fp header previous end_ a) ->
  0 < len fp <= u64_max ->
  wp (accept_fragment b key f fp header previous protocol end_ now) s
    (fun packet s' => inv ls s' /\ accepted ls s packet s') (no_room ls s).
Proof.
  intros R Hadm Hlen. unfold accept_fragment. wp_step. unfold acquire_fragment_credit. do 2 wp_step.
  eapply wp_mono; [apply (acquire_loop_spec _ key (len fp) ls s); [apply R|done|lia]| |intros e s' (? & ? & ? & ? & ? & ?); by split].
  intros c s1 (Ec & I1 & [V1 V2 V3 V4] & Hroom). do 2 wp_step. wp_step.
  eapply wp_mono; [apply (target_spec c ls s1); [|done]; by eapply ready_frame| |done].
  intros _ s2 (I2 & C2 & D2 & S2 & a & Ta & M2). wp_step.
  eapply wp_mono; [apply (add_piece_spec key f fp header previous end_ c ls s2 a); [done|by rewrite M2, lookup_insert_eq|]| |done].
  { eapply Hadm; [|exact Ta]. by apply evictions_sub. }
  intros a' s3 (-> & I3 & C3 & D3 & S3 & M3). rewrite M2, insert_insert_eq in M3.
  assert (extended f fp header previous end_ c a = grown (fr_assemblies s1.1) a) as Eg by (by rewrite Ec).
  rewrite Eg in *. set (g := grown (fr_assemblies s1.1) a) in *.
  assert (forall s' packet, same_clock s3.1 s'.1 -> tq_ids (fr_expiry s'.1) = tq_ids (fr_expiry s3.1) ->
    fr_next_eviction_serial s'.1 = fr_next_eviction_serial s3.1 ->
    delivered (fr_assemblies s1.1) g packet (fr_assemblies s'.1) -> accepted ls s packet s') as Fin.
  { intros s' packet C' D' S' Del. split; [exact (same_clock_trans _ _ _ V1 (same_clock_trans _ _ _ C2 (same_clock_trans _ _ _ C3 C')))|lia|lia|].
    exists (fr_assemblies s1.1), a. split_and!; [done| |done|done]. intros Af. by rewrite Hroom. }
  wp_step.
  - eapply wp_mono; [apply (finish_spec key ls s3 g); [done|by rewrite M3, lookup_insert_eq|done]| |done].
    intros packet s' (J & [] & Hp). split; [done|]. apply Fin; try done. unfold delivered. rewrite H1. split; [|done].
    rewrite rm_assemblies, M3. apply delete_insert_eq.
  - wp_step. split; [done|]. apply Fin; try done. unfold delivered. by rewrite H1.
Qed.
End Accept.

(** ** Ingesting a packet *)
Lemma fragment_end_inv f n e : 0 <= n -> fragment_end f n = Ok e ->
  0 < n /\ e = offset_bytes f + n /\ e <= 65535 /\ (more_fragments f = true -> n mod 8 = 0).
Proof.
  intros Hn. unfold fragment_end, try_u32, ok_or. destruct (Z.eqb_spec n 0); [done|].
  destruct (more_fragments f && negb (n mod 8 =? 0)) eqn:Em; [done|].
  destruct (n <=? u32_max); [|done]. cbn. destruct (offset_bytes f + n <=? u32_max); [|done]. cbn.
  destruct (Z.ltb_spec MAX_REASSEMBLED_BYTES (offset_bytes f + n)); [done|]. intros [= <-].
  unfold MAX_REASSEMBLED_BYTES in *. split_and!; try lia. intros Hm. rewrite Hm in Em. cbn in Em. lia.
Qed.

Lemma validate_inv v h n u : validate_reassembled_size v h n = Ok u -> reassembled_size_exceeds v h n = false.
Proof. unfold validate_reassembled_size. by destruct (reassembled_size_exceeds v h n). Qed.

Section Checks.
Context (key : FragmentKey) (f : FragmentInfo) (fp header : list Z) (previous : option Z) (protocol end_ : Z).
Context (Ho : 0 <= offset_bytes f) (He : fragment_end f (len fp) = Ok end_)
  (Hh : header_ok (fk_version key) header previous)
  (Hsize : reassembled_size_exceeds (fk_version key) (len header) end_ = false).

Lemma fresh_admissible now timer ek metadata : admissible key f fp header previous end_ (fresh_assembly protocol now timer ek metadata).
Proof.
  destruct (fragment_end_inv _ _ _ (len_nonneg fp) He) as (E1 & E2 & E3 & _). split; cbn; try done.
  destruct (more_fragments f), (offset_bytes f =? 0); naive_solver.
Qed.

Lemma checked_admissible r a : fr_assemblies r !! key = Some a -> overlaps r key (offset_bytes f) end_ = false ->
  conflicts r key protocol f end_ (len header) = false ->
  admissible key f fp header previous end_ a /\ as_protocol a = protocol.
Proof.
  intros E Hov Hc. destruct (fragment_end_inv _ _ _ (len_nonneg fp) He) as (E1 & E2 & E3 & _).
  unfold overlaps in Hov. unfold conflicts in Hc. rewrite E in Hov, Hc.
  destruct (negb (as_protocol a =? protocol) || _) eqn:Ec; [done|]. apply orb_false_iff in Ec as [Ec1 Ec2].
  destruct (negb (more_fragments f) && _) eqn:Ef; [done|]. split; [|lia]. split; try done.
  - intros total Et. rewrite Et in Ec2. lia.
  - intros Hm. rewrite Hm in Ef. cbn in Ef. apply Forall_forall. intros p Hp.
    destruct (Z.le_gt_cases (piece_end p) end_) as [|Hgt]; [done|]. exfalso. apply Z.ltb_lt in Hgt.
    assert (existsb (fun p => end_ <? piece_end p) (as_pieces a) = true); [|congruence].
    apply existsb_exists. exists p. by rewrite <- list_elem_of_In.
  - intros total hl Ht Hl. by rewrite Ht, Hl in Hc.
Qed.

Lemma target_admissible r m a now : overlaps r key (offset_bytes f) end_ = false ->
  conflicts r key protocol f end_ (len header) = false ->
  m ⊆ fr_assemblies r -> target key protocol now m a -> admissible key f fp header previous end_ a.
Proof.
  intros Hov Hc Sub. unfold target. case_bool_decide.
  - intros (timer & ek & ->). apply fresh_admissible.
  - intros Ea. by eapply checked_admissible; [eapply lookup_weaken|..].
Qed.
End Checks.

(** What a call that fails leaves: the state as it was, or without the datagram
    of the fragment, or without any datagram. *)
Definition rejected (key : FragmentKey) (fp : list Z) ls s (e : FragmentError) s' : Prop :=
  inv ls s' /\ (s' = s \/ removed key s s' \/ no_room key fp ls s e s').

Definition payload_of (ip : ParsedIpPacket) : list Z := default (payload ip) (fragment_payload ip).

(** The fragment as [ingest] reads it off the packet. *)
Record arrival (packet : list Z) (ip : ParsedIpPacket) (f : FragmentInfo) (header : list Z) (previous : option Z) (protocol end_ : Z)
    : Prop := {
  av_end : fragment_end f (len (payload_of ip)) = Ok end_;
  av_header : fragment_header packet (version ip) = Ok (header, previous, protocol);
  av_size : validate_reassembled_size (version ip) (len header) end_ = Ok tt
}.

Lemma fragment_end_runs f n : 0 <= n -> runs (fragment_end f n) (fun _ => True).
Proof.
  intros Hn. unfold fragment_end. runs_step; [done|]. runs_step; [done|]. apply runs_bind, runs_ok_or. intros l _.
  apply runs_bind, runs_ok_or. intros e _. by runs_step.
Qed.

Lemma discard_fails ls key s e fp : inv ls s ->
  wp (_ ← discard_assembly key; throw e) s (fun (_ : option (list Z)) _ => False) (rejected key fp ls s).
Proof.
  intros I. wp_step. eapply wp_mono; [by apply (discard_spec b rest Hb ls)| |done]. intros found s' (J & R & _).
  wp_step. split; [done|]. by right; left.
Qed.

Lemma ingest_fragment_spec le packet ip f now ls s : bytes_ok packet -> parse_ip_packet le packet true = Ok ip ->
  fragment ip = Some f -> ready now ls s ->
  wp (ingest_fragment b packet ip f now) s
    (fun out s' => inv ls s' /\ exists header previous protocol end_,
       arrival packet ip f header previous protocol end_ /\
       accepted (fragment_key ip f protocol) f (payload_of ip) header previous protocol end_ now ls s out s')
    (fun e s' => exists protocol, rejected (fragment_key ip f protocol) (payload_of ip) ls s e s').
Proof.
  intros B Hp Hf R. pose proof (rd_inv _ _ _ R) as I. pose proof (len_nonneg (payload_of ip)) as Hlen.
  assert (forall e, exists protocol, rejected (fragment_key ip f protocol) (payload_of ip) ls s e s) as Same.
  { intros e. exists 0. split; [done|by left]. }
  assert (0 <= offset_bytes f /\ len (payload_of ip) <= 65535) as [Ho Hl].
  { pose proof (parse_ip_packet_runs le packet true B) as P. rewrite Hp in P. apply po_fragment in P.
    rewrite Hf in P. unfold payload_of. destruct (fragment_payload ip); [cbn; lia|done]. }
  destruct (fragment_header_ok le packet ip f B Hp Hf) as (header & previous & protocol & Eh & Hh & _).
  unfold ingest_fragment. fold (payload_of ip). wp_step. wp_step. pose proof (fragment_end_runs f (len (payload_of ip)) Hlen) as Re.
  destruct (fragment_end f (len (payload_of ip))) as [end_|e| |] eqn:Ee; [|apply Same|done..].
  wp_step. wp_step. rewrite Eh. wp_step. wp_step.
  destruct (validate_reassembled_size (version ip) (len header) end_) as [[]|e| |] eqn:Ev; [|apply Same| |];
    [|unfold validate_reassembled_size in Ev; by destruct (reassembled_size_exceeds _ _ _)..].
  pose proof (validate_inv _ _ _ _ Ev) as Hs. destruct (fragment_end_inv _ _ _ Hlen Ee) as (E1 & E2 & E3 & _).
  set (key := fragment_key ip f protocol). wp_step. wp_step. wp_step; [|wp_step].
  - wp_step. eapply wp_mono; [by apply (discard_spec b rest Hb ls)| |done]. intros found s' (J & [[] ? ? ?] & _).
    unfold on_reassembler. do 2 wp_step. wp_step. exists protocol. split; [by apply inv_stats|]. right; left.
    split; [by split|done..].
  - eapply wp_mono; [by apply (discard_fails ls)|done|]. intros e s' Hr. by exists protocol.
  - eapply wp_mono; [apply (accept_spec key f (payload_of ip) header previous protocol end_ now ls s R)|..].
    + intros m a Hm Ht. by eapply (target_admissible key f (payload_of ip) header previous protocol end_).
    + unfold u64_max. lia.
    + intros out s' [J A]. split; [done|]. by exists header, previous, protocol, end_.
    + intros e s' N. exists protocol. split; [apply N|by right; right].
Qed.
End Ingest.
