(* ===== verification/ReassemblyTheorems.v ===== *)
(** The reassembler as a whole ([sail-netstack/src/ip/reassembly.rs]): its
    invariant holds after every sequence of calls, no call panics, and no lease
    is lost or given back twice. *)
From S2P Require Import Prelude StateMonad Checksum IpWire Budget Timer TimerRefine TimerInterface Leases ExpiryIndex.
From S2P Require Import Pmtu PmtuTheorems Fragmentation FragmentTheorems Reassembly ReassemblyInv ReassemblyOps ReassemblyIngest.
From stdpp Require Import list sorting gmap.
#[local] Open Scope Z_scope.

Section Calls.
Context {W : Type} `{TimerQueueLaws FragmentKey W} (b : ResourceBudget) (rest : holdings) (Hb : budget_range b).
Abbreviation fstate := (@fstate W).
Abbreviation inv := (frag_inv b rest).
Implicit Types (r : @FragmentReassembler W) (s : fstate) (ls : list BudgetLease).

(** ** Creation and clearing *)
Lemma tick_range timeout : 0 < timeout <= u64_max -> 1 <= fragment_tick timeout <= u64_max.
Proof. intros Ht. destruct (safe_tick_covers timeout Ht) as [Hr _]. change (fragment_tick timeout) with (safe_tick timeout). lia. Qed.

Lemma empty_tables now r : fr_assemblies r = ∅ -> fr_eviction_index r = ∅ -> fr_now_ms r = now ->
  0 <= fr_next_eviction_serial r -> fs_active_datagrams (fr_stats r) = 0 -> tables_ok r.
Proof.
  intros E1 E2 _ Hs Ha. split; rewrite ?E1, ?E2; try done.
  intros ek k. rewrite lookup_empty. setoid_rewrite lookup_empty. naive_solver.
Qed.

Lemma new_spec timeout l : 0 < timeout <= u64_max -> accounts b rest l [] ->
  exists r, reassembler_new timeout = Ok r /\ inv [] (r, l) /\ fr_timeout_ms r = timeout /\ tq_ids (fr_expiry r) = 0 /\
    fr_next_eviction_serial r = 0 /\ fr_assemblies r = ∅.
Proof.
  intros Ht A. unfold reassembler_new. rewrite (proj2 (Z.ltb_lt _ _)) by lia. pose proof (tick_range timeout Ht) as Hk.
  destruct (tq_new_law (fragment_tick timeout) 0 Hk) as (w & -> & K & P & Tk & Cu & Id); [done|].
  eexists. split; [reflexivity|]. split_and!; try done. split; cbn.
  - split; cbn; try done; try lia. rewrite Cu. pose proof (Z.mul_div_le 0 (fragment_tick timeout)). lia.
  - by apply (empty_tables 0).
  - rewrite P. apply timed_empty.
  - by rewrite map_leases_empty.
Qed.

Lemma reassembler_clear_spec s : inv [] s ->
  wp reassembler_clear s (fun _ s' => inv [] s' /\ fr_assemblies s'.1 = ∅ /\ accounts b rest s'.2 [] /\
    tq_ids (fr_expiry s'.1) = 0 /\ fr_next_eviction_serial s'.1 = fr_next_eviction_serial s.1) (fun _ _ => False).
Proof.
  intros [C T Ti A]. unfold wp, reassembler_clear. pose proof (tick_range _ (co_timeout _ C)) as Hk.
  destruct (tq_new_law (fr_expiry_tick_ms s.1) (fr_now_ms s.1)) as (w & -> & K & P & Tk & Cu & Id).
  { by rewrite (co_tick _ C). }
  { pose proof (co_now _ C). unfold is_u64, u64_max in *. lia. }
  assert (accounts b rest (foldr (fun p l => drop_leases (assembly_leases p.2) l) s.2 (map_to_list (fr_assemblies s.1))) []) as A'
    by (by apply map_leases_drop_all).
  split_and!; try done. split; cbn.
  - destruct C. split; cbn; try done. rewrite Cu, Z.mul_comm. apply Z.mul_div_le. rewrite co_tick. lia.
  - eapply empty_tables; [done..|apply T|done].
  - rewrite P. apply timed_empty.
  - by rewrite map_leases_empty.
Qed.

(** ** Calls *)
Inductive frag_call :=
| FIngest (packet : list Z) (now : Z)
| FAdvance (now divisor max_quotes : Z)
| FClear.

Definition frag_do (le : bool) (c : frag_call) : @FM W unit :=
  match c with
  | FIngest packet now => _ ← ingest b le packet now; mret tt
  | FAdvance now divisor max_quotes => _ ← advance_time_under_pressure_with_quotes now divisor max_quotes; mret tt
  | FClear => reassembler_clear
  end.

Definition frag_call_ok (c : frag_call) : Prop :=
  match c with
  | FIngest packet now => bytes_ok packet /\ 0 <= now < u64_max
  | FAdvance now _ _ => 0 <= now < u64_max
  | FClear => True
  end.

(** What [n] calls can have used up. *)
Record spent (n : Z) s : Prop := {
  sp_ids : tq_ids (fr_expiry s.1) <= n;
  sp_serial : fr_next_eviction_serial s.1 <= n;
  sp_size : Z.of_nat (size (fr_assemblies s.1)) <= n
}.

Lemma spent_weaken n n' s : n <= n' -> spent n s -> spent n' s.
Proof. intros Hn []. split; lia. Qed.

Lemma size_sub (m m' : gmap FragmentKey Assembly) : m' ⊆ m -> Z.of_nat (size m') <= Z.of_nat (size m).
Proof. intros Sub%map_subseteq_size. lia. Qed.

Lemma accepted_spent n key f fp header previous protocol end_ now s packet s' : spent n s ->
  accepted b rest key f fp header previous protocol end_ now [] s packet s' -> spent (n + 1) s'.
Proof.
  intros [S1 S2 S3] [_ I1 I2 (m & a & Ev & _ & _ & D)]. pose proof (evictions_size _ _ Ev). split; [lia|lia|].
  unfold delivered in D. destruct (is_complete _); destruct D as [-> _].
  - pose proof (size_sub _ _ (delete_subseteq m key)). lia.
  - rewrite map_size_insert. case_match; unfold id; lia.
Qed.

Lemma removed_spent n key s s' : spent n s -> removed key s s' -> spent n s'.
Proof.
  intros [] [_ ? ? R]. pose proof (size_sub _ _ (delete_subseteq (fr_assemblies s.1) key)) as Hd.
  rewrite <- R in Hd. split; lia.
Qed.

Lemma rejected_spent n key fp s e s' : spent n s -> rejected b rest key fp [] s e s' -> spent n s'.
Proof.
  intros S [_ [->|[R|[_ _ [_ V1 V2 V3] _ _ _]]]]; [done|by eapply removed_spent|].
  pose proof (evictions_size _ _ V3). destruct S. split; lia.
Qed.

Lemma advanced_spent n now ls s s' : spent n s -> advanced_to b rest now ls s s' -> spent n s'.
Proof.
  intros [] A. assert (fr_assemblies s'.1 ⊆ fr_assemblies s.1) as Hs%size_sub.
  { apply map_subseteq_spec. intros k a Ha. by apply (ad_assemblies _ _ _ _ _ _ A) in Ha as [? _]. }
  split; [rewrite (ad_ids _ _ _ _ _ _ A)|rewrite (ad_serial _ _ _ _ _ _ A)|]; lia.
Qed.

Lemma rebuilt_spent n now divisor ls s s' : spent n s -> rebuilt b rest now divisor ls s s' -> spent n s'.
Proof.
  intros [] R. split; [pose proof (rb_ids _ _ _ _ _ _ _ R); lia|by rewrite (rb_serial _ _ _ _ _ _ _ R)|].
  assert (dom (fr_assemblies s'.1) ⊆ dom (fr_assemblies s.1)) as Hd.
  { intros k [a' Ha]%elem_of_dom. pose proof (rb_assemblies _ _ _ _ _ _ _ R k) as M. rewrite Ha in M.
    destruct M as (a & Ea & _). by apply elem_of_dom_2 in Ea. }
  apply subseteq_size in Hd. rewrite !size_dom in Hd. lia.
Qed.

Definition call_done (n : Z) s : Prop := inv [] s /\ spent n s.

Lemma ingest_spec le packet now n s : inv [] s -> spent n s -> n < u64_max -> bytes_ok packet -> 0 <= now < u64_max ->
  wp (ingest b le packet now) s (fun _ => call_done (n + 1)) (fun _ => call_done (n + 1)).
Proof.
  intros I S Hn B Hnow. unfold ingest. wp_step.
  eapply wp_mono; [by apply (advance_current_spec b rest Hb now [])| |intros e s' (_ & _ & ->); split; [done|by eapply spent_weaken; [|done]; lia]].
  intros k s1 [Hle A]. pose proof (advanced_spent n now [] s s1 S A) as S1.
  assert (call_done (n + 1) s1) as D1 by (split; [apply A|by eapply spent_weaken; [|done]; lia]).
  wp_step. wp_step. pose proof (parse_ip_packet_runs le packet true B) as P. unfold wire_outcome.
  destruct (parse_ip_packet le packet true) as [ip|e| |] eqn:Ep; [|done..].
  destruct (fragment ip) as [f|] eqn:Ef; [|by wp_step]. wp_step; [by wp_step|].
  eapply wp_mono; [apply (ingest_fragment_spec b rest Hb le packet ip f now [] s1 B Ep Ef)|..].
  - destruct A, S1. split; try done; try lia. by rewrite ad_current, ad_tick.
  - intros out s' (J & h & q & proto & e & _ & Ac). split; [done|]. by eapply accepted_spent.
  - intros e s' (proto & R). split; [apply R|]. eapply (spent_weaken n); [lia|]. by eapply rejected_spent.
Qed.

Lemma frag_do_spec le c n s : inv [] s -> spent n s -> 0 <= n < u64_max -> frag_call_ok c ->
  wp (frag_do le c) s (fun _ => call_done (n + 1)) (fun _ => call_done (n + 1)).
Proof.
  intros I S Hn Hc. destruct c as [packet now|now divisor max_quotes|]; cbn [frag_do frag_call_ok] in *.
  - wp_step. eapply wp_mono; [apply (ingest_spec le packet now n); [done|done|lia|apply Hc..]|done|done].
  - wp_step. destruct S as [S1 S2 S3].
    eapply wp_mono; [apply (advance_under_pressure_spec b rest Hb now divisor max_quotes []); [done|done|lia]|..].
    + intros x s' [_ D]. wp_step. case_decide; (split; [apply D|eapply (spent_weaken n); [lia|]]);
        [by eapply advanced_spent|by eapply rebuilt_spent].
    + intros e s' (_ & _ & ->). split; [done|]. split; lia.
  - eapply wp_mono; [by apply reassembler_clear_spec| |done]. intros _ s' (J & E & _ & Hi & Hs). split; [done|].
    destruct S. split; [lia|lia|]. rewrite E, map_size_empty. lia.
Qed.

Inductive frag_reaches (le : bool) : Z -> fstate -> Prop :=
| freach_new timeout r l : 0 < timeout <= u64_max -> accounts b rest l [] -> reassembler_new timeout = Ok r ->
    frag_reaches le 0 (r, l)
| freach_call n s c : frag_reaches le n s -> frag_call_ok c -> frag_reaches le (n + 1) (frag_do le c s).1.

Lemma frag_reaches_done le n s : frag_reaches le n s -> n < u64_max -> 0 <= n /\ call_done n s.
Proof.
  induction 1 as [timeout r l Ht A E|n s c R IH Hc]; intros Hn.
  - destruct (new_spec timeout l Ht A) as (r' & E' & I & _ & Hi & Hs & Hm). rewrite E in E'. injection E' as <-.
    split; [done|]. split; [done|]. split; cbn; rewrite ?Hi, ?Hs, ?Hm, ?map_size_empty; lia.
  - destruct IH as [H0' [I S]]; [lia|]. split; [lia|]. pose proof (frag_do_spec le c n s I S ltac:(lia) Hc) as D. unfold wp in D.
    by destruct (frag_do le c s) as [s' [x|e| |]].
Qed.

(** C25: After any sequence of calls of the reassembler, fewer than 2^64 of them,
    every datagram has exactly one timer, at its age limit rounded up to the
    tick, and exactly one eviction key; its pieces are disjoint, in order and
    within 64 KiB, no piece lies past the end the final fragment has set, and
    the packet they announce fits its length field; the ledger is what the rest
    of the process holds plus the leases of the pieces and of the datagrams.  The
    next call does not panic, and clearing gives the ledger back exactly. *)
Theorem reassembler_invariant (le : bool) (n : Z) (s : fstate) :
  frag_reaches le n s -> n < u64_max ->
  frag_inv b rest [] s /\
  (forall c, frag_call_ok c -> (frag_do le c s).2 <> Panic /\ (frag_do le c s).2 <> OutOfFuel) /\
  exists s', reassembler_clear s = (s', Ok tt) /\ fr_assemblies s'.1 = ∅ /\
    l_total s'.2 = h_total rest /\ forall k, l_used s'.2 k = h_used rest k.
Proof.
  intros R Hn. destruct (frag_reaches_done le n s R Hn) as [H0' [I S]]. split; [done|]. split.
  - intros c Hc. pose proof (frag_do_spec le c n s I S ltac:(lia) Hc) as D. unfold wp in D.
    by destruct (frag_do le c s) as [s' [x|e| |]].
  - pose proof (reassembler_clear_spec s I) as C. unfold wp in C. destruct (reassembler_clear s) as [s' [[]|e| |]]; [|done..].
    destruct C as (_ & E & [_ Ht Hu _ _ _] & _). exists s'. split_and!; [done|done| |].
    + rewrite Ht, zsum_nil. lia.
    + intros k. rewrite Hu, zsum_nil. lia.
Qed.
End Calls.

(** ** The theorem on the timer wheel *)
Definition sample_reassembler : @FragmentReassembler (TimerWheel FragmentKey) :=
  match reassembler_new 30000 with
  | Ok r => r
  | _ => mkReassembler 0 0 1 1 (mkWheel 1 0 0 ∅ ∅ ∅) ∅ ∅ 0 (mkFragmentStats 0 0 0 0 0 0)
  end.

Lemma sample_reassembler_inv : reassembler_new 30000 = Ok sample_reassembler /\
  frag_inv (budget Mobile) nothing_held [] (sample_reassembler, ledger_new) /\
  fr_next_eviction_serial sample_reassembler = 0 /\ tq_ids (fr_expiry sample_reassembler) = 0 /\
  fr_assemblies sample_reassembler = ∅.
Proof.
  destruct (new_spec (W := TimerWheel FragmentKey) (budget Mobile) nothing_held 30000 ledger_new)
    as (r & E & I & _ & Hi & Hs & Hm); [unfold u64_max; lia|apply nothing_accounted|].
  assert (sample_reassembler = r) as -> by (unfold sample_reassembler; by rewrite E). done.
Qed.

(** The first 8 bytes of a UDP datagram from 192.0.2.1, more to come. *)
Definition sample_fragment : list Z :=
  [69; 0; 0; 28; 0; 7; 32; 0; 64; 17; 110; 142; 192; 0; 2; 1; 198; 51; 100; 7; 0; 53; 0; 53; 0; 40; 0; 0].

Lemma reassembler_invariant_witness : exists s', reassembler_clear
    (frag_do (budget Mobile) true (FIngest sample_fragment 1000) (sample_reassembler, ledger_new)).1 = (s', Ok tt) /\
  fr_assemblies s'.1 = ∅ /\ l_total s'.2 = 0 /\ forall k, l_used s'.2 k = 0.
Proof.
  apply (reassembler_invariant (W := TimerWheel FragmentKey) (budget Mobile) nothing_held mobile_range true (0 + 1));
    [|unfold u64_max; lia].
  apply freach_call.
  - eapply (freach_new _ _ true 30000); [unfold u64_max; lia|apply nothing_accounted|apply sample_reassembler_inv].
  - split; [|unfold u64_max; lia]. repeat constructor; discriminate.
Defined.
