(* ===== verification/FragmentTrain.v ===== *)
(** The fragments of one datagram on their way through the reassembler
    ([sail-netstack/src/ip/reassembly.rs], [FragmentReassembler::ingest]): in
    whatever order they come, all but the last to come are kept, and the last
    gives the datagram. *)
From S2P Require Import Prelude StateMonad Checksum IpWire Budget Timer TimerRefine TimerInterface Leases ExpiryIndex.
From S2P Require Import Pmtu Fragmentation FragmentTheorems Reassembly ReassemblyInv ReassemblyOps ReassemblyIngest.
From stdpp Require Import list sorting gmap.
#[local] Open Scope Z_scope.

(** ** The pieces *)
Definition piece_finish (p : Z * list Z) : Z := p.1 + len p.2.

Lemma tiles_total o total ps : tiles o total ps -> total = o + zsum (fun p => len p.2) ps.
Proof.
  revert o. induction ps as [|[q c] ps IH]; intros o T; cbn [tiles] in T; [rewrite zsum_nil; lia|].
  destruct T as (_ & _ & _ & T). apply IH in T. rewrite zsum_cons. cbn. lia.
Qed.

Lemma tiles_from o total ps p : tiles o total ps -> p ∈ ps -> o <= p.1 /\ 0 < len p.2 /\ piece_finish p <= total.
Proof.
  revert o. induction ps as [|[q c] ps IH]; intros o T Hin; [by apply not_elem_of_nil in Hin|].
  cbn [tiles] in T. destruct T as (-> & Hc & _ & T). unfold piece_finish in *. pose proof (tiles_le _ _ _ T).
  apply elem_of_cons in Hin as [->|Hin]; [cbn; lia|]. apply (IH (o + len c)) in Hin; [lia|done].
Qed.

Lemma tiles_NoDup o total ps : tiles o total ps -> NoDup ps.
Proof.
  revert o. induction ps as [|[q c] ps IH]; intros o T; [constructor|]. cbn [tiles] in T. destruct T as (-> & Hc & _ & T).
  constructor; [|by eapply IH]. intros Hin. apply (tiles_from _ _ _ _ T) in Hin. cbn in Hin. lia.
Qed.

(** Two pieces do not overlap. *)
Lemma tiles_disjoint o total ps p q : tiles o total ps -> p ∈ ps -> q ∈ ps -> p <> q ->
  piece_finish p <= q.1 \/ piece_finish q <= p.1.
Proof.
  revert o. induction ps as [|[x c] ps IH]; intros o T Hp Hq Hne; [by apply not_elem_of_nil in Hp|].
  cbn [tiles] in T. destruct T as (-> & Hc & _ & T). unfold piece_finish in *.
  apply elem_of_cons in Hp as [->|Hp], Hq as [->|Hq]; [done|..].
  - apply (tiles_from _ _ _ _ T) in Hq. cbn in *. lia.
  - apply (tiles_from _ _ _ _ T) in Hp. cbn in *. lia.
  - by eapply IH.
Qed.

(** The one at the start, and the one at the end. *)
Lemma tiles_first o total ps : tiles o total ps -> o < total -> exists c, (o, c) ∈ ps.
Proof. destruct ps as [|[q c] ps]; cbn [tiles]; [lia|]. intros (-> & _) _. exists c. left. Qed.

Lemma tiles_last o total ps : tiles o total ps -> o < total -> exists p, p ∈ ps /\ piece_finish p = total.
Proof.
  revert o. induction ps as [|[q c] ps IH]; intros o T Ho; cbn [tiles] in T; [lia|].
  destruct T as (-> & Hc & _ & T). destruct (Z.eq_dec (o + len c) total) as [E|].
  - exists (o, c). split; [left|done].
  - pose proof (tiles_le _ _ _ T). destruct (IH (o + len c) T) as (p & Hp & E); [lia|]. exists p. split; [by right|done].
Qed.

Lemma sub_NoDup {A} (l k : list A) : l ⊆+ k -> NoDup k -> NoDup l.
Proof. intros [x P]%submseteq_Permutation N. rewrite P in N. by apply NoDup_app in N as [N _]. Qed.

(** ** A datagram with some of its pieces *)
Definition stored (p : Z * list Z) : Z * Piece :=
  (p.1, mkPiece p.2 (mkLease Fragments 1) (mkLease FragmentBytes (len p.2)) (mkLease MetadataBytes PIECE_METADATA_BYTES)).

Section Train.
Context (key : FragmentKey) (protocol total : Z) (header : list Z) (previous : option Z) (pieces : list (Z * list Z)).
Context (Ht : tiles 0 total pieces) (H65 : 0 < total <= 65535)
  (Hsize : reassembled_size_exceeds (fk_version key) (len header) total = false).

Definition has_first (T : list (Z * list Z)) : bool := existsb (fun p => p.1 =? 0) T.
Definition has_last (T : list (Z * list Z)) : bool := existsb (fun p => piece_finish p =? total) T.

Record progress (T : list (Z * list Z)) (a : Assembly) : Prop := {
  pr_protocol : as_protocol a = protocol;
  pr_pieces : Permutation (as_pieces a) (map stored T);
  pr_header : as_header a = if has_first T then Some header else None;
  pr_previous : has_first T = true -> as_previous_next_header a = previous;
  pr_total : as_total_payload_len a = if has_last T then Some total else None
}.

Lemma fresh_progress now timer ek metadata : progress [] (fresh_assembly protocol now timer ek metadata).
Proof. by split. Qed.

Lemma stored_end p : p ∈ pieces -> piece_end (stored p) = piece_finish p.
Proof.
  intros Hp. apply (tiles_from _ _ _ _ Ht) in Hp as (? & ? & ?). unfold piece_finish in *. apply piece_end_exact; cbn; lia.
Qed.

Lemma progress_piece T a q : progress T a -> T ⊆+ pieces -> q ∈ as_pieces a ->
  exists p, p ∈ T /\ p ∈ pieces /\ q = stored p /\ piece_end q = piece_finish p.
Proof.
  intros P Sub Hq. rewrite (pr_pieces _ _ P) in Hq. apply list_elem_of_fmap in Hq as (p & -> & Hp).
  assert (p ∈ pieces) as Hin by (by eapply elem_of_submseteq). exists p. by rewrite stored_end.
Qed.

Lemma existsb_false {A} (f : A -> bool) l : (forall x, x ∈ l -> f x = false) -> existsb f l = false.
Proof.
  induction l as [|x l IH]; intros Hf; [done|]. cbn. rewrite Hf by left. apply IH. intros y Hy. apply Hf. by right.
Qed.

(** The next piece overlaps none of them. *)
Lemma progress_free T a p : progress T a -> p :: T ⊆+ pieces ->
  existsb (fun q => (p.1 <? piece_end q) && (q.1 <? piece_finish p)) (as_pieces a) = false.
Proof.
  intros P Sub. apply existsb_false. intros q Hq. destruct (progress_piece T a q P) as (x & Hx & Hin & -> & Ee); [|done|].
  { etrans; [apply submseteq_cons|exact Sub]. done. }
  assert (NoDup (p :: T)) as [Hnot _]%NoDup_cons by (eapply sub_NoDup; [exact Sub|by eapply tiles_NoDup]).
  assert (p ∈ pieces) as Hp by (eapply elem_of_submseteq; [left|exact Sub]).
  assert (p <> x) as Hne by (by intros ->). rewrite Ee. cbn [stored fst].
  destruct (tiles_disjoint _ _ _ _ _ Ht Hp Hin Hne); apply andb_false_iff; [right|left]; lia.
Qed.

(** The fragment that bears a piece, and the checks of [ingest] on it. *)
Definition info_of (p : Z * list Z) : FragmentInfo :=
  mkFragmentInfo (fk_identification key) p.1 (piece_finish p <? total).

Section Step.
Context (T : list (Z * list Z)) (p : Z * list Z) (h : list Z) (q : option Z).
Context (Sub : p :: T ⊆+ pieces) (Hfirst : p.1 = 0 -> h = header /\ q = previous).

Lemma next_piece : 0 <= p.1 /\ 0 < len p.2 /\ piece_finish p <= total.
Proof. apply (tiles_from _ _ _ _ Ht). eapply elem_of_submseteq; [left|exact Sub]. Qed.

Lemma done_sub : T ⊆+ pieces.
Proof. etrans; [apply submseteq_cons|exact Sub]. done. Qed.

Lemma progress_no_overlap {W} `{TimerQueue FragmentKey W} (r : @FragmentReassembler W) a :
  fr_assemblies r !! key = Some a -> progress T a -> overlaps r key p.1 (piece_finish p) = false.
Proof. intros E P. unfold overlaps. rewrite E. by eapply progress_free. Qed.

Lemma progress_no_conflict {W} `{TimerQueue FragmentKey W} (r : @FragmentReassembler W) a :
  fr_assemblies r !! key = Some a -> progress T a ->
  conflicts r key protocol (info_of p) (piece_finish p) (len h) = false.
Proof.
  intros E P. destruct next_piece as (N1 & N2 & N3). unfold conflicts. rewrite E, (pr_protocol _ _ P), (pr_total _ _ P), Z.eqb_refl.
  cbn [negb orb info_of more_fragments offset_bytes]. replace (match _ with Some _ => _ | None => _ end) with false.
  2: { destruct (has_last T); [|done]. symmetry. apply Z.ltb_ge. lia. }
  replace (negb _ && _) with false.
  2: { symmetry. apply andb_false_iff. destruct (Z.ltb_spec (piece_finish p) total) as [|Hge]; [by left|right].
       apply existsb_false. intros x Hx. destruct (progress_piece T a x P done_sub Hx) as (y & _ & Hin & _ & ->).
       apply (tiles_from _ _ _ _ Ht) in Hin. lia. }
  rewrite (pr_header _ _ P). destruct (Z.eqb_spec p.1 0) as [Hz|].
  - destruct (Hfirst Hz) as [-> _]. destruct (Z.ltb_spec (piece_finish p) total); [by destruct (has_last T)|].
    by replace (piece_finish p) with total by lia.
  - destruct (has_first T); cbn; [|by destruct (if _ <? _ then _ else _)].
    destruct (Z.ltb_spec (piece_finish p) total); [by destruct (has_last T)|]. by replace (piece_finish p) with total by lia.
Qed.

Lemma progress_step a n needs : progress T a -> assembly_ok key a -> n = len p.2 ->
  admissible key (info_of p) p.2 h q (piece_finish p) a ->
  progress (p :: T) (extended (info_of p) p.2 h q (piece_finish p) (credit_of n needs) a).
Proof.
  intros P O -> A. destruct (extended_pieces key (info_of p) p.2 h q (piece_finish p) (credit_of (len p.2) needs) a O A) as (_ & _ & Pp).
  cbn zeta in Pp. destruct next_piece as (N1 & N2 & N3). destruct P as [P1 P2 P3 P4 P5].
  split; [|rewrite Pp; cbn; by rewrite P2|..]; unfold extended; cbn [info_of offset_bytes more_fragments];
    cbn [has_first has_last existsb]; fold (has_first T) (has_last T).
  - by destruct (p.1 =? 0), (piece_finish p <? total).
  - destruct (Z.eqb_spec p.1 0) as [Hz|]; [destruct (Hfirst Hz) as [-> ->]|]; by destruct (piece_finish p <? total).
  - destruct (Z.eqb_spec p.1 0) as [Hz|]; [destruct (Hfirst Hz) as [-> ->]|]; cbn; destruct (piece_finish p <? total); cbn; auto.
  - destruct (Z.ltb_spec (piece_finish p) total); [rewrite (proj2 (Z.eqb_neq (piece_finish p) total)) by lia|rewrite (proj2 (Z.eqb_eq (piece_finish p) total)) by lia];
      destruct (p.1 =? 0); cbn; try done. all: by f_equal; lia.
Qed.
End Step.

(** ** Completion *)
Lemma pieces_sorted lo ps : pieces_ok lo ps -> StronglySorted (fun x y => x.1 < y.1) ps /\ Forall (fun x => lo <= x.1) ps.
Proof.
  revert lo. induction ps as [|[o c] ps IH]; intros lo Hp; [split; constructor|]. cbn [pieces_ok] in Hp.
  destruct Hp as (L1 & L2 & _ & Hp). destruct (IH _ Hp) as [S F]. split; constructor; try done.
  - eapply Forall_impl; [exact F|]. intros x Hx. cbn in *. lia.
  - eapply Forall_impl; [exact F|]. intros x Hx. cbn in *. lia.
Qed.

Lemma pieces_unique ps ps' : pieces_ok 0 ps -> pieces_ok 0 ps' -> Permutation ps ps' -> ps = ps'.
Proof.
  intros [S1 _]%pieces_sorted [S2 _]%pieces_sorted P.
  eapply (StronglySorted_unique_strong (fun x y => x.1 < y.1)); [|done..]. intros. lia.
Qed.

Lemma stored_ok o ps : tiles o total ps -> 0 <= o -> pieces_ok o (map stored ps).
Proof.
  revert o. induction ps as [|[q c] ps IH]; intros o T Ho; [done|]. cbn [tiles map stored pieces_ok fst snd pc_bytes] in *.
  destruct T as (-> & Hc & _ & T). pose proof (tiles_le _ _ _ T). split_and!; try lia. apply IH; [done|lia].
Qed.

Lemma stored_end_all o ps : tiles o total ps -> 0 <= o -> pieces_end o (map stored ps) = Some total.
Proof.
  revert o. induction ps as [|[q c] ps IH]; intros o T Ho; cbn [tiles map stored pieces_end fst snd pc_bytes] in *; [by subst|].
  destruct T as (-> & Hc & _ & T). pose proof (tiles_le _ _ _ T). rewrite Z.eqb_refl.
  assert (sat_add32 o (len32 c) = o + len c) as -> by (apply (piece_end_exact o (stored (o, c)).2); cbn; lia).
  apply IH; [done|lia].
Qed.

Lemma existsb_true {A} (f : A -> bool) l x : x ∈ l -> f x = true -> existsb f l = true.
Proof. intros Hx Hf. apply existsb_exists. exists x. by rewrite <- list_elem_of_In. Qed.

(** With all the pieces the datagram is complete. *)
Lemma progress_complete T a : progress T a -> assembly_ok key a -> Permutation T pieces ->
  is_complete a = true /\ as_pieces a = map stored pieces /\ as_header a = Some header /\ as_previous_next_header a = previous.
Proof.
  intros P O Pt.
  assert (has_first T = true) as F.
  { destruct (tiles_first _ _ _ Ht) as [c Hc]; [lia|]. apply (existsb_true _ _ (0, c)); [by rewrite Pt|done]. }
  assert (has_last T = true) as L.
  { destruct (tiles_last _ _ _ Ht) as (p & Hp & E); [lia|]. apply (existsb_true _ _ p); [by rewrite Pt|lia]. }
  assert (as_pieces a = map stored pieces) as Ep.
  { apply pieces_unique; [apply O|by apply stored_ok|]. rewrite (pr_pieces _ _ P). by apply Permutation_map. }
  destruct P as [_ _ P3 P4 P5]. rewrite F in P3. rewrite L in P5. split_and!; [|done|done|by apply P4].
  unfold is_complete. rewrite P3, P5, Ep, (stored_end_all 0 pieces Ht) by lia. apply Z.eqb_refl.
Qed.

Lemma len_concat_map {A} (f : A -> list Z) l : len (concat (map f l)) = zsum (fun x => len (f x)) l.
Proof. induction l as [|x l IH]; [done|]. cbn [map concat]. by rewrite len_app, IH, zsum_cons. Qed.

Lemma stored_bytes ps : zsum (fun p => len (pc_bytes p.2)) (map stored ps) = zsum (fun p => len p.2) ps.
Proof. induction ps as [|p ps IH]; [done|]. cbn [map]. by rewrite !zsum_cons, IH. Qed.

(** With a piece missing it is not. *)
Lemma progress_incomplete T a : progress T a -> assembly_ok key a -> T ⊆+ pieces -> (length T < length pieces)%nat ->
  is_complete a = false.
Proof.
  intros P O Sub Hl. destruct (is_complete a) eqn:Hc; [|done]. exfalso. unfold is_complete in Hc.
  rewrite (pr_total _ _ P) in Hc. destruct (has_last T); [|done]. destruct (as_header a); [|done].
  destruct (pieces_end 0 (as_pieces a)) as [e|] eqn:Ee; [|done]. apply Z.eqb_eq in Hc as ->.
  apply pieces_end_spec in Ee as [Ee _]; [|apply O|lia].
  assert (len (concat (map (fun p => pc_bytes p.2) (as_pieces a))) = zsum (fun p => len p.2) T) as El.
  { by rewrite len_concat_map, (zsum_perm _ _ _ (pr_pieces _ _ P)), stored_bytes. }
  apply submseteq_Permutation in Sub as [more Pm]. pose proof (tiles_total _ _ _ Ht) as Tt.
  rewrite (zsum_perm _ _ _ Pm) in Tt. rewrite El in Ee.
  destruct more as [|x more]; [rewrite app_nil_r in Pm; apply Permutation_length in Pm; lia|].
  assert (0 < zsum (fun p => len p.2) (x :: more)); [|rewrite zsum_app in Tt; lia].
  rewrite zsum_cons. assert (x ∈ pieces) as Hx by (rewrite Pm; set_solver). apply (tiles_from _ _ _ _ Ht) in Hx.
  assert (0 <= zsum (fun p => len p.2) more); [|lia]. clear. induction more as [|y more IH]; [done|]. rewrite zsum_cons.
  pose proof (len_nonneg y.2). lia.
Qed.

(** The packet of the complete datagram. *)
Definition whole : Assembly :=
  mkAssembly (Some header) previous protocol (map stored pieces) (Some total) 0 0 (0, 0) (mkLease MetadataBytes 0).

Lemma rebuild_whole T a v : progress T a -> as_pieces a = map stored pieces -> as_header a = Some header ->
  as_previous_next_header a = previous -> rebuild a v = rebuild whole v.
Proof. intros P E1 E2 E3. unfold rebuild. by rewrite E1, E2, E3, (pr_protocol _ _ P). Qed.

Lemma tiles_eight o ps p : tiles o total ps -> p ∈ ps -> piece_finish p < total -> (8 | len p.2).
Proof.
  revert o. induction ps as [|[x c] ps IH]; intros o T Hp Hlt; [by apply not_elem_of_nil in Hp|].
  cbn [tiles] in T. destruct T as (-> & _ & D & T). unfold piece_finish in *.
  apply elem_of_cons in Hp as [->|Hp]; [by apply D|by eapply IH].
Qed.

(** ** Ingesting *)
Section Ingesting.
Context {W : Type} `{TimerQueueLaws FragmentKey W} (b : ResourceBudget) (rest : holdings) (Hb : budget_range b) (le : bool).
Abbreviation fstate := (@fstate W).
Abbreviation inv := (frag_inv b rest).
Implicit Types (s : fstate) (T : list (Z * list Z)).

(** A packet that every check finds to be the fragment with a piece. *)
Record bears (p : Z * list Z) (packet : list Z) (ip : ParsedIpPacket) (h : list Z) (q : option Z) : Prop := {
  ca_bytes : bytes_ok packet;
  ca_parse : parse_ip_packet le packet true = Ok ip;
  ca_version : version ip = fk_version key;
  ca_fragment : fragment ip = Some (info_of p);
  ca_proper : is_atomic (info_of p) = false;
  ca_payload : payload_of ip = p.2;
  ca_key : fragment_key ip (info_of p) protocol = key;
  ca_header : fragment_header packet (version ip) = Ok (h, q, protocol);
  ca_first : p.1 = 0 -> h = header /\ q = previous;
  ca_size : reassembled_size_exceeds (fk_version key) (len h) (piece_finish p) = false
}.

(** What has come so far, no earlier than [t0]. *)
Definition stage T (t0 : Z) s : Prop :=
  match fr_assemblies s.1 !! key with
  | None => T = []
  | Some a => progress T a /\ t0 <= as_created_at_ms a
  end.

Lemma carried_end p : p ∈ pieces -> fragment_end (info_of p) (len p.2) = Ok (piece_finish p).
Proof.
  intros Hp. pose proof (tiles_eight 0 pieces p Ht Hp) as D. apply (tiles_from _ _ _ _ Ht) in Hp as (P1 & P2 & P3).
  unfold piece_finish in *. unfold fragment_end, try_u32. rewrite (proj2 (Z.eqb_neq _ 0)) by lia.
  replace (more_fragments (info_of p) && _) with false.
  2: { symmetry. apply andb_false_iff. cbn. unfold piece_finish. destruct (Z.ltb_spec (p.1 + len p.2) total) as [Hlt|]; [right|by left].
       destruct (D Hlt) as [k ->]. by rewrite Z.mod_mul. }
  cbn [info_of offset_bytes]. rewrite !(proj2 (Z.leb_le _ u32_max)) by (unfold u32_max; lia). cbn [ok_or mbind outcome_bind].
  rewrite (proj2 (Z.leb_le _ u32_max)) by (unfold u32_max; lia). cbn [ok_or mbind outcome_bind].
  by rewrite (proj2 (Z.ltb_ge _ _)) by (unfold MAX_REASSEMBLED_BYTES; lia).
Qed.

Lemma stage_checks T p h q s t0 : stage T t0 s -> p :: T ⊆+ pieces -> (p.1 = 0 -> h = header /\ q = previous) ->
  overlaps s.1 key p.1 (piece_finish p) = false /\
  conflicts s.1 key protocol (info_of p) (piece_finish p) (len h) = false.
Proof.
  unfold stage. intros St Sub Hf. destruct (fr_assemblies s.1 !! key) as [a|] eqn:E.
  - destruct St as [P _]. split; [by eapply progress_no_overlap|by eapply progress_no_conflict].
  - unfold overlaps, conflicts. by rewrite E.
Qed.

(** The fragment passes the checks. *)
Lemma ingest_fragment_accepts T p packet ip h q now t0 s Q X : stage T t0 s -> p :: T ⊆+ pieces -> bears p packet ip h q ->
  wp (accept_fragment b key (info_of p) p.2 h q protocol (piece_finish p) now) s Q X ->
  wp (ingest_fragment b packet ip (info_of p) now) s Q X.
Proof.
  intros St Sub C Hwp. assert (p ∈ pieces) as Hp by (eapply elem_of_submseteq; [left|exact Sub]).
  destruct (stage_checks T p h q s t0 St Sub (ca_first _ _ _ _ _ C)) as [O1 O2].
  unfold ingest_fragment. fold (payload_of ip). rewrite (ca_payload _ _ _ _ _ C).
  do 2 wp_step. rewrite (carried_end p Hp). do 2 wp_step. rewrite (ca_header _ _ _ _ _ C). do 2 wp_step.
  unfold validate_reassembled_size. rewrite (ca_version _ _ _ _ _ C), (ca_size _ _ _ _ _ C). cbn [mret outcome_ret].
  do 2 wp_step. rewrite (ca_key _ _ _ _ _ C). cbn [info_of offset_bytes]. by rewrite O1, O2.
Qed.

(** The clock moves on, within the timeout: the datagram stays, others may go. *)
Lemma advanced_stage T t0 now s s' : stage T t0 s -> inv [] s -> advanced_to b rest now [] s s' ->
  now < u64_max -> now < t0 + timeout_of s.1 ->
  stage T t0 s' /\ missing key s' = missing key s /\ fr_assemblies s'.1 ⊆ fr_assemblies s.1.
Proof.
  intros St I A Hn Hw. pose proof (ad_assemblies _ _ _ _ _ _ A) as Ha.
  assert (fr_assemblies s'.1 !! key = fr_assemblies s.1 !! key) as E.
  { unfold stage in St. destruct (fr_assemblies s.1 !! key) as [a|] eqn:E.
    - apply Ha. split; [done|]. apply Z.ltb_lt, alive_until.
      + pose proof (tq_range _ (co_queue _ (fi_clock _ _ _ _ I))) as [R _]. rewrite (co_queue_tick _ (fi_clock _ _ _ _ I)) in R. lia.
      + destruct St as [_ St]. unfold deadline_of, sat_add. lia.
    - destruct (fr_assemblies s'.1 !! key) as [a|] eqn:E'; [|done]. apply Ha in E' as [E' _]. congruence. }
  split_and!; [unfold stage; by rewrite E|unfold missing; by rewrite E|].
  apply map_subseteq_spec. intros k a Hk. by apply Ha in Hk as [? _].
Qed.

Definition cost (p : Z * list Z) : list BudgetLease := credit_leases (credit_of (len p.2) true).

(** The state after a fragment: the datagram delivered, or one piece further. *)
Record stepped (T : list (Z * list Z)) (t0 now : Z) (extra : list BudgetLease) s (out : option (list Z)) s' : Prop := {
  st_inv : inv [] s';
  st_now : fr_now_ms s'.1 = now;
  st_timeout : timeout_of s'.1 = timeout_of s.1;
  st_ids : tq_ids (fr_expiry s'.1) <= tq_ids (fr_expiry s.1) + 1;
  st_serial : fr_next_eviction_serial s'.1 <= fr_next_eviction_serial s.1 + 1;
  st_out : if decide (Permutation T pieces)
           then (exists packet, rebuild whole (fk_version key) = Ok packet /\ out = Some packet) /\ (fr_assemblies s'.1 !! key = None)
           else out = None /\ stage T t0 s' /\ missing key s' = false /\
             affords b rest (extra ++ map_leases assembly_leases (fr_assemblies s'.1))
}.

(** The leases of the datagram grow by what the fragment needed. *)
Lemma grown_leases f fp h q end_ now m a : target key protocol now m a -> assembly_ok key a ->
  admissible key f fp h q end_ a ->
  Permutation (map_leases assembly_leases (<[key := grown key f fp h q end_ m a]> m))
    (needed (len fp) (bool_decide (m !! key = None)) ++ map_leases assembly_leases m).
Proof.
  intros Tg O A. unfold target, grown in *. set (c := credit_of _ _).
  pose proof (extended_leases key f fp h q end_ c a O A) as L.
  destruct (m !! key) as [x|] eqn:E.
  - rewrite bool_decide_false in * by done. injection Tg as ->.
    rewrite (map_leases_replace assembly_leases _ _ _ _ E), L, (map_leases_delete assembly_leases _ _ _ E). by rewrite !(assoc_L (++)).
  - rewrite bool_decide_true in * by done. rewrite (map_leases_insert assembly_leases _ _ _ E), L. destruct Tg as (timer & ek & ->). cbn.
    solve_Permutation.
Qed.

Lemma delivered_stage T p h q now t0 extra s a packet m' :
  target key protocol now (fr_assemblies s.1) a -> p :: T ⊆+ pieces -> (p.1 = 0 -> h = header /\ q = previous) -> progress T a -> assembly_ok key a ->
  admissible key (info_of p) p.2 h q (piece_finish p) a -> t0 <= as_created_at_ms a ->
  let m := fr_assemblies s.1 in
  let a' := grown key (info_of p) p.2 h q (piece_finish p) m a in
  delivered key m a' packet m' ->
  affords b rest (needed (len p.2) (missing key s) ++ extra ++ map_leases assembly_leases m) ->
  if decide (Permutation (p :: T) pieces)
  then (exists x, rebuild whole (fk_version key) = Ok x /\ packet = Some x) /\ (m' !! key = None)
  else packet = None /\ m' = <[key := a']> m /\ progress (p :: T) a' /\ t0 <= as_created_at_ms a' /\
    affords b rest (extra ++ map_leases assembly_leases m').
Proof.
  intros Tg Sub Hf P O A Hc m a' D Af. pose proof (grown_leases _ _ _ _ _ _ _ _ Tg O A) as Pm. unfold a', grown in *. set (c := credit_of (len p.2) _) in *.
  pose proof (extended_ok _ _ _ _ _ _ c a O A) as O'.
  pose proof (progress_step T p h q Sub Hf a (len p.2) (bool_decide (m !! key = None)) P O eq_refl A) as P'. fold c in P'.
  set (g := extended (info_of p) p.2 h q (piece_finish p) c a) in *. unfold delivered in D. case_decide as Hd.
  - destruct (progress_complete _ _ P' O' Hd) as (G1 & G2 & G3 & G4). rewrite G1 in D. destruct D as (-> & x & -> & Ex).
    rewrite lookup_delete_eq. split; [|done]. exists x. by rewrite <- (rebuild_whole _ g (fk_version key) P' G2 G3 G4).
  - rewrite (progress_incomplete _ g P' O' Sub) in D.
    2: { destruct (Nat.lt_ge_cases (length (p :: T)) (length pieces)) as [|Hge]; [done|]. destruct Hd.
         by apply submseteq_length_Permutation. }
    destruct D as [-> ->]. split_and!; [done|done|done| |].
    + destruct (extended_frame (info_of p) p.2 h q (piece_finish p) c a) as (F & _). unfold g. lia.
    + eapply affords_perm; [|exact Af]. etrans; [|apply Permutation_app_head; symmetry; exact Pm]. unfold missing. solve_Permutation.
Qed.

Lemma stage_target T t0 now s m a : stage T t0 s -> tables_ok s.1 -> m = fr_assemblies s.1 -> target key protocol now m a ->
  t0 <= now -> progress T a /\ assembly_ok key a /\ t0 <= as_created_at_ms a.
Proof.
  unfold stage, target. intros St Tb -> Tg Hn. destruct (fr_assemblies s.1 !! key) as [x|] eqn:E.
  - rewrite bool_decide_false in Tg by done. injection Tg as ->. destruct St. split_and!; try done. by apply (ta_assembly _ Tb).
  - rewrite bool_decide_true in Tg by done. destruct Tg as (timer & ek & ->). subst T.
    split_and!; [apply fresh_progress|apply fresh_ok|done].
Qed.

Lemma ingest_step T p packet ip h q t0 now extra s :
  inv [] s -> stage T t0 s -> p :: T ⊆+ pieces -> bears p packet ip h q ->
  fr_now_ms s.1 <= now < u64_max -> t0 <= now < t0 + timeout_of s.1 ->
  tq_ids (fr_expiry s.1) < u64_max -> fr_next_eviction_serial s.1 < u64_max ->
  Forall (fun x => 0 <= lease_amount x) extra ->
  affords b rest (needed (len p.2) (missing key s) ++ extra ++ map_leases assembly_leases (fr_assemblies s.1)) ->
  wp (ingest b le packet now) s (stepped (p :: T) t0 now extra s) (fun _ _ => False).
Proof.
  intros I St Sub C Hnow Hw Hi Hs He Af. pose proof (co_now _ (fi_clock _ _ _ _ I)) as Hn0.
  unfold ingest. wp_step. eapply wp_mono; [apply (advance_current_spec b rest Hb now [] s I); lia| |intros e s' (? & _); lia].
  intros k s1 [Hle A]. destruct (advanced_stage T t0 now s s1 St I A) as (St1 & Em & Sm); [lia|lia|].
  pose proof (ad_inv _ _ _ _ _ _ A) as I1. pose proof (next_piece T p Sub) as (N1 & N2 & N3). unfold piece_finish in N3.
  assert (affords b rest (needed (len p.2) (missing key s1) ++ extra ++ map_leases assembly_leases (fr_assemblies s1.1))) as Af1.
  { rewrite Em. eapply affords_sub; [|apply needed_amounts; [done|apply Forall_app; split; [done|]]|exact Af].
    - apply submseteq_app; [done|]. apply submseteq_app; [done|]. by apply map_leases_sub.
    - apply (ac_amounts _ _ _ _ (fi_accounts _ _ _ _ I)). }
  assert (affords b rest (needed (len p.2) (missing key s1) ++ [] ++ map_leases assembly_leases (fr_assemblies s1.1))) as Af2.
  { eapply affords_sub; [|apply needed_amounts; [done|apply Forall_app; split; [exact He|]]|exact Af1].
    - apply submseteq_app; [done|]. by apply submseteq_inserts_l.
    - apply (ac_amounts _ _ _ _ (fi_accounts _ _ _ _ I1)). }
  assert (ready b rest now [] s1) as R.
  { destruct A. split; try done; try lia. by rewrite ad_current, ad_tick. }
  do 2 wp_step. rewrite (ca_parse _ _ _ _ _ C). cbn [wire_outcome]. rewrite (ca_fragment _ _ _ _ _ C), (ca_proper _ _ _ _ _ C).
  eapply ingest_fragment_accepts; [exact St1|exact Sub|exact C|].
  assert (forall m a, m ⊆ fr_assemblies s1.1 -> target key protocol now m a -> admissible key (info_of p) p.2 h q (piece_finish p) a) as Adm.
  { intros m a Hm Tg. destruct (stage_checks T p h q s1 t0 St1 Sub (ca_first _ _ _ _ _ C)) as [O1 O2].
    eapply (target_admissible key (info_of p) p.2 h q protocol); [done|apply carried_end; eapply elem_of_submseteq; [left|exact Sub]| |apply C|done..].
    destruct (fragment_header_ok le packet ip _ (ca_bytes _ _ _ _ _ C) (ca_parse _ _ _ _ _ C) (ca_fragment _ _ _ _ _ C))
      as (h' & q' & proto & E & Hh & _). rewrite (ca_header _ _ _ _ _ C) in E. injection E as <- <- _.
    by rewrite <- (ca_version _ _ _ _ _ C). }
  eapply wp_mono; [apply (accept_spec b rest Hb key (info_of p) p.2 h q protocol (piece_finish p) now [] s1 R Adm)| |].
  - unfold u64_max. lia.
  - intros out s' (J & [C1 C2 C3 (m & a & _ & Hm & Tg & D)]). specialize (Hm Af2).
    destruct (stage_target T t0 now s1 m a St1 (fi_tables _ _ _ _ I1) Hm Tg) as (P & O & Hc); [lia|]. subst m.
    pose proof (delivered_stage T p h q now t0 extra s1 a out _ Tg Sub (ca_first _ _ _ _ _ C) P O
      (Adm _ _ (reflexivity _) Tg) Hc D Af1) as G. cbv zeta in G.
    destruct A, C1. split; try done; try lia.
    + unfold timeout_of, effective_timeout. congruence.
    + case_decide; [done|]. destruct G as (-> & Em' & P' & Hc' & Af'). split_and!; [done| | |done].
      * unfold stage. by rewrite Em', lookup_insert_eq.
      * unfold missing. by rewrite Em', lookup_insert_eq.
  - intros e s' N. by destruct (nr_first _ _ _ _ _ _ _ _ N).
Qed.

(** The whole train: pieces, the packets that carry them and when they come. *)
Record arriving := mkArriving { ar_piece : Z * list Z; ar_packet : list Z; ar_time : Z }.

Definition arrived (x : arriving) : list Z * Z := (ar_packet x, ar_time x).

Fixpoint ingest_all (arrivals : list (list Z * Z)) : @FM W (list (option (list Z))) :=
  match arrivals with
  | [] => mret []
  | (packet, now) :: arrivals =>
    out ← ingest b le packet now;
    outs ← ingest_all arrivals;
    mret (out :: outs)
  end.

(** The clock does not go back, and stays within [limit]. *)
Fixpoint timely (from limit : Z) (times : list Z) : Prop :=
  match times with
  | [] => True
  | now :: times => from <= now < limit /\ now < u64_max /\ timely now limit times
  end.

Definition train_cost (train : list arriving) : list BudgetLease := flat_map (fun x => cost (ar_piece x)) train.

Lemma train_cost_amounts train : Forall (fun x => 0 <= lease_amount x) (train_cost train).
Proof.
  induction train as [|x train IH]; [constructor|]. cbn. pose proof (len_nonneg (ar_piece x).2).
  repeat (apply Forall_cons; split); cbn; unfold PIECE_METADATA_BYTES; try lia. done.
Qed.

(** Every fragment but the last to come is kept, and the last gives the packet. *)
Definition train_result (train : list arriving) (outs : list (option (list Z))) s' : Prop :=
  exists packet, rebuild whole (fk_version key) = Ok packet /\
    outs = replicate (pred (length train)) None ++ [Some packet] /\ inv [] s' /\ (fr_assemblies s'.1 !! key = None).

Lemma train_spec t0 train : forall T s, inv [] s -> stage T t0 s ->
  Permutation (map ar_piece train ++ T) pieces -> train <> [] ->
  Forall (fun x => exists ip h q, bears (ar_piece x) (ar_packet x) ip h q) train ->
  timely (fr_now_ms s.1) (t0 + timeout_of s.1) (map ar_time train) -> Forall (fun x => t0 <= ar_time x) train ->
  tq_ids (fr_expiry s.1) + len train <= u64_max -> fr_next_eviction_serial s.1 + len train <= u64_max ->
  affords b rest (metadata_leases (missing key s) ++ train_cost train ++ map_leases assembly_leases (fr_assemblies s.1)) ->
  wp (ingest_all (map arrived train)) s (train_result train) (fun _ _ => False).
Proof.
  induction train as [|x train IH]; intros T s I St Pm Hne Hc Ti H0' Hi Hs Af; [done|].
  apply Forall_cons in Hc as [(ip & h & q & C) Hc]. cbn [map timely] in Ti. destruct Ti as (Tn & Tm & Ti).
  rewrite len_cons in Hi, Hs. pose proof (len_nonneg train) as Hl.
  apply Forall_cons in H0' as [Hx H0'].
  cbn [map app] in Pm. assert (ar_piece x :: T ⊆+ pieces) as Sub.
  { rewrite <- Pm. constructor. by apply submseteq_inserts_l. }
  cbn [map arrived ingest_all]. wp_step. eapply wp_mono; [apply (ingest_step T (ar_piece x) _ ip h q t0 (ar_time x) (train_cost train) s I St Sub C)| |done];
    try lia; [apply train_cost_amounts|eapply affords_perm; [|exact Af]; unfold needed, cost; cbn; solve_Permutation|].
  intros out s1 [J Now Tmo Ids Ser Out]. wp_step. case_decide as Hd.
  - assert (train = []) as ->.
    { destruct train as [|y train]; [done|]. rewrite <- Hd in Pm. apply Permutation_length in Pm. cbn in Pm.
      rewrite length_app in Pm. lia. }
    cbn [map ingest_all]. do 2 wp_step. destruct Out as [(packet & E & ->) N]. by exists packet.
  - destruct Out as (-> & St' & Ms & Af').
    assert (train <> []) as Hne' by (intros ->; by destruct Hd).
    eapply wp_mono; [apply (IH (ar_piece x :: T) s1 J St')| |done]; try done; try lia.
    + by rewrite <- Pm, Permutation_middle.
    + by rewrite Now, Tmo.
    + by rewrite Ms.
    + intros outs s' (packet & E & -> & J' & N). wp_step. exists packet. split_and!; try done.
      by destruct train.
Qed.
End Ingesting.
End Train.
