(* ===== verification/FragmentRoundtrip.v ===== *)
(** Source fragmentation and reassembly together ([ip/fragmentation.rs] and
    [ip/reassembly.rs] of [sail-netstack]): the fragments of a packet, in any
    order, give the packet back. *)
From S2P Require Import Prelude StateMonad Checksum IpWire Budget Timer TimerRefine TimerInterface Leases ExpiryIndex.
From S2P Require Import Pmtu Fragmentation FragmentTheorems Reassembly ReassemblyInv ReassemblyOps ReassemblyIngest FragmentTrain.
From S2P Require Import ReassemblyTheorems.
From stdpp Require Import list sorting gmap.
#[local] Open Scope Z_scope.

(** ** Arrivals *)

(** What the ledger must have left for [n] fragments of [bytes] bytes in all. *)
Definition room_for (b : ResourceBudget) (l : ResourceLedger) (n bytes : Z) : Prop :=
  let metadata := n * PIECE_METADATA_BYTES + ASSEMBLY_METADATA_BYTES in
  l_total l + bytes + metadata <= total_bytes b /\ l_used l Fragments + n <= limit b Fragments /\
  l_used l FragmentBytes + bytes <= limit b FragmentBytes /\ l_used l MetadataBytes + metadata <= limit b MetadataBytes.

Lemma zsum_map {A B} (f : B -> Z) (g : A -> B) l : zsum f (map g l) = zsum (fun x => f (g x)) l.
Proof. induction l as [|x l IH]; [done|]. cbn [map]. by rewrite !zsum_cons, IH. Qed.

(** What a fragment takes of a pool. *)
Definition cost_of (k : ResourceKind) (bytes : Z) : Z :=
  match k with Fragments => 1 | FragmentBytes => bytes | MetadataBytes => PIECE_METADATA_BYTES | _ => 0 end.
Definition costs_of (k : ResourceKind) (n bytes : Z) : Z :=
  match k with Fragments => n | FragmentBytes => bytes | MetadataBytes => n * PIECE_METADATA_BYTES | _ => 0 end.

Lemma cost_charges p : zsum lease_total (cost p) = len p.2 + PIECE_METADATA_BYTES /\
  forall k, zsum (lease_pool k) (cost p) = cost_of k (len p.2).
Proof.
  unfold cost, credit_leases, credit_of. cbn [cr_slot cr_payload cr_piece_metadata]. split.
  - rewrite !zsum_cons, zsum_nil, !lease_total_mk. unfold total_if. cbn [is_bytes]. lia.
  - intros k. rewrite !zsum_cons, zsum_nil, !lease_pool_mk. unfold pool_if. destruct k; repeat case_decide; try done; cbn; lia.
Qed.

Lemma train_charges train : let bytes := zsum (fun x => len (ar_piece x).2) train in
  zsum lease_total (train_cost train) = bytes + len train * PIECE_METADATA_BYTES /\
  forall k, zsum (lease_pool k) (train_cost train) = costs_of k (len train) bytes.
Proof.
  induction train as [|x train [IH1 IH2]]; [split; [done|]; by intros []|]. cbv zeta in *.
  destruct (cost_charges (ar_piece x)) as [C1 C2]. unfold train_cost in *. cbn [flat_map].
  rewrite !zsum_cons, len_cons. split; [rewrite zsum_app, C1, IH1; unfold PIECE_METADATA_BYTES; lia|].
  intros k. rewrite zsum_app, C2, IH2. destruct k; cbn; unfold PIECE_METADATA_BYTES; lia.
Qed.

Lemma room_affords b rest l ls train n bytes : accounts b rest l ls -> room_for b l n bytes ->
  len train <= n -> zsum (fun x => len (ar_piece x).2) train <= bytes ->
  affords b rest (metadata_leases true ++ train_cost train ++ ls).
Proof.
  intros A (R1 & R2 & R3 & R4) Hn Hbytes. pose proof (accounts_affords b rest l ls A) as [A1 A2]. destruct A as [_ Ht Hu _ _ _].
  destruct (train_charges train) as [E1 E2]. cbv zeta in *. rewrite Ht in R1. rewrite !Hu in *.
  unfold PIECE_METADATA_BYTES, ASSEMBLY_METADATA_BYTES in *. split.
  - rewrite !zsum_app, E1. assert (zsum lease_total (metadata_leases true) = 192) as -> by done. unfold PIECE_METADATA_BYTES. lia.
  - intros k. specialize (A2 k). rewrite !zsum_app, E2.
    assert (zsum (lease_pool k) (metadata_leases true) = if decide (k = MetadataBytes) then 192 else 0) as -> by (by destruct k).
    unfold costs_of, PIECE_METADATA_BYTES. destruct k; case_decide; done || lia.
Qed.

(** A train out of the fragments of the pieces, as they arrive. *)
Lemma arrange (R : Z * list Z -> list Z -> Prop) pieces fs arrivals : Forall2 R pieces fs -> Permutation (map fst arrivals) fs ->
  exists train, map arrived train = arrivals /\ Permutation (map ar_piece train) pieces /\
    Forall (fun x => R (ar_piece x) (ar_packet x)) train.
Proof.
  intros F P. apply Forall2_flip in F. symmetry in P.
  destruct (Permutation_Forall2 P F) as (ps & Pp & F2). clear F.
  assert (exists train, map arrived train = arrivals /\ map ar_piece train = ps /\
    Forall (fun x => R (ar_piece x) (ar_packet x)) train) as (train & E1 & E2 & H).
  { clear P Pp. revert ps F2. induction arrivals as [|[f t] arrivals IH]; intros ps F2; inversion F2 as [|? p ? ps' Hp F3]; subst.
    - by exists [].
    - destruct (IH ps' F3) as (train & <- & <- & H). exists (mkArriving p f t :: train). split_and!; [done|done|]. by constructor. }
  exists train. split_and!; [done| |done]. rewrite E2. by symmetry.
Qed.

Lemma timely_from from limit times : timely from limit times -> Forall (fun t => from <= t) times.
Proof.
  revert from. induction times as [|t times IH]; intros from; [constructor|]. cbn. intros (H1 & _ & H2).
  constructor; [lia|]. eapply Forall_impl; [by apply IH|]. intros x Hx. cbn in Hx. lia.
Qed.

(** ** Any fragments that tile a datagram *)
Section Completes.
Context {W : Type} `{TimerQueueLaws FragmentKey W} (b : ResourceBudget) (rest : holdings) (Hb : budget_range b) (le : bool).
Abbreviation fstate := (@fstate W).
Abbreviation inv := (frag_inv b rest).

(** The arrivals begin after the reassembler's time and end before the first of
    them times out. *)
Definition in_time (s : fstate) (arrivals : list (list Z * Z)) : Prop :=
  match arrivals with
  | [] => True
  | (_, t0) :: _ => timely (fr_now_ms s.1) (t0 + timeout_of s.1) (map snd arrivals)
  end.

(** A reassembler with time, room and numbers left for the arrivals. *)
Record prepared (s : fstate) (key : FragmentKey) (arrivals : list (list Z * Z)) (bytes : Z) : Prop := {
  pp_inv : inv [] s;
  pp_key : fr_assemblies s.1 !! key = None;
  pp_time : in_time s arrivals;
  pp_ids : tq_ids (fr_expiry s.1) + len arrivals <= u64_max;
  pp_serial : fr_next_eviction_serial s.1 + len arrivals <= u64_max;
  pp_room : room_for b s.2 (len arrivals) bytes
}.

(** All but the last are kept; the last gives the packet, and nothing is left. *)
Definition completes (s : fstate) (key : FragmentKey) (arrivals : list (list Z * Z)) (packet : list Z) : Prop :=
  exists s', ingest_all b le arrivals s = (s', Ok (replicate (pred (length arrivals)) None ++ [Some packet])) /\
    inv [] s' /\ (fr_assemblies s'.1 !! key = None).

Lemma train_completes key protocol total header previous pieces fs arrivals bytes (s : fstate) packet :
  tiles 0 total pieces -> 0 < total <= 65535 -> total <= bytes ->
  reassembled_size_exceeds (fk_version key) (len header) total = false ->
  Forall2 (fun p f => exists ip h q, bears key protocol total header previous le p f ip h q) pieces fs ->
  Permutation (map fst arrivals) fs -> prepared s key arrivals bytes ->
  rebuild (whole protocol total header previous pieces) (fk_version key) = Ok packet ->
  completes s key arrivals packet.
Proof.
  intros Ht H65 Hbytes Hsize F P [I Hk Tm Hi Hs Rm] Er.
  destruct (arrange _ _ _ _ F P) as (train & <- & Pm & Ft).
  assert (len (map arrived train) = len train) as El by (unfold len; by rewrite length_map). rewrite El in *.
  assert (map snd (map arrived train) = map ar_time train) as Es by (rewrite map_map; done).
  destruct train as [|x train].
  { apply Permutation_nil in Pm as ->. cbn in Ht. lia. }
  assert (wp (ingest_all b le (map arrived (x :: train))) s
    (train_result key protocol total header previous pieces b rest (x :: train)) (fun _ _ => False)) as S.
  { unfold in_time in Tm. change (timely (fr_now_ms s.1) (ar_time x + timeout_of s.1) (map snd (map arrived (x :: train)))) in Tm.
    rewrite Es in Tm. assert (missing key s = true) as Em by (unfold missing; by rewrite Hk).
    apply (train_spec key protocol total header previous pieces Ht H65 Hsize b rest Hb le (ar_time x) (x :: train) [] s); try done.
    - unfold stage. by rewrite Hk.
    - by rewrite app_nil_r.
    - constructor; [lia|]. cbn in Tm. destruct Tm as (_ & _ & Tm). apply timely_from in Tm. exact (proj1 (Forall_fmap ar_time _ _) Tm).
    - rewrite Em. eapply room_affords; [apply I|exact Rm|done|].
      pose proof (tiles_total _ _ _ Ht) as Tt. rewrite (zsum_perm _ _ _ (Permutation_sym Pm)), zsum_map in Tt. lia. }
  unfold wp in S. destruct (ingest_all b le (map arrived (x :: train)) s) as [s' [outs|e| |]] eqn:E; [|done..].
  destruct S as (p & Ep & -> & J & N). rewrite Er in Ep. injection Ep as <-.
  exists s'. rewrite E, length_map. done.
Qed.
End Completes.

(** ** IPv4 *)
Lemma fragment_header4 b0 tos total id bits ttl proto ck src dst opts l :
  ip4_ok b0 tos total id bits ttl proto src dst opts -> length ck = 2%nat ->
  fragment_header (ip4_header b0 tos total id bits ttl proto ck src dst opts ++ l) IpV4
  = Ok (ip4_header b0 tos total id bits ttl proto ck src dst opts, None, proto).
Proof.
  intros Hok Lck. pose proof (len_nonneg opts). pose proof (len_nonneg l).
  destruct (ip4_first_byte (len opts)) as (F1 & _); [apply Hok|split; [lia|apply Hok]|].
  rewrite <- (i4_b0 _ _ _ _ _ _ _ _ _ _ Hok) in F1.
  pose proof (ip4_header_len b0 tos total id bits ttl proto ck src dst opts Lck
    (proj1 (i4_src _ _ _ _ _ _ _ _ _ _ Hok)) (proj1 (i4_dst _ _ _ _ _ _ _ _ _ _ Hok))) as Lh.
  destruct Hok as [_ _ _ _ _ _ _ _ _ _ _ _].
  assert (idx (E := FragmentError) (ip4_header b0 tos total id bits ttl proto ck src dst opts ++ l) 0 = Ok b0) as I0 by done.
  assert (idx (E := FragmentError) (ip4_header b0 tos total id bits ttl proto ck src dst opts ++ l) 9 = Ok proto) as I9 by done.
  set (h := ip4_header b0 tos total id bits ttl proto ck src dst opts) in *.
  cbn [fragment_header]. rewrite I0. cbn [mbind outcome_bind]. rewrite F1, slice_Ok by (rewrite ?len_app; lia).
  cbn [mbind outcome_bind]. rewrite I9. cbn [mbind outcome_bind]. by rewrite sub_app_l by lia.
Qed.

Lemma size4 n total : 0 <= n -> 0 <= total -> n + total <= 65535 -> reassembled_size_exceeds IpV4 n total = false.
Proof.
  intros H1 H2 H3. unfold reassembled_size_exceeds, checked_add. rewrite (proj2 (Z.leb_le _ _)) by (unfold u64_max; lia).
  apply Z.ltb_ge. done.
Qed.

(** Rebuilding on an IPv4 header: length, flags and checksum are those of the whole. *)
Lemma rebuild4 b0 tos n id bits ttl proto ck src dst opts a body :
  as_header a = Some (ip4_header b0 tos n id bits ttl proto ck src dst opts) -> length ck = 2%nat ->
  concat (map (fun p => pc_bytes p.2) (as_pieces a)) = body ->
  ip4_ok b0 tos (20 + len opts + len body) id 0 ttl proto src dst opts ->
  let h ck := ip4_header b0 tos (20 + len opts + len body) id 0 ttl proto ck src dst opts in
  exists k, is_u16 k /\ rebuild a IpV4 = Ok (h (to_be16 k) ++ body) /\ ones (word_sum (h (to_be16 k))) = 65535.
Proof.
  intros Eh Lck Eb Hok h. pose proof (len_nonneg opts). pose proof (len_nonneg body).
  assert (bytes_ok [0; 0]) as Z2 by (repeat constructor; width).
  assert (bytes_ok (h [0; 0])) as B0 by (by apply ip4_header_ok).
  pose proof (ip4_header_verifies _ _ _ _ _ _ _ _ _ _ Hok) as Hv. cbv beta zeta in Hv.
  destruct (ip4_first_byte (len opts)) as (F1 & _); [apply Hok|split; [lia|apply Hok]|].
  rewrite <- (i4_b0 _ _ _ _ _ _ _ _ _ _ Hok) in F1. pose proof (i4_total _ _ _ _ _ _ _ _ _ _ Hok) as Ht.
  pose proof (i4_opts4 _ _ _ _ _ _ _ _ _ _ Hok) as [k4 H4]. pose proof (i4_opts40 _ _ _ _ _ _ _ _ _ _ Hok) as H40.
  assert (forall ck, length ck = 2%nat -> len (h ck) = 20 + len opts) as Lh.
  { intros c Lc. apply ip4_header_len; [done|apply Hok..]. }
  exists (finalize_checksum (ones (word_sum (h [0; 0])))). split; [|split; [|exact Hv]].
  { pose proof (ones_range _ (word_sum_nonneg _ B0)). unfold finalize_checksum. width. }
  unfold rebuild. rewrite Eh, Eb. cbn [ok_or mbind outcome_bind].
  rewrite len_app, ip4_header_len by (done || apply Hok). rewrite try_u16_Ok by done. cbn [ok_or mbind outcome_bind].
  rewrite write_total. cbn [mbind outcome_bind]. rewrite write_bits. cbn [mbind outcome_bind].
  change (to_be16 0) with [0; 0]. rewrite write_ck by done. cbn [mbind outcome_bind]. fold (h [0; 0]).
  assert (idx (E := FragmentError) (h [0; 0] ++ body) 0 = Ok b0) as I0 by done. rewrite I0. cbn [mbind outcome_bind].
  rewrite F1, slice_Ok by (rewrite ?len_app, ?Lh by done; lia). cbn [mbind outcome_bind].
  rewrite sub_app_l by (symmetry; by apply Lh). unfold ipv4_checksum. rewrite header_checksum_ones; [|done| |rewrite Lh by done; lia].
  - cbn [mbind outcome_bind]. by apply write_ck.
  - specialize (Lh [0; 0] eq_refl). replace (length (h [0; 0])) with (2 * Z.to_nat (10 + 2 * k4))%nat by (unfold len in *; lia).
    apply Nat.even_even.
Qed.

Section V4.
Context (le : bool) (tos ttl proto : Z) (src dst opts copied body : list Z) (identification : Z).
Abbreviation id := (identification mod 65536).
Abbreviation key := (mkFragmentKey IpV4 (V4 src) (V4 dst) proto id).
Context (pieces : list (Z * list Z)) (Ht : tiles 0 (len body) pieces) (Hproper : Forall (fun p => p.1 = 0 -> len p.2 < len body) pieces).
Context (Hv : validate_ipv4_options opts = Ok tt) (Hvc : validate_ipv4_options copied = Ok tt).
Context (Hbody : bytes_ok body) (Hconcat : concat pieces.*2 = body) (Hlong : 20 + len opts + len body <= 65535).
Context (Hcopied : len copied <= len opts).

Lemma piece_bytes p : p ∈ pieces -> bytes_ok p.2.
Proof.
  intros Hp. rewrite <- Hconcat in Hbody. clear -Hp Hbody. induction pieces as [|x ps IH]; [by apply not_elem_of_nil in Hp|].
  cbn in Hbody. apply bytes_ok_app in Hbody as [B1 B2]. apply elem_of_cons in Hp as [->|Hp]; [done|by apply IH].
Qed.

(** Each fragment is what the reassembler takes for its piece. *)
Lemma bears4 p f header : p ∈ pieces ->
  ip4_fragment_of tos ttl proto src dst opts copied body identification p f ->
  (p.1 = 0 -> exists l, f = header ++ l /\ len header = 20 + len opts) ->
  exists ip h q, bears key proto (len body) header None le p f ip h q.
Proof.
  intros Hin Hf Hfirst. pose proof (piece_bytes p Hin) as Bp.
  pose proof (tiles_in _ _ _ _ Ht ltac:(by exists 0) Hin) as (Ho & Do & Hc0 & Hce).
  pose proof (proj1 (Forall_forall _ _) Hproper p Hin) as Hpr. cbv beta in Hpr.
  destruct p as [o c]. cbn [fst snd] in *. destruct Hf as (Hok & k & Hk & -> & Hv1).
  set (os := options_at opts copied o) in *. pose proof (len_nonneg os) as Hos. pose proof (len_nonneg opts).
  assert (len os <= len opts) by (unfold os, options_at; case_bool; lia).
  assert (len (ip4_header (64 + (20 + len os) / 4) tos (20 + len os + len c) id (fragment_bits o (o + len c <? len body)) ttl proto
    (to_be16 k) src dst os) = 20 + len os) as Lh by (apply ip4_header_len; [done|apply Hok..]).
  set (h := ip4_header (64 + (20 + len os) / 4) tos (20 + len os + len c) id (fragment_bits o (o + len c <? len body)) ttl proto
    (to_be16 k) src dst os) in *.
  eexists _, h, None. split.
  - apply bytes_ok_app. split; [|done]. apply ip4_header_ok; [done|by apply to_be16_ok].
  - apply parse_ip4; try done; try lia. unfold os, options_at. by case_bool.
  - done.
  - cbn [fragment]. rewrite proper_fragment by done. done.
  - unfold is_atomic. cbn. unfold piece_finish. cbn. destruct (Z.eqb_spec o 0) as [->|]; [|done].
    by rewrite (proj2 (Z.ltb_lt _ _)) by (apply Hpr; done).
  - unfold payload_of. cbn. by rewrite proper_fragment.
  - done.
  - by apply fragment_header4.
  - cbn. intros ->. destruct (Hfirst eq_refl) as (l & El & Ll). split; [|done]. apply (f_equal (take (length h))) in El.
    assert (len os = len opts) as Eo by done. assert (length header = length h) as E by (unfold len in *; lia).
    by rewrite take_app_length, <- E, take_app_length in El.
  - cbn [fk_version]. apply size4; unfold piece_finish; cbn [fst snd]; lia.
Qed.
End V4.

(** The key under which a reassembler collects the fragments of a packet. *)
Definition datagram_key (ip : ParsedIpPacket) (identification : Z) : FragmentKey :=
  match version ip with
  | IpV4 => mkFragmentKey IpV4 (source ip) (destination ip) (next_header ip) (identification mod 65536)
  | IpV6 => mkFragmentKey IpV6 (source ip) (destination ip) 0 identification
  end.

(** Everything but the identification, the flags and the checksum. *)
Definition same_but_fragment_fields (p p' : list Z) (total : Z) : Prop :=
  len p' = total /\ sub p' 0 4 = sub p 0 4 /\ sub p' 8 10 = sub p 8 10 /\ sub p' 12 total = sub p 12 total.

Lemma headers_same b0 tos total id id' bits bits' ttl proto ck ck' src dst opts body l :
  length ck = 2%nat -> length ck' = 2%nat -> length src = 4%nat -> length dst = 4%nat -> total = 20 + len opts + len body ->
  same_but_fragment_fields (ip4_header b0 tos total id bits ttl proto ck src dst opts ++ body ++ l)
    (ip4_header b0 tos total id' bits' ttl proto ck' src dst opts ++ body) total.
Proof.
  intros L1 L2 L3 L4 ->. pose proof (len_nonneg opts). pose proof (len_nonneg body).
  split; [rewrite len_app, ip4_header_len by done; lia|]. destruct ck as [|a1 [|a2 [|]]], ck' as [|b1 [|b2 [|]]]; try done.
  split; [done|]. split; [done|]. assert (len src = 4 /\ len dst = 4) as [S4 D4] by (unfold len; lia).
  set (t := src ++ dst ++ opts ++ body).
  assert (len t = 20 + len opts + len body - 12) as Lt by (unfold t; rewrite !len_app; lia).
  transitivity t; [|symmetry].
  - replace (ip4_header _ _ _ _ _ _ _ _ _ _ _ ++ body) with
      (([b0; tos] ++ to_be16 (20 + len opts + len body) ++ to_be16 id' ++ to_be16 bits' ++ [ttl; proto] ++ [b1; b2]) ++ t)
      by (unfold ip4_header, t; by rewrite <- !(assoc_L (++))).
    apply sub_app_tail; [done|]. rewrite Lt. unfold len. cbn. lia.
  - replace (ip4_header _ _ _ _ _ _ _ _ _ _ _ ++ body ++ l) with
      (([b0; tos] ++ to_be16 (20 + len opts + len body) ++ to_be16 id ++ to_be16 bits ++ [ttl; proto] ++ [a1; a2]) ++ t ++ l)
      by (unfold ip4_header, t; by rewrite <- !(assoc_L (++))).
    rewrite sub_app_r by (done || lia). apply sub_app_l. lia.
Qed.

Section Theorems.
Context {W : Type} `{TimerQueueLaws FragmentKey W} (b : ResourceBudget) (rest : holdings) (Hb : budget_range b).

(** The fragments of a parsed IPv4 packet complete to it. *)
Lemma reassembles4 le' packet ip mtu identification b0 tos total id bits ttl proto ck src dst opts copied body tail pieces fs arrivals
    (s : @fstate W) :
  ip4_view packet ip b0 tos total id bits ttl proto ck src dst opts body tail -> fragmented ip = false -> mtu < total ->
  is_u32 identification -> len copied <= len opts -> validate_ipv4_options copied = Ok tt ->
  tiles 0 (len body) pieces -> concat pieces.*2 = body ->
  Forall2 (ip4_fragment_of tos ttl proto src dst opts copied body identification) pieces fs ->
  Forall (fun q => 20 + len (options_at opts copied q.1) + len q.2 <= mtu) pieces -> 0 < len body -> total <= len packet ->
  Permutation (map fst arrivals) fs -> prepared b rest s (datagram_key ip identification) arrivals (len packet) ->
  exists packet', completes b rest le' s (datagram_key ip identification) arrivals packet' /\
    parse_ip_packet le' packet' true = Ok ip /\ same_but_fragment_fields packet packet' total.
Proof.
  intros V Hf Hm Hid Cle Cv Ht Hc H2 Hcap Lb Hle Pm Prep.
  destruct V as [Vp Hok Vck Htot Vv Vbody Vs Vd Vn Vh Vpay [Vver Vw]]. destruct (Vw Hf) as [Vf Vfp].
  pose proof (i4_total _ _ _ _ _ _ _ _ _ _ Hok) as Hu. pose proof (len_nonneg opts) as Lo. unfold is_u16 in Hu.
  assert (datagram_key ip identification = mkFragmentKey IpV4 (V4 src) (V4 dst) proto (identification mod 65536)) as Ek
    by (unfold datagram_key; by rewrite Vver, Vs, Vd, Vn).
  assert (Forall (fun p => p.1 = 0 -> len p.2 < len body) pieces) as Hpr.
  { eapply Forall_impl; [exact Hcap|]. intros [o c] Hq. cbn in *. intros ->. unfold options_at in Hq. cbn in Hq. lia. }
  destruct pieces as [|[o0 c0] pieces]; [cbn in Ht; lia|]. destruct fs as [|f0 fs]; [by inversion H2|].
  pose proof (proj1 Ht) as Eo. cbn in Eo. subst o0. apply Forall2_cons in H2 as [F0 H2].
  pose proof F0 as (Hok0 & k0 & Hk0 & Ef0 & _). cbn [options_at Z.eqb] in *.
  set (h0 := ip4_header _ _ _ _ _ _ _ _ _ _ _) in Ef0.
  assert (len h0 = 20 + len opts) as Lh0 by (apply ip4_header_len; [done|apply Hok0..]).
  assert (ip4_ok (64 + (20 + len opts) / 4) tos (20 + len opts + len body) (identification mod 65536) 0 ttl proto src dst opts) as Hok'.
  { destruct Hok, Hok0. split; try done. by rewrite <- Htot. }
  destruct (rebuild4 (64 + (20 + len opts) / 4) tos (20 + len opts + len c0) (identification mod 65536) (fragment_bits 0 (0 + len c0 <? len body)) ttl proto (to_be16 k0) src dst opts
    (whole proto (len body) h0 None ((0, c0) :: pieces)) body eq_refl eq_refl) as (k & Hk & Er & Hv1).
  { rewrite <- Hc. unfold whole. cbn [as_pieces]. f_equal. rewrite map_map. done. }
  { done. }
  eexists. split_and!.
  - rewrite Ek in *. eapply (train_completes b rest Hb le' _ proto (len body) h0 None ((0, c0) :: pieces) (f0 :: fs) arrivals (len packet));
      [done|lia|lia| | |done|done|exact Er].
    + rewrite Lh0. apply size4; lia.
    + constructor.
      * eapply (bears4 le' tos ttl proto src dst opts copied body identification ((0, c0) :: pieces)); try done; [lia|left|].
        intros _. by exists c0.
      * apply Forall2_same_length_lookup. split; [by eapply Forall2_length|]. intros i p f Hi Hfi.
        apply list_elem_of_lookup_2 in Hi as Hin.
        eapply (bears4 le' tos ttl proto src dst opts copied body identification ((0, c0) :: pieces)); try done; [lia|by right| |].
        -- by eapply Forall2_lookup_lr.
        -- intros Hz. cbn [tiles] in Ht. destruct Ht as (_ & C0 & _ & Ht). apply (tiles_from _ _ _ _ Ht) in Hin. lia.
  - rewrite (parse_ip4 le' _ _ _ _ 0 false); try done; [|by exists 0].
    cbn. destruct ip. cbn in *. congruence.
  - rewrite Vp, Htot. rewrite (i4_b0 _ _ _ _ _ _ _ _ _ _ Hok). apply headers_same; try done; apply Hok.
Qed.

(** C23: A locally made IPv4 packet larger than the MTU, of at least 68 bytes, is
    cut into fragments within the MTU, and these give it back: a reassembler with
    room for them that gets them in any order, before the first times out, keeps
    all but the last and answers the last with a packet that parses to the same
    datagram and differs from the original at most in the identification, the
    flags and the checksum.  It then holds nothing for the datagram any more. *)
Theorem ipv4_fragment_roundtrip (le le' : bool) (packet : list Z) (mtu identification total : Z) (ip : ParsedIpPacket) :
  bytes_ok packet -> is_u32 identification -> parse_ip_packet le packet true = Ok ip -> version ip = IpV4 ->
  fragmented ip = false -> idx_be16 (E := unit) packet 2 = Ok total -> 68 <= mtu < total ->
  exists fs, fragment_outbound_ip_packet le packet mtu identification = Ok fs /\ Forall (fun f => len f <= mtu) fs /\
    forall (arrivals : list (list Z * Z)) (s : @fstate W), Permutation (map fst arrivals) fs ->
      prepared b rest s (datagram_key ip identification) arrivals (len packet) ->
      exists packet', completes b rest le' s (datagram_key ip identification) arrivals packet' /\
        parse_ip_packet le' packet' true = Ok ip /\ same_but_fragment_fields packet packet' total.
Proof.
  intros Bp Hid Ep Hver Hf Et Hm.
  destruct (parse_ip4_inv le packet ip Bp Ep Hver) as (b0 & tos & tot & id & bits & ttl & proto & ck & src & dst & opts & body &
    tail & V). rewrite (view_total _ _ _ _ _ _ _ _ _ _ _ _ _ _ _ V) in Et. injection Et as ->.
  destruct (view_whole _ _ _ _ _ _ _ _ _ _ _ _ _ _ _ V) as [Ew Hle].
  destruct (fragment_ipv4_value le _ _ mtu identification _ _ _ _ _ _ _ _ _ _ _ _ _ V Hid ltac:(lia))
    as (pieces & fs & copied & Ec & Cv & Ef & Ht & Hc & H2 & Hcap).
  pose proof (v4_ok _ _ _ _ _ _ _ _ _ _ _ _ _ _ _ V) as Hok. pose proof (v4_total _ _ _ _ _ _ _ _ _ _ _ _ _ _ _ V) as Htot.
  pose proof (len_nonneg opts) as Lo. pose proof (len_nonneg body) as Lbody. pose proof (i4_opts40 _ _ _ _ _ _ _ _ _ _ Hok) as H40.
  destruct (copied_options_spec opts) as (copied' & Ec' & _ & _ & Cle & _); [apply Hok..|apply V|].
  rewrite Ec in Ec'. injection Ec' as <-.
  exists fs. split; [|split].
  - unfold fragment_outbound_ip_packet. rewrite Ep. cbn [mbind outcome_bind]. rewrite Hver, (view_total _ _ _ _ _ _ _ _ _ _ _ _ _ _ _ V), Hf.
    cbn [mbind outcome_bind]. rewrite slice_Ok by lia. rewrite (proj2 (Z.leb_gt _ _)) by lia. cbn [mbind outcome_bind]. by rewrite Ew.
  - apply Forall_lookup. intros i f Hi. destruct (Forall2_lookup_r _ _ _ _ _ H2 Hi) as ([o c] & Hp & Hk & k & _ & -> & _).
    pose proof (proj1 (Forall_lookup _ _) Hcap i _ Hp) as Hcapi. cbn in Hcapi.
    rewrite len_app, ip4_header_len by (done || apply Hk). lia.
  - intros arrivals s Pm Prep. eapply (reassembles4 le' packet ip mtu); first [exact V|eassumption|lia].
Qed.
End Theorems.

(** ** The theorem on the timer wheel *)
Definition sample_packet4 : list Z :=
  [69; 0; 0; 100; 0; 0; 0; 0; 64; 17; 142; 77; 192; 0; 2; 1; 198; 51; 100; 7; 0; 53; 0; 53; 0; 80; 0; 0] ++ repeat 7 72.

Definition sample_parsed4 : ParsedIpPacket := {|
  version := IpV4; source := V4 [192; 0; 2; 1]; destination := V4 [198; 51; 100; 7]; next_header := 17;
  hop_limit := 64; fragment := None; fragment_payload := None; payload := drop 20 sample_packet4 |}.

Definition sample_arrivals4 : list (list Z * Z) :=
  match fragment_outbound_ip_packet true sample_packet4 68 9 with
  | Ok fs => zip (reverse fs) [1000; 2000; 2000; 3000]
  | _ => []
  end.

(** The fragments of 100 bytes at an MTU of 68, the last one first. *)
Lemma ipv4_fragment_roundtrip_witness : len sample_arrivals4 = 2 /\
  exists packet', completes (budget Mobile) nothing_held false (sample_reassembler, ledger_new)
    (datagram_key sample_parsed4 9) sample_arrivals4 packet' /\
  parse_ip_packet false packet' true = Ok sample_parsed4 /\ same_but_fragment_fields sample_packet4 packet' 100.
Proof.
  split; [vm_compute; reflexivity|].
  destruct (ipv4_fragment_roundtrip (W := TimerWheel FragmentKey) (budget Mobile) nothing_held mobile_range true false
    sample_packet4 68 9 100 sample_parsed4) as (fs & Ef & _ & R).
  - repeat constructor; discriminate.
  - unfold is_u32, u32_max. lia.
  - vm_compute. reflexivity.
  - reflexivity.
  - reflexivity.
  - vm_compute. reflexivity.
  - lia.
  - apply R.
    + transitivity (match fragment_outbound_ip_packet true sample_packet4 68 9 with Ok fs => fs | _ => [] end);
        [|rewrite Ef; reflexivity].
      transitivity (reverse (map fst sample_arrivals4)); [symmetry; apply reverse_Permutation|].
      vm_compute. reflexivity.
    + destruct sample_reassembler_inv as (_ & I & Hs & Hi & Hm). split.
      * exact I.
      * change (fr_assemblies sample_reassembler !! datagram_key sample_parsed4 9 = None). rewrite Hm. apply lookup_empty.
      * vm_compute. repeat split; discriminate.
      * change (tq_ids (fr_expiry sample_reassembler) + len sample_arrivals4 <= u64_max). rewrite Hi. vm_compute. discriminate.
      * change (fr_next_eviction_serial sample_reassembler + len sample_arrivals4 <= u64_max). rewrite Hs. vm_compute. discriminate.
      * vm_compute. repeat split; discriminate.
Defined.
