(* ===== verification/FragmentChain.v ===== *)
(** Chains of IPv6 extension headers, as the parser ([wire.rs] of [sail-netstack]), the
    fragmentation ([ip/fragmentation.rs]) and the reassembly ([ip/reassembly.rs])
    walk them: the walks meet, and a chain the parser accepts it accepts elsewhere. *)
From S2P Require Import Prelude StateMonad Checksum IpWire Budget Timer TimerRefine TimerInterface Leases ExpiryIndex.
From S2P Require Import Fragmentation FragmentTheorems Reassembly ReassemblyInv ReassemblyOps ReassemblyIngest FragmentTrain.
From stdpp Require Import list sorting gmap.
#[local] Open Scope Z_scope.

Lemma bytes_ok_get l : bytes_ok l <-> forall i x, get l i = Some x -> is_u8 x.
Proof.
  split; [intros B i x; by apply get_u8|]. intros H. apply Forall_lookup. intros i x Hi. apply (H (Z.of_nat i)).
  unfold get. by rewrite (proj2 (Z.leb_le _ _)), Nat2Z.id by lia.
Qed.

(** ** Chains of extension headers *)

(** The length of the extension header [nh] at [off]. *)
Definition ext_len (p : list Z) (nh off : Z) : option Z :=
  if (nh =? 0) || (nh =? 43) || (nh =? 60) then units ← get p (off + 1); Some ((units + 1) * 8)
  else if nh =? 51 then units ← get p (off + 1); Some ((units + 2) * 4)
  else None.

(** From [nh] at [off] over the headers [rs] to [nh'] at [off']. *)
Fixpoint walk (p : list Z) (nh off : Z) (rs : list (Z * Z * Z)) (nh' off' : Z) : Prop :=
  match rs with
  | [] => nh' = nh /\ off' = off
  | (h, o, l) :: rs => h = nh /\ o = off /\ ext_len p nh off = Some l /\ 8 <= l /\
      exists next, get p off = Some next /\ walk p next (off + l) rs nh' off'
  end.

Lemma ext_len_8 p nh off l : bytes_ok p -> ext_len p nh off = Some l -> 8 <= l.
Proof.
  intros B. unfold ext_len. destruct (_ || _ || _); [|destruct (nh =? 51); [|done]];
    (destruct (get p (off + 1)) as [u|] eqn:G; [|done]); cbn; intros [= <-]; pose proof (get_u8 _ _ _ B G); width.
Qed.

Lemma walk_le p nh off rs nh' off' : walk p nh off rs nh' off' -> off + 8 * len rs <= off'.
Proof.
  revert nh off. induction rs as [|[[h o] l] rs IH]; cbn [walk]; intros nh off; [intros [_ ->]; change (len []) with 0; lia|].
  intros (_ & _ & _ & Hl & next & _ & W). apply IH in W. rewrite len_cons. lia.
Qed.

(** What the fragmentation walks. *)
Lemma records_walk rounds p total nh off acc nh' rs' : bytes_ok p ->
  extension_records rounds p total nh off acc = Ok (nh', rs') -> off <= total ->
  exists rs off', rs' = acc ++ rs /\ walk p nh off rs nh' off' /\ off' <= total.
Proof.
  intros B. revert nh off acc. induction rounds as [|rounds IH]; intros nh off acc H Ho; cbn [extension_records] in H.
  { injection H as <- <-. exists [], off. by rewrite app_nil_r. }
  cbv zeta beta in H.
  assert (forall l, ext_len p nh off = Some l ->
    (if total <? off + l then Err Truncated
     else next ← idx p off; extension_records rounds p total next (off + l) (acc ++ [(nh, off, l)])) = Ok (nh', rs') ->
    exists rs off', rs' = acc ++ rs /\ walk p nh off rs nh' off' /\ off' <= total) as Step.
  { intros l El Hs. pose proof (ext_len_8 _ _ _ _ B El). ok_step Hs; [done|]. ok_step Hs. apply Z.ltb_ge in Hb.
    apply idx_inv in Hx. destruct (IH _ _ _ Hs Hb) as (rs & off' & -> & Wk & Le).
    exists ((nh, off, l) :: rs), off'. rewrite <- (assoc_L (++)). split_and!; [done| |done]. cbn [walk]. eauto 10. }
  ok_step H; [ok_step H; [done|]; ok_step H|ok_step H; [ok_step H; [done|]; ok_step H|ok_step H; [done|]]].
  - apply idx_inv in Hx. eapply Step; [|exact H]. unfold ext_len. by rewrite Hb, Hx.
  - apply idx_inv in Hx. eapply Step; [|exact H]. unfold ext_len. by rewrite Hb, Hb0, Hx.
  - injection H as <- <-. exists [], off. rewrite app_nil_r. split_and!; [done|by split|done].
Qed.

(** The walk of the first [k] headers. *)
Lemma walk_app p nh off rs1 rs2 nh' off' : walk p nh off (rs1 ++ rs2) nh' off' ->
  exists nhk offk, walk p nh off rs1 nhk offk /\ walk p nhk offk rs2 nh' off'.
Proof.
  revert nh off. induction rs1 as [|[[h o] l] rs1 IH]; intros nh off; cbn [walk app]; [by exists nh, off|].
  intros (-> & -> & El & Hl & next & G & W). destruct (IH _ _ W) as (nhk & offk & W1 & W2). exists nhk, offk. eauto 10.
Qed.

Lemma walk_unique p nh off rs a b c d : walk p nh off rs a b -> walk p nh off rs c d -> a = c /\ b = d.
Proof.
  revert nh off. induction rs as [|[[h o] l] rs IH]; intros nh off; cbn [walk]; [by intros [-> ->] [-> ->]|].
  intros (_ & _ & _ & _ & x & Gx & W) (_ & _ & _ & _ & y & Gy & W'). rewrite Gx in Gy. injection Gy as <-. by eapply IH.
Qed.

Lemma walk_snoc p nh off rs h o l nh' off' : walk p nh off (rs ++ [(h, o, l)]) nh' off' ->
  off <= o /\ off' = o + l /\ 8 <= l /\ get p o = Some nh' /\ walk p nh off rs h o.
Proof.
  intros (nhk & offk & W1 & W2)%walk_app. cbn in W2. destruct W2 as (-> & -> & _ & Hl & next & G & -> & ->).
  pose proof (walk_le _ _ _ _ _ _ W1) as Hw. pose proof (len_nonneg rs). split_and!; done || lia.
Qed.

(** Two packets that agree up to the last header of a walk, but for the number
    that follows it. *)
Lemma walk_transfer p f nh off rs nh' off' q x :
  walk p nh off rs nh' off' -> rs <> [] -> (forall h o l rs', rs = rs' ++ [(h, o, l)] -> o = q) ->
  (forall i, off <= i < off' -> i <> q -> get f i = get p i) -> get f q = Some x -> walk f nh off rs x off'.
Proof.
  revert nh off. induction rs as [|[[h o] l] rs IH]; intros nh off W Hne Hq Hg Hx; [done|].
  cbn [walk] in *. destruct W as (-> & -> & El & Hl & next & G & W). pose proof (walk_le _ _ _ _ _ _ W) as Hw.
  destruct rs as [|r rs].
  - assert (off = q) as -> by (by apply (Hq nh off l [])). destruct W as [-> ->]. split_and!; try done.
    + rewrite <- El. unfold ext_len. by rewrite Hg by lia.
    + exists x. done.
  - assert (off + l <= q) as Hle.
    { destruct (exists_last (l := r :: rs)) as (rs' & [[h o] l'] & E); [done|]. rewrite E in W.
      apply walk_snoc in W as (W & _). rewrite <- (Hq h o l' ((nh, off, l) :: rs')); [lia|]. by rewrite E. }
    assert (ext_len f nh off = Some l) as Elf by (rewrite <- El; unfold ext_len; rewrite len_cons in Hw; pose proof (len_nonneg rs); by rewrite Hg by lia).
    split_and!; try done. exists next. rewrite len_cons in Hw. pose proof (len_nonneg rs). split; [rewrite Hg by lia; done|].
    apply IH; try done; [|intros i Hi; apply Hg; lia].
    intros h o l' rs' E. apply (Hq h o l' ((nh, off, l) :: rs')). by rewrite E.
Qed.

(** Where the fragment header goes: after the headers [rs], whose last one, or
    else the fixed header, has at [prev] the number of what follows. *)
Record insertion (p : list Z) (rs : list (Z * Z * Z)) (ins prev orig nh : Z) : Prop := {
  in_first : get p 6 = Some nh;
  in_walk : walk p nh 40 rs orig ins;
  in_prev : get p prev = Some orig;
  in_last : (rs = [] /\ prev = 6) \/ (exists rs' h l, rs = rs' ++ [(h, prev, l)])
}.

Lemma in_bounds p rs ins prev orig nh : insertion p rs ins prev orig nh ->
  40 <= ins /\ (prev = 6 \/ 40 <= prev) /\ 0 <= prev < ins.
Proof.
  intros [_ W _ L]. pose proof (walk_le _ _ _ _ _ _ W) as Hw. pose proof (len_nonneg rs).
  destruct L as [[-> ->]|(rs' & h & l & ->)]; [lia|]. apply walk_snoc in W. lia.
Qed.

(** The chain behind the insertion: all of its headers, [rs] and then [rs2]. *)
Record chained (p : list Z) (total : Z) (rs rs2 : list (Z * Z * Z)) (nh nhe offe : Z) : Prop := {
  ch_records : extension_records 8 p total nh 40 [] = Ok (nhe, rs ++ rs2);
  ch_walk : walk p nh 40 (rs ++ rs2) nhe offe;
  ch_end : offe <= total;
  ch_last : is_extension nhe = false;
  ch_first : rs = [] -> forall r, head rs2 = Some r -> r.1.1 <> 0
}.

Lemma rposition_nonneg {A} (f : A -> bool) l i : rposition f l = Some i -> 0 <= i.
Proof. revert i. induction l as [|x l IH]; intros i; cbn; [done|]. destruct (rposition f l) as [k|]; [|destruct (f x)]; intros [= <-]; [specialize (IH _ eq_refl)|]; lia. Qed.

Lemma included_none records :
  match rposition (fun r : Z * Z * Z => r.1.1 =? 43) records with
  | Some routing => routing + 1 | None => take_while_count (fun r : Z * Z * Z => r.1.1 =? 0) records end = 0 ->
  forall r, head records = Some r -> r.1.1 <> 0.
Proof.
  destruct (rposition _ records) as [i|] eqn:E; [apply rposition_nonneg in E; lia|]. destruct records as [|r0 rs]; [done|]. intros H r [= <-].
  cbn [take_while_count] in H. intros E0. rewrite E0 in H. cbn in H. assert (forall l, 0 <= take_while_count (fun r : Z * Z * Z => r.1.1 =? 0) l) as N.
  { induction l as [|x l IH]; cbn; [done|]. destruct (_ =? 0); lia. }
  specialize (N rs). lia.
Qed.

Lemma insertion_spec p n ins prev orig : bytes_ok p -> idx_be16 (E := WireError) p 4 = Ok n -> 40 <= 40 + n ->
  ipv6_fragment_insertion p = Ok (ins, prev, orig) ->
  exists rs nh, insertion p rs ins prev orig nh /\ ins <= 40 + n /\ exists rs2 nhe offe, chained p (40 + n) rs rs2 nh nhe offe.
Proof.
  intros B En Hn H. unfold ipv6_fragment_insertion in H. ok_step H. rewrite En in Hx. injection Hx as <-. ok_step H. ok_step H.
  ok_step H. destruct x1 as [nh_end records]. ok_step H; [done|]. cbv zeta in H.
  set (included := match rposition (fun r : Z * Z * Z => r.1.1 =? 43) records with Some routing => routing + 1
    | None => take_while_count (fun r : Z * Z * Z => r.1.1 =? 0) records end) in *.
  ok_step H. destruct x1 as [ins' prev'].
  ok_step H. injection H as -> -> ->. apply idx_inv in Hx0 as G6, Hx3 as Gp.
  unfold checked_add in Hx. destruct (40 + n <=? u64_max); [|done]. injection Hx as <-.
  destruct (records_walk _ _ _ _ _ _ _ _ B Hx1 Hn) as (rs & off' & -> & W & Le). cbn [app] in *.
  ok_step Hx2.
  { injection Hx2 as <- <-. exists [], x0. split; [split; [done|by split; [congruence|]|done|by left]|]. split; [lia|].
    exists rs, nh_end, off'. split; try done. intros _. apply Z.eqb_eq in Hb0. by apply included_none. }
  ok_step Hx2. match goal with r : Z * Z * Z |- _ => destruct r as [[h o] l] end. injection Hx2 as <- <-. cbn [fst snd] in *.
  apply idx_inv in Hx as Gr. unfold get in Gr. destruct (0 <=? _); [|done].
  apply take_drop_middle in Gr. pose proof W as W0. rewrite <- Gr, cons_middle, (assoc_L (++)) in W.
  apply walk_app in W as (nhk & offk & W1 & W2). pose proof (walk_le _ _ _ _ _ _ W2) as Hw. pose proof (len_nonneg (drop (S (Z.to_nat (included - 1))) rs)).
  apply walk_snoc in W1 as W1'. destruct W1' as (_ & -> & _ & Go & _). rewrite Gp in Go. injection Go as <-.
  eexists _, x0. split; [split; [done|exact W1|done|right; eauto]|]. split; [lia|].
  exists (drop (S (Z.to_nat (included - 1))) rs), nh_end, off'. rewrite cons_middle, (assoc_L (++)) in Gr.
  split; rewrite ?Gr; try done. by intros [_ ?]%app_nil.
Qed.

(** The parser meets the fragment header the walk leads to. *)
Lemma chain_meets rounds f enforce total src dst nh pointer off rs ins ip : walk f nh off rs 44 ins ->
  parse_ipv6_chain rounds f enforce total src dst nh pointer off None None = Ok ip -> exists info, fragment ip = Some info.
Proof.
  revert nh pointer off rs. induction rounds as [|rounds IH]; intros nh pointer off rs W H; [done|].
  cbn [parse_ipv6_chain] in H. cbv zeta beta in H. destruct rs as [|[[h o] l] rs]; cbn [walk] in W.
  - destruct W as [<- ->]. cbn [Z.eqb Pos.eqb andb orb] in H. repeat ok_step H; subst; cbn; eauto.
    apply chain_keeps in H as [-> _]. eauto.
  - destruct W as (_ & _ & El & _ & next & G & W). unfold ext_len in El.
    assert (forall l', ext_len f nh off = Some l' -> (nx ← idx f off;
      parse_ipv6_chain rounds f enforce total src dst nx off (off + l') None None) = Ok ip -> exists info, fragment ip = Some info) as Step.
    { intros l' El' Hs. unfold ext_len in El'. rewrite El in El'. injection El' as <-. ok_step Hs. apply idx_inv in Hx.
      rewrite G in Hx. injection Hx as <-. eauto. }
    ok_step H; [by repeat ok_step H|]. ok_step H; [|ok_step H; [|done]].
    + ok_step H. ok_step H. ok_step H. ok_step H. ok_step H; [by repeat ok_step H|]. ok_step H. apply idx_inv in Hx0.
      eapply Step; [|exact H]. unfold ext_len. by rewrite Hb0, Hx0.
    + ok_step H. ok_step H. ok_step H. apply idx_inv in Hx0. eapply Step; [|exact H]. unfold ext_len. by rewrite Hb0, Hb1, Hx0.
Qed.

(** So does the reassembler. *)
Lemma loop_meets rounds f nh off q0 rs ins h q proto : walk f nh off rs 44 ins ->
  ipv6_fragment_header_loop rounds f nh off q0 = Ok (h, q, proto) ->
  h = sub f 0 ins /\ 0 <= ins + 8 <= len f /\ get f ins = Some proto /\
  (rs = [] -> q = Some q0) /\ (forall rs' h' o l, rs = rs' ++ [(h', o, l)] -> q = Some o).
Proof.
  revert nh off q0 rs. induction rounds as [|rounds IH]; intros nh off q0 rs W H; [done|].
  cbn [ipv6_fragment_header_loop] in H. destruct rs as [|[[h1 o1] l] rs]; cbn [walk] in W.
  - destruct W as [<- ->]. cbn [Z.eqb Pos.eqb] in H. ok_step H; [done|]. ok_step H. ok_step H. injection H as <- <- <-.
    apply slice_inv in Hx as (-> & L). apply idx_inv in Hx0. apply Z.ltb_ge in Hb. split_and!; try done; try lia.
    intros [] * [=].
  - destruct W as (-> & -> & El & _ & next & G & W).
    assert ((nh =? 44) = false) as E44.
    { unfold ext_len in El. destruct (Z.eqb_spec nh 44) as [->|]; [done|done]. }
    rewrite E44 in H. ok_step H. assert (x = l) as ->.
    { unfold ext_len in El. ok_step Hx; [|ok_step Hx; [|done]]; ok_step Hx; apply idx_inv in Hx0; rewrite Hx0 in El; cbn in El; ok_step Hx; congruence. }
    ok_step H; [done|]. ok_step H. apply idx_inv in Hx0. rewrite G in Hx0. injection Hx0 as <-.
    destruct (IH _ _ _ _ W H) as (E1 & E2 & E3 & E4 & E5). split_and!; try done; try lia.
    intros rs' h' o l' E. destruct rs' as [|r rs']; [injection E as -> -> -> ->; by apply E4|].
    injection E as _ E. by eapply E5.
Qed.

(** ** What the parser asks of a header *)

(** Where an option is only matters to the pointer of an error. *)
Lemma validate_loop_offset fuel options a a' m e o :
  validate_ipv6_options_loop fuel options a m e o = Ok tt -> validate_ipv6_options_loop fuel options a' m e o = Ok tt.
Proof.
  revert o. induction fuel as [|fuel IH]; intros o H; [done|]. cbn [validate_ipv6_options_loop] in *. cbv zeta in *.
  destruct (o <? len options); [|done]. ok_step H. rewrite Hx. cbn [mbind outcome_bind]. destruct (x =? 0); [by apply IH|].
  ok_step H. rewrite Hx0. cbn [mbind outcome_bind]. ok_step H. rewrite Hx1. cbn [mbind outcome_bind]. destruct (x =? 1).
  - ok_step H. rewrite Hx2. cbn [mbind outcome_bind]. destruct (any_nonzero _); [done|by apply IH].
  - destruct (_ && _); [by repeat ok_step H|by apply IH].
Qed.

(** The header [nh] of length [l] at [off]; [d] is the destination of the packet. *)
Record header_ok (p : list Z) (total : Z) (d : list Z) (nh off l : Z) : Prop := {
  ho_first : nh = 0 -> off = 40;
  ho_end : off + l <= total;
  ho_routing : nh = 43 -> get p (off + 3) = Some 0;
  ho_options : nh = 0 \/ nh = 60 -> validate_ipv6_options (sub p (off + 2) (off + l)) (off + 2) (is_multicast6 d) true = Ok tt
}.

(** The same bytes, but for the number of the header that follows, somewhere else. *)
Lemma header_moved p f total total' d nh off off' l : header_ok p total d nh off l -> 0 <= off -> 0 <= off' -> 8 <= l ->
  (forall i, 0 < i < l -> get f (off' + i) = get p (off + i)) -> off' + l <= total' -> total' <= len f -> off + l <= len p ->
  (nh = 0 -> off' = 40) -> header_ok f total' d nh off' l.
Proof.
  intros [_ _ Hr Ho] H0 H0' Hl G Ht Hf Hp H40. split; [done|done|intros E; rewrite G by lia; auto|]. intros E. specialize (Ho E).
  assert (sub f (off' + 2) (off' + l) = sub p (off + 2) (off + l)) as ->.
  { apply get_ext; rewrite !len_sub by lia; [lia|]. intros i Hi. rewrite !get_sub by lia. rewrite <- !Z.add_assoc. apply G. lia. }
  unfold validate_ipv6_options in *. by eapply validate_loop_offset.
Qed.

Lemma require_Ok p off n total : require p off n total = Ok tt <-> off + n <= u64_max /\ off + n <= total /\ off + n <= len p.
Proof.
  unfold require, checked_add. destruct (Z.leb_spec (off + n) u64_max); cbn; [|split; [done|lia]].
  destruct (Z.ltb_spec total (off + n)), (Z.ltb_spec (len p) (off + n)); cbn; split; try done; lia.
Qed.

Section Parsing.
Context (p : list Z) (total : Z) (s d : list Z) (fr : option FragmentInfo) (fp : option (list Z)).
Context (Hp : total <= len p) (Hu : total <= u64_max).
Abbreviation chain rounds nh pointer off := (parse_ipv6_chain rounds p true total s d nh pointer off fr fp).

Lemma chain_pointer rounds nh pointer pointer' off ip : chain rounds nh pointer off = Ok ip -> chain rounds nh pointer' off = Ok ip.
Proof. destruct rounds; [done|]. cbn [parse_ipv6_chain]. cbv zeta. destruct (_ && _); [intros H; by repeat ok_step H|done]. Qed.

(** One header more. *)
Lemma chain_header rounds nh pointer off l ip : 0 <= off -> 8 <= l -> ext_len p nh off = Some l ->
  chain (S rounds) nh pointer off = Ok ip <->
  header_ok p total d nh off l /\ exists next, get p off = Some next /\ chain rounds next off (off + l) = Ok ip.
Proof.
  intros H0 Hl El. cbn [parse_ipv6_chain]. cbv zeta. unfold ext_len in El.
  destruct ((nh =? 0) || (nh =? 43) || (nh =? 60)) eqn:E; [|destruct (Z.eqb_spec nh 51) as [->|]; [|done]];
    (destruct (get p (off + 1)) as [u|] eqn:G; [|done]); cbn in El; injection El as El.
  - destruct ((nh =? 0) && (negb (off =? 40) && true)) eqn:Ez.
    { split; [intros H; by repeat ok_step H|]. intros [[H40 _ _ _] _]. lia. }
    rewrite andb_true_r in *. split.
    + intros H. ok_step H. ok_step H. rewrite (idx_get _ _ _ G) in Hx0. injection Hx0 as <-. rewrite El in H. ok_step H.
      destruct x, x0. apply require_Ok in Hx, Hx0. ok_step H. ok_step H; [by repeat ok_step H|]. ok_step H. ok_step H. apply idx_inv in Hx3.
      split; [|by exists x1]. subst x. split; [lia|lia| |].
      * intros ->. cbn [Z.eqb Pos.eqb] in Hx1. ok_step Hx1. apply idx_inv in Hx4. injection Hx1 as Hx1. apply negb_false_iff, Z.eqb_eq in Hx1. congruence.
      * intros Hn. replace ((nh =? 0) || (nh =? 60)) with true in Hx2 by lia. ok_step Hx2. apply slice_inv in Hx4 as (-> & _). by destruct x0.
    + intros [[_ He Hr Ho] (next & Gn & H)]. rewrite (proj2 (require_Ok _ _ 2 _)) by lia. cbn [mbind outcome_bind]. rewrite (idx_get _ _ _ G).
      cbn [mbind outcome_bind]. rewrite El, (proj2 (require_Ok _ _ l _)) by lia. cbn [mbind outcome_bind].
      assert ((if nh =? 43 then left ← idx p (off + 3); mret (negb (left =? 0)) else mret false) = Ok (E := WireError) false) as ->.
      { destruct (Z.eqb_spec nh 43) as [->|]; [|done]. by rewrite (idx_get _ _ _ (Hr eq_refl)). }
      cbn [mbind outcome_bind]. rewrite slice_Ok by lia. cbn [mbind outcome_bind].
      assert ((if (nh =? 0) || (nh =? 60) then validate_ipv6_options (sub p (off + 2) (off + l)) (off + 2) (is_multicast6 d) true else mret tt) = Ok tt) as ->.
      { destruct ((nh =? 0) || (nh =? 60)) eqn:En; [|done]. apply Ho. lia. }
      cbn [mbind outcome_bind]. by rewrite (idx_get _ _ _ Gn).
  - cbn [Z.eqb Pos.eqb andb]. split.
    + intros H. ok_step H. ok_step H. rewrite (idx_get _ _ _ G) in Hx0. injection Hx0 as <-. rewrite El in H. ok_step H. ok_step H.
      destruct x, x0. apply require_Ok in Hx, Hx0. apply idx_inv in Hx1. split; [|by exists x1]. split; lia.
    + intros [[_ He _ _] (next & Gn & H)]. rewrite (proj2 (require_Ok _ _ 2 _)) by lia. cbn [mbind outcome_bind]. rewrite (idx_get _ _ _ G).
      cbn [mbind outcome_bind]. rewrite El, (proj2 (require_Ok _ _ l _)) by lia. cbn [mbind outcome_bind]. by rewrite (idx_get _ _ _ Gn).
Qed.

(** A chain that is accepted is accepted header by header, and the other way. *)
Abbreviation headers_ok rs := (Forall (fun r : Z * Z * Z => header_ok p total d r.1.1 r.1.2 r.2) rs).

Lemma chain_through rs rounds nh pointer off nh' off' ip : 0 <= off -> walk p nh off rs nh' off' -> chain rounds nh pointer off = Ok ip ->
  (length rs < rounds)%nat /\ headers_ok rs /\ chain (rounds - length rs) nh' pointer off' = Ok ip.
Proof.
  revert rounds nh pointer off. induction rs as [|[[h o] l] rs IH]; intros rounds nh pointer off H0 W H; cbn [walk] in W.
  { destruct W as [-> ->]. destruct rounds; [done|]. split; [cbn; lia|]. split; [constructor|done]. }
  destruct W as (-> & -> & El & Hl & next & G & W). destruct rounds as [|rounds]; [done|].
  apply (chain_header _ _ _ _ _ _ H0 Hl El) in H as [Ho (next' & G' & H)]. rewrite G in G'. injection G' as <-.
  destruct (IH rounds next off (off + l) ltac:(lia) W H) as (I1 & I2 & I3). cbn [length Nat.sub].
  split; [lia|]. split; [by constructor|]. by eapply chain_pointer.
Qed.

Lemma chain_resume rs rounds nh pointer off nh' off' ip : 0 <= off -> walk p nh off rs nh' off' -> headers_ok rs ->
  chain rounds nh' pointer off' = Ok ip -> chain (length rs + rounds) nh pointer off = Ok ip.
Proof.
  revert nh pointer off. induction rs as [|[[h o] l] rs IH]; intros nh pointer off H0 W F H; cbn [walk] in W.
  { by destruct W as [-> ->]. }
  destruct W as (-> & -> & El & Hl & next & G & W). apply Forall_cons in F as [Ho F]. cbn [length Nat.add].
  apply (chain_header _ _ _ _ _ _ H0 Hl El). split; [exact Ho|]. exists next. split; [done|].
  eapply IH; [lia|done|done|]. by eapply chain_pointer.
Qed.

(** The two bytes of a header that its length is read from. *)
Lemma chain_reads rounds nh pointer off l q ip : ext_len q nh off = Some l -> forall off1, chain rounds nh pointer off1 = Ok ip -> off1 + 2 <= total.
Proof.
  intros El off1. destruct rounds as [|rounds]; [done|]. cbn [parse_ipv6_chain]. cbv zeta. unfold ext_len in El.
  destruct (_ && _); [intros H; by repeat ok_step H|].
  destruct (_ || _ || _); [|destruct (nh =? 51); [|done]]; intros H; ok_step H; destruct x; apply require_Ok in Hx; lia.
Qed.
End Parsing.

(** A walk depends on the bytes it reads. *)
Lemma walk_shift p f k nh off rs nh' off' : walk p nh off rs nh' off' -> (forall i, off <= i < off' -> get f (i + k) = get p i) ->
  walk f nh (off + k) (map (fun r => (r.1.1, r.1.2 + k, r.2)) rs) nh' (off' + k).
Proof.
  revert nh off. induction rs as [|[[h o] l] rs IH]; intros nh off W G; cbn [walk map] in *; [by destruct W as [-> ->]|].
  destruct W as (-> & -> & El & Hl & next & Gn & W). pose proof (walk_le _ _ _ _ _ _ W). pose proof (len_nonneg rs). cbn [fst snd].
  split_and!; [done|done| |done|].
  - rewrite <- El. unfold ext_len. replace (off + k + 1) with (off + 1 + k) by lia. by rewrite G by lia.
  - exists next. split; [rewrite G by lia; done|]. replace (off + k + l) with (off + l + k) by lia. apply IH; [done|]. intros i Hi. apply G. lia.
Qed.

Lemma walk_more p q nh off rs nh' off' : (forall i x, get p i = Some x -> get q i = Some x) -> walk p nh off rs nh' off' -> walk q nh off rs nh' off'.
Proof.
  intros G. revert nh off. induction rs as [|[[h o] l] rs IH]; intros nh off W; cbn [walk] in *; [done|].
  destruct W as (-> & -> & El & Hl & next & Gn & W). split_and!; [done|done| |done|by exists next; eauto].
  rewrite <- El. unfold ext_len in *. destruct (get p (off + 1)) as [u|] eqn:E; [by rewrite (G _ _ E)|].
  by destruct (_ || _ || _), (nh =? 51).
Qed.

(** A chain of [p] whose copy [k] bytes further on, as far as it goes, is accepted. *)
Lemma chain_covers p f s d fr fp k rs rounds nh pointer off nhe offe ip : 0 <= off -> 0 <= k -> len f <= u64_max ->
  walk p nh off rs nhe offe -> is_extension nhe = false -> (forall i, off <= i -> i + k < len f -> get f (i + k) = get p i) ->
  parse_ipv6_chain rounds f true (len f) s d nh pointer (off + k) fr fp = Ok ip -> (length rs < rounds)%nat /\ offe + k <= len f.
Proof.
  intros H0 Hk Hu. revert rounds nh pointer off H0. induction rs as [|[[h o] l] rs IH]; intros rounds nh pointer off H0 W Hx G H; cbn [walk] in W.
  { destruct W as [-> ->]. destruct rounds; [done|]. rewrite parse_ipv6_chain_end in H by done. ok_step H. ok_step H. apply slice_inv in Hx1. cbn. lia. }
  destruct W as (-> & -> & El & Hl & next & Gn & W). pose proof (chain_reads f (len f) s d fr fp _ _ _ _ _ p ip El _ H) as H2.
  assert (ext_len f nh (off + k) = Some l) as Elf.
  { rewrite <- El. unfold ext_len. replace (off + k + 1) with (off + 1 + k) by lia. by rewrite G by lia. }
  destruct rounds as [|rounds]; [done|].
  apply (chain_header f (len f) s d fr fp ltac:(lia) Hu rounds nh pointer (off + k) l ip ltac:(lia) Hl Elf) in H as [Ho (next' & G' & H)].
  rewrite G, Gn in G' by lia. injection G' as <-. replace (off + k + l) with (off + l + k) in H by lia.
  apply (IH rounds next (off + k) (off + l)) in H; [cbn; lia|lia|done|done|]. intros i Hi. apply G. lia.
Qed.

(** Where the headers of a walk lie. *)
Lemma walk_range p nh off rs nh' off' : walk p nh off rs nh' off' ->
  Forall (fun r : Z * Z * Z => off <= r.1.2 /\ 8 <= r.2 /\ r.1.2 + r.2 <= off') rs.
Proof.
  revert nh off. induction rs as [|[[h o] l] rs IH]; intros nh off W; cbn [walk] in W; [constructor|].
  destruct W as (_ & -> & _ & Hl & next & _ & W). pose proof (walk_le _ _ _ _ _ _ W). pose proof (len_nonneg rs).
  constructor; [cbn; lia|]. eapply Forall_impl; [by eapply IH|]. cbn. lia.
Qed.

Lemma walk_head p nh off rs nh' off' r : walk p nh off rs nh' off' -> r ∈ rs -> r.1.2 = off -> head rs = Some r.
Proof.
  destruct rs as [|[[h o] l] rs]; cbn [walk]; [by intros _ ?%not_elem_of_nil|]. intros (_ & -> & _ & Hl & next & _ & W) [->|Hr]%elem_of_cons E; [done|].
  apply walk_range in W. rewrite Forall_forall in W. specialize (W r Hr). lia.
Qed.

(** ** Chains of a packet that is accepted *)
Abbreviation all_ok p total d rs := (Forall (fun r : Z * Z * Z => header_ok p total d r.1.1 r.1.2 r.2) rs).

(** No hop-by-hop header is left behind the insertion. *)
Lemma no_hop_behind p total d rs rs2 ins prev orig nh nhe offe : insertion p rs ins prev orig nh -> chained p total rs rs2 nh nhe offe ->
  walk p orig ins rs2 nhe offe -> all_ok p total d (rs ++ rs2) -> Forall (fun r => r.1.1 <> 0) rs2.
Proof.
  intros In Ch W [_ F2]%Forall_app. apply Forall_forall. intros r Hr E. rewrite Forall_forall in F2.
  pose proof (ho_first _ _ _ _ _ _ (F2 r Hr) E) as E40. pose proof (walk_le _ _ _ _ _ _ (in_walk _ _ _ _ _ _ In)) as Hw.
  pose proof (walk_range _ _ _ _ _ _ W) as Rg. rewrite Forall_forall in Rg. specialize (Rg r Hr).
  assert (rs = []) as -> by (destruct rs; [done|]; rewrite len_cons in Hw; pose proof (len_nonneg rs); lia).
  destruct (in_walk _ _ _ _ _ _ In) as [_ ->]. apply (ch_first _ _ _ _ _ _ _ Ch eq_refl r); [|done]. by eapply walk_head.
Qed.

(** The headers of an accepted packet, in the part of it that its length covers. *)
Lemma accepted_headers packet n s d nh rs nh' off' ip : 0 <= n <= 65535 -> 40 + n <= len packet ->
  walk (sub packet 0 (40 + n)) nh 40 rs nh' off' -> off' <= 40 + n ->
  parse_ipv6_chain 8 packet true (40 + n) s d nh 6 40 None None = Ok ip ->
  (length rs < 8)%nat /\ all_ok (sub packet 0 (40 + n)) (40 + n) d rs.
Proof.
  intros Rn Ln W Ho H. set (p := sub packet 0 (40 + n)) in *. assert (len p = 40 + n) as Lp by (unfold p; rewrite len_sub; lia).
  assert (forall i, 0 <= i < 40 + n -> get p i = get packet i) as Gp by (intros i Hi; unfold p; rewrite get_sub by lia; done).
  assert (walk packet nh 40 rs nh' off') as W'.
  { eapply walk_more; [|exact W]. intros i x Hx. rewrite <- Gp; [done|]. apply get_inv in Hx. lia. }
  destruct (chain_through packet (40 + n) s d None None Ln ltac:(unfold u64_max; lia) rs 8 nh 6 40 nh' off' ip ltac:(lia) W' H) as (H1 & H2 & _).
  split; [done|]. pose proof (walk_range _ _ _ _ _ _ W) as Rg. rewrite !Forall_forall in *. intros r Hr. specialize (H2 r Hr). specialize (Rg r Hr).
  eapply (header_moved packet p (40 + n)); [exact H2|lia|lia|lia| |lia|lia|lia|apply H2]. intros i Hi. apply Gp. lia.
Qed.

