(* ===== verification/FragmentRoundtrip6.v ===== *)
(** Source fragmentation and reassembly of IPv6 packets ([ip/fragmentation.rs]
    and [ip/reassembly.rs] of [sail-netstack]): the walks of the two files over the
    extension headers meet, and the fragments give back the very bytes. *)
From S2P Require Import Prelude StateMonad Checksum IpWire Budget Timer TimerRefine TimerInterface Leases ExpiryIndex.
From S2P Require Import Pmtu Fragmentation FragmentTheorems Reassembly ReassemblyInv ReassemblyOps ReassemblyIngest FragmentTrain.
From S2P Require Import ReassemblyTheorems FragmentRoundtrip FragmentChain.
From stdpp Require Import list sorting gmap.
#[local] Open Scope Z_scope.

(** ** The pieces *)
Fixpoint offsets (n index : Z) (cs : list (list Z)) : list (Z * list Z) :=
  match cs with [] => [] | c :: cs => (index * n, c) :: offsets n (index + 1) cs end.

Lemma chunks_tile fuel n index l : 0 < n -> (8 | n) -> 0 <= index -> (length l <= fuel)%nat ->
  tiles (index * n) (index * n + len l) (offsets n index (chunks_fuel fuel (Z.to_nat n) l)) /\
  concat (offsets n index (chunks_fuel fuel (Z.to_nat n) l)).*2 = l /\
  Forall (fun q => len q.2 <= n) (offsets n index (chunks_fuel fuel (Z.to_nat n) l)).
Proof.
  intros Hn D. revert index l. induction fuel as [|fuel IH]; intros index l Hi Hl.
  { destruct l; [|cbn in Hl; lia]. cbn. rewrite len_nil. split; [lia|done]. }
  destruct l as [|x l]; [cbn; rewrite len_nil; split; [lia|done]|]. cbn [chunks_fuel offsets].
  set (r := x :: l) in *. assert (0 < len r) as Hr by (unfold r; rewrite len_cons; pose proof (len_nonneg l); lia).
  assert (length (drop (Z.to_nat n) r) <= fuel)%nat as Hd by (rewrite length_drop; unfold r in *; cbn in *; lia).
  destruct (IH (index + 1) (drop (Z.to_nat n) r)) as (T & C & F); [lia|done|].
  pose proof (take_drop (Z.to_nat n) r) as Etd.
  destruct (Z.ltb_spec n (len r)).
  - assert (len (take (Z.to_nat n) r) = n) as Lt by (rewrite len_take; lia). rewrite len_drop in T by lia.
    split_and!; [|cbn [fmap list_fmap snd concat]; by rewrite C|constructor; [cbn; lia|done]].
    cbn [tiles]. rewrite Lt. split_and!; [done|lia|done|].
    replace (index * n + n) with ((index + 1) * n) by lia. by replace (index * n + len r) with ((index + 1) * n + Z.max 0 (len r - n)) by lia.
  - assert (drop (Z.to_nat n) r = []) as Ed by (apply drop_ge; unfold len in *; lia).
    assert (take (Z.to_nat n) r = r) as Et by (apply take_ge; unfold len in *; lia). rewrite Ed, Et.
    replace (chunks_fuel fuel (Z.to_nat n) []) with (@nil (list Z)) by (by destruct fuel).
    split_and!; [cbn [tiles offsets]; split_and!; try done; lia|exact (app_nil_r r)|by constructor].
Qed.

(** The fragment that carries the piece [q], its header taken from [p]. *)
Record fragment6 (p : list Z) (total ins prev orig id : Z) (q : Z * list Z) (f : list Z) : Prop := {
  f6_offset : 0 <= q.1 <= 65535;
  f6_len : ins - 32 + len q.2 <= 65535;
  f6_parts : exists hdr, f = hdr ++ [orig; 0] ++ to_be16 (if q.1 + len q.2 <? total then Z.lor q.1 1 else q.1)
      ++ to_be32 id ++ q.2 /\ len hdr = ins /\
    get hdr prev = Some 44 /\ get hdr 4 = Some ((ins - 32 + len q.2) / 256) /\ get hdr 5 = Some ((ins - 32 + len q.2) mod 256) /\
    forall i, i <> prev -> i <> 4 -> i <> 5 -> i < ins -> get hdr i = get p i
}.

Lemma fragment6_made p payload c ins prev orig n id index f : 40 <= ins <= len p -> (prev = 6 \/ 40 <= prev) -> prev < ins ->
  0 <= index * n -> ipv6_fragment p payload c ins prev orig n id index = Ok f ->
  fragment6 p (len payload) ins prev orig id (index * n, c) f.
Proof.
  intros Hi Hp Hq Hn H. unfold ipv6_fragment in H. ok_step H. ok_step H. ok_step H. ok_step H. ok_step H. ok_step H.
  cbv zeta in H. ok_step H.
  unfold checked_mul in Hx. destruct (Z.leb_spec (index * n) u64_max); [|done]. injection Hx as <-.
  assert (forall v y e, ok_or (try_u16 v) e = Ok (E := WireError) y -> y = v /\ v <= 65535) as U16.
  { intros v y e. unfold try_u16, u16_max. destruct (Z.leb_spec v 65535); [intros [= ->]|]; done. }
  apply U16 in Hx2 as [-> U1], Hx4 as [-> U2]. clear U16.
  apply slice_inv in Hx0 as (-> & _). replace (ins - 40 + 8 + len c) with (ins - 32 + len c) in * by lia.
  assert (forall i, len x3 = ins /\ get x3 i = if (4 <=? i) && (i <? 6) then get (to_be16 (ins - 32 + len c)) (i - 4)
    else if i =? prev then Some 44 else get (sub p 0 ins) i) as G.
  { intros i. destruct (get_write _ _ _ _ i Hx1) as [L1 G1], (get_write _ _ _ _ i Hx3) as [L2 G2].
    rewrite len_sub in L1 by lia. split; [lia|]. rewrite G2, G1. cbn [len length].
    change (len (to_be16 _)) with 2. change (len [44]) with 1. change (4 + 2) with 6.
    destruct (Z.leb_spec 4 i), (Z.ltb_spec i 6), (Z.eqb_spec i prev); cbn [andb]; try lia; try done.
    all: try (replace (prev <=? i) with true by lia; replace (i <? prev + 1) with true by lia; subst; by rewrite Z.sub_diag).
    all: destruct (Z.leb_spec prev i), (Z.ltb_spec i (prev + 1)); try done; lia. }
  split; cbn [fst snd]; [lia|lia|]. exists x3. split_and!; [by rewrite <- H|apply (G 0)| | | |].
  - rewrite (proj2 (G prev)). replace ((4 <=? prev) && (prev <? 6)) with false by lia. by rewrite Z.eqb_refl.
  - by rewrite (proj2 (G 4)).
  - by rewrite (proj2 (G 5)).
  - intros i H1 H2 H3 H4. rewrite (proj2 (G i)). replace ((4 <=? i) && (i <? 6)) with false by lia.
    replace (i =? prev) with false by lia. destruct (Z.leb_spec 0 i); [|unfold get; by rewrite (proj2 (Z.leb_gt 0 i)) by lia].
    rewrite get_sub by lia. done.
Qed.

Lemma fragments6_made p payload ins prev orig n id index cs fs : 40 <= ins <= len p -> (prev = 6 \/ 40 <= prev) -> prev < ins ->
  0 < n -> 0 <= index -> ipv6_fragments p payload ins prev orig n id index cs = Ok fs ->
  Forall2 (fragment6 p (len payload) ins prev orig id) (offsets n index cs) fs.
Proof.
  intros Hi Hp Hq Hn. revert index fs. induction cs as [|c cs IH]; intros index fs Hx H; cbn [ipv6_fragments offsets] in *.
  { ok_step H. subst. constructor. }
  ok_step H. ok_step H. ok_step H. subst. constructor; [eapply fragment6_made; try done; nia|]. apply IH; [lia|done].
Qed.

(** ** What a fragment reads as *)
Lemma offset_bits o (more : bool) : (8 | o) -> 0 <= o <= 65535 ->
  let bits := if more then Z.lor o 1 else o in
  is_u16 bits /\ Z.land (Z.shiftr bits 3) 0x1fff * 8 = o /\ negb (Z.land bits 1 =? 0) = more.
Proof.
  intros [k ->] Hk. assert (0 <= k < 8192) as Kr by lia. cbv zeta.
  assert (Z.lor (k * 8) 1 = k * 8 + 1) as El.
  { assert (Z.land (k * 8) 1 = 0) as Hl by (change 1 with (Z.ones 1); rewrite Z.land_ones by lia; change (2 ^ 1) with 2;
      Z.div_mod_to_equations; lia).
    by rewrite <- Z.lxor_lor, <- Z.add_nocarry_lxor. }
  rewrite El.
  assert (Z.shiftr (if more then k * 8 + 1 else k * 8) 3 = k) as ->.
  { rewrite Z.shiftr_div_pow2 by lia. change (2 ^ 3) with 8. destruct more; Z.div_mod_to_equations; lia. }
  change 0x1fff with (Z.ones 13). rewrite Z.land_ones by lia. change (2 ^ 13) with 8192. rewrite Z.mod_small by lia.
  split; [destruct more; unfold is_u16; lia|]. split; [done|].
  assert (forall x, Z.land x 1 = x mod 2) as -> by (intros x; apply (Z.land_ones x 1); lia).
  destruct more; [replace ((k * 8 + 1) mod 2) with 1|replace ((k * 8) mod 2) with 0]; try done; Z.div_mod_to_equations; lia.
Qed.

Lemma size6 h t : 40 <= h -> 0 <= t -> h - 40 + t <= 65535 -> reassembled_size_exceeds IpV6 h t = false.
Proof.
  intros Hh Ht Hs. unfold reassembled_size_exceeds, checked_sub, checked_add. rewrite (proj2 (Z.leb_le 40 _)) by lia.
  cbn [mbind option_bind]. rewrite (proj2 (Z.leb_le _ u64_max)) by (unfold u64_max; lia). apply Z.ltb_ge. unfold u16_max. lia.
Qed.

Section V6.
Context (p : list Z) (rs : list (Z * Z * Z)) (ins prev orig nh id total b0 : Z).
Context (B : bytes_ok p) (Hid : is_u32 id) (In : insertion p rs ins prev orig nh) (Hlen : len p = ins + total /\ len p <= 65575 /\ 0 <= total)
  (G0 : get p 0 = Some b0) (H6 : Z.shiftr b0 4 = 6).
Let key := mkFragmentKey IpV6 (V6 (sub p 8 24)) (V6 (sub p 24 40)) 0 id.
Abbreviation made := (fragment6 p total ins prev orig id).
Abbreviation bits q := (if q.1 + len q.2 <? total then Z.lor q.1 1 else q.1).

(** The fragment byte by byte. *)
Record laid_out (q : Z * list Z) (f : list Z) : Prop := {
  lo_len : len f = ins + 8 + len q.2;
  lo_same i : i <> prev -> i <> 4 -> i <> 5 -> i < ins -> get f i = get p i;
  lo_prev : get f prev = Some 44;
  lo_field : idx_be16 (E := WireError) f 4 = Ok (ins - 32 + len q.2);
  lo_next : get f ins = Some orig;
  lo_bits : idx_be16 (E := WireError) f (ins + 2) = Ok (bits q);
  lo_id : idx_be32 (E := WireError) f (ins + 4) = Ok id;
  lo_payload : sub f (ins + 8) (len f) = q.2
}.

Lemma made_laid_out q f : made q f -> laid_out q f.
Proof.
  intros [Ho Hl (hdr & -> & Lh & Gp & G4 & G5 & Gs)]. destruct (in_bounds _ _ _ _ _ _ In) as (H40 & _ & Hp).
  set (tail := [orig; 0] ++ to_be16 (bits q) ++ to_be32 id ++ q.2).
  assert (forall i, i < ins -> get (hdr ++ tail) i = get hdr i) as L by (intros; apply get_app_l; lia).
  assert (forall i, 0 <= i -> get (hdr ++ tail) (ins + i) = get tail i) as R
    by (intros i Hi; rewrite get_app_r by lia; f_equal; lia).
  assert (len (hdr ++ tail) = ins + 8 + len q.2) as Le by (unfold tail; autorewrite with lens; lia).
  split; try done.
  - intros i H1 H2 H3 H4. rewrite L by done. by apply Gs.
  - by rewrite L by lia.
  - unfold idx_be16, idx. change (4 + 1) with 5. rewrite !L, G4, G5 by lia. cbn. by rewrite be16_to_be16.
  - rewrite <- (Z.add_0_r ins), R by lia. done.
  - unfold idx_be16, idx. rewrite <- Z.add_assoc, !R by lia.
    change (Ok (E := WireError) (be16 (bits q / 256) (bits q mod 256)) = Ok (bits q)). by rewrite be16_to_be16.
  - unfold idx_be32, idx. rewrite <- !Z.add_assoc, !R by lia.
    change (Ok (E := WireError) (be32 (id / 16777216) (id / 65536 mod 256) (id / 256 mod 256) (id mod 256)) = Ok id).
    by rewrite be32_to_be32.
  - rewrite Le. unfold sub. replace (Z.to_nat (ins + 8)) with (length hdr + 8)%nat by (unfold len in Lh; lia).
    rewrite drop_app_add. unfold tail. cbn [drop app to_be16 to_be32]. apply take_ge. unfold len in *. lia.
Qed.

Lemma laid_bytes q f : bytes_ok q.2 -> (8 | q.1) -> made q f -> bytes_ok f.
Proof.
  intros Bq D [Ho Hl (hdr & -> & Lh & Gp & G4 & G5 & Gs)]. destruct (in_bounds _ _ _ _ _ _ In) as (H40 & _ & Hp).
  pose proof (len_nonneg q.2) as Hq. pose proof (to_be16_ok (ins - 32 + len q.2) ltac:(unfold is_u16; lia)) as Bl.
  unfold to_be16 in Bl. apply bytes_ok_cons in Bl as [U1 [U2 _]%bytes_ok_cons].
  pose proof (get_u8 _ _ _ B (in_prev _ _ _ _ _ _ In)) as Uo.
  repeat (apply bytes_ok_app; split); [|repeat (apply bytes_ok_cons; split); done || constructor| |by apply to_be32_ok|done].
  - apply bytes_ok_get. intros i x Hx. pose proof (get_inv _ _ _ Hx) as [Hr _].
    destruct (decide (i = prev)) as [->|]; [rewrite Gp in Hx; injection Hx as <-; width|].
    destruct (decide (i = 4)) as [->|]; [congruence|]. destruct (decide (i = 5)) as [->|]; [congruence|].
    rewrite Gs in Hx by lia. exact (get_u8 _ _ _ B Hx).
  - apply to_be16_ok. apply (offset_bits q.1 (q.1 + len q.2 <? total) D Ho).
Qed.

Lemma sub_same q f a b : laid_out q f -> 8 <= a <= b -> b <= 40 -> sub f a b = sub p a b.
Proof.
  intros L Ha Hb. destruct (in_bounds _ _ _ _ _ _ In) as (H40 & Hpv & Hp). pose proof (len_nonneg q.2). pose proof (lo_len _ _ L).
  apply get_ext; rewrite !len_sub by lia; [done|]. intros i Hi. rewrite !get_sub by lia. apply (lo_same _ _ L); lia.
Qed.

(** The headers of the fragment lead to the fragment header. *)
Lemma fragment_walk q f nh' : laid_out q f -> get f 6 = Some nh' -> walk f nh' 40 rs 44 ins.
Proof.
  intros L G6. destruct (in_bounds _ _ _ _ _ _ In) as (H40 & Hpv & Hp). pose proof (in_walk _ _ _ _ _ _ In) as W.
  destruct (in_last _ _ _ _ _ _ In) as [[Ers E6]|(rs' & h & l & Ers)].
  - rewrite Ers in *. destruct W as [_ E40]. rewrite <- E6, (lo_prev _ _ L) in G6. injection G6 as <-. done.
  - assert (40 <= prev) as Hge by (rewrite Ers in W; apply walk_snoc in W; lia).
    rewrite (lo_same _ _ L), (in_first _ _ _ _ _ _ In) in G6 by lia. injection G6 as <-.
    apply (walk_transfer p f _ _ _ _ _ prev 44 W); [by rewrite Ers; destruct rs'| |intros i Hi Hne; apply (lo_same _ _ L); lia|apply L].
    intros h' o l' rs1 E. rewrite Ers in E. apply app_inj_2 in E as [_ E]; [congruence|done].
Qed.

(** What the parser reads off a fragment it accepts. *)
Lemma reads6 le q f ip : laid_out q f -> bytes_ok f -> (8 | q.1) -> 0 <= q.1 <= 65535 -> parse_ip_packet le f true = Ok ip ->
  version ip = IpV6 /\ fragment ip = Some (info_of key total q) /\ payload_of ip = q.2 /\
  fragment_key ip (info_of key total q) orig = key /\ fragment_header f IpV6 = Ok (sub f 0 ins, Some prev, orig).
Proof.
  intros L Bf D Hq H. destruct (in_bounds _ _ _ _ _ _ In) as (H40 & Hpv & Hp). pose proof (len_nonneg q.2) as Lq.
  assert (version ip = IpV6) as Hv.
  { destruct (version_nibble _ _ _ _ H) as (x & Gx & ->). rewrite (lo_same _ _ L) in Gx by lia. congruence. }
  destruct (parse_v6_inv le f ip H Hv) as (n & nh' & En & L40 & Hn & G6 & Hc). rewrite (lo_field _ _ L) in En. injection En as <-.
  pose proof (fragment_walk q f nh' L G6) as W.
  destruct (chain_meets _ _ _ _ _ _ _ _ _ _ _ _ W Hc) as [info Ei].
  destruct (chain_fragment _ _ _ _ _ _ _ _ _ 6 _ _ Hc Ei) as (ins2 & q2 & proto & fp & El & L1 & _ & G & Ef & [[F1 F2] Fi (bt & Fb & Fo & Fm) Fp]);
    [lia|lia|done|].
  destruct (loop_meets _ _ _ _ _ _ _ _ _ _ W El) as (Es & Hfit & Gi & Q1 & Q2).
  assert (ins2 = ins) as -> by (apply (f_equal len) in Es; rewrite !len_sub in Es by lia; lia).
  rewrite (lo_next _ _ L) in Gi. injection Gi as <-. rewrite (lo_id _ _ L) in Fi. injection Fi as Eid.
  rewrite (lo_bits _ _ L) in Fb. injection Fb as <-.
  destruct (offset_bits q.1 (q.1 + len q.2 <? total) D Hq) as (_ & Bo & Bm). cbv zeta in Bo, Bm. rewrite Bo in Fo. rewrite Bm in Fm.
  assert (info = info_of key total q) as -> by (destruct info; cbn in Eid, Fo, Fm; unfold info_of, piece_finish; cbn; by rewrite Eid, Fo, Fm).
  assert (Some q2 = Some prev) as [= ->].
  { destruct (in_last _ _ _ _ _ _ In) as [[E ->]|(rs' & h & l & E)]; [by apply Q1|by eapply Q2]. }
  destruct (chain_ends _ _ _ _ _ _ _ _ _ _ _ _ Hc) as (_ & Es1 & Ed1).
  split_and!; [done|done| | |].
  - unfold payload_of. rewrite Ef. cbn [default from_option]. subst fp. replace (40 + (ins - 32 + len q.2)) with (len f) by (rewrite (lo_len _ _ L); lia).
    apply L.
  - unfold fragment_key. rewrite Hv, Es1, Ed1, (sub_same q f 8 24 L), (sub_same q f 24 40 L) by lia. done.
  - cbn [fragment_header]. unfold ipv6_fragment_header. by rewrite (idx_get _ _ _ G6).
Qed.

Lemma bears6 le q f ip header : made q f -> bytes_ok q.2 -> (8 | q.1) -> piece_finish q <= total -> (q.1 = 0 -> len q.2 < total) ->
  (q.1 = 0 -> sub f 0 ins = header) -> parse_ip_packet le f true = Ok ip ->
  bears key orig total header (Some prev) le q f ip (sub f 0 ins) (Some prev).
Proof.
  intros M Bq D Hfin Hpr Hh H. pose proof (made_laid_out q f M) as L. pose proof (laid_bytes q f Bq D M) as Bf.
  destruct (reads6 le q f ip L Bf D (f6_offset _ _ _ _ _ _ _ _ M) H) as (Hv & Hf & Hpay & Hk & Hfh).
  destruct (in_bounds _ _ _ _ _ _ In) as (H40 & _ & _). pose proof (len_nonneg q.2) as Lq. pose proof (lo_len _ _ L) as Lf.
  pose proof (f6_offset _ _ _ _ _ _ _ _ M) as Ho. unfold piece_finish in *.
  split; try done.
  - unfold is_atomic, info_of, piece_finish. cbn. destruct (Z.eqb_spec q.1 0); [|done]. cbn. specialize (Hpr ltac:(done)).
    destruct (Z.ltb_spec (q.1 + len q.2) total); [done|lia].
  - by rewrite Hv.
  - intros Hz. split; [by apply Hh|done].
  - cbn [key fk_version]. unfold piece_finish. apply size6; rewrite ?len_sub; lia.
Qed.

Lemma rebuild6 q f pieces : laid_out q f -> concat pieces.*2 = sub p ins (len p) ->
  idx_be16 (E := WireError) p 4 = Ok (len p - 40) ->
  rebuild (whole orig total (sub f 0 ins) (Some prev) pieces) IpV6 = Ok p.
Proof.
  intros L Hc E4. destruct (in_bounds _ _ _ _ _ _ In) as (H40 & Hpv & Hp). pose proof (len_nonneg q.2) as Lq. pose proof (lo_len _ _ L) as Lf.
  unfold rebuild, whole. cbn [as_header as_previous_next_header as_protocol as_pieces ok_or mbind outcome_bind].
  rewrite map_map. replace (map (fun x => pc_bytes (stored x).2) pieces) with (pieces.*2) by done. rewrite Hc.
  set (r := sub f 0 ins ++ sub p ins (len p)).
  assert (len r = len p) as Lr by (unfold r; rewrite len_app, !len_sub by lia; lia).
  assert (forall i, 0 <= i < len p -> i <> prev -> i <> 4 -> i <> 5 -> get r i = get p i) as Gr.
  { intros i H0 H1 H2 H3. unfold r. destruct (Z.lt_ge_cases i ins).
    - rewrite get_app_l by (rewrite len_sub; lia). rewrite get_sub by lia. by apply (lo_same _ _ L).
    - rewrite get_app_r; rewrite len_sub by lia; [|lia]. rewrite get_sub by lia. f_equal. lia. }
  destruct (write_runs (E := FragmentError) r [orig] prev) as [r1 E1]; [lia|change (len [orig]) with 1; lia|]. rewrite E1. cbn [mbind outcome_bind].
  destruct (get_write _ _ _ _ 0 E1) as [L1 _]. unfold sat_sub. rewrite L1, Lr.
  unfold try_u16, u16_max. rewrite (proj2 (Z.leb_le _ 65535)) by lia. cbn [ok_or mbind outcome_bind].
  replace (Z.max (len p - 40) 0) with (len p - 40) by lia.
  destruct (write_runs (E := FragmentError) r1 (to_be16 (len p - 40)) 4) as [r2 E2]; [lia|rewrite len_to_be16; lia|]. rewrite E2. f_equal.
  destruct (get_write _ _ _ _ 0 E2) as [L2 _]. apply get_ext; [lia|]. intros i Hi.
  destruct (get_write _ _ _ _ i E1) as [_ G1], (get_write _ _ _ _ i E2) as [_ G2]. rewrite G2, G1.
  rewrite len_to_be16. change (len [orig]) with 1. change (4 + 2) with 6.
  destruct (Z.leb_spec 4 i), (Z.ltb_spec i 6); cbn [andb].
  1: { unfold idx_be16 in E4. ok_step E4. ok_step E4. ok_step E4. apply idx_inv in Hx, Hx0.
    rewrite <- E4, to_be16_be16 by (by eapply get_u8; [exact B|eassumption]).
    assert (i = 4 \/ i = 5) as [-> | ->] by lia; done. }
  all: destruct (Z.eqb_spec i prev) as [->|Hne];
    [rewrite (proj2 (Z.leb_le prev prev)), (proj2 (Z.ltb_lt prev (prev + 1))), Z.sub_diag by lia; symmetry; apply In|].
  all: replace ((prev <=? i) && (i <? prev + 1)) with false by lia; apply Gr; lia.
Qed.
End V6.

(** ** Which fragments are accepted *)

(** The end of the headers, from the records of the walk. *)
Definition headers_end (records : list (Z * Z * Z)) : Z := match last records with Some r => r.1.2 + r.2 | None => 40 end.

(** The first fragment has all headers of the packet, and they are few enough for
    one more. *)
Definition chain_fits (packet : list Z) (first_len : Z) : bool :=
  match get packet 6 with
  | Some nh =>
    match extension_records 8 packet (len packet) nh 40 [] with
    | Ok (_, records) => (len records <=? 6) && (headers_end records + 8 <=? first_len)
    | _ => false
    end
  | None => false
  end.

Lemma walk_end p nh rs nh' off' : walk p nh 40 rs nh' off' -> headers_end rs = off'.
Proof.
  intros W. unfold headers_end. destruct (last rs) as [[[h o] l]|] eqn:E.
  - apply last_Some in E as [rs' ->]. apply walk_snoc in W. cbn. lia.
  - apply last_None in E as ->. by destruct W.
Qed.

Section Accepted.
Context (p : list Z) (rs rs2 : list (Z * Z * Z)) (ins prev orig nh nhe offe id total b0 : Z).
Context (In : insertion p rs ins prev orig nh) (Ch : chained p (len p) rs rs2 nh nhe offe)
  (Hok : all_ok p (len p) (sub p 24 40) (rs ++ rs2)) (H8 : (length (rs ++ rs2) < 8)%nat) (G0 : get p 0 = Some b0) (H6 : Z.shiftr b0 4 = 6).
Context (q : Z * list Z) (f : list Z) (L : laid_out p ins prev orig id total q f) (D : (8 | q.1)) (Hq : 0 <= q.1 <= 65535) (Hf : len f <= 65575).

Lemma walk_behind : walk p orig ins rs2 nhe offe.
Proof.
  destruct (walk_app _ _ _ _ _ _ _ (ch_walk _ _ _ _ _ _ _ Ch)) as (x & y & W1 & W2).
  by destruct (walk_unique _ _ _ _ _ _ _ _ W1 (in_walk _ _ _ _ _ _ In)) as [-> ->].
Qed.

Lemma orig_not_fragment : (orig =? 44) = false.
Proof.
  pose proof walk_behind as W. destruct rs2 as [|[[h o] l] rs']; cbn [walk] in W.
  - destruct W as [<- _]. pose proof (ch_last _ _ _ _ _ _ _ Ch) as E. unfold is_extension in E. lia.
  - destruct W as (_ & _ & El & _). destruct (Z.eqb_spec orig 44) as [->|]; done.
Qed.

(** The parser starts with the chain of the fragment. *)
Lemma fragment_entry le : exists nh', get f 6 = Some nh' /\
  parse_ip_packet le f true = parse_ipv6_chain 8 f true (len f) (sub f 8 24) (sub f 24 40) nh' 6 40 None None.
Proof.
  destruct (in_bounds _ _ _ _ _ _ In) as (H40 & _ & Hp). pose proof (len_nonneg q.2) as Lq. pose proof (lo_len _ _ _ _ _ _ _ _ L) as Lf.
  destruct (get_Some f 6) as (nh' & G6 & _); [lia|]. exists nh'. split; [done|].
  assert (get f 0 = Some b0) as E0.
  { destruct (decide (prev = 0)); [|by rewrite (lo_same _ _ _ _ _ _ _ _ L) by lia]. destruct (in_bounds _ _ _ _ _ _ In) as (_ & [? | ?] & _); lia. }
  unfold parse_ip_packet. rewrite E0. cbn [ok_or mbind outcome_bind]. rewrite H6. cbn [Z.eqb Pos.eqb].
  unfold parse_ipv6. rewrite (proj2 (Z.ltb_ge (len f) 40)) by lia. rewrite (lo_field _ _ _ _ _ _ _ _ L). cbn [mbind outcome_bind].
  unfold checked_add. rewrite (proj2 (Z.leb_le _ u64_max)) by (unfold u64_max; lia). cbn [ok_or mbind outcome_bind].
  replace (40 + (ins - 32 + len q.2)) with (len f) by lia. rewrite Z.ltb_irrefl. rewrite !slice_Ok by lia. cbn [mbind outcome_bind].
  by rewrite (idx_get _ _ _ G6).
Qed.

(** At the fragment header. *)
Lemma fragment_header_step rounds s d pointer :
  (q.1 <> 0 -> exists ip, parse_ipv6_chain (S rounds) f true (len f) s d 44 pointer ins None None = Ok ip) /\
  (q.1 = 0 -> exists info rest, parse_ipv6_chain (S rounds) f true (len f) s d 44 pointer ins None None =
     parse_ipv6_chain rounds f true (len f) s d orig ins (ins + 8) (Some info) (Some rest)).
Proof.
  destruct (in_bounds _ _ _ _ _ _ In) as (H40 & _ & Hp). pose proof (len_nonneg q.2) as Lq. pose proof (lo_len _ _ _ _ _ _ _ _ L) as Lf.
  destruct (get_Some f 7) as (hop & Gh & _); [lia|]. destruct (offset_bits q.1 (q.1 + len q.2 <? total) D Hq) as (_ & Bo & _). cbv zeta in Bo.
  cbn [parse_ipv6_chain Z.eqb Pos.eqb andb orb]. cbv zeta. rewrite (proj2 (require_Ok _ _ 8 _)) by (unfold u64_max; lia). cbn [mbind outcome_bind].
  rewrite (idx_get _ _ _ (lo_next _ _ _ _ _ _ _ _ L)). cbn [mbind outcome_bind]. rewrite orig_not_fragment. cbn [orb].
  rewrite (lo_bits _ _ _ _ _ _ _ _ L), (lo_id _ _ _ _ _ _ _ _ L). cbn [mbind outcome_bind]. rewrite slice_Ok by lia.
  cbn [mbind outcome_bind offset_bytes]. rewrite Bo. split; intros E.
  - rewrite (proj2 (Z.eqb_neq _ _)) by done. cbn [negb]. rewrite (idx_get _ _ _ Gh). by eexists.
  - rewrite E. cbn [Z.eqb negb]. eauto.
Qed.

(** The headers before the fragment header are as the packet has them. *)
Lemma headers_before : Forall (fun r : Z * Z * Z => header_ok f (len f) (sub f 24 40) r.1.1 r.1.2 r.2) rs.
Proof.
  destruct (in_bounds _ _ _ _ _ _ In) as (H40 & Hpv & Hp). pose proof (len_nonneg q.2) as Lq. pose proof (lo_len _ _ _ _ _ _ _ _ L) as Lf.
  pose proof (walk_le _ _ _ _ _ _ walk_behind). pose proof (len_nonneg rs2). pose proof (ch_end _ _ _ _ _ _ _ Ch).
  assert (sub f 24 40 = sub p 24 40) as ->.
  { apply get_ext; rewrite !len_sub by lia; [done|]. intros i Hi. rewrite !get_sub by lia. apply (lo_same _ _ _ _ _ _ _ _ L); lia. }
  apply Forall_app in Hok as [F _]. pose proof (in_walk _ _ _ _ _ _ In) as W. pose proof (walk_range _ _ _ _ _ _ W) as Rg.
  assert (Forall (fun r : Z * Z * Z => forall i, 0 < i < r.2 -> r.1.2 + i <> prev) rs) as Np.
  { destruct (in_last _ _ _ _ _ _ In) as [[-> _]|(rs' & h & l & ->)]; [constructor|]. apply walk_snoc in W as (_ & _ & _ & _ & W).
    apply Forall_app. split; [|constructor; [cbn; lia|constructor]]. eapply Forall_impl; [by eapply walk_range|]. cbn. lia. }
  rewrite !Forall_forall in *. intros r Hr. specialize (F r Hr). specialize (Rg r Hr). specialize (Np r Hr).
  eapply (header_moved p f (len p)); [exact F|lia|lia|lia| |lia|lia|lia|apply F].
  intros i Hi. apply (lo_same _ _ _ _ _ _ _ _ L); [by apply Np|lia|lia|lia].
Qed.

(** A fragment that is not the first is accepted. *)
Lemma later_accepted le : q.1 <> 0 -> exists ip, parse_ip_packet le f true = Ok ip.
Proof.
  intros Hz. destruct (fragment_entry le) as (nh' & G6 & ->). pose proof H8 as H8'. rewrite length_app in H8'. replace 8%nat with (length rs + S (7 - length rs))%nat by lia.
  destruct (fragment_header_step (7 - length rs) (sub f 8 24) (sub f 24 40) 6) as [[ip Hip] _]; [done|]. exists ip.
  eapply (chain_resume f (len f)); [lia|unfold u64_max; lia|lia|by eapply fragment_walk|apply headers_before|exact Hip].
Qed.

(** The first one, which has the bytes of the packet from [ins] on, is accepted if it
    has all the headers. *)
Context (Hz : q.1 = 0) (Gf : forall i, ins <= i -> i + 8 < len f -> get f (i + 8) = get p i).

Lemma first_accepted le : (exists ip, parse_ip_packet le f true = Ok ip) <-> (length (rs ++ rs2) <= 6)%nat /\ offe + 8 <= len f.
Proof.
  destruct (in_bounds _ _ _ _ _ _ In) as (H40 & _ & Hp). pose proof (len_nonneg q.2) as Lq. pose proof (lo_len _ _ _ _ _ _ _ _ L) as Lf.
  destruct (fragment_entry le) as (nh' & G6 & ->). pose proof (fragment_walk p rs ins prev orig nh id total In q f nh' L G6) as Wf.
  pose proof walk_behind as W2. pose proof (ch_last _ _ _ _ _ _ _ Ch) as Hx. pose proof (walk_le _ _ _ _ _ _ W2) as Hw. pose proof (len_nonneg rs2).
  pose proof H8 as H8'. rewrite length_app in H8'. rewrite length_app. split.
  - intros [ip Hip]. destruct (chain_through f (len f) _ _ _ _ ltac:(lia) ltac:(unfold u64_max; lia) _ _ _ _ 40 _ _ _ ltac:(lia) Wf Hip) as (H1 & _ & H2).
    replace (8 - length rs)%nat with (S (7 - length rs)) in H2 by lia.
    destruct (proj2 (fragment_header_step (7 - length rs) (sub f 8 24) (sub f 24 40) 6) Hz) as (info & rest & E). rewrite E in H2.
    destruct (chain_covers p f _ _ _ _ 8 _ _ _ _ ins _ _ _ ltac:(lia) ltac:(lia) ltac:(unfold u64_max; lia) W2 Hx Gf H2). lia.
  - intros [H1 H2]. replace 8%nat with (length rs + S (length rs2 + S (6 - length rs - length rs2)))%nat by lia.
    destruct (get_Some f 7) as (hop & Gh & _); [lia|].
    destruct (proj2 (fragment_header_step (length rs2 + S (6 - length rs - length rs2)) (sub f 8 24) (sub f 24 40) 6) Hz) as (info & rest & E).
    assert (Forall (fun r : Z * Z * Z => header_ok f (len f) (sub f 24 40) r.1.1 r.1.2 r.2) (map (fun r => (r.1.1, r.1.2 + 8, r.2)) rs2)) as F2.
    { pose proof (no_hop_behind _ _ _ _ _ _ _ _ _ _ _ In Ch W2 Hok) as Nh. apply Forall_app in Hok as [_ F2]. pose proof (walk_range _ _ _ _ _ _ W2) as Rg.
      pose proof (ch_end _ _ _ _ _ _ _ Ch). apply Forall_map. rewrite !Forall_forall in *. intros r Hr. specialize (F2 r Hr). specialize (Rg r Hr). specialize (Nh r Hr). cbn [fst snd].
      assert (sub f 24 40 = sub p 24 40) as ->.
      { apply get_ext; rewrite !len_sub by lia; [done|]. intros i Hi. rewrite !get_sub by lia. apply (lo_same _ _ _ _ _ _ _ _ L); destruct (in_bounds _ _ _ _ _ _ In) as (_ & [? | ?] & ?); lia. }
      eapply (header_moved p f (len p)); [exact F2|lia|lia|lia| |lia|lia|lia|done]. intros i Hi. replace (r.1.2 + 8 + i) with (r.1.2 + i + 8) by lia. apply Gf; lia. }
    assert (walk f orig (ins + 8) (map (fun r => (r.1.1, r.1.2 + 8, r.2)) rs2) nhe (offe + 8)) as W3.
    { apply (walk_shift p f 8); [done|]. intros i Hi. apply Gf; lia. }
    eexists. eapply (chain_resume f (len f)); [lia|unfold u64_max; lia|lia|exact Wf|apply headers_before|]. rewrite E.
    rewrite <- (length_map (fun r : Z * Z * Z => (r.1.1, r.1.2 + 8, r.2)) rs2) at 1.
    eapply (chain_resume f (len f)); [lia|unfold u64_max; lia|lia|exact W3|exact F2|].
    rewrite parse_ipv6_chain_end, (idx_get _ _ _ Gh) by done. cbn [mbind outcome_bind]. by rewrite slice_Ok by lia.
Qed.

Lemma first_accepted_fits le : (exists ip, parse_ip_packet le f true = Ok ip) <-> chain_fits p (len f) = true.
Proof.
  rewrite first_accepted. unfold chain_fits. rewrite (in_first _ _ _ _ _ _ In), (ch_records _ _ _ _ _ _ _ Ch).
  rewrite (walk_end _ _ _ _ _ (ch_walk _ _ _ _ _ _ _ Ch)). unfold len at 2. rewrite andb_true_iff, !Z.leb_le. lia.
Qed.
End Accepted.

(** The packet the fragments are made of. *)
Record outbound6 (packet : list Z) (n mtu id : Z) (rs : list (Z * Z * Z)) (ins prev orig nh b0 chunk_len : Z) (fs : list (list Z)) : Prop := {
  ob_insertion : insertion (sub packet 0 (40 + n)) rs ins prev orig nh;
  ob_ins : ins <= 40 + n;
  ob_chunk : 0 < chunk_len /\ (8 | chunk_len) /\ ins + 8 + chunk_len <= mtu;
  ob_first : get (sub packet 0 (40 + n)) 0 = Some b0 /\ Z.shiftr b0 4 = 6;
  ob_chain : exists rs2 nhe offe, chained (sub packet 0 (40 + n)) (40 + n) rs rs2 nh nhe offe /\ (length (rs ++ rs2) < 8)%nat /\
    all_ok (sub packet 0 (40 + n)) (40 + n) (sub packet 24 40) (rs ++ rs2);
  ob_made : Forall2 (fragment6 (sub packet 0 (40 + n)) (40 + n - ins) ins prev orig id)
    (offsets chunk_len 0 (chunks chunk_len (sub packet ins (40 + n)))) fs
}.

Lemma outbound6_made le packet mtu id n ip fs : bytes_ok packet -> parse_ip_packet le packet true = Ok ip -> version ip = IpV6 ->
  idx_be16 (E := WireError) packet 4 = Ok n -> mtu < 40 + n -> fragment_outbound_ip_packet le packet mtu id = Ok fs ->
  0 <= n <= 65535 /\ 40 + n <= len packet /\ source ip = V6 (sub packet 8 24) /\ destination ip = V6 (sub packet 24 40) /\
  exists rs ins prev orig nh b0 chunk_len, outbound6 packet n mtu id rs ins prev orig nh b0 chunk_len fs.
Proof.
  intros B Ep Hv En Hm H. destruct (parse_v6_inv le packet ip Ep Hv) as (n' & nh' & En' & L40 & Hn & G6 & Hc).
  rewrite En in En'. injection En' as <-. destruct (version_nibble _ _ _ _ Ep) as (b0 & G0 & Hb0). apply Hb0 in Hv as H6.
  assert (0 <= n <= 65535) as Rn.
  { unfold idx_be16 in En. ok_step En. ok_step En. ok_step En. apply idx_inv in Hx, Hx0. apply (get_u8 _ _ _ B) in Hx, Hx0. subst n. unfold be16. width. }
  destruct (chain_ends _ _ _ _ _ _ _ _ _ _ _ _ Hc) as (_ & Es & Ed). split_and!; [lia|lia|lia|done|done|].
  unfold fragment_outbound_ip_packet in H. rewrite Ep in H. cbn [mbind outcome_bind] in H. rewrite Hv, En in H.
  cbn [mbind outcome_bind mret outcome_ret] in H. rewrite (proj2 (Z.leb_gt _ _)) in H by lia. ok_step H; [done|].
  rewrite slice_Ok in H by lia. cbn [mbind outcome_bind] in H. set (p := sub packet 0 (40 + n)) in *.
  assert (len p = 40 + n) as Lp by (unfold p; rewrite len_sub; lia).
  assert (bytes_ok p) as Bp by (by apply Forall_take, Forall_drop).
  assert (forall i, 0 <= i < 40 + n -> get p i = get packet i) as Gp by (intros i Hi; unfold p; rewrite get_sub by lia; done).
  unfold fragment_ipv6 in H. ok_step H. destruct x as [[ins prev] orig]. ok_step H. ok_step H.
  destruct (insertion_spec p n ins prev orig) as (rs & nh & In & Hins & rs2 & nhe & offe & Ch); [done| |lia|done|].
  { rewrite <- En. unfold idx_be16, idx. rewrite !Gp by lia. done. }
  destruct (in_bounds _ _ _ _ _ _ In) as (H40 & Hpv & Hp). apply aligned_chunk_Ok in Hx0 as (C1 & C2 & C3).
  unfold slice_from in Hx1. apply slice_inv in Hx1 as (-> & _). rewrite Lp in H.
  assert (sub p ins (40 + n) = sub packet ins (40 + n)) as Ep1.
  { apply get_ext; rewrite !len_sub by lia; [done|]. intros i Hi. rewrite !get_sub by lia. apply Gp. lia. }
  exists rs, ins, prev, orig, nh, b0, x. split; try done; [by rewrite Gp by lia| |].
  { exists rs2, nhe, offe. split; [done|]. pose proof (in_first _ _ _ _ _ _ In) as G6'. rewrite Gp, G6 in G6' by lia. injection G6' as <-.
    eapply accepted_headers; [done|done|apply Ch|apply Ch|exact Hc]. }
  rewrite <- Ep1. replace (40 + n - ins) with (len (sub p ins (40 + n))) by (rewrite len_sub; lia).
  apply (fragments6_made p (sub p ins (40 + n)) ins prev orig x id 0); try done; lia.
Qed.

Lemma offsets_eight n index cs q : (8 | n) -> q ∈ offsets n index cs -> (8 | q.1).
Proof.
  intros D. revert index. induction cs as [|c cs IH]; intros index; cbn [offsets]; [by intros ?%not_elem_of_nil|].
  intros [->|Hq]%elem_of_cons; [by apply Z.divide_mul_r|by eapply IH].
Qed.

Lemma offsets_from n index cs i q : 0 < n -> 0 <= index -> offsets n index cs !! i = Some q -> index * n <= q.1.
Proof.
  intros Hn. revert index i. induction cs as [|c cs IH]; intros index i Hx; cbn [offsets]; [done|]. destruct i as [|i]; cbn; [by intros [= <-]|].
  intros Hq. apply IH in Hq; nia.
Qed.

Lemma outbound6_bytes packet n mtu id rs ins prev orig nh b0 c fs : outbound6 packet n mtu id rs ins prev orig nh b0 c fs ->
  bytes_ok packet -> is_u32 id -> Forall bytes_ok fs.
Proof.
  intros [In Hins (C1 & C2 & C3) _ _ F2] B Hid. set (body := sub packet ins (40 + n)) in *.
  assert (concat (offsets c 0 (chunks c body)).*2 = body) as Ec by (apply (chunks_tile _ c 0 body); lia || done).
  assert (Forall (fun q => bytes_ok q.2) (offsets c 0 (chunks c body))) as Bq
    by (apply (Forall_fmap snd), Forall_concat; rewrite Ec; by apply bytes_ok_sub).
  apply Forall_lookup. intros i f Hf. destruct (Forall2_lookup_r _ _ _ _ _ F2 Hf) as (q & Hq & M).
  eapply (laid_bytes (sub packet 0 (40 + n)) rs ins prev orig nh id (40 + n - ins)); try done.
  - by apply bytes_ok_sub.
  - exact (proj1 (Forall_lookup _ _) Bq i q Hq).
  - apply (offsets_eight c 0 (chunks c body)); [done|by apply list_elem_of_lookup_2 in Hq].
Qed.

Lemma outbound6_pieces packet n mtu id rs ins prev orig nh b0 c fs : outbound6 packet n mtu id rs ins prev orig nh b0 c fs ->
  Forall (fun f => exists q, len q.2 <= c /\ fragment6 (sub packet 0 (40 + n)) (40 + n - ins) ins prev orig id q f) fs.
Proof.
  intros O. destruct (ob_chunk _ _ _ _ _ _ _ _ _ _ _ _ O) as (C1 & C2 & C3).
  destruct (chunks_tile _ c 0 (sub packet ins (40 + n)) C1 C2 ltac:(lia) (Nat.le_refl _)) as (_ & _ & Hcap).
  apply Forall_lookup. intros i f Hf. destruct (Forall2_lookup_r _ _ _ _ _ (ob_made _ _ _ _ _ _ _ _ _ _ _ _ O) Hf) as (q & Hq & M).
  exists q. split; [|done]. exact (proj1 (Forall_lookup _ _) Hcap i q Hq).
Qed.

Lemma outbound6_sizes packet n mtu id rs ins prev orig nh b0 c fs : outbound6 packet n mtu id rs ins prev orig nh b0 c fs ->
  Forall (fun f => len f <= mtu) fs.
Proof.
  intros O. eapply Forall_impl; [by eapply outbound6_pieces|]. intros f (q & Hq & M).
  rewrite (lo_len _ _ _ _ _ _ _ _ (made_laid_out _ _ _ _ _ _ _ _ (ob_insertion _ _ _ _ _ _ _ _ _ _ _ _ O) _ _ M)).
  pose proof (ob_chunk _ _ _ _ _ _ _ _ _ _ _ _ O). lia.
Qed.

Lemma chunks_cons {A} n (l : list A) : 0 < len l -> chunks n l = take (Z.to_nat n) l :: chunks_fuel (pred (length l)) (Z.to_nat n) (drop (Z.to_nat n) l).
Proof. unfold chunks. by destruct l. Qed.

(** The fragments behind the first are accepted; the first one is if the headers of
    the packet fit in it. *)
Lemma outbound6_accepts le packet n mtu id rs ins prev orig nh b0 c fs : outbound6 packet n mtu id rs ins prev orig nh b0 c fs ->
  bytes_ok packet -> 0 <= n <= 65535 -> 40 + n <= len packet -> mtu < 40 + n ->
  exists f0 rest, fs = f0 :: rest /\ Forall (fun f => exists ip', parse_ip_packet le f true = Ok ip') rest /\
    ((exists ip', parse_ip_packet le f0 true = Ok ip') <-> chain_fits (sub packet 0 (40 + n)) (len f0) = true).
Proof.
  intros [In Hins (C1 & C2 & C3) [G0 H6] (rs2 & nhe & offe & Ch & H8 & Hok) F2] B Rn Ln Hm. destruct (in_bounds _ _ _ _ _ _ In) as (H40 & Hpv & Hp).
  set (p := sub packet 0 (40 + n)) in *. set (body := sub packet ins (40 + n)) in *.
  assert (len p = 40 + n /\ len body = 40 + n - ins) as [Lp Lb] by (unfold p, body; rewrite !len_sub by lia; lia).
  assert (forall i, 0 <= i < 40 + n -> get p i = get packet i) as Gp by (intros i Hi; unfold p; rewrite get_sub by lia; done).
  assert (sub p 24 40 = sub packet 24 40) as Ed by (apply get_ext; rewrite !len_sub by lia; [done|]; intros i Hi; rewrite !get_sub by lia; apply Gp; lia).
  rewrite <- Ed in Hok. rewrite <- Lp in Hok, Ch at 1.
  assert (chunks c body = take (Z.to_nat c) body :: chunks_fuel (pred (length body)) (Z.to_nat c) (drop (Z.to_nat c) body)) as Ec
    by (apply chunks_cons; lia).
  assert (Forall (fun q => (8 | q.1)) (offsets c 0 (chunks c body))) as Dq by (apply Forall_forall; intros q Hq; by eapply offsets_eight).
  assert (Forall (fun q => len q.2 <= c) (offsets c 0 (chunks c body))) as Cap by (apply (chunks_tile _ c 0 body); lia || done).
  assert (forall q f, fragment6 p (40 + n - ins) ins prev orig id q f -> len q.2 <= c -> laid_out p ins prev orig id (40 + n - ins) q f /\ len f <= 65575) as Lay.
  { intros q f M Hc. pose proof (made_laid_out _ _ _ _ _ _ _ _ In _ _ M) as L. split; [done|]. rewrite (lo_len _ _ _ _ _ _ _ _ L). lia. }
  rewrite Ec in F2, Dq, Cap. cbn [offsets] in F2, Dq, Cap. destruct fs as [|f0 rest]; [by inversion F2|].
  apply Forall2_cons in F2 as [M0 F2]. apply Forall_cons in Dq as [D0 Dq], Cap as [Cap0 Cap]. exists f0, rest. split; [done|]. split.
  - apply Forall_lookup. intros i f Hf. destruct (Forall2_lookup_r _ _ _ _ _ F2 Hf) as (q & Hq & M).
    destruct (Lay q f M (proj1 (Forall_lookup _ _) Cap i q Hq)) as [L Hl].
    eapply (later_accepted p rs rs2 ins prev orig nh nhe offe id (40 + n - ins) b0 In Ch Hok H8 G0 H6 q f L); try done.
    + exact (proj1 (Forall_lookup _ _) Dq i q Hq).
    + apply M.
    + apply (offsets_from c (0 + 1)) in Hq; nia.
  - destruct (Lay _ _ M0 Cap0) as [L Hl].
    apply (first_accepted_fits p rs rs2 ins prev orig nh nhe offe id (40 + n - ins) b0 In Ch Hok H8 G0 H6 (0 * c, take (Z.to_nat c) body) f0 L); try done.
    intros i Hi Hif. pose proof (lo_payload _ _ _ _ _ _ _ _ L) as Ep. pose proof (lo_len _ _ _ _ _ _ _ _ L) as Lf. cbn [snd] in Ep, Lf. rewrite len_take in Lf.
    replace (get f0 (i + 8)) with (get (sub f0 (ins + 8) (len f0)) (i - ins)) by (rewrite get_sub by lia; f_equal; lia).
    rewrite Ep. replace (get p i) with (get body (i - ins)); [unfold get; rewrite (proj2 (Z.leb_le 0 (i - ins))) by lia; apply lookup_take_lt; lia|].
    unfold body. rewrite get_sub, Gp by lia. f_equal. lia.
Qed.

Lemma chain_fits_plain packet first_len nh : get packet 6 = Some nh -> is_extension nh = false -> 48 <= first_len -> chain_fits packet first_len = true.
Proof.
  intros G Hx Hl. unfold chain_fits. rewrite G. cbn [extension_records]. unfold is_extension in Hx.
  replace ((nh =? 0) || (nh =? 43) || (nh =? 60)) with false by lia. replace (nh =? 51) with false by lia. replace (nh =? 44) with false by lia.
  cbn. by apply Z.leb_le.
Qed.

Section Theorems6.
Context {W : Type} `{TimerQueueLaws FragmentKey W} (b : ResourceBudget) (rest : holdings) (Hb : budget_range b).

Lemma reassembles6 le' packet n mtu id rs ins prev orig nh b0 chunk_len fs arrivals (s : @fstate W) :
  outbound6 packet n mtu id rs ins prev orig nh b0 chunk_len fs -> bytes_ok packet -> is_u32 id -> 0 <= n <= 65535 ->
  40 + n <= len packet -> mtu < 40 + n -> idx_be16 (E := WireError) packet 4 = Ok n ->
  Forall (fun f => exists ip', parse_ip_packet le' f true = Ok ip') fs -> Permutation (map fst arrivals) fs ->
  prepared b rest s (mkFragmentKey IpV6 (V6 (sub packet 8 24)) (V6 (sub packet 24 40)) 0 id) arrivals (len packet) ->
  completes b rest le' s (mkFragmentKey IpV6 (V6 (sub packet 8 24)) (V6 (sub packet 24 40)) 0 id) arrivals (sub packet 0 (40 + n)).
Proof.
  intros [In Hins (C1 & C2 & C3) [G0 H6] _ F2] B Hid Rn Ln Hm En Pf Pm Prep. destruct (in_bounds _ _ _ _ _ _ In) as (H40 & Hpv & Hp).
  set (p := sub packet 0 (40 + n)) in *. set (body := sub packet ins (40 + n)) in *.
  assert (len p = 40 + n /\ len body = 40 + n - ins) as [Lp Lb] by (unfold p, body; rewrite !len_sub by lia; lia).
  assert (bytes_ok p /\ bytes_ok body) as [Bp Bb] by (split; by apply bytes_ok_sub).
  assert (forall a c, 0 <= a <= c -> c <= 40 + n -> sub p a c = sub packet a c) as Es.
  { intros a c Ha Hc. apply get_ext; rewrite !len_sub by lia; [done|]. intros i Hi. unfold p. by rewrite !get_sub by lia. }
  destruct (chunks_tile (length body) chunk_len 0 body C1 C2 ltac:(lia) ltac:(lia)) as (Ht & Hc & Hcap).
  change (chunks_fuel (length body) (Z.to_nat chunk_len) body) with (chunks chunk_len body) in *.
  set (pieces := offsets chunk_len 0 (chunks chunk_len body)) in *. rewrite Z.mul_0_l, Z.add_0_l, Lb in Ht.
  assert (Forall (fun q => bytes_ok q.2) pieces) as Bq by (apply (Forall_fmap snd), Forall_concat; by rewrite Hc).
  assert (Forall (fun q => (8 | q.1)) pieces) as Dq by (apply Forall_forall; intros q Hq; by eapply offsets_eight).
  rewrite <- (Es 8 24), <- (Es 24 40) in * by lia.
  destruct pieces as [|q0 pieces'] eqn:Epc; [cbn in Ht; lia|]. destruct fs as [|f0 fs']; [by inversion F2|].
  pose proof (proj1 (Forall2_cons _ _ _ _ _) F2) as [F0 _].
  assert (forall q, q ∈ q0 :: pieces' -> q.1 = 0 -> q = q0) as First.
  { intros q Hq Hz. destruct q0 as [o0 c0]. cbn [tiles] in Ht. destruct Ht as (-> & C0 & _ & Ht). apply elem_of_cons in Hq as [->|Hq]; [done|].
    apply (tiles_from _ _ _ _ Ht) in Hq. lia. }
  pose proof (tiles_NoDup _ _ _ Ht) as Nd. pose proof (made_laid_out _ _ _ _ _ _ _ _ In _ _ F0) as L0.
  assert (len p = ins + (40 + n - ins) /\ len p <= 65575 /\ 0 <= 40 + n - ins) as Hlen by lia.
  eapply (train_completes b rest Hb le' _ orig (40 + n - ins) (sub f0 0 ins) (Some prev) (q0 :: pieces') (f0 :: fs'));
    [done|lia| | |  |done|done|].
  - lia.
  - cbn [fk_version]. pose proof (lo_len _ _ _ _ _ _ _ _ L0). pose proof (len_nonneg q0.2). apply size6; rewrite ?len_sub; lia.
  - apply Forall2_same_length_lookup. split; [by eapply Forall2_length|]. intros i q f Hi Hf.
    apply list_elem_of_lookup_2 in Hi as Hin.
    destruct (proj1 (Forall_lookup _ _) Pf i f Hf) as [ip' Hip].
    exists ip', (sub f 0 ins), (Some prev).
    eapply (bears6 p rs ins prev orig nh id (40 + n - ins) b0); try done.
    + by eapply Forall2_lookup_lr.
    + exact (proj1 (Forall_lookup _ _) Bq i q Hi).
    + exact (proj1 (Forall_lookup _ _) Dq i q Hi).
    + by apply (tiles_from _ _ _ _ Ht) in Hin as (_ & _ & ?).
    + intros _. pose proof (proj1 (Forall_lookup _ _) Hcap i q Hi). cbn in *. lia.
    + intros Hz. assert (i = 0%nat) as -> by (rewrite (First q Hin Hz) in Hi; by eapply (NoDup_lookup (q0 :: pieces'))).
      by injection Hf as <-.
  - eapply (rebuild6 p rs ins prev orig nh); try done; rewrite Lp; [by rewrite Es by lia|].
    replace (40 + n - 40) with n by lia. rewrite <- En. unfold idx_be16, idx, p. rewrite !get_sub by lia. done.
Qed.

(** C24: The fragments an IPv6 packet larger than the MTU is cut into are within the
    MTU.  If the first one has all extension headers of the packet, and there are at
    most six, a reassembler with room for the fragments that gets them in any order,
    before the first times out, keeps all but the last and answers the last with the
    very bytes of the packet.  It then holds nothing for the datagram any more.  If
    not, the parser refuses the first fragment, and so does every receiver of this
    stack.  A packet without extension headers is never of that kind. *)
Theorem ipv6_fragment_roundtrip (le le' : bool) (packet : list Z) (mtu identification n : Z) (ip : ParsedIpPacket) (fs : list (list Z)) :
  bytes_ok packet -> is_u32 identification -> parse_ip_packet le packet true = Ok ip -> version ip = IpV6 ->
  idx_be16 (E := WireError) packet 4 = Ok n -> mtu < 40 + n -> fragment_outbound_ip_packet le packet mtu identification = Ok fs ->
  Forall (fun f => len f <= mtu) fs /\
  exists first later, fs = first :: later /\
  (chain_fits (sub packet 0 (40 + n)) (len first) = true ->
   forall (arrivals : list (list Z * Z)) (s : @fstate W), Permutation (map fst arrivals) fs ->
     prepared b rest s (datagram_key ip identification) arrivals (len packet) ->
     completes b rest le' s (datagram_key ip identification) arrivals (sub packet 0 (40 + n))) /\
  (chain_fits (sub packet 0 (40 + n)) (len first) = false -> exists e, parse_ip_packet le' first true = Err e) /\
  (forall nh, get packet 6 = Some nh -> is_extension nh = false -> chain_fits (sub packet 0 (40 + n)) (len first) = true).
Proof.
  intros B Hid Ep Hv En Hm Hfs.
  destruct (outbound6_made le packet mtu identification n ip fs B Ep Hv En Hm Hfs) as (Rn & Ln & Es & Ed & rs & ins & prev & orig & nh & b0 & c & O).
  assert (datagram_key ip identification = mkFragmentKey IpV6 (V6 (sub packet 8 24)) (V6 (sub packet 24 40)) 0 identification) as ->
    by (unfold datagram_key; by rewrite Hv, Es, Ed).
  split; [by apply (outbound6_sizes _ _ _ _ _ _ _ _ _ _ _ _ O)|].
  destruct (outbound6_accepts le' _ _ _ _ _ _ _ _ _ _ _ _ O B Rn Ln Hm) as (f0 & later & -> & Pl & P0). exists f0, later. split; [done|]. split_and!.
  - intros Fits arrivals s Pm Prep. eapply reassembles6; try done. constructor; [by apply P0|done].
  - intros Nf. pose proof (outbound6_bytes _ _ _ _ _ _ _ _ _ _ _ _ O B Hid) as Bf. apply Forall_cons in Bf as [Bf _].
    pose proof (parse_ip_packet_runs le' f0 true Bf) as Rt. destruct (parse_ip_packet le' f0 true) as [ip0|e| |]; [|by exists e|done..].
    rewrite (proj1 P0) in Nf; [done|by exists ip0].
  - intros nh' G6 Hx. apply (chain_fits_plain _ _ nh'); [by rewrite get_sub by lia|done|].
    pose proof (outbound6_pieces _ _ _ _ _ _ _ _ _ _ _ _ O) as Pc. apply Forall_cons in Pc as [(q & _ & M) _].
    rewrite (lo_len _ _ _ _ _ _ _ _ (made_laid_out _ _ _ _ _ _ _ _ (ob_insertion _ _ _ _ _ _ _ _ _ _ _ _ O) _ _ M)).
    pose proof (in_bounds _ _ _ _ _ _ (ob_insertion _ _ _ _ _ _ _ _ _ _ _ _ O)). pose proof (len_nonneg q.2). lia.
Qed.
End Theorems6.

(** ** The theorem on the timer wheel *)

(** A datagram from 2001:db8::1 with a hop-by-hop header before its 60 bytes. *)
Definition sample_packet6 : list Z :=
  [96; 0; 0; 0; 0; 68; 0; 64] ++ [32; 1; 13; 184] ++ repeat 0 11 ++ [1] ++ [32; 1; 13; 184] ++ repeat 0 11 ++ [2]
  ++ [17; 0; 1; 4; 0; 0; 0; 0] ++ repeat 9 60.

Definition sample_parsed6 : ParsedIpPacket := {|
  version := IpV6; source := V6 (sub sample_packet6 8 24); destination := V6 (sub sample_packet6 24 40); next_header := 17;
  hop_limit := 64; fragment := None; fragment_payload := None; payload := drop 48 sample_packet6 |}.

Definition sample_fragments6 : list (list Z) :=
  match fragment_outbound_ip_packet true sample_packet6 72 9 with Ok fs => fs | _ => [] end.
Definition sample_arrivals6 : list (list Z * Z) := zip (reverse sample_fragments6) [1000; 2000; 2000; 3000; 4000; 4000].

(** The fragments of 108 bytes at an MTU of 72, the last one first. *)
Lemma ipv6_fragment_roundtrip_witness : len sample_arrivals6 = 4 /\
  completes (budget Mobile) nothing_held false (sample_reassembler, ledger_new)
    (datagram_key sample_parsed6 9) sample_arrivals6 (sub sample_packet6 0 108).
Proof.
  split; [vm_compute; reflexivity|].
  destruct (ipv6_fragment_roundtrip (W := TimerWheel FragmentKey) (budget Mobile) nothing_held mobile_range true false
    sample_packet6 72 9 68 sample_parsed6 sample_fragments6) as (_ & first & later & E & R & _).
  - repeat constructor; discriminate.
  - unfold is_u32. lia.
  - vm_compute. reflexivity.
  - reflexivity.
  - vm_compute. reflexivity.
  - lia.
  - vm_compute. reflexivity.
  - apply R.
    + assert (first = hd [] sample_fragments6) as -> by (rewrite E; reflexivity). vm_compute. reflexivity.
    + transitivity (reverse (map fst sample_arrivals6)); [symmetry; apply reverse_Permutation|]. vm_compute. reflexivity.
    + destruct sample_reassembler_inv as (_ & I & Hs & Hi & Hm). split.
      * exact I.
      * change (fr_assemblies sample_reassembler !! datagram_key sample_parsed6 9 = None). rewrite Hm. apply lookup_empty.
      * vm_compute. repeat split; discriminate.
      * change (tq_ids (fr_expiry sample_reassembler) + len sample_arrivals6 <= u64_max). rewrite Hi. vm_compute. discriminate.
      * change (fr_next_eviction_serial sample_reassembler + len sample_arrivals6 <= u64_max). rewrite Hs. vm_compute. discriminate.
      * vm_compute. repeat split; discriminate.
Defined.

(** Sixteen bytes of payload fit at this MTU, and a destination options header has
    thirty-two: the packet is cut within the header, and its first fragment is one
    the parser, and with it the reassembler, refuses. *)
Definition cut_packet6 : list Z :=
  [96; 0; 0; 0; 0; 72; 60; 64] ++ [32; 1; 13; 184] ++ repeat 0 11 ++ [1] ++ [32; 1; 13; 184] ++ repeat 0 11 ++ [2]
  ++ [17; 3; 1; 28] ++ repeat 0 28 ++ repeat 9 40.

Definition cut_fragments6 : list (list Z) :=
  match fragment_outbound_ip_packet true cut_packet6 72 9 with Ok fs => fs | _ => [] end.

Example cut_header_refused :
  next_header <$> parse_ip_packet true cut_packet6 true = Ok 17 /\ length cut_fragments6 = 3%nat /\
  parse_ip_packet true (hd [] cut_fragments6) true = Err Truncated /\ chain_fits cut_packet6 (len (hd [] cut_fragments6)) = false.
Proof. vm_compute. done. Qed.
