(* ===== verification/Slab.v ===== *)
(** Budgeted buffers ([sail-netstack/src/buffer/slab.rs]): chains of segments of
    shared, reference-counted allocations, and the packet arena.  The heap of
    [Arc]s is explicit: an allocation lives, and its leases stay charged, until
    the last segment that points to it is gone. *)
From S2P Require Import Prelude StateMonad Budget Leases Fragmentation.
From stdpp Require Import list gmap strings.
#[local] Open Scope Z_scope.

Definition CHUNK_METADATA_CHARGE : Z := 64.

Inductive SlabClass := TcpPayload | Packet | Fragment.
#[export] Instance SlabClass_eq_dec : EqDecision SlabClass.
Proof. solve_decision. Defined.

Definition resource_kind (c : SlabClass) : ResourceKind :=
  match c with TcpPayload => TcpPayloadBytes | Packet => PacketBytes | Fragment => FragmentBytes end.

Record Allocation := mkAllocation { al_bytes : list Z; al_lease : BudgetLease; al_metadata_lease : BudgetLease }.

(** The heap: allocations with their strong counts, and the next free place. *)
Record SlabStore := mkStore { ss_next : Z; ss_cells : gmap Z (Z * Allocation) }.

(** A segment: the [Arc] and the range of its bytes. *)
Record Segment := mkSegment { sg_allocation : Z; sg_start : Z; sg_end : Z }.
Definition segment_len (g : Segment) : Z := Z.max (sg_end g - sg_start g) 0.

(** All chains of a process share its ledger. *)
Record SlabChain := mkChain { sc_class : SlabClass; sc_chunk_size : Z; sc_len : Z; sc_segments : list Segment }.

Definition slabs : Type := SlabStore * ResourceLedger.
Definition HM (A : Type) : Type := sm slabs BudgetError A.

(** ** [Arc] *)
Definition set_cells (cells : gmap Z (Z * Allocation)) (s : slabs) : slabs := (mkStore (ss_next s.1) cells, s.2).

Definition arc_new (a : Allocation) : HM Z :=
  s ← get_state;
  _ ← modify (fun s => (mkStore (ss_next s.1 + 1) (<[ss_next s.1 := (1, a)]> (ss_cells s.1)), s.2));
  mret (ss_next s.1).

Definition arc_clone (p : Z) : HM Z :=
  s ← get_state;
  '(n, a) ← lift (expect (ss_cells s.1 !! p));
  _ ← modify (set_cells (<[p := (n + 1, a)]> (ss_cells s.1)));
  mret p.

(** The last owner drops the allocation, its leases in the order of its fields. *)
Definition arc_drop (p : Z) : HM unit :=
  s ← get_state;
  '(n, a) ← lift (expect (ss_cells s.1 !! p));
  if n =? 1 then
    modify (fun s => (mkStore (ss_next s.1) (delete p (ss_cells s.1)),
                      drop_lease (al_metadata_lease a) (drop_lease (al_lease a) s.2)))
  else modify (set_cells (<[p := (n - 1, a)]> (ss_cells s.1))).

Definition drop_segments (gs : list Segment) : HM unit :=
  foldr (fun g m => _ ← arc_drop (sg_allocation g); m) (mret tt) gs.

Definition as_slice (g : Segment) : HM (list Z) :=
  s ← get_state;
  '(_, a) ← lift (expect (ss_cells s.1 !! sg_allocation g));
  lift (slice (al_bytes a) (sg_start g) (sg_end g)).

(** ** Chains *)
Definition chain_new (c : SlabClass) (chunk_size : Z) : outcome BudgetError SlabChain :=
  if chunk_size <=? 0 then Panic else mret (mkChain c chunk_size 0 []).

Section Operations.
Context (budget : ResourceBudget).

Definition slab_acquire (k : ResourceKind) (amount : Z) : HM BudgetLease :=
  on snd (fun l s => (s.1, l)) (fun e => e) (try_acquire budget k amount).

Definition slab_drop_lease (x : BudgetLease) : HM unit := modify (fun s => (s.1, drop_lease x s.2)).

(** The loop of [append]; an early return drops what was made so far. *)
Fixpoint append_loop (c : SlabClass) (cs : list (list Z)) (pending : list Segment) : HM (list Segment) :=
  match cs with
  | [] => mret pending
  | chunk :: cs =>
    lease ← attempt (slab_acquire (resource_kind c) (len chunk));
    match lease with
    | inr e => _ ← drop_segments pending; throw e
    | inl lease =>
      metadata ← attempt (slab_acquire MetadataBytes CHUNK_METADATA_CHARGE);
      match metadata with
      | inr e => _ ← slab_drop_lease lease; _ ← drop_segments pending; throw e
      | inl metadata =>
        p ← arc_new (mkAllocation chunk lease metadata);
        append_loop c cs (pending ++ [mkSegment p 0 (len chunk)])
      end
    end
  end.

Definition chain_append (bytes : list Z) (chain : SlabChain) : HM SlabChain :=
  new_len ← lift (ok_or (checked_add (sc_len chain) (len bytes)) (Invalid "slab chain length overflows usize"));
  pending ← append_loop (sc_class chain) (chunks (sc_chunk_size chain) bytes) [];
  mret (mkChain (sc_class chain) (sc_chunk_size chain) new_len (sc_segments chain ++ pending)).

(** The loop of [consume]: every turn but the last releases a segment. *)
Fixpoint consume_loop (fuel : nat) (remaining : Z) (chain : SlabChain) : HM SlabChain :=
  if remaining <=? 0 then mret chain
  else
    match fuel with
    | O => lift OutOfFuel
    | S fuel =>
      match sc_segments chain with
      | [] => lift Panic
      | front :: rest =>
        let take := Z.min remaining (segment_len front) in
        let front := mkSegment (sg_allocation front) (sg_start front + take) (sg_end front) in
        let len := sc_len chain - take in
        if segment_len front =? 0 then
          _ ← arc_drop (sg_allocation front);
          consume_loop fuel (remaining - take) (mkChain (sc_class chain) (sc_chunk_size chain) len rest)
        else consume_loop fuel (remaining - take) (mkChain (sc_class chain) (sc_chunk_size chain) len (front :: rest))
      end
    end.
Definition chain_consume (amount : Z) (chain : SlabChain) : HM (SlabChain * Z) :=
  let consumed := Z.min amount (sc_len chain) in
  chain ← consume_loop (S (length (sc_segments chain))) consumed chain;
  mret (chain, consumed).

(** The segment [at_] falls into, and where in it. *)
Fixpoint split_point (at_ offset index : Z) (gs : list Segment) : option (Z * Z) :=
  match gs with
  | [] => None
  | g :: gs =>
    if at_ <=? offset + segment_len g then Some (index, at_ - offset)
    else split_point at_ (offset + segment_len g) (index + 1) gs
  end.

Definition chain_split_off (at_ : Z) (chain : SlabChain) : HM (SlabChain * SlabChain) :=
  let whole gs n := mkChain (sc_class chain) (sc_chunk_size chain) n gs in
  if sc_len chain <? at_ then lift Panic
  else
    suffix ← lift (chain_new (sc_class chain) (sc_chunk_size chain));
    if at_ =? sc_len chain then mret (chain, suffix)
    else if at_ =? 0 then mret (whole [] 0, whole (sc_segments chain) (sc_len chain))
    else
      '(index, within) ← lift (expect (split_point at_ 0 0 (sc_segments chain)));
      g ← lift (idx (sc_segments chain) index);
      let i := Z.to_nat index in
      if within =? segment_len g then
        mret (whole (take (S i) (sc_segments chain)) at_, whole (drop (S i) (sc_segments chain)) (sc_len chain - at_))
      else if within =? 0 then
        mret (whole (take i (sc_segments chain)) at_, whole (drop i (sc_segments chain)) (sc_len chain - at_))
      else
        let middle := sg_start g + within in
        p ← arc_clone (sg_allocation g);
        mret (whole (take i (sc_segments chain) ++ [mkSegment (sg_allocation g) (sg_start g) middle]) at_,
              whole (mkSegment p middle (sg_end g) :: drop (S i) (sc_segments chain)) (sc_len chain - at_)).

Definition chain_append_chain (other chain : SlabChain) : HM SlabChain :=
  if negb (bool_decide (sc_class chain = sc_class other)) then lift Panic
  else mret (mkChain (sc_class chain) (sc_chunk_size chain) (uadd (sc_len chain) (sc_len other)) (sc_segments chain ++ sc_segments other)).

Definition chain_drop (chain : SlabChain) : HM unit := drop_segments (sc_segments chain).

Definition chain_slices (chain : SlabChain) : HM (list (list Z)) :=
  foldr (fun g m => x ← as_slice g; xs ← m; mret (x :: xs)) (mret []) (sc_segments chain).
Definition chain_to_vec (chain : SlabChain) : HM (list Z) := xs ← chain_slices chain; mret (concat xs).

(** ** The packet arena *)
Record PacketArena := mkArena { pa_max_packet_size : Z }.
Record ArenaPacket := mkArenaPacket { ap_bytes : list Z; ap_headroom : Z; ap_len : Z; ap_lease : BudgetLease }.

Definition arena_new (max_packet_size : Z) : outcome BudgetError PacketArena :=
  if max_packet_size <=? 0 then Panic else mret (mkArena max_packet_size).

Definition arena_charge (k : ResourceKind) (bytes : Z) (arena : PacketArena) : HM BudgetLease :=
  if pa_max_packet_size arena <? bytes then throw (Invalid "packet exceeds arena maximum")
  else slab_acquire k bytes.

Definition allocate_from (k : ResourceKind) (headroom payload_capacity : Z) (arena : PacketArena) : HM ArenaPacket :=
  allocation_len ← lift (ok_or (checked_add headroom payload_capacity) (Invalid "packet allocation size overflows usize"));
  if pa_max_packet_size arena <? allocation_len then throw (Invalid "packet exceeds arena maximum")
  else
    lease ← slab_acquire k allocation_len;
    mret (mkArenaPacket (zeros allocation_len) headroom 0 lease).
Definition allocate := allocate_from PacketBytes.
Definition allocate_control := allocate_from ControlPacketBytes.

Definition capacity (p : ArenaPacket) : Z := len (ap_bytes p) - ap_headroom p.
Definition set_len (n : Z) (p : ArenaPacket) : outcome BudgetError ArenaPacket :=
  if capacity p <? n then Err (Invalid "packet length exceeds capacity")
  else mret (mkArenaPacket (ap_bytes p) (ap_headroom p) n (ap_lease p)).
Definition arena_payload (p : ArenaPacket) : outcome BudgetError (list Z) :=
  slice (ap_bytes p) (ap_headroom p) (ap_headroom p + ap_len p).
(** Writing [bytes] at the start of what [payload_capacity_mut] lends. *)
Definition write_capacity (bytes : list Z) (p : ArenaPacket) : outcome BudgetError ArenaPacket :=
  written ← write_at (ap_bytes p) (ap_headroom p) bytes;
  mret (mkArenaPacket written (ap_headroom p) (ap_len p) (ap_lease p)).
End Operations.
