(* ===== verification/SlabTheorems.v ===== *)
(** What the chains of [sail-netstack/src/buffer/slab.rs] promise: each is a string
    of bytes, whatever is split, shared, joined or consumed; and an allocation
    is charged exactly as long as a segment points to it. *)
From S2P Require Import Prelude StateMonad Budget Leases Fragmentation Slab.
From stdpp Require Import list gmap.
#[local] Open Scope Z_scope.

(** ** The heap *)
Definition allocation_leases (cell : Z * Allocation) : list BudgetLease := [al_lease cell.2; al_metadata_lease cell.2].

(** How many of the references point to [p]. *)
Definition uses (p : Z) (rs : list Z) : Z := zsum (fun q => if decide (q = p) then 1 else 0) rs.

Lemma uses_cons p q rs : uses p (q :: rs) = (if decide (q = p) then 1 else 0) + uses p rs.
Proof. apply zsum_cons. Qed.
Lemma uses_app p rs rs' : uses p (rs ++ rs') = uses p rs + uses p rs'.
Proof. apply zsum_app. Qed.
Lemma uses_nonneg p rs : 0 <= uses p rs.
Proof. apply zsum_nonneg, Forall_forall. intros q _. case_decide; lia. Qed.
Lemma uses_elem p rs : p ∈ rs -> 1 <= uses p rs.
Proof.
  induction rs as [|q rs IH]; [by intros ?%not_elem_of_nil|]. intros [->|Hp]%elem_of_cons; rewrite uses_cons.
  - rewrite decide_True by done. pose proof (uses_nonneg q rs). lia.
  - specialize (IH Hp). case_decide; lia.
Qed.

Lemma uses_pos p rs : 1 <= uses p rs -> p ∈ rs.
Proof.
  induction rs as [|q rs IH]; [by unfold uses; rewrite zsum_nil|]. rewrite uses_cons. case_decide; [subst; left|intros Hn; right; apply IH; lia].
Qed.

Definition cell_leases (s : slabs) : list BudgetLease := map_leases allocation_leases (ss_cells s.1).
Definition cell_of (s : slabs) (p : Z) : option Allocation := snd <$> ss_cells s.1 !! p.

Section Heap.
Context (b : ResourceBudget) (rest : holdings) (Hb : budget_range b).
Implicit Types (s : slabs) (held : list BudgetLease) (rs : list Z).

(** Every cell is counted once for each reference to it; the ledger is the rest
    plus the leases of the cells and of the others in [held]. *)
Record heap_ok held s rs : Prop := {
  hp_count p n a : ss_cells s.1 !! p = Some (n, a) -> n = uses p rs /\ 1 <= n;
  hp_none p : ss_cells s.1 !! p = None -> uses p rs = 0;
  hp_next p c : ss_cells s.1 !! p = Some c -> p < ss_next s.1;
  hp_accounts : accounts b rest s.2 (cell_leases s ++ held)
}.

Definition keeps s s' rs : Prop := forall p, p ∈ rs -> cell_of s' p = cell_of s p.

Lemma keeps_refl s rs : keeps s s rs.
Proof. done. Qed.
Lemma keeps_trans s1 s2 s3 rs : keeps s1 s2 rs -> keeps s2 s3 rs -> keeps s1 s3 rs.
Proof. intros K1 K2 p Hp. by rewrite (K2 p Hp), (K1 p Hp). Qed.
Lemma keeps_sub s s' rs rs' : (forall p, p ∈ rs' -> p ∈ rs) -> keeps s s' rs -> keeps s s' rs'.
Proof. intros Hs K p Hp. by apply K, Hs. Qed.

Lemma heap_perm held held' s rs rs' : Permutation held held' -> Permutation rs rs' -> heap_ok held s rs -> heap_ok held' s rs'.
Proof.
  intros P1 P2 [C N F A]. assert (forall p, uses p rs' = uses p rs) as U by (intros p; by apply zsum_perm).
  split; [intros p n a; rewrite U; apply C|intros p; rewrite U; apply N|done|].
  eapply accounts_perm; [|exact A]. by apply Permutation_app_head.
Qed.

Lemma heap_ledger held held' s l rs : heap_ok held s rs ->
  accounts b rest l (cell_leases s ++ held') -> heap_ok held' (s.1, l) rs.
Proof. intros [C N F _] A. by split. Qed.

Lemma heap_live held s rs p : heap_ok held s rs -> p ∈ rs -> exists n a, ss_cells s.1 !! p = Some (n, a).
Proof.
  intros H Hp. destruct (ss_cells s.1 !! p) as [[n a]|] eqn:E; [by exists n, a|].
  apply (hp_none _ _ _ H) in E. pose proof (uses_elem p rs Hp). lia.
Qed.

Lemma arc_new_spec held s rs a : heap_ok (al_lease a :: al_metadata_lease a :: held) s rs ->
  wp (arc_new a) s (fun p s' => heap_ok held s' (p :: rs) /\ cell_of s' p = Some a /\ keeps s s' rs /\ s'.2 = s.2 /\
      Permutation (cell_leases s') (al_lease a :: al_metadata_lease a :: cell_leases s))
    (fun _ _ => False).
Proof.
  intros H. unfold arc_new. repeat wp_step. set (p := ss_next s.1).
  assert (ss_cells s.1 !! p = None) as Np.
  { destruct (ss_cells s.1 !! p) as [c|] eqn:E; [|done]. apply (hp_next _ _ _ H) in E. lia. }
  assert (p ∉ rs) as Hni by (intros Hp; destruct (heap_live _ _ _ _ H Hp) as (n & c & E); congruence).
  split_and!; [|unfold cell_of; cbn; by rewrite lookup_insert_eq| |done|unfold cell_leases; cbn; by rewrite (map_leases_insert allocation_leases _ _ _ Np)].
  - split; cbn [fst snd ss_cells ss_next].
    + intros q n c. rewrite uses_cons. destruct (decide (p = q)) as [<-|Hne].
      * rewrite lookup_insert_eq. intros [= <- _]. rewrite (hp_none _ _ _ H p Np). lia.
      * rewrite lookup_insert_ne by done. intros Eq. apply (hp_count _ _ _ H) in Eq. lia.
    + intros q. rewrite uses_cons. destruct (decide (p = q)) as [<-|Hne]; [by rewrite lookup_insert_eq|].
      rewrite lookup_insert_ne by done. intros Eq. apply (hp_none _ _ _ H) in Eq. lia.
    + intros q c. destruct (decide (p = q)) as [<-|Hne]; [lia|]. rewrite lookup_insert_ne by done.
      intros Eq. apply (hp_next _ _ _ H) in Eq. lia.
    + eapply accounts_perm; [|apply (hp_accounts _ _ _ H)]. unfold cell_leases. cbn [fst ss_cells]. rewrite (map_leases_insert allocation_leases _ _ _ Np). cbn. solve_Permutation.
  - intros q Hq. unfold cell_of. cbn. rewrite lookup_insert_ne; [done|]. by intros ->.
Qed.

(** A change of a count that follows a change of the references. *)
Lemma heap_recount held s rs rs' p n m a : heap_ok held s rs -> ss_cells s.1 !! p = Some (n, a) ->
  m = uses p rs' -> 1 <= m -> (forall q, q <> p -> uses q rs' = uses q rs) ->
  heap_ok held (set_cells (<[p := (m, a)]> (ss_cells s.1)) s) rs' /\
  forall q, cell_of (set_cells (<[p := (m, a)]> (ss_cells s.1)) s) q = cell_of s q.
Proof.
  intros H E Hm Hm1 Hu. split; [split; cbn [set_cells fst snd ss_cells ss_next]|].
  - intros q k c. destruct (decide (p = q)) as [<-|Hne]; [rewrite lookup_insert_eq; by intros [= <- _]|].
    rewrite lookup_insert_ne, Hu by done. apply (hp_count _ _ _ H).
  - intros q. destruct (decide (p = q)) as [<-|Hne]; [by rewrite lookup_insert_eq|]. rewrite lookup_insert_ne, Hu by done. apply (hp_none _ _ _ H).
  - intros q c. destruct (decide (p = q)) as [<-|Hne]; [intros _; by eapply (hp_next _ _ _ H)|]. rewrite lookup_insert_ne by done.
    apply (hp_next _ _ _ H).
  - eapply accounts_perm; [|apply (hp_accounts _ _ _ H)]. apply Permutation_app_tail.
    unfold cell_leases. cbn [set_cells fst ss_cells].
    rewrite (map_leases_replace allocation_leases _ _ _ _ E), (map_leases_delete allocation_leases _ _ _ E). done.
  - intros q. unfold cell_of. cbn. destruct (decide (p = q)) as [<-|Hne]; [by rewrite lookup_insert_eq, E|by rewrite lookup_insert_ne].
Qed.

Lemma arc_clone_spec held s rs p : heap_ok held s rs -> p ∈ rs ->
  wp (arc_clone p) s (fun p' s' => p' = p /\ heap_ok held s' (p :: rs) /\ forall q, cell_of s' q = cell_of s q) (fun _ _ => False).
Proof.
  intros H Hp. destruct (heap_live _ _ _ _ H Hp) as (n & a & E). unfold arc_clone. do 4 wp_step. rewrite E. cbn [expect].
  repeat wp_step. split; [done|]. destruct (hp_count _ _ _ H _ _ _ E) as [Hn Hn1].
  eapply heap_recount; [exact H|done|rewrite uses_cons, decide_True by done; lia|lia|].
  intros q Hne. rewrite uses_cons, decide_False by done. lia.
Qed.

Lemma arc_drop_spec held s rs p : heap_ok held s (p :: rs) ->
  wp (arc_drop p) s (fun _ s' => heap_ok held s' rs /\ keeps s s' rs) (fun _ _ => False).
Proof.
  intros H. destruct (heap_live _ _ _ p H) as (n & a & E); [left|]. unfold arc_drop. do 4 wp_step. rewrite E. cbn [expect].
  destruct (hp_count _ _ _ H _ _ _ E) as [Hn Hn1]. rewrite uses_cons, decide_True in Hn by done.
  assert (forall q, q <> p -> uses q (p :: rs) = uses q rs) as Uq by (intros q Hne; rewrite uses_cons, decide_False by done; lia).
  wp_step; wp_step.
  - apply Z.eqb_eq in H0. assert (p ∉ rs) as Hni by (intros Hp%uses_elem; lia). split.
    + split; cbn [fst snd ss_cells ss_next].
      * intros q m c [Hne Eq]%lookup_delete_Some. rewrite <- Uq by done. by apply (hp_count _ _ _ H _ _ _ Eq).
      * intros q. destruct (decide (p = q)) as [<-|Hne]; [intros _; lia|]. rewrite lookup_delete_ne, <- Uq by done. apply (hp_none _ _ _ H).
      * intros q c [_ Eq]%lookup_delete_Some. by eapply (hp_next _ _ _ H).
      * apply (accounts_drop b rest Hb), (accounts_drop b rest Hb). eapply accounts_perm; [|apply (hp_accounts _ _ _ H)].
        unfold cell_leases. cbn [fst ss_cells]. rewrite (map_leases_delete allocation_leases _ _ _ E). cbn. solve_Permutation.
    + intros q Hq. unfold cell_of. cbn. rewrite lookup_delete_ne; [done|]. by intros ->.
  - apply Z.eqb_neq in H0. destruct (heap_recount held s (p :: rs) rs p n (n - 1) a H E) as [H' K]; [lia|lia|intros q Hne; by rewrite Uq|].
    split; [done|intros q _; apply K].
Qed.

Lemma drop_segments_spec held gs s rs : heap_ok held s (map sg_allocation gs ++ rs) ->
  wp (drop_segments gs) s (fun _ s' => heap_ok held s' rs /\ keeps s s' rs) (fun _ _ => False).
Proof.
  revert s. induction gs as [|g gs IH]; intros s H; cbn [drop_segments foldr]; [by wp_step|]. wp_step.
  eapply wp_mono; [exact (arc_drop_spec held s (map sg_allocation gs ++ rs) _ H)| |done]. intros _ s1 [H1 K1].
  eapply wp_mono; [by apply IH| |done]. intros _ s2 [H2 K2]. split; [done|].
  eapply keeps_trans; [|exact K2]. eapply keeps_sub; [|exact K1]. intros p Hp. apply elem_of_app. by right.
Qed.

(** ** Segments and chains *)
Definition seg_ok s (g : Segment) : Prop :=
  exists a, cell_of s (sg_allocation g) = Some a /\ 0 <= sg_start g < sg_end g /\ sg_end g <= len (al_bytes a).
Definition seg_bytes s (g : Segment) : list Z :=
  match cell_of s (sg_allocation g) with Some a => sub (al_bytes a) (sg_start g) (sg_end g) | None => [] end.

Lemma seg_len s g : seg_ok s g -> len (seg_bytes s g) = segment_len g /\ 0 < segment_len g.
Proof. intros (bs & E & H1 & H2). unfold seg_bytes, segment_len. rewrite E, len_sub by lia. lia. Qed.

Lemma segs_keep s s' gs : keeps s s' (map sg_allocation gs) -> Forall (seg_ok s) gs ->
  Forall (seg_ok s') gs /\ flat_map (seg_bytes s') gs = flat_map (seg_bytes s) gs.
Proof.
  induction gs as [|g gs IH]; intros K F; [done|]. apply Forall_cons in F as [(bs & E & Hr) F].
  assert (cell_of s' (sg_allocation g) = cell_of s (sg_allocation g)) as Eg by (apply K; left).
  destruct IH as [F' E']; [eapply keeps_sub; [|exact K]; intros p Hp; by right|done|].
  split; [constructor; [exists bs; by rewrite Eg|done]|]. cbn. unfold seg_bytes at 1 3. by rewrite Eg, E'.
Qed.

Lemma segs_len s gs : Forall (seg_ok s) gs -> len (flat_map (seg_bytes s) gs) = zsum segment_len gs.
Proof.
  induction 1 as [|g gs Hg F IH]; [done|]. cbn [flat_map]. rewrite len_app, zsum_cons, IH, (proj1 (seg_len s g Hg)). done.
Qed.

Definition content s (c : SlabChain) : list Z := flat_map (seg_bytes s) (sc_segments c).
Record chain_ok s (c : SlabChain) : Prop := {
  co_segments : Forall (seg_ok s) (sc_segments c);
  co_len : sc_len c = zsum segment_len (sc_segments c);
  co_chunk : 0 < sc_chunk_size c
}.
Definition refs (cs : list SlabChain) : list Z := flat_map (fun c => map sg_allocation (sc_segments c)) cs.

Lemma content_len s c : chain_ok s c -> len (content s c) = sc_len c.
Proof. intros [F L _]. rewrite L. by apply segs_len. Qed.

(** The chains of a process, and what the others keep. *)
Definition slab_inv held s (cs : list SlabChain) : Prop := heap_ok held s (refs cs) /\ Forall (chain_ok s) cs.
Definition same s s' (cs : list SlabChain) : Prop := Forall (fun c => content s' c = content s c) cs.

Lemma chains_keep s s' cs : keeps s s' (refs cs) -> Forall (chain_ok s) cs -> Forall (chain_ok s') cs /\ same s s' cs.
Proof.
  induction cs as [|c cs IH]; intros K F; [by split; constructor|]. apply Forall_cons in F as [[F1 F2 F3] F].
  destruct (segs_keep s s' (sc_segments c)) as [F1' E1]; [eapply keeps_sub; [|exact K]; intros p Hp; apply elem_of_app; by left|done|].
  destruct IH as [F' E']; [eapply keeps_sub; [|exact K]; intros p Hp; apply elem_of_app; by right|done|].
  split; constructor; done.
Qed.

(** ** Appending *)
Definition chunk_leases (c : SlabClass) (chunk : list Z) : list BudgetLease :=
  [mkLease (resource_kind c) (len chunk); mkLease MetadataBytes CHUNK_METADATA_CHARGE].

Lemma slab_acquire_spec k amount held s rs : heap_ok held s rs -> 0 < amount <= u64_max ->
  wp (slab_acquire b k amount) s
    (fun x s' => x = mkLease k amount /\ s'.1 = s.1 /\ heap_ok (x :: held) s' rs)
    (fun e s' => s'.1 = s.1 /\ heap_ok held s' rs /\ ~ affords b rest (mkLease k amount :: cell_leases s ++ held)).
Proof.
  intros H Ha. unfold slab_acquire. apply wp_on. pose proof (accounts_acquire b rest Hb k amount s.2 _ (hp_accounts _ _ _ H) Ha) as A.
  destruct (try_acquire b k amount s.2) as [l [x|e| |]]; [|..|done|done].
  - destruct A as [-> A]. split_and!; [done|done|]. eapply heap_ledger; [exact H|]. eapply accounts_perm; [|exact A]. solve_Permutation.
  - destruct A as [Na A]. split_and!; [done|by eapply heap_ledger|done].
Qed.

Lemma refused_more x xs ls : Forall (fun x => 0 <= lease_amount x) (x :: xs ++ ls) -> ~ affords b rest (x :: ls) -> ~ affords b rest (x :: xs ++ ls).
Proof.
  intros F N A. apply N. eapply (affords_sub b rest); [|exact F|exact A]. constructor. by apply submseteq_inserts_l.
Qed.

(** The ledger is not part of what the chains hold. *)
Lemma store_same s s' : s'.1 = s.1 -> (forall p, cell_of s' p = cell_of s p) /\ cell_leases s' = cell_leases s.
Proof. intros E. unfold cell_of, cell_leases. by rewrite E. Qed.

Lemma segs_same s s' gs : s'.1 = s.1 -> Forall (seg_ok s) gs ->
  Forall (seg_ok s') gs /\ flat_map (seg_bytes s') gs = flat_map (seg_bytes s) gs.
Proof. intros [Eb _]%store_same. apply segs_keep. intros p _. apply Eb. Qed.

Lemma drop_lease_wp held s rs x : heap_ok (x :: held) s rs ->
  wp (slab_drop_lease x) s (fun _ s' => s'.1 = s.1 /\ heap_ok held s' rs) (fun _ _ => False).
Proof.
  intros H. unfold slab_drop_lease. wp_step. split; [done|]. eapply heap_ledger; [exact H|]. apply (accounts_drop b rest Hb).
  eapply accounts_perm; [|apply (hp_accounts _ _ _ H)]. solve_Permutation.
Qed.

Lemma chunk_amounts c cs held s rs : heap_ok held s rs ->
  Forall (fun x => 0 <= lease_amount x) (flat_map (chunk_leases c) cs ++ cell_leases s ++ held).
Proof.
  intros H. apply Forall_app. split; [|apply (ac_amounts _ _ _ _ (hp_accounts _ _ _ H))].
  induction cs as [|x cs IH]; [constructor|]. cbn. pose proof (len_nonneg x).
  constructor; [cbn; lia|]. constructor; [cbn; unfold CHUNK_METADATA_CHARGE; lia|done].
Qed.

(** Failing: what was made so far is given back. *)
Lemma append_fails held s pending rs e (P : Prop) : heap_ok held s (map sg_allocation pending ++ rs) -> P ->
  wp (_ ← drop_segments pending; throw (A := list Segment) e) s (fun _ _ => False) (fun _ s' => heap_ok held s' rs /\ keeps s s' rs /\ P).
Proof. intros H HP. wp_step. eapply wp_mono; [by apply drop_segments_spec| |done]. intros _ s' [H' K]. wp_step. done. Qed.

Lemma append_loop_spec c cs : forall pending held s rs,
  heap_ok held s (map sg_allocation pending ++ rs) -> Forall (seg_ok s) pending -> Forall (fun x => 0 < len x <= u64_max) cs ->
  wp (append_loop b c cs pending) s
    (fun gs s' => heap_ok held s' (map sg_allocation gs ++ rs) /\ Forall (seg_ok s') gs /\
       flat_map (seg_bytes s') gs = flat_map (seg_bytes s) pending ++ concat cs /\ keeps s s' rs)
    (fun e s' => heap_ok held s' rs /\ keeps s s' rs /\ ~ affords b rest (flat_map (chunk_leases c) cs ++ cell_leases s ++ held)).
Proof.
  induction cs as [|chunk cs IH]; intros pending held s rs H F Hc; cbn [append_loop].
  { wp_step. rewrite app_nil_r. done. }
  apply Forall_cons in Hc as [Hch Hc]. pose proof (chunk_amounts c (chunk :: cs) held s _ H) as Am. cbn [flat_map chunk_leases app] in Am.
  wp_step. wp_step. eapply wp_mono; [exact (slab_acquire_spec (resource_kind c) (len chunk) held s _ H Hch)|..].
  2: { intros e s1 (E1 & H1 & Na). destruct (store_same _ _ E1) as [Eb _].
    eapply wp_mono; [apply (append_fails held s1 pending rs e); [done|exact (refused_more _ (mkLease MetadataBytes CHUNK_METADATA_CHARGE :: flat_map (chunk_leases c) cs) _ Am Na)]|done|].
    intros _ s' (H' & K & Na'). split_and!; [done| |done]. intros p Hp. by rewrite (K p Hp). }
  intros x s1 (-> & E1 & H1). destruct (store_same _ _ E1) as [Eb1 Ec1]. destruct (segs_same _ _ _ E1 F) as [F1 Ef1].
  wp_step. wp_step. eapply wp_mono; [apply (slab_acquire_spec MetadataBytes CHUNK_METADATA_CHARGE _ s1 _ H1); unfold CHUNK_METADATA_CHARGE, u64_max; lia|..].
  2: { intros e s2 (E2 & H2 & Na). destruct (store_same _ _ E2) as [Eb2 _]. wp_step.
    eapply wp_mono; [by apply drop_lease_wp| |done]. intros _ s3 [E3 H3]. destruct (store_same _ _ E3) as [Eb3 _].
    eapply wp_mono; [apply (append_fails held s3 pending rs e (~ affords b rest (flat_map (chunk_leases c) (chunk :: cs) ++ cell_leases s ++ held))); [done|]|done|].
    - rewrite Ec1 in Na. intros A. apply Na. eapply (affords_sub b rest); [|exact Am|exact A]. cbn.
      rewrite <- Permutation_middle, perm_swap. do 2 apply submseteq_skip. by apply submseteq_inserts_l.
    - intros _ s' (H' & K & Na'). split_and!; [done| |done]. intros p Hp. by rewrite (K p Hp), Eb3, Eb2, Eb1. }
  intros y s2 (-> & E2 & H2). destruct (store_same _ _ E2) as [Eb2 Ec2]. destruct (segs_same _ _ _ E2 F1) as [F2 Ef2].
  wp_step. eapply wp_mono; [apply (arc_new_spec held s2 (map sg_allocation pending ++ rs) (mkAllocation chunk _ _)); eapply heap_perm; [|reflexivity|exact H2]; apply perm_swap| |done].
  intros p s3 (H3 & Bp & K3 & _ & P3).
  destruct (segs_keep s2 s3 pending) as [F3 Ef3]; [eapply keeps_sub; [|exact K3]; intros q Hq; apply elem_of_app; by left|done|].
  assert (seg_ok s3 (mkSegment p 0 (len chunk))) as Sk by (eexists; split; [exact Bp|]; cbn; split_and!; done || lia).
  eapply wp_mono; [apply (IH (pending ++ [mkSegment p 0 (len chunk)]) held s3 rs); [|apply Forall_app; split; [done|by repeat constructor]|done]|..].
  - eapply heap_perm; [reflexivity| |exact H3]. rewrite map_app. cbn. rewrite <- (assoc_L (++)). cbn. by rewrite Permutation_middle.
  - intros gs s' (H' & F' & E' & K'). split_and!; [done|done| |].
    + rewrite E', flat_map_app, Ef3, Ef2, Ef1. cbn [flat_map]. rewrite app_nil_r. unfold seg_bytes at 2. cbn [sg_allocation sg_start sg_end].
      rewrite Bp, sub_all. cbn [concat]. by rewrite (assoc_L (++)).
    + intros q Hq. rewrite (K' q Hq), (K3 q) by (apply elem_of_app; by right). by rewrite Eb2, Eb1.
  - intros e s' (H' & K' & Na). split_and!; [done| |].
    + intros q Hq. rewrite (K' q Hq), (K3 q) by (apply elem_of_app; by right). by rewrite Eb2, Eb1.
    + intros A. apply Na. eapply (affords_perm b rest); [|exact A]. rewrite P3, Ec2, Ec1. cbn. solve_Permutation.
Qed.

Lemma chunks_cover {A} n (l : list A) : 0 < n -> concat (chunks n l) = l /\ Forall (fun c => 0 < len c <= len l) (chunks n l).
Proof.
  intros Hn. unfold chunks. assert (forall fuel (l : list A), (length l <= fuel)%nat -> concat (chunks_fuel fuel (Z.to_nat n) l) = l /\
    Forall (fun c => 0 < len c <= len l) (chunks_fuel fuel (Z.to_nat n) l)) as C; [|by apply C].
  clear l. intros fuel. induction fuel as [|fuel IH]; intros l Hl; (destruct l as [|x l]; [by split; [|constructor]|]); [cbn in Hl; lia|]. cbn [chunks_fuel].
  destruct (IH (drop (Z.to_nat n) (x :: l))) as [C F]; [rewrite length_drop; cbn in *; lia|]. cbn [concat]. rewrite C, take_drop.
  split; [done|]. constructor.
  - rewrite len_take, len_cons. pose proof (len_nonneg l). lia.
  - eapply Forall_impl; [exact F|]. intros c. rewrite len_drop by lia. pose proof (len_nonneg (x :: l)). lia.
Qed.

Lemma inv_head held s c cs : slab_inv held s (c :: cs) ->
  heap_ok held s (map sg_allocation (sc_segments c) ++ refs cs) /\ chain_ok s c /\ Forall (chain_ok s) cs.
Proof. intros [H F]. apply Forall_cons in F as [Fc F]. done. Qed.

Lemma inv_keep held s s' c' cs : heap_ok held s' (map sg_allocation (sc_segments c') ++ refs cs) -> keeps s s' (refs cs) ->
  chain_ok s' c' -> Forall (chain_ok s) cs -> slab_inv held s' (c' :: cs) /\ same s s' cs.
Proof. intros H K Fc F. destruct (chains_keep s s' cs K F) as [F' S]. split; [|done]. split; [done|by constructor]. Qed.

Lemma chain_append_spec held s c cs bytes : slab_inv held s (c :: cs) -> len bytes <= u64_max ->
  wp (chain_append b bytes c) s
    (fun c' s' => slab_inv held s' (c' :: cs) /\ same s s' cs /\ content s' c' = content s c ++ bytes /\ sc_class c' = sc_class c)
    (fun e s' => slab_inv held s' (c :: cs) /\ same s s' (c :: cs) /\ keeps s s' (refs (c :: cs)) /\
       (u64_max < sc_len c + len bytes \/
        ~ affords b rest (flat_map (chunk_leases (sc_class c)) (chunks (sc_chunk_size c) bytes) ++ cell_leases s ++ held))).
Proof.
  intros I Hl. destruct (inv_head _ _ _ _ I) as (H & Fc & F). unfold chain_append, checked_add. wp_step. wp_step.
  assert (same s s (c :: cs)) as Sm by (by apply Forall_forall). destruct (Z.leb_spec (sc_len c + len bytes) u64_max) as [Hle|Hgt]; cbn [ok_or].
  2: { split_and!; [done|done|apply keeps_refl|by left]. }
  destruct (chunks_cover (sc_chunk_size c) bytes (co_chunk _ _ Fc)) as [Cc Cf].
  wp_step. eapply wp_mono; [apply (append_loop_spec (sc_class c) _ [] held s (map sg_allocation (sc_segments c) ++ refs cs)); [done|constructor|]|..].
  - eapply Forall_impl; [exact Cf|]. cbn. lia.
  - intros gs s' (H' & F' & E' & K'). wp_step. rewrite Cc in E'. cbn in E'.
    destruct (segs_keep s s' (sc_segments c)) as [Fk Ek]; [eapply keeps_sub; [|exact K']; intros p Hp; apply elem_of_app; by left|apply Fc|].
    destruct (inv_keep held s s' (mkChain (sc_class c) (sc_chunk_size c) (sc_len c + len bytes) (sc_segments c ++ gs)) cs) as [I' S'].
    + eapply heap_perm; [reflexivity| |exact H']. cbn. rewrite map_app. solve_Permutation.
    + eapply keeps_sub; [|exact K']. intros p Hp. apply elem_of_app. by right.
    + split; cbn; [by apply Forall_app| |apply Fc]. rewrite zsum_app, <- (co_len _ _ Fc), <- (segs_len s' gs F'), E'. done.
    + done.
    + split_and!; [done|done| |done]. unfold content. cbn. by rewrite flat_map_app, Ek, E'.
  - intros e s' (H' & K' & Na). destruct (chains_keep s s' (c :: cs)) as [F' S']; [done|by constructor|].
    split_and!; [by split|done|done|by right].
Qed.

Lemma chain_drop_spec held s c cs : slab_inv held s (c :: cs) ->
  wp (chain_drop c) s (fun _ s' => slab_inv held s' cs /\ same s s' cs) (fun _ _ => False).
Proof.
  intros I. destruct (inv_head _ _ _ _ I) as (H & Fc & F). eapply wp_mono; [by apply drop_segments_spec| |done].
  intros _ s' [H' K]. destruct (chains_keep s s' cs K F). split; [by split|done].
Qed.

(** ** Reading *)
Lemma to_vec_spec s c : chain_ok s c -> chain_to_vec c s = (s, Ok (content s c)).
Proof.
  intros [F _ _]. unfold chain_to_vec, content.
  assert (chain_slices c s = (s, Ok (map (seg_bytes s) (sc_segments c)))) as E.
  { unfold chain_slices. induction F as [|g gs (bs & Eb & Hg) F IH]; [done|]. cbn [foldr map].
    assert (as_slice g s = (s, Ok (seg_bytes s g))) as Eg.
    { unfold as_slice, seg_bytes, cell_of in *. destruct (ss_cells s.1 !! sg_allocation g) as [[n a]|] eqn:Ec; [|done].
      cbn in Eb. injection Eb as <-. unfold get_state, mbind, sm_bind, lift. rewrite Ec. cbn [expect]. by rewrite slice_Ok by lia. }
    unfold mbind, sm_bind. rewrite Eg. unfold mbind, sm_bind in IH. rewrite IH. done. }
  unfold mbind, sm_bind. rewrite E. unfold mret, sm_ret. by rewrite flat_map_concat_map.
Qed.

(** ** Consuming *)
Lemma sub_drop {A} (l : list A) a k z : 0 <= a -> 0 <= k -> drop (Z.to_nat k) (sub l a z) = sub l (a + k) z.
Proof. intros Ha Hk. unfold sub. rewrite skipn_firstn_comm, drop_drop. f_equal; [lia|]. f_equal. lia. Qed.

Lemma sub_take {A} (l : list A) a k z : 0 <= k <= z - a -> take (Z.to_nat k) (sub l a z) = sub l a (a + k).
Proof. intros Hk. unfold sub. rewrite take_take. f_equal. lia. Qed.

(** A segment cut at [k]. *)
Lemma seg_cut s g k : seg_ok s g -> 0 < k < segment_len g ->
  let front := mkSegment (sg_allocation g) (sg_start g) (sg_start g + k) in
  let back := mkSegment (sg_allocation g) (sg_start g + k) (sg_end g) in
  seg_ok s front /\ seg_ok s back /\ seg_bytes s front = take (Z.to_nat k) (seg_bytes s g) /\
  seg_bytes s back = drop (Z.to_nat k) (seg_bytes s g).
Proof.
  intros (bs & E & Hr & He) Hk. cbv zeta. unfold segment_len in Hk. split_and!.
  - exists bs. cbn. split_and!; try done; lia.
  - exists bs. cbn. split_and!; try done; lia.
  - unfold seg_bytes. cbn. rewrite E, sub_take by lia. done.
  - unfold seg_bytes. cbn. rewrite E, sub_drop by lia. done.
Qed.

Lemma consume_loop_spec fuel : forall remaining held s c rs,
  heap_ok held s (map sg_allocation (sc_segments c) ++ rs) -> chain_ok s c -> 0 <= remaining <= sc_len c ->
  (length (sc_segments c) <= fuel)%nat ->
  wp (consume_loop fuel remaining c) s
    (fun c' s' => heap_ok held s' (map sg_allocation (sc_segments c') ++ rs) /\ chain_ok s' c' /\
       content s' c' = drop (Z.to_nat remaining) (content s c) /\ keeps s s' rs /\ sc_class c' = sc_class c)
    (fun _ _ => False).
Proof.
  induction fuel as [|fuel IH]; intros remaining held s c rs H [F L Ck] Hr Hf; cbn [consume_loop];
    (destruct (Z.leb_spec remaining 0); [wp_step; replace (Z.to_nat remaining) with O by lia; done|]);
    destruct c as [cl n k [|g gs]]; cbn [sc_class sc_chunk_size sc_len sc_segments] in *; try (rewrite L, zsum_nil in Hr; lia);
    [cbn in Hf; lia|].
  apply Forall_cons in F as [Fg F]. destruct (seg_len s g Fg) as [Lg Pg]. rewrite zsum_cons in L.
  set (t := Z.min remaining (segment_len g)). set (g' := mkSegment (sg_allocation g) (sg_start g + t) (sg_end g)).
  assert (segment_len g' = segment_len g - t) as Lg' by (unfold g', segment_len in *; cbn; lia).
  assert (forall gs', content s (mkChain cl n k (g :: gs')) = seg_bytes s g ++ flat_map (seg_bytes s) gs') as Ec by done.
  destruct (Z.eqb_spec (segment_len g') 0) as [E0|E0].
  - wp_step. cbn [map app] in H. eapply wp_mono; [exact (arc_drop_spec held s (map sg_allocation gs ++ rs) _ H)| |done]. intros _ s1 [H1 K1].
    destruct (segs_keep s s1 gs) as [F1 E1]; [eapply keeps_sub; [|exact K1]; intros p Hp; apply elem_of_app; by left|done|].
    eapply wp_mono; [apply (IH (remaining - t) held s1 (mkChain cl n (k - t) gs) rs)| |done]; try done.
    + split; cbn; [done|lia|done].
    + cbn. lia.
    + cbn in *. lia.
    + intros c' s' (H' & F' & E' & K' & Cl). split_and!; try done.
      * rewrite E', Ec. unfold content. cbn [sc_segments]. rewrite E1, drop_app. rewrite (drop_ge (seg_bytes s g)) by (unfold len in Lg; lia).
        cbn [app]. f_equal. unfold len in Lg. lia.
      * eapply keeps_trans; [|exact K']. eapply keeps_sub; [|exact K1]. intros p Hp. apply elem_of_app. by right.
  - assert (remaining - t = 0) as Ez by lia. destruct (seg_cut s g t Fg) as (_ & Sb & _ & Eb); [lia|]. fold g' in Sb, Eb.
    rewrite Ez. replace (consume_loop fuel 0 _) with (mret (M := HM) (mkChain cl n (k - t) (g' :: gs))) by (by destruct fuel).
    wp_step. split_and!; try done.
    + split; cbn; [by constructor|rewrite zsum_cons; lia|done].
    + rewrite Ec. unfold content. cbn [sc_segments flat_map]. rewrite Eb, drop_app_le by (unfold len in Lg; lia). do 2 f_equal. lia.
Qed.

Lemma chain_consume_spec held s c cs amount : slab_inv held s (c :: cs) -> 0 <= amount ->
  wp (chain_consume amount c) s
    (fun r s' => slab_inv held s' (r.1 :: cs) /\ same s s' cs /\ content s' r.1 = drop (Z.to_nat amount) (content s c) /\
       r.2 = Z.min amount (len (content s c)) /\ sc_class r.1 = sc_class c)
    (fun _ _ => False).
Proof.
  intros I Ha. destruct (inv_head _ _ _ _ I) as (H & Fc & F). unfold chain_consume. wp_step. rewrite (content_len _ _ Fc).
  assert (0 <= sc_len c) as L0 by (rewrite <- (content_len _ _ Fc); apply len_nonneg).
  eapply wp_mono; [apply (consume_loop_spec _ (Z.min amount (sc_len c)) held s c (refs cs) H Fc); lia| |done].
  intros c' s' (H' & F' & E' & K' & Cl). wp_step. destruct (inv_keep held s s' c' cs H' K' F' F) as [I' S']. cbn [fst snd].
  split_and!; try done. rewrite E'. destruct (Z.le_gt_cases amount (sc_len c)); [do 2 f_equal; lia|].
  rewrite !drop_ge; [done| |]; pose proof (content_len _ _ Fc) as Lc; unfold len in Lc; lia.
Qed.

(** ** Splitting and joining *)
Lemma split_point_spec at_ gs : forall offset index, Forall (fun g => 0 < segment_len g) gs -> offset < at_ <= offset + zsum segment_len gs ->
  exists l1 g l2, gs = l1 ++ g :: l2 /\ split_point at_ offset index gs = Some (index + len l1, at_ - offset - zsum segment_len l1) /\
    0 < at_ - offset - zsum segment_len l1 <= segment_len g.
Proof.
  induction gs as [|g gs IH]; intros offset index F Hr; [rewrite zsum_nil in Hr; lia|]. apply Forall_cons in F as [Hg F]. rewrite zsum_cons in Hr.
  cbn [split_point]. destruct (Z.leb_spec at_ (offset + segment_len g)).
  - exists [], g, gs. rewrite zsum_nil, len_nil, Z.add_0_r, Z.sub_0_r. split_and!; done || lia.
  - destruct (IH (offset + segment_len g) (index + 1) F) as (l1 & g' & l2 & -> & -> & Hw); [lia|].
    exists (g :: l1), g', l2. rewrite len_cons, zsum_cons. split_and!; [done|do 2 f_equal; lia|lia|lia].
Qed.

Lemma take_S_app_cons {A} (l k : list A) x : take (S (length l)) (l ++ x :: k) = l ++ [x].
Proof. induction l as [|y l IH]; [done|]. cbn in *. by rewrite IH. Qed.

Lemma drop_S_app_cons {A} (l k : list A) x : drop (S (length l)) (l ++ x :: k) = k.
Proof. induction l as [|y l IH]; [done|]. exact IH. Qed.

Definition split_post held s c cs at_ : SlabChain * SlabChain -> slabs -> Prop := fun r s' =>
  slab_inv held s' (r.1 :: r.2 :: cs) /\ same s s' cs /\
  content s' r.1 = take (Z.to_nat at_) (content s c) /\ content s' r.2 = drop (Z.to_nat at_) (content s c) /\
  sc_class r.1 = sc_class c /\ sc_class r.2 = sc_class c.

Lemma split_done held s s' c cs gs1 gs2 at_ : chain_ok s c -> Forall (chain_ok s) cs ->
  heap_ok held s' (map sg_allocation (gs1 ++ gs2) ++ refs cs) -> (forall q, cell_of s' q = cell_of s q) ->
  Forall (seg_ok s) (gs1 ++ gs2) -> flat_map (seg_bytes s) (gs1 ++ gs2) = content s c -> zsum segment_len gs1 = at_ ->
  split_post held s c cs at_ (mkChain (sc_class c) (sc_chunk_size c) at_ gs1, mkChain (sc_class c) (sc_chunk_size c) (sc_len c - at_) gs2) s'.
Proof.
  intros Fc F H Eb Fg Ec Ez. pose proof (content_len _ _ Fc) as Lc. rewrite <- Ec, segs_len, zsum_app in Lc by done.
  rewrite flat_map_app in Ec. apply Forall_app in Fg as [F1 F2]. pose proof (segs_len s gs1 F1) as L1.
  destruct (segs_keep s s' gs1) as [F1' E1]; [intros q _; apply Eb|done|]. destruct (segs_keep s s' gs2) as [F2' E2]; [intros q _; apply Eb|done|].
  destruct (chains_keep s s' cs) as [F' S']; [intros q _; apply Eb|done|].
  unfold split_post, slab_inv, content. cbn [fst snd sc_segments sc_class]. rewrite E1, E2. fold (content s c). rewrite <- Ec.
  assert (Z.to_nat at_ = length (flat_map (seg_bytes s) gs1)) as -> by (unfold len in L1; lia).
  rewrite take_app_length, drop_app_length. split_and!; try done.
  - unfold refs in *. cbn [flat_map sc_segments]. by rewrite (assoc_L (++)), <- map_app.
  - constructor; [|constructor; [|done]]; split; cbn; done || lia || apply Fc.
Qed.

Lemma chain_split_off_spec held s c cs at_ : slab_inv held s (c :: cs) -> 0 <= at_ <= len (content s c) ->
  wp (chain_split_off at_ c) s (split_post held s c cs at_) (fun _ _ => False).
Proof.
  intros I Ha. destruct (inv_head _ _ _ _ I) as (H & Fc & F). rewrite (content_len _ _ Fc) in Ha. pose proof Fc as [Fs L Ck].
  assert (forall gs1 gs2, gs1 ++ gs2 = sc_segments c -> zsum segment_len gs1 = at_ -> split_post held s c cs at_
    (mkChain (sc_class c) (sc_chunk_size c) at_ gs1, mkChain (sc_class c) (sc_chunk_size c) (sc_len c - at_) gs2) s) as Whole
    by (intros gs1 gs2 E Ez; apply split_done; rewrite ?E; done).
  unfold chain_split_off, chain_new. destruct (Z.ltb_spec (sc_len c) at_); [lia|]. rewrite (proj2 (Z.leb_gt _ _) Ck).
  wp_step. wp_step. unfold mret at 1, outcome_ret.
  destruct (Z.eqb_spec at_ (sc_len c)) as [->|].
  { wp_step. rewrite Z.sub_diag in Whole. destruct c; cbn in *. apply (Whole _ []); [apply app_nil_r|done]. }
  destruct (Z.eqb_spec at_ 0) as [->|].
  { wp_step. rewrite Z.sub_0_r in Whole. by apply (Whole []). }
  destruct (split_point_spec at_ (sc_segments c) 0 0) as (l1 & g & l2 & Es & -> & Hw); [|lia|].
  { eapply Forall_impl; [exact Fs|]. intros g Hg. exact (proj2 (seg_len s g Hg)). }
  rewrite Z.sub_0_r, Z.add_0_l in *. cbn [expect]. do 2 wp_step. assert (get (sc_segments c) (len l1) = Some g) as Eg.
  { unfold get, len. rewrite Es, (proj2 (Z.leb_le 0 _)), Nat2Z.id by lia. by apply list_lookup_middle. }
  rewrite (idx_get _ _ _ Eg).
  set (w := at_ - zsum segment_len l1) in *. wp_step. wp_step. unfold len. rewrite Nat2Z.id.
  destruct (Z.eqb_spec w (segment_len g)).
  { wp_step. apply Whole; [apply take_drop|]. rewrite Es, take_S_app_cons, zsum_app, zsum_singleton. lia. }
  destruct (Z.eqb_spec w 0); [lia|]. pose proof Fs as Fs'. rewrite Es in Fs'. apply Forall_app in Fs' as [F1 [Fg F2]%Forall_cons].
  destruct (seg_cut s g w Fg) as (Sf & Sb & Ef & Eb); [lia|].
  wp_step. eapply wp_mono; [apply (arc_clone_spec held s _ (sg_allocation g) H)| |done].
  { rewrite Es, map_app. set_solver. }
  intros p s' (-> & H' & Eq). wp_step. apply split_done; try done.
  - eapply heap_perm; [reflexivity| |exact H'].
    rewrite Es, take_app_length, drop_S_app_cons, !map_app. cbn. solve_Permutation.
  - rewrite Es, take_app_length, drop_S_app_cons. rewrite Forall_app, Forall_cons. split; [apply Forall_app; split; [done|by repeat constructor]|done].
  - unfold content. rewrite Es, take_app_length, drop_S_app_cons, !flat_map_app. cbn [flat_map]. rewrite !app_nil_r, <- !(assoc_L (++)), Ef, Eb.
    f_equal. by rewrite (assoc_L (++)), take_drop.
  - rewrite Es, take_app_length, zsum_app, zsum_singleton.
    replace (segment_len (mkSegment _ _ _)) with w by (unfold segment_len; cbn; lia). subst w. lia.
Qed.

Lemma chain_append_chain_spec held s c o cs : slab_inv held s (c :: o :: cs) -> sc_class c = sc_class o -> sc_len c + sc_len o <= u64_max ->
  wp (chain_append_chain o c) s
    (fun c' s' => s' = s /\ slab_inv held s (c' :: cs) /\ content s c' = content s c ++ content s o) (fun _ _ => False).
Proof.
  intros [H F] Ecl Hl. apply Forall_cons in F as [Fc [Fo F]%Forall_cons].
  pose proof (len_nonneg (content s c)) as N1. pose proof (len_nonneg (content s o)) as N2. rewrite (content_len _ _ Fc) in N1. rewrite (content_len _ _ Fo) in N2.
  destruct Fc as [F1 L1 C1], Fo as [F2 L2 C2]. unfold chain_append_chain, uadd.
  rewrite bool_decide_true by done. cbn [negb]. rewrite wrap64_small by lia. wp_step.
  split_and!; [done| |unfold content; cbn; apply flat_map_app]. split.
  - unfold refs in *. cbn in *. by rewrite map_app, <- (assoc_L (++)).
  - constructor; [|done]. split; cbn; [by apply Forall_app|by rewrite zsum_app, L1, L2|done].
Qed.

Lemma inv_perm held s cs cs' : Permutation cs cs' -> slab_inv held s cs -> slab_inv held s cs'.
Proof.
  intros P [H F]. split; [|by rewrite <- P]. eapply heap_perm; [reflexivity| |exact H]. unfold refs. by rewrite P.
Qed.

(** ** Any sequence of calls *)
Definition select {A} (i : nat) (l : list A) : list A :=
  match l !! i with Some x => x :: take i l ++ drop (S i) l | None => l end.

Lemma select_perm {A} i (l : list A) : Permutation l (select i l).
Proof.
  unfold select. destruct (l !! i) as [x|] eqn:E; [|done]. rewrite <- (take_drop_middle l i x E) at 1. symmetry. apply Permutation_middle.
Qed.

Lemma select_map {A B} (f : A -> B) i l : map f (select i l) = select i (map f l).
Proof.
  unfold select. change (map f l) with (f <$> l). rewrite list_lookup_fmap. destruct (l !! i) as [x|]; [|done].
  cbn. by rewrite map_app, fmap_take, fmap_drop.
Qed.
End Heap.

Inductive slab_call :=
  | CallNew (c : SlabClass) (chunk_size : Z)
  | CallSelect (i : nat)
  | CallAppend (bytes : list Z)
  | CallConsume (amount : Z)
  | CallSplit (at_ : Z)
  | CallJoin
  | CallDrop.

Inductive slab_result := Done | Consumed (n : Z) | Refused (e : BudgetError).

(** A call on the first chain (the second is what [append_chain] takes). *)
Definition slab_run (b : ResourceBudget) (call : slab_call) (cs : list SlabChain) : HM (list SlabChain * slab_result) :=
  match call, cs with
  | CallNew c n, _ => x ← lift (chain_new c n); mret (x :: cs, Done)
  | CallSelect i, _ => mret (select i cs, Done)
  | CallAppend bytes, c :: cs =>
    r ← attempt (chain_append b bytes c);
    match r with inl c' => mret (c' :: cs, Done) | inr e => mret (c :: cs, Refused e) end
  | CallConsume amount, c :: cs => '(c', n) ← chain_consume amount c; mret (c' :: cs, Consumed n)
  | CallSplit at_, c :: cs => '(c1, c2) ← chain_split_off at_ c; mret (c1 :: c2 :: cs, Done)
  | CallJoin, c :: o :: cs => c' ← chain_append_chain o c; mret (c' :: cs, Done)
  | CallDrop, c :: cs => _ ← chain_drop c; mret (cs, Done)
  | _, _ => lift Panic
  end.

(** What a caller may ask, from what [len] tells. *)
Definition permitted (call : slab_call) (cs : list SlabChain) : Prop :=
  match call, cs with
  | CallNew _ n, _ => 0 < n
  | CallSelect _, _ => True
  | CallAppend bytes, _ :: _ => len bytes <= u64_max
  | CallConsume amount, _ :: _ => 0 <= amount
  | CallSplit at_, c :: _ => 0 <= at_ <= sc_len c
  | CallJoin, c :: o :: _ => sc_class c = sc_class o /\ sc_len c + sc_len o <= u64_max
  | CallDrop, _ :: _ => True
  | _, _ => False
  end.

(** The promise: the chains are strings of bytes. *)
Inductive bytes_step : slab_call -> list (list Z) -> slab_result -> list (list Z) -> Prop :=
  | bs_new c n xs : bytes_step (CallNew c n) xs Done ([] :: xs)
  | bs_select i xs : bytes_step (CallSelect i) xs Done (select i xs)
  | bs_append bytes x xs : bytes_step (CallAppend bytes) (x :: xs) Done ((x ++ bytes) :: xs)
  | bs_refused bytes x xs e : bytes_step (CallAppend bytes) (x :: xs) (Refused e) (x :: xs)
  | bs_consume n x xs : bytes_step (CallConsume n) (x :: xs) (Consumed (Z.min n (len x))) (drop (Z.to_nat n) x :: xs)
  | bs_split at_ x xs : bytes_step (CallSplit at_) (x :: xs) Done (take (Z.to_nat at_) x :: drop (Z.to_nat at_) x :: xs)
  | bs_join x y xs : bytes_step CallJoin (x :: y :: xs) Done ((x ++ y) :: xs)
  | bs_drop x xs : bytes_step CallDrop (x :: xs) Done xs.

Inductive slab_reaches (b : ResourceBudget) (l : ResourceLedger) : list SlabChain -> slabs -> Prop :=
  | slab_start : slab_reaches b l [] (mkStore 0 ∅, l)
  | slab_calls cs s call cs' r s' : slab_reaches b l cs s -> permitted call cs ->
      slab_run b call cs s = (s', Ok (cs', r)) -> slab_reaches b l cs' s'.

Section Calls.
Context (b : ResourceBudget) (rest : holdings) (Hb : budget_range b) (held : list BudgetLease).
Abbreviation inv := (slab_inv b rest held).
Abbreviation views s := (map (content s)).

Lemma same_views s s' cs : same s s' cs -> views s' cs = views s cs.
Proof. induction 1 as [|c cs E _ IH]; [done|]. cbn. by rewrite E, IH. Qed.

Lemma slab_run_refines s cs call : inv s cs -> permitted call cs ->
  wp (slab_run b call cs) s (fun p s' => inv s' p.1 /\ bytes_step call (views s cs) p.2 (views s' p.1)) (fun _ _ => False).
Proof.
  intros I P. destruct call as [cl n|i|bytes|n|at_| |]; cbn [slab_run permitted] in *; try (destruct cs as [|c cs]; [done|]).
  - wp_step. wp_step. unfold chain_new. rewrite (proj2 (Z.leb_gt _ _) P). unfold mret at 1, outcome_ret. wp_step. cbn [fst snd]. split; [|constructor].
    destruct I as [H F]. split; [done|]. constructor; [|done]. by split.
  - wp_step. cbn [fst snd]. split; [by eapply inv_perm; [apply select_perm|]|]. rewrite select_map. constructor.
  - wp_step. wp_step. eapply wp_mono; [by apply (chain_append_spec b rest Hb held)|..]; cbn beta.
    + intros c' s' (I' & S' & E & _). wp_step. cbn [fst snd map]. rewrite E, (same_views _ _ _ S'). by split; [|constructor].
    + intros e s' (I' & S' & _). wp_step. cbn [fst snd]. rewrite (same_views _ _ _ S'). by split; [|constructor].
  - wp_step. eapply wp_mono; [by apply (chain_consume_spec b rest Hb held)| |done].
    intros [c' k] s' (I' & S' & E & Ek & _). cbn [fst snd] in *. wp_step. cbn [fst snd map]. rewrite E, Ek, (same_views _ _ _ S'). by split; [|constructor].
  - wp_step. pose proof (content_len s c (proj1 (proj2 (inv_head _ _ _ _ _ _ I)))) as Lc.
    eapply wp_mono; [apply (chain_split_off_spec b rest Hb held); [done|by rewrite Lc]| |done].
    intros [c1 c2] s' (I' & S' & E1 & E2 & _). cbn [fst snd] in *. wp_step. cbn [fst snd map]. rewrite E1, E2, (same_views _ _ _ S'). by split; [|constructor].
  - destruct cs as [|o cs]; [done|]. destruct P as [Pc Pl]. wp_step. eapply wp_mono; [by apply (chain_append_chain_spec b rest held)| |done].
    intros c' s' (-> & I' & E). wp_step. cbn [fst snd map]. rewrite E. by split; [|constructor].
  - wp_step. eapply wp_mono; [by apply (chain_drop_spec b rest Hb held)| |done].
    intros _ s' (I' & S'). wp_step. cbn [fst snd map]. rewrite (same_views _ _ _ S'). by split; [|constructor].
Qed.

Lemma inv_nil s : inv s [] -> ss_cells s.1 = ∅.
Proof.
  intros [H _]. apply map_eq. intros p. rewrite lookup_empty. destruct (ss_cells s.1 !! p) as [[n a]|] eqn:E; [|done].
  destruct (hp_count _ _ _ _ _ H _ _ _ E) as [-> Hn]. done.
Qed.

(** The references decide the heap, once the allocations are kept. *)
Lemma heap_determined s s' rs : heap_ok b rest held s rs -> heap_ok b rest held s' rs -> keeps s s' rs -> ss_cells s'.1 = ss_cells s.1.
Proof.
  intros H H' K. apply map_eq. intros p. destruct (decide (p ∈ rs)) as [Hp|Hp].
  - specialize (K p Hp). unfold cell_of in K. destruct (heap_live _ _ _ _ _ _ H Hp) as (n & a & E). destruct (heap_live _ _ _ _ _ _ H' Hp) as (n' & a' & E').
    rewrite E, E' in *. cbn in K. injection K as ->. by rewrite (proj1 (hp_count _ _ _ _ _ H _ _ _ E)), (proj1 (hp_count _ _ _ _ _ H' _ _ _ E')).
  - assert (forall t, heap_ok b rest held t rs -> ss_cells t.1 !! p = None) as N; [|by rewrite !N].
    intros t Ht. destruct (ss_cells t.1 !! p) as [[n a]|] eqn:E; [|done]. destruct (hp_count _ _ _ _ _ Ht _ _ _ E) as [-> Hn].
    by apply uses_pos in Hn.
Qed.

Lemma accounts_same l l' ls : accounts b rest l ls -> accounts b rest l' ls -> l_total l' = l_total l /\ forall k, l_used l' k = l_used l k.
Proof.
  intros A A'. rewrite (ac_total _ _ _ _ A), (ac_total _ _ _ _ A'). split; [done|].
  intros k. by rewrite (ac_used _ _ _ _ A), (ac_used _ _ _ _ A').
Qed.
End Calls.

Lemma slab_reaches_inv b rest l cs s : budget_range b -> accounts b rest l [] -> slab_reaches b l cs s -> slab_inv b rest [] s cs.
Proof.
  intros Hb A. induction 1 as [|cs s call cs' r s' R IH P E].
  - split; [|constructor]. split; cbn [refs flat_map]; try done.
  - pose proof (slab_run_refines b rest Hb [] s cs call IH P) as W. unfold wp in W. rewrite E in W. apply W.
Qed.


(** C31: after any sequence of permitted calls ([new], [append], [consume],
    [split_off], [append_chain], dropping, on any of the chains) from an empty
    heap, [to_vec] of every chain is its string of bytes and [len] its length; and
    every further permitted call returns, without panicking, and does to the
    strings what the strings' own operation does, leaving all others alone. *)
Theorem slab_chains_are_byte_strings (b : ResourceBudget) (rest : holdings) (l : ResourceLedger) (cs : list SlabChain) (s : slabs) :
  budget_range b -> accounts b rest l [] -> slab_reaches b l cs s ->
  (forall c, c ∈ cs -> chain_to_vec c s = (s, Ok (content s c)) /\ len (content s c) = sc_len c) /\
  (forall call, permitted call cs -> exists s' cs' r, slab_run b call cs s = (s', Ok (cs', r)) /\
     bytes_step call (map (content s) cs) r (map (content s') cs')).
Proof.
  intros Hb A R. pose proof (slab_reaches_inv b rest l cs s Hb A R) as I. split.
  - intros c Hc. destruct I as [_ F]. rewrite Forall_forall in F. specialize (F c Hc). split; [by apply to_vec_spec|by apply content_len].
  - intros call P. pose proof (slab_run_refines b rest Hb [] s cs call I P) as W. unfold wp in W.
    destruct (slab_run b call cs s) as [s' [[cs' r]|e| |]]; try done. exists s', cs', r. split; [done|apply W].
Qed.

(** C32: what the chains cost: at every moment the ledger is charged for exactly the
    allocations some segment points to, each once however often it is shared (its
    strong count is the number of those segments); when the last chain is gone the
    heap is empty and the ledger is what it was before the first. *)
Theorem slab_charged_while_referenced (b : ResourceBudget) (rest : holdings) (l : ResourceLedger) (cs : list SlabChain) (s : slabs) :
  budget_range b -> accounts b rest l [] -> slab_reaches b l cs s ->
  (forall p n a, ss_cells s.1 !! p = Some (n, a) -> n = uses p (refs cs) /\ 1 <= n) /\
  (forall p, p ∈ refs cs -> is_Some (ss_cells s.1 !! p)) /\
  l_total s.2 = l_total l + zsum lease_total (cell_leases s) /\
  (forall k, l_used s.2 k = l_used l k + zsum (lease_pool k) (cell_leases s)) /\
  (cs = [] -> ss_cells s.1 = ∅ /\ l_total s.2 = l_total l /\ forall k, l_used s.2 k = l_used l k).
Proof.
  intros Hb A R. pose proof (slab_reaches_inv b rest l cs s Hb A R) as I. pose proof I as [H _].
  pose proof (hp_accounts _ _ _ _ _ H) as A'. rewrite app_nil_r in A'. split_and!.
  - intros p n a. apply (hp_count _ _ _ _ _ H).
  - intros p Hp. destruct (heap_live _ _ _ _ _ _ H Hp) as (n & a & ->). by eexists.
  - rewrite (ac_total _ _ _ _ A), (ac_total _ _ _ _ A'), zsum_nil. lia.
  - intros k. rewrite (ac_used _ _ _ _ A), (ac_used _ _ _ _ A'), zsum_nil. lia.
  - intros ->. pose proof (inv_nil b rest [] s I) as E. split; [done|]. apply (accounts_same b rest _ _ [] A).
    unfold cell_leases in A'. rewrite E in A'. exact A'.
Qed.

(** C33: [append] appends all bytes or leaves every chain, and every counter of the
    ledger, as they were; it refuses only when the length would overflow or when
    the limits cannot hold all the chunks with their metadata charge. *)
Theorem slab_append_all_or_nothing (b : ResourceBudget) (rest : holdings) (l : ResourceLedger) (c : SlabChain) (cs : list SlabChain)
    (s : slabs) (bytes : list Z) :
  budget_range b -> accounts b rest l [] -> slab_reaches b l (c :: cs) s -> len bytes <= u64_max ->
  (exists s' c', chain_append b bytes c s = (s', Ok c') /\ chain_to_vec c' s' = (s', Ok (content s c ++ bytes)) /\
     forall o, o ∈ cs -> chain_to_vec o s' = (s', Ok (content s o))) \/
  (exists s' e, chain_append b bytes c s = (s', Err e) /\ (forall o, o ∈ c :: cs -> chain_to_vec o s' = (s', Ok (content s o))) /\
     l_total s'.2 = l_total s.2 /\ (forall k, l_used s'.2 k = l_used s.2 k) /\
     (u64_max < sc_len c + len bytes \/
      ~ affords b rest (flat_map (chunk_leases (sc_class c)) (chunks (sc_chunk_size c) bytes) ++ cell_leases s))).
Proof.
  intros Hb A R Hl. pose proof (slab_reaches_inv b rest l _ s Hb A R) as I. pose proof (chain_append_spec b rest Hb [] s c cs bytes I Hl) as W.
  unfold wp in W. destruct (chain_append b bytes c s) as [s' [c'|e| |]]; try done.
  - left. destruct W as ([_ F] & S & E & _). exists s', c'. apply Forall_cons in F as [Fc F]. rewrite <- E.
    split_and!; [done|by apply to_vec_spec|]. intros o Ho. unfold same in S. rewrite Forall_forall in F, S. rewrite <- (S o Ho). by apply to_vec_spec, F.
  - right. destruct W as ([H F] & S & K & Na). exists s', e. split; [done|]. unfold same in S. rewrite Forall_forall in F, S.
    rewrite app_nil_r in Na. split; [intros o Ho; rewrite <- (S o Ho); by apply to_vec_spec, F|].
    pose proof (heap_determined b rest [] s s' _ (proj1 I) H K) as Ec. pose proof (hp_accounts _ _ _ _ _ H) as A'. unfold cell_leases in A'. rewrite Ec in A'.
    destruct (accounts_same b rest _ _ _ (hp_accounts _ _ _ _ _ (proj1 I)) A') as [Et Eu]. done.
Qed.

(** ** Examples *)
Definition slab_after (b : ResourceBudget) (call : slab_call) (st : list SlabChain * slabs) : list SlabChain * slabs :=
  match slab_run b call st.1 st.2 with (s', Ok (cs', _)) => (cs', s') | _ => st end.

Lemma reaches_after b l call st : slab_reaches b l st.1 st.2 -> permitted call st.1 ->
  slab_reaches b l (slab_after b call st).1 (slab_after b call st).2.
Proof.
  intros R P. unfold slab_after. destruct (slab_run b call st.1 st.2) as [s' [[cs' r]|e| |]] eqn:E; try done. by eapply slab_calls.
Qed.

(** Five bytes in chunks of two, split in the middle of the second chunk. *)
Definition sample_slabs : list SlabChain * slabs :=
  slab_after (budget Mobile) (CallSplit 3) (slab_after (budget Mobile) (CallAppend [1; 2; 3; 4; 5])
    (slab_after (budget Mobile) (CallNew Packet 2) ([], (mkStore 0 ∅, ledger_new)))).

Lemma sample_slabs_reached : slab_reaches (budget Mobile) ledger_new sample_slabs.1 sample_slabs.2.
Proof.
  apply reaches_after; [apply reaches_after; [apply reaches_after; [constructor|]|]|]; vm_compute; try split; done.
Qed.

Lemma slab_chains_are_byte_strings_witness : map (content sample_slabs.2) sample_slabs.1 = [[1; 2; 3]; [4; 5]] /\
  exists s' cs' r, slab_run (budget Mobile) (CallConsume 2) sample_slabs.1 sample_slabs.2 = (s', Ok (cs', r)) /\
    bytes_step (CallConsume 2) (map (content sample_slabs.2) sample_slabs.1) r (map (content s') cs').
Proof.
  split; [vm_compute; reflexivity|].
  apply (slab_chains_are_byte_strings (budget Mobile) nothing_held ledger_new sample_slabs.1 sample_slabs.2).
  - exact mobile_range.
  - exact nothing_accounted.
  - exact sample_slabs_reached.
  - vm_compute. discriminate.
Defined.

Lemma slab_charged_while_referenced_witness : uses 1 (refs sample_slabs.1) = 2 /\
  forall p, p ∈ refs sample_slabs.1 -> is_Some (ss_cells sample_slabs.2.1 !! p).
Proof.
  split; [vm_compute; reflexivity|].
  apply (slab_charged_while_referenced (budget Mobile) nothing_held ledger_new sample_slabs.1 sample_slabs.2).
  - exact mobile_range.
  - exact nothing_accounted.
  - exact sample_slabs_reached.
Defined.

Definition sample_chain : SlabChain := mkChain Packet 2 0 [].
Lemma slab_append_all_or_nothing_witness : exists s' c', chain_append (budget Mobile) [7; 8; 9] sample_chain (mkStore 0 ∅, ledger_new) = (s', Ok c') /\
  chain_to_vec c' s' = (s', Ok (content (mkStore 0 ∅, ledger_new) sample_chain ++ [7; 8; 9])).
Proof.
  destruct (slab_append_all_or_nothing (budget Mobile) nothing_held ledger_new sample_chain [] (mkStore 0 ∅, ledger_new) [7; 8; 9])
    as [(s' & c' & E & V & _)|(s' & e & E & _)].
  - exact mobile_range.
  - exact nothing_accounted.
  - exact (slab_calls _ _ [] _ (CallNew Packet 2) [sample_chain] Done _ (slab_start _ _) eq_refl eq_refl).
  - vm_compute. discriminate.
  - exists s', c'. split; [exact E|exact V].
  - exfalso. vm_compute in E. discriminate.
Defined.
