(* ===== verification/Udp.v ===== *)
(** The UDP session table of [sail-netstack/src/udp.rs]: flows by four-tuple and by
    identity, their idle timers, and the capabilities (tokens) handed out for
    replies.

    The state of a call is the table with the heap of payload buffers and the
    ledger it shares.  The table is written against the timer interface.  [iter]
    is the order in which the hash map of flows is walked, [hash_one] the keyed
    hash of the table ([RandomState]), [le] the byte order of the machine. *)
From S2P Require Import Prelude StateMonad Checksum IpWire Budget Timer TimerRefine TimerInterface Leases Slab Pmtu.
From stdpp Require Import list gmap.
#[local] Open Scope Z_scope.

(** ** Identities ([api/types.rs]) *)
Record UdpFlowToken := mkUdpFlowToken { ut_flow : Z; ut_generation : Z; ut_shard : Z }.
Definition is_current (t : UdpFlowToken) (generation : Z) : bool := ut_generation t =? generation.
Definition is_owned_by (t : UdpFlowToken) (generation shard : Z) : bool := is_current t generation && (ut_shard t =? shard).

(** ** Data *)
Definition UDP_FLOW_METADATA_CHARGE : Z := 256.
Definition UDP_TIMER_MIN_TICK_MS : Z := 10.
(** [udp.rs] has its own constant of this name and value. *)
Definition UDP_SAFE_DELTA_TICKS : Z := 4294967294.

Record UdpFlowKey := mkUdpFlowKey { uk_source : SocketAddr; uk_destination : SocketAddr; uk_generation : Z }.

#[export] Instance SocketAddr_countable : Countable SocketAddr.
Proof. apply (inj_countable' (fun a => (sa_ip a, sa_port a, sa_flowinfo a, sa_scope_id a)) (fun p => mkSocketAddrV6 p.1.1.1 p.1.1.2 p.1.2 p.2)). by intros []. Defined.
#[export] Instance UdpFlowKey_eq_dec : EqDecision UdpFlowKey.
Proof. solve_decision. Defined.
#[export] Instance UdpFlowKey_countable : Countable UdpFlowKey.
Proof.
  apply (inj_countable' (fun k => (uk_source k, uk_destination k, uk_generation k)) (fun p => mkUdpFlowKey p.1.1 p.1.2 p.2)). by intros [].
Defined.

Record UdpFlow := mkUdpFlow {
  uf_id : Z;
  uf_last_seen_ms : Z;
  uf_expiry_timer : TimerId;
  uf_flow_lease : BudgetLease;
  uf_metadata_lease : BudgetLease
}.

Record UdpIngress := mkUdpIngress {
  ui_token : UdpFlowToken;
  ui_source : SocketAddr;
  ui_destination : SocketAddr;
  ui_payload : SlabChain
}.

Record UdpTableStats := mkUdpTableStats {
  us_active_flows : Z; us_peak_active_flows : Z; us_created_flows : Z; us_expired_flows : Z;
  us_stale_replies : Z; us_malformed_packets : Z; us_invalid_address_drops : Z
}.

Inductive UdpError :=
| UdpWire (e : WireError)
| UdpBudget (e : BudgetError)
| StaleToken
| UdpClockWentBackwards
| UdpTimer (e : TimerError)
| NewFlowsDisabled
| InvalidAddress
| AddressInUse.

(** [From<TimerError>]. *)
Definition udp_timer_error (e : TimerError) : UdpError :=
  match e with ClockWentBackwards _ _ => UdpClockWentBackwards | DeadlineOutOfRange => UdpTimer e end.

(** The counters. *)
Definition count_stale (s : UdpTableStats) : UdpTableStats :=
  mkUdpTableStats (us_active_flows s) (us_peak_active_flows s) (us_created_flows s) (us_expired_flows s)
    (sat_add (us_stale_replies s) 1) (us_malformed_packets s) (us_invalid_address_drops s).
Definition count_malformed (s : UdpTableStats) : UdpTableStats :=
  mkUdpTableStats (us_active_flows s) (us_peak_active_flows s) (us_created_flows s) (us_expired_flows s)
    (us_stale_replies s) (sat_add (us_malformed_packets s) 1) (us_invalid_address_drops s).
Definition count_invalid (s : UdpTableStats) : UdpTableStats :=
  mkUdpTableStats (us_active_flows s) (us_peak_active_flows s) (us_created_flows s) (us_expired_flows s)
    (us_stale_replies s) (us_malformed_packets s) (sat_add (us_invalid_address_drops s) 1).
Definition count_created (s : UdpTableStats) : UdpTableStats :=
  mkUdpTableStats (us_active_flows s) (us_peak_active_flows s) (sat_add (us_created_flows s) 1) (us_expired_flows s)
    (us_stale_replies s) (us_malformed_packets s) (us_invalid_address_drops s).
Definition count_flows (n : Z) (s : UdpTableStats) : UdpTableStats :=
  mkUdpTableStats n (Z.max (us_peak_active_flows s) n) (us_created_flows s) (us_expired_flows s)
    (us_stale_replies s) (us_malformed_packets s) (us_invalid_address_drops s).
Definition count_removed (removed n : Z) (s : UdpTableStats) : UdpTableStats :=
  mkUdpTableStats n (us_peak_active_flows s) (us_created_flows s) (sat_add (us_expired_flows s) removed)
    (us_stale_replies s) (us_malformed_packets s) (us_invalid_address_drops s).
Definition count_none (s : UdpTableStats) : UdpTableStats :=
  mkUdpTableStats 0 (us_peak_active_flows s) (us_created_flows s) (us_expired_flows s)
    (us_stale_replies s) (us_malformed_packets s) (us_invalid_address_drops s).

(** ** The table *)
Section Table.
Context {W : Type} `{!TimerQueue UdpFlowKey W} (budget : ResourceBudget) (le : bool)
  (hash_one : SocketAddr * IpAddr * Z -> Z) (iter : gmap UdpFlowKey UdpFlow -> list UdpFlowKey).

Record UdpTable := mkUdpTable {
  u_generation : Z;
  u_shard : Z;
  u_idle_timeout_ms : Z;
  u_payload_chunk_size : Z;
  u_last_now_ms : Z;
  u_timeout_divisor : Z;
  u_expiry_tick_ms : Z;
  u_expiry : W;
  u_next_flow_id : Z;
  u_by_key : gmap UdpFlowKey UdpFlow;
  u_by_id : gmap Z UdpFlowKey;
  u_stats : UdpTableStats
}.

Definition ustate : Type := UdpTable * slabs.
Definition UM (A : Type) : Type := sm ustate UdpError A.

Definition set_generation v t := mkUdpTable v (u_shard t) (u_idle_timeout_ms t) (u_payload_chunk_size t) (u_last_now_ms t)
  (u_timeout_divisor t) (u_expiry_tick_ms t) (u_expiry t) (u_next_flow_id t) (u_by_key t) (u_by_id t) (u_stats t).
Definition set_now v t := mkUdpTable (u_generation t) (u_shard t) (u_idle_timeout_ms t) (u_payload_chunk_size t) v
  (u_timeout_divisor t) (u_expiry_tick_ms t) (u_expiry t) (u_next_flow_id t) (u_by_key t) (u_by_id t) (u_stats t).
Definition set_divisor v t := mkUdpTable (u_generation t) (u_shard t) (u_idle_timeout_ms t) (u_payload_chunk_size t) (u_last_now_ms t)
  v (u_expiry_tick_ms t) (u_expiry t) (u_next_flow_id t) (u_by_key t) (u_by_id t) (u_stats t).
Definition set_wheel v t := mkUdpTable (u_generation t) (u_shard t) (u_idle_timeout_ms t) (u_payload_chunk_size t) (u_last_now_ms t)
  (u_timeout_divisor t) (u_expiry_tick_ms t) v (u_next_flow_id t) (u_by_key t) (u_by_id t) (u_stats t).
Definition set_next_flow_id v t := mkUdpTable (u_generation t) (u_shard t) (u_idle_timeout_ms t) (u_payload_chunk_size t) (u_last_now_ms t)
  (u_timeout_divisor t) (u_expiry_tick_ms t) (u_expiry t) v (u_by_key t) (u_by_id t) (u_stats t).
Definition set_udp_flows by_key by_id t := mkUdpTable (u_generation t) (u_shard t) (u_idle_timeout_ms t) (u_payload_chunk_size t) (u_last_now_ms t)
  (u_timeout_divisor t) (u_expiry_tick_ms t) (u_expiry t) (u_next_flow_id t) by_key by_id (u_stats t).
Definition on_stats f t := mkUdpTable (u_generation t) (u_shard t) (u_idle_timeout_ms t) (u_payload_chunk_size t) (u_last_now_ms t)
  (u_timeout_divisor t) (u_expiry_tick_ms t) (u_expiry t) (u_next_flow_id t) (u_by_key t) (u_by_id t) (f (u_stats t)).

Definition on_flows (f : UdpTable -> UdpTable) : UM unit := modify (fun s => (f s.1, s.2)).
Definition on_wheel {A} (m : W -> W * outcome TimerError A) : UM A :=
  on (fun s => u_expiry s.1) (fun w s => (set_wheel w s.1, s.2)) udp_timer_error m.
Definition on_slabs {A} (m : HM A) : UM A := on snd (fun h s => (s.1, h)) UdpBudget m.
Definition cancel_timer (id : TimerId) : UM unit := on_wheel (fun w => let '(w, _) := tq_cancel id w in (w, Ok tt)).
(** [TimerWheel::new], which panics on a zero tick. *)
Definition fresh_wheel (tick_ms now_ms : Z) : UM W := lift (match tq_new tick_ms now_ms with Ok w => Ok w | _ => Panic end).
Definition drop_flow_lease (x : BudgetLease) : UM unit := modify (fun s => (s.1, (s.2.1, drop_lease x s.2.2))).

(** ** Time *)
Definition udp_expiry_tick (idle_timeout_ms : Z) : Z := Z.max (div_ceil idle_timeout_ms UDP_SAFE_DELTA_TICKS) UDP_TIMER_MIN_TICK_MS.

Definition udp_update_time (now_ms : Z) : UM unit :=
  s ← get_state;
  if now_ms <? u_last_now_ms s.1 then throw UdpClockWentBackwards else on_flows (set_now now_ms).

Definition udp_effective_timeout (t : UdpTable) (timeout_divisor : Z) : Z :=
  Z.max (u_idle_timeout_ms t / Z.max timeout_divisor 1) 1.

Definition expiry_deadline (t : UdpTable) (last_seen_ms timeout_divisor : Z) : Z :=
  sat_add last_seen_ms (udp_effective_timeout t timeout_divisor).

(** [by_key.remove] of a present flow: dropping it gives its leases back. *)
Definition remove_flow (key : UdpFlowKey) (flow : UdpFlow) (s : ustate) : ustate :=
  (set_udp_flows (delete key (u_by_key s.1)) (delete (uf_id flow) (u_by_id s.1)) s.1,
   (s.2.1, drop_lease (uf_metadata_lease flow) (drop_lease (uf_flow_lease flow) s.2.2))).

Fixpoint remove_loop (expired : list UdpFlowKey) (removed : Z) : UM Z :=
  match expired with
  | [] => mret removed
  | key :: expired =>
    s ← get_state;
    match u_by_key s.1 !! key with
    | Some flow => _ ← modify (remove_flow key flow); remove_loop expired (removed + 1)
    | None => remove_loop expired removed
    end
  end.
Definition remove_expired (expired : list UdpFlowKey) : UM Z :=
  removed ← remove_loop expired 0;
  _ ← on_flows (fun t => on_stats (count_removed removed (Z.of_nat (size (u_by_key t)))) t);
  mret removed.

Definition udp_expire_due (now_ms : Z) : UM Z :=
  expired ← on_wheel (tq_advance now_ms);
  remove_expired expired.

(** The loop of [udp_rebuild_expiry], over the flows as the map yields them. *)
Fixpoint rebuild_loop (now_ms timeout : Z) (keys expired : list UdpFlowKey) : UM (list UdpFlowKey) :=
  match keys with
  | [] => mret expired
  | key :: keys =>
    s ← get_state;
    match u_by_key s.1 !! key with
    | None => rebuild_loop now_ms timeout keys expired
    | Some flow =>
      if timeout <=? sat_sub now_ms (uf_last_seen_ms flow) then rebuild_loop now_ms timeout keys (expired ++ [key])
      else
        timer ← on_wheel (tq_schedule (sat_add (uf_last_seen_ms flow) timeout) key);
        let flow' := mkUdpFlow (uf_id flow) (uf_last_seen_ms flow) timer (uf_flow_lease flow) (uf_metadata_lease flow) in
        _ ← on_flows (fun t => set_udp_flows (<[key := flow']> (u_by_key t)) (u_by_id t) t);
        rebuild_loop now_ms timeout keys expired
    end
  end.
Definition udp_rebuild_expiry (now_ms timeout_divisor : Z) : UM (list UdpFlowKey) :=
  s ← get_state;
  let timeout := udp_effective_timeout s.1 timeout_divisor in
  w ← fresh_wheel (u_expiry_tick_ms s.1) now_ms;
  _ ← on_flows (set_wheel w);
  expired ← rebuild_loop now_ms timeout (iter (u_by_key s.1)) [];
  _ ← on_flows (set_divisor timeout_divisor);
  mret expired.

Definition expire_idle_under_pressure (now_ms timeout_divisor : Z) : UM Z :=
  _ ← udp_update_time now_ms;
  let timeout_divisor := Z.max timeout_divisor 1 in
  s ← get_state;
  expired ← (if timeout_divisor =? u_timeout_divisor s.1 then on_wheel (tq_advance now_ms)
             else udp_rebuild_expiry now_ms timeout_divisor);
  remove_expired expired.
Definition expire_idle (now_ms : Z) : UM Z := expire_idle_under_pressure now_ms 1.

Definition udp_next_deadline_ms (t : UdpTable) : option Z := tq_next_deadline (u_expiry t).

(** ** Flows *)
Definition udp_schedule_expiry (deadline_ms : Z) (key : UdpFlowKey) (now_ms : Z) : UM TimerId :=
  r ← attempt (on_wheel (tq_schedule deadline_ms key));
  match r with
  | inl timer => mret timer
  | inr (UdpTimer DeadlineOutOfRange) =>
    _ ← udp_expire_due now_ms;
    on_wheel (tq_schedule deadline_ms key)
  | inr e => throw e
  end.

(** A new flow: each early return cancels the timer and gives the leases back. *)
Definition admit_flow (key : UdpFlowKey) (now_ms : Z) (timer : TimerId) : UM Z :=
  lease ← attempt (on_slabs (slab_acquire budget UdpFlows 1));
  match lease with
  | inr e => _ ← cancel_timer timer; throw e
  | inl lease =>
    metadata ← attempt (on_slabs (slab_acquire budget MetadataBytes UDP_FLOW_METADATA_CHARGE));
    match metadata with
    | inr e => _ ← cancel_timer timer; _ ← drop_flow_lease lease; throw e
    | inl metadata =>
      s ← get_state;
      let id := u_next_flow_id s.1 in
      _ ← on_flows (fun t => set_next_flow_id (wrap64 (u_next_flow_id t + 1)) t);
      _ ← on_flows (fun t => set_udp_flows (<[key := mkUdpFlow id now_ms timer lease metadata]> (u_by_key t)) (<[id := key]> (u_by_id t)) t);
      _ ← on_flows (on_stats count_created);
      mret id
    end
  end.

Definition touch_or_admit (key : UdpFlowKey) (now_ms : Z) : UM Z :=
  s ← get_state;
  timer ← udp_schedule_expiry (expiry_deadline s.1 now_ms (u_timeout_divisor s.1)) key now_ms;
  s ← get_state;
  id ← match u_by_key s.1 !! key with
       | Some flow =>
         _ ← cancel_timer (uf_expiry_timer flow);
         let flow' := mkUdpFlow (uf_id flow) now_ms timer (uf_flow_lease flow) (uf_metadata_lease flow) in
         _ ← on_flows (fun t => set_udp_flows (<[key := flow']> (u_by_key t)) (u_by_id t) t);
         mret (uf_id flow)
       | None => admit_flow key now_ms timer
       end;
  _ ← on_flows (fun t => on_stats (count_flows (Z.of_nat (size (u_by_key t)))) t);
  mret id.

(** A wire result; malformed packets are counted. *)
Definition parsing {A} (m : outcome WireError A) : UM A :=
  match m with
  | Ok a => mret a
  | Err e => _ ← on_flows (on_stats count_malformed); throw (UdpWire e)
  | Panic => lift Panic
  | OutOfFuel => lift OutOfFuel
  end.
Definition wire_result {A} (m : outcome WireError A) : UM A :=
  lift (match m with Ok a => Ok a | Err e => Err (UdpWire e) | Panic => Panic | OutOfFuel => OutOfFuel end).

Definition udp_new_on_shard (generation shard idle_timeout_ms payload_chunk_size : Z) : outcome TimerError UdpTable :=
  if (idle_timeout_ms <=? 0) || (payload_chunk_size <=? 0) then Panic
  else
    let expiry_tick_ms := udp_expiry_tick idle_timeout_ms in
    w ← tq_new expiry_tick_ms 0;
    mret (mkUdpTable generation shard idle_timeout_ms payload_chunk_size 0 1 expiry_tick_ms w 0 ∅ ∅ (mkUdpTableStats 0 0 0 0 0 0 0)).

Definition ingest_with_policy (packet : list Z) (now_ms : Z) (allow_new : bool) : UM UdpIngress :=
  _ ← udp_update_time now_ms;
  _ ← udp_expire_due now_ms;
  ip ← parsing (parse_ip_packet le packet true);
  datagram ← parsing (parse_udp_datagram le ip true);
  let src := udp_source datagram in
  let dst := udp_destination datagram in
  if negb (valid_flow_source (sa_ip src)) || negb (valid_flow_destination (sa_ip dst)) then
    _ ← on_flows (on_stats count_invalid); throw InvalidAddress
  else
    s ← get_state;
    let key := mkUdpFlowKey src dst (u_generation s.1) in
    if negb allow_new && negb (bool_decide (is_Some (u_by_key s.1 !! key))) then throw NewFlowsDisabled
    else
      chain ← on_slabs (lift (chain_new Packet (u_payload_chunk_size s.1)));
      chain ← on_slabs (chain_append budget (udp_payload datagram) chain);
      id ← attempt (touch_or_admit key now_ms);
      match id with
      | inr e => _ ← on_slabs (chain_drop chain); throw e
      | inl id => mret (mkUdpIngress (mkUdpFlowToken id (u_generation s.1) (u_shard s.1)) src dst chain)
      end.
Definition udp_ingest (packet : list Z) (now_ms : Z) : UM UdpIngress := ingest_with_policy packet now_ms true.

(** ** Originating *)
Definition EPHEMERAL_FIRST : Z := 49152.
Definition EPHEMERAL_SPAN : Z := 65536 - EPHEMERAL_FIRST.

Definition ephemeral_local (t : UdpTable) (local remote : SocketAddr) (usable : SocketAddr -> bool) : outcome UdpError SocketAddr :=
  let start := hash_one (remote, sa_ip local, u_next_flow_id t) in
  let candidate offset := mkSocketAddr (sa_ip local) (EPHEMERAL_FIRST + wrap64 (start + offset) mod EPHEMERAL_SPAN) in
  let free c := negb (bool_decide (is_Some (u_by_key t !! mkUdpFlowKey remote c (u_generation t)))) && usable c in
  ok_or (find free (map candidate (seqZ 0 EPHEMERAL_SPAN))) AddressInUse.

(** The last two of the eight bytes of the identity. *)
Definition flow_identification (id : Z) : Z := be16 (Z.land (Z.shiftr id 8) 255) (Z.land id 255).

Definition is_ipv4 (a : SocketAddr) : bool := match sa_ip a with V4 _ => true | V6 _ => false end.

Definition originate_using (local remote : SocketAddr) (payload : list Z) (now_ms : Z) (usable : SocketAddr -> bool)
    : UM (UdpFlowToken * SocketAddr * list Z) :=
  _ ← udp_update_time now_ms;
  _ ← udp_expire_due now_ms;
  if negb (eqb (is_ipv4 local) (is_ipv4 remote)) || (sa_port remote =? 0)
     || negb (valid_flow_source (sa_ip remote)) || negb (valid_flow_destination (sa_ip local))
  then throw InvalidAddress
  else
    s ← get_state;
    local ← lift (if sa_port local =? 0 then ephemeral_local s.1 local remote usable else Ok local);
    let key := mkUdpFlowKey remote local (u_generation s.1) in
    let id := match u_by_key s.1 !! key with Some flow => uf_id flow | None => u_next_flow_id s.1 end in
    wire ← wire_result (emit_udp_packet le local remote payload 64 (flow_identification id));
    admitted ← touch_or_admit key now_ms;
    if negb (admitted =? id) then lift Panic
    else mret (mkUdpFlowToken admitted (u_generation s.1) (u_shard s.1), local, wire).
Definition originate (local remote : SocketAddr) (payload : list Z) (now_ms : Z) : UM (UdpFlowToken * SocketAddr * list Z) :=
  originate_using local remote payload now_ms (fun _ => true).

(** ** Replying *)
Definition stale {A} : UM A := _ ← on_flows (on_stats count_stale); throw StaleToken.

Definition emit_reply (token : UdpFlowToken) (source : SocketAddr) (payload : list Z) (now_ms : Z) : UM (list Z) :=
  _ ← udp_update_time now_ms;
  _ ← udp_expire_due now_ms;
  s ← get_state;
  if negb (is_owned_by token (u_generation s.1) (u_shard s.1)) then stale
  else
    match u_by_id s.1 !! ut_flow token with
    | None => stale
    | Some key =>
      wire ← wire_result (emit_udp_packet le source (uk_source key) payload 64 (flow_identification (ut_flow token)));
      timer ← on_wheel (tq_schedule (expiry_deadline s.1 now_ms (u_timeout_divisor s.1)) key);
      match u_by_key s.1 !! key with
      | None => _ ← cancel_timer timer; stale
      | Some flow =>
        _ ← cancel_timer (uf_expiry_timer flow);
        let flow' := mkUdpFlow (uf_id flow) now_ms timer (uf_flow_lease flow) (uf_metadata_lease flow) in
        _ ← on_flows (fun t => set_udp_flows (<[key := flow']> (u_by_key t)) (u_by_id t) t);
        mret wire
      end
    end.

Definition has_quoted_reply (t : UdpTable) (quoted_source quoted_destination : SocketAddr) : bool :=
  bool_decide (is_Some (u_by_key t !! mkUdpFlowKey quoted_destination quoted_source (u_generation t))).

(** ** Clearing *)
Definition drop_flows (fs : gmap UdpFlowKey UdpFlow) (l : ResourceLedger) : ResourceLedger :=
  foldr (fun p l => drop_lease (uf_metadata_lease p.2) (drop_lease (uf_flow_lease p.2) l)) l (map_to_list fs).
Definition udp_clear : UM unit :=
  s ← get_state;
  _ ← modify (fun s => (set_udp_flows ∅ ∅ s.1, (s.2.1, drop_flows (u_by_key s.1) s.2.2)));
  w ← fresh_wheel (u_expiry_tick_ms s.1) (u_last_now_ms s.1);
  _ ← on_flows (set_wheel w);
  on_flows (on_stats count_none).
Definition udp_reset_network (generation : Z) : UM unit :=
  _ ← on_flows (set_generation generation);
  udp_clear.
End Table.
