(* ===== verification/UdpInv.v ===== *)
(** The invariant of the UDP table ([sail-netstack/src/udp.rs]) and what each of its
    steps does: one timer and one identity per flow, and leases that follow the
    flows and the payloads. *)
From S2P Require Import Prelude StateMonad Checksum IpWire Budget Timer TimerRefine TimerInterface Leases ExpiryIndex Slab SlabTheorems Udp.
From stdpp Require Import list gmap.
#[local] Open Scope Z_scope.

Definition flow_leases (f : UdpFlow) : list BudgetLease := [uf_flow_lease f; uf_metadata_lease f].
Abbreviation flows_leases := (map_leases flow_leases).
Definition flow_deadline (timeout : Z) (f : UdpFlow) : Z := sat_add (uf_last_seen_ms f) timeout.

Definition addr_ok (a : SocketAddr) : Prop := ip_wf (sa_ip a) /\ is_u16 (sa_port a).
Definition key_ok (k : UdpFlowKey) : Prop := addr_ok (uk_source k) /\ addr_ok (uk_destination k).

(** The identities are the other way round. *)
Definition identified (fs : gmap UdpFlowKey UdpFlow) (ids : gmap Z UdpFlowKey) : Prop :=
  forall id k, ids !! id = Some k <-> exists f, fs !! k = Some f /\ uf_id f = id.

Lemma identified_lookup fs ids k f : identified fs ids -> fs !! k = Some f -> ids !! uf_id f = Some k.
Proof. intros I E. apply I. by exists f. Qed.

Lemma identified_delete fs ids k f : identified fs ids -> fs !! k = Some f -> identified (delete k fs) (delete (uf_id f) ids).
Proof.
  intros I E id k'. pose proof (identified_lookup _ _ _ _ I E) as Ei. rewrite lookup_delete_Some, (I id k'). setoid_rewrite lookup_delete_Some. split.
  - intros (Hne & f' & E' & <-). exists f'. split_and!; try done. intros ->. naive_solver.
  - intros (f' & (Hne & E') & <-). split; [|by exists f']. intros Heq. pose proof (identified_lookup _ _ _ _ I E'). congruence.
Qed.

Lemma identified_insert fs ids k f : identified fs ids -> fs !! k = None -> ids !! uf_id f = None ->
  identified (<[k := f]> fs) (<[uf_id f := k]> ids).
Proof.
  intros I E N id k'. rewrite lookup_insert_Some, (I id k'). setoid_rewrite lookup_insert_Some. split.
  - intros [[<- <-]|(Hne & f' & E' & <-)]; [naive_solver|]. exists f'. split; [|done]. right. split; [congruence|done].
  - intros (f' & [[-> ->]|[Hne E']] & <-); [by left|]. right. split; [|by exists f'].
    intros Heq. pose proof (identified_lookup _ _ _ _ I E'). congruence.
Qed.

Lemma identified_replace fs ids k f f' : identified fs ids -> fs !! k = Some f -> uf_id f' = uf_id f -> identified (<[k := f']> fs) ids.
Proof.
  intros I E Ei id k'. rewrite (I id k'). setoid_rewrite lookup_insert_Some. destruct (decide (k = k')) as [<-|]; [|naive_solver]. split.
  - intros (x & Ex & <-). exists f'. rewrite E in Ex. injection Ex as <-. by split; [left|].
  - intros (x & [[_ <-]|[[] _]] & <-); [|done]. by exists f.
Qed.

Section Invariant.
Context {W : Type} `{TimerQueueLaws UdpFlowKey W} (b : ResourceBudget) (rest : holdings) (Hb : budget_range b) (le : bool)
  (hash_one : SocketAddr * IpAddr * Z -> Z) (iter : gmap UdpFlowKey UdpFlow -> list UdpFlowKey).
Abbreviation ustate := (@ustate W).
Implicit Types (t : @UdpTable W) (s : ustate) (w : W) (cs : list SlabChain).

(** The timeout in force. *)
Definition timeout_of t : Z := udp_effective_timeout t (u_timeout_divisor t).

Record table_ok t : Prop := {
  tk_timeout : 0 < u_idle_timeout_ms t <= u64_max;
  tk_chunk : 0 < u_payload_chunk_size t;
  tk_divisor : 1 <= u_timeout_divisor t;
  tk_tick : u_expiry_tick_ms t = safe_tick (u_idle_timeout_ms t);
  tk_queue : tq_ok (u_expiry t);
  tk_queue_tick : tq_tick_ms (u_expiry t) = u_expiry_tick_ms t;
  tk_clock : tq_current (u_expiry t) * u_expiry_tick_ms t <= u_last_now_ms t;
  tk_now : 0 <= u_last_now_ms t <= u64_max;
  tk_timers : timed uf_expiry_timer (flow_deadline (timeout_of t)) (u_expiry_tick_ms t) (tq_pending (u_expiry t)) (u_by_key t);
  tk_ids : identified (u_by_key t) (u_by_id t);
  tk_next : 0 <= u_next_flow_id t;
  tk_flows k f : u_by_key t !! k = Some f ->
    0 <= uf_id f < u_next_flow_id t /\ 0 <= uf_last_seen_ms f <= u_last_now_ms t /\ key_ok k /\ uk_generation k = u_generation t;
  tk_active : us_active_flows (u_stats t) = Z.of_nat (size (u_by_key t))
}.

(** With the heap: the ledger is the rest, the flows and the payloads [cs]. *)
Definition udp_inv cs s : Prop := table_ok s.1 /\ slab_inv b rest (flows_leases (u_by_key s.1)) s.2 cs.

Lemma timeout_range t d : 0 < u_idle_timeout_ms t <= u64_max -> 1 <= udp_effective_timeout t d <= u_idle_timeout_ms t.
Proof.
  intros Ht. unfold udp_effective_timeout. assert (u_idle_timeout_ms t / Z.max d 1 <= u_idle_timeout_ms t); [|lia].
  apply Z.div_le_upper_bound; [lia|]. nia.
Qed.

(** ** The ledger under the heap *)
Lemma slab_ledger held held' (h : slabs) l cs : slab_inv b rest held h cs -> accounts b rest l (cell_leases h ++ held') ->
  slab_inv b rest held' (h.1, l) cs.
Proof.
  intros [H' F] A. split; [by eapply heap_ledger|]. by destruct (chains_keep h (h.1, l) cs) as [F' _]; [intros p _|..].
Qed.

Lemma slab_held held held' h cs : Permutation held held' -> slab_inv b rest held h cs -> slab_inv b rest held' h cs.
Proof. intros P [H' F]. split; [|done]. by eapply heap_perm; [exact P|reflexivity|]. Qed.

Lemma slab_drop x held st l cs : slab_inv b rest (x :: held) (st, l) cs -> slab_inv b rest held (st, drop_lease x l) cs.
Proof.
  intros I. apply (slab_ledger _ _ (st, l) _ cs I). apply (accounts_drop b rest Hb). eapply accounts_perm; [|apply I]. solve_Permutation.
Qed.

(** ** Removing flows *)
Lemma remove_loop_spec due n cs s :
  identified (u_by_key s.1) (u_by_id s.1) -> slab_inv b rest (flows_leases (u_by_key s.1)) s.2 cs ->
  wp (remove_loop due n) s
    (fun _ s' => s'.1 = set_udp_flows (u_by_key s'.1) (u_by_id s'.1) s.1 /\
       u_by_key s'.1 = filter (fun p => p.1 ∉ due) (u_by_key s.1) /\
       identified (u_by_key s'.1) (u_by_id s'.1) /\ u_by_id s'.1 ⊆ u_by_id s.1 /\
       slab_inv b rest (flows_leases (u_by_key s'.1)) s'.2 cs /\ s'.2.1 = s.2.1)
    (fun _ _ => False).
Proof.
  revert n s. induction due as [|k due IH]; intros n s Id Sl; cbn [remove_loop].
  - wp_step. split_and!; [by destruct s as [[] ?]| |done..]. symmetry. apply map_filter_id. intros. apply not_elem_of_nil.
  - repeat wp_step. destruct (u_by_key s.1 !! k) as [f|] eqn:E.
    + repeat wp_step. eapply wp_mono; [apply IH| |done]; cbn [remove_flow fst snd set_udp_flows u_by_key u_by_id].
      * by apply identified_delete.
      * apply slab_drop, slab_drop. rewrite <- surjective_pairing. eapply slab_held; [|exact Sl]. by rewrite (map_leases_delete flow_leases _ _ _ E).
      * intros _ s' (H1 & H2 & H3 & H4 & H5 & H6). split_and!; try done.
        -- rewrite H2. apply map_eq. intros k'. apply option_eq. intros f'.
           rewrite !map_lookup_filter_Some, lookup_delete_Some, not_elem_of_cons. naive_solver.
        -- etransitivity; [exact H4|]. apply delete_subseteq.
    + eapply wp_mono; [by apply IH| |done]. intros _ s' (H1 & H2 & H3 & H4 & H5 & H6). split_and!; try done.
      rewrite H2. apply map_eq. intros k'. apply option_eq. intros f'.
      rewrite !map_lookup_filter_Some, not_elem_of_cons. naive_solver congruence.
Qed.

(** ** Time *)
(** What no call changes but the clock's own fields. *)
Record uframed t t' : Prop := {
  fr_generation : u_generation t' = u_generation t;
  fr_shard : u_shard t' = u_shard t;
  fr_idle : u_idle_timeout_ms t' = u_idle_timeout_ms t;
  fr_chunk : u_payload_chunk_size t' = u_payload_chunk_size t;
  fr_divisor : u_timeout_divisor t' = u_timeout_divisor t;
  fr_tick : u_expiry_tick_ms t' = u_expiry_tick_ms t
}.

(** A call has begun at [now]: what was due is gone. *)
Record begun (now : Z) cs s s' : Prop := {
  bg_inv : udp_inv cs s';
  bg_frame : uframed s.1 s'.1;
  bg_now : u_last_now_ms s'.1 = now;
  bg_current : tq_current (u_expiry s'.1) = now / u_expiry_tick_ms s.1;
  bg_timer_ids : tq_ids (u_expiry s'.1) = tq_ids (u_expiry s.1);
  bg_next : u_next_flow_id s'.1 = u_next_flow_id s.1;
  bg_flows k f : u_by_key s'.1 !! k = Some f <->
    u_by_key s.1 !! k = Some f /\ alive_at (flow_deadline (timeout_of s.1)) (u_expiry_tick_ms s.1) now f;
  bg_ids : u_by_id s'.1 ⊆ u_by_id s.1;
  bg_store : s'.2.1 = s.2.1
}.

Lemma uframed_refl t : uframed t t.
Proof. by split. Qed.
Lemma uframed_trans t1 t2 t3 : uframed t1 t2 -> uframed t2 t3 -> uframed t1 t3.
Proof. intros [] []. split; congruence. Qed.
Lemma uframed_timeout t t' : uframed t t' -> timeout_of t' = timeout_of t.
Proof. intros []. unfold timeout_of, udp_effective_timeout. congruence. Qed.

(** What [remove_expired] leaves of the table [t]. *)
Definition left_of t (due : list UdpFlowKey) (fs : gmap UdpFlowKey UdpFlow) t' : Prop :=
  fs = filter (fun p => p.1 ∉ due) (u_by_key t) /\
  exists ids removed, t' = on_stats (count_removed removed (Z.of_nat (size fs))) (set_udp_flows fs ids t) /\
    identified fs ids /\ ids ⊆ u_by_id t.

Lemma remove_expired_spec due cs s :
  identified (u_by_key s.1) (u_by_id s.1) -> slab_inv b rest (flows_leases (u_by_key s.1)) s.2 cs ->
  wp (remove_expired due) s
    (fun _ s' => exists fs, left_of s.1 due fs s'.1 /\ slab_inv b rest (flows_leases fs) s'.2 cs /\ s'.2.1 = s.2.1)
    (fun _ _ => False).
Proof.
  intros Id Sl. unfold remove_expired, on_flows. wp_step. eapply wp_mono; [by apply remove_loop_spec| |done].
  intros n s' (E & Ef & Id' & Sub & Sl' & St). repeat wp_step. exists (u_by_key s'.1). cbn [fst snd]. split_and!; [|done|done].
  split; [done|]. exists (u_by_id s'.1), n. split_and!; [|done..]. by rewrite <- E.
Qed.

Lemma begin_spec now cs s : udp_inv cs s -> 0 <= now < u64_max ->
  wp (_ ← udp_update_time now; udp_expire_due now) s
    (fun _ s' => u_last_now_ms s.1 <= now /\ begun now cs s s')
    (fun e s' => now < u_last_now_ms s.1 /\ e = UdpClockWentBackwards /\ s' = s).
Proof.
  intros [I Sl] Hn. unfold udp_update_time, udp_expire_due, on_flows, on_wheel. repeat wp_step.
  - by apply Z.ltb_lt in H1.
  - apply Z.ltb_ge in H1. apply wp_on. cbn [fst u_expiry set_now].
    destruct (tq_advance_law now (u_expiry s.1) (tk_queue _ I)) as (w' & -> & Ok' & P & T & C & N);
      [unfold is_u64, u64_max in *; lia|lia|rewrite (tk_queue_tick _ I); pose proof (tk_clock _ I); lia|].
    rewrite (tk_queue_tick _ I) in *. eapply wp_mono; [apply remove_expired_spec; [apply I|exact Sl]| |done]. cbn [fst snd].
    intros _ s' (fs & (Ef & ids & n & Et & Id' & Sub) & Sl' & St). split; [done|]. cbn in Ef, Sub.
    pose proof (timed_expire _ _ _ _ _ _ now (tk_timers _ I) Ef) as T'. rewrite <- P in T'.
    assert (forall k f, fs !! k = Some f <-> u_by_key s.1 !! k = Some f /\ alive_at (flow_deadline (timeout_of s.1)) (u_expiry_tick_ms s.1) now f) as F
      by (intros k f; rewrite Ef; apply (timed_survivors uf_expiry_timer), I).
    split; rewrite ?Et; try done. split; rewrite Et; [|exact Sl'].
    destruct I. split; cbn; try done; try congruence; try lia.
    + rewrite C. pose proof (tq_range (u_expiry s.1) tk_queue0) as [R _]. rewrite Z.mul_comm. apply Z.mul_div_le. lia.
    + intros k f [E _]%F. specialize (tk_flows0 k f E). split_and!; try apply tk_flows0. lia.
Qed.

(** ** Touching a flow *)
Record ready (now : Z) cs s : Prop := {
  rd_inv : udp_inv cs s;
  rd_now : 0 <= now < u64_max;
  rd_last : u_last_now_ms s.1 = now;
  rd_current : tq_current (u_expiry s.1) = now / u_expiry_tick_ms s.1
}.

Lemma begun_ready now cs s s' : 0 <= now < u64_max -> begun now cs s s' -> ready now cs s'.
Proof. intros Hn [I F N C _ _ _ _ _]. split; [done..|]. by rewrite (fr_tick _ _ F). Qed.

(** A flow seen now can always be timed. *)
Lemma schedule_flow now cs k s : ready now cs s -> tq_ids (u_expiry s.1) < u64_max ->
  let x := expiry_deadline s.1 now (u_timeout_divisor s.1) in
  exists w' id, tq_schedule x k (u_expiry s.1) = (w', Ok id) /\ tq_ok w' /\ tq_pending (u_expiry s.1) !! id = None /\
    tq_pending w' = <[id := (div_ceil x (u_expiry_tick_ms s.1), k)]> (tq_pending (u_expiry s.1)) /\
    tq_tick_ms w' = tq_tick_ms (u_expiry s.1) /\ tq_current w' = tq_current (u_expiry s.1) /\
    tq_ids w' = tq_ids (u_expiry s.1) + 1.
Proof.
  intros [[I _] Hn Hl Hc] Hi x. pose proof (timeout_range s.1 (u_timeout_divisor s.1) (tk_timeout _ I)) as Ht.
  rewrite (tk_tick _ I) in *. apply (schedule_in_range _ _ now (u_idle_timeout_ms s.1)); try done; try apply I.
  - rewrite (tk_queue_tick _ I). apply I.
  - unfold x, expiry_deadline, sat_add. lia.
  - unfold x, expiry_deadline, sat_add. lia.
Qed.

(** A flow of the table seen again, with the timer [w'] has for it. *)
Definition seen_again (now : Z) (timer : TimerId) (f : UdpFlow) : UdpFlow :=
  mkUdpFlow (uf_id f) now timer (uf_flow_lease f) (uf_metadata_lease f).

Lemma refresh_ok now cs s k f id w w' stats : ready now cs s -> u_by_key s.1 !! k = Some f ->
  tq_pending (u_expiry s.1) !! id = None ->
  tq_pending w = <[id := (div_ceil (expiry_deadline s.1 now (u_timeout_divisor s.1)) (u_expiry_tick_ms s.1), k)]> (tq_pending (u_expiry s.1)) ->
  tq_ok w' -> tq_pending w' = delete (uf_expiry_timer f) (tq_pending w) ->
  tq_tick_ms w' = tq_tick_ms (u_expiry s.1) -> tq_current w' = tq_current (u_expiry s.1) ->
  us_active_flows (stats (u_stats s.1)) = us_active_flows (u_stats s.1) ->
  udp_inv cs (on_stats stats (set_udp_flows (<[k := seen_again now id f]> (u_by_key s.1)) (u_by_id s.1) (set_wheel w' s.1)), s.2).
Proof.
  intros [[I Sl] Hn Hl Hc] E N P Ok' P' T C St. split; cbn [fst snd].
  - destruct I. split; cbn; try done; try congruence.
    + change (timeout_of _) with (timeout_of s.1). rewrite P', P. exact (timed_refresh uf_expiry_timer (flow_deadline (timeout_of s.1)) _ _ _ k f (seen_again now id f) tk_timers0 E N).
    + by apply (identified_replace _ _ _ f).
    + intros k' f' [[<- <-]|[Hne E']]%lookup_insert_Some; [|by apply tk_flows0]. destruct (tk_flows0 _ _ E) as (? & ? & ? & ?). cbn. split_and!; try done; lia.
    + by rewrite St, map_size_insert_Some.
  - eapply slab_held; [|exact Sl]. cbn. rewrite (map_leases_replace flow_leases _ _ _ _ E), (map_leases_delete flow_leases _ _ _ E). done.
Qed.

(** What [touch_or_admit] does: the flow of the key is seen now, under its identity
    or, if it is new, under the next one. *)
Record touched (now : Z) cs (k : UdpFlowKey) s (id : Z) s' : Prop := {
  to_inv : udp_inv cs s';
  to_frame : uframed s.1 s'.1;
  to_now : u_last_now_ms s'.1 = u_last_now_ms s.1;
  to_current : tq_current (u_expiry s'.1) = tq_current (u_expiry s.1);
  to_timers : tq_ids (u_expiry s'.1) = tq_ids (u_expiry s.1) + 1;
  to_flow : exists f, u_by_key s'.1 = <[k := f]> (u_by_key s.1) /\ uf_id f = id /\ uf_last_seen_ms f = now;
  to_id : match u_by_key s.1 !! k with
          | Some f => id = uf_id f /\ u_next_flow_id s'.1 = u_next_flow_id s.1 /\ u_by_id s'.1 = u_by_id s.1
          | None => id = u_next_flow_id s.1 /\ u_next_flow_id s'.1 = u_next_flow_id s.1 + 1 /\ u_by_id s'.1 = <[id := k]> (u_by_id s.1)
          end;
  to_store : s'.2.1 = s.2.1
}.

(** What a refusal leaves: everything but a timer id. *)
Record untouched cs s s' : Prop := {
  un_inv : udp_inv cs s';
  un_frame : uframed s.1 s'.1;
  un_now : u_last_now_ms s'.1 = u_last_now_ms s.1;
  un_current : tq_current (u_expiry s'.1) = tq_current (u_expiry s.1);
  un_timers : tq_ids (u_expiry s'.1) <= tq_ids (u_expiry s.1) + 1;
  un_next : u_next_flow_id s'.1 = u_next_flow_id s.1;
  un_flows : u_by_key s'.1 = u_by_key s.1;
  un_ids : u_by_id s'.1 = u_by_id s.1;
  un_store : s'.2.1 = s.2.1
}.

Definition new_flow_leases : list BudgetLease := [mkLease UdpFlows 1; mkLease MetadataBytes UDP_FLOW_METADATA_CHARGE].

Lemma next_id_free t : table_ok t -> u_by_id t !! u_next_flow_id t = None.
Proof.
  intros I. destruct (u_by_id t !! u_next_flow_id t) as [k|] eqn:E; [|done]. apply (tk_ids _ I) in E as (f & E & Ei).
  destruct (tk_flows _ I _ _ E) as [Hf _]. lia.
Qed.

(** The timer of a flow that was not admitted goes again. *)
Lemma cancelled_ok t w1 w2 id x k : table_ok t -> tq_pending (u_expiry t) !! id = None ->
  tq_pending w1 = <[id := (x, k)]> (tq_pending (u_expiry t)) -> tq_ok w2 -> tq_pending w2 = delete id (tq_pending w1) ->
  tq_tick_ms w2 = tq_tick_ms (u_expiry t) -> tq_current w2 = tq_current (u_expiry t) -> table_ok (set_wheel w2 t).
Proof.
  intros [] N P1 Ok' P2 T C. split; cbn; try done; try congruence.
  change (timeout_of _) with (timeout_of t). by rewrite P2, P1, delete_insert_id.
Qed.

Lemma wp_slabs {A} (m : HM A) s (Q : A -> ustate -> Prop) (X : UdpError -> ustate -> Prop) :
  wp m s.2 (fun a h => Q a (s.1, h)) (fun e h => X (UdpBudget e) (s.1, h)) -> wp (on_slabs m) s Q X.
Proof. unfold on_slabs. intros Hm. apply wp_on. unfold wp in Hm. by destruct (m s.2) as [h [a|e| |]]. Qed.

Lemma wp_cancel id s (Q : unit -> ustate -> Prop) X : tq_ok (u_expiry s.1) ->
  (forall w, tq_ok w -> tq_pending w = delete id (tq_pending (u_expiry s.1)) -> tq_tick_ms w = tq_tick_ms (u_expiry s.1) ->
     tq_current w = tq_current (u_expiry s.1) -> tq_ids w = tq_ids (u_expiry s.1) -> Q tt (set_wheel w s.1, s.2)) ->
  wp (cancel_timer id) s Q X.
Proof.
  intros Hk HQ. unfold cancel_timer, on_wheel. apply wp_on. destruct (tq_cancel_law id _ Hk) as (w' & r & -> & K & _ & P & T & C & N). by apply HQ.
Qed.

Lemma acquire_held held (h : slabs) cs k amount : slab_inv b rest held h cs -> 0 < amount <= u64_max ->
  wp (slab_acquire b k amount) h
    (fun x h' => x = mkLease k amount /\ h'.1 = h.1 /\ slab_inv b rest (x :: held) h' cs)
    (fun e h' => h'.1 = h.1 /\ slab_inv b rest held h' cs /\ ~ affords b rest (mkLease k amount :: cell_leases h ++ held)).
Proof.
  intros [Hh F] Ha. assert (forall h' : slabs, h'.1 = h.1 -> Forall (chain_ok h') cs) as F'.
  { intros h' [Eb _]%store_same. by destruct (chains_keep h h' cs) as [F' _]; [intros p _; apply Eb|..]. }
  eapply wp_mono; [by apply slab_acquire_spec| |].
  - intros x h' (-> & E & H'). split_and!; [done|done|]. split; [done|by apply F'].
  - intros e h' (E & H' & Na). split_and!; [done| |done]. split; [done|by apply F'].
Qed.

Definition admitted (now : Z) (k : UdpFlowKey) (timer : TimerId) t : UdpTable :=
  let id := u_next_flow_id t in
  on_stats count_created (set_udp_flows (<[k := mkUdpFlow id now timer (mkLease UdpFlows 1) (mkLease MetadataBytes UDP_FLOW_METADATA_CHARGE)]> (u_by_key t))
    (<[id := k]> (u_by_id t)) (set_next_flow_id (id + 1) t)).

Lemma admit_spec now cs k s timer : tq_ok (u_expiry s.1) -> 0 <= u_next_flow_id s.1 < u64_max ->
  slab_inv b rest (flows_leases (u_by_key s.1)) s.2 cs ->
  wp (admit_flow b k now timer) s
    (fun id s' => id = u_next_flow_id s.1 /\ s'.1 = admitted now k timer s.1 /\ s'.2.1 = s.2.1 /\
       slab_inv b rest (new_flow_leases ++ flows_leases (u_by_key s.1)) s'.2 cs)
    (fun e s' => (exists be, e = UdpBudget be) /\ s'.2.1 = s.2.1 /\ slab_inv b rest (flows_leases (u_by_key s.1)) s'.2 cs /\
       ~ affords b rest (new_flow_leases ++ cell_leases s.2 ++ flows_leases (u_by_key s.1)) /\
       exists w, s'.1 = set_wheel w s.1 /\ tq_ok w /\ tq_pending w = delete timer (tq_pending (u_expiry s.1)) /\
         tq_tick_ms w = tq_tick_ms (u_expiry s.1) /\ tq_current w = tq_current (u_expiry s.1) /\ tq_ids w = tq_ids (u_expiry s.1)).
Proof.
  intros Hk Hn Sl. unfold admit_flow, drop_flow_lease, on_flows. wp_step. wp_step. apply wp_slabs.
  eapply wp_mono; [apply (acquire_held _ _ _ _ _ Sl); unfold u64_max; lia|intros x h1 (-> & E1 & Sl1)|intros e h1 (E1 & Sl1 & Na)].
  - wp_step. wp_step. apply wp_slabs. cbn [fst snd].
    eapply wp_mono; [apply (acquire_held _ _ _ _ _ Sl1); unfold u64_max, UDP_FLOW_METADATA_CHARGE; lia|intros x h2 (-> & E2 & Sl2)|intros e h2 (E2 & Sl2 & Na)].
    + repeat wp_step. cbn [fst snd]. split_and!; [done| |congruence|eapply slab_held; [|exact Sl2]; apply perm_swap].
      cbn. by rewrite wrap64_small by (unfold u64_max in *; lia).
    + wp_step. apply wp_cancel; [done|]. cbn [fst snd]. intros w K P T C N. wp_step. wp_step. wp_step. cbn [fst snd].
      split_and!; [by eexists|congruence|apply slab_drop; by rewrite <- surjective_pairing| |by exists w].
      rewrite (proj2 (store_same _ _ E1)) in Na. intros Af. apply Na. eapply affords_perm; [|exact Af]. cbn. rewrite perm_swap. by rewrite Permutation_middle.
  - wp_step. apply wp_cancel; [done|]. cbn [fst snd]. intros w K P T C N. wp_step. cbn [fst snd].
    split_and!; [by eexists|done|done| |by exists w].
    apply (refused_more b rest _ [mkLease MetadataBytes UDP_FLOW_METADATA_CHARGE]); [|done]. constructor; [cbn; lia|]. constructor; [cbn; unfold UDP_FLOW_METADATA_CHARGE; lia|].
    apply (ac_amounts _ _ _ _ (hp_accounts _ _ _ _ _ (proj1 Sl))).
Qed.

Definition counted t : UdpTable := on_stats (count_flows (Z.of_nat (size (u_by_key t)))) t.

Lemma admitted_ok now cs s k w id : ready now cs s -> key_ok k -> uk_generation k = u_generation s.1 -> u_by_key s.1 !! k = None ->
  tq_ok w -> tq_pending (u_expiry s.1) !! id = None ->
  tq_pending w = <[id := (div_ceil (expiry_deadline s.1 now (u_timeout_divisor s.1)) (u_expiry_tick_ms s.1), k)]> (tq_pending (u_expiry s.1)) ->
  tq_tick_ms w = tq_tick_ms (u_expiry s.1) -> tq_current w = tq_current (u_expiry s.1) ->
  table_ok (counted (admitted now k id (set_wheel w s.1))).
Proof.
  intros [[I _] Hn Hl Hc] Kk Kg E Ok' N P T C. pose proof (next_id_free _ I) as Nf. destruct I. split; cbn; try done; try congruence; try lia.
  - change (timeout_of _) with (timeout_of s.1). rewrite P.
    exact (timed_insert uf_expiry_timer (flow_deadline (timeout_of s.1)) _ _ _ k (mkUdpFlow _ now id _ _) tk_timers0 E N).
  - exact (identified_insert _ _ k (mkUdpFlow (u_next_flow_id s.1) now id _ _) tk_ids0 E Nf).
  - intros k' f' [[<- <-]|[Hne E']]%lookup_insert_Some; cbn; [split_and!; done || lia|].
    destruct (tk_flows0 _ _ E') as (? & ? & ? & ?). split_and!; done || lia.
Qed.

(** In a [ready] state the first attempt to schedule succeeds. *)
Lemma wp_schedule_flow now cs k s (Q : TimerId -> ustate -> Prop) X : ready now cs s -> tq_ids (u_expiry s.1) < u64_max ->
  (forall w id, tq_ok w -> tq_pending (u_expiry s.1) !! id = None ->
    tq_pending w = <[id := (div_ceil (expiry_deadline s.1 now (u_timeout_divisor s.1)) (u_expiry_tick_ms s.1), k)]> (tq_pending (u_expiry s.1)) ->
    tq_tick_ms w = tq_tick_ms (u_expiry s.1) -> tq_current w = tq_current (u_expiry s.1) -> tq_ids w = tq_ids (u_expiry s.1) + 1 ->
    Q id (set_wheel w s.1, s.2)) ->
  wp (on_wheel (tq_schedule (expiry_deadline s.1 now (u_timeout_divisor s.1)) k)) s Q X /\
  wp (udp_schedule_expiry (expiry_deadline s.1 now (u_timeout_divisor s.1)) k now) s Q X.
Proof.
  intros R Hi HQ. destruct (schedule_flow now cs k s R Hi) as (w & id & E & K & Hn & P & T & C & N).
  assert (forall Q X, Q id (set_wheel w s.1, s.2) -> wp (on_wheel (tq_schedule (expiry_deadline s.1 now (u_timeout_divisor s.1)) k)) s Q X) as Hw
    by (intros Q' X' HQ'; unfold on_wheel; apply wp_on; by rewrite E).
  split; [by apply Hw, HQ|]. unfold udp_schedule_expiry. wp_step. wp_step. apply Hw. wp_step. by apply HQ.
Qed.

Lemma touch_or_admit_spec now cs k s : ready now cs s -> tq_ids (u_expiry s.1) < u64_max -> u_next_flow_id s.1 < u64_max ->
  key_ok k -> uk_generation k = u_generation s.1 ->
  wp (touch_or_admit b k now) s (fun id s' => touched now cs k s id s')
    (fun e s' => untouched cs s s' /\ (exists be, e = UdpBudget be) /\ u_by_key s.1 !! k = None /\
       ~ affords b rest (new_flow_leases ++ cell_leases s.2 ++ flows_leases (u_by_key s.1))).
Proof.
  intros R Hi Hn Kk Kg. pose proof R as [[I Sl] _ _ _]. unfold touch_or_admit, on_flows. do 2 wp_step. wp_step.
  apply (wp_schedule_flow now cs k s _ _ R Hi). intros w id K N P T C Ni. do 2 wp_step. cbn [fst u_by_key set_wheel].
  destruct (u_by_key s.1 !! k) as [f|] eqn:E.
  - wp_step. wp_step. apply wp_cancel; [done|]. cbn [fst snd u_expiry set_wheel]. intros w2 K2 P2 T2 C2 N2. do 5 wp_step. cbn [fst snd].
    split; cbn; rewrite ?E; try done; try congruence.
    + apply (refresh_ok now cs s k f id w w2 (count_flows _) R E N P K2); try congruence.
      cbn. rewrite (tk_active _ I). f_equal. by apply map_size_insert_Some.
    + by exists (seen_again now id f).
  - wp_step. eapply wp_mono; [apply (admit_spec now cs k (set_wheel w s.1, s.2) id); [done|pose proof (tk_next _ I); cbn; lia|done]| |]; cbn [fst snd].
    + intros fid s' (-> & E1 & St & Sl'). do 3 wp_step. rewrite E1. split; cbn; rewrite ?E; try done; try congruence.
      2: { by eexists. }
      split; cbn [fst snd]; [by apply (admitted_ok now cs s k w id)|]. eapply slab_held; [|exact Sl']. cbn.
      by rewrite (map_leases_insert flow_leases _ _ _ E).
    + intros e s' (He & St & Sl' & Na & w2 & Es & K2 & P2 & T2 & C2 & N2). cbn in *. split_and!; try done.
      split; rewrite ?Es; cbn; try done; try congruence; try lia. split; rewrite Es; [|done].
      eapply (cancelled_ok s.1 w w2 id); try done; congruence.
Qed.
End Invariant.
