(* ===== verification/UdpOps.v ===== *)
(** What the calls of the UDP table ([sail-netstack/src/udp.rs]) do: expiry under
    pressure, clearing, datagrams in, datagrams originated, and replies. *)
From S2P Require Import Prelude StateMonad Checksum IpWire Budget Timer TimerRefine TimerInterface Leases ExpiryIndex Slab SlabTheorems Udp UdpInv.
From stdpp Require Import list gmap.
#[local] Open Scope Z_scope.

(** A flow without its timer. *)
Definition strip (f : UdpFlow) : UdpFlow := mkUdpFlow (uf_id f) (uf_last_seen_ms f) 0 (uf_flow_lease f) (uf_metadata_lease f).

Lemma leases_strip (fs : gmap UdpFlowKey UdpFlow) : Permutation (flows_leases (strip <$> fs)) (flows_leases fs).
Proof.
  unfold map_leases. rewrite (map_to_list_fmap strip fs). induction (map_to_list fs) as [|p ps IH]; [done|]. cbn. by rewrite IH.
Qed.

(** New timers for the same flows. *)
Definition retimed (fs fs' : gmap UdpFlowKey UdpFlow) : Prop := strip <$> fs' = strip <$> fs.

Lemma retimed_leases fs fs' : retimed fs fs' -> Permutation (flows_leases fs') (flows_leases fs).
Proof. intros R. rewrite <- (leases_strip fs'), R. apply leases_strip. Qed.

Lemma retimed_lookup fs fs' k f : retimed fs fs' -> fs' !! k = Some f -> exists f0, fs !! k = Some f0 /\ strip f0 = strip f.
Proof.
  intros R E. assert (strip <$> fs !! k = Some (strip f)) as Ek by (rewrite <- lookup_fmap, <- R, lookup_fmap, E; done).
  destruct (fs !! k) as [f0|]; [|done]. exists f0. split; [done|]. exact (inj Some _ _ Ek).
Qed.

Lemma retimed_sym fs fs' : retimed fs fs' -> retimed fs' fs.
Proof. unfold retimed. congruence. Qed.

Lemma strip_fields f f' : strip f = strip f' -> uf_id f = uf_id f' /\ uf_last_seen_ms f = uf_last_seen_ms f'.
Proof. by intros [= -> -> _ _]. Qed.

Lemma retimed_identified fs fs' ids : retimed fs fs' -> identified fs ids -> identified fs' ids.
Proof.
  intros R I id k. rewrite (I id k). split; intros (f & E & Ei).
  - destruct (retimed_lookup _ _ _ _ (retimed_sym _ _ R) E) as (f' & E' & [Ef _]%strip_fields). exists f'. split; [done|congruence].
  - destruct (retimed_lookup _ _ _ _ R E) as (f' & E' & [Ef _]%strip_fields). exists f'. split; [done|congruence].
Qed.

Lemma retimed_insert fs fs' k f f' : retimed fs fs' -> fs !! k = Some f -> strip f' = strip f -> retimed fs (<[k := f']> fs').
Proof.
  unfold retimed. intros R E Es. rewrite fmap_insert, R, Es. rewrite insert_id; [done|]. by rewrite lookup_fmap, E.
Qed.

(** Walking a list of keys, some of which are put aside. *)
Section Walk.
Context {K : Type} (k k' : K) (keys acc : list K).

Lemma notin_aside : k' ∉ (k :: keys) ++ acc <-> k' ∉ keys ++ acc ++ [k].
Proof. set_solver. Qed.
Lemma notin_next : k' <> k -> k' ∉ (k :: keys) ++ acc <-> k' ∉ keys ++ acc.
Proof. set_solver. Qed.
Lemma put_aside (P : K -> Prop) : P k -> k' ∈ acc ++ [k] \/ k' ∈ keys /\ P k' <-> k' ∈ acc \/ k' ∈ k :: keys /\ P k'.
Proof. rewrite elem_of_app, !elem_of_cons, elem_of_nil. naive_solver. Qed.
Lemma not_aside (P : K -> Prop) : ~ P k -> k' ∈ acc \/ k' ∈ keys /\ P k' <-> k' ∈ acc \/ k' ∈ k :: keys /\ P k'.
Proof. rewrite elem_of_cons. naive_solver. Qed.
End Walk.

Section Operations.
Context {W : Type} `{TimerQueueLaws UdpFlowKey W} (b : ResourceBudget) (rest : holdings) (Hb : budget_range b) (le : bool)
  (hash_one : SocketAddr * IpAddr * Z -> Z) (iter : gmap UdpFlowKey UdpFlow -> list UdpFlowKey).
Context (iter_all : forall fs, Permutation (iter fs) (map fst (map_to_list fs))).
Abbreviation ustate := (@ustate W).
Abbreviation udp_inv := (udp_inv b rest).
Implicit Types (t : @UdpTable W) (s : ustate) (w : W) (cs : list SlabChain).

(** ** Pressure *)
(** The wheel during the rebuilding. *)
Record rebuilding (now : Z) t : Prop := {
  rb_idle : 0 < u_idle_timeout_ms t <= u64_max;
  rb_tick : u_expiry_tick_ms t = safe_tick (u_idle_timeout_ms t);
  rb_queue : tq_ok (u_expiry t);
  rb_queue_tick : tq_tick_ms (u_expiry t) = u_expiry_tick_ms t;
  rb_current : tq_current (u_expiry t) = now / u_expiry_tick_ms t;
  rb_seen k f : u_by_key t !! k = Some f -> 0 <= uf_last_seen_ms f <= now
}.

Definition idle_for (now timeout : Z) (f : UdpFlow) : Prop := timeout <= now - uf_last_seen_ms f.

Lemma filter_insert_key (P Q : UdpFlowKey * UdpFlow -> Prop) `{!forall p, Decision (P p), !forall p, Decision (Q p)}
    (fs : gmap UdpFlowKey UdpFlow) k f :
  P (k, f) -> (forall f', ~ Q (k, f')) -> (forall k' f', k' <> k -> P (k', f') <-> Q (k', f')) ->
  filter P (<[k := f]> fs) = <[k := f]> (filter Q fs).
Proof.
  intros Hp Hq Hpq. apply map_eq. intros k'. apply option_eq. intros f'. rewrite map_lookup_filter_Some, !lookup_insert_Some, map_lookup_filter_Some.
  destruct (decide (k = k')) as [<-|Hne]; [naive_solver|]. specialize (Hpq k' f' (not_eq_sym Hne)). naive_solver.
Qed.

Lemma rebuild_loop_spec now timeout keys : forall acc s,
  0 <= now < u64_max -> 1 <= timeout <= u_idle_timeout_ms s.1 -> rebuilding now s.1 ->
  NoDup keys -> (forall k, k ∈ keys -> k ∉ acc) -> tq_ids (u_expiry s.1) + len keys <= u64_max ->
  timed uf_expiry_timer (flow_deadline timeout) (u_expiry_tick_ms s.1) (tq_pending (u_expiry s.1)) (filter (fun p => p.1 ∉ keys ++ acc) (u_by_key s.1)) ->
  wp (rebuild_loop now timeout keys acc) s
    (fun expired s' => exists w fs, s' = (set_udp_flows fs (u_by_id s.1) (set_wheel w s.1), s.2) /\ rebuilding now s'.1 /\
       tq_ids (u_expiry s.1) <= tq_ids w <= tq_ids (u_expiry s.1) + len keys /\ retimed (u_by_key s.1) fs /\
       timed uf_expiry_timer (flow_deadline timeout) (u_expiry_tick_ms s.1) (tq_pending w) (filter (fun p => p.1 ∉ expired) fs) /\
       (forall k, k ∈ expired <-> k ∈ acc \/ k ∈ keys /\ exists f, u_by_key s.1 !! k = Some f /\ idle_for now timeout f))
    (fun _ _ => False).
Proof.
  induction keys as [|k keys IH]; intros acc s Hn Ht R Nd Ac Hi T; cbn [rebuild_loop].
  - wp_step. exists (u_expiry s.1), (u_by_key s.1). rewrite len_nil, Z.add_0_r. split_and!; try done.
    + by destruct s as [[] ?].
    + intros k. set_solver.
  - apply NoDup_cons in Nd as [Nk Nd]. assert (k ∉ acc) as Ka by (apply Ac; left). rewrite len_cons in *. pose proof (len_nonneg keys) as L0. do 2 wp_step.
    assert (forall k', k' ∈ keys -> k' ∉ acc) as Ac' by (intros k' Hk'; apply Ac; by right).
    set (P := fun k' => exists f, u_by_key s.1 !! k' = Some f /\ idle_for now timeout f).
    destruct (u_by_key s.1 !! k) as [f|] eqn:E.
    2: { eapply wp_mono; [apply (IH acc s); try done; [lia|]| |done].
      - erewrite (proj1 (map_filter_ext _ _ _)); [exact T|]. intros k' f' E'. symmetry. apply notin_next. cbn. congruence.
      - intros expired s' (w & fs & Es & R' & Hw & Rt & T' & Ex). exists w, fs. split_and!; try done; try lia.
        intros k'. rewrite Ex. apply (not_aside k k' keys acc P). intros (f & E' & _). congruence. }
    wp_step.
    + apply Z.leb_le in H1. eapply wp_mono; [apply (IH (acc ++ [k]) s); try done; [|lia|]| |done].
      * intros k' Hk' [Hin|Hin]%elem_of_app; [by apply (Ac' k')|]. apply list_elem_of_singleton in Hin. by subst k'.
      * erewrite (proj1 (map_filter_ext _ _ _)); [exact T|]. intros k' f' E'. symmetry. apply notin_aside.
      * intros expired s' (w & fs & Es & R' & Hw & Rt & T' & Ex). exists w, fs. split_and!; try done; try lia.
        intros k'. rewrite Ex. apply (put_aside k k' keys acc P). exists f. split; [done|]. unfold idle_for.
        pose proof (rb_seen _ _ R _ _ E). unfold sat_sub in H1. lia.
    + apply Z.leb_gt in H1. pose proof (rb_seen _ _ R _ _ E) as Hf. unfold sat_sub in H1. wp_step. unfold on_wheel. apply wp_on.
      destruct (schedule_in_range (u_expiry s.1) k now (u_idle_timeout_ms s.1) (sat_add (uf_last_seen_ms f) timeout)) as (w1 & id & -> & K1 & N1 & P1 & T1 & C1 & I1);
        try apply R; try done; try (unfold sat_add; lia); [by rewrite (rb_queue_tick _ _ R), (rb_tick _ _ R)|by rewrite (rb_current _ _ R), (rb_tick _ _ R)|].
      unfold on_flows. wp_step. wp_step. cbn [fst snd]. set (f' := mkUdpFlow (uf_id f) (uf_last_seen_ms f) id (uf_flow_lease f) (uf_metadata_lease f)).
      eapply wp_mono; [apply IH; cbn; try done| |done]; cbn.
      * destruct R. split; cbn; try done; try congruence. intros k' g [[<- <-]|[_ E']]%lookup_insert_Some; [done|by eapply rb_seen0].
      * lia.
      * erewrite (filter_insert_key _ (fun p => p.1 ∉ (k :: keys) ++ acc)).
        -- rewrite P1, <- (rb_tick _ _ R). apply (timed_insert uf_expiry_timer (flow_deadline timeout) _ _ _ k f' T); [|done].
           apply map_lookup_filter_None. right. intros g _. cbn. intros []. left.
        -- cbn. by rewrite not_elem_of_app.
        -- intros g []. left.
        -- intros k' g Hne. symmetry. by apply notin_next.
      * intros expired s' (w & fs & Es & R' & Hw & Rt & T' & Ex). exists w, fs. split_and!; try done; try lia.
        -- unfold retimed in *. rewrite Rt, fmap_insert. rewrite insert_id; [done|]. by rewrite lookup_fmap, E.
        -- intros k'. rewrite Ex. etransitivity; [|apply (not_aside k k' keys acc P); intros (g & Eg & Hg); rewrite E in Eg; injection Eg as <-; unfold idle_for in Hg; lia].
           assert (k' ∈ keys -> k' <> k) as Hk by (by intros Hk ->). unfold P. setoid_rewrite lookup_insert_Some. clear -Hk. naive_solver.
Qed.

Definition pressure_timeout t (d : Z) : Z := udp_effective_timeout t (Z.max d 1).

(** What [expire_idle_under_pressure] leaves. *)
Record pressed (now d : Z) cs s s' : Prop := {
  pr_inv : udp_inv cs s';
  pr_now : u_last_now_ms s'.1 = now;
  pr_generation : u_generation s'.1 = u_generation s.1;
  pr_shard : u_shard s'.1 = u_shard s.1;
  pr_divisor : u_timeout_divisor s'.1 = Z.max d 1;
  pr_next : u_next_flow_id s'.1 = u_next_flow_id s.1;
  pr_timers : tq_ids (u_expiry s'.1) <= Z.max (tq_ids (u_expiry s.1)) (Z.of_nat (size (u_by_key s.1)));
  pr_flows k f : u_by_key s'.1 !! k = Some f -> exists f0, u_by_key s.1 !! k = Some f0 /\ strip f0 = strip f;
  pr_kept k f : u_by_key s.1 !! k = Some f -> now < flow_deadline (pressure_timeout s.1 d) f -> is_Some (u_by_key s'.1 !! k);
  pr_gone k f : u_by_key s.1 !! k = Some f -> flow_deadline (pressure_timeout s.1 d) f + u_expiry_tick_ms s.1 <= now ->
    u_by_key s'.1 !! k = None;
  pr_ids : u_by_id s'.1 ⊆ u_by_id s.1;
  pr_store : s'.2.1 = s.2.1
}.

Lemma pressure_same now d s : Z.max d 1 = u_timeout_divisor s.1 ->
  expire_idle_under_pressure iter now d s = (_ ← udp_update_time now; udp_expire_due now) s.
Proof.
  intros E. unfold expire_idle_under_pressure, udp_update_time, udp_expire_due, mbind, sm_bind, get_state, on_flows, modify, throw.
  destruct (now <? u_last_now_ms s.1); [done|]. cbn [u_timeout_divisor fst set_now]. by rewrite (proj2 (Z.eqb_eq _ _) E).
Qed.

Lemma begun_pressed now d cs s s' : udp_inv cs s -> Z.max d 1 = u_timeout_divisor s.1 -> begun b rest now cs s s' -> pressed now d cs s s'.
Proof.
  intros [I _] E [I' [] N C Ni Nf F Sub St]. assert (pressure_timeout s.1 d = timeout_of s.1) as Et by (unfold pressure_timeout; by rewrite E).
  pose proof (tq_range _ (tk_queue _ I)) as [Rt _]. rewrite (tk_queue_tick _ I) in Rt.
  split; rewrite ?Et; try done; try congruence; try lia.
  - intros k f [Ef _]%F. by exists f.
  - intros k f Ef Hd. exists f. apply F. split; [done|]. apply Z.ltb_lt, alive_until; [lia|done].
  - intros k f Ef Hd. destruct (u_by_key s'.1 !! k) as [f'|] eqn:E'; [|done]. apply F in E' as [Ef' Ha]. rewrite Ef in Ef'. injection Ef' as <-.
    pose proof (dead_after (u_expiry_tick_ms s.1) now _ (proj1 Rt) Hd) as Hx. apply Z.ltb_ge in Hx. unfold alive_at in Ha. lia.
Qed.

Lemma iter_spec fs : NoDup (iter fs) /\ len (iter fs) = Z.of_nat (size fs) /\ forall k, k ∈ iter fs <-> is_Some (fs !! k).
Proof.
  pose proof (iter_all fs) as P. change (map fst (map_to_list fs)) with ((map_to_list fs).*1) in P. split_and!.
  - rewrite P. apply NoDup_fst_map_to_list.
  - unfold len. by rewrite P, length_fmap, length_map_to_list.
  - intros k. rewrite P, list_elem_of_fmap. split; [intros ([k' f] & -> & Hk%elem_of_map_to_list); by exists f|].
    intros [f Hf]. exists (k, f). by rewrite elem_of_map_to_list.
Qed.

Lemma wp_new_wheel tick now s (Q : W -> ustate -> Prop) X : 1 <= tick <= u64_max -> is_u64 now ->
  (forall w, tq_ok w -> tq_pending w = ∅ -> tq_tick_ms w = tick -> tq_current w = now / tick -> tq_ids w = 0 -> Q w s) ->
  wp (fresh_wheel tick now) s Q X.
Proof. intros Ht Hn HQ. unfold fresh_wheel. wp_step. destruct (tq_new_law (W := W) tick now Ht Hn) as (w & -> & K & P & T & C & N). by apply HQ. Qed.

Lemma udp_tick_range t : table_ok t -> 10 <= u_expiry_tick_ms t <= u64_max.
Proof. intros I. rewrite (tk_tick _ I). apply safe_tick_covers, I. Qed.

(** With another divisor: new timers for all that are not idle for too long. *)
Lemma rebuild_expiry_spec now d cs s : udp_inv cs s -> 0 <= now < u64_max -> u_last_now_ms s.1 = now ->
  Z.of_nat (size (u_by_key s.1)) <= u64_max -> let timeout := udp_effective_timeout s.1 d in
  wp (udp_rebuild_expiry iter now d) s
    (fun expired s' => exists w fs, s' = (set_divisor d (set_udp_flows fs (u_by_id s.1) (set_wheel w s.1)), s.2) /\
       rebuilding now s'.1 /\ tq_ids w <= Z.of_nat (size (u_by_key s.1)) /\ retimed (u_by_key s.1) fs /\
       timed uf_expiry_timer (flow_deadline timeout) (u_expiry_tick_ms s.1) (tq_pending w) (filter (fun p => p.1 ∉ expired) fs) /\
       (forall k, k ∈ expired <-> exists f, u_by_key s.1 !! k = Some f /\ idle_for now timeout f))
    (fun _ _ => False).
Proof.
  intros [I Sl] Hn Hl Hs timeout. pose proof (udp_tick_range _ I) as Rt. destruct (iter_spec (u_by_key s.1)) as (Nd & Li & Mi).
  unfold udp_rebuild_expiry, on_flows. do 3 wp_step. apply wp_new_wheel; [lia|unfold is_u64, u64_max in *; lia|]. intros w K P T C N. do 3 wp_step. cbn [fst snd].
  fold timeout. eapply wp_mono; [apply (rebuild_loop_spec now timeout (iter (u_by_key s.1)) []); try done; cbn| |done].
  - apply timeout_range, I.
  - destruct I. split; cbn; try done. intros k f E. destruct (tk_flows k f E) as (_ & Hf & _). lia.
  - intros k _. apply not_elem_of_nil.
  - lia.
  - rewrite P. replace (filter _ _) with (∅ : gmap UdpFlowKey UdpFlow); [apply timed_empty|]. symmetry. apply map_empty. intros k.
    apply map_lookup_filter_None. right. intros f E. cbn. rewrite app_nil_r. intros Hk. apply Hk, Mi. by exists f.
  - cbn. intros expired s' (w' & fs & -> & R & Hw & Rt' & T' & Ex). do 3 wp_step. cbn [fst snd]. exists w', fs. split_and!; try done.
    + by destruct R.
    + lia.
    + intros k. rewrite Ex, elem_of_nil, Mi. naive_solver.
Qed.

Lemma pressure_spec now d cs s : udp_inv cs s -> 0 <= now < u64_max -> Z.of_nat (size (u_by_key s.1)) <= u64_max ->
  wp (expire_idle_under_pressure iter now d) s
    (fun _ s' => u_last_now_ms s.1 <= now /\ pressed now d cs s s')
    (fun e s' => now < u_last_now_ms s.1 /\ e = UdpClockWentBackwards /\ s' = s).
Proof.
  intros I Hn Hs. destruct (decide (Z.max d 1 = u_timeout_divisor s.1)) as [Ed|Ed].
  { unfold wp. rewrite (pressure_same now d s Ed). eapply wp_mono; [by apply (begin_spec b rest Hb now cs s)| |done].
    intros _ s' [Hl Bg]. split; [done|by apply begun_pressed]. }
  unfold expire_idle_under_pressure, udp_update_time, on_flows. do 3 wp_step. wp_step; [wp_step; by apply Z.ltb_lt in H1|]. apply Z.ltb_ge in H1.
  do 3 wp_step. cbn [fst snd u_timeout_divisor set_now]. rewrite (proj2 (Z.eqb_neq _ _) Ed). wp_step.
  set (s1 := (set_now now s.1, s.2)). assert (udp_inv cs s1) as I1.
  { destruct I as [[] Sl]. split; [|exact Sl]. split; cbn; try done; try lia. intros k f E. destruct (tk_flows k f E) as (? & ? & ? & ?). split_and!; done || lia. }
  eapply wp_mono; [by apply (rebuild_expiry_spec now (Z.max d 1) cs s1)| |done].
  intros expired s2 (w & fs & -> & R & Hw & Rt & T & Ex). cbn in Hw, Rt, Ex.
  destruct I as [I Sl]. eapply wp_mono; [apply (remove_expired_spec b rest Hb _ cs); cbn|cbn|done].
  - by eapply retimed_identified; [|apply I].
  - eapply slab_held; [symmetry; by apply retimed_leases|exact Sl].
  - intros _ s' (fs' & (Ef & ids & n & Et & Id & Sub) & Sl' & St). cbn in Ef, Sub, St. split; [done|].
    assert (pressure_timeout s.1 d = udp_effective_timeout (set_now now s.1) (Z.max d 1)) as Etm by done.
    assert (forall k f, fs' !! k = Some f -> exists f0, u_by_key s.1 !! k = Some f0 /\ strip f0 = strip f) as Hw'.
    { intros k f Ek. rewrite Ef, map_lookup_filter_Some in Ek. destruct Ek as [Ek _]. by apply (retimed_lookup _ fs). }
    pose proof (udp_tick_range _ I) as Rk. destruct R as [R1 R2 R3 R4 R5 R6]. cbn in R1, R2, R3, R4, R5. 
    split; rewrite ?Et; cbn; try done; try lia.
    + split; [|by rewrite Et]. rewrite Et. destruct I. split; cbn; try done; try lia.
      * rewrite R5, Z.mul_comm. apply Z.mul_div_le. lia.
      * rewrite Ef. exact T.
      * intros k f (f0 & E0 & [Ei Es]%strip_fields)%Hw'. destruct (tk_flows k f0 E0) as (? & ? & ? & ?). split_and!; done || lia.
    + intros k f E Hd. destruct (retimed_lookup _ _ k f (retimed_sym _ _ Rt) E) as (f1 & E1 & _). exists f1. rewrite Ef, map_lookup_filter_Some.
      split; [done|]. cbn. intros (f' & E' & Hi)%Ex. rewrite E in E'. injection E' as <-. unfold idle_for, flow_deadline, sat_add in *. rewrite <- Etm in Hi. lia.
    + intros k f E Hd. rewrite Ef. apply map_lookup_filter_None. right. intros f1 _. cbn. intros Hk. apply Hk, Ex. exists f. split; [done|].
      rewrite <- Etm. unfold idle_for, flow_deadline, sat_add in *. lia.
Qed.

(** ** Clearing *)
(** Whatever the generation has become: no key of the old one is left. *)
Lemma udp_clear_spec g0 cs s : udp_inv cs (set_generation g0 s.1, s.2) ->
  wp udp_clear s
    (fun _ s' => udp_inv cs s' /\ uframed s.1 s'.1 /\ u_last_now_ms s'.1 = u_last_now_ms s.1 /\ u_next_flow_id s'.1 = u_next_flow_id s.1 /\
       tq_ids (u_expiry s'.1) = 0 /\ u_by_key s'.1 = ∅ /\ u_by_id s'.1 = ∅ /\ s'.2.1 = s.2.1)
    (fun _ _ => False).
Proof.
  intros [I Sl]. pose proof (udp_tick_range _ I) as Rt. cbn in Rt, Sl. unfold udp_clear, on_flows. do 5 wp_step.
  apply wp_new_wheel; [lia|pose proof (tk_now _ I) as Hnow; cbn in Hnow; unfold is_u64, u64_max in *; lia|]. intros w K P T C N. do 3 wp_step. cbn.
  split_and!; try done. split; cbn [fst snd].
  - destruct I. cbn in *. split; cbn; try done; try lia.
    + rewrite C, Z.mul_comm. apply Z.mul_div_le. lia.
    + rewrite P. apply timed_empty.
    + intros id k. rewrite lookup_empty. setoid_rewrite lookup_empty. naive_solver.
  - cbn. rewrite map_leases_empty. destruct s as [t [st l]]. cbn in *. apply (slab_ledger b rest _ _ (st, l) _ cs Sl).
    rewrite app_nil_r. apply (map_leases_drop_over flow_leases b rest); [done|].
    eapply accounts_perm; [apply Permutation_app_comm|]. apply (hp_accounts _ _ _ _ _ (proj1 Sl)).
Qed.

Lemma reset_spec g cs s : udp_inv cs s ->
  wp (udp_reset_network g) s
    (fun _ s' => udp_inv cs s' /\ u_last_now_ms s'.1 = u_last_now_ms s.1 /\ u_next_flow_id s'.1 = u_next_flow_id s.1 /\
       u_generation s'.1 = g /\ u_shard s'.1 = u_shard s.1 /\ tq_ids (u_expiry s'.1) = 0 /\ u_by_key s'.1 = ∅ /\ u_by_id s'.1 = ∅ /\ s'.2.1 = s.2.1)
    (fun _ _ => False).
Proof.
  intros I. unfold udp_reset_network, on_flows. do 2 wp_step.
  eapply wp_mono; [apply (udp_clear_spec (u_generation s.1) cs); by destruct s as [[] ?]| |done].
  intros _ s' (I' & [] & H1 & H2 & H3 & H4 & H5 & H6). cbn in *. done.
Qed.
End Operations.
