(* ===== verification/UdpCalls.v ===== *)
(** Datagrams through the UDP table ([sail-netstack/src/udp.rs]): what [ingest],
    [originate] and [emit_reply] do on every path. *)
From S2P Require Import Prelude StateMonad Checksum IpWire Budget Timer TimerRefine TimerInterface Leases ExpiryIndex Slab SlabTheorems Udp UdpInv UdpOps.
From stdpp Require Import list gmap.
#[local] Open Scope Z_scope.

(** A parsed datagram has endpoints a reply can be sent to. *)
Lemma datagram_ok le packet ip d : bytes_ok packet -> parse_ip_packet le packet true = Ok ip -> parse_udp_datagram le ip true = Ok d ->
  addr_ok (udp_source d) /\ addr_ok (udp_destination d) /\ 0 <= len (udp_payload d) <= u64_max.
Proof.
  intros B Ei Ed. pose proof (runs_ok _ _ _ (parse_ip_packet_runs le packet true B) Ei) as P.
  pose proof (runs_ok _ _ _ (parse_udp_datagram_runs le packet true true ip B Ei) Ed) as (Es & Et & Hp & Hq & n & Hn & El).
  unfold addr_ok. rewrite Es, Et, El. split_and!; try apply P; try done.
  - apply len_nonneg.
  - rewrite len_sub by lia. pose proof (po_size _ _ P). unfold u64_max. destruct (version ip); lia.
Qed.

(** A datagram is emitted exactly when the addresses are of one family and the
    payload fits, and then every receiver reads it, with the addresses and ports of
    both ends. *)
Definition sendable (src dst : SocketAddr) (payload : list Z) : Prop :=
  same_family (sa_ip src) (sa_ip dst) /\ len payload <= udp_payload_limit (sa_ip src).

Definition delivers (src dst : SocketAddr) (payload wire : list Z) : Prop :=
  forall le', exists ip, parse_ip_packet le' wire true = Ok ip /\ fragment ip = None /\
    parse_udp_datagram le' ip true = Ok {| udp_source := bare src; udp_destination := bare dst; udp_payload := payload |}.

Lemma emit_udp_spec le src dst payload hop id : addr_ok src -> addr_ok dst -> bytes_ok payload -> is_u8 hop -> is_u16 id ->
  match emit_udp_packet le src dst payload hop id with
  | Ok wire => sendable src dst payload /\ delivers src dst payload wire
  | Err _ => ~ sendable src dst payload
  | _ => False
  end.
Proof.
  intros [S1 S2] [D1 D2] Bp Hh Hid.
  assert (sendable src dst payload \/ ~ sendable src dst payload) as [Sd|Nd].
  { unfold sendable. destruct (decide (len payload <= udp_payload_limit (sa_ip src))); [|tauto]. unfold same_family. destruct (sa_ip src), (sa_ip dst); tauto. }
  - pose proof Sd as [Sf Sl]. destruct (udp_emit_parse_roundtrip le true src dst payload hop id S1 D1 Sf S2 D2 Hh Hid Bp Sl) as (wire & ip & E & _).
    rewrite E. split; [done|]. intros le'.
    destruct (udp_emit_parse_roundtrip le le' src dst payload hop id S1 D1 Sf S2 D2 Hh Hid Bp Sl) as (wire' & ip' & E' & P & _ & F & Q).
    rewrite E in E'. injection E' as <-. by exists ip'.
  - assert (exists e, emit_udp_packet le src dst payload hop id = Err e) as [e ->]; [|done].
    pose proof (len_nonneg payload). unfold sendable, udp_payload_limit in Nd. unfold emit_udp_packet, checked_add, try_u16, same_family in *.
    destruct (Z.leb_spec (8 + len payload) u64_max) as [L1|L1]; cbn; [|by eexists].
    destruct (Z.leb_spec (8 + len payload) u16_max) as [L2|L2]; cbn; [|by eexists]. unfold u16_max in *.
    destruct (sa_ip src), (sa_ip dst); cbn; try by eexists.
    + destruct (Z.leb_spec (20 + (8 + len payload)) 65535); cbn; [|by eexists]. exfalso. apply Nd. split; [done|lia].
    + exfalso. apply Nd. split; [done|lia].
Qed.

Section Calls.
Context {W : Type} `{TimerQueueLaws UdpFlowKey W} (b : ResourceBudget) (rest : holdings) (Hb : budget_range b) (le : bool)
  (hash_one : SocketAddr * IpAddr * Z -> Z).
Abbreviation ustate := (@ustate W).
Abbreviation udp_inv := (udp_inv b rest).
Abbreviation begun := (begun b rest).
Implicit Types (t : @UdpTable W) (s : ustate) (w : W) (cs : list SlabChain).

Lemma wp_parsing {A} (m : outcome WireError A) P s (Q : A -> ustate -> Prop) X : runs m P ->
  (forall a, m = Ok a -> P a -> Q a s) -> (forall e, m = Err e -> X (UdpWire e) (on_stats count_malformed s.1, s.2)) -> wp (parsing m) s Q X.
Proof. intros R HQ HX. destruct m as [a|e| |]; try done; unfold parsing, on_flows; repeat wp_step; auto. Qed.

(** What an error leaves: the flows as the clock left them, and the payloads. *)
Record failed (now : Z) cs s s' : Prop := {
  fa_inv : udp_inv cs s';
  fa_begun : exists s1, begun now cs s s1 /\ uframed s1.1 s'.1 /\ u_last_now_ms s'.1 = now /\ u_next_flow_id s'.1 = u_next_flow_id s1.1 /\
    tq_ids (u_expiry s'.1) <= tq_ids (u_expiry s1.1) + 1 /\ u_by_key s'.1 = u_by_key s1.1 /\ u_by_id s'.1 = u_by_id s1.1;
  fa_same : same s.2 s'.2 cs
}.

Lemma store_same_chains cs (h h' : slabs) : h'.1 = h.1 -> same h h' cs.
Proof.
  intros E. apply Forall_forall. intros c _. unfold content. destruct (store_same _ _ E) as [Ec _].
  induction (sc_segments c) as [|g gs IH]; [done|]. cbn. rewrite IH. f_equal. unfold seg_bytes. by rewrite Ec.
Qed.

Lemma same_trans cs (h1 h2 h3 : slabs) : same h1 h2 cs -> same h2 h3 cs -> same h1 h3 cs.
Proof. unfold same. rewrite !Forall_forall. intros S1 S2 c Hc. by rewrite (S2 c Hc), (S1 c Hc). Qed.

Lemma untouched_failed now cs s s1 s2 s' : begun now cs s s1 -> s2.1 = s1.1 -> same s1.2 s2.2 cs ->
  untouched b rest cs s2 s' -> failed now cs s s'.
Proof.
  intros Bg E Sm [I F N C T Nx Fl Id St]. rewrite E in *. split; [done| |].
  - exists s1. split_and!; try done. rewrite N. apply Bg.
  - eapply same_trans; [apply store_same_chains, Bg|]. eapply same_trans; [exact Sm|by apply store_same_chains].
Qed.

Lemma begun_untouched now cs s s1 f : begun now cs s s1 -> us_active_flows (f (u_stats s1.1)) = us_active_flows (u_stats s1.1) ->
  failed now cs s (on_stats f s1.1, s1.2).
Proof.
  intros Bg Ef. apply (untouched_failed now cs s s1 s1); [done|done|by apply store_same_chains|].
  destruct Bg as [[I Sl] _ _ _ _ _ _ _ _]. split; cbn; try done; try lia. split; [|done]. destruct I. split; cbn; try done. congruence.
Qed.

(** The clock first: a call at an earlier time leaves everything as it was. *)
Definition refused (now : Z) s (e : UdpError) s' : Prop := now < u_last_now_ms s.1 /\ e = UdpClockWentBackwards /\ s' = s.

Lemma wp_begin {A} now cs s (m : sm ustate UdpError A) (Q : A -> ustate -> Prop) X : udp_inv cs s -> 0 <= now < u64_max ->
  (forall s1, u_last_now_ms s.1 <= now -> begun now cs s s1 -> wp m s1 Q X) -> (forall e s', refused now s e s' -> X e s') ->
  wp (_ ← udp_update_time now; _ ← udp_expire_due now; m) s Q X.
Proof.
  intros I Hn HQ HX. apply wp_assoc, wp_bind. eapply wp_mono; [by apply (begin_spec b rest Hb now cs s)| |].
  - intros _ s1 [Hl Bg]. by apply HQ.
  - intros e s' R. by apply HX.
Qed.

(** ** Ingest *)
(** What [ingest_with_policy] returns for the datagram [d]. *)
Record ingested (now : Z) cs (d : ParsedUdpDatagram) s (r : UdpIngress) s' : Prop := {
  ig_inv : udp_inv (ui_payload r :: cs) s';
  ig_source : ui_source r = udp_source d;
  ig_destination : ui_destination r = udp_destination d;
  ig_payload : content s'.2 (ui_payload r) = udp_payload d;
  ig_same : same s.2 s'.2 cs;
  ig_touched : exists s1 s2, begun now cs s s1 /\ s2.1 = s1.1 /\
    touched b rest now (ui_payload r :: cs) (mkUdpFlowKey (udp_source d) (udp_destination d) (u_generation s.1)) s2 (ut_flow (ui_token r)) s';
  ig_token : ui_token r = mkUdpFlowToken (ut_flow (ui_token r)) (u_generation s.1) (u_shard s.1)
}.

Lemma slab_empty_chain held (h : slabs) cs cl n : 0 < n -> slab_inv b rest held h cs -> slab_inv b rest held h (mkChain cl n 0 [] :: cs).
Proof. intros Hn [Hh F]. split; [done|]. constructor; [|done]. by split. Qed.

(** The payload is copied, then the flow touched; without room for the flow the
    payload goes again. *)
Lemma ingest_datagram_spec now cs d s s1 : begun now cs s s1 -> 0 <= now < u64_max -> u_last_now_ms s.1 <= now ->
  tq_ids (u_expiry s.1) < u64_max -> u_next_flow_id s.1 < u64_max ->
  addr_ok (udp_source d) -> addr_ok (udp_destination d) -> 0 <= len (udp_payload d) <= u64_max ->
  wp (chain ← on_slabs (lift (chain_new Packet (u_payload_chunk_size s1.1)));
      chain ← on_slabs (chain_append b (udp_payload d) chain);
      id ← attempt (touch_or_admit b (mkUdpFlowKey (udp_source d) (udp_destination d) (u_generation s1.1)) now);
      match id with
      | inr e => _ ← on_slabs (chain_drop chain); throw e
      | inl id => mret (mkUdpIngress (mkUdpFlowToken id (u_generation s1.1) (u_shard s1.1)) (udp_source d) (udp_destination d) chain)
      end) s1
    (fun r s' => ingested now cs d s r s') (fun e s' => failed now cs s s' /\ exists be, e = UdpBudget be).
Proof.
  intros Bg Hn Hl Hi Hf A1 A2 Lp. pose proof (bg_inv _ _ _ _ _ _ Bg) as [I Sl]. pose proof (bg_frame _ _ _ _ _ _ Bg) as Fr.
  rewrite (fr_generation _ _ Fr), (fr_shard _ _ Fr). wp_step. apply wp_slabs. wp_step. unfold chain_new. rewrite (proj2 (Z.leb_gt _ _) (tk_chunk _ I)). unfold mret at 1, outcome_ret.
  wp_step. apply wp_slabs. cbn [fst snd].
  eapply wp_mono; [apply (chain_append_spec b rest Hb (flows_leases (u_by_key s1.1)) s1.2 _ cs (udp_payload d)); [by apply slab_empty_chain; [apply I|]|lia]| |].
  2: { intros e h (Sl' & Sm & _ & _). split; [|by eexists]. split.
    - split; [done|]. destruct Sl' as [Hh F]. apply Forall_cons in F as [_ F]. done.
    - exists s1. split_and!; try done; try apply Bg. cbn. lia.
    - eapply same_trans; [apply store_same_chains, Bg|]. apply Forall_cons in Sm as [_ Sm]. exact Sm. }
  intros c' h (Sl' & Sm & Ec & _). cbn [content flat_map sc_segments app] in Ec. set (s2 := (s1.1, h)).
  assert (ready b rest now (c' :: cs) s2) as R.
  { split; [by split|done|apply Bg|]. cbn. rewrite (bg_current _ _ _ _ _ _ Bg). by destruct Fr as [_ _ _ _ _ ->]. }
  wp_step. wp_step. eapply wp_mono; [apply (touch_or_admit_spec b rest Hb now (c' :: cs) _ s2 R); cbn; try done| |].
  - by rewrite (bg_timer_ids _ _ _ _ _ _ Bg).
  - by rewrite (bg_next _ _ _ _ _ _ Bg).
  - by rewrite (fr_generation _ _ Fr).
  - intros id s' T. wp_step. pose proof (to_store _ _ _ _ _ _ _ _ T) as St. cbn in St.
    pose proof (store_same_chains (c' :: cs) _ _ St) as Sm'. apply Forall_cons in Sm' as [Ec' Sm']. cbn in Ec'.
    split; cbn; try done.
    + apply T.
    + by rewrite Ec', Ec.
    + eapply same_trans; [apply store_same_chains, Bg|]. eapply same_trans; [exact Sm|exact Sm'].
    + exists s1, s2. done.
  - intros e s' (U & He & _). wp_step. apply wp_slabs. destruct U as [[I' Sl''] F' N' C' T' Nx' Fl' Id' St']. cbn [fst snd s2] in *.
    eapply wp_mono; [apply (chain_drop_spec b rest Hb _ _ _ _ Sl'')| |done]. intros _ h' [Sl3 Sm3]. wp_step. split; [|done]. split; cbn.
    + by split.
    + exists s1. split_and!; try done. rewrite N'. apply Bg.
    + eapply same_trans; [apply store_same_chains, Bg|]. eapply same_trans; [exact Sm|]. eapply same_trans; [by apply store_same_chains|exact Sm3].
Qed.

Inductive ingest_reason (packet : list Z) (allow : bool) s1 : UdpError -> Prop :=
  | ir_ip e : parse_ip_packet le packet true = Err e -> ingest_reason packet allow s1 (UdpWire e)
  | ir_udp ip e : parse_ip_packet le packet true = Ok ip -> parse_udp_datagram le ip true = Err e -> ingest_reason packet allow s1 (UdpWire e)
  | ir_address ip d : parse_ip_packet le packet true = Ok ip -> parse_udp_datagram le ip true = Ok d ->
      valid_flow_source (sa_ip (udp_source d)) && valid_flow_destination (sa_ip (udp_destination d)) = false ->
      ingest_reason packet allow s1 InvalidAddress
  | ir_disabled ip d : parse_ip_packet le packet true = Ok ip -> parse_udp_datagram le ip true = Ok d -> allow = false ->
      u_by_key s1.1 !! mkUdpFlowKey (udp_source d) (udp_destination d) (u_generation s1.1) = None ->
      ingest_reason packet allow s1 NewFlowsDisabled
  | ir_budget e : ingest_reason packet allow s1 (UdpBudget e).

Lemma udp_ingest_spec packet now allow cs s : udp_inv cs s -> 0 <= now < u64_max -> bytes_ok packet ->
  tq_ids (u_expiry s.1) < u64_max -> u_next_flow_id s.1 < u64_max ->
  wp (ingest_with_policy b le packet now allow) s
    (fun r s' => u_last_now_ms s.1 <= now /\ exists ip d, parse_ip_packet le packet true = Ok ip /\ parse_udp_datagram le ip true = Ok d /\
       valid_flow_source (sa_ip (udp_source d)) && valid_flow_destination (sa_ip (udp_destination d)) = true /\ ingested now cs d s r s')
    (fun e s' => refused now s e s' \/ u_last_now_ms s.1 <= now /\ failed now cs s s' /\
       exists s1, begun now cs s s1 /\ ingest_reason packet allow s1 e).
Proof.
  intros I Hn B Hi Hf. unfold ingest_with_policy. apply (wp_begin now cs); [done|done| |by left]. intros s1 Hl Bg.
  wp_step. apply (wp_parsing _ _ _ _ _ (parse_ip_packet_runs le packet true B)).
  2: { intros e E. right. split; [done|]. split; [by apply begun_untouched|]. exists s1. split; [done|by apply ir_ip]. }
  intros ip Ei _. wp_step. apply (wp_parsing _ _ _ _ _ (parse_udp_datagram_runs le packet true true ip B Ei)).
  2: { intros e E. right. split; [done|]. split; [by apply begun_untouched|]. exists s1. split; [done|by eapply ir_udp]. }
  intros d Ed _. destruct (datagram_ok le packet ip d B Ei Ed) as (A1 & A2 & Lp). rewrite <- negb_andb.
  destruct (valid_flow_source _ && valid_flow_destination _) eqn:V; cbn [negb].
  2: { unfold on_flows. do 3 wp_step. right. split; [done|]. split; [by apply begun_untouched|]. exists s1. split; [done|by eapply ir_address]. }
  do 2 wp_step. set (key := mkUdpFlowKey (udp_source d) (udp_destination d) (u_generation s1.1)). wp_step.
  - apply andb_prop in H1 as [Ha Hk]. wp_step. right. split; [done|]. split.
    + pose proof (begun_untouched now cs s s1 (fun x => x) Bg eq_refl) as Fa. by destruct s1 as [[] ?].
    + exists s1. split; [done|]. eapply ir_disabled; [done|done|by destruct allow|]. fold key.
      rewrite negb_true_iff, bool_decide_eq_false in Hk. by apply eq_None_not_Some.
  - eapply wp_mono; [by apply (ingest_datagram_spec now cs d s s1)| |].
    + intros r s' Ig. split; [done|]. by exists ip, d.
    + intros e s' [Fa [be ->]]. right. split; [done|]. split; [done|]. exists s1. split; [done|constructor].
Qed.

(** ** Replies *)
Lemma identification_range id : is_u16 (flow_identification id).
Proof.
  unfold flow_identification, be16. assert (forall x, 0 <= Z.land x 255 < 256) as Hr.
  { intros x. change 255 with (Z.ones 8). rewrite Z.land_ones by lia. apply Z.mod_pos_bound. lia. }
  pose proof (Hr id). pose proof (Hr (Z.shiftr id 8)). width.
Qed.

Lemma wp_wire {A} (m : outcome WireError A) s (Q : A -> ustate -> Prop) (X : UdpError -> ustate -> Prop) :
  match m with Ok a => Q a s | Err e => X (UdpWire e) s | _ => False end -> wp (wire_result m) s Q X.
Proof. intros Hm. unfold wire_result. wp_step. by destruct m. Qed.

(** A reply under a token of a live flow refreshes it. *)
Record replied (now : Z) cs (token : UdpFlowToken) (src : SocketAddr) (payload wire : list Z) s s' : Prop := {
  rp_inv : udp_inv cs s';
  rp_owned : is_owned_by token (u_generation s.1) (u_shard s.1) = true;
  rp_frame : uframed s.1 s'.1;
  rp_now : u_last_now_ms s'.1 = now;
  rp_next : u_next_flow_id s'.1 = u_next_flow_id s.1;
  rp_timers : tq_ids (u_expiry s'.1) = tq_ids (u_expiry s.1) + 1;
  rp_flow : exists s1 k f timer, begun now cs s s1 /\ u_by_id s1.1 !! ut_flow token = Some k /\ u_by_key s1.1 !! k = Some f /\
    u_by_key s'.1 = <[k := seen_again now timer f]> (u_by_key s1.1) /\ u_by_id s'.1 = u_by_id s1.1 /\
    sendable src (uk_source k) payload /\ delivers src (uk_source k) payload wire;
  rp_store : s'.2.1 = s.2.1
}.

Inductive reply_reason (token : UdpFlowToken) (src : SocketAddr) (payload : list Z) s1 : UdpError -> Prop :=
  | rr_foreign : is_owned_by token (u_generation s1.1) (u_shard s1.1) = false -> reply_reason token src payload s1 StaleToken
  | rr_gone : u_by_id s1.1 !! ut_flow token = None -> reply_reason token src payload s1 StaleToken
  | rr_wire k e : is_owned_by token (u_generation s1.1) (u_shard s1.1) = true -> u_by_id s1.1 !! ut_flow token = Some k ->
      ~ sendable src (uk_source k) payload -> reply_reason token src payload s1 (UdpWire e).

Lemma reply_spec token src payload now cs s : udp_inv cs s -> 0 <= now < u64_max -> addr_ok src -> bytes_ok payload ->
  tq_ids (u_expiry s.1) < u64_max ->
  wp (emit_reply le token src payload now) s
    (fun wire s' => u_last_now_ms s.1 <= now /\ replied now cs token src payload wire s s')
    (fun e s' => refused now s e s' \/ u_last_now_ms s.1 <= now /\ failed now cs s s' /\
       exists s1, begun now cs s s1 /\ reply_reason token src payload s1 e).
Proof.
  intros I Hn As Bp Hi. unfold emit_reply. apply (wp_begin now cs); [done|done| |by left]. intros s1 Hl Bg.
  pose proof (bg_inv _ _ _ _ _ _ Bg) as [I1 Sl1]. pose proof (bg_frame _ _ _ _ _ _ Bg) as Fr.
  unfold stale, on_flows. do 2 wp_step. wp_step.
  { do 3 wp_step. right. split; [done|]. split; [by apply begun_untouched|]. exists s1. split; [done|]. apply rr_foreign. by apply negb_true_iff. }
  apply negb_false_iff in H1. destruct (u_by_id s1.1 !! ut_flow token) as [k|] eqn:Ek.
  2: { do 3 wp_step. right. split; [done|]. split; [by apply begun_untouched|]. exists s1. split; [done|by apply rr_gone]. }
  destruct (proj1 (tk_ids _ I1 _ _) Ek) as (f & Ef & Eid). destruct (tk_flows _ I1 _ _ Ef) as (_ & _ & [Kk _] & _).
  wp_step. apply wp_wire. pose proof (emit_udp_spec le src (uk_source k) payload 64 (flow_identification (ut_flow token)) As Kk Bp ltac:(width) (identification_range _)) as Em.
  destruct (emit_udp_packet _ _ _ _ _ _) as [wire|e| |]; try done.
  2: { right. split; [done|]. split; [|exists s1; split; [done|by eapply rr_wire]].
    pose proof (begun_untouched now cs s s1 (fun x => x) Bg eq_refl) as Fa. by destruct s1 as [[] ?]. }
  wp_step. assert (ready b rest now cs s1) as R by (by apply (begun_ready _ _ _ _ s)).
  apply (wp_schedule_flow b rest now cs k s1 _ _ R); [by rewrite (bg_timer_ids _ _ _ _ _ _ Bg)|]. intros w id K N P T C Ni.
  rewrite Ef. wp_step. apply wp_cancel; [done|]. cbn [fst snd u_expiry set_wheel]. intros w2 K2 P2 T2 C2 N2. do 3 wp_step. split; [done|].
  split; cbn; try (by destruct Fr; congruence).
  - pose proof (refresh_ok b rest now cs s1 k f id w w2 (fun x => x) R Ef N P K2 P2 ltac:(congruence) ltac:(congruence) eq_refl) as I'.
    by destruct s1 as [[] ?].
  - by destruct Fr; split; cbn.
  - apply Bg.
  - apply Bg.
  - rewrite N2, Ni. by rewrite (bg_timer_ids _ _ _ _ _ _ Bg).
  - exists s1, k, f, id. by destruct Em.
  - apply Bg.
Qed.

(** ** Originating *)
Definition taken t (remote local : SocketAddr) : Prop := is_Some (u_by_key t !! mkUdpFlowKey remote local (u_generation t)).

(** A free port of the dynamic range, and none is missed. *)
Lemma ephemeral_local_spec t local remote usable :
  match ephemeral_local hash_one t local remote usable with
  | Ok a => a = mkSocketAddr (sa_ip local) (sa_port a) /\ 49152 <= sa_port a <= 65535 /\ ~ taken t remote a /\ usable a = true
  | Err e => e = AddressInUse /\ forall port, 49152 <= port <= 65535 ->
      taken t remote (mkSocketAddr (sa_ip local) port) \/ usable (mkSocketAddr (sa_ip local) port) = false
  | _ => False
  end.
Proof.
  unfold ephemeral_local. set (start := hash_one _). match goal with |- context [find ?free ?l] => destruct (find free l) as [a|] eqn:E end; cbn.
  - apply find_some in E as [(o & <- & _)%in_map_iff [Hf Hu]%andb_prop]. cbn. rewrite negb_true_iff, bool_decide_eq_false in Hf.
    pose proof (Z.mod_pos_bound (wrap64 (start + o)) EPHEMERAL_SPAN ltac:(done)) as Hm.
    set (x := wrap64 (start + o) mod EPHEMERAL_SPAN) in *. change EPHEMERAL_SPAN with 16384 in Hm. change EPHEMERAL_FIRST with 49152. split_and!; [done|lia|lia|exact Hf|done].
  - split; [done|]. intros port Hp. set (o := (port - 49152 - start) mod EPHEMERAL_SPAN).
    assert (0 <= o < EPHEMERAL_SPAN) as Ho by (apply Z.mod_pos_bound; done).
    pose proof (find_none _ _ E (mkSocketAddr (sa_ip local) port)) as Nf. cbn beta in Nf.
    assert (EPHEMERAL_FIRST + wrap64 (start + o) mod EPHEMERAL_SPAN = port) as Ep.
    { unfold wrap64. change 18446744073709551616 with (EPHEMERAL_SPAN * 1125899906842624). rewrite Z.rem_mul_r by done.
      rewrite Z.add_comm, (Z.mul_comm EPHEMERAL_SPAN), Z.mod_add by done. unfold o. rewrite Z.mod_mod by done. rewrite Zplus_mod_idemp_r.
      replace (start + (port - 49152 - start)) with (port - 49152) by lia. rewrite Z.mod_small; unfold EPHEMERAL_SPAN, EPHEMERAL_FIRST; lia. }
    rewrite andb_false_iff, negb_false_iff, bool_decide_eq_true in Nf. apply Nf. apply in_map_iff. exists o. split; [by rewrite Ep|].
    apply list_elem_of_In, elem_of_seqZ. lia.
Qed.

(** What [originate_using] returns. *)
Record originated (now : Z) cs (local remote : SocketAddr) (payload : list Z) (usable : SocketAddr -> bool) s
    (r : UdpFlowToken * SocketAddr * list Z) s' : Prop := {
  og_ip : sa_ip r.1.2 = sa_ip local;
  og_valid : valid_flow_source (sa_ip remote) && valid_flow_destination (sa_ip local) = true;
  og_token : r.1.1 = mkUdpFlowToken (ut_flow r.1.1) (u_generation s.1) (u_shard s.1);
  og_delivers : delivers r.1.2 remote payload r.2;
  og_touched : exists s1, begun now cs s s1 /\ touched b rest now cs (mkUdpFlowKey remote r.1.2 (u_generation s.1)) s1 (ut_flow r.1.1) s' /\
    (sa_port local <> 0 /\ r.1.2 = local \/
     sa_port local = 0 /\ bare r.1.2 = r.1.2 /\ 49152 <= sa_port r.1.2 <= 65535 /\ ~ taken s1.1 remote r.1.2 /\ usable r.1.2 = true)
}.

Inductive originate_reason (local remote : SocketAddr) (payload : list Z) (usable : SocketAddr -> bool) s1 : UdpError -> Prop :=
  | or_address : ~ (same_family (sa_ip local) (sa_ip remote) /\ sa_port remote <> 0 /\ valid_flow_source (sa_ip remote) = true /\
      valid_flow_destination (sa_ip local) = true) -> originate_reason local remote payload usable s1 InvalidAddress
  | or_in_use : sa_port local = 0 -> (forall port, 49152 <= port <= 65535 ->
      taken s1.1 remote (mkSocketAddr (sa_ip local) port) \/ usable (mkSocketAddr (sa_ip local) port) = false) ->
      originate_reason local remote payload usable s1 AddressInUse
  | or_wire e : udp_payload_limit (sa_ip local) < len payload -> originate_reason local remote payload usable s1 (UdpWire e)
  | or_budget e : originate_reason local remote payload usable s1 (UdpBudget e).

Lemma is_ipv4_family a c : eqb (is_ipv4 a) (is_ipv4 c) = true <-> same_family (sa_ip a) (sa_ip c).
Proof. unfold is_ipv4, same_family. destruct (sa_ip a), (sa_ip c); cbn; done. Qed.

Lemma local_choice_spec t local remote usable :
  match (if sa_port local =? 0 then ephemeral_local hash_one t local remote usable else Ok local) with
  | Ok a => sa_ip a = sa_ip local /\ (sa_port local <> 0 /\ a = local \/
      sa_port local = 0 /\ bare a = a /\ 49152 <= sa_port a <= 65535 /\ ~ taken t remote a /\ usable a = true)
  | Err e => e = AddressInUse /\ sa_port local = 0 /\ forall port, 49152 <= port <= 65535 ->
      taken t remote (mkSocketAddr (sa_ip local) port) \/ usable (mkSocketAddr (sa_ip local) port) = false
  | _ => False
  end.
Proof.
  destruct (Z.eqb_spec (sa_port local) 0) as [E|E]; [|split; [done|by left]]. pose proof (ephemeral_local_spec t local remote usable) as Sp.
  destruct (ephemeral_local _ _ _ _ _) as [a|e| |]; try done.
  - destruct Sp as (-> & H2 & H3 & H4). split; [done|by right].
  - destruct Sp as [H1 H2]. done.
Qed.

Lemma originate_spec local remote payload now usable cs s : udp_inv cs s -> 0 <= now < u64_max -> addr_ok local -> addr_ok remote -> bytes_ok payload ->
  tq_ids (u_expiry s.1) < u64_max -> u_next_flow_id s.1 < u64_max ->
  wp (originate_using b le hash_one local remote payload now usable) s
    (fun r s' => u_last_now_ms s.1 <= now /\ originated now cs local remote payload usable s r s')
    (fun e s' => refused now s e s' \/ u_last_now_ms s.1 <= now /\ failed now cs s s' /\
       exists s1, begun now cs s s1 /\ originate_reason local remote payload usable s1 e).
Proof.
  intros I Hn Al Ar Bp Hi Hf. unfold originate_using. apply (wp_begin now cs); [done|done| |by left]. intros s1 Hl Bg.
  pose proof (bg_frame _ _ _ _ _ _ Bg) as Fr. assert (failed now cs s s1) as Fa.
  { pose proof (begun_untouched now cs s s1 (fun x => x) Bg eq_refl) as Fa. by destruct s1 as [[] ?]. }
  wp_step; rename H1 into Hv.
  { wp_step. right. split; [done|]. split; [done|]. exists s1. split; [done|]. apply or_address. intros (V1%is_ipv4_family & V2 & V3 & V4).
    rewrite V1, V3, V4 in Hv. apply Z.eqb_neq in V2. by rewrite V2 in Hv. }
  rewrite !orb_false_iff, !negb_false_iff in Hv. destruct Hv as [[[V1%is_ipv4_family V2] V3] V4].
  do 4 wp_step. pose proof (local_choice_spec s1.1 local remote usable) as Lc.
  destruct (if sa_port local =? 0 then _ else _) as [a|e| |]; try done.
  2: { destruct Lc as (-> & E0 & Hall). right. split; [done|]. split; [done|]. exists s1. split; [done|by apply or_in_use]. }
  destruct Lc as [Ia Ca]. assert (addr_ok a) as Aa.
  { unfold addr_ok. rewrite Ia. split; [apply Al|]. destruct Ca as [[_ ->]|(_ & _ & Hp & _)]; [apply Al|width]. }
  set (key := mkUdpFlowKey remote a (u_generation s1.1)).
  set (id := match u_by_key s1.1 !! key with Some f => uf_id f | None => u_next_flow_id s1.1 end).
  wp_step. apply wp_wire. pose proof (emit_udp_spec le a remote payload 64 (flow_identification id) Aa Ar Bp ltac:(width) (identification_range _)) as Em.
  destruct (emit_udp_packet _ _ _ _ _ _) as [wire|e| |]; try done.
  2: { right. split; [done|]. split; [done|]. exists s1. split; [done|]. apply or_wire. rewrite <- Ia.
    destruct (Z.lt_ge_cases (udp_payload_limit (sa_ip a)) (len payload)); [done|]. destruct Em. split; [by rewrite Ia|lia]. }
  wp_step. assert (ready b rest now cs s1) as R by (by apply (begun_ready _ _ _ _ s)).
  eapply wp_mono; [apply (touch_or_admit_spec b rest Hb now cs key s1 R); try done| |].
  - by rewrite (bg_timer_ids _ _ _ _ _ _ Bg).
  - by rewrite (bg_next _ _ _ _ _ _ Bg).
  - intros id' s' T. assert (id' = id) as ->.
    { pose proof (to_id _ _ _ _ _ _ _ _ T) as Ti. unfold id. destruct (u_by_key s1.1 !! key); apply Ti. }
    rewrite Z.eqb_refl. cbn [negb]. wp_step. split; [done|]. destruct Em as [_ Em]. rewrite (fr_generation _ _ Fr), (fr_shard _ _ Fr).
    split; cbn; [done|by rewrite V3, V4|done|done|]. exists s1. rewrite <- (fr_generation _ _ Fr). done.
  - intros e s' (U & [be ->] & _). right. split; [done|]. split; [|exists s1; split; [done|constructor]].
    by apply (untouched_failed now cs s s1 s1); [..|apply store_same_chains|].
Qed.
End Calls.
