(* ===== verification/UdpTheorems.v ===== *)
(** What the UDP table ([sail-netstack/src/udp.rs]) promises: an invariant of every
    sequence of calls, replies that reach the client while the flow lives and
    never after, tokens that are never revived, and ports that are free. *)
From S2P Require Import Prelude StateMonad Checksum IpWire Budget Timer TimerRefine TimerInterface Leases ExpiryIndex Slab SlabTheorems Udp UdpInv UdpOps UdpCalls.
From stdpp Require Import list gmap.
#[local] Open Scope Z_scope.

(** ** Any sequence of calls *)
Inductive udp_call :=
| UIngest (packet : list Z) (now : Z) (allow_new : bool)
| UOriginate (local remote : SocketAddr) (payload : list Z) (now : Z) (usable : SocketAddr -> bool)
| UReply (token : UdpFlowToken) (source : SocketAddr) (payload : list Z) (now : Z)
| UExpire (now divisor : Z)
| UReset (generation : Z)
| UClear
| UPayload (call : slab_call).

Section Sequences.
Context {W : Type} `{TimerQueueLaws UdpFlowKey W} (b : ResourceBudget) (rest : holdings) (Hb : budget_range b) (le : bool)
  (hash_one : SocketAddr * IpAddr * Z -> Z) (iter : gmap UdpFlowKey UdpFlow -> list UdpFlowKey).
Context (iter_all : forall fs, Permutation (iter fs) (map fst (map_to_list fs))).
Abbreviation ustate := (@ustate W).
Abbreviation udp_inv := (udp_inv b rest).
Abbreviation begun := (begun b rest).
Implicit Types (t : @UdpTable W) (s : ustate) (cs : list SlabChain).

(** A call, with the payloads [cs] the application holds before and after. *)
Definition udp_do (c : udp_call) cs : sm ustate UdpError (list SlabChain) :=
  match c with
  | UIngest packet now allow =>
    r ← attempt (ingest_with_policy b le packet now allow); mret (match r with inl r => ui_payload r :: cs | inr _ => cs end)
  | UOriginate local remote payload now usable => _ ← attempt (originate_using b le hash_one local remote payload now usable); mret cs
  | UReply token source payload now => _ ← attempt (emit_reply le token source payload now); mret cs
  | UExpire now divisor => _ ← attempt (expire_idle_under_pressure iter now divisor); mret cs
  | UReset g => _ ← udp_reset_network g; mret cs
  | UClear => _ ← udp_clear; mret cs
  | UPayload call => r ← on_slabs (slab_run b call cs); mret r.1
  end.

(** Bytes are bytes, addresses have their octets, and the clock has not run out. *)
Definition udp_call_ok (c : udp_call) cs : Prop :=
  match c with
  | UIngest packet now _ => bytes_ok packet /\ 0 <= now < u64_max
  | UOriginate local remote payload now _ => addr_ok local /\ addr_ok remote /\ bytes_ok payload /\ 0 <= now < u64_max
  | UReply _ source payload now => addr_ok source /\ bytes_ok payload /\ 0 <= now < u64_max
  | UExpire now _ => 0 <= now < u64_max
  | UPayload call => permitted call cs
  | _ => True
  end.

(** The counters after [n] calls, and the identities that are gone for good. *)
Record counted_to (n : Z) s : Prop := {
  ct_timers : tq_ids (u_expiry s.1) <= n;
  ct_next : u_next_flow_id s.1 <= n;
  ct_size : Z.of_nat (size (u_by_key s.1)) <= n
}.
Record identities_kept s s' : Prop := {
  ik_next : u_next_flow_id s.1 <= u_next_flow_id s'.1;
  ik_gone id : id < u_next_flow_id s.1 -> u_by_id s.1 !! id = None -> u_by_id s'.1 !! id = None
}.
Definition stepped (n : Z) s s' : Prop := counted_to (n + 1) s' /\ identities_kept s s'.

Lemma size_le (fs fs' : gmap UdpFlowKey UdpFlow) : (forall k, is_Some (fs' !! k) -> is_Some (fs !! k)) -> Z.of_nat (size fs') <= Z.of_nat (size fs).
Proof.
  intros Sub. rewrite <- !size_dom. apply inj_le, subseteq_size. intros k. rewrite !elem_of_dom. apply Sub.
Qed.

Lemma begun_size now cs s s1 : begun now cs s s1 -> Z.of_nat (size (u_by_key s1.1)) <= Z.of_nat (size (u_by_key s.1)).
Proof. intros Bg. apply size_le. intros k [f [E _]%(bg_flows _ _ _ _ _ _ Bg)]. by exists f. Qed.

Lemma sub_gone (ids ids' : gmap Z UdpFlowKey) id : ids' ⊆ ids -> ids !! id = None -> ids' !! id = None.
Proof. intros Sub E. by apply (lookup_weaken_None _ ids). Qed.

Lemma kept_same n cs s s' : counted_to n s -> tq_ids (u_expiry s'.1) <= n + 1 -> u_next_flow_id s'.1 = u_next_flow_id s.1 ->
  Z.of_nat (size (u_by_key s'.1)) <= n + 1 -> u_by_id s'.1 ⊆ u_by_id s.1 -> stepped n s s'.
Proof. intros [C1 C2 C3] T N S Sub. split; split; try lia; try done. intros id _. by apply sub_gone. Qed.

Lemma failed_stepped n now cs s s' : counted_to n s -> failed b rest now cs s s' -> stepped n s s'.
Proof.
  intros C [I (s1 & Bg & _ & _ & N & T & Fl & Id) _]. pose proof C as [C1 C2 C3]. apply (kept_same n cs); try done.
  - rewrite (bg_timer_ids _ _ _ _ _ _ Bg) in T. lia.
  - rewrite N. apply Bg.
  - rewrite Fl. pose proof (begun_size _ _ _ _ Bg). lia.
  - rewrite Id. apply Bg.
Qed.

Lemma refused_stepped n now s e s' : counted_to n s -> refused now s e s' -> stepped n s s'.
Proof. intros [C1 C2 C3] (_ & _ & ->). apply (kept_same n []); done || lia. Qed.

Lemma error_stepped n now cs s e s' (P : Prop) : udp_inv cs s -> counted_to n s ->
  refused now s e s' \/ u_last_now_ms s.1 <= now /\ failed b rest now cs s s' /\ P -> udp_inv cs s' /\ stepped n s s'.
Proof.
  intros I C [R|(_ & Fa & _)].
  - split; [by destruct R as (_ & _ & ->)|by eapply refused_stepped].
  - split; [apply Fa|by eapply failed_stepped].
Qed.

Lemma insert_size (fs : gmap UdpFlowKey UdpFlow) k f : Z.of_nat (size (<[k := f]> fs)) <= Z.of_nat (size fs) + 1.
Proof. rewrite map_size_insert. unfold id. destruct (fs !! k); lia. Qed.

Lemma touched_stepped n now cs cs' k s s1 s2 id s' : counted_to n s -> begun now cs s s1 -> s2.1 = s1.1 ->
  touched b rest now cs' k s2 id s' -> stepped n s s'.
Proof.
  intros [C1 C2 C3] Bg E [I _ _ _ T (f & Fl & _ & _) Id _]. rewrite E in *. pose proof (begun_size _ _ _ _ Bg) as Hs.
  pose proof (bg_timer_ids _ _ _ _ _ _ Bg). pose proof (bg_next _ _ _ _ _ _ Bg) as Hn. pose proof (bg_ids _ _ _ _ _ _ Bg) as Sub.
  assert (Z.of_nat (size (u_by_key s'.1)) <= n + 1) as Hs' by (rewrite Fl; pose proof (insert_size (u_by_key s1.1) k f); lia).
  destruct (u_by_key s1.1 !! k); destruct Id as (-> & Nx & Ids).
  - apply (kept_same n cs); try done; [lia|congruence|by rewrite Ids].
  - split; split; try lia. intros id Hid Ni. rewrite Ids, lookup_insert_ne by lia. by apply (sub_gone _ _ _ Sub).
Qed.

(** Every call returns, and keeps the invariant. *)
Lemma udp_do_spec n c cs s : udp_inv cs s -> counted_to n s -> n < u64_max -> udp_call_ok c cs ->
  wp (udp_do c cs) s (fun cs' s' => udp_inv cs' s' /\ stepped n s s') (fun _ _ => False).
Proof.
  intros I C Hn Hc. pose proof C as [C1 C2 C3]. destruct c as [packet now allow|local remote payload now usable|token source payload now|now d|g| |call];
    cbn [udp_do udp_call_ok] in *; wp_step; try wp_step.
  - destruct Hc as [B Hnow]. eapply wp_mono; [apply (udp_ingest_spec b rest Hb le packet now allow cs s I Hnow B); lia| |].
    + intros r s' (_ & ip & d & _ & _ & _ & [I' _ _ _ _ (s1 & s2 & Bg & E & T) _]). wp_step. split; [done|by eapply touched_stepped].
    + intros e s' R. wp_step. exact (error_stepped n now cs s e s' _ I C R).
  - destruct Hc as (Al & Ar & B & Hnow).
    eapply wp_mono; [apply (originate_spec b rest Hb le hash_one local remote payload now usable cs s I Hnow Al Ar B); lia| |].
    + intros r s' (_ & [_ _ _ _ (s1 & Bg & T & _)]). wp_step. split; [apply T|by eapply touched_stepped].
    + intros e s' R. wp_step. exact (error_stepped n now cs s e s' _ I C R).
  - destruct Hc as (As & B & Hnow). eapply wp_mono; [apply (reply_spec b rest Hb le token source payload now cs s I Hnow As B); lia| |].
    + intros wire s' (_ & [I' _ _ _ N T (s1 & k & f & timer & Bg & Ek & Ef & Fl & Ids & _) _]). wp_step. split; [done|].
      apply (kept_same n cs); try done; [lia| |rewrite Ids; apply Bg].
      rewrite Fl. pose proof (begun_size _ _ _ _ Bg). pose proof (insert_size (u_by_key s1.1) k (seen_again now timer f)). lia.
    + intros e s' R. wp_step. exact (error_stepped n now cs s e s' _ I C R).
  - eapply wp_mono; [apply (pressure_spec b rest Hb iter iter_all now d cs s I Hc); lia| |].
    + intros r s' (_ & [I' _ _ _ _ N T Fl _ _ Ids _]). wp_step. split; [done|]. apply (kept_same n cs); try done; [lia|].
      assert (Z.of_nat (size (u_by_key s'.1)) <= Z.of_nat (size (u_by_key s.1))); [|lia].
      apply size_le. intros k [f (f0 & E0 & _)%Fl]. by exists f0.
    + intros e s' R. wp_step. split; [by destruct R as (_ & _ & ->)|by eapply refused_stepped].
  - eapply wp_mono; [apply (reset_spec b rest Hb g cs s I)| |done]. intros _ s' (I' & _ & N & _ & _ & T & Fl & Ids & _). wp_step. split; [done|].
    apply (kept_same n cs); try done; [|rewrite Fl, map_size_empty|rewrite Ids; apply map_empty_subseteq]; lia.
  - eapply wp_mono; [apply (udp_clear_spec b rest Hb (u_generation s.1) cs s); by destruct s as [[] ?]| |done].
    intros _ s' (I' & _ & _ & N & T & Fl & Ids & _). wp_step. split; [done|].
    apply (kept_same n cs); try done; [|rewrite Fl, map_size_empty|rewrite Ids; apply map_empty_subseteq]; lia.
  - destruct I as [I Sl]. apply wp_slabs. eapply wp_mono; [apply (slab_run_refines b rest Hb _ _ _ _ Sl Hc)| |done].
    intros [cs' r] h [Sl' _]. wp_step. split; [by split|]. apply (kept_same n cs); try done; cbn; lia.
Qed.

Lemma udp_new_spec g sh idle chunk l : 0 < idle <= u64_max -> 0 < chunk -> accounts b rest l [] ->
  exists t, udp_new_on_shard g sh idle chunk = Ok t /\ udp_inv [] (t, (mkStore 0 ∅, l)) /\ counted_to 0 (t, (mkStore 0 ∅, l)).
Proof.
  intros Hi Hc A. unfold udp_new_on_shard. rewrite (proj2 (Z.leb_gt _ _) (proj1 Hi)), (proj2 (Z.leb_gt _ _) Hc). cbn [orb].
  change (udp_expiry_tick idle) with (safe_tick idle). destruct (safe_tick_covers idle Hi) as [Ht _].
  destruct (tq_new_law (W := W) (safe_tick idle) 0) as (w & -> & K & P & T & C & N); [lia|unfold is_u64; lia|].
  eexists. split; [reflexivity|]. split; [split|]; [..|split; cbn; rewrite ?map_size_empty; lia].
  - split; cbn; try done; try (rewrite ?C, ?P); try (unfold u64_max; lia).
    + rewrite Z.div_0_l by lia. lia.
    + apply timed_empty.
    + intros id k. rewrite lookup_empty. setoid_rewrite lookup_empty. naive_solver.
  - split; [|constructor]. split; cbn; try done.
Qed.

(** Calls one after the other; [n] and [m] count them. *)
Inductive udp_leads (n : Z) cs s : Z -> list SlabChain -> ustate -> Prop :=
| leads_none : udp_leads n cs s n cs s
| leads_call m cs1 s1 c cs2 s2 : udp_leads n cs s m cs1 s1 -> udp_call_ok c cs1 -> udp_do c cs1 s1 = (s2, Ok cs2) ->
    udp_leads n cs s (m + 1) cs2 s2.

Definition udp_reaches (n : Z) cs s : Prop :=
  exists g sh idle chunk l t, 0 < idle <= u64_max /\ 0 < chunk /\ accounts b rest l [] /\
    udp_new_on_shard g sh idle chunk = Ok t /\ udp_leads 0 [] (t, (mkStore 0 ∅, l)) n cs s.

Lemma leads_mono n cs s m cs' s' : udp_leads n cs s m cs' s' -> n <= m.
Proof. induction 1; lia. Qed.

Lemma leads_inv n cs s m cs' s' : udp_leads n cs s m cs' s' -> m <= u64_max -> udp_inv cs s -> counted_to n s ->
  udp_inv cs' s' /\ counted_to m s' /\ identities_kept s s'.
Proof.
  intros L Hm I C. induction L as [|m cs1 s1 c cs2 s2 L IH Hc E]; [done|]. destruct IH as (I1 & C1 & K1); [lia|].
  pose proof (udp_do_spec m c cs1 s1 I1 C1 ltac:(lia) Hc) as S. unfold wp in S. rewrite E in S. destruct S as (I2 & C2 & K2). split_and!; [done|done|].
  destruct K1 as [N1 G1], K2 as [N2 G2]. split; [lia|]. intros id Hid E0. apply G2; [lia|by apply G1].
Qed.

Lemma udp_reaches_inv n cs s : udp_reaches n cs s -> n <= u64_max -> udp_inv cs s /\ counted_to n s.
Proof.
  intros (g & sh & idle & chunk & l & t & Hi & Hc & A & E & L) Hn.
  destruct (udp_new_spec g sh idle chunk l Hi Hc A) as (t' & E' & I & C). rewrite E in E'. injection E' as <-.
  destruct (leads_inv _ _ _ _ _ _ L Hn I C) as (I' & C' & _). done.
Qed.

(** ** Replies to a flow *)
Definition token_of t (f : UdpFlow) : UdpFlowToken := mkUdpFlowToken (uf_id f) (u_generation t) (u_shard t).

Lemma token_owned t f : is_owned_by (token_of t f) (u_generation t) (u_shard t) = true.
Proof. unfold is_owned_by, is_current, token_of. cbn. by rewrite !Z.eqb_refl. Qed.

(** The flow after the clock has moved on. *)
Lemma begun_alive now cs s s1 k f : udp_inv cs s -> begun now cs s s1 -> u_by_key s.1 !! k = Some f ->
  now < flow_deadline (timeout_of s.1) f -> u_by_key s1.1 !! k = Some f /\ u_by_id s1.1 !! uf_id f = Some k.
Proof.
  intros [I _] Bg E Hd. pose proof (udp_tick_range _ I). assert (u_by_key s1.1 !! k = Some f) as E1.
  { apply (bg_flows _ _ _ _ _ _ Bg). split; [done|]. apply Z.ltb_lt, alive_until; [lia|done]. }
  split; [done|]. by eapply identified_lookup; [apply (bg_inv _ _ _ _ _ _ Bg)|].
Qed.

Lemma begun_dead now cs s s1 k f : udp_inv cs s -> begun now cs s s1 -> u_by_key s.1 !! k = Some f ->
  flow_deadline (timeout_of s.1) f + u_expiry_tick_ms s.1 <= now -> u_by_id s1.1 !! uf_id f = None.
Proof.
  intros [I _] Bg E Hd. pose proof (udp_tick_range _ I) as Rt. pose proof (identified_lookup _ _ _ _ (tk_ids _ I) E) as Ei.
  destruct (u_by_id s1.1 !! uf_id f) as [k1|] eqn:E1; [|done]. pose proof (lookup_weaken _ _ _ _ E1 (bg_ids _ _ _ _ _ _ Bg)) as E2.
  rewrite Ei in E2. injection E2 as <-. apply (tk_ids _ (proj1 (bg_inv _ _ _ _ _ _ Bg))) in E1 as (f1 & E1 & _).
  apply (bg_flows _ _ _ _ _ _ Bg) in E1 as [E1 Ha]. rewrite E in E1. injection E1 as <-. unfold alive_at in Ha.
  pose proof (dead_after (u_expiry_tick_ms s.1) now _ ltac:(lia) Hd) as Hx. apply Z.ltb_ge in Hx. lia.
Qed.

Lemma reply_live cs s k f source payload now : udp_inv cs s -> tq_ids (u_expiry s.1) < u64_max -> u_by_key s.1 !! k = Some f ->
  addr_ok source -> bytes_ok payload -> u_last_now_ms s.1 <= now < u64_max -> now < flow_deadline (timeout_of s.1) f ->
  sendable source (uk_source k) payload ->
  exists s' wire, emit_reply le (token_of s.1 f) source payload now s = (s', Ok wire) /\ delivers source (uk_source k) payload wire.
Proof.
  intros I Hi E As B Hn Hd Sd. pose proof (proj1 (tk_now _ (proj1 I))) as H0'.
  pose proof (reply_spec b rest Hb le (token_of s.1 f) source payload now cs s I ltac:(lia) As B Hi) as S. unfold wp in S.
  destruct (emit_reply le (token_of s.1 f) source payload now s) as [s' [wire|e| |]]; try done.
  - destruct S as (_ & [_ _ _ _ _ _ (s1 & k1 & f1 & timer & Bg & Ek & _ & _ & _ & _ & Dl) _]). exists s', wire. split; [done|].
    destruct (begun_alive now cs s s1 k f I Bg E Hd) as [_ Ei]. cbn in Ek. rewrite Ei in Ek. by injection Ek as <-.
  - destruct S as [(Hb' & _)|(_ & _ & s1 & Bg & Rr)]; [lia|]. destruct (begun_alive now cs s s1 k f I Bg E Hd) as [_ Ei].
    destruct (bg_frame _ _ _ _ _ _ Bg) as [Fg Fs _ _ _ _]. destruct Rr as [Ho|Eg|k1 e _ Ek Ns].
    + by rewrite Fg, Fs, token_owned in Ho.
    + cbn in Eg. congruence.
    + cbn in Ek. rewrite Ei in Ek. by injection Ek as <-.
Qed.

Lemma reply_dead cs s k f source payload now : udp_inv cs s -> tq_ids (u_expiry s.1) < u64_max -> u_by_key s.1 !! k = Some f ->
  addr_ok source -> bytes_ok payload -> u_last_now_ms s.1 <= now < u64_max -> flow_deadline (timeout_of s.1) f + u_expiry_tick_ms s.1 <= now ->
  exists s', emit_reply le (token_of s.1 f) source payload now s = (s', Err StaleToken).
Proof.
  intros I Hi E As B Hn Hd. pose proof (proj1 (tk_now _ (proj1 I))) as H0'.
  pose proof (reply_spec b rest Hb le (token_of s.1 f) source payload now cs s I ltac:(lia) As B Hi) as S. unfold wp in S.
  destruct (emit_reply le (token_of s.1 f) source payload now s) as [s' [wire|e| |]]; try done.
  - destruct S as (_ & [_ _ _ _ _ _ (s1 & k1 & f1 & timer & Bg & Ek & _) _]). pose proof (begun_dead now cs s s1 k f I Bg E Hd). cbn in Ek. congruence.
  - destruct S as [(Hb' & _)|(_ & _ & s1 & Bg & Rr)]; [lia|]. pose proof (begun_dead now cs s s1 k f I Bg E Hd).
    destruct Rr as [Ho|Eg|k1 e _ Ek Ns]; [by eexists|by eexists|]. cbn in Ek. congruence.
Qed.

(** The flow a touch leaves. *)
Lemma touched_flow now cs cs' k s s1 s2 id s' : begun now cs s s1 -> s2.1 = s1.1 -> touched b rest now cs' k s2 id s' ->
  exists f, u_by_key s'.1 !! k = Some f /\ uf_id f = id /\ uf_last_seen_ms f = now /\ u_generation s'.1 = u_generation s.1 /\
    u_shard s'.1 = u_shard s.1 /\ timeout_of s'.1 = timeout_of s.1 /\ u_expiry_tick_ms s'.1 = u_expiry_tick_ms s.1 /\ u_last_now_ms s'.1 = now.
Proof.
  intros Bg E [_ F N _ _ (f & Fl & Hf & Hs) _ _]. rewrite E in *. pose proof (uframed_trans _ _ _ (bg_frame _ _ _ _ _ _ Bg) F) as F'.
  exists f. rewrite Fl, lookup_insert_eq, (uframed_timeout _ _ F'), N. destruct F'. split_and!; try done. apply Bg.
Qed.


(** C34: after any sequence of fewer than 2^64 calls (datagrams in, datagrams
    originated, replies, expiry under any pressure, resets, and whatever the
    application does with the payloads it was handed), every UDP flow has exactly
    one timer and one identity, every identity one flow, and the ledger is what the
    rest holds plus the leases of the flows and of the payloads still referenced.
    The next call returns; clearing the table gives back all that the flows held. *)
Theorem udp_table_invariant n cs s : udp_reaches n cs s -> n < u64_max ->
  udp_inv cs s /\
  (forall c, udp_call_ok c cs -> exists s' cs', udp_do c cs s = (s', Ok cs')) /\
  exists s', udp_clear s = (s', Ok tt) /\ u_by_key s'.1 = ∅ /\ u_by_id s'.1 = ∅ /\ ss_cells s'.2.1 = ss_cells s.2.1 /\
    l_total s'.2.2 = h_total rest + zsum lease_total (cell_leases s'.2) /\
    forall k, l_used s'.2.2 k = h_used rest k + zsum (lease_pool k) (cell_leases s'.2).
Proof.
  intros R Hn. destruct (udp_reaches_inv n cs s R ltac:(lia)) as [I C]. split; [done|]. split.
  - intros c Hc. pose proof (udp_do_spec n c cs s I C Hn Hc) as S. unfold wp in S.
    destruct (udp_do c cs s) as [s' [cs'|e| |]]; try done. by exists s', cs'.
  - pose proof (udp_clear_spec b rest Hb (u_generation s.1) cs s ltac:(by destruct s as [[] ?])) as S. unfold wp in S.
    destruct (udp_clear s) as [s' [[]|e| |]]; try done. destruct S as ((_ & Hh & _) & _ & _ & _ & _ & Ek & Ei & Es). exists s'. rewrite Es.
    pose proof (hp_accounts _ _ _ _ _ Hh) as A. rewrite Ek, map_leases_empty, app_nil_r in A. split_and!; try done; apply A.
Qed.

(** C36: a token is never revived: once its flow is gone (expired, cleared or reset)
    no sequence of calls makes a reply under it succeed again, whatever flows are
    opened since; it is answered with [StaleToken]. *)
Theorem udp_tokens_never_revived n cs s m cs' s' token source payload now :
  udp_reaches n cs s -> udp_leads n cs s m cs' s' -> m < u64_max ->
  ut_flow token < u_next_flow_id s.1 -> u_by_id s.1 !! ut_flow token = None ->
  addr_ok source -> bytes_ok payload -> u_last_now_ms s'.1 <= now < u64_max ->
  exists s'', emit_reply le token source payload now s' = (s'', Err StaleToken).
Proof.
  intros R L Hm Hid E As B Hnow. pose proof (leads_mono _ _ _ _ _ _ L). destruct (udp_reaches_inv n cs s R ltac:(lia)) as [I C].
  destruct (leads_inv _ _ _ _ _ _ L ltac:(lia) I C) as (I' & [C1 C2 C3] & K). pose proof (ik_gone _ _ K _ Hid E) as Eg.
  pose proof (proj1 (tk_now _ (proj1 I'))) as H0'.
  pose proof (reply_spec b rest Hb le token source payload now cs' s' I' ltac:(lia) As B ltac:(lia)) as S. unfold wp in S.
  assert (forall s1, begun now cs' s' s1 -> u_by_id s1.1 !! ut_flow token = None) as Gone by (intros s1 Bg; eapply sub_gone; [apply Bg|done]).
  destruct (emit_reply le token source payload now s') as [s'' [wire|e| |]]; try done.
  - destruct S as (_ & [_ _ _ _ _ _ (s1 & k & f & timer & Bg & Ek & _) _]). rewrite (Gone s1 Bg) in Ek. done.
  - destruct S as [(Hb' & _)|(_ & _ & s1 & Bg & Rr)]; [lia|]. destruct Rr as [| |k e _ Ek _]; [by eexists|by eexists|].
    rewrite (Gone s1 Bg) in Ek. done.
Qed.

(** C35: the reply round trip.  When a packet is ingested, the datagram it carries is
    handed up with its ends and its bytes; and for as long as the flow's timeout
    has not passed, the next call, if it is a reply under its token with a payload
    that fits a datagram, from any source of the family, is sent and every receiver
    reads it as a datagram from that source to the client, with the application's
    bytes.  A tick after the timeout the token is stale. *)
Theorem udp_reply_reaches_client n cs s packet since allow r s' source payload now :
  udp_reaches n cs s -> n + 1 < u64_max -> bytes_ok packet -> 0 <= since ->
  ingest_with_policy b le packet since allow s = (s', Ok r) ->
  addr_ok source -> bytes_ok payload -> since <= now < u64_max ->
  (exists ip, parse_ip_packet le packet true = Ok ip /\
     parse_udp_datagram le ip true = Ok (mkParsedUdpDatagram (ui_source r) (ui_destination r) (content s'.2 (ui_payload r)))) /\
  (now < since + timeout_of s.1 -> sendable source (ui_source r) payload ->
     exists s'' wire, emit_reply le (ui_token r) source payload now s' = (s'', Ok wire) /\ delivers source (ui_source r) payload wire) /\
  (since + timeout_of s.1 + u_expiry_tick_ms s.1 <= now ->
     exists s'', emit_reply le (ui_token r) source payload now s' = (s'', Err StaleToken)).
Proof.
  intros R Hn Bp Ht E As B Hnow. destruct (udp_reaches_inv n cs s R ltac:(lia)) as [I C]. pose proof C as [C1 C2 C3].
  pose proof (udp_ingest_spec b rest Hb le packet since allow cs s I ltac:(lia) Bp ltac:(lia) ltac:(lia)) as S. unfold wp in S. rewrite E in S.
  destruct S as (_ & ip & d & Ei & Ed & _ & [I' Es Edst Ep _ (s1 & s2 & Bg & E2 & T) Tk]).
  destruct (touched_stepped n since cs _ _ s s1 s2 _ s' C Bg E2 T) as [[C1' _ _] _].
  destruct (touched_flow since _ _ _ s s1 s2 _ s' Bg E2 T) as (f & Ef & Hid & Hs & Eg & Esh & Eto & Eti & Enow).
  assert (ui_token r = token_of s'.1 f) as Et by (rewrite Tk; unfold token_of; congruence).
  assert (flow_deadline (timeout_of s'.1) f = sat_add since (timeout_of s.1)) as Ed' by (unfold flow_deadline; congruence).
  split; [|rewrite Et, Es; split].
  - exists ip. split; [done|]. rewrite Ed, Es, Edst, Ep. by destruct d.
  - intros Hd Sd. change (udp_source d) with (uk_source (mkUdpFlowKey (udp_source d) (udp_destination d) (u_generation s.1))).
    apply (reply_live _ s' _ f source payload now I'); try done; try lia. rewrite Ed'. unfold sat_add. lia.
  - intros Hd. apply (reply_dead _ s' _ f source payload now I' ltac:(lia) Ef); try done; try lia. rewrite Ed', Eti. unfold sat_add. lia.
Qed.



(** C38: expiry under pressure.  [expire_idle_under_pressure] keeps every flow seen
    less than [idle_timeout / divisor] ago (at least a millisecond) under the same
    identity, drops every flow not seen for that and a tick of the wheel, opens
    none, and hands their leases back; only a clock that went back is refused. *)
Theorem udp_pressure_expires_idle n cs s now divisor :
  udp_reaches n cs s -> n < u64_max -> 0 <= now < u64_max ->
  let timeout := Z.max (u_idle_timeout_ms s.1 / Z.max divisor 1) 1 in
  (now < u_last_now_ms s.1 -> expire_idle_under_pressure iter now divisor s = (s, Err UdpClockWentBackwards)) /\
  (u_last_now_ms s.1 <= now -> exists s' removed, expire_idle_under_pressure iter now divisor s = (s', Ok removed) /\
    (forall k f, u_by_key s.1 !! k = Some f -> now < uf_last_seen_ms f + timeout ->
       exists f', u_by_key s'.1 !! k = Some f' /\ uf_id f' = uf_id f /\ uf_last_seen_ms f' = uf_last_seen_ms f) /\
    (forall k f, u_by_key s.1 !! k = Some f -> uf_last_seen_ms f + timeout + u_expiry_tick_ms s.1 <= now -> u_by_key s'.1 !! k = None) /\
    (forall k, u_by_key s.1 !! k = None -> u_by_key s'.1 !! k = None) /\
    accounts b rest s'.2.2 (cell_leases s.2 ++ flows_leases (u_by_key s'.1))).
Proof.
  intros R Hn Hnow timeout. destruct (udp_reaches_inv n cs s R ltac:(lia)) as [I [C1 C2 C3]].
  pose proof (pressure_spec b rest Hb iter iter_all now divisor cs s I Hnow ltac:(lia)) as S. unfold wp in S.
  assert (pressure_timeout s.1 divisor = timeout) as Et by (unfold pressure_timeout, udp_effective_timeout, timeout; do 2 f_equal; lia).
  destruct (expire_idle_under_pressure iter now divisor s) as [s' [r|e| |]]; try done.
  - destruct S as (Hl & [I' _ _ _ _ _ _ Fl Kp Gn _ St]). rewrite Et in *. split; [lia|]. intros _. exists s', r. split_and!; [done|..].
    + intros k f E Hd. destruct (Kp k f E) as [f' E']; [unfold flow_deadline, sat_add; lia|]. exists f'. split; [done|].
      destruct (Fl k f' E') as (f0 & E0 & Ef%strip_fields). rewrite E in E0. injection E0 as <-. by destruct Ef.
    + intros k f E Hd. apply (Gn k f E). unfold flow_deadline, sat_add. lia.
    + intros k E. destruct (u_by_key s'.1 !! k) as [f'|] eqn:E'; [|done]. destruct (Fl k f' E') as (f0 & E0 & _). congruence.
    + pose proof (hp_accounts _ _ _ _ _ (proj1 (proj2 I'))) as A. by rewrite (proj2 (store_same _ _ St)) in A.
  - destruct S as (Hl & -> & ->). split; [done|lia].
Qed.

(** ** Running the table *)
Definition udp_after (c : udp_call) (st : list SlabChain * ustate) : list SlabChain * ustate :=
  match udp_do c st.1 st.2 with (s', Ok cs') => (cs', s') | _ => st end.

Lemma reaches_call n c st : udp_reaches n st.1 st.2 -> n < u64_max -> udp_call_ok c st.1 -> udp_reaches (n + 1) (udp_after c st).1 (udp_after c st).2.
Proof.
  intros R Hn Hc. destruct (udp_reaches_inv _ _ _ R ltac:(lia)) as [I C]. pose proof (udp_do_spec n c st.1 st.2 I C Hn Hc) as S. unfold wp in S.
  unfold udp_after. destruct (udp_do c st.1 st.2) as [s' [cs'|e| |]] eqn:E; try done.
  destruct R as (g & sh & idle & chunk & l & t & ? & ? & ? & ? & L). exists g, sh, idle, chunk, l, t. split_and!; try done; try lia. by eapply leads_call.
Qed.
End Sequences.

(** ** Examples *)
Definition some_client : SocketAddr := mkSocketAddr (V4 [10; 0; 0; 1]) 1000.
Definition some_server : SocketAddr := mkSocketAddr (V4 [10; 0; 0; 2]) 53.
Definition sample_datagram (src dst : SocketAddr) : list Z :=
  match emit_udp_packet true src dst [7; 8; 9] 64 42 with Ok wire => wire | _ => [] end.
Definition sample_iter (fs : gmap UdpFlowKey UdpFlow) : list UdpFlowKey := map fst (map_to_list fs).
Definition sample_hash (x : SocketAddr * IpAddr * Z) : Z := 0.

Abbreviation Wheel := (TimerWheel UdpFlowKey).
(** A table with a timeout of thirty seconds on a fresh ledger. *)
Definition sample_table : @UdpTable Wheel :=
  match udp_new_on_shard 1 0 30000 1500 with Ok t => t | _ => mkUdpTable 0 0 0 0 0 0 0 (mkWheel 0 0 0 ∅ ∅ ∅) 0 ∅ ∅ (mkUdpTableStats 0 0 0 0 0 0 0) end.
Definition sample_start : list SlabChain * @ustate Wheel := ([], (sample_table, (mkStore 0 ∅, ledger_new))).
Definition sample_step (c : udp_call) (st : list SlabChain * @ustate Wheel) := udp_after (budget Mobile) true sample_hash sample_iter c st.

Lemma sample_start_reached : udp_reaches (budget Mobile) nothing_held true sample_hash sample_iter 0 sample_start.1 sample_start.2.
Proof.
  exists 1, 0, 30000, 1500, ledger_new, sample_table. split_and!; try (unfold u64_max; lia); [apply nothing_accounted|reflexivity|constructor].
Qed.

Lemma sample_datagram_ok : bytes_ok (sample_datagram some_client some_server).
Proof. vm_compute. repeat constructor; discriminate. Qed.

Lemma some_addresses_ok : addr_ok some_client /\ addr_ok some_server.
Proof. split; (split; [split; [reflexivity|repeat constructor; discriminate]|split; discriminate]). Qed.

(** The client's datagram at one second; then the table is cleared. *)
Definition sample_opened : list SlabChain * @ustate Wheel := sample_step (UIngest (sample_datagram some_client some_server) 1000 true) sample_start.
Definition sample_closed : list SlabChain * @ustate Wheel := sample_step UClear sample_opened.

Lemma sample_closed_reached : udp_reaches (budget Mobile) nothing_held true sample_hash sample_iter 2 sample_closed.1 sample_closed.2.
Proof.
  change 2 with (0 + 1 + 1).
  apply (reaches_call (budget Mobile) nothing_held mobile_range true sample_hash sample_iter (fun fs => Permutation_refl _)); [|unfold u64_max; lia|exact I].
  apply (reaches_call (budget Mobile) nothing_held mobile_range true sample_hash sample_iter (fun fs => Permutation_refl _));
    [exact sample_start_reached|unfold u64_max; lia|]. split; [exact sample_datagram_ok|unfold u64_max; lia].
Qed.

Lemma udp_tokens_never_revived_witness :
  exists s'', emit_reply true (mkUdpFlowToken 0 1 0) some_server [1; 2] 2000 sample_closed.2 = (s'', Err StaleToken).
Proof.
  apply (udp_tokens_never_revived (budget Mobile) nothing_held mobile_range true sample_hash sample_iter (fun fs => Permutation_refl _) 2 sample_closed.1 sample_closed.2
    2 sample_closed.1 sample_closed.2).
  - exact sample_closed_reached.
  - constructor.
  - unfold u64_max. lia.
  - vm_compute. reflexivity.
  - vm_compute. reflexivity.
  - apply some_addresses_ok.
  - repeat constructor; discriminate.
  - vm_compute. split; [discriminate|reflexivity].
Defined.

Lemma sample_opened_reached : udp_reaches (budget Mobile) nothing_held true sample_hash sample_iter 1 sample_opened.1 sample_opened.2.
Proof.
  change 1 with (0 + 1).
  apply (reaches_call (budget Mobile) nothing_held mobile_range true sample_hash sample_iter (fun fs => Permutation_refl _));
    [exact sample_start_reached|unfold u64_max; lia|]. split; [exact sample_datagram_ok|unfold u64_max; lia].
Qed.

(** The table with one flow open. *)
Lemma udp_table_invariant_witness : is_Some (u_by_key sample_opened.2.1 !! mkUdpFlowKey some_client some_server 1) /\
  exists s', udp_clear sample_opened.2 = (s', Ok tt) /\ u_by_key s'.1 = ∅ /\ u_by_id s'.1 = ∅ /\
  ss_cells s'.2.1 = ss_cells sample_opened.2.2.1 /\
  l_total s'.2.2 = h_total nothing_held + zsum lease_total (cell_leases s'.2) /\
  forall k, l_used s'.2.2 k = h_used nothing_held k + zsum (lease_pool k) (cell_leases s'.2).
Proof.
  split; [vm_compute; eexists; reflexivity|].
  apply (udp_table_invariant (budget Mobile) nothing_held mobile_range true sample_hash sample_iter (fun fs => Permutation_refl _) 1 sample_opened.1 sample_opened.2).
  - exact sample_opened_reached.
  - unfold u64_max. lia.
Defined.

(** Under a divisor of four the timeout is seven and a half seconds. *)
Lemma udp_pressure_expires_idle_witness : is_Some (u_by_key sample_opened.2.1 !! mkUdpFlowKey some_client some_server 1) /\
  exists s' removed, expire_idle_under_pressure sample_iter 20000 4 sample_opened.2 = (s', Ok removed) /\
    u_by_key s'.1 !! mkUdpFlowKey some_client some_server 1 = None.
Proof.
  split; [vm_compute; eexists; reflexivity|].
  destruct (udp_pressure_expires_idle (budget Mobile) nothing_held mobile_range true sample_hash sample_iter (fun fs => Permutation_refl _)
    1 sample_opened.1 sample_opened.2 20000 4) as [_ P].
  - exact sample_opened_reached.
  - unfold u64_max. lia.
  - unfold u64_max. lia.
  - destruct P as (s' & removed & E & _ & G & _); [vm_compute; discriminate|]. exists s', removed. split; [exact E|].
    eapply G; [vm_compute; reflexivity|vm_compute; discriminate].
Defined.

Definition sample_ingest : @ustate Wheel * outcome UdpError UdpIngress :=
  ingest_with_policy (budget Mobile) true (sample_datagram some_client some_server) 1000 true sample_start.2.
Definition sample_ingress : UdpIngress :=
  match sample_ingest.2 with Ok r => r | _ => mkUdpIngress (mkUdpFlowToken 0 0 0) some_client some_server (mkChain Packet 1 0 []) end.

Lemma udp_reply_reaches_client_witness : exists s'' wire,
  emit_reply true (ui_token sample_ingress) some_server [4; 5; 6] 15000 sample_ingest.1 = (s'', Ok wire) /\
  delivers some_server (ui_source sample_ingress) [4; 5; 6] wire.
Proof.
  destruct (udp_reply_reaches_client (budget Mobile) nothing_held mobile_range true sample_hash sample_iter (fun fs => Permutation_refl _)
    0 sample_start.1 sample_start.2 (sample_datagram some_client some_server) 1000 true sample_ingress sample_ingest.1 some_server [4; 5; 6] 15000)
    as (_ & Live & _).
  - exact sample_start_reached.
  - unfold u64_max. lia.
  - exact sample_datagram_ok.
  - lia.
  - apply pair_result. vm_compute. reflexivity.
  - apply some_addresses_ok.
  - repeat constructor; discriminate.
  - unfold u64_max. lia.
  - apply Live; [vm_compute; reflexivity|]. vm_compute. split; [exact I|discriminate].
Defined.




(** A remote end given with the scope of its link: the answer it sends back is
    handed up under a token of its own. *)
Definition scoped_remote : SocketAddr := mkSocketAddrV6 (V6 ([254; 128] ++ repeat 0 13 ++ [1])) 53 0 3.
Definition scoped_local : SocketAddr := mkSocketAddr (V6 ([254; 128] ++ repeat 0 13 ++ [2])) 5000.
Definition scoped_originate : @ustate Wheel * outcome UdpError (UdpFlowToken * SocketAddr * list Z) :=
  originate_using (budget Mobile) true sample_hash scoped_local scoped_remote [1; 2; 3] 1000 (fun _ => true) sample_start.2.

Example scoped_remote_loses_token :
  (fun r => r.1.1) <$> scoped_originate.2 = Ok (mkUdpFlowToken 0 1 0) /\
  ui_token <$> (ingest_with_policy (budget Mobile) true (sample_datagram scoped_remote scoped_local) 2000 true scoped_originate.1).2
    = Ok (mkUdpFlowToken 1 1 0).
Proof. split; vm_compute; reflexivity. Qed.
