(* ===== verification/IpRanges.v ===== *)
(** Sets of addresses as ranges ([sail/src/platform/ip_ranges.rs]): ranges of one
    family merged, taken from one another, and cut into prefixes.  Addresses are
    their numbers, 32 or 128 bits wide. *)
From S2P Require Import Prelude Checksum IpWire.
From stdpp Require Import list sorting.
#[local] Open Scope Z_scope.

Definition u128_max : Z := 340282366920938463463374607431768211455.
(** [!] and [saturating_add] on 128 bits. *)
Definition u128_not (x : Z) : Z := u128_max - x.
Definition sat_add128 (a b : Z) : Z := Z.min (a + b) u128_max.

(** [u32::from] and [u128::from] of an address, and back. *)
Definition be_number (l : list Z) : Z := foldl (fun acc b => 256 * acc + b) 0 l.
Fixpoint be_bytes (k : nat) (n : Z) : list Z :=
  match k with O => [] | S k => be_bytes k (n / 256) ++ [n mod 256] end.
Definition is_v6 (a : IpAddr) : bool := match a with V4 _ => false | V6 _ => true end.
Definition addr_number (a : IpAddr) : Z := be_number (octets a).
Definition number_addr (v6 : bool) (n : Z) : IpAddr := if v6 then V6 (be_bytes 16 n) else V4 (be_bytes 4 (wrap32 n)).
Definition addr_bits (v6 : bool) : Z := if v6 then 128 else 32.

(** ** The set *)
Record RangeSet := mkRangeSet { rs_v6 : bool; rs_ranges : list (Z * Z) }.

Definition rangeset_new (v6 : bool) : RangeSet := mkRangeSet v6 [].

Definition range_of (s : RangeSet) (address : IpAddr) (plen : Z) : option (Z * Z) :=
  let n := addr_number address in
  if negb (eqb (is_v6 address) (rs_v6 s)) || (addr_bits (rs_v6 s) <? plen) then None
  else
    let host_bits := addr_bits (rs_v6 s) - plen in
    let host := if 128 <=? host_bits then u128_max else Z.shiftl 1 host_bits - 1 in
    let start := Z.land n (u128_not host) in
    Some (start, Z.lor start host).

(** [Ord] on pairs of numbers. *)
Definition range_le (a b : Z * Z) : Prop := a.1 < b.1 \/ a.1 = b.1 /\ a.2 <= b.2.
#[export] Instance range_le_dec a b : Decision (range_le a b).
Proof. unfold range_le. apply _. Defined.

Fixpoint merge_ranges (merged rs : list (Z * Z)) : list (Z * Z) :=
  match rs with
  | [] => merged
  | (start, end_) :: rs =>
    match last merged with
    | Some l =>
      if start <=? sat_add128 l.2 1 then merge_ranges (removelast merged ++ [(l.1, Z.max l.2 end_)]) rs
      else merge_ranges (merged ++ [(start, end_)]) rs
    | None => merge_ranges (merged ++ [(start, end_)]) rs
    end
  end.
Definition normalize (s : RangeSet) : RangeSet := mkRangeSet (rs_v6 s) (merge_ranges [] (merge_sort range_le (rs_ranges s))).

Definition rangeset_add (p : IpAddr * Z) (s : RangeSet) : RangeSet :=
  match range_of s p.1 p.2 with
  | Some range => normalize (mkRangeSet (rs_v6 s) (rs_ranges s ++ [range]))
  | None => s
  end.

Definition take_out (start end_ : Z) (r : Z * Z) : list (Z * Z) :=
  let '(a, b) := r in
  if (b <? start) || (end_ <? a) then [(a, b)]
  else (if a <? start then [(a, start - 1)] else []) ++ (if end_ <? b then [(end_ + 1, b)] else []).
Definition rangeset_remove (p : IpAddr * Z) (s : RangeSet) : RangeSet :=
  match range_of s p.1 p.2 with
  | Some (start, end_) => mkRangeSet (rs_v6 s) (flat_map (take_out start end_) (rs_ranges s))
  | None => s
  end.

(** ** Prefixes *)
(** [u128::trailing_zeros]. *)
Fixpoint zeros_below (k : nat) (n : Z) : Z :=
  match k with O => 0 | S k => if Z.odd n then 0 else 1 + zeros_below k (n / 2) end.
Definition trailing_zeros (n : Z) : Z := zeros_below 128 n.

Definition block_end (first size : Z) : Z :=
  if 128 <=? size then u128_max else first + (Z.shiftl 1 size - 1).

(** [while block_end(first, size) > last { size -= 1 }]. *)
Fixpoint fit_size (fuel : nat) (first last size : Z) : outcome unit Z :=
  if last <? block_end first size then
    match fuel with
    | O => OutOfFuel
    | S fuel => if size <=? 0 then Panic else fit_size fuel first last (size - 1)
    end
  else Ok size.

Fixpoint prefix_loop (fuel : nat) (v6 : bool) (first last : Z) (prefixes : list (IpAddr * Z)) : outcome unit (list (IpAddr * Z)) :=
  match fuel with
  | O => OutOfFuel
  | S fuel =>
    let bits := addr_bits v6 in
    size ← fit_size 129 first last (Z.min (trailing_zeros first) bits);
    let prefixes := prefixes ++ [(number_addr v6 first, bits - size)] in
    let end_ := block_end first size in
    if last <=? end_ then Ok prefixes else prefix_loop fuel v6 (end_ + 1) last prefixes
  end.

(** [IpAddr]'s order: IPv4 before IPv6, then the numbers. *)
Definition addr_gtb (a b : IpAddr) : bool :=
  match a, b with
  | V4 _, V6 _ => false
  | V6 _, V4 _ => true
  | _, _ => addr_number b <? addr_number a
  end.

Definition range_prefixes (first last : IpAddr) : outcome unit (list (IpAddr * Z)) :=
  if addr_gtb first last then Ok []
  else if negb (eqb (is_v6 first) (is_v6 last)) then Ok []
  else prefix_loop 260 (is_v6 first) (addr_number first) (addr_number last) [].

Fixpoint all_prefixes (v6 : bool) (rs : list (Z * Z)) : outcome unit (list (IpAddr * Z)) :=
  match rs with
  | [] => Ok []
  | (first, last) :: rs =>
    ps ← range_prefixes (number_addr v6 first) (number_addr v6 last);
    qs ← all_prefixes v6 rs;
    Ok (ps ++ qs)
  end.
Definition rangeset_prefixes (s : RangeSet) : outcome unit (list (IpAddr * Z)) := all_prefixes (rs_v6 s) (rs_ranges s).

Example prefixes_of_a_range :
  range_prefixes (V4 [10; 0; 0; 1]) (V4 [10; 0; 0; 6]) =
  Ok [(V4 [10; 0; 0; 1], 32); (V4 [10; 0; 0; 2], 31); (V4 [10; 0; 0; 4], 31); (V4 [10; 0; 0; 6], 32)].
Proof. vm_compute. reflexivity. Qed.
