(* ===== verification/IpRangesTheorems.v ===== *)
(** What the address sets of [sail/src/platform/ip_ranges.rs] promise: a set holds
    the addresses of the prefixes added and not taken out since, and [prefixes]
    covers exactly it, with as few prefixes as there can be. *)
From S2P Require Import Prelude Checksum IpWire IpRanges.
From stdpp Require Import list sorting sets.
#[local] Open Scope Z_scope.

(** ** Numbers of addresses *)
Lemma be_number_snoc l x : be_number (l ++ [x]) = 256 * be_number l + x.
Proof. unfold be_number. by rewrite foldl_app. Qed.

Lemma be_number_range l : bytes_ok l -> 0 <= be_number l < 256 ^ len l.
Proof.
  induction l as [|x l IH] using rev_ind; [done|]. intros [Hl Hx]%Forall_app. inversion_clear Hx as [|?? Hx1 _]. unfold is_u8 in Hx1.
  rewrite be_number_snoc, len_app, len_singleton, Z.pow_add_r, Z.pow_1_r by (pose proof (len_nonneg l); lia). specialize (IH Hl). lia.
Qed.

Lemma be_number_bytes k n : 0 <= n < 256 ^ Z.of_nat k -> be_number (be_bytes k n) = n.
Proof.
  revert n. induction k as [|k IH]; intros n Hn; [cbn in *; lia|]. cbn [be_bytes]. rewrite be_number_snoc, IH; [pose proof (Z.div_mod n 256); lia|].
  rewrite Nat2Z.inj_succ, Z.pow_succ_r in Hn by lia. split; [apply Z.div_pos; lia|apply Z.div_lt_upper_bound; lia].
Qed.

Lemma be_bytes_ok k n : bytes_ok (be_bytes k n) /\ length (be_bytes k n) = k.
Proof.
  revert n. induction k as [|k IH]; intros n; [split; [constructor|done]|]. cbn [be_bytes]. destruct (IH (n / 256)) as [B L]. split.
  - apply Forall_app. split; [done|]. constructor; [|done]. pose proof (Z.mod_pos_bound n 256). unfold is_u8. lia.
  - rewrite length_app, L. cbn. lia.
Qed.

Lemma addr_bits_pow v6 : 0 < addr_bits v6 <= 128 /\ 2 ^ addr_bits v6 - 1 <= u128_max.
Proof. by destruct v6; vm_compute. Qed.

Lemma addr_number_range a : ip_wf a -> 0 <= addr_number a < 2 ^ addr_bits (is_v6 a).
Proof.
  unfold addr_number. destruct a as [o|o]; cbn; intros [Hl Ho]; pose proof (be_number_range o Ho) as R; unfold len in R; rewrite Hl in R; exact R.
Qed.

Lemma number_addr_spec v6 n : 0 <= n < 2 ^ addr_bits v6 ->
  addr_number (number_addr v6 n) = n /\ ip_wf (number_addr v6 n) /\ is_v6 (number_addr v6 n) = v6.
Proof.
  intros Hn. unfold number_addr, addr_number. destruct v6; cbn [octets ip_wf is_v6 addr_bits] in *.
  - destruct (be_bytes_ok 16 n) as [B L]. split_and!; try done. apply be_number_bytes. exact Hn.
  - destruct (be_bytes_ok 4 (wrap32 n)) as [B L]. unfold wrap32 in *. rewrite (Z.mod_small n) in * by exact Hn. split_and!; try done.
    apply be_number_bytes. exact Hn.
Qed.

(** ** Prefixes *)
(** A prefix: its length fits the family; it holds the addresses whose first [len]
    bits are its own. *)
Definition prefix_ok (v6 : bool) (p : IpAddr * Z) : Prop := ip_wf p.1 /\ is_v6 p.1 = v6 /\ 0 <= p.2 <= addr_bits v6.
Definition in_prefix (v6 : bool) (p : IpAddr * Z) (x : Z) : Prop :=
  x / 2 ^ (addr_bits v6 - p.2) = addr_number p.1 / 2 ^ (addr_bits v6 - p.2).

(** Aligned blocks of [2^k] addresses. *)
Definition block_ok (bits : Z) (p : Z * Z) : Prop := 0 <= p.2 <= bits /\ (2 ^ p.2 | p.1) /\ 0 <= p.1 /\ p.1 + 2 ^ p.2 <= 2 ^ bits.
Definition in_block (p : Z * Z) (x : Z) : Prop := p.1 <= x < p.1 + 2 ^ p.2.

Lemma pow_pos k : 0 <= k -> 0 < 2 ^ k.
Proof. intros. by apply Z.pow_pos_nonneg. Qed.

Lemma aligned_block k n x : 0 <= k -> (2 ^ k | n) -> (n <= x < n + 2 ^ k <-> x / 2 ^ k = n / 2 ^ k).
Proof.
  intros Hk [q ->]. pose proof (pow_pos k Hk). rewrite Z.div_mul by lia. pose proof (Z.div_mod x (2 ^ k) ltac:(lia)). pose proof (Z.mod_pos_bound x (2 ^ k) ltac:(lia)).
  split; [intros Hx; symmetry; apply (Z.div_unique _ _ _ (x - q * 2 ^ k)); lia|intros E; rewrite E in *; lia].
Qed.

(** The block of a prefix. *)
Definition block_of (v6 : bool) (p : IpAddr * Z) : Z * Z :=
  let k := addr_bits v6 - p.2 in (addr_number p.1 / 2 ^ k * 2 ^ k, k).

Lemma block_of_ok v6 p : prefix_ok v6 p -> block_ok (addr_bits v6) (block_of v6 p) /\ forall x, in_block (block_of v6 p) x <-> in_prefix v6 p x.
Proof.
  intros (Hw & <- & Hl). destruct p as [a l]. cbn in *. pose proof (addr_number_range a Hw) as R. set (bits := addr_bits (is_v6 a)) in *.
  set (k := bits - l). assert (0 <= k <= bits) as Hk by lia. pose proof (pow_pos k ltac:(lia)) as Pk. set (q := addr_number a / 2 ^ k).
  assert (0 <= q) as Hq by (apply Z.div_pos; lia). assert (q < 2 ^ (bits - k)) as Hq'.
  { apply Z.div_lt_upper_bound; [lia|]. rewrite <- Z.pow_add_r by lia. replace (k + (bits - k)) with bits by lia. lia. }
  split.
  - unfold block_ok, block_of. cbn [fst snd]. fold bits k q. split_and!; try lia; [by exists q|].
    assert (2 ^ bits = 2 ^ (bits - k) * 2 ^ k) as -> by (rewrite <- Z.pow_add_r by lia; f_equal; lia). nia.
  - intros x. unfold in_block, block_of, in_prefix. cbn [fst snd]. fold bits k q. rewrite aligned_block; [by rewrite Z.div_mul by lia|lia|by exists q].
Qed.

Lemma u128_not_ones h : 0 <= h <= 128 -> u128_not (Z.ones h) = Z.ldiff (Z.ones 128) (Z.ones h).
Proof.
  intros Hh. unfold u128_not. change u128_max with (Z.ones 128). apply Z.sub_nocarry_ldiff. apply Z.bits_inj'. intros i Hi.
  rewrite Z.ldiff_spec, !Z.testbit_ones_nonneg, Z.bits_0 by lia. destruct (Z.ltb_spec i h), (Z.ltb_spec i 128); cbn; try done. lia.
Qed.

Lemma range_of_spec s p : prefix_ok (rs_v6 s) p ->
  let b := block_of (rs_v6 s) p in range_of s p.1 p.2 = Some (b.1, b.1 + 2 ^ b.2 - 1).
Proof.
  intros (Hw & Hv & Hl). cbv zeta. unfold range_of, block_of. rewrite Hv, eqb_reflx. cbn [negb orb]. pose proof (addr_number_range _ Hw) as R. rewrite Hv in R.
  destruct (addr_bits_pow (rs_v6 s)) as [Hb _]. destruct (Z.ltb_spec (addr_bits (rs_v6 s)) p.2); [lia|]. cbn [fst snd].
  set (k := addr_bits (rs_v6 s) - p.2). set (n := addr_number p.1) in *.
  assert ((if 128 <=? k then u128_max else Z.shiftl 1 k - 1) = Z.ones k) as ->.
  { destruct (Z.leb_spec 128 k); [by replace k with 128 by lia|]. unfold Z.ones. lia. }
  assert (Z.land n (Z.ones 128) = n) as Hn.
  { rewrite Z.land_ones by lia. apply Z.mod_small. pose proof (Z.pow_le_mono_r 2 (addr_bits (rs_v6 s)) 128). lia. }
  rewrite u128_not_ones by lia. assert (Z.land n (Z.ldiff (Z.ones 128) (Z.ones k)) = n / 2 ^ k * 2 ^ k) as ->.
  { rewrite <- Z.shiftr_div_pow2, <- Z.shiftl_mul_pow2, <- Z.ldiff_ones_r by lia. apply Z.bits_inj'. intros i Hi.
    rewrite Z.land_spec, !Z.ldiff_spec, andb_assoc, <- Z.land_spec, Hn. done. }
  assert (Z.land (n / 2 ^ k * 2 ^ k) (Z.ones k) = 0) as H0.
  { rewrite Z.land_ones by lia. apply Z.mod_mul. pose proof (pow_pos k). lia. }
  f_equal. f_equal. rewrite <- Z.lxor_lor, <- Z.add_nocarry_lxor by done. rewrite Z.ones_equiv. lia.
Qed.

(** ** Ranges *)
Definition in_ranges (rs : list (Z * Z)) (x : Z) : Prop := exists r, r ∈ rs /\ r.1 <= x <= r.2.

(** Ranges between [lo] and [hi], ascending, with an address between any two. *)
Fixpoint gapped (lo hi : Z) (rs : list (Z * Z)) : Prop :=
  match rs with
  | [] => True
  | (a, b) :: rs => lo <= a /\ a <= b /\ b <= hi /\ gapped (b + 2) hi rs
  end.

Lemma in_ranges_nil x : in_ranges [] x <-> False.
Proof. unfold in_ranges. split; [|done]. by intros (? & ?%elem_of_nil & _). Qed.
Lemma in_ranges_cons r rs x : in_ranges (r :: rs) x <-> r.1 <= x <= r.2 \/ in_ranges rs x.
Proof. unfold in_ranges. setoid_rewrite elem_of_cons. naive_solver. Qed.
Lemma in_ranges_app rs ss x : in_ranges (rs ++ ss) x <-> in_ranges rs x \/ in_ranges ss x.
Proof. unfold in_ranges. setoid_rewrite elem_of_app. naive_solver. Qed.
Lemma in_ranges_perm rs ss x : rs ≡ₚ ss -> in_ranges rs x <-> in_ranges ss x.
Proof. intros P. unfold in_ranges. by setoid_rewrite P. Qed.
#[local] Create Rewrite HintDb in_ranges.
#[local] Hint Rewrite in_ranges_nil in_ranges_cons in_ranges_app : in_ranges.
Ltac in_ranges := autorewrite with in_ranges; cbn [fst snd].

Lemma gapped_weaken lo lo' hi rs : lo' <= lo -> gapped lo hi rs -> gapped lo' hi rs.
Proof. destruct rs as [|[a b] rs]; cbn; [done|]. intros ? (? & ?). split_and!; try tauto. lia. Qed.

Lemma gapped_in lo hi rs x : gapped lo hi rs -> in_ranges rs x -> lo <= x <= hi.
Proof.
  revert lo. induction rs as [|[a b] rs IH]; intros lo; in_ranges; [done|]. cbn. intros (? & ? & ? & G) [?|I]; [lia|]. apply IH in G; [lia|done].
Qed.

Lemma gapped_snoc lo hi pre a b : gapped lo hi (pre ++ [(a, b)]) ->
  a <= b <= hi /\ (forall b', a <= b' <= hi -> gapped lo hi (pre ++ [(a, b')])) /\
  (forall c d, b + 2 <= c -> c <= d <= hi -> gapped lo hi ((pre ++ [(a, b)]) ++ [(c, d)])).
Proof.
  revert lo. induction pre as [|[u v] pre IH]; intros lo; cbn.
  - intros (? & ? & ? & _). split; [lia|]. split; intros; repeat split; lia.
  - intros (? & ? & ? & (? & R & A)%IH). split; [lia|]. split; intros; repeat split; auto; lia.
Qed.

Lemma gapped_valid lo hi rs : gapped lo hi rs -> Forall (fun r => lo <= r.1 /\ r.1 <= r.2 <= hi) rs.
Proof.
  revert lo. induction rs as [|[a b] rs IH]; intros lo; cbn; [constructor|]. intros (? & ? & ? & G%IH). constructor; [cbn; lia|].
  eapply Forall_impl; [exact G|]. cbn. lia.
Qed.

(** [normalize]'s loop, from its last merged range on. *)
Lemma merge_ranges_spec lo hi rs : hi <= u128_max -> StronglySorted range_le rs ->
  Forall (fun r => r.1 <= r.2 <= hi) rs ->
  forall pre a b, gapped lo hi (pre ++ [(a, b)]) -> Forall (fun r => a <= r.1) rs ->
  let out := merge_ranges (pre ++ [(a, b)]) rs in
  gapped lo hi out /\ forall x, in_ranges out x <-> in_ranges (pre ++ [(a, b)]) x \/ in_ranges rs x.
Proof.
  intros Hhi. induction rs as [|[c d] rs IH]; intros S V pre a b G F; cbv zeta.
  { split; [done|]. intros x. cbn [merge_ranges]. in_ranges. tauto. }
  inversion_clear S as [|?? S' L]. inversion_clear V as [|?? Hv V']. inversion_clear F as [|?? Hf F']. cbn [fst snd] in *.
  assert (Forall (fun r => c <= r.1) rs) as Lc by (eapply Forall_impl; [exact L|]; unfold range_le; cbn; lia).
  cbn [merge_ranges]. rewrite last_snoc, removelast_last. cbn [fst snd]. destruct (gapped_snoc _ _ _ _ _ G) as (Hab & R & A).
  destruct (Z.leb_spec c (sat_add128 b 1)) as [M|M]; unfold sat_add128 in M.
  - destruct (IH S' V' pre a (Z.max b d)) as [G' I]; [apply R; lia|done|]. split; [done|]. intros x. rewrite I. in_ranges.
    assert (a <= x <= Z.max b d <-> a <= x <= b \/ c <= x <= d) by lia. tauto.
  - destruct (IH S' V' (pre ++ [(a, b)]) c d) as [G' I]; [apply A; lia|done|]. split; [done|]. intros x. rewrite I. in_ranges. tauto.
Qed.

#[export] Instance range_le_total : Total range_le.
Proof. intros a b. unfold range_le. lia. Qed.
#[export] Instance range_le_trans : Transitive range_le.
Proof. intros a b c. unfold range_le. lia. Qed.

(** The invariant of a set, and the addresses it holds. *)
Definition rangeset_wf (s : RangeSet) : Prop := gapped 0 (2 ^ addr_bits (rs_v6 s) - 1) (rs_ranges s).

Lemma normalize_spec v6 rs : Forall (fun r => 0 <= r.1 /\ r.1 <= r.2 <= 2 ^ addr_bits v6 - 1) rs ->
  rangeset_wf (normalize (mkRangeSet v6 rs)) /\ forall x, in_ranges (rs_ranges (normalize (mkRangeSet v6 rs))) x <-> in_ranges rs x.
Proof.
  intros V. unfold normalize, rangeset_wf. cbn [rs_v6 rs_ranges]. pose proof (merge_sort_Permutation range_le rs) as P.
  pose proof (StronglySorted_merge_sort range_le rs) as S. setoid_rewrite <- (in_ranges_perm _ _ _ P). rewrite <- P in V.
  revert V S. generalize (merge_sort range_le rs) as ss. clear P rs. intros [|[a b] ss] V S; [split; [done|]; intros x; tauto|].
  inversion_clear V as [|?? Ha Va]. inversion_clear S as [|?? Ss L]. cbn [merge_ranges last app fst snd] in *.
  destruct (merge_ranges_spec 0 (2 ^ addr_bits v6 - 1) ss) with (pre := @nil (Z * Z)) (a := a) (b := b) as [G I]; try done.
  - by destruct (addr_bits_pow v6).
  - eapply Forall_impl; [exact Va|]. cbn. lia.
  - cbn. lia.
  - eapply Forall_impl; [exact L|]. unfold range_le. cbn. lia.
  - split; [exact G|]. intros x. rewrite I. in_ranges. tauto.
Qed.

Lemma take_out_spec lo hi s e rs : s <= e -> gapped lo hi rs ->
  gapped lo hi (flat_map (take_out s e) rs) /\
  forall x, in_ranges (flat_map (take_out s e) rs) x <-> in_ranges rs x /\ ~ s <= x <= e.
Proof.
  intros Hse. revert lo. induction rs as [|[a b] rs IH]; intros lo; cbn [gapped flat_map].
  { intros _. split; [done|]. intros x. in_ranges. tauto. }
  intros (? & ? & ? & [G I]%IH). pose proof (fun l H => gapped_weaken _ l _ _ H G) as W. unfold take_out at 1 3.
  destruct (Z.ltb_spec b s), (Z.ltb_spec e a); cbn [orb app]; try (destruct (Z.ltb_spec a s), (Z.ltb_spec e b); cbn [app]).
  all: split; [cbn [gapped]; repeat split; lia || (apply W; lia)|intros x; in_ranges; rewrite I; intuition lia].
Qed.

(** ** Cutting a range *)
Lemma pow2_divide_le j k n : 0 <= j <= k -> (2 ^ k | n) -> (2 ^ j | n).
Proof. intros ? D. transitivity (2 ^ k); [|done]. exists (2 ^ (k - j)). rewrite <- Z.pow_add_r by lia. f_equal. lia. Qed.

Lemma zeros_below_spec k n : 0 <= zeros_below k n <= Z.of_nat k /\ (2 ^ zeros_below k n | n) /\
  forall j, 0 <= j <= Z.of_nat k -> (2 ^ j | n) -> j <= zeros_below k n.
Proof.
  revert n. induction k as [|k IH]; intros n; cbn [zeros_below]; [split_and!; [lia|lia|exists n; cbn; lia|lia]|].
  destruct (Z.odd n) eqn:Ho.
  - split_and!; [lia|lia|exists n; cbn; lia|]. intros j Hj D. destruct (decide (j <= 0)); [done|]. exfalso.
    apply (pow2_divide_le 1) in D as [q ->]; [|lia]. rewrite Z.odd_mul in Ho. by destruct (Z.odd q).
  - rewrite <- Z.negb_even in Ho. apply negb_false_iff, Z.even_spec in Ho as [m ->]. replace (2 * m / 2) with m by (rewrite Z.mul_comm, Z.div_mul by lia; lia).
    destruct (IH m) as (R & [q D] & M). split_and!; [lia|lia|exists q; rewrite Z.pow_add_r, D at 1 by lia; lia|].
    intros j Hj [q' Dj]. destruct (decide (j = 0)); [lia|]. enough (j - 1 <= zeros_below k m) by lia. apply M; [lia|]. exists q'.
    replace j with (1 + (j - 1)) in Dj by lia. rewrite Z.pow_add_r in Dj by lia. lia.
Qed.

(** The greatest aligned block from [f] that ends by [last]. *)
Definition greatest (bits f last k : Z) : Prop := 0 <= k <= bits /\ (2 ^ k | f) /\ f + 2 ^ k - 1 <= last /\
  forall j, 0 <= j <= bits -> (2 ^ j | f) -> f + 2 ^ j - 1 <= last -> j <= k.

Lemma block_end_spec v6 f k : 0 <= f < 2 ^ addr_bits v6 -> 0 <= k <= addr_bits v6 -> (2 ^ k | f) -> block_end f k = f + 2 ^ k - 1.
Proof.
  intros Hf Hk D. destruct (addr_bits_pow v6) as [Hb _]. unfold block_end. destruct (Z.leb_spec 128 k).
  - assert (k = 128) as -> by lia. replace (addr_bits v6) with 128 in Hf by lia. destruct D as [q ->]. assert (q = 0) as -> by lia. done.
  - rewrite Z.shiftl_mul_pow2 by lia. lia.
Qed.

Lemma fit_size_spec v6 f last : 0 <= f <= last -> last < 2 ^ addr_bits v6 ->
  forall fuel size, 0 <= size <= addr_bits v6 -> size < Z.of_nat fuel -> (2 ^ size | f) ->
  (forall j, 0 <= j <= addr_bits v6 -> (2 ^ j | f) -> f + 2 ^ j - 1 <= last -> j <= size) ->
  exists k, fit_size fuel f last size = Ok k /\ greatest (addr_bits v6) f last k.
Proof.
  intros Hf Hl. induction fuel as [|fuel IH]; intros size Hs Hfu D M; [lia|]. cbn [fit_size]. rewrite (block_end_spec v6) by (done || lia).
  destruct (Z.ltb_spec last (f + 2 ^ size - 1)) as [L|L]; [|exists size; by unfold greatest].
  destruct (Z.leb_spec size 0); [replace size with 0 in L by lia; cbn in L; lia|]. apply IH; try lia; [by apply (pow2_divide_le _ size); [lia|]|].
  intros j Hj Dj Ej. specialize (M j Hj Dj Ej). destruct (decide (j = size)) as [->|]; lia.
Qed.

(** A range cut into such blocks. *)
Inductive tiling (bits last : Z) : Z -> list (Z * Z) -> Prop :=
  | tile_last f k : greatest bits f last k -> f + 2 ^ k - 1 = last -> tiling bits last f [(f, k)]
  | tile_next f k bs : greatest bits f last k -> f + 2 ^ k <= last -> tiling bits last (f + 2 ^ k) bs -> tiling bits last f ((f, k) :: bs).

Definition prefix_of (v6 : bool) (b : Z * Z) : IpAddr * Z := (number_addr v6 b.1, addr_bits v6 - b.2).

(** One turn of the loop. *)
Lemma prefix_loop_step v6 f last fuel acc : 0 <= f <= last -> last < 2 ^ addr_bits v6 ->
  exists k, greatest (addr_bits v6) f last k /\
  prefix_loop (S fuel) v6 f last acc =
    if decide (f + 2 ^ k - 1 = last) then Ok (acc ++ [prefix_of v6 (f, k)])
    else prefix_loop fuel v6 (f + 2 ^ k) last (acc ++ [prefix_of v6 (f, k)]).
Proof.
  intros Hf Hl. destruct (addr_bits_pow v6) as [Hb _]. destruct (zeros_below_spec 128 f) as (Hz & Dz & Mz).
  destruct (fit_size_spec v6 f last Hf Hl 129 (Z.min (trailing_zeros f) (addr_bits v6))) as (k & E & G).
  - unfold trailing_zeros. lia.
  - lia.
  - unfold trailing_zeros. apply (pow2_divide_le _ (zeros_below 128 f)); [lia|done].
  - intros j Hj Dj _. unfold trailing_zeros. pose proof (Mz j ltac:(lia) Dj). lia.
  - exists k. split; [done|]. destruct G as (Hk & Dk & Lk & _). cbn [prefix_loop]. rewrite E. cbn [mbind outcome_bind].
    rewrite (block_end_spec v6) by (done || lia). destruct (Z.leb_spec last (f + 2 ^ k - 1)); case_decide; try lia; [done|]. f_equal. lia.
Qed.

(** A rest of at most the alignment of its start takes a block less each turn. *)
Lemma prefix_loop_descends v6 last fuel : last < 2 ^ addr_bits v6 -> forall f k acc,
  0 <= f <= last -> 0 <= k <= addr_bits v6 -> (2 ^ k | f) -> last - f + 1 <= 2 ^ k -> k < Z.of_nat fuel ->
  exists bs, prefix_loop fuel v6 f last acc = Ok (acc ++ map (prefix_of v6) bs) /\ tiling (addr_bits v6) last f bs.
Proof.
  intros Hl. induction fuel as [|fuel IH]; intros f k acc Hf Hk D R Hfu; [lia|].
  destruct (prefix_loop_step v6 f last fuel acc Hf Hl) as (j & G & ->). pose proof G as (Hj & Dj & Lj & Mj).
  case_decide as E; [exists [(f, j)]; split; [done|by constructor]|].
  assert (j < k) as Hjk. { destruct (Z.le_gt_cases k j) as [Q|]; [|lia]. pose proof (Z.pow_le_mono_r 2 k j). lia. }
  pose proof (pow_pos j ltac:(lia)) as Pj. assert (last < f + 2 ^ (j + 1) - 1) as Hn.
  { destruct (Z.le_gt_cases (f + 2 ^ (j + 1) - 1) last) as [Q|]; [|lia]. enough (j + 1 <= j) by lia.
    apply Mj; [lia|by apply (pow2_divide_le _ k); [lia|]|done]. }
  rewrite Z.pow_add_r, Z.pow_1_r in Hn by lia.
  destruct (IH (f + 2 ^ j) j (acc ++ [prefix_of v6 (f, j)])) as (bs & -> & T); try lia; [apply Z.divide_add_r; [done|reflexivity]|].
  exists ((f, j) :: bs). split; [by rewrite <- app_assoc|]. constructor 2; [done|lia|done].
Qed.

(** Until then each turn raises the alignment of the start. *)
Lemma prefix_loop_ascends v6 last fuel : last < 2 ^ addr_bits v6 -> forall f j acc,
  0 <= f <= last -> 0 <= j <= addr_bits v6 -> (2 ^ j | f) -> addr_bits v6 - j + addr_bits v6 + 1 < Z.of_nat fuel ->
  exists bs, prefix_loop fuel v6 f last acc = Ok (acc ++ map (prefix_of v6) bs) /\ tiling (addr_bits v6) last f bs.
Proof.
  intros Hl. induction fuel as [|fuel IH]; intros f j acc Hf Hj D Hfu; [lia|].
  destruct (prefix_loop_step v6 f last fuel acc Hf Hl) as (k & G & ->). pose proof G as (Hk & Dk & Lk & Mk).
  case_decide as E; [exists [(f, k)]; split; [done|by constructor]|]. pose proof (pow_pos k ltac:(lia)) as Pk.
  assert (exists bs, prefix_loop fuel v6 (f + 2 ^ k) last (acc ++ [prefix_of v6 (f, k)]) = Ok ((acc ++ [prefix_of v6 (f, k)]) ++ map (prefix_of v6) bs)
    /\ tiling (addr_bits v6) last (f + 2 ^ k) bs) as (bs & -> & T); cycle 1.
  { exists ((f, k) :: bs). split; [by rewrite <- app_assoc|]. constructor 2; [done|lia|done]. }
  assert (k < addr_bits v6) as Hkb. { destruct (decide (k = addr_bits v6)) as [->|]; lia. }
  pose proof (pow_pos (k + 1) ltac:(lia)). destruct (decide (f mod 2 ^ (k + 1) = 0)) as [Dn|Dn]; rewrite Z.mod_divide in Dn by lia.
  - assert (last < f + 2 ^ (k + 1) - 1) as Hn.
    { destruct (Z.le_gt_cases (f + 2 ^ (k + 1) - 1) last) as [Q|]; [|lia]. enough (k + 1 <= k) by lia. apply Mk; [lia|done|done]. }
    rewrite Z.pow_add_r, Z.pow_1_r in Hn by lia. apply (prefix_loop_descends v6 last fuel Hl _ k); try lia. by apply Z.divide_add_r.
  - assert (j <= k). { destruct (Z.le_gt_cases j k); [done|]. destruct Dn. apply (pow2_divide_le _ j); [lia|done]. }
    apply (IH _ (k + 1)); try lia. destruct Dk as [q ->]. rewrite Z.pow_add_r, Z.pow_1_r in * by lia.
    destruct (Z.Even_or_Odd q) as [[m ->]|[m ->]]; [destruct Dn; exists m; lia|]. exists (m + 1). lia.
Qed.

Lemma prefix_loop_total v6 first last : 0 <= first <= last -> last < 2 ^ addr_bits v6 ->
  exists bs, prefix_loop 260 v6 first last [] = Ok (map (prefix_of v6) bs) /\ tiling (addr_bits v6) last first bs.
Proof.
  intros Hf Hl. destruct (addr_bits_pow v6) as [Hb _]. apply (prefix_loop_ascends v6 last 260 Hl first 0 []); try lia. exists first. cbn. lia.
Qed.

Lemma tiling_bounds bits last f bs : tiling bits last f bs -> f <= last /\
  Forall (fun b => 0 <= b.2 <= bits /\ (2 ^ b.2 | b.1) /\ f <= b.1 /\ b.1 + 2 ^ b.2 - 1 <= last) bs.
Proof.
  induction 1 as [f k (Hk & D & L & _) E|f k bs (Hk & D & L & _) E T [_ IH]]; pose proof (pow_pos k ltac:(lia)).
  - split; [lia|]. constructor; [cbn; split_and!; done || lia|constructor].
  - split; [lia|]. constructor; [cbn; split_and!; done || lia|]. eapply Forall_impl; [exact IH|]. cbn. intros ? (? & ? & ? & ?). split_and!; done || lia.
Qed.

(** The blocks hold the range and nothing else, one of them each address. *)
Lemma tiling_covers bits last f bs x : tiling bits last f bs -> f <= x <= last <-> exists b, b ∈ bs /\ in_block b x.
Proof.
  intros T. split.
  - induction T as [f k (Hk & D & L & _) E|f k bs (Hk & D & L & _) E T IH]; intros Hx; [exists (f, k); split; [set_solver|unfold in_block; cbn; lia]|].
    destruct (decide (x < f + 2 ^ k)); [exists (f, k); split; [set_solver|unfold in_block; cbn; lia]|].
    destruct IH as (b & ? & ?); [lia|]. exists b. split; [set_solver|done].
  - intros (b & Hb & I). apply tiling_bounds in T as [_ F]. rewrite Forall_forall in F. specialize (F b Hb). unfold in_block in I. lia.
Qed.

(** Blocks in order, none reaching the next. *)
Definition block_before (b c : Z * Z) : Prop := b.1 + 2 ^ b.2 <= c.1.

Lemma tiling_ascends bits last f bs : tiling bits last f bs -> StronglySorted block_before bs.
Proof.
  induction 1 as [|f k bs G E T IH]; [repeat constructor|]. constructor; [done|]. apply tiling_bounds in T as [_ F].
  eapply Forall_impl; [exact F|]. unfold block_before. cbn. lia.
Qed.

(** An aligned block that starts in another, and reaches past its end, starts where
    it does and is greater. *)
Lemma block_straddles f k p j : 0 <= k -> 0 <= j -> (2 ^ k | f) -> (2 ^ j | p) -> f <= p < f + 2 ^ k -> f + 2 ^ k < p + 2 ^ j -> p = f /\ k < j.
Proof.
  intros Hk Hj Df Dp Hp Hx. pose proof (pow_pos k Hk). pose proof (pow_pos j Hj). destruct (Z.le_gt_cases j k) as [L|L].
  - exfalso. assert (2 ^ j | f + 2 ^ k - p) as Q; [|apply Z.divide_pos_le in Q; lia].
    apply Z.divide_sub_r; [apply Z.divide_add_r|done]; apply (pow2_divide_le _ k); try lia; done || reflexivity.
  - split; [|done]. apply (pow2_divide_le k) in Dp; [|lia]. destruct Df as [q ->], Dp as [r ->]. f_equal. nia.
Qed.

(** No cover by aligned blocks within the range has fewer. *)
Lemma tiling_fewest bits last f bs : tiling bits last f bs -> forall ps,
  Forall (fun p => 0 <= p.2 <= bits /\ (2 ^ p.2 | p.1) /\ f <= p.1 /\ p.1 + 2 ^ p.2 - 1 <= last) ps ->
  (forall x, f <= x <= last -> exists p, p ∈ ps /\ in_block p x) -> (length bs <= length ps)%nat.
Proof.
  induction 1 as [f k G E|f k bs G E T IH]; intros ps V C; pose proof G as (Hk & D & L & M); pose proof (pow_pos k ltac:(lia)) as Pk.
  { destruct (C f) as (p & Hp & _); [lia|]. destruct ps; [by apply elem_of_nil in Hp|cbn; lia]. }
  destruct (C f) as (p & Hp & Ip); [lia|]. rewrite Forall_forall in V. pose proof (V p Hp) as (Kp & Dp & Fp & Lp). unfold in_block in Ip.
  set (beyond := fun q : Z * Z => f + 2 ^ k <= q.1).
  assert (length (filter beyond ps) < length ps)%nat as Hlen.
  { apply length_filter_lt with (x := p); [done|]. unfold beyond. lia. }
  enough (length bs <= length (filter beyond ps))%nat by (cbn; lia). apply IH.
  - rewrite Forall_forall. intros q [Hq Iq]%list_elem_of_filter. unfold beyond in Hq. destruct (V q Iq) as (? & ? & ? & ?). done.
  - intros x Hx. destruct (C x) as (q & Hq & Iq); [lia|]. exists q. split; [|done]. apply list_elem_of_filter. split; [|done]. unfold beyond, in_block in *.
    destruct (V q Hq) as (Kq & Dq & Fq & Lq). destruct (Z.le_gt_cases (f + 2 ^ k) q.1); [done|].
    destruct (block_straddles f k q.1 q.2) as [Q1 Q2]; try done; try lia. rewrite Q1 in *. specialize (M q.2 Kq Dq Lq). lia.
Qed.

(** ** Cutting a set *)
Lemma range_prefixes_spec v6 a b : 0 <= a <= b -> b < 2 ^ addr_bits v6 ->
  exists bs, range_prefixes (number_addr v6 a) (number_addr v6 b) = Ok (map (prefix_of v6) bs) /\ tiling (addr_bits v6) b a bs.
Proof.
  intros Ha Hb. destruct (prefix_loop_total v6 a b Ha Hb) as (bs & E & T). exists bs. split; [|done]. rewrite <- E. unfold range_prefixes.
  destruct (number_addr_spec v6 a) as (Na & _ & Va); [lia|]. destruct (number_addr_spec v6 b) as (Nb & _ & Vb); [lia|].
  rewrite Va, Vb, eqb_reflx, Na, Nb. cbn [negb]. replace (addr_gtb _ _) with false; [done|]. unfold addr_gtb.
  destruct v6; cbn [number_addr] in *; rewrite Na, Nb; symmetry; apply Z.ltb_ge; lia.
Qed.

(** The blocks of a set's ranges, in order. *)
Inductive tilings (bits : Z) : list (Z * Z) -> list (Z * Z) -> Prop :=
  | tilings_nil : tilings bits [] []
  | tilings_cons a b rs bs cs : tiling bits b a bs -> tilings bits rs cs -> tilings bits ((a, b) :: rs) (bs ++ cs).

Lemma all_prefixes_spec v6 lo rs : 0 <= lo -> gapped lo (2 ^ addr_bits v6 - 1) rs ->
  exists bs, all_prefixes v6 rs = Ok (map (prefix_of v6) bs) /\ tilings (addr_bits v6) rs bs.
Proof.
  revert lo. induction rs as [|[a b] rs IH]; intros lo Hlo; cbn [gapped]; [exists []; split; [done|constructor]|].
  intros (? & ? & ? & G). destruct (IH (b + 2)) as (cs & E & T); [lia|done|]. destruct (range_prefixes_spec v6 a b) as (bs & Eb & Tb); [lia|lia|].
  exists (bs ++ cs). split; [|by constructor]. cbn [all_prefixes]. rewrite Eb, E. cbn. by rewrite map_app.
Qed.

Lemma tilings_cover bits rs bs x : tilings bits rs bs -> in_ranges rs x <-> exists b, b ∈ bs /\ in_block b x.
Proof.
  induction 1 as [|a b rs bs cs T _ IH]; in_ranges; [set_solver|]. rewrite IH, (tiling_covers _ _ _ _ _ T). set_solver.
Qed.

Lemma tilings_bounds bits lo hi rs bs : gapped lo hi rs -> tilings bits rs bs ->
  Forall (fun b => 0 <= b.2 <= bits /\ (2 ^ b.2 | b.1) /\ lo <= b.1 /\ b.1 + 2 ^ b.2 - 1 <= hi) bs /\ StronglySorted block_before bs.
Proof.
  intros G T. revert lo G. induction T as [|a b rs bs cs T _ IH]; intros lo; cbn [gapped]; [by repeat constructor|].
  intros (? & ? & ? & [F S]%IH). pose proof (tiling_ascends _ _ _ _ T). apply tiling_bounds in T as [_ Fb]. split.
  - apply Forall_app. split; (eapply Forall_impl; [eassumption|]); cbn; intros ? (? & ? & ? & ?); split_and!; done || lia.
  - apply StronglySorted_app_2; [|done|done]. rewrite Forall_forall in F, Fb. intros c d Hc Hd. specialize (F _ Hd). specialize (Fb _ Hc).
    unfold block_before. lia.
Qed.

(** No cover of a set by aligned blocks has fewer. *)
Lemma tilings_fewest bits hi rs bs : tilings bits rs bs -> forall lo ps, gapped lo hi rs -> Forall (block_ok bits) ps ->
  (forall x, (exists p, p ∈ ps /\ in_block p x) <-> in_ranges rs x) -> (length bs <= length ps)%nat.
Proof.
  induction 1 as [|a b rs bs cs T _ IH]; intros lo ps; cbn [gapped]; [cbn; lia|]. intros (? & Hab & ? & G) V C.
  rewrite Forall_forall in V. setoid_rewrite in_ranges_cons in C. cbn [fst snd] in C. pose proof (fun x => gapped_in _ _ _ x G) as Later.
  assert (forall p, p ∈ ps -> p.1 <= b -> a <= p.1 /\ p.1 + 2 ^ p.2 - 1 <= b) as Within.
  { intros p Hp Hb. destruct (V p Hp) as (Hk & _). pose proof (pow_pos p.2 ltac:(lia)) as Pk.
    assert (forall x, in_block p x -> a <= x <= b \/ b + 2 <= x) as I.
    { intros x Ix. destruct (proj1 (C x)) as [?|J]; [by exists p|lia|]. apply Later in J. lia. }
    unfold in_block in I. pose proof (I p.1 ltac:(lia)). destruct (Z.le_gt_cases (p.1 + 2 ^ p.2 - 1) b); [lia|]. pose proof (I (b + 1) ltac:(lia)). lia. }
  set (first := fun p : Z * Z => p.1 <= b). assert (length ps = length (filter first ps) + length (filter (fun p => ~ first p) ps))%nat as ->.
  { rewrite <- length_app. apply Permutation_length. symmetry. apply filter_app_complement. }
  rewrite length_app. apply Nat.add_le_mono.
  - eapply tiling_fewest; [exact T| |].
    + rewrite Forall_forall. intros p [Fp Hp]%list_elem_of_filter. destruct (V p Hp) as (? & ? & _), (Within p Hp Fp). done.
    + intros x Hx. destruct (proj2 (C x)) as (p & Hp & Ip); [by left|]. exists p. split; [|done]. apply list_elem_of_filter. split; [|done].
      unfold first, in_block in *. lia.
  - eapply (IH (b + 2)); [done| |].
    + rewrite Forall_forall. intros p [_ Hp]%list_elem_of_filter. auto.
    + intros x. split.
      * intros (p & [Fp Hp]%list_elem_of_filter & Ip). destruct (proj1 (C x)) as [Hx|J]; [by exists p| |done]. unfold first, in_block in *. lia.
      * intros J. pose proof (Later x J). destruct (proj2 (C x)) as (p & Hp & Ip); [by right|]. exists p. split; [|done]. apply list_elem_of_filter.
        split; [|done]. intros Fp. destruct (Within p Hp Fp). unfold in_block in Ip. lia.
Qed.

(** ** Sets *)
(** The sets the code can make, with the addresses they are meant to hold. *)
Inductive built (v6 : bool) : RangeSet -> (Z -> Prop) -> Prop :=
  | built_new : built v6 (rangeset_new v6) (fun _ => False)
  | built_add s H p : built v6 s H -> prefix_ok v6 p -> built v6 (rangeset_add p s) (fun x => H x \/ in_prefix v6 p x)
  | built_remove s H p : built v6 s H -> prefix_ok v6 p -> built v6 (rangeset_remove p s) (fun x => H x /\ ~ in_prefix v6 p x)
  | built_other_added s H p : built v6 s H -> is_v6 p.1 <> v6 -> built v6 (rangeset_add p s) H
  | built_other_removed s H p : built v6 s H -> is_v6 p.1 <> v6 -> built v6 (rangeset_remove p s) H.

Lemma range_of_other s p : is_v6 p.1 <> rs_v6 s -> range_of s p.1 p.2 = None.
Proof. intros N. unfold range_of. by rewrite (proj2 (eqb_false_iff _ _) N). Qed.

Lemma range_of_in s p : prefix_ok (rs_v6 s) p -> exists a b, range_of s p.1 p.2 = Some (a, b) /\
  0 <= a /\ a <= b <= 2 ^ addr_bits (rs_v6 s) - 1 /\ forall x, a <= x <= b <-> in_prefix (rs_v6 s) p x.
Proof.
  intros Hp. pose proof (range_of_spec s p Hp) as E. destruct (block_of_ok _ _ Hp) as [(K & _ & L & U) I]. pose proof (pow_pos _ (proj1 K)).
  eexists _, _. split; [exact E|]. split_and!; try lia. intros x. rewrite <- I. unfold in_block. lia.
Qed.

Lemma built_spec v6 s H : built v6 s H -> rs_v6 s = v6 /\ rangeset_wf s /\ forall x, in_ranges (rs_ranges s) x <-> H x.
Proof.
  induction 1 as [|s H p _ (V & W & I) Hp|s H p _ (V & W & I) Hp|s H p _ (V & W & I) Hp|s H p _ (V & W & I) Hp].
  - split_and!; [done|done|]. intros x. apply in_ranges_nil.
  - rewrite <- V in *. destruct (range_of_in s p Hp) as (a & b & E & ? & ? & R). unfold rangeset_add. rewrite E.
    destruct (normalize_spec (rs_v6 s) (rs_ranges s ++ [(a, b)])) as [W' I'].
    { apply Forall_app. split; [by apply gapped_valid|]. constructor; [cbn; lia|constructor]. }
    split_and!; [done|done|]. intros x. rewrite I'. in_ranges. rewrite I, R. tauto.
  - rewrite <- V in *. destruct (range_of_in s p Hp) as (a & b & E & ? & ? & R). unfold rangeset_remove. rewrite E.
    destruct (take_out_spec 0 (2 ^ addr_bits (rs_v6 s) - 1) a b (rs_ranges s)) as [W' I']; [lia|done|].
    split_and!; [done|done|]. intros x. cbn [rs_ranges]. by rewrite I', I, R.
  - rewrite <- V in Hp. unfold rangeset_add. rewrite range_of_other by done. done.
  - rewrite <- V in Hp. unfold rangeset_remove. rewrite range_of_other by done. done.
Qed.

(** One prefix's addresses all come before the other's. *)
Definition prefix_before (v6 : bool) (p q : IpAddr * Z) : Prop := forall x y, in_prefix v6 p x -> in_prefix v6 q y -> x < y.

Lemma prefix_of_ok v6 b : block_ok (addr_bits v6) b -> prefix_ok v6 (prefix_of v6 b) /\ forall x, in_prefix v6 (prefix_of v6 b) x <-> in_block b x.
Proof.
  intros (K & D & L & U). pose proof (pow_pos _ (proj1 K)). destruct (number_addr_spec v6 b.1) as (N & W & F); [lia|]. unfold prefix_ok, in_prefix, prefix_of. cbn [fst snd].
  split; [split_and!; done || lia|]. intros x. rewrite N. replace (addr_bits v6 - (addr_bits v6 - b.2)) with b.2 by lia. unfold in_block. by rewrite aligned_block by (done || lia).
Qed.

Lemma prefixes_ascend v6 bs : Forall (block_ok (addr_bits v6)) bs -> StronglySorted block_before bs -> StronglySorted (prefix_before v6) (map (prefix_of v6) bs).
Proof.
  intros V. induction 1 as [|b bs S IH F]; [constructor|]. inversion_clear V as [|?? Vb Vs]. cbn. constructor; [by apply IH|].
  apply Forall_fmap, Forall_forall. intros c Hc. rewrite Forall_forall in F, Vs. specialize (F c Hc). specialize (Vs c Hc). intros x y. cbn.
  rewrite (proj2 (prefix_of_ok _ _ Vb)), (proj2 (prefix_of_ok _ _ Vs)). unfold block_before, in_block in *. lia.
Qed.

(** The same addresses in the images of a list. *)
Lemma covers_map {A B} (f : A -> B) (P : A -> Z -> Prop) (Q : B -> Z -> Prop) l x :
  (forall a, a ∈ l -> P a x <-> Q (f a) x) -> (exists b, b ∈ map f l /\ Q b x) <-> exists a, a ∈ l /\ P a x.
Proof.
  intros E. split.
  - intros (b & (a & -> & Ha)%list_elem_of_fmap & J). exists a. split; [done|]. by apply E.
  - intros (a & Ha & J). exists (f a). split; [by apply list_elem_of_fmap_2|]. by apply E.
Qed.

(** C39: However a set of addresses was built from prefixes added and taken out, [prefixes] ends and lists, in ascending order and without overlap, prefixes that hold exactly the addresses of the set; and no list of prefixes that does has fewer of them. *)
Theorem prefixes_are_the_fewest v6 s H : built v6 s H ->
  exists ps, rangeset_prefixes s = Ok ps /\ Forall (prefix_ok v6) ps /\ StronglySorted (prefix_before v6) ps /\
    (forall x, (exists p, p ∈ ps /\ in_prefix v6 p x) <-> H x) /\
    forall qs, Forall (prefix_ok v6) qs -> (forall x, (exists q, q ∈ qs /\ in_prefix v6 q x) <-> H x) -> (length ps <= length qs)%nat.
Proof.
  intros (<- & W & I)%built_spec. destruct (all_prefixes_spec (rs_v6 s) 0 (rs_ranges s)) as (bs & E & T); [lia|done|].
  destruct (tilings_bounds _ _ _ _ _ W T) as [B S]. exists (map (prefix_of (rs_v6 s)) bs).
  assert (Forall (block_ok (addr_bits (rs_v6 s))) bs) as V by (eapply Forall_impl; [exact B|]; unfold block_ok; cbn; intros ? (? & ? & ? & ?); split_and!; done || lia).
  pose proof (prefixes_ascend _ _ V S). rewrite Forall_forall in V. split_and!; [exact E| |done| |].
  - apply Forall_fmap, Forall_forall. intros b Hb. by apply prefix_of_ok, V.
  - intros x. rewrite <- I, (tilings_cover _ _ _ _ T). apply covers_map. intros b Hb. symmetry. by apply prefix_of_ok, V.
  - intros qs Vq Cq. rewrite length_map, <- (length_map (block_of (rs_v6 s)) qs). rewrite Forall_forall in Vq.
    eapply (tilings_fewest _ _ _ _ T 0); [exact W| |].
    + apply Forall_fmap, Forall_forall. intros q Hq. by apply block_of_ok, Vq.
    + intros x. rewrite I, <- Cq. apply covers_map. intros q Hq. symmetry. by apply block_of_ok, Vq.
Qed.

Lemma prefixes_are_the_fewest_witness :
  let s := rangeset_remove (V4 [128; 0; 0; 0], 1) (rangeset_add (V4 [0; 0; 0; 0], 0) (rangeset_new false)) in
  rangeset_prefixes s = Ok [(V4 [0; 0; 0; 0], 1)] /\
  exists ps, rangeset_prefixes s = Ok ps /\ forall x, (exists p, p ∈ ps /\ in_prefix false p x) <->
    (False \/ in_prefix false (V4 [0; 0; 0; 0], 0) x) /\ ~ in_prefix false (V4 [128; 0; 0; 0], 1) x.
Proof.
  cbv zeta. split; [vm_compute; reflexivity|].
  assert (forall o l, bytes_ok o -> length o = 4%nat -> 0 <= l <= 32 -> prefix_ok false (V4 o, l)) as P by (intros; by unfold prefix_ok).
  destruct (prefixes_are_the_fewest false _ _ (built_remove false _ _ (V4 [128; 0; 0; 0], 1)
    (built_add false _ _ (V4 [0; 0; 0; 0], 0) (built_new false) (P [0; 0; 0; 0] 0 ltac:(repeat (constructor; [unfold is_u8; lia|]); constructor) eq_refl ltac:(lia)))
    (P [128; 0; 0; 0] 1 ltac:(repeat (constructor; [unfold is_u8; lia|]); constructor) eq_refl ltac:(lia)))) as (ps & E & _ & _ & C & _).
  exists ps. split; [exact E|exact C].
Defined.
