(* ===== verification/TcpFlow.v ===== *)
(** One flow of the connection table of [sail-netstack/src/tcp/table.rs]: its
    queues around the control block, and the free functions of the file that work
    on them: trimming and admitting what arrives, holding what came out of order,
    the SACK scoreboard of what was sent, timestamps and segment sizes.

    A lease is dropped where the value that holds it is; the ledger is passed along
    and returned.  On a 64-bit machine [usize::try_from] of 32 bits does not fail,
    so the branches for it are left out; the counters of the table are too. *)
From S2P Require Import Prelude StateMonad TcpSeq Congestion TcpTcb Budget IpWire TcpWire.
From stdpp Require Import list sorting.
#[local] Open Scope Z_scope.

(** ** Data *)
Definition TCP_FLOW_METADATA_CHARGE : Z := 512.
Definition TCP_CHUNK_METADATA_CHARGE : Z := 64.
Definition IPV4_BLACK_HOLE_FALLBACK_MTU : Z := 576.
Definition IPV6_BLACK_HOLE_FALLBACK_MTU : Z := 1280.
Definition PAWS_IDLE_INVALIDATION_MS : Z := 24 * 24 * 60 * 60 * 1000.
Definition SHUT_WINDOW_SILENCE_MS : Z := 2 * MAX_RTO_MS.
Definition IPV4_HEADER_BYTES : Z := 20.
Definition IPV6_HEADER_BYTES : Z := 40.
Definition TCP_HEADER_BYTES : Z := 20.
Definition TCP_MAX_OPTION_BYTES : Z := 40.
Definition TCP_TIMESTAMP_OPTION_BYTES : Z := 12.

Record ReceiveChunk := mkReceiveChunk { rc_bytes : list Z; rc_offset : Z; rc_metadata_lease : BudgetLease }.
Record OutOfOrderChunk := mkOutOfOrderChunk { oc_sequence : SeqNumber; oc_bytes : list Z; oc_metadata_lease : BudgetLease }.
Record ReceiveAdmission := mkReceiveAdmission {
  ra_buffering : bool;
  ra_chunk : option ReceiveChunk;
  ra_out_of_order : option OutOfOrderChunk;
  ra_out_of_order_fin : option SeqNumber
}.
Definition nothing : ReceiveAdmission := mkReceiveAdmission false None None None.

Record TimestampState := mkTimestampState { ts_recent : Z; ts_recent_at_ms : Z }.
Inductive TimestampDisposition := TsAccept | TsDropSilently | TsRejectWithAck.
Record RttProbe := mkRttProbe { rp_end_sequence : SeqNumber; rp_sent_at_ms : Z; rp_sent_timestamp : option Z }.
Record SendChunk := mkSendChunk {
  sd_sequence : SeqNumber;
  sd_bytes : list Z;
  sd_payload_lease : BudgetLease;
  sd_sacked : bool;
  sd_retransmitted : bool;
  sd_resegment : bool;
  sd_metadata_lease : BudgetLease
}.
Record SackRecovery := mkSackRecovery { sr_recovery_point : SeqNumber; sr_rescue_after : SeqNumber }.
Record SackSplitPlan := mkSackSplitPlan {
  sp_valid_blocks : list SackBlock;
  sp_cuts_by_chunk : list (list Z);
  sp_metadata : list BudgetLease
}.
Inductive PendingSendReason := PersistReason | NagleReason.
Record PendingSend := mkPendingSend {
  ps_bytes : list Z;
  ps_payload_lease : BudgetLease;
  ps_reason : PendingSendReason;
  ps_metadata_lease : BudgetLease
}.

Inductive TcpTableError :=
| TableWire (e : WireError)
| TableBudget (e : BudgetError)
| TableState (e : TcpError)
| UnknownFlow
| TcpStaleToken
| TcpNewFlowsDisabled
| NotAccepted
| PayloadTooLarge
| InvariantError
| TcpClockWentBackwards
| TcpInvalidAddress
| TcpAddressInUse.

Record TcpFlow := mkTcpFlow {
  f_id : Z;
  f_tcb : TcpTcb;
  f_receive : list ReceiveChunk;
  f_pending_initial_receive : option ReceiveChunk;
  f_out_of_order : list OutOfOrderChunk;
  f_out_of_order_fin : option SeqNumber;
  f_recent_out_of_order : option SeqNumber;
  f_send : list SendChunk;
  f_pending_send : option PendingSend;
  f_persist_backoff_ms : Z;
  f_keepalive_probes_sent : Z;
  f_orphaned : bool;
  f_fin_wait2_armed : bool;
  f_retransmission_timeouts : Z;
  f_last_received_ms : Z;
  f_max_send_segment_bytes : Z;
  f_sack_permitted : bool;
  f_peer_window_scale : option Z;
  f_local_window_scale : Z;
  f_timestamp_offset : Z;
  f_timestamp : option TimestampState;
  f_rtt_probe : option RttProbe;
  f_sack_recovery : option SackRecovery;
  f_syn_lease : option BudgetLease;
  f_accept_lease : option BudgetLease;
  f_flow_lease : BudgetLease;
  f_metadata_lease : BudgetLease;
  f_receive_credit_lease : BudgetLease;
  f_receive_growth : list BudgetLease;
  f_read_measure_start_ms : Z;
  f_read_measure_bytes : Z
}.

(** Assignment to one field. *)
Definition set_f_tcb (v : TcpTcb) (f : TcpFlow) : TcpFlow :=
  mkTcpFlow (f_id f) v (f_receive f) (f_pending_initial_receive f) (f_out_of_order f) (f_out_of_order_fin f)
    (f_recent_out_of_order f) (f_send f) (f_pending_send f) (f_persist_backoff_ms f) (f_keepalive_probes_sent f)
    (f_orphaned f) (f_fin_wait2_armed f) (f_retransmission_timeouts f) (f_last_received_ms f)
    (f_max_send_segment_bytes f) (f_sack_permitted f) (f_peer_window_scale f) (f_local_window_scale f)
    (f_timestamp_offset f) (f_timestamp f) (f_rtt_probe f) (f_sack_recovery f) (f_syn_lease f) (f_accept_lease f)
    (f_flow_lease f) (f_metadata_lease f) (f_receive_credit_lease f) (f_receive_growth f) (f_read_measure_start_ms f)
    (f_read_measure_bytes f).
Definition set_f_receive (v : list ReceiveChunk) (f : TcpFlow) : TcpFlow :=
  mkTcpFlow (f_id f) (f_tcb f) v (f_pending_initial_receive f) (f_out_of_order f) (f_out_of_order_fin f)
    (f_recent_out_of_order f) (f_send f) (f_pending_send f) (f_persist_backoff_ms f) (f_keepalive_probes_sent f)
    (f_orphaned f) (f_fin_wait2_armed f) (f_retransmission_timeouts f) (f_last_received_ms f)
    (f_max_send_segment_bytes f) (f_sack_permitted f) (f_peer_window_scale f) (f_local_window_scale f)
    (f_timestamp_offset f) (f_timestamp f) (f_rtt_probe f) (f_sack_recovery f) (f_syn_lease f) (f_accept_lease f)
    (f_flow_lease f) (f_metadata_lease f) (f_receive_credit_lease f) (f_receive_growth f) (f_read_measure_start_ms f)
    (f_read_measure_bytes f).
Definition set_f_pending_initial_receive (v : option ReceiveChunk) (f : TcpFlow) : TcpFlow :=
  mkTcpFlow (f_id f) (f_tcb f) (f_receive f) v (f_out_of_order f) (f_out_of_order_fin f) (f_recent_out_of_order f)
    (f_send f) (f_pending_send f) (f_persist_backoff_ms f) (f_keepalive_probes_sent f) (f_orphaned f)
    (f_fin_wait2_armed f) (f_retransmission_timeouts f) (f_last_received_ms f) (f_max_send_segment_bytes f)
    (f_sack_permitted f) (f_peer_window_scale f) (f_local_window_scale f) (f_timestamp_offset f) (f_timestamp f)
    (f_rtt_probe f) (f_sack_recovery f) (f_syn_lease f) (f_accept_lease f) (f_flow_lease f) (f_metadata_lease f)
    (f_receive_credit_lease f) (f_receive_growth f) (f_read_measure_start_ms f) (f_read_measure_bytes f).
Definition set_f_out_of_order (v : list OutOfOrderChunk) (f : TcpFlow) : TcpFlow :=
  mkTcpFlow (f_id f) (f_tcb f) (f_receive f) (f_pending_initial_receive f) v (f_out_of_order_fin f)
    (f_recent_out_of_order f) (f_send f) (f_pending_send f) (f_persist_backoff_ms f) (f_keepalive_probes_sent f)
    (f_orphaned f) (f_fin_wait2_armed f) (f_retransmission_timeouts f) (f_last_received_ms f)
    (f_max_send_segment_bytes f) (f_sack_permitted f) (f_peer_window_scale f) (f_local_window_scale f)
    (f_timestamp_offset f) (f_timestamp f) (f_rtt_probe f) (f_sack_recovery f) (f_syn_lease f) (f_accept_lease f)
    (f_flow_lease f) (f_metadata_lease f) (f_receive_credit_lease f) (f_receive_growth f) (f_read_measure_start_ms f)
    (f_read_measure_bytes f).
Definition set_f_out_of_order_fin (v : option SeqNumber) (f : TcpFlow) : TcpFlow :=
  mkTcpFlow (f_id f) (f_tcb f) (f_receive f) (f_pending_initial_receive f) (f_out_of_order f) v (f_recent_out_of_order
    f) (f_send f) (f_pending_send f) (f_persist_backoff_ms f) (f_keepalive_probes_sent f) (f_orphaned f)
    (f_fin_wait2_armed f) (f_retransmission_timeouts f) (f_last_received_ms f) (f_max_send_segment_bytes f)
    (f_sack_permitted f) (f_peer_window_scale f) (f_local_window_scale f) (f_timestamp_offset f) (f_timestamp f)
    (f_rtt_probe f) (f_sack_recovery f) (f_syn_lease f) (f_accept_lease f) (f_flow_lease f) (f_metadata_lease f)
    (f_receive_credit_lease f) (f_receive_growth f) (f_read_measure_start_ms f) (f_read_measure_bytes f).
Definition set_f_recent_out_of_order (v : option SeqNumber) (f : TcpFlow) : TcpFlow :=
  mkTcpFlow (f_id f) (f_tcb f) (f_receive f) (f_pending_initial_receive f) (f_out_of_order f) (f_out_of_order_fin f) v
    (f_send f) (f_pending_send f) (f_persist_backoff_ms f) (f_keepalive_probes_sent f) (f_orphaned f)
    (f_fin_wait2_armed f) (f_retransmission_timeouts f) (f_last_received_ms f) (f_max_send_segment_bytes f)
    (f_sack_permitted f) (f_peer_window_scale f) (f_local_window_scale f) (f_timestamp_offset f) (f_timestamp f)
    (f_rtt_probe f) (f_sack_recovery f) (f_syn_lease f) (f_accept_lease f) (f_flow_lease f) (f_metadata_lease f)
    (f_receive_credit_lease f) (f_receive_growth f) (f_read_measure_start_ms f) (f_read_measure_bytes f).
Definition set_f_send (v : list SendChunk) (f : TcpFlow) : TcpFlow :=
  mkTcpFlow (f_id f) (f_tcb f) (f_receive f) (f_pending_initial_receive f) (f_out_of_order f) (f_out_of_order_fin f)
    (f_recent_out_of_order f) v (f_pending_send f) (f_persist_backoff_ms f) (f_keepalive_probes_sent f) (f_orphaned f)
    (f_fin_wait2_armed f) (f_retransmission_timeouts f) (f_last_received_ms f) (f_max_send_segment_bytes f)
    (f_sack_permitted f) (f_peer_window_scale f) (f_local_window_scale f) (f_timestamp_offset f) (f_timestamp f)
    (f_rtt_probe f) (f_sack_recovery f) (f_syn_lease f) (f_accept_lease f) (f_flow_lease f) (f_metadata_lease f)
    (f_receive_credit_lease f) (f_receive_growth f) (f_read_measure_start_ms f) (f_read_measure_bytes f).
Definition set_f_pending_send (v : option PendingSend) (f : TcpFlow) : TcpFlow :=
  mkTcpFlow (f_id f) (f_tcb f) (f_receive f) (f_pending_initial_receive f) (f_out_of_order f) (f_out_of_order_fin f)
    (f_recent_out_of_order f) (f_send f) v (f_persist_backoff_ms f) (f_keepalive_probes_sent f) (f_orphaned f)
    (f_fin_wait2_armed f) (f_retransmission_timeouts f) (f_last_received_ms f) (f_max_send_segment_bytes f)
    (f_sack_permitted f) (f_peer_window_scale f) (f_local_window_scale f) (f_timestamp_offset f) (f_timestamp f)
    (f_rtt_probe f) (f_sack_recovery f) (f_syn_lease f) (f_accept_lease f) (f_flow_lease f) (f_metadata_lease f)
    (f_receive_credit_lease f) (f_receive_growth f) (f_read_measure_start_ms f) (f_read_measure_bytes f).
Definition set_f_persist_backoff_ms (v : Z) (f : TcpFlow) : TcpFlow :=
  mkTcpFlow (f_id f) (f_tcb f) (f_receive f) (f_pending_initial_receive f) (f_out_of_order f) (f_out_of_order_fin f)
    (f_recent_out_of_order f) (f_send f) (f_pending_send f) v (f_keepalive_probes_sent f) (f_orphaned f)
    (f_fin_wait2_armed f) (f_retransmission_timeouts f) (f_last_received_ms f) (f_max_send_segment_bytes f)
    (f_sack_permitted f) (f_peer_window_scale f) (f_local_window_scale f) (f_timestamp_offset f) (f_timestamp f)
    (f_rtt_probe f) (f_sack_recovery f) (f_syn_lease f) (f_accept_lease f) (f_flow_lease f) (f_metadata_lease f)
    (f_receive_credit_lease f) (f_receive_growth f) (f_read_measure_start_ms f) (f_read_measure_bytes f).
Definition set_f_keepalive_probes_sent (v : Z) (f : TcpFlow) : TcpFlow :=
  mkTcpFlow (f_id f) (f_tcb f) (f_receive f) (f_pending_initial_receive f) (f_out_of_order f) (f_out_of_order_fin f)
    (f_recent_out_of_order f) (f_send f) (f_pending_send f) (f_persist_backoff_ms f) v (f_orphaned f)
    (f_fin_wait2_armed f) (f_retransmission_timeouts f) (f_last_received_ms f) (f_max_send_segment_bytes f)
    (f_sack_permitted f) (f_peer_window_scale f) (f_local_window_scale f) (f_timestamp_offset f) (f_timestamp f)
    (f_rtt_probe f) (f_sack_recovery f) (f_syn_lease f) (f_accept_lease f) (f_flow_lease f) (f_metadata_lease f)
    (f_receive_credit_lease f) (f_receive_growth f) (f_read_measure_start_ms f) (f_read_measure_bytes f).
Definition set_f_orphaned (v : bool) (f : TcpFlow) : TcpFlow :=
  mkTcpFlow (f_id f) (f_tcb f) (f_receive f) (f_pending_initial_receive f) (f_out_of_order f) (f_out_of_order_fin f)
    (f_recent_out_of_order f) (f_send f) (f_pending_send f) (f_persist_backoff_ms f) (f_keepalive_probes_sent f) v
    (f_fin_wait2_armed f) (f_retransmission_timeouts f) (f_last_received_ms f) (f_max_send_segment_bytes f)
    (f_sack_permitted f) (f_peer_window_scale f) (f_local_window_scale f) (f_timestamp_offset f) (f_timestamp f)
    (f_rtt_probe f) (f_sack_recovery f) (f_syn_lease f) (f_accept_lease f) (f_flow_lease f) (f_metadata_lease f)
    (f_receive_credit_lease f) (f_receive_growth f) (f_read_measure_start_ms f) (f_read_measure_bytes f).
Definition set_f_fin_wait2_armed (v : bool) (f : TcpFlow) : TcpFlow :=
  mkTcpFlow (f_id f) (f_tcb f) (f_receive f) (f_pending_initial_receive f) (f_out_of_order f) (f_out_of_order_fin f)
    (f_recent_out_of_order f) (f_send f) (f_pending_send f) (f_persist_backoff_ms f) (f_keepalive_probes_sent f)
    (f_orphaned f) v (f_retransmission_timeouts f) (f_last_received_ms f) (f_max_send_segment_bytes f)
    (f_sack_permitted f) (f_peer_window_scale f) (f_local_window_scale f) (f_timestamp_offset f) (f_timestamp f)
    (f_rtt_probe f) (f_sack_recovery f) (f_syn_lease f) (f_accept_lease f) (f_flow_lease f) (f_metadata_lease f)
    (f_receive_credit_lease f) (f_receive_growth f) (f_read_measure_start_ms f) (f_read_measure_bytes f).
Definition set_f_retransmission_timeouts (v : Z) (f : TcpFlow) : TcpFlow :=
  mkTcpFlow (f_id f) (f_tcb f) (f_receive f) (f_pending_initial_receive f) (f_out_of_order f) (f_out_of_order_fin f)
    (f_recent_out_of_order f) (f_send f) (f_pending_send f) (f_persist_backoff_ms f) (f_keepalive_probes_sent f)
    (f_orphaned f) (f_fin_wait2_armed f) v (f_last_received_ms f) (f_max_send_segment_bytes f) (f_sack_permitted f)
    (f_peer_window_scale f) (f_local_window_scale f) (f_timestamp_offset f) (f_timestamp f) (f_rtt_probe f)
    (f_sack_recovery f) (f_syn_lease f) (f_accept_lease f) (f_flow_lease f) (f_metadata_lease f)
    (f_receive_credit_lease f) (f_receive_growth f) (f_read_measure_start_ms f) (f_read_measure_bytes f).
Definition set_f_last_received_ms (v : Z) (f : TcpFlow) : TcpFlow :=
  mkTcpFlow (f_id f) (f_tcb f) (f_receive f) (f_pending_initial_receive f) (f_out_of_order f) (f_out_of_order_fin f)
    (f_recent_out_of_order f) (f_send f) (f_pending_send f) (f_persist_backoff_ms f) (f_keepalive_probes_sent f)
    (f_orphaned f) (f_fin_wait2_armed f) (f_retransmission_timeouts f) v (f_max_send_segment_bytes f)
    (f_sack_permitted f) (f_peer_window_scale f) (f_local_window_scale f) (f_timestamp_offset f) (f_timestamp f)
    (f_rtt_probe f) (f_sack_recovery f) (f_syn_lease f) (f_accept_lease f) (f_flow_lease f) (f_metadata_lease f)
    (f_receive_credit_lease f) (f_receive_growth f) (f_read_measure_start_ms f) (f_read_measure_bytes f).
Definition set_f_max_send_segment_bytes (v : Z) (f : TcpFlow) : TcpFlow :=
  mkTcpFlow (f_id f) (f_tcb f) (f_receive f) (f_pending_initial_receive f) (f_out_of_order f) (f_out_of_order_fin f)
    (f_recent_out_of_order f) (f_send f) (f_pending_send f) (f_persist_backoff_ms f) (f_keepalive_probes_sent f)
    (f_orphaned f) (f_fin_wait2_armed f) (f_retransmission_timeouts f) (f_last_received_ms f) v (f_sack_permitted f)
    (f_peer_window_scale f) (f_local_window_scale f) (f_timestamp_offset f) (f_timestamp f) (f_rtt_probe f)
    (f_sack_recovery f) (f_syn_lease f) (f_accept_lease f) (f_flow_lease f) (f_metadata_lease f)
    (f_receive_credit_lease f) (f_receive_growth f) (f_read_measure_start_ms f) (f_read_measure_bytes f).
Definition set_f_sack_permitted (v : bool) (f : TcpFlow) : TcpFlow :=
  mkTcpFlow (f_id f) (f_tcb f) (f_receive f) (f_pending_initial_receive f) (f_out_of_order f) (f_out_of_order_fin f)
    (f_recent_out_of_order f) (f_send f) (f_pending_send f) (f_persist_backoff_ms f) (f_keepalive_probes_sent f)
    (f_orphaned f) (f_fin_wait2_armed f) (f_retransmission_timeouts f) (f_last_received_ms f)
    (f_max_send_segment_bytes f) v (f_peer_window_scale f) (f_local_window_scale f) (f_timestamp_offset f)
    (f_timestamp f) (f_rtt_probe f) (f_sack_recovery f) (f_syn_lease f) (f_accept_lease f) (f_flow_lease f)
    (f_metadata_lease f) (f_receive_credit_lease f) (f_receive_growth f) (f_read_measure_start_ms f)
    (f_read_measure_bytes f).
Definition set_f_peer_window_scale (v : option Z) (f : TcpFlow) : TcpFlow :=
  mkTcpFlow (f_id f) (f_tcb f) (f_receive f) (f_pending_initial_receive f) (f_out_of_order f) (f_out_of_order_fin f)
    (f_recent_out_of_order f) (f_send f) (f_pending_send f) (f_persist_backoff_ms f) (f_keepalive_probes_sent f)
    (f_orphaned f) (f_fin_wait2_armed f) (f_retransmission_timeouts f) (f_last_received_ms f)
    (f_max_send_segment_bytes f) (f_sack_permitted f) v (f_local_window_scale f) (f_timestamp_offset f) (f_timestamp
    f) (f_rtt_probe f) (f_sack_recovery f) (f_syn_lease f) (f_accept_lease f) (f_flow_lease f) (f_metadata_lease f)
    (f_receive_credit_lease f) (f_receive_growth f) (f_read_measure_start_ms f) (f_read_measure_bytes f).
Definition set_f_local_window_scale (v : Z) (f : TcpFlow) : TcpFlow :=
  mkTcpFlow (f_id f) (f_tcb f) (f_receive f) (f_pending_initial_receive f) (f_out_of_order f) (f_out_of_order_fin f)
    (f_recent_out_of_order f) (f_send f) (f_pending_send f) (f_persist_backoff_ms f) (f_keepalive_probes_sent f)
    (f_orphaned f) (f_fin_wait2_armed f) (f_retransmission_timeouts f) (f_last_received_ms f)
    (f_max_send_segment_bytes f) (f_sack_permitted f) (f_peer_window_scale f) v (f_timestamp_offset f) (f_timestamp f)
    (f_rtt_probe f) (f_sack_recovery f) (f_syn_lease f) (f_accept_lease f) (f_flow_lease f) (f_metadata_lease f)
    (f_receive_credit_lease f) (f_receive_growth f) (f_read_measure_start_ms f) (f_read_measure_bytes f).
Definition set_f_timestamp (v : option TimestampState) (f : TcpFlow) : TcpFlow :=
  mkTcpFlow (f_id f) (f_tcb f) (f_receive f) (f_pending_initial_receive f) (f_out_of_order f) (f_out_of_order_fin f)
    (f_recent_out_of_order f) (f_send f) (f_pending_send f) (f_persist_backoff_ms f) (f_keepalive_probes_sent f)
    (f_orphaned f) (f_fin_wait2_armed f) (f_retransmission_timeouts f) (f_last_received_ms f)
    (f_max_send_segment_bytes f) (f_sack_permitted f) (f_peer_window_scale f) (f_local_window_scale f)
    (f_timestamp_offset f) v (f_rtt_probe f) (f_sack_recovery f) (f_syn_lease f) (f_accept_lease f) (f_flow_lease f)
    (f_metadata_lease f) (f_receive_credit_lease f) (f_receive_growth f) (f_read_measure_start_ms f)
    (f_read_measure_bytes f).
Definition set_f_rtt_probe (v : option RttProbe) (f : TcpFlow) : TcpFlow :=
  mkTcpFlow (f_id f) (f_tcb f) (f_receive f) (f_pending_initial_receive f) (f_out_of_order f) (f_out_of_order_fin f)
    (f_recent_out_of_order f) (f_send f) (f_pending_send f) (f_persist_backoff_ms f) (f_keepalive_probes_sent f)
    (f_orphaned f) (f_fin_wait2_armed f) (f_retransmission_timeouts f) (f_last_received_ms f)
    (f_max_send_segment_bytes f) (f_sack_permitted f) (f_peer_window_scale f) (f_local_window_scale f)
    (f_timestamp_offset f) (f_timestamp f) v (f_sack_recovery f) (f_syn_lease f) (f_accept_lease f) (f_flow_lease f)
    (f_metadata_lease f) (f_receive_credit_lease f) (f_receive_growth f) (f_read_measure_start_ms f)
    (f_read_measure_bytes f).
Definition set_f_sack_recovery (v : option SackRecovery) (f : TcpFlow) : TcpFlow :=
  mkTcpFlow (f_id f) (f_tcb f) (f_receive f) (f_pending_initial_receive f) (f_out_of_order f) (f_out_of_order_fin f)
    (f_recent_out_of_order f) (f_send f) (f_pending_send f) (f_persist_backoff_ms f) (f_keepalive_probes_sent f)
    (f_orphaned f) (f_fin_wait2_armed f) (f_retransmission_timeouts f) (f_last_received_ms f)
    (f_max_send_segment_bytes f) (f_sack_permitted f) (f_peer_window_scale f) (f_local_window_scale f)
    (f_timestamp_offset f) (f_timestamp f) (f_rtt_probe f) v (f_syn_lease f) (f_accept_lease f) (f_flow_lease f)
    (f_metadata_lease f) (f_receive_credit_lease f) (f_receive_growth f) (f_read_measure_start_ms f)
    (f_read_measure_bytes f).
Definition set_f_syn_lease (v : option BudgetLease) (f : TcpFlow) : TcpFlow :=
  mkTcpFlow (f_id f) (f_tcb f) (f_receive f) (f_pending_initial_receive f) (f_out_of_order f) (f_out_of_order_fin f)
    (f_recent_out_of_order f) (f_send f) (f_pending_send f) (f_persist_backoff_ms f) (f_keepalive_probes_sent f)
    (f_orphaned f) (f_fin_wait2_armed f) (f_retransmission_timeouts f) (f_last_received_ms f)
    (f_max_send_segment_bytes f) (f_sack_permitted f) (f_peer_window_scale f) (f_local_window_scale f)
    (f_timestamp_offset f) (f_timestamp f) (f_rtt_probe f) (f_sack_recovery f) v (f_accept_lease f) (f_flow_lease f)
    (f_metadata_lease f) (f_receive_credit_lease f) (f_receive_growth f) (f_read_measure_start_ms f)
    (f_read_measure_bytes f).
Definition set_f_accept_lease (v : option BudgetLease) (f : TcpFlow) : TcpFlow :=
  mkTcpFlow (f_id f) (f_tcb f) (f_receive f) (f_pending_initial_receive f) (f_out_of_order f) (f_out_of_order_fin f)
    (f_recent_out_of_order f) (f_send f) (f_pending_send f) (f_persist_backoff_ms f) (f_keepalive_probes_sent f)
    (f_orphaned f) (f_fin_wait2_armed f) (f_retransmission_timeouts f) (f_last_received_ms f)
    (f_max_send_segment_bytes f) (f_sack_permitted f) (f_peer_window_scale f) (f_local_window_scale f)
    (f_timestamp_offset f) (f_timestamp f) (f_rtt_probe f) (f_sack_recovery f) (f_syn_lease f) v (f_flow_lease f)
    (f_metadata_lease f) (f_receive_credit_lease f) (f_receive_growth f) (f_read_measure_start_ms f)
    (f_read_measure_bytes f).
Definition set_f_receive_growth (v : list BudgetLease) (f : TcpFlow) : TcpFlow :=
  mkTcpFlow (f_id f) (f_tcb f) (f_receive f) (f_pending_initial_receive f) (f_out_of_order f) (f_out_of_order_fin f)
    (f_recent_out_of_order f) (f_send f) (f_pending_send f) (f_persist_backoff_ms f) (f_keepalive_probes_sent f)
    (f_orphaned f) (f_fin_wait2_armed f) (f_retransmission_timeouts f) (f_last_received_ms f)
    (f_max_send_segment_bytes f) (f_sack_permitted f) (f_peer_window_scale f) (f_local_window_scale f)
    (f_timestamp_offset f) (f_timestamp f) (f_rtt_probe f) (f_sack_recovery f) (f_syn_lease f) (f_accept_lease f)
    (f_flow_lease f) (f_metadata_lease f) (f_receive_credit_lease f) v (f_read_measure_start_ms f)
    (f_read_measure_bytes f).
Definition set_f_read_measure_start_ms (v : Z) (f : TcpFlow) : TcpFlow :=
  mkTcpFlow (f_id f) (f_tcb f) (f_receive f) (f_pending_initial_receive f) (f_out_of_order f) (f_out_of_order_fin f)
    (f_recent_out_of_order f) (f_send f) (f_pending_send f) (f_persist_backoff_ms f) (f_keepalive_probes_sent f)
    (f_orphaned f) (f_fin_wait2_armed f) (f_retransmission_timeouts f) (f_last_received_ms f)
    (f_max_send_segment_bytes f) (f_sack_permitted f) (f_peer_window_scale f) (f_local_window_scale f)
    (f_timestamp_offset f) (f_timestamp f) (f_rtt_probe f) (f_sack_recovery f) (f_syn_lease f) (f_accept_lease f)
    (f_flow_lease f) (f_metadata_lease f) (f_receive_credit_lease f) (f_receive_growth f) v (f_read_measure_bytes f).
Definition set_f_read_measure_bytes (v : Z) (f : TcpFlow) : TcpFlow :=
  mkTcpFlow (f_id f) (f_tcb f) (f_receive f) (f_pending_initial_receive f) (f_out_of_order f) (f_out_of_order_fin f)
    (f_recent_out_of_order f) (f_send f) (f_pending_send f) (f_persist_backoff_ms f) (f_keepalive_probes_sent f)
    (f_orphaned f) (f_fin_wait2_armed f) (f_retransmission_timeouts f) (f_last_received_ms f)
    (f_max_send_segment_bytes f) (f_sack_permitted f) (f_peer_window_scale f) (f_local_window_scale f)
    (f_timestamp_offset f) (f_timestamp f) (f_rtt_probe f) (f_sack_recovery f) (f_syn_lease f) (f_accept_lease f)
    (f_flow_lease f) (f_metadata_lease f) (f_receive_credit_lease f) (f_receive_growth f) (f_read_measure_start_ms f)
    v.

(** Reduces a field of an updated flow to the field or the value written. *)
Ltac flow_simpl :=
  cbn [f_id f_tcb f_receive f_pending_initial_receive f_out_of_order f_out_of_order_fin f_recent_out_of_order f_send
    f_pending_send f_persist_backoff_ms f_keepalive_probes_sent f_orphaned f_fin_wait2_armed f_retransmission_timeouts
    f_last_received_ms f_max_send_segment_bytes f_sack_permitted f_peer_window_scale f_local_window_scale
    f_timestamp_offset f_timestamp f_rtt_probe f_sack_recovery f_syn_lease f_accept_lease f_flow_lease
    f_metadata_lease f_receive_credit_lease f_receive_growth f_read_measure_start_ms f_read_measure_bytes set_f_tcb
    set_f_receive set_f_pending_initial_receive set_f_out_of_order set_f_out_of_order_fin set_f_recent_out_of_order
    set_f_send set_f_pending_send set_f_persist_backoff_ms set_f_keepalive_probes_sent set_f_orphaned
    set_f_fin_wait2_armed set_f_retransmission_timeouts set_f_last_received_ms set_f_max_send_segment_bytes
    set_f_sack_permitted set_f_peer_window_scale set_f_local_window_scale set_f_timestamp set_f_rtt_probe
    set_f_sack_recovery set_f_syn_lease set_f_accept_lease set_f_receive_growth set_f_read_measure_start_ms
    set_f_read_measure_bytes] in *.
Ltac flow_goal :=
  cbn [f_id f_tcb f_receive f_pending_initial_receive f_out_of_order f_out_of_order_fin f_recent_out_of_order f_send
    f_pending_send f_persist_backoff_ms f_keepalive_probes_sent f_orphaned f_fin_wait2_armed f_retransmission_timeouts
    f_last_received_ms f_max_send_segment_bytes f_sack_permitted f_peer_window_scale f_local_window_scale
    f_timestamp_offset f_timestamp f_rtt_probe f_sack_recovery f_syn_lease f_accept_lease f_flow_lease
    f_metadata_lease f_receive_credit_lease f_receive_growth f_read_measure_start_ms f_read_measure_bytes set_f_tcb
    set_f_receive set_f_pending_initial_receive set_f_out_of_order set_f_out_of_order_fin set_f_recent_out_of_order
    set_f_send set_f_pending_send set_f_persist_backoff_ms set_f_keepalive_probes_sent set_f_orphaned
    set_f_fin_wait2_armed set_f_retransmission_timeouts set_f_last_received_ms set_f_max_send_segment_bytes
    set_f_sack_permitted set_f_peer_window_scale set_f_local_window_scale set_f_timestamp set_f_rtt_probe
    set_f_sack_recovery set_f_syn_lease set_f_accept_lease set_f_receive_growth set_f_read_measure_start_ms
    set_f_read_measure_bytes].


(** ** Rate limits ([ControlRateLimiter]) *)
Record ControlRateLimiter := mkLimiter {
  rl_burst : Z; rl_tokens : Z; rl_refill_ms : Z; rl_last_refill_ms : option Z
}.
Definition limiter_new (burst refill_ms : Z) : ControlRateLimiter := mkLimiter burst burst refill_ms None.
(** The division panics on a refill interval of zero, which [new_on_shard] rules
    out. *)
Definition limiter_allow (now_ms : Z) (r : ControlRateLimiter) : ControlRateLimiter * bool :=
  let last := default now_ms (rl_last_refill_ms r) in
  let refills := sat_sub now_ms last / rl_refill_ms r in
  let r :=
    if 0 <? refills
    then mkLimiter (rl_burst r) (Z.min (Z.min (rl_tokens r + default u32_max (try_u32 refills)) u32_max) (rl_burst r))
           (rl_refill_ms r) (Some (sat_add last (sat_mul refills (rl_refill_ms r))))
    else mkLimiter (rl_burst r) (rl_tokens r) (rl_refill_ms r) (Some last) in
  if rl_tokens r =? 0 then (r, false)
  else (mkLimiter (rl_burst r) (rl_tokens r - 1) (rl_refill_ms r) (rl_last_refill_ms r), true).
Definition limiter_reset (r : ControlRateLimiter) : ControlRateLimiter :=
  mkLimiter (rl_burst r) (rl_burst r) (rl_refill_ms r) None.

(** ** Segments *)
Definition with_payload_len (n : Z) (s : TcpSegmentMeta) : TcpSegmentMeta :=
  mkSegment (sequence s) (acknowledgment s) (flags s) (window s) n.
Definition with_sequence (n : SeqNumber) (s : TcpSegmentMeta) : TcpSegmentMeta :=
  mkSegment n (acknowledgment s) (flags s) (window s) (payload_len s).
(** [TcpFlags::from_bits(flags.bits() & !FIN.bits())]. *)
Definition without_fin (s : TcpSegmentMeta) : TcpSegmentMeta :=
  mkSegment (sequence s) (acknowledgment s) (from_bits (Z.land (flags s) (Z.lxor FIN 255))) (window s) (payload_len s).

Definition carries_data (s : TcpSegmentMeta) : bool := (0 <? payload_len s) || contains (flags s) FIN.
Definition strip_data (s : TcpSegmentMeta) : TcpSegmentMeta := without_fin (with_payload_len 0 s).
Definition is_initial_syn (s : TcpSegmentMeta) : bool :=
  contains (flags s) SYN && negb (contains (flags s) ACK) && negb (contains (flags s) RST).

Definition apply_peer_window_scale (f : TcpFlow) (s : TcpSegmentMeta) : TcpSegmentMeta :=
  if contains (flags s) SYN then s
  else
    match f_peer_window_scale f with
    | Some scale => mkSegment (sequence s) (acknowledgment s) (flags s) (wrap32 (Z.shiftl (window s) scale)) (payload_len s)
    | None => s
    end.

(** ** Timestamps *)
Definition timestamp_before (value recent : Z) : bool := as_i32 (wrap32 (value - recent)) <? 0.
Definition timestamp_value (now_ms offset : Z) : Z := wrap32 (wrap32 now_ms + offset).

Definition validate_segment_timestamp (f : TcpFlow) (s : TcpSegmentMeta) (options : TcpOptions) (now_ms : Z) : TimestampDisposition :=
  match f_timestamp f with
  | None => TsAccept
  | Some timestamp =>
    if contains (flags s) RST then TsAccept
    else
      match timestamps options with
      | None => TsDropSilently
      | Some (value, _) =>
        let recent_is_current := sat_sub now_ms (ts_recent_at_ms timestamp) <=? PAWS_IDLE_INVALIDATION_MS in
        if recent_is_current && timestamp_before value (ts_recent timestamp) then TsRejectWithAck else TsAccept
      end
  end.

Definition update_recent_timestamp (s : TcpSegmentMeta) (options : TcpOptions) (old_recv_next : SeqNumber) (now_ms : Z) (f : TcpFlow) : TcpFlow :=
  let sequence_len := segment_length s in
  let covers_previous_receive_edge :=
    (0 <? sequence_len) && negb (after (sequence s) old_recv_next) && before old_recv_next (seq_add (sequence s) sequence_len) in
  if negb (contains (flags s) RST) && covers_previous_receive_edge then
    match f_timestamp f, timestamps options with
    | Some _, Some (value, _) => set_f_timestamp (Some (mkTimestampState value now_ms)) f
    | _, _ => f
    end
  else f.

Definition record_ack_progress (old_send_unacked : SeqNumber) (options : TcpOptions) (now_ms : Z) (f : TcpFlow) : TcpFlow :=
  if send_unacked (f_tcb f) =? old_send_unacked then f
  else
    let f := set_f_retransmission_timeouts 0 f in
    match f_rtt_probe f with
    | Some probe =>
      if negb (before (send_unacked (f_tcb f)) (rp_end_sequence probe)) then
        let f := set_f_rtt_probe None f in
        let timestamp_matches :=
          match rp_sent_timestamp probe with
          | Some sent => match timestamps options with Some (_, echoed) => echoed =? sent | None => false end
          | None => true
          end in
        if timestamp_matches
        then set_f_tcb (record_rtt_sample (sat_sub now_ms (rp_sent_at_ms probe)) (f_tcb f)) f
        else f
      else f
    | None => f
    end.

Definition arm_rtt_probe (end_sequence : SeqNumber) (now_ms : Z) (f : TcpFlow) : TcpFlow :=
  match f_rtt_probe f with
  | Some _ => f
  | None =>
    set_f_rtt_probe (Some (mkRttProbe end_sequence now_ms ((fun _ => timestamp_value now_ms (f_timestamp_offset f)) <$> f_timestamp f))) f
  end.

(** ** What arrives *)
Definition out_of_order_overlaps (f : TcpFlow) (start end_ : Z) : bool :=
  existsb (fun chunk =>
    let queued_start := distance_from (oc_sequence chunk) (recv_next (f_tcb f)) in
    let queued_end := sat_add queued_start (len (oc_bytes chunk)) in
    (start <? queued_end) && (queued_start <? end_)) (f_out_of_order f).

Definition payload_is_admissible (f : TcpFlow) (s : TcpSegmentMeta) : bool :=
  negb (peer_receive_closed (f_tcb f)) && accepts_receive_sequence (f_tcb f) s && contains (flags s) ACK &&
  negb (contains (flags s) SYN) && negb (contains (flags s) RST) &&
  match acknowledgment s with Some a => negb (after a (send_next (f_tcb f))) | None => false end.

Definition trim_received_prefix (receive_next : SeqNumber) (s : TcpSegmentMeta) (payload : list Z) : TcpSegmentMeta * list Z :=
  if contains (flags s) SYN || negb (after receive_next (sequence s)) then (s, payload)
  else
    let already_received := distance_from receive_next (sequence s) in
    if len payload <? already_received then (s, payload)
    else (with_payload_len (len payload - already_received) (with_sequence receive_next s), drop (Z.to_nat already_received) payload).

Definition trim_to_receive_window (f : TcpFlow) (receive_next : SeqNumber) (s : TcpSegmentMeta) (payload : list Z) : TcpSegmentMeta * list Z :=
  let offset := distance_from (sequence s) receive_next in
  let window := distance_from (advertised_right_edge (f_tcb f)) receive_next in
  if window <=? offset then (without_fin (with_payload_len 0 s), [])
  else
    let available := window - offset in
    let s := if contains (flags s) FIN && (available <=? len payload) then without_fin s else s in
    if len payload <=? available then (s, payload)
    else (with_payload_len available s, take (Z.to_nat available) payload).

Fixpoint trim_against_out_of_order (queue : list OutOfOrderChunk) (receive_next : SeqNumber) (s : TcpSegmentMeta) (payload : list Z)
    : TcpSegmentMeta * list Z :=
  match queue with
  | [] => (s, payload)
  | queued :: queue =>
    let start := distance_from (sequence s) receive_next in
    let queued_start := distance_from (oc_sequence queued) receive_next in
    match checked_add start (len payload) with
    | None => (s, payload)
    | Some end_ =>
      let queued_end := sat_add queued_start (len (oc_bytes queued)) in
      if end_ <=? queued_start then (s, payload)
      else if start <? queued_start then
        let keep := queued_start - start in
        let s := with_payload_len keep s in
        (if contains (flags s) FIN then without_fin s else s, take (Z.to_nat keep) payload)
      else if start <? queued_end then
        let overlap := Z.min (queued_end - start) (len payload) in
        let payload := drop (Z.to_nat overlap) payload in
        let s := with_payload_len (len payload) (with_sequence (seq_add (sequence s) overlap) s) in
        if len payload =? 0 then (s, payload) else trim_against_out_of_order queue receive_next s payload
      else trim_against_out_of_order queue receive_next s payload
    end
  end.

Definition normalize_receive_segment (f : TcpFlow) (s : TcpSegmentMeta) (payload : list Z) (accepting : bool)
    : TcpSegmentMeta * list Z * bool :=
  let admissible := payload_is_admissible f s in
  if negb admissible || accepting then (s, payload, admissible)
  else
    let receive_next := receive_admission_left_edge (f_tcb f) in
    let '(s, payload) := trim_received_prefix receive_next s payload in
    let '(s, payload) := trim_to_receive_window f receive_next s payload in
    let '(s, payload) := trim_against_out_of_order (f_out_of_order f) receive_next s payload in
    (s, payload, true).

Definition state_segment (f : TcpFlow) (original trimmed : TcpSegmentMeta) (accepting : bool) : TcpSegmentMeta :=
  let handshaking := state_is (f_tcb f) SynReceived in
  if (handshaking && negb accepting) || (negb handshaking && after (sequence original) (recv_next (f_tcb f))) ||
     (carries_data original && negb (carries_data trimmed))
  then original else trimmed.

(** ** Admission *)
Section Admission.
Context (budget : ResourceBudget).
Abbreviation LM := (sm ResourceLedger TcpTableError).

Definition tcp_acquire (k : ResourceKind) (amount : Z) : LM BudgetLease := on (fun l => l) (fun l _ => l) TableBudget (try_acquire budget k amount).
Definition tcp_release (x : BudgetLease) : LM unit := modify (drop_lease x).

Definition receive_chunk (bytes : list Z) : LM ReceiveChunk :=
  lease ← tcp_acquire MetadataBytes TCP_CHUNK_METADATA_CHARGE;
  mret (mkReceiveChunk bytes 0 lease).

Definition admit_out_of_order (f : TcpFlow) (seq : SeqNumber) (payload : list Z) : LM (option OutOfOrderChunk) :=
  let next := recv_next (f_tcb f) in
  if negb (after seq next) then mret None
  else
    let start := distance_from seq next in
    match checked_add start (len payload) with
    | None => mret None
    | Some end_ =>
      let receive_edge := distance_from (advertised_right_edge (f_tcb f)) next in
      if (len payload =? 0) || (receive_edge <? end_) || out_of_order_overlaps f start end_ then mret None
      else
        lease ← tcp_acquire MetadataBytes TCP_CHUNK_METADATA_CHARGE;
        mret (Some (mkOutOfOrderChunk seq payload lease))
    end.

Definition out_of_order_fin (f : TcpFlow) (s : TcpSegmentMeta) (payload_admissible : bool) : option SeqNumber :=
  if payload_admissible && negb (peer_receive_closed (f_tcb f)) && contains (flags s) FIN && after (sequence s) (recv_next (f_tcb f))
  then Some (seq_add (sequence s) (payload_len s)) else None.

Definition prepare_receive_admission (f : TcpFlow) (s : TcpSegmentMeta) (payload : list Z) (payload_admissible accepting : bool)
    : LM ReceiveAdmission :=
  let final_ack_payload_capacity := if accepting then final_ack_payload_capacity (f_tcb f) else None in
  let buffering := payload_admissible && negb (len payload =? 0) &&
    ((sequence s =? recv_next (f_tcb f)) || bool_decide (is_Some final_ack_payload_capacity)) in
  if payload_admissible && match final_ack_payload_capacity with Some capacity => capacity <? len payload | None => false end
  then throw (TableState ReceiveCreditExceeded)
  else if buffering && (receive_available (f_tcb f) <? len payload) then throw (TableState ReceiveCreditExceeded)
  else
    chunk ← if buffering then c ← receive_chunk payload; mret (Some c) else mret None;
    out_of_order ←
      if payload_admissible && negb buffering && negb accepting then admit_out_of_order f (sequence s) payload else mret None;
    mret (mkReceiveAdmission buffering chunk out_of_order
      (if accepting then None else out_of_order_fin f s payload_admissible)).

(** The segment, the one the control block sees, what was admitted, and whether
    memory pressure dropped its data. *)
Definition admit_or_strip (f : TcpFlow) (s seen : TcpSegmentMeta) (payload : list Z) (payload_admissible accepting : bool)
    : LM (TcpSegmentMeta * TcpSegmentMeta * ReceiveAdmission * bool) :=
  r ← attempt (prepare_receive_admission f s payload payload_admissible accepting);
  match r with
  | inl admission => mret (s, seen, admission, false)
  | inr (TableBudget e) =>
    if negb accepting && carries_data s then mret (strip_data s, strip_data seen, nothing, true) else throw (TableBudget e)
  | inr e => throw e
  end.
End Admission.

Definition apply_challenge_ack_limit (now_ms : Z) (limiter : ControlRateLimiter) (actions : list TcpAction) : ControlRateLimiter * list TcpAction :=
  if negb (bool_decide (ChallengeAck ∈ actions)) then (limiter, actions)
  else
    let '(limiter, allowed) := limiter_allow now_ms limiter in
    (limiter, if allowed then actions else filter (fun a => a <> ChallengeAck) actions).

(** ** Out-of-order data *)
(** The chunk's place: [partition_point] of the chunks that start before it. *)
Fixpoint insert_chunk (next : SeqNumber) (chunk : OutOfOrderChunk) (queue : list OutOfOrderChunk) : list OutOfOrderChunk :=
  match queue with
  | queued :: queue' =>
    if distance_from (oc_sequence queued) next <? distance_from (oc_sequence chunk) next
    then queued :: insert_chunk next chunk queue' else chunk :: queue
  | [] => [chunk]
  end.

Definition chunk_holds (p : SeqNumber) (chunk : OutOfOrderChunk) : bool :=
  negb (before p (oc_sequence chunk)) && before p (seq_add (oc_sequence chunk) (len (oc_bytes chunk))).

(** [retain_mut]: the chunks that stay, and the ledger after the others' leases
    were given back. *)
Fixpoint truncate_out_of_order_at_fin (fin : SeqNumber) (queue : list OutOfOrderChunk) (l : ResourceLedger)
    : list OutOfOrderChunk * ResourceLedger :=
  match queue with
  | [] => ([], l)
  | chunk :: queue =>
    let keep := distance_from fin (oc_sequence chunk) in
    let bytes := if keep <? len (oc_bytes chunk) then take (Z.to_nat keep) (oc_bytes chunk) else oc_bytes chunk in
    if negb (before (oc_sequence chunk) fin) || (len bytes =? 0)
    then truncate_out_of_order_at_fin fin queue (drop_lease (oc_metadata_lease chunk) l)
    else
      let '(queue, l) := truncate_out_of_order_at_fin fin queue l in
      (mkOutOfOrderChunk (oc_sequence chunk) bytes (oc_metadata_lease chunk) :: queue, l)
  end.

(** A call on the flow, which borrows it mutably. *)
Definition flow_env : Type := TcpFlow * ResourceLedger.
Abbreviation FM := (sm flow_env TcpTableError).
Definition on_flow (g : TcpFlow -> TcpFlow) : FM unit := modify (fun s => (g s.1, s.2)).
Definition on_tcb {A} (m : TcpTcb -> TcpTcb * outcome TcpError A) : FM A :=
  on (fun s => f_tcb s.1) (fun t s => (set_f_tcb t s.1, s.2)) TableState m.
Definition on_flow_ledger {A} (m : sm ResourceLedger TcpTableError A) : FM A := on snd (fun l s => (s.1, l)) (fun e => e) m.
(** A call on the control block that cannot fail. *)
Definition on_tcb_total {A} (m : TcpTcb -> TcpTcb * A) : FM A := on_tcb (fun t => let '(t, a) := m t in (t, Ok a)).
(** A queue whose dropped elements gave their leases back. *)
Definition on_queue (g : TcpFlow -> ResourceLedger -> TcpFlow * ResourceLedger) : FM unit := modify (fun s => g s.1 s.2).

Definition answer_pressure_drop (actions : list TcpAction) : FM (list TcpAction) :=
  let answered := existsb (fun a => match a with Send _ | DefensiveAck _ | ClosedAction => true | _ => false end) actions in
  if answered then mret actions else more ← on_tcb_total reject_unacceptable_segment; mret (actions ++ more).

(** The chunks at RCV.NXT move to the receive queue. *)
Fixpoint promote_loop (queue : list OutOfOrderChunk) (actions : list TcpAction) (promoted : bool) : FM (list TcpAction * bool) :=
  match queue with
  | [] => mret (actions, promoted)
  | chunk :: queue =>
    s ← get_state;
    if negb (oc_sequence chunk =? recv_next (f_tcb s.1)) then mret (actions, promoted)
    else
      _ ← on_flow (set_f_out_of_order queue);
      r ← attempt (on_tcb (accept_queued_payload (len (oc_bytes chunk))));
      match r with
      | inr e => _ ← on_flow_ledger (tcp_release (oc_metadata_lease chunk)); throw e
      | inl action =>
        _ ← on_flow (fun f => set_f_receive (f_receive f ++ [mkReceiveChunk (oc_bytes chunk) 0 (oc_metadata_lease chunk)]) f);
        promote_loop queue (actions ++ [action]) true
      end
  end.

Definition clear_out_of_order (f : TcpFlow) (l : ResourceLedger) : TcpFlow * ResourceLedger :=
  (set_f_recent_out_of_order None (set_f_out_of_order_fin None (set_f_out_of_order [] f)),
   foldl (fun l c => drop_lease (oc_metadata_lease c) l) l (f_out_of_order f)).

(** The end of [queue_out_of_order_and_promote], once data came in order. *)
Definition promote_out_of_order (actions : list TcpAction) : FM (list TcpAction) :=
  s ← get_state;
  r ← promote_loop (f_out_of_order s.1) actions false;
  let actions := r.1 in
  let promoted : bool := r.2 in
  _ ← on_flow (fun f =>
    match f_recent_out_of_order f with
    | Some recent => if existsb (chunk_holds recent) (f_out_of_order f) then f else set_f_recent_out_of_order None f
    | None => f
    end);
  _ ← on_flow (fun f =>
    match f_out_of_order_fin f with
    | Some fin => if before fin (recv_next (f_tcb f)) then set_f_out_of_order_fin None f else f
    | None => f
    end);
  s ← get_state;
  if bool_decide (f_out_of_order_fin s.1 = Some (recv_next (f_tcb s.1))) then
    _ ← on_flow (set_f_out_of_order_fin None);
    more ← on_tcb_total accept_queued_fin;
    mret (actions ++ more)
  else if promoted then more ← on_tcb_total force_ack; mret (actions ++ more)
  else mret actions.

Definition queue_out_of_order_and_promote (pending : option OutOfOrderChunk) (pending_fin sack_anchor : option SeqNumber)
    (delivered_current : bool) (actions : list TcpAction) : FM (list TcpAction) :=
  let sack_anchor := match pending with Some chunk => Some (oc_sequence chunk) | None => sack_anchor end in
  _ ← on_flow (fun f =>
    match pending with
    | Some chunk => set_f_out_of_order (insert_chunk (recv_next (f_tcb f)) chunk (f_out_of_order f)) f
    | None => f
    end);
  _ ← on_flow (fun f =>
    match pending_fin with
    | Some fin =>
      if match f_out_of_order_fin f with Some queued => before fin queued | None => true end
      then set_f_out_of_order_fin (Some fin) f else f
    | None => f
    end);
  _ ← on_queue (fun f l =>
    match f_out_of_order_fin f with
    | Some fin => let '(queue, l) := truncate_out_of_order_at_fin fin (f_out_of_order f) l in (set_f_out_of_order queue f, l)
    | None => (f, l)
    end);
  _ ← on_flow (fun f =>
    match sack_anchor with
    | Some anchor => if existsb (chunk_holds anchor) (f_out_of_order f) then set_f_recent_out_of_order sack_anchor f else f
    | None => f
    end);
  if bool_decide (PeerHalfClosed ∈ actions) then _ ← on_queue clear_out_of_order; mret actions
  else if negb delivered_current then mret actions
  else promote_out_of_order actions.

(** ** SACK blocks to report *)
Fixpoint sack_block_loop (anchor : SeqNumber) (chunks : list OutOfOrderChunk) (current : option (SeqNumber * SeqNumber))
    : option (SeqNumber * SeqNumber) :=
  let holds (b : SeqNumber * SeqNumber) := negb (before anchor b.1) && before anchor b.2 in
  match chunks with
  | [] => match current with Some b => if holds b then Some b else None | None => None end
  | chunk :: chunks =>
    let right := seq_add (oc_sequence chunk) (len (oc_bytes chunk)) in
    match current with
    | Some (l, r) =>
      if r =? oc_sequence chunk then sack_block_loop anchor chunks (Some (l, right))
      else if holds (l, r) then Some (l, r)
      else sack_block_loop anchor chunks (Some (oc_sequence chunk, right))
    | None => sack_block_loop anchor chunks (Some (oc_sequence chunk, right))
    end
  end.
Definition sack_block_containing (chunks : list OutOfOrderChunk) (anchor : SeqNumber) : option (SeqNumber * SeqNumber) :=
  sack_block_loop anchor chunks None.

Definition push_block (recent : option (SeqNumber * SeqNumber)) (limit : Z) (block : SeqNumber * SeqNumber) (blocks : list (SeqNumber * SeqNumber))
    : list (SeqNumber * SeqNumber) :=
  if bool_decide (Some block <> recent) && (len blocks <? limit) then blocks ++ [block] else blocks.
Fixpoint sack_blocks_loop (recent : option (SeqNumber * SeqNumber)) (limit : Z) (chunks : list OutOfOrderChunk)
    (current : option (SeqNumber * SeqNumber)) (blocks : list (SeqNumber * SeqNumber)) : list (SeqNumber * SeqNumber) :=
  match chunks with
  | [] => match current with Some block => push_block recent limit block blocks | None => blocks end
  | chunk :: chunks =>
    let right := seq_add (oc_sequence chunk) (len (oc_bytes chunk)) in
    match current with
    | Some (l, r) =>
      if r =? oc_sequence chunk then sack_blocks_loop recent limit chunks (Some (l, right)) blocks
      else sack_blocks_loop recent limit chunks (Some (oc_sequence chunk, right)) (push_block recent limit (l, r) blocks)
    | None => sack_blocks_loop recent limit chunks (Some (oc_sequence chunk, right)) blocks
    end
  end.
Definition receive_sack_blocks (f : TcpFlow) (limit : Z) : list (SeqNumber * SeqNumber) :=
  let recent := match f_recent_out_of_order f with Some anchor => sack_block_containing (f_out_of_order f) anchor | None => None end in
  sack_blocks_loop recent limit (f_out_of_order f) None (match recent with Some b => [b] | None => [] end).

(** ** What was sent *)
(** The queue after the acknowledgment: chunks below it are dropped, the one it
    falls in is cut. *)
Fixpoint release_chunks (acknowledged : SeqNumber) (send : list SendChunk) (l : ResourceLedger)
    : outcome TcpTableError (list SendChunk * ResourceLedger) :=
  match send with
  | [] => Ok ([], l)
  | chunk :: rest =>
    let offset := distance_from acknowledged (sd_sequence chunk) in
    if offset =? 0 then Ok (send, l)
    else if len (sd_bytes chunk) <=? offset
    then release_chunks acknowledged rest (drop_lease (sd_metadata_lease chunk) (drop_lease (sd_payload_lease chunk) l))
    else
      let bytes := drop (Z.to_nat offset) (sd_bytes chunk) in
      match shrink_to (len bytes) (sd_payload_lease chunk) l with
      | Ok (lease, l) =>
        Ok (mkSendChunk acknowledged bytes lease (sd_sacked chunk) false (sd_resegment chunk) (sd_metadata_lease chunk) :: rest, l)
      | _ => Panic
      end
  end.
Definition release_acknowledged_send : FM unit := fun s =>
  match release_chunks (send_unacked (f_tcb s.1)) (f_send s.1) s.2 with
  | Ok (send, l) => ((set_f_send send s.1, l), Ok tt)
  | Err e => (s, Err e)
  | Panic => (s, Panic)
  | OutOfFuel => (s, OutOfFuel)
  end.

(** *** The scoreboard *)
(** [lost_prefix]'s pass, from the last chunk down: [chunks] is the queue reversed,
    so the index of its head is the length of its tail. *)
Fixpoint lost_loop (three_segments : Z) (chunks : list SendChunk) (sacked bytes : Z) : Z :=
  match chunks with
  | [] => 0
  | chunk :: chunks =>
    if (3 <=? sacked) || (three_segments <=? bytes) then len chunks + 1
    else if sd_sacked chunk then lost_loop three_segments chunks (sacked + 1) (sat_add bytes (len (sd_bytes chunk)))
    else lost_loop three_segments chunks sacked bytes
  end.
Definition lost_prefix (chunks : list SendChunk) (max_segment : Z) : Z := lost_loop (sat_mul max_segment 3) (rev chunks) 0 0.

(** The chunks with their indices. *)
Definition enumerate {A} (l : list A) : list (Z * A) := imap (fun i x => (Z.of_nat i, x)) l.

Definition pipe (chunks : list SendChunk) (max_segment : Z) : Z :=
  let lost := lost_prefix chunks max_segment in
  foldr Z.add 0
    ((fun p : Z * SendChunk =>
        (if p.1 <? lost then 0 else len (sd_bytes p.2)) + (if sd_retransmitted p.2 then len (sd_bytes p.2) else 0))
     <$> filter (fun p : Z * SendChunk => sd_sacked p.2 = false) (enumerate chunks)).
Definition sack_pipe (f : TcpFlow) : Z := pipe (f_send f) (f_max_send_segment_bytes f).

Definition sack_loss_detected (f : TcpFlow) : bool :=
  let lost := lost_prefix (f_send f) (f_max_send_segment_bytes f) in
  existsb (fun c => negb (sd_sacked c)) (take (Z.to_nat lost) (f_send f)).

Definition sd_end (c : SendChunk) : SeqNumber := seq_add (sd_sequence c) (len (sd_bytes c)).

(** [max_by] keeps the later of two equal elements. *)
Definition highest_sacked (f : TcpFlow) : option SeqNumber :=
  foldl (fun best c =>
    let e := sd_end c in
    match best with
    | Some b => if distance_from e (send_unacked (f_tcb f)) <? distance_from b (send_unacked (f_tcb f)) then best else Some e
    | None => Some e
    end) None (filter (fun c => sd_sacked c = true) (f_send f)).

(** [enumerate().find(..)] and [rposition]. *)
Definition find_index {A} (p : Z -> A -> bool) (l : list A) : option Z :=
  fst <$> head (filter (fun q : Z * A => p q.1 q.2 = true) (enumerate l)).
Definition rfind_index {A} (p : A -> bool) (l : list A) : option Z :=
  fst <$> last (filter (fun q : Z * A => p q.2 = true) (enumerate l)).

Definition next_sack_segment (f : TcpFlow) (recovery : SackRecovery) : option (Z * bool) :=
  match highest_sacked f with
  | None => None
  | Some highest =>
    let lost := lost_prefix (f_send f) (f_max_send_segment_bytes f) in
    let candidate (c : SendChunk) := negb (sd_sacked c) && negb (sd_retransmitted c) && before (sd_sequence c) highest in
    match find_index (fun i c => candidate c && (i <? lost)) (f_send f) with
    | Some index => Some (index, false)
    | None =>
      match find_index (fun _ c => candidate c) (f_send f) with
      | Some index => Some (index, false)
      | None =>
        if negb (after (send_unacked (f_tcb f)) (sr_rescue_after recovery)) then None
        else match rfind_index (fun c => negb (sd_sacked c)) (f_send f) with Some index => Some (index, true) | None => None end
      end
    end
  end.

(** *** SACK blocks received *)
(** [sort_unstable] and [dedup]. *)
Fixpoint dedup (l : list Z) : list Z :=
  match l with
  | x :: (y :: _) as l' => if x =? y then dedup l' else x :: dedup l'
  | _ => l
  end.

Definition chunk_cuts (valid : list SackBlock) (chunk : SendChunk) : list Z :=
  dedup (merge_sort Z.le
    ((fun point => distance_from point (sd_sequence chunk)) <$>
      filter (fun point => after point (sd_sequence chunk) && before point (sd_end chunk) = true)
        (flat_map (fun block => [left block; right block]) valid))).

Section Leases.
Context (budget : ResourceBudget).
Abbreviation LM := (sm ResourceLedger TcpTableError).

(** [(0..n).map(|_| try_acquire(..)).collect()]: a refusal drops what was granted. *)
Fixpoint acquire_metadata (n : nat) (acquired : list BudgetLease) : LM (list BudgetLease) :=
  match n with
  | O => mret acquired
  | S n =>
    r ← attempt (tcp_acquire budget MetadataBytes TCP_CHUNK_METADATA_CHARGE);
    match r with
    | inl lease => acquire_metadata n (acquired ++ [lease])
    | inr e => _ ← modify (fun l => foldl (fun l x => drop_lease x l) l acquired); throw e
    end
  end.

Definition prepare_sack_split (f : TcpFlow) (blocks : list (option SackBlock)) : LM (option SackSplitPlan) :=
  let valid := filter (fun block => negb (before (left block) (send_unacked (f_tcb f))) && negb (after (right block) (send_next (f_tcb f))) = true)
    (omap (fun b => b) blocks) in
  if len valid =? 0 then mret None
  else
    let cuts_by_chunk := chunk_cuts valid <$> f_send f in
    metadata ← acquire_metadata (foldr (fun cuts n => length cuts + n)%nat 0%nat cuts_by_chunk) [];
    mret (Some (mkSackSplitPlan valid cuts_by_chunk metadata)).

Definition prepare_sender_feedback (f : TcpFlow) (s : TcpSegmentMeta) (blocks : list (option SackBlock)) : LM (bool * option SackSplitPlan) :=
  let admissible := accepts_sender_feedback (f_tcb f) s in
  if admissible && f_sack_permitted f then
    r ← attempt (prepare_sack_split f blocks);
    match r with
    | inl split => mret (admissible, split)
    | inr (TableBudget _) => mret (admissible, None)
    | inr e => throw e
    end
  else mret (admissible, None).
End Leases.

(** The pieces of one chunk, what is left of its payload lease and of the prepared
    metadata leases. *)
Fixpoint split_pieces (max_segment : Z) (blocks : list SackBlock) (chunk : SendChunk) (ends : list Z) (start : Z) (payload_lease : BudgetLease)
    (first_metadata : option BudgetLease) (metadata : list BudgetLease) : outcome TcpTableError (list SendChunk * BudgetLease * list BudgetLease) :=
  match ends with
  | [] => Ok ([], payload_lease, metadata)
  | end_ :: ends =>
    let amount := end_ - start in
    match split_off amount payload_lease with
    | Ok (piece_lease, tail_lease) =>
      let piece_sequence := seq_add (sd_sequence chunk) start in
      let piece_end := seq_add piece_sequence amount in
      let piece_sacked := sd_sacked chunk ||
        existsb (fun block => negb (before piece_sequence (left block)) && negb (after piece_end (right block))) blocks in
      match first_metadata, metadata with
      | Some lease, _ =>
        r ← split_pieces max_segment blocks chunk ends end_ tail_lease None metadata;
        Ok (mkSendChunk piece_sequence (sub (sd_bytes chunk) start end_) piece_lease piece_sacked (sd_retransmitted chunk)
              (max_segment <? amount) lease :: r.1.1, r.1.2, r.2)
      | None, lease :: metadata =>
        r ← split_pieces max_segment blocks chunk ends end_ tail_lease None metadata;
        Ok (mkSendChunk piece_sequence (sub (sd_bytes chunk) start end_) piece_lease piece_sacked (sd_retransmitted chunk)
              (max_segment <? amount) lease :: r.1.1, r.1.2, r.2)
      | None, [] => Panic
      end
    | _ => Panic
    end
  end.
Definition split_sack_chunk (max_segment : Z) (blocks : list SackBlock) (chunk : SendChunk) (cuts : list Z) (metadata : list BudgetLease)
    : outcome TcpTableError (list SendChunk * BudgetLease * list BudgetLease) :=
  split_pieces max_segment blocks chunk (cuts ++ [len (sd_bytes chunk)]) 0 (sd_payload_lease chunk) (Some (sd_metadata_lease chunk)) metadata.

(** The chunks [zip]ped with their cuts; what is not used is dropped. *)
Fixpoint split_chunks (max_segment : Z) (blocks : list SackBlock) (send : list SendChunk) (cuts_by_chunk : list (list Z)) (metadata : list BudgetLease)
    (l : ResourceLedger) : outcome TcpTableError (list SendChunk * ResourceLedger) :=
  match send, cuts_by_chunk with
  | chunk :: send, cuts :: cuts_by_chunk =>
    r ← split_sack_chunk max_segment blocks chunk cuts metadata;
    r' ← split_chunks max_segment blocks send cuts_by_chunk r.2 (drop_lease r.1.2 l);
    Ok (r.1.1 ++ r'.1, r'.2)
  | send, _ =>
    let l := foldl (fun l x => drop_lease x l) l metadata in
    Ok ([], foldl (fun l c => drop_lease (sd_metadata_lease c) (drop_lease (sd_payload_lease c) l)) l send)
  end.
Definition apply_sack_split (plan : SackSplitPlan) : FM unit := fun s =>
  match split_chunks (f_max_send_segment_bytes s.1) (sp_valid_blocks plan) (f_send s.1) (sp_cuts_by_chunk plan) (sp_metadata plan) s.2 with
  | Ok (send, l) => ((set_f_send send s.1, l), Ok tt)
  | Err e => (s, Err e)
  | Panic => (s, Panic)
  | OutOfFuel => (s, OutOfFuel)
  end.

Definition is_retransmit (a : TcpAction) : bool := match a with RetransmitPayload _ => true | _ => false end.
Definition enter_sack_recovery (f : TcpFlow) : TcpFlow :=
  set_f_sack_recovery (Some (mkSackRecovery (send_next (f_tcb f)) (send_unacked (f_tcb f)))) f.

Definition apply_sender_sack (split_plan : option SackSplitPlan) (actions : list TcpAction) : FM (list TcpAction) :=
  s ← get_state;
  if negb (f_sack_permitted s.1) then mret actions
  else
    _ ← match split_plan with Some plan => apply_sack_split plan | None => mret tt end;
    s ← get_state;
    if negb (sack_loss_detected s.1) then mret actions
    else
      recovery ← on_tcb_total on_sack_loss;
      _ ← (if existsb is_retransmit recovery then on_flow enter_sack_recovery else mret tt);
      mret (actions ++ recovery).

Definition update_sender_sack (feedback_admissible : bool) (split_plan : option SackSplitPlan) (actions : list TcpAction) : FM (list TcpAction) :=
  let has_valid_sack := bool_decide (is_Some split_plan) in
  actions ← (if feedback_admissible then apply_sender_sack split_plan actions else mret actions);
  s ← get_state;
  _ ← (if feedback_admissible && f_sack_permitted s.1 && negb (bool_decide (is_Some (f_sack_recovery s.1))) && has_valid_sack &&
         existsb is_retransmit actions
       then on_flow enter_sack_recovery else mret tt);
  _ ← on_flow (fun f =>
    match f_sack_recovery f with
    | Some recovery => if negb (before (send_unacked (f_tcb f)) (sr_recovery_point recovery)) then set_f_sack_recovery None f else f
    | None => f
    end);
  mret actions.

(** ** Opening, segment sizes and the receive window *)
Definition apply_accept_lease (accept_lease : option BudgetLease) (actions : list TcpAction) : FM unit :=
  if bool_decide (Accepted ∈ actions) then
    on_queue (fun f l =>
      (set_f_accept_lease accept_lease (set_f_syn_lease None f),
       let l := match f_syn_lease f with Some x => drop_lease x l | None => l end in
       match f_accept_lease f with Some x => drop_lease x l | None => l end))
  else on_flow_ledger (match accept_lease with Some x => tcp_release x | None => mret tt end).

Definition promote_initial_receive (delivers_initial : bool) : FM unit :=
  if negb delivers_initial then mret tt
  else
    s ← get_state;
    match f_pending_initial_receive s.1 with
    | Some chunk => on_flow (fun f => set_f_receive (f_receive f ++ [chunk]) (set_f_pending_initial_receive None f))
    | None => throw InvariantError
    end.

Definition link_mss (ipv4 : bool) (mtu : Z) : Z :=
  let fixed_headers := (if ipv4 then IPV4_HEADER_BYTES else IPV6_HEADER_BYTES) + TCP_HEADER_BYTES in
  Z.max (sat_sub mtu fixed_headers) 1.
Definition segment_ceiling (ipv4 sack_permitted timestamps : bool) (mtu : Z) : Z :=
  let options := if sack_permitted then TCP_MAX_OPTION_BYTES else if timestamps then TCP_TIMESTAMP_OPTION_BYTES else 0 in
  Z.max (sat_sub (link_mss ipv4 mtu) options) 1.

Definition mark_resegment (ceiling : Z) (c : SendChunk) : SendChunk :=
  mkSendChunk (sd_sequence c) (sd_bytes c) (sd_payload_lease c) (sd_sacked c) (sd_retransmitted c)
    (sd_resegment c || (ceiling <? len (sd_bytes c))) (sd_metadata_lease c).
(** The flow, and whether its ceiling changed. *)
Definition lower_flow_mtu (ipv4 : bool) (mtu : Z) (f : TcpFlow) : TcpFlow * bool :=
  let ceiling := segment_ceiling ipv4 (f_sack_permitted f) (bool_decide (is_Some (f_timestamp f))) mtu in
  if f_max_send_segment_bytes f <=? ceiling then (f, false)
  else (set_f_send (mark_resegment ceiling <$> f_send f) (set_f_max_send_segment_bytes ceiling f), true).

Definition pending_resegment_control (f : TcpFlow) (old_send_unacked : SeqNumber) : option SendControl :=
  if negb (send_unacked (f_tcb f) =? old_send_unacked) && match f_send f with c :: _ => sd_resegment c | [] => false end
  then Some (mkControl (send_unacked (f_tcb f)) (recv_next (f_tcb f)) ACK (advertised_window (f_tcb f)))
  else None.

Definition flow_became_writable (f : TcpFlow) (had_send : bool) (old_send_unacked : SeqNumber) (old_send_available : Z) : bool :=
  (had_send && negb (send_unacked (f_tcb f) =? old_send_unacked)) || ((old_send_available =? 0) && (0 <? send_available (f_tcb f))).

(** The check of [debug_assert_eq!] on the leases is a property, not a step. *)
Definition grow_receive_window (budget : ResourceBudget) (count now_ms : Z) (max : option Z) : FM unit :=
  match max with
  | None => mret tt
  | Some max =>
    _ ← on_flow (fun f => set_f_read_measure_bytes (sat_add (f_read_measure_bytes f) count) f);
    s ← get_state;
    let f := s.1 in
    let round_trip_ms := Z.max (default 0 (smoothed_rtt_ms (rto (f_tcb f)))) 1 in
    if sat_sub now_ms (f_read_measure_start_ms f) <? round_trip_ms then mret tt
    else
      let capacity := recv_capacity (f_tcb f) in
      let ceiling := Z.min max (announceable_receive_capacity (f_tcb f)) in
      _ ← (if (capacity <=? sat_mul (f_read_measure_bytes f) 2) && (capacity <? ceiling) then
             let additional := Z.min capacity (ceiling - capacity) in
             r ← attempt (on_flow_ledger (on (fun l => l) (fun l _ => l) TableBudget
                   (try_acquire_within budget (mkRequest TcpPayloadBytes additional (tcp_optional_ceiling budget)))));
             match r with
             | inl lease =>
               on_flow (fun f => set_f_tcb (grow_receive_capacity additional (f_tcb f)) (set_f_receive_growth (f_receive_growth f ++ [lease]) f))
             | inr _ => mret tt
             end
           else mret tt);
      on_flow (fun f => set_f_read_measure_bytes 0 (set_f_read_measure_start_ms now_ms f))
  end.

Fixpoint window_scale_loop (fuel : nat) (receive_credit_bytes scale : Z) : Z :=
  match fuel with
  | O => scale
  | S fuel =>
    if (scale <? 14) && (u16_max <? Z.shiftr receive_credit_bytes scale) then window_scale_loop fuel receive_credit_bytes (scale + 1) else scale
  end.
(** The loop runs at most fourteen times. *)
Definition window_scale_for (receive_credit_bytes : Z) : Z := window_scale_loop 14 receive_credit_bytes 0.

Definition probes_shut_window (f : TcpFlow) : bool :=
  (peer_window (f_tcb f) =? 0) && negb (f_orphaned f) && negb (state_is (f_tcb f) SynSent || state_is (f_tcb f) SynReceived).

Definition send_buffered_bytes (f : TcpFlow) : Z :=
  foldr Z.add 0 ((fun c => len (sd_bytes c)) <$> f_send f) + match f_pending_send f with Some p => len (ps_bytes p) | None => 0 end.
