(* ===== verification/TcpTable.v ===== *)
(** The connection table of [sail-netstack/src/tcp/table.rs]: flows by four-tuple
    and by identity, TIME-WAIT in compact entries, the flows in SYN-RECEIVED by
    age, and every call of the table: packets in, packets out, the application's
    reads and writes, timers, and the network's resets.

    [le] is the byte order of the machine.  The keyed hashes of the table are
    parameters, and so is the order in which a hash map is walked.  The counters
    ([TcpTableStats]) are left out. *)
From S2P Require Import Prelude StateMonad TcpSeq Congestion TcpTcb Budget Checksum IpWire TcpWire Pmtu TcpFlow Udp.
From stdpp Require Import list sorting gmap.
#[local] Open Scope Z_scope.

(** ** Data *)
Definition TIME_WAIT_METADATA_CHARGE : Z := 128.

Inductive AcceptOverflowPolicy := OverflowDrop | RejectWithReset.

Record TcpTableConfig := mkTcpTableConfig {
  tc_receive_credit_bytes : Z;
  tc_max_receive_credit_bytes : option Z;
  tc_max_send_buffer_bytes : option Z;
  tc_max_segment_payload_bytes : Z;
  tc_link_mtu : option Z;
  tc_time_wait_ms : Z;
  tc_fin_wait2_timeout_ms : Z;
  tc_delayed_ack_ms : Z;
  tc_persist_initial_ms : Z;
  tc_persist_max_ms : Z;
  tc_keepalive_idle_ms : option Z;
  tc_keepalive_interval_ms : Z;
  tc_syn_refill_ms : Z;
  tc_syn_burst : Z;
  tc_defensive_ack_refill_ms : Z;
  tc_defensive_ack_burst : Z;
  tc_challenge_ack_refill_ms : Z;
  tc_challenge_ack_burst : Z;
  tc_stateless_reset_refill_ms : Z;
  tc_stateless_reset_burst : Z;
  tc_hop_limit : Z;
  tc_keepalive_max_probes : Z;
  tc_nagle_enabled : bool;
  tc_max_retransmission_timeouts : Z;
  tc_black_hole_rto_threshold : option Z;
  tc_accept_overflow_policy : AcceptOverflowPolicy
}.
Definition tcp_default_config : TcpTableConfig :=
  mkTcpTableConfig (16 * 1024) None None 1200 None 60000 60000 40 1000 60000 None 75000 1 4096 1 4096 10 100 10 100 64 9 false 12 (Some 2) OverflowDrop.

(** [set_link_mtu]'s assignment. *)
Definition with_link_mtu (mtu : Z) (c : TcpTableConfig) : TcpTableConfig :=
  mkTcpTableConfig (tc_receive_credit_bytes c) (tc_max_receive_credit_bytes c) (tc_max_send_buffer_bytes c) (tc_max_segment_payload_bytes c) (Some mtu)
    (tc_time_wait_ms c) (tc_fin_wait2_timeout_ms c) (tc_delayed_ack_ms c) (tc_persist_initial_ms c) (tc_persist_max_ms c) (tc_keepalive_idle_ms c)
    (tc_keepalive_interval_ms c) (tc_syn_refill_ms c) (tc_syn_burst c) (tc_defensive_ack_refill_ms c) (tc_defensive_ack_burst c)
    (tc_challenge_ack_refill_ms c) (tc_challenge_ack_burst c) (tc_stateless_reset_refill_ms c) (tc_stateless_reset_burst c) (tc_hop_limit c)
    (tc_keepalive_max_probes c) (tc_nagle_enabled c) (tc_max_retransmission_timeouts c) (tc_black_hole_rto_threshold c) (tc_accept_overflow_policy c).

Record TcpFlowToken := mkTcpFlowToken { tt_flow : Z; tt_generation : Z; tt_shard : Z }.
Definition tcp_is_owned_by (t : TcpFlowToken) (generation shard : Z) : bool := (tt_generation t =? generation) && (tt_shard t =? shard).

(** The hash a key carries is a function of the other fields. *)
Record TcpFlowKey := mkTcpFlowKey { tk_source : SocketAddr; tk_destination : SocketAddr; tk_generation : Z }.
Record TimeWaitEntry := mkTimeWaitEntry {
  tw_id : Z;
  tw_acknowledgment : SendControl;
  tw_peer_timestamp : option Z;
  tw_slot_lease : BudgetLease;
  tw_metadata_lease : BudgetLease
}.
Record TcpConnection := mkTcpConnection { cn_token : TcpFlowToken; cn_source : SocketAddr; cn_destination : SocketAddr; cn_max_segment_payload_bytes : Z }.
Inductive TcpEvent :=
| EvAccepted (c : TcpConnection)
| EvConnected (c : TcpConnection)
| EvReadable (token : TcpFlowToken) (bytes : Z)
| EvWritable (token : TcpFlowToken)
| EvPeerHalfClosed (token : TcpFlowToken)
| EvClosed (token : TcpFlowToken).
Record TcpTimerRequest := mkTimerRequest { tr_token : TcpFlowToken; tr_event : TimerEvent; tr_after_ms : Z }.
Record TcpTimerCancel := mkTimerCancel { tx_token : TcpFlowToken; tx_event : TimerEvent }.
Record TcpIngress := mkIngress {
  ig_outgoing : list (list Z); ig_events : list TcpEvent; ig_timers : list TcpTimerRequest; ig_cancelled_timers : list TcpTimerCancel
}.
Record TcpRead := mkTcpRead {
  rd_bytes : list Z; rd_outgoing : list (list Z); rd_timers : list TcpTimerRequest; rd_cancelled_timers : list TcpTimerCancel
}.

#[export] Instance TcpFlowKey_eq_dec : EqDecision TcpFlowKey.
Proof. solve_decision. Defined.
#[export] Instance TcpFlowKey_countable : Countable TcpFlowKey.
Proof.
  apply (inj_countable' (fun k => (tk_source k, tk_destination k, tk_generation k)) (fun p => mkTcpFlowKey p.1.1 p.1.2 p.2)). by intros [].
Defined.
#[export] Instance TcpFlowToken_eq_dec : EqDecision TcpFlowToken.
Proof. solve_decision. Defined.

(** [TcpIngress::default] and pushes to its vectors. *)
Definition no_ingress : TcpIngress := mkIngress [] [] [] [].
Definition push_outgoing (p : list Z) (o : TcpIngress) := mkIngress (ig_outgoing o ++ [p]) (ig_events o) (ig_timers o) (ig_cancelled_timers o).
Definition push_event (e : TcpEvent) (o : TcpIngress) := mkIngress (ig_outgoing o) (ig_events o ++ [e]) (ig_timers o) (ig_cancelled_timers o).
Definition push_timer (r : TcpTimerRequest) (o : TcpIngress) := mkIngress (ig_outgoing o) (ig_events o) (ig_timers o ++ [r]) (ig_cancelled_timers o).
Definition push_cancel (c : TcpTimerCancel) (o : TcpIngress) := mkIngress (ig_outgoing o) (ig_events o) (ig_timers o) (ig_cancelled_timers o ++ [c]).
Definition merge_ingress (target source : TcpIngress) : TcpIngress :=
  mkIngress (ig_outgoing target ++ ig_outgoing source) (ig_events target ++ ig_events source) (ig_timers target ++ ig_timers source)
    (ig_cancelled_timers target ++ ig_cancelled_timers source).

(** ** The table *)
Record TcpTable := mkTcpTable {
  t_generation : Z;
  t_shard : Z;
  t_config : TcpTableConfig;
  t_next_flow_id : Z;
  t_next_ipv4_id : Z;
  t_now_ms : Z;
  t_by_key : gmap TcpFlowKey TcpFlow;
  t_time_wait : gmap TcpFlowKey TimeWaitEntry;
  t_time_wait_order : gmap Z TcpFlowKey;
  t_by_id : gmap Z TcpFlowKey;
  t_syn_received_order : gmap Z (TcpFlowKey * Z);
  t_syn_limiter : ControlRateLimiter;
  t_defensive_ack_limiter : ControlRateLimiter;
  t_challenge_ack_limiter : ControlRateLimiter;
  t_stateless_reset_limiter : ControlRateLimiter
}.

Definition set_t_generation (v : Z) (t : TcpTable) : TcpTable :=
  mkTcpTable v (t_shard t) (t_config t) (t_next_flow_id t) (t_next_ipv4_id t) (t_now_ms t) (t_by_key t) (t_time_wait t)
    (t_time_wait_order t) (t_by_id t) (t_syn_received_order t) (t_syn_limiter t) (t_defensive_ack_limiter t)
    (t_challenge_ack_limiter t) (t_stateless_reset_limiter t).
Definition set_t_config (v : TcpTableConfig) (t : TcpTable) : TcpTable :=
  mkTcpTable (t_generation t) (t_shard t) v (t_next_flow_id t) (t_next_ipv4_id t) (t_now_ms t) (t_by_key t) (t_time_wait t)
    (t_time_wait_order t) (t_by_id t) (t_syn_received_order t) (t_syn_limiter t) (t_defensive_ack_limiter t)
    (t_challenge_ack_limiter t) (t_stateless_reset_limiter t).
Definition set_t_next_flow_id (v : Z) (t : TcpTable) : TcpTable :=
  mkTcpTable (t_generation t) (t_shard t) (t_config t) v (t_next_ipv4_id t) (t_now_ms t) (t_by_key t) (t_time_wait t)
    (t_time_wait_order t) (t_by_id t) (t_syn_received_order t) (t_syn_limiter t) (t_defensive_ack_limiter t)
    (t_challenge_ack_limiter t) (t_stateless_reset_limiter t).
Definition set_t_next_ipv4_id (v : Z) (t : TcpTable) : TcpTable :=
  mkTcpTable (t_generation t) (t_shard t) (t_config t) (t_next_flow_id t) v (t_now_ms t) (t_by_key t) (t_time_wait t)
    (t_time_wait_order t) (t_by_id t) (t_syn_received_order t) (t_syn_limiter t) (t_defensive_ack_limiter t)
    (t_challenge_ack_limiter t) (t_stateless_reset_limiter t).
Definition set_t_now_ms (v : Z) (t : TcpTable) : TcpTable :=
  mkTcpTable (t_generation t) (t_shard t) (t_config t) (t_next_flow_id t) (t_next_ipv4_id t) v (t_by_key t) (t_time_wait t)
    (t_time_wait_order t) (t_by_id t) (t_syn_received_order t) (t_syn_limiter t) (t_defensive_ack_limiter t)
    (t_challenge_ack_limiter t) (t_stateless_reset_limiter t).
Definition set_t_by_key (v : gmap TcpFlowKey TcpFlow) (t : TcpTable) : TcpTable :=
  mkTcpTable (t_generation t) (t_shard t) (t_config t) (t_next_flow_id t) (t_next_ipv4_id t) (t_now_ms t) v (t_time_wait t)
    (t_time_wait_order t) (t_by_id t) (t_syn_received_order t) (t_syn_limiter t) (t_defensive_ack_limiter t)
    (t_challenge_ack_limiter t) (t_stateless_reset_limiter t).
Definition set_t_time_wait (v : gmap TcpFlowKey TimeWaitEntry) (t : TcpTable) : TcpTable :=
  mkTcpTable (t_generation t) (t_shard t) (t_config t) (t_next_flow_id t) (t_next_ipv4_id t) (t_now_ms t) (t_by_key t) v
    (t_time_wait_order t) (t_by_id t) (t_syn_received_order t) (t_syn_limiter t) (t_defensive_ack_limiter t)
    (t_challenge_ack_limiter t) (t_stateless_reset_limiter t).
Definition set_t_time_wait_order (v : gmap Z TcpFlowKey) (t : TcpTable) : TcpTable :=
  mkTcpTable (t_generation t) (t_shard t) (t_config t) (t_next_flow_id t) (t_next_ipv4_id t) (t_now_ms t) (t_by_key t)
    (t_time_wait t) v (t_by_id t) (t_syn_received_order t) (t_syn_limiter t) (t_defensive_ack_limiter t) (t_challenge_ack_limiter
    t) (t_stateless_reset_limiter t).
Definition set_t_by_id (v : gmap Z TcpFlowKey) (t : TcpTable) : TcpTable :=
  mkTcpTable (t_generation t) (t_shard t) (t_config t) (t_next_flow_id t) (t_next_ipv4_id t) (t_now_ms t) (t_by_key t)
    (t_time_wait t) (t_time_wait_order t) v (t_syn_received_order t) (t_syn_limiter t) (t_defensive_ack_limiter t)
    (t_challenge_ack_limiter t) (t_stateless_reset_limiter t).
Definition set_t_syn_received_order (v : gmap Z (TcpFlowKey * Z)) (t : TcpTable) : TcpTable :=
  mkTcpTable (t_generation t) (t_shard t) (t_config t) (t_next_flow_id t) (t_next_ipv4_id t) (t_now_ms t) (t_by_key t)
    (t_time_wait t) (t_time_wait_order t) (t_by_id t) v (t_syn_limiter t) (t_defensive_ack_limiter t) (t_challenge_ack_limiter t)
    (t_stateless_reset_limiter t).
Definition set_t_syn_limiter (v : ControlRateLimiter) (t : TcpTable) : TcpTable :=
  mkTcpTable (t_generation t) (t_shard t) (t_config t) (t_next_flow_id t) (t_next_ipv4_id t) (t_now_ms t) (t_by_key t)
    (t_time_wait t) (t_time_wait_order t) (t_by_id t) (t_syn_received_order t) v (t_defensive_ack_limiter t)
    (t_challenge_ack_limiter t) (t_stateless_reset_limiter t).
Definition set_t_defensive_ack_limiter (v : ControlRateLimiter) (t : TcpTable) : TcpTable :=
  mkTcpTable (t_generation t) (t_shard t) (t_config t) (t_next_flow_id t) (t_next_ipv4_id t) (t_now_ms t) (t_by_key t)
    (t_time_wait t) (t_time_wait_order t) (t_by_id t) (t_syn_received_order t) (t_syn_limiter t) v (t_challenge_ack_limiter t)
    (t_stateless_reset_limiter t).
Definition set_t_challenge_ack_limiter (v : ControlRateLimiter) (t : TcpTable) : TcpTable :=
  mkTcpTable (t_generation t) (t_shard t) (t_config t) (t_next_flow_id t) (t_next_ipv4_id t) (t_now_ms t) (t_by_key t)
    (t_time_wait t) (t_time_wait_order t) (t_by_id t) (t_syn_received_order t) (t_syn_limiter t) (t_defensive_ack_limiter t) v
    (t_stateless_reset_limiter t).
Definition set_t_stateless_reset_limiter (v : ControlRateLimiter) (t : TcpTable) : TcpTable :=
  mkTcpTable (t_generation t) (t_shard t) (t_config t) (t_next_flow_id t) (t_next_ipv4_id t) (t_now_ms t) (t_by_key t)
    (t_time_wait t) (t_time_wait_order t) (t_by_id t) (t_syn_received_order t) (t_syn_limiter t) (t_defensive_ack_limiter t)
    (t_challenge_ack_limiter t) v.

(** Reduces a field of an updated table. *)
Ltac table_simpl :=
  cbn [t_generation t_shard t_config t_next_flow_id t_next_ipv4_id t_now_ms t_by_key t_time_wait t_time_wait_order t_by_id
    t_syn_received_order t_syn_limiter t_defensive_ack_limiter t_challenge_ack_limiter t_stateless_reset_limiter set_t_generation
    set_t_config set_t_next_flow_id set_t_next_ipv4_id set_t_now_ms set_t_by_key set_t_time_wait set_t_time_wait_order set_t_by_id
    set_t_syn_received_order set_t_syn_limiter set_t_defensive_ack_limiter set_t_challenge_ack_limiter
    set_t_stateless_reset_limiter] in *.
Ltac table_goal :=
  cbn [t_generation t_shard t_config t_next_flow_id t_next_ipv4_id t_now_ms t_by_key t_time_wait t_time_wait_order t_by_id
    t_syn_received_order t_syn_limiter t_defensive_ack_limiter t_challenge_ack_limiter t_stateless_reset_limiter set_t_generation
    set_t_config set_t_next_flow_id set_t_next_ipv4_id set_t_now_ms set_t_by_key set_t_time_wait set_t_time_wait_order set_t_by_id
    set_t_syn_received_order set_t_syn_limiter set_t_defensive_ack_limiter set_t_challenge_ack_limiter
    set_t_stateless_reset_limiter].


(** [BTreeMap::first_key_value]. *)
Definition first_entry {A} (m : gmap Z A) : option (Z * A) :=
  foldr (fun p best => match best with Some q => if p.1 <=? q.1 then Some p else Some q | None => Some p end) None (map_to_list m).

Section Table.
Context (budget : ResourceBudget) (le : bool) (hash_port : SocketAddr * IpAddr * Z -> Z) (hash_offset : SocketAddr * SocketAddr -> Z)
  (hash_sequence : TcpFlowKey * Z -> Z) (iter : gmap TcpFlowKey TcpFlow -> list TcpFlowKey).

(** The state of a call: the table and the ledger it shares. *)
Definition tstate : Type := TcpTable * ResourceLedger.
Definition TM (A : Type) : Type := sm tstate TcpTableError A.

Definition on_tcp_table (g : TcpTable -> TcpTable) : TM unit := modify (fun s => (g s.1, s.2)).
Definition charge {A} (m : sm ResourceLedger TcpTableError A) : TM A := on snd (fun l s => (s.1, l)) (fun e => e) m.
Definition tcp_token_of (t : TcpTable) (id : Z) : TcpFlowToken := mkTcpFlowToken id (t_generation t) (t_shard t).

(** [self.by_key.get(&key).ok_or(error)?]. *)
Definition flow_of (key : TcpFlowKey) (missing : TcpTableError) : TM TcpFlow :=
  s ← get_state;
  match t_by_key s.1 !! key with Some f => mret f | None => throw missing end.
(** A call on the flow that [get_mut] finds. *)
Definition with_flow {A} (key : TcpFlowKey) (missing : TcpTableError) (m : FM A) : TM A :=
  s ← get_state;
  match t_by_key s.1 !! key with
  | None => throw missing
  | Some f => on (fun s => (f, s.2)) (fun e s => (set_t_by_key (<[key := e.1]> (t_by_key s.1)) s.1, e.2)) (fun e => e) m
  end.

(** ** Clock and limits *)
Definition update_clock (now_ms : Z) : TM unit :=
  s ← get_state;
  if now_ms <? t_now_ms s.1 then throw TcpClockWentBackwards else on_tcp_table (set_t_now_ms now_ms).
Definition allow_with (get : TcpTable -> ControlRateLimiter) (put : ControlRateLimiter -> TcpTable -> TcpTable) : TM bool :=
  s ← get_state;
  let '(r, allowed) := limiter_allow (t_now_ms s.1) (get s.1) in
  _ ← on_tcp_table (put r);
  mret allowed.

Definition key_for (token : TcpFlowToken) : TM TcpFlowKey :=
  s ← get_state;
  if negb (tcp_is_owned_by token (t_generation s.1) (t_shard s.1)) then throw TcpStaleToken
  else match t_by_id s.1 !! tt_flow token with Some key => mret key | None => throw TcpStaleToken end.

(** ** Sizes *)
Definition receive_window_ceiling (t : TcpTable) : Z :=
  default (tc_receive_credit_bytes (t_config t)) (tc_max_receive_credit_bytes (t_config t)).
Definition local_mss (t : TcpTable) (peer : SocketAddr) : Z :=
  match tc_link_mtu (t_config t) with
  | None => tc_max_segment_payload_bytes (t_config t)
  | Some mtu => Z.min (tc_max_segment_payload_bytes (t_config t)) (link_mss (is_ipv4 peer) mtu)
  end.
Definition default_peer_mss (peer : SocketAddr) : Z := if is_ipv4 peer then 536 else 1220.
Definition passive_segment_bytes (t : TcpTable) (key : TcpFlowKey) (options : TcpOptions) : Z :=
  let bytes := Z.min (local_mss t (tk_source key)) (default (default_peer_mss (tk_source key)) (maximum_segment_size options)) in
  match tc_link_mtu (t_config t) with
  | None => bytes
  | Some mtu =>
    Z.min bytes (segment_ceiling (is_ipv4 (tk_source key)) (sack_permitted options) (bool_decide (is_Some (timestamps options))) mtu)
  end.

Definition timestamp_offset (key : TcpFlowKey) : Z := wrap32 (hash_offset (tk_source key, tk_destination key)).
Definition initial_sequence (t : TcpTable) (key : TcpFlowKey) (id : Z) : SeqNumber :=
  let keyed := wrap32 (hash_sequence (key, id)) in
  let clock := wrap32 (sat_mul (t_now_ms t) 250) in
  wrap32 (keyed + clock).

(** ** Options and packets *)
Definition syn_options (t : TcpTable) (key : TcpFlowKey) (f : TcpFlow) : list Z :=
  let advertised_mss := default u16_max (try_u16 (local_mss t (tk_source key))) in
  [2; 4] ++ to_be16 advertised_mss ++ [4; 2; 8; 10] ++ to_be32 (timestamp_value (t_now_ms t) (f_timestamp_offset f)) ++ to_be32 0 ++
  [1; 3; 3; f_local_window_scale f].
Definition syn_ack_options (t : TcpTable) (key : TcpFlowKey) (f : TcpFlow) : list Z :=
  let advertised_mss := default u16_max (try_u16 (local_mss t (tk_source key))) in
  [2; 4] ++ to_be16 advertised_mss ++
  (if f_sack_permitted f then [4; 2; 1; 1] else []) ++
  (match f_peer_window_scale f with Some _ => [3; 3; f_local_window_scale f; 1] | None => [] end) ++
  match f_timestamp f with
  | Some timestamp => [8; 10] ++ to_be32 (timestamp_value (t_now_ms t) (f_timestamp_offset f)) ++ to_be32 (ts_recent timestamp) ++ [1; 1]
  | None => []
  end.

Definition timestamp_options (t : TcpTable) (f : TcpFlow) : option (list Z) :=
  match f_timestamp f with
  | Some timestamp =>
    Some ([8; 10] ++ to_be32 (timestamp_value (t_now_ms t) (f_timestamp_offset f)) ++ to_be32 (ts_recent timestamp) ++ [1; 1])
  | None => None
  end.
(** [resize(len.next_multiple_of(4), 1)]. *)
Definition pad_options (options : list Z) : list Z := options ++ replicate (Z.to_nat ((- len options) mod 4)) 1.
(** [u8::try_from(2 + blocks.len() * 8)] is of at most four blocks. *)
Definition segment_options (t : TcpTable) (key : TcpFlowKey) : option (list Z) :=
  match t_by_key t !! key with
  | None => None
  | Some f =>
    let options := default [] (timestamp_options t f) in
    let options :=
      if f_sack_permitted f && negb (len (f_out_of_order f) =? 0) then
        let max_blocks := Z.min (sat_sub 40 (len options + 2) / 8) 4 in
        let blocks := receive_sack_blocks f max_blocks in
        if len blocks =? 0 then options
        else options ++ [5; 2 + len blocks * 8] ++ flat_map (fun b => to_be32 b.1 ++ to_be32 b.2) blocks
      else options in
    if len options =? 0 then None else Some (pad_options options)
  end.

Definition tcp_wire {A} (m : outcome WireError A) : TM A := on (fun _ => tt) (fun _ s => s) TableWire (fun u => (u, m)).
Definition next_identification : TM Z :=
  s ← get_state;
  _ ← on_tcp_table (set_t_next_ipv4_id (wrap16 (t_next_ipv4_id s.1 + 1)));
  mret (t_next_ipv4_id s.1).
Definition emit_with_options (key : TcpFlowKey) (control : SendControl) (options : list Z) : TM (list Z) :=
  identification ← next_identification;
  s ← get_state;
  tcp_wire (emit_tcp_segment_with_options le (tk_destination key) (tk_source key) control options [] (tc_hop_limit (t_config s.1)) identification).
Definition emit_payload (key : TcpFlowKey) (control : SendControl) (payload : list Z) : TM (list Z) :=
  identification ← next_identification;
  s ← get_state;
  match segment_options s.1 key with
  | Some options =>
    tcp_wire (emit_tcp_segment_with_options le (tk_destination key) (tk_source key) control options payload (tc_hop_limit (t_config s.1)) identification)
  | None => tcp_wire (emit_tcp_segment le (tk_destination key) (tk_source key) control payload (tc_hop_limit (t_config s.1)) identification)
  end.
Definition emit (key : TcpFlowKey) (control : SendControl) : TM (list Z) :=
  identification ← next_identification;
  s ← get_state;
  match segment_options s.1 key with
  | Some options =>
    tcp_wire (emit_tcp_segment_with_options le (tk_destination key) (tk_source key) control options [] (tc_hop_limit (t_config s.1)) identification)
  | None => tcp_wire (emit_tcp_control le (tk_destination key) (tk_source key) control (tc_hop_limit (t_config s.1)) identification)
  end.

(** ** Leaving the table *)
Definition opt_leases (x : option BudgetLease) : list BudgetLease := match x with Some x => [x] | None => [] end.
(** The leases a flow gives back when it is replaced by its compact entry, and all
    it holds, which dropping it gives back. *)
Definition compacted_leases (f : TcpFlow) : list BudgetLease :=
  (rc_metadata_lease <$> f_receive f) ++ (rc_metadata_lease <$> match f_pending_initial_receive f with Some c => [c] | None => [] end) ++
  (oc_metadata_lease <$> f_out_of_order f) ++
  flat_map (fun c => [sd_payload_lease c; sd_metadata_lease c]) (f_send f) ++
  match f_pending_send f with Some p => [ps_payload_lease p; ps_metadata_lease p] | None => [] end ++
  opt_leases (f_syn_lease f) ++ opt_leases (f_accept_lease f) ++ [f_flow_lease f; f_receive_credit_lease f] ++ f_receive_growth f.
Definition tcp_flow_leases (f : TcpFlow) : list BudgetLease := compacted_leases f ++ [f_metadata_lease f].
Definition tcp_drop_leases (xs : list BudgetLease) (l : ResourceLedger) : ResourceLedger := foldl (fun l x => drop_lease x l) l xs.

Definition remove_flow_entry (key : TcpFlowKey) (entry : TimeWaitEntry) (t : TcpTable) : TcpTable :=
  set_t_by_id (delete (tw_id entry) (t_by_id t))
    (set_t_time_wait_order (delete (tw_id entry) (t_time_wait_order t)) (set_t_time_wait (delete key (t_time_wait t)) t)).
Definition remove (key : TcpFlowKey) : TM unit := modify (fun s =>
  match t_by_key s.1 !! key with
  | Some f =>
    (set_t_by_id (delete (f_id f) (t_by_id s.1))
       (set_t_syn_received_order (delete (f_id f) (t_syn_received_order s.1)) (set_t_by_key (delete key (t_by_key s.1)) s.1)),
     tcp_drop_leases (tcp_flow_leases f) s.2)
  | None =>
    match t_time_wait s.1 !! key with
    | Some entry => (remove_flow_entry key entry s.1, tcp_drop_leases [tw_slot_lease entry; tw_metadata_lease entry] s.2)
    | None => s
    end
  end).

Definition evict_oldest_time_wait : TM (option TcpTimerCancel) :=
  s ← get_state;
  match first_entry (t_time_wait_order s.1) with
  | None => mret None
  | Some (id, key) =>
    _ ← on_tcp_table (fun t => set_t_time_wait_order (delete id (t_time_wait_order t)) t);
    match t_time_wait s.1 !! key with
    | None => mret None
    | Some entry =>
      _ ← modify (fun s =>
        (set_t_by_id (delete (tw_id entry) (t_by_id s.1)) (set_t_time_wait (delete key (t_time_wait s.1)) s.1),
         tcp_drop_leases [tw_slot_lease entry; tw_metadata_lease entry] s.2));
      mret (Some (mkTimerCancel (tcp_token_of s.1 (tw_id entry)) TimeWaitExpired))
    end
  end.

(** The slot, the entry evicted for it. *)
Definition time_wait_slot : TM (option BudgetLease * option TcpTimerCancel) :=
  r ← attempt (charge (tcp_acquire budget TimeWaitFlows 1));
  match r with
  | inl lease => mret (Some lease, None)
  | inr _ =>
    cancelled ← evict_oldest_time_wait;
    match cancelled with
    | None => mret (None, None)
    | Some c =>
      r ← attempt (charge (tcp_acquire budget TimeWaitFlows 1));
      mret (match r with inl lease => Some lease | inr _ => None end, Some c)
    end
  end.

Definition compact_time_wait (key : TcpFlowKey) : TM (option TcpTimerCancel * bool) :=
  r ← time_wait_slot;
  match r with
  | (None, cancelled) => _ ← remove key; mret (cancelled, false)
  | (Some slot_lease, cancelled) =>
    s ← get_state;
    match t_by_key s.1 !! key with
    | None => _ ← charge (tcp_release slot_lease); throw InvariantError
    | Some f =>
      match shrink_to TIME_WAIT_METADATA_CHARGE (f_metadata_lease f) (tcp_drop_leases (compacted_leases f) s.2) with
      | Ok (metadata_lease, l) =>
        let acknowledgment := mkControl (send_next (f_tcb f)) (recv_next (f_tcb f)) ACK 0 in
        let entry := mkTimeWaitEntry (f_id f) acknowledgment (ts_recent <$> f_timestamp f) slot_lease metadata_lease in
        _ ← modify (fun s =>
          (set_t_time_wait_order (<[f_id f := key]> (t_time_wait_order s.1))
             (set_t_time_wait (<[key := entry]> (t_time_wait s.1))
               (set_t_syn_received_order (delete (f_id f) (t_syn_received_order s.1)) (set_t_by_key (delete key (t_by_key s.1)) s.1))), l));
        mret (cancelled, true)
      | _ => lift Panic
      end
    end
  end.

Definition move_to_time_wait (key : TcpFlowKey) (id : Z) (output : TcpIngress) : TM TcpIngress :=
  r ← compact_time_wait key;
  s ← get_state;
  let output := match r.1 with
                | Some cancelled => push_cancel cancelled (push_event (EvClosed (tx_token cancelled)) output)
                | None => output
                end in
  let token := tcp_token_of s.1 id in
  mret (if negb r.2
        then push_event (EvClosed token)
               (mkIngress (ig_outgoing output) (ig_events output) (filter (fun r => tr_token r <> token) (ig_timers output)) (ig_cancelled_timers output))
        else output).

Definition end_time_wait (key : TcpFlowKey) : TM (option TcpTimerCancel) :=
  s ← get_state;
  match t_time_wait s.1 !! key with
  | None => mret None
  | Some entry =>
    _ ← modify (fun s => (remove_flow_entry key entry s.1, tcp_drop_leases [tw_slot_lease entry; tw_metadata_lease entry] s.2));
    mret (Some (mkTimerCancel (tcp_token_of s.1 (tw_id entry)) TimeWaitExpired))
  end.

Definition time_wait_yields_to (t : TcpTable) (key : TcpFlowKey) (s : TcpSegmentMeta) (options : TcpOptions) : bool :=
  if negb (is_initial_syn s) then false
  else
    match t_time_wait t !! key with
    | None => false
    | Some entry =>
      let '(newer, older) :=
        match tw_peer_timestamp entry, timestamps options with
        | Some recent, Some (value, _) => let ahead := as_i32 (wrap32 (value - recent)) in (0 <? ahead, ahead <? 0)
        | _, _ => (false, false)
        end in
      negb older && (newer || after (sequence s) (sc_acknowledgment (tw_acknowledgment entry)))
    end.

Definition ingest_time_wait (key : TcpFlowKey) (s : TcpSegmentMeta) : TM TcpIngress :=
  st ← get_state;
  match t_time_wait st.1 !! key with
  | None => throw UnknownFlow
  | Some entry =>
    let acknowledgment := tw_acknowledgment entry in
    let is_reset := contains (flags s) RST in
    output ← (if negb is_reset then p ← emit key acknowledgment; mret (push_outgoing p no_ingress) else mret no_ingress);
    let retransmits_final_fin := negb is_reset && contains (flags s) ACK && contains (flags s) FIN &&
      (seq_add (sequence s) (payload_len s) =? wrap32 (sc_acknowledgment acknowledgment - 1)) in
    mret (if retransmits_final_fin
          then push_timer (mkTimerRequest (tcp_token_of st.1 (tw_id entry)) TimeWaitExpired (tc_time_wait_ms (t_config st.1))) output
          else output)
  end.

(** ** Rendering *)
Definition render_send (key : TcpFlowKey) (control : SendControl) : TM (list Z) :=
  s ← get_state;
  match t_by_key s.1 !! key ≫= fun f =>
    head (filter (fun c => distance_from (sc_sequence control) (sd_sequence c) < len (sd_bytes c)) (f_send f)) with
  | None => throw InvariantError
  | Some chunk => emit_payload key control (drop (Z.to_nat (distance_from (sc_sequence control) (sd_sequence chunk))) (sd_bytes chunk))
  end.

(** The first chunk neither acknowledged nor sent again is marked so, and what of
    it goes into a segment is returned with its sequence number. *)
Fixpoint take_retransmit (limit : Z) (send : list SendChunk) : option (list SendChunk * SeqNumber * list Z) :=
  match send with
  | [] => None
  | c :: send =>
    if negb (sd_sacked c) && negb (sd_retransmitted c) then
      let amount := Z.min (len (sd_bytes c)) limit in
      Some (mkSendChunk (sd_sequence c) (sd_bytes c) (sd_payload_lease c) (sd_sacked c) true (amount <? len (sd_bytes c)) (sd_metadata_lease c) :: send,
            sd_sequence c, take (Z.to_nat amount) (sd_bytes c))
    else match take_retransmit limit send with Some (send, q, p) => Some (c :: send, q, p) | None => None end
  end.
Definition render_retransmit (key : TcpFlowKey) (control : SendControl) : TM (option (list Z)) :=
  f ← flow_of key UnknownFlow;
  match take_retransmit (f_max_send_segment_bytes f) (f_send f) with
  | None => mret None
  | Some (send, q, payload) =>
    _ ← with_flow key UnknownFlow (on_flow (fun f => set_f_rtt_probe None (set_f_send send f)));
    p ← emit_payload key (mkControl q (sc_acknowledgment control) (sc_flags control) (sc_window control)) payload;
    mret (Some p)
  end.

Definition connection (key : TcpFlowKey) (token : TcpFlowToken) (opened_here : bool) : TM TcpConnection :=
  f ← flow_of key UnknownFlow;
  mret (if opened_here then mkTcpConnection token (tk_destination key) (tk_source key) (f_max_send_segment_bytes f)
        else mkTcpConnection token (tk_source key) (tk_destination key) (f_max_send_segment_bytes f)).

Definition render_action (key : TcpFlowKey) (id : Z) (a : TcpAction) (output : TcpIngress) : TM TcpIngress :=
  st ← get_state;
  let token := tcp_token_of st.1 id in
  match a with
  | Send control =>
    if contains (sc_flags control) SYN then
      f ← flow_of key UnknownFlow;
      p ← emit_with_options key control (if contains (sc_flags control) ACK then syn_ack_options st.1 key f else syn_options st.1 key f);
      mret (push_outgoing p output)
    else p ← emit key control; mret (push_outgoing p output)
  | DefensiveAck control =>
    allowed ← allow_with t_defensive_ack_limiter set_t_defensive_ack_limiter;
    if (allowed : bool) then p ← emit key control; mret (push_outgoing p output) else mret output
  | SendPayload control => p ← render_send key control; mret (push_outgoing p output)
  | RetransmitPayload control =>
    p ← render_retransmit key control;
    mret (match p with Some p => push_outgoing p output | None => output end)
  | DeliverPayload amount => mret (push_event (EvReadable token amount) output)
  | Accepted => c ← connection key token false; mret (push_event (EvAccepted c) output)
  | Connected => c ← connection key token true; mret (push_event (EvConnected c) output)
  | PeerHalfClosed => mret (push_event (EvPeerHalfClosed token) output)
  | ArmRetransmission after_ms => mret (push_timer (mkTimerRequest token Retransmission after_ms) output)
  | DisarmRetransmission => mret (push_cancel (mkTimerCancel token Retransmission) output)
  | ArmDelayedAck => mret (push_timer (mkTimerRequest token DelayedAck (tc_delayed_ack_ms (t_config st.1))) output)
  | DisarmDelayedAck => mret (push_cancel (mkTimerCancel token DelayedAck) output)
  | ArmTimeWait => mret (push_timer (mkTimerRequest token TimeWaitExpired (tc_time_wait_ms (t_config st.1))) output)
  | ChallengeAck =>
    f ← flow_of key UnknownFlow;
    p ← emit key (mkControl (acceptable_seq (f_tcb f)) (recv_next (f_tcb f)) ACK (advertised_window (f_tcb f)));
    mret (push_outgoing p output)
  | ClosedAction => mret (push_event (EvClosed token) output)
  end.
Fixpoint render_loop (key : TcpFlowKey) (id : Z) (actions : list TcpAction) (output : TcpIngress) : TM TcpIngress :=
  match actions with
  | [] => mret output
  | a :: actions => output ← render_action key id a output; render_loop key id actions output
  end.
Definition render_actions (key : TcpFlowKey) (id : Z) (actions : list TcpAction) : TM TcpIngress := render_loop key id actions no_ingress.

(** ** Sending *)
Definition flush_amount (f : TcpFlow) (pending : PendingSend) : Z :=
  Z.min (Z.min (send_available (f_tcb f)) (f_max_send_segment_bytes f)) (len (ps_bytes pending)).

(** The pending write goes into a chunk as far as the windows have room, its rest
    stays pending. *)
Definition send_pending (now_ms persist_initial_ms amount : Z) (pending : PendingSend) (remainder_metadata : option BudgetLease)
    : FM (list TcpAction) :=
  _ ← on_flow (set_f_pending_send None);
  s ← get_state;
  let seq := send_next (f_tcb s.1) in
  r ← attempt (on_tcb (fun t => on_app_event t (AppSend amount)));
  match r with
  | inr e =>
    _ ← on_flow_ledger (modify (tcp_drop_leases ([ps_payload_lease pending; ps_metadata_lease pending] ++ opt_leases remainder_metadata)));
    throw e
  | inl actions =>
    _ ← on_flow (arm_rtt_probe (seq_add seq amount) now_ms);
    match split_off amount (ps_payload_lease pending) with
    | Ok (payload_lease, remainder_lease) =>
      _ ← on_flow (fun f => set_f_send
        (f_send f ++ [mkSendChunk seq (take (Z.to_nat amount) (ps_bytes pending)) payload_lease false false false (ps_metadata_lease pending)]) f);
      if amount <? len (ps_bytes pending) then
        match remainder_metadata with
        | None => lift Panic
        | Some lease =>
          _ ← on_flow (fun f => set_f_persist_backoff_ms persist_initial_ms
            (set_f_pending_send (Some (mkPendingSend (drop (Z.to_nat amount) (ps_bytes pending)) remainder_lease PersistReason lease)) f));
          mret actions
        end
      else
        _ ← on_flow_ledger (tcp_release remainder_lease);
        _ ← on_flow (set_f_persist_backoff_ms 0);
        mret actions
    | _ => lift Panic
    end
  end.

Definition persist_timer (t : TcpTable) (id after_ms : Z) : TcpTimerRequest := mkTimerRequest (tcp_token_of t id) Persist after_ms.

Definition flush_pending_send (key : TcpFlowKey) : TM TcpIngress :=
  f ← flow_of key TcpStaleToken;
  st ← get_state;
  match f_pending_send f with
  | None => mret no_ingress
  | Some pending =>
    if match ps_reason pending with NagleReason => negb (len (f_send f) =? 0) | PersistReason => false end then mret no_ingress
    else
      let amount := flush_amount f pending in
      if amount =? 0 then mret no_ingress
      else
        remainder ← (if amount <? len (ps_bytes pending)
                     then r ← attempt (charge (tcp_acquire budget MetadataBytes TCP_CHUNK_METADATA_CHARGE));
                          mret (match r with inl lease => inl (Some lease) | inr e => inr e end)
                     else mret (inl None));
        match remainder with
        | inr _ =>
          _ ← with_flow key TcpStaleToken (on_flow (set_f_persist_backoff_ms (tc_persist_initial_ms (t_config st.1))));
          mret (push_timer (persist_timer st.1 (f_id f) (tc_persist_initial_ms (t_config st.1))) no_ingress)
        | inl remainder_metadata =>
          actions ← with_flow key TcpStaleToken
            (send_pending (t_now_ms st.1) (tc_persist_initial_ms (t_config st.1)) amount pending remainder_metadata);
          output ← render_actions key (f_id f) actions;
          mret (if amount <? len (ps_bytes pending) then push_timer (persist_timer st.1 (f_id f) (tc_persist_initial_ms (t_config st.1))) output
                else match ps_reason pending with
                     | PersistReason => push_cancel (mkTimerCancel (tcp_token_of st.1 (f_id f)) Persist) output
                     | NagleReason => output
                     end)
        end
  end.

Definition append_resegmented (key : TcpFlowKey) (control : option SendControl) (actions : list TcpAction) (output : TcpIngress) : TM TcpIngress :=
  match control with
  | None => mret output
  | Some control =>
    let already_retransmitted := existsb is_retransmit actions in
    if negb already_retransmitted && (len (ig_outgoing output) =? 0) then
      p ← render_retransmit key control;
      mret (match p with Some p => push_outgoing p output | None => output end)
    else mret output
  end.

(** The chunk SACK recovery sends next: what goes out, and the flow after it. *)
Definition take_sack_segment (index : Z) (rescue : bool) : FM (SendControl * list Z) :=
  _ ← on_flow (set_f_rtt_probe None);
  _ ← (if rescue then on_flow (fun f => set_f_sack_recovery ((fun r => mkSackRecovery (sr_recovery_point r) (sr_recovery_point r)) <$> f_sack_recovery f) f)
       else mret tt);
  s ← get_state;
  match get (f_send s.1) index with
  | None => throw InvariantError
  | Some c =>
    let f := s.1 in
    let amount := Z.min (len (sd_bytes c)) (f_max_send_segment_bytes f) in
    let control := mkControl (sd_sequence c) (recv_next (f_tcb f)) ACK (advertised_window (f_tcb f)) in
    let c' := if rescue then c
              else mkSendChunk (sd_sequence c) (sd_bytes c) (sd_payload_lease c) (sd_sacked c) true (sd_resegment c) (sd_metadata_lease c) in
    _ ← on_flow (set_f_send (<[Z.to_nat index := c']> (f_send f)));
    mret (control, take (Z.to_nat amount) (sd_bytes c))
  end.
Fixpoint sack_recovery_loop (fuel : nat) (key : TcpFlowKey) (packet_limit : Z) (packets : list (list Z)) : TM (list (list Z)) :=
  match fuel with
  | O => lift OutOfFuel
  | S fuel =>
    if packet_limit <=? len packets then mret packets
    else
      f ← flow_of key UnknownFlow;
      match f_sack_recovery f with
      | None => mret packets
      | Some recovery =>
        if sat_sub (congestion_window (congestion (f_tcb f))) (sack_pipe f) <? f_max_send_segment_bytes f then mret packets
        else
          match next_sack_segment f recovery with
          | None => mret packets
          | Some (index, rescue) =>
            r ← with_flow key UnknownFlow (take_sack_segment index rescue);
            p ← emit_payload key r.1 r.2;
            sack_recovery_loop fuel key packet_limit (packets ++ [p])
          end
      end
  end.
(** Every turn marks a chunk, but for one rescue. *)
Definition render_sack_recovery (key : TcpFlowKey) (packet_limit : Z) : TM (list (list Z)) :=
  s ← get_state;
  let fuel := match t_by_key s.1 !! key with Some f => (length (f_send f) + 3)%nat | None => 1%nat end in
  sack_recovery_loop fuel key packet_limit [].

Definition arm_keepalive_if_active (key : TcpFlowKey) (output : TcpIngress) : TM TcpIngress :=
  st ← get_state;
  match tc_keepalive_idle_ms (t_config st.1) with
  | None => mret output
  | Some after_ms =>
    f ← flow_of key UnknownFlow;
    mret (if state_is (f_tcb f) Established || state_is (f_tcb f) CloseWait
          then push_timer (mkTimerRequest (tcp_token_of st.1 (f_id f)) Keepalive after_ms) output else output)
  end.

Definition arm_fin_wait2_if_orphaned (key : TcpFlowKey) (output : TcpIngress) : TM TcpIngress :=
  f ← flow_of key UnknownFlow;
  if f_orphaned f && negb (f_fin_wait2_armed f) && state_is (f_tcb f) FinWait2 then
    _ ← with_flow key UnknownFlow (on_flow (set_f_fin_wait2_armed true));
    st ← get_state;
    mret (push_timer (mkTimerRequest (tcp_token_of st.1 (f_id f)) FinWait2Timeout (tc_fin_wait2_timeout_ms (t_config st.1))) output)
  else mret output.

Definition waits_for_nagle (f : TcpFlow) : bool :=
  match f_pending_send f with Some p => match ps_reason p with NagleReason => true | PersistReason => false end | None => false end.
Definition make_persist (f : TcpFlow) : TcpFlow :=
  set_f_pending_send ((fun p => mkPendingSend (ps_bytes p) (ps_payload_lease p) PersistReason (ps_metadata_lease p)) <$> f_pending_send f) f.

(** A write Nagle held becomes one the closed window holds. *)
Definition promote_to_persist (key : TcpFlowKey) (id : Z) (output : TcpIngress) : TM TcpIngress :=
  st ← get_state;
  match t_by_key st.1 !! key with
  | Some f =>
    if (peer_window (f_tcb f) =? 0) && waits_for_nagle f then
      _ ← with_flow key UnknownFlow (on_flow (fun f => set_f_persist_backoff_ms (tc_persist_initial_ms (t_config st.1)) (make_persist f)));
      mret (push_timer (persist_timer st.1 id (tc_persist_initial_ms (t_config st.1))) output)
    else mret output
  | None => mret output
  end.
(** Nothing in flight would release what Nagle holds: the persist timer does. *)
Definition rescue_stranded (key : TcpFlowKey) (id : Z) (closed : bool) (output : TcpIngress) : TM TcpIngress :=
  st ← get_state;
  match t_by_key st.1 !! key with
  | Some f =>
    if negb closed && (len (f_send f) =? 0) && waits_for_nagle f then
      _ ← with_flow key UnknownFlow (on_flow (set_f_persist_backoff_ms (tc_persist_initial_ms (t_config st.1))));
      mret (push_timer (persist_timer st.1 id (tc_persist_initial_ms (t_config st.1))) output)
    else mret output
  | None => mret output
  end.

Definition truncate_outgoing (limit : Z) (o : TcpIngress) : TcpIngress :=
  mkIngress (take (Z.to_nat (Z.min limit (len (ig_outgoing o)))) (ig_outgoing o)) (ig_events o) (ig_timers o) (ig_cancelled_timers o).

Definition finish_existing_ingress (key : TcpFlowKey) (id : Z) (actions : list TcpAction) (resegment_control : option SendControl)
    (became_writable : bool) (outgoing_limit : Z) : TM TcpIngress :=
  _ ← (if bool_decide (Accepted ∈ actions)
       then on_tcp_table (fun t => set_t_syn_received_order (delete id (t_syn_received_order t)) t) else mret tt);
  let closed := bool_decide (ClosedAction ∈ actions) in
  let enters_time_wait := bool_decide (ArmTimeWait ∈ actions) in
  output ← render_actions key id actions;
  output ← append_resegmented key resegment_control actions output;
  let output := truncate_outgoing outgoing_limit output in
  packets ← render_sack_recovery key (sat_sub outgoing_limit (len (ig_outgoing output)));
  let output := mkIngress (ig_outgoing output ++ packets) (ig_events output) (ig_timers output) (ig_cancelled_timers output) in
  output ← promote_to_persist key id output;
  output ← (if negb closed && (len (ig_outgoing output) <? outgoing_limit)
            then pending ← flush_pending_send key; mret (merge_ingress output pending) else mret output);
  output ← rescue_stranded key id closed output;
  output ← (if negb closed && negb enters_time_wait
            then output ← arm_keepalive_if_active key output; arm_fin_wait2_if_orphaned key output else mret output);
  st ← get_state;
  let output := if became_writable && negb closed then push_event (EvWritable (tcp_token_of st.1 id)) output else output in
  if closed then _ ← remove key; mret output
  else if enters_time_wait && match t_by_key st.1 !! key with Some f => (len (f_receive f) =? 0) || f_orphaned f | None => false end
  then move_to_time_wait key id output
  else mret output.

(** ** Packets *)
Definition reset_for (s : TcpSegmentMeta) : SendControl :=
  match acknowledgment s with
  | Some a => mkControl a 0 RST 0
  | None => mkControl 0 (seq_add (sequence s) (segment_length s)) (union_flags RST ACK) 0
  end.
Definition reject_unknown (key : TcpFlowKey) (s : TcpSegmentMeta) (options : TcpOptions) : TM TcpIngress :=
  if contains (flags s) RST then mret no_ingress
  else
    allowed ← allow_with t_stateless_reset_limiter set_t_stateless_reset_limiter;
    if negb allowed then mret no_ingress
    else
      let control := reset_for s in
      p ← match timestamps options with
          | Some (value, _) => emit_with_options key control ([8; 10; 0; 0; 0; 0] ++ to_be32 value ++ [1; 1])
          | None => emit key control
          end;
      mret (push_outgoing p no_ingress).

Definition handle_accept_overflow (key : TcpFlowKey) (s : TcpSegmentMeta) (options : TcpOptions) : TM TcpIngress :=
  st ← get_state;
  match tc_accept_overflow_policy (t_config st.1) with
  | OverflowDrop => mret no_ingress
  | RejectWithReset =>
    f ← flow_of key UnknownFlow;
    output ← reject_unknown key s options;
    let output := push_cancel (mkTimerCancel (tcp_token_of st.1 (f_id f)) Retransmission) output in
    _ ← remove key;
    mret output
  end.

Definition handle_existing_timestamp (key : TcpFlowKey) (s : TcpSegmentMeta) (options : TcpOptions) : TM (option TcpIngress) :=
  f ← flow_of key UnknownFlow;
  st ← get_state;
  match validate_segment_timestamp f s options (t_now_ms st.1) with
  | TsAccept => mret None
  | TsDropSilently => mret (Some no_ingress)
  | TsRejectWithAck =>
    actions ← with_flow key UnknownFlow (on_tcb_total reject_unacceptable_segment);
    output ← render_actions key (f_id f) actions;
    mret (Some output)
  end.

Definition plan_leases (plan : option SackSplitPlan) : list BudgetLease := match plan with Some plan => sp_metadata plan | None => [] end.
Definition admission_leases (a : ReceiveAdmission) : list BudgetLease :=
  match ra_chunk a with Some c => [rc_metadata_lease c] | None => [] end ++ match ra_out_of_order a with Some c => [oc_metadata_lease c] | None => [] end.
(** A failing call drops what the caller holds. *)
Definition or_drop {A} (held : list BudgetLease) (m : FM A) : FM A :=
  r ← attempt m;
  match r with
  | inl a => mret a
  | inr e => _ ← on_flow_ledger (modify (tcp_drop_leases held)); throw e
  end.

(** What the control block makes of the segment it sees. *)
Definition see_segment (seen : TcpSegmentMeta) (pressure_dropped : bool) (held : list BudgetLease) : FM (list TcpAction) :=
  actions ← or_drop held (on_tcb (fun t => on_segment t seen));
  if pressure_dropped then answer_pressure_drop actions else mret actions.

(** What follows on the flow: the rest of [ingest_existing], from the limit on
    challenge ACKs to [release_acknowledged_send].  [original] is the segment as it
    came, [s] the trimmed one. *)
Definition take_admitted (now_ms : Z) (original s : TcpSegmentMeta) (options : TcpOptions) (admission : ReceiveAdmission)
    (payload_admissible pressure_dropped sender_feedback_admissible delivers_initial : bool) (sack_split_plan : option SackSplitPlan)
    (accept_lease : option BudgetLease) (old_recv_next old_send_unacked : SeqNumber) (actions : list TcpAction) : FM (list TcpAction) :=
  let sack_anchor := if payload_admissible && negb pressure_dropped && (0 <? payload_len original) then Some (sequence original) else None in
  _ ← on_flow (fun f => set_f_last_received_ms now_ms (set_f_keepalive_probes_sent 0 f));
  _ ← on_flow (record_ack_progress old_send_unacked options now_ms);
  _ ← on_flow (update_recent_timestamp s options old_recv_next now_ms);
  actions ← update_sender_sack sender_feedback_admissible sack_split_plan actions;
  _ ← apply_accept_lease accept_lease actions;
  _ ← or_drop (admission_leases admission) (promote_initial_receive delivers_initial);
  let delivered_current := ra_buffering admission && existsb (fun a => match a with DeliverPayload _ => true | _ => false end) actions in
  _ ← (if delivered_current
       then match ra_chunk admission with
            | Some chunk => on_flow (fun f => set_f_receive (f_receive f ++ [chunk]) f)
            | None => or_drop (admission_leases admission) (throw InvariantError)
            end
       else on_flow_ledger (modify (tcp_drop_leases (match ra_chunk admission with Some chunk => [rc_metadata_lease chunk] | None => [] end))));
  actions ← queue_out_of_order_and_promote (ra_out_of_order admission) (ra_out_of_order_fin admission) sack_anchor
              (delivered_current || delivers_initial) actions;
  _ ← release_acknowledged_send;
  mret actions.

Definition ingest_existing (key : TcpFlowKey) (s : TcpSegmentMeta) (options : TcpOptions) (payload : list Z) (outgoing_limit : Z) : TM TcpIngress :=
  early ← handle_existing_timestamp key s options;
  match early with
  | Some output => mret output
  | None =>
    f ← flow_of key UnknownFlow;
    let original := apply_peer_window_scale f s in
    let accepting := accepts_final_ack (f_tcb f) original in
    let '(s, payload, payload_admissible) := normalize_receive_segment f original payload accepting in
    let seen := state_segment f original s accepting in
    let had_send := negb (len (f_send f) =? 0) in
    let old_send_unacked := send_unacked (f_tcb f) in
    let old_send_available := send_available (f_tcb f) in
    feedback ← charge (prepare_sender_feedback budget f s (sack_blocks options));
    let delivers_initial := accepting && bool_decide (is_Some (f_pending_initial_receive f)) in
    accept ← (if accepting then r ← attempt (charge (tcp_acquire budget AcceptQueue 1)); mret (match r with inl x => inl (Some x) | inr e => inr e end)
              else mret (inl None));
    match accept with
    | inr _ => _ ← charge (modify (tcp_drop_leases (plan_leases feedback.2))); handle_accept_overflow key s options
    | inl accept_lease =>
      r ← attempt (charge (admit_or_strip budget f s seen payload payload_admissible accepting));
      match r with
      | inr e =>
        _ ← charge (modify (tcp_drop_leases (plan_leases feedback.2 ++ opt_leases accept_lease)));
        throw e
      | inl (s, seen, admission, pressure_dropped) =>
        actions ← with_flow key UnknownFlow
          (see_segment seen pressure_dropped (plan_leases feedback.2 ++ opt_leases accept_lease ++ admission_leases admission));
        st ← get_state;
        let '(limiter, actions) := apply_challenge_ack_limit (t_now_ms st.1) (t_challenge_ack_limiter st.1) actions in
        _ ← on_tcp_table (set_t_challenge_ack_limiter limiter);
        actions ← with_flow key UnknownFlow (take_admitted (t_now_ms st.1) original s options admission payload_admissible pressure_dropped
               feedback.1 delivers_initial feedback.2 accept_lease (recv_next (f_tcb f)) old_send_unacked actions);
        f' ← flow_of key UnknownFlow;
        finish_existing_ingress key (f_id f') actions (pending_resegment_control f' old_send_unacked)
          (flow_became_writable f' had_send old_send_unacked old_send_available) outgoing_limit
      end
    end
  end.

Definition ingest_syn_sent (key : TcpFlowKey) (s : TcpSegmentMeta) (options : TcpOptions) : TM TcpIngress :=
  st ← get_state;
  f ← flow_of key UnknownFlow;
  let answers_our_syn := match acknowledgment s with Some a => a =? send_next (f_tcb f) | None => true end in
  let settle (f : TcpFlow) : TcpFlow :=
    if contains (flags s) SYN && negb (contains (flags s) RST) && answers_our_syn then
      let f := set_f_peer_window_scale (window_scale options) (set_f_sack_permitted (sack_permitted options) f) in
      let f := match window_scale options with
               | None => set_f_tcb (withdraw_receive_window_scale (f_tcb f)) (set_f_local_window_scale 0 f)
               | Some _ => f
               end in
      let f := set_f_timestamp ((fun p => mkTimestampState p.1 (t_now_ms st.1)) <$> timestamps options) f in
      let f := set_f_max_send_segment_bytes
        (Z.min (local_mss st.1 (tk_source key)) (default (default_peer_mss (tk_source key)) (maximum_segment_size options))) f in
      match tc_link_mtu (t_config st.1) with Some mtu => (lower_flow_mtu (is_ipv4 (tk_source key)) mtu f).1 | None => f end
    else f in
  actions ← with_flow key UnknownFlow
    (_ ← on_flow settle;
     e ← get_state;
     actions ← on_tcb (fun t => on_segment t s);
     _ ← on_flow (record_ack_progress (send_unacked (f_tcb e.1)) options (t_now_ms st.1));
     mret actions);
  finish_existing_ingress key (f_id f) actions None false usize_max.

(** [try_acquire(..)?] while holding leases that the early return drops. *)
Definition acquire_holding (held : list BudgetLease) (r : request) : TM BudgetLease :=
  x ← attempt (charge (on (fun l => l) (fun l _ => l) TableBudget (try_acquire_within budget r)));
  match x with
  | inl lease => mret lease
  | inr e => _ ← charge (modify (tcp_drop_leases held)); throw e
  end.
Definition request_of (k : ResourceKind) (amount : Z) : request := mkRequest k amount usize_max.
Definition receive_request (t : TcpTable) : request := mkRequest TcpPayloadBytes (tc_receive_credit_bytes (t_config t)) (tcp_receive_ceiling budget).

Definition fresh_flow (t : TcpTable) (id : Z) (tcb : TcpTcb) (pending_initial_receive : option ReceiveChunk) (max_send_segment_bytes : Z)
    (sack_permitted : bool) (peer_window_scale : option Z) (local_window_scale timestamp_offset : Z) (timestamp : option TimestampState)
    (rtt_probe : option RttProbe) (syn_lease : option BudgetLease) (flow_lease metadata_lease receive_credit : BudgetLease) : TcpFlow :=
  mkTcpFlow id tcb [] pending_initial_receive [] None None [] None 0 0 false false 0 (t_now_ms t) max_send_segment_bytes sack_permitted
    peer_window_scale local_window_scale timestamp_offset timestamp rtt_probe None syn_lease None flow_lease metadata_lease receive_credit []
    (t_now_ms t) 0.

Definition ingest_new (key : TcpFlowKey) (s : TcpSegmentMeta) (options : TcpOptions) (payload : list Z) : TM TcpIngress :=
  st ← get_state;
  let t := st.1 in
  if negb (contains (flags s) SYN) || contains (flags s) ACK || contains (flags s) RST then throw (TableState InvalidSyn)
  else if tc_receive_credit_bytes (t_config t) <? len payload then throw (TableState ReceiveCreditExceeded)
  else
    flow_lease ← acquire_holding [] (request_of TcpFlows 1);
    syn_lease ← acquire_holding [flow_lease] (request_of SynReceivedFlows 1);
    metadata_lease ← acquire_holding [flow_lease; syn_lease] (request_of MetadataBytes TCP_FLOW_METADATA_CHARGE);
    receive_credit ← acquire_holding [flow_lease; syn_lease; metadata_lease] (receive_request t);
    let held := [flow_lease; syn_lease; metadata_lease; receive_credit] in
    pending_initial_receive ←
      (if negb (len payload =? 0)
       then lease ← acquire_holding held (request_of MetadataBytes TCP_CHUNK_METADATA_CHARGE); mret (Some (mkReceiveChunk payload 0 lease))
       else mret None);
    let id := t_next_flow_id t in
    let local_window_scale := match window_scale options with Some _ => window_scale_for (receive_window_ceiling t) | None => 0 end in
    match from_syn_with_options s (initial_sequence t key id) (tc_receive_credit_bytes (t_config t)) (local_mss t (tk_source key)) local_window_scale with
    | Ok (tcb, actions) =>
      let rtt_probe := mkRttProbe (send_next tcb) (t_now_ms t)
        ((fun _ => timestamp_value (t_now_ms t) (timestamp_offset key)) <$> timestamps options) in
      let f := fresh_flow t id tcb pending_initial_receive (passive_segment_bytes t key options) (sack_permitted options) (window_scale options)
        local_window_scale (timestamp_offset key) ((fun p => mkTimestampState p.1 (t_now_ms t)) <$> timestamps options) (Some rtt_probe)
        (Some syn_lease) flow_lease metadata_lease receive_credit in
      _ ← on_tcp_table (fun t =>
        set_t_syn_received_order (<[id := (key, t_now_ms t)]> (t_syn_received_order t))
          (set_t_by_id (<[id := key]> (t_by_id t))
             (set_t_by_key (<[key := f]> (t_by_key t)) (set_t_next_flow_id (wrap64 (id + 1)) t))));
      render_actions key id actions
    | Err e =>
      _ ← charge (modify (tcp_drop_leases (held ++ match pending_initial_receive with Some c => [rc_metadata_lease c] | None => [] end)));
      throw (TableState e)
    | Panic => lift Panic
    | OutOfFuel => lift OutOfFuel
    end.

Definition ingest_with_policy_at_limit (packet : list Z) (allow_new : bool) (now_ms outgoing_limit : Z) : TM TcpIngress :=
  _ ← update_clock now_ms;
  ip ← tcp_wire (parse_ip_packet le packet true);
  segment ← tcp_wire (parse_tcp_segment le ip true);
  let source := tcp_source segment in
  let destination := tcp_destination segment in
  if negb (valid_flow_source (sa_ip source)) || negb (valid_flow_destination (sa_ip destination)) then mret no_ingress
  else
    st ← get_state;
    let t := st.1 in
    let key := mkTcpFlowKey source destination (t_generation t) in
    match t_by_key t !! key with
    | Some f =>
      if state_is (f_tcb f) SynSent then ingest_syn_sent key (tcp_meta segment) (tcp_options segment)
      else ingest_existing key (tcp_meta segment) (tcp_options segment) (tcp_payload segment) outgoing_limit
    | None =>
      if bool_decide (is_Some (t_time_wait t !! key)) && negb (time_wait_yields_to t key (tcp_meta segment) (tcp_options segment))
      then ingest_time_wait key (tcp_meta segment)
      else if is_initial_syn (tcp_meta segment) then
        if negb allow_new then throw TcpNewFlowsDisabled
        else
          allowed ← allow_with t_syn_limiter set_t_syn_limiter;
          if negb allowed then mret no_ingress
          else
            output ← ingest_new key (tcp_meta segment) (tcp_options segment) (tcp_payload segment);
            ended ← end_time_wait key;
            mret (match ended with Some c => push_cancel c (push_event (EvClosed (tx_token c)) output) | None => output end)
      else reject_unknown key (tcp_meta segment) (tcp_options segment)
    end.
Definition ingest_with_policy_at (packet : list Z) (allow_new : bool) (now_ms : Z) : TM TcpIngress :=
  ingest_with_policy_at_limit packet allow_new now_ms usize_max.
Definition tcp_ingest_with_policy (packet : list Z) (allow_new : bool) : TM TcpIngress :=
  st ← get_state; ingest_with_policy_at packet allow_new (t_now_ms st.1).
Definition tcp_ingest (packet : list Z) : TM TcpIngress := st ← get_state; ingest_with_policy_at packet true (t_now_ms st.1).

(** ** Connections of our own *)
Definition tcp_ephemeral_local (t : TcpTable) (local remote : SocketAddr) (usable : SocketAddr -> bool) : outcome TcpTableError SocketAddr :=
  let start := hash_port (remote, sa_ip local, t_next_flow_id t) in
  let candidate offset := mkSocketAddr (sa_ip local) (EPHEMERAL_FIRST + wrap64 (start + offset) mod EPHEMERAL_SPAN) in
  let free c :=
    let key := mkTcpFlowKey remote c (t_generation t) in
    negb (bool_decide (is_Some (t_by_key t !! key))) && negb (bool_decide (is_Some (t_time_wait t !! key))) && usable c in
  ok_or (find free (map candidate (seqZ 0 EPHEMERAL_SPAN))) TcpAddressInUse.

Definition connect_using (local remote : SocketAddr) (usable : SocketAddr -> bool) : TM (TcpFlowToken * TcpIngress) :=
  st ← get_state;
  let t := st.1 in
  if negb (eqb (is_ipv4 local) (is_ipv4 remote)) || (sa_port remote =? 0) ||
     negb (valid_flow_source (sa_ip remote)) || negb (valid_flow_destination (sa_ip local))
  then throw TcpInvalidAddress
  else
    local ← lift (if sa_port local =? 0 then tcp_ephemeral_local t local remote usable else Ok local);
    let key := mkTcpFlowKey remote local (t_generation t) in
    if bool_decide (is_Some (t_by_key t !! key)) || bool_decide (is_Some (t_time_wait t !! key)) then throw TcpAddressInUse
    else
      flow_lease ← acquire_holding [] (request_of TcpFlows 1);
      metadata_lease ← acquire_holding [flow_lease] (request_of MetadataBytes TCP_FLOW_METADATA_CHARGE);
      receive_credit ← acquire_holding [flow_lease; metadata_lease] (receive_request t);
      let id := t_next_flow_id t in
      let local_window_scale := window_scale_for (receive_window_ceiling t) in
      r ← on (fun _ => tt) (fun _ s => s) TableState
            (fun u => (u, TcpTcb.connect (initial_sequence t key id) (tc_receive_credit_bytes (t_config t)) (local_mss t remote) local_window_scale));
      let f := fresh_flow t id r.1 None (Z.min (local_mss t remote) (default_peer_mss remote)) false None local_window_scale
        (timestamp_offset key) None (Some (mkRttProbe (send_next r.1) (t_now_ms t) None)) None flow_lease metadata_lease receive_credit in
      _ ← on_tcp_table (fun t =>
        set_t_by_id (<[id := key]> (t_by_id t)) (set_t_by_key (<[key := f]> (t_by_key t)) (set_t_next_flow_id (wrap64 (id + 1)) t)));
      output ← render_actions key id r.2;
      mret (tcp_token_of t id, output).
Definition tcp_connect (local remote : SocketAddr) : TM (TcpFlowToken * TcpIngress) := connect_using local remote (fun _ => true).

(** ** The application *)
Definition accept (token : TcpFlowToken) : TM TcpConnection :=
  key ← key_for token;
  f ← flow_of key TcpStaleToken;
  match f_accept_lease f with
  | None => throw TcpStaleToken
  | Some lease =>
    _ ← with_flow key TcpStaleToken (on_flow (set_f_accept_lease None));
    _ ← charge (tcp_release lease);
    mret (mkTcpConnection token (tk_source key) (tk_destination key) (f_max_send_segment_bytes f))
  end.

Definition reclaim_stale_syn_received (now_ms older_than_ms : Z) : TM (option TcpFlowToken) :=
  st ← get_state;
  match first_entry (t_syn_received_order st.1) with
  | None => mret None
  | Some (id, (key, created_ms)) =>
    if sat_sub now_ms created_ms <? older_than_ms then mret None
    else
      _ ← on_tcp_table (fun t => set_t_syn_received_order (delete id (t_syn_received_order t)) t);
      _ ← remove key;
      mret (Some (tcp_token_of st.1 id))
  end.

(** The bytes leave the front of the receive queue. *)
Fixpoint read_loop (receive : list ReceiveChunk) (amount : Z) (bytes : list Z) : FM (list Z) :=
  if amount <=? len bytes then mret bytes
  else
    match receive with
    | [] => throw InvariantError
    | chunk :: receive =>
      let take_ := Z.min (amount - len bytes) (len (rc_bytes chunk) - rc_offset chunk) in
      let bytes := bytes ++ sub (rc_bytes chunk) (rc_offset chunk) (rc_offset chunk + take_) in
      let offset := rc_offset chunk + take_ in
      if offset =? len (rc_bytes chunk) then
        _ ← on_flow (set_f_receive receive);
        _ ← on_flow_ledger (tcp_release (rc_metadata_lease chunk));
        read_loop receive amount bytes
      else
        _ ← on_flow (set_f_receive (mkReceiveChunk (rc_bytes chunk) offset (rc_metadata_lease chunk) :: receive));
        mret bytes
    end.

Definition read_flow (max_bytes now_ms : Z) (max_credit : option Z) : FM (list Z * list TcpAction) :=
  s ← get_state;
  let amount := Z.min max_bytes (recv_buffered (f_tcb s.1)) in
  bytes ← read_loop (f_receive s.1) amount [];
  _ ← grow_receive_window budget amount now_ms max_credit;
  actions ← on_tcb (fun t => on_app_event t (Consumed amount));
  mret (bytes, actions).

Definition tcp_read (token : TcpFlowToken) (max_bytes : Z) : TM TcpRead :=
  key ← key_for token;
  if max_bytes =? 0 then mret (mkTcpRead [] [] [] [])
  else
    st ← get_state;
    match t_by_key st.1 !! key with
    | None => if bool_decide (is_Some (t_time_wait st.1 !! key)) then mret (mkTcpRead [] [] [] []) else throw TcpStaleToken
    | Some f =>
      r ← with_flow key TcpStaleToken (read_flow max_bytes (t_now_ms st.1) (tc_max_receive_credit_bytes (t_config st.1)));
      rendered ← render_actions key (f_id f) r.2;
      mret (mkTcpRead r.1 (ig_outgoing rendered) (ig_timers rendered) (ig_cancelled_timers rendered))
    end.

(** The write goes out at once. *)
Definition send_now (now_ms : Z) (bytes : list Z) (payload_lease metadata_lease : BudgetLease) : FM (list TcpAction) :=
  s ← get_state;
  let seq := send_next (f_tcb s.1) in
  actions ← or_drop [payload_lease; metadata_lease] (on_tcb (fun t => on_app_event t (AppSend (len bytes))));
  _ ← on_flow (arm_rtt_probe (seq_add seq (len bytes)) now_ms);
  _ ← on_flow (fun f => set_f_send (f_send f ++ [mkSendChunk seq bytes payload_lease false false false metadata_lease]) f);
  mret actions.

Definition tcp_write (token : TcpFlowToken) (payload : list Z) : TM TcpIngress :=
  key ← key_for token;
  if len payload =? 0 then mret no_ingress
  else
    f ← flow_of key TcpStaleToken;
    if f_max_send_segment_bytes f <? len payload then throw PayloadTooLarge
    else if bool_decide (is_Some (f_accept_lease f)) then throw NotAccepted
    else if negb (state_is (f_tcb f) Established || state_is (f_tcb f) CloseWait) then throw (TableState InvalidSendState)
    else if bool_decide (is_Some (f_pending_send f)) then throw (TableState SendWindowExceeded)
    else
      payload_lease ← acquire_holding [] (request_of TcpPayloadBytes (len payload));
      metadata_lease ← acquire_holding [payload_lease] (request_of MetadataBytes TCP_CHUNK_METADATA_CHARGE);
      st ← get_state;
      let hold reason := set_f_pending_send (Some (mkPendingSend payload payload_lease reason metadata_lease)) in
      if peer_window (f_tcb f) =? 0 then
        _ ← with_flow key TcpStaleToken
          (on_flow (fun f => set_f_persist_backoff_ms (tc_persist_initial_ms (t_config st.1)) (hold PersistReason f)));
        mret (push_timer (persist_timer st.1 (f_id f) (tc_persist_initial_ms (t_config st.1))) no_ingress)
      else if tc_nagle_enabled (t_config st.1) && negb (len (f_send f) =? 0) && (len payload <? f_max_send_segment_bytes f) then
        _ ← with_flow key TcpStaleToken (on_flow (hold NagleReason));
        mret no_ingress
      else
        actions ← with_flow key TcpStaleToken (send_now (t_now_ms st.1) payload payload_lease metadata_lease);
        render_actions key (f_id f) actions.

Definition apply_app_event (token : TcpFlowToken) (event : AppEvent) : TM TcpIngress :=
  key ← key_for token;
  f ← flow_of key TcpStaleToken;
  actions ← with_flow key TcpStaleToken (on_tcb (fun t => on_app_event t event));
  output ← render_actions key (f_id f) actions;
  _ ← (if bool_decide (ClosedAction ∈ actions) then remove key else mret tt);
  mret output.

Definition tcp_close (token : TcpFlowToken) : TM TcpIngress :=
  key ← key_for token;
  f ← flow_of key TcpStaleToken;
  if bool_decide (is_Some (f_pending_send f)) then throw (TableState SendOutstanding) else apply_app_event token Close.

Definition release_flow (token : TcpFlowToken) : TM TcpIngress :=
  key ← key_for token;
  st ← get_state;
  match t_by_key st.1 !! key with
  | None => mret no_ingress
  | Some f =>
    _ ← with_flow key TcpStaleToken (on_flow (set_f_orphaned true));
    if state_is (f_tcb f) TimeWait then move_to_time_wait key (f_id f) no_ingress
    else arm_fin_wait2_if_orphaned key no_ingress
  end.

Definition abort (token : TcpFlowToken) : TM TcpIngress := apply_app_event token Abort.

Fixpoint abort_loop (ids : list Z) (wires : list (list Z)) : TM (list (list Z)) :=
  match ids with
  | [] => mret wires
  | id :: ids =>
    st ← get_state;
    r ← attempt (abort (tcp_token_of st.1 id));
    abort_loop ids (match r with inl output => wires ++ ig_outgoing output | inr _ => wires end)
  end.
Definition abort_all : TM (list (list Z)) :=
  st ← get_state;
  abort_loop (omap (fun key => f_id <$> t_by_key st.1 !! key) (iter (t_by_key st.1))) [].

Definition write_limit (token : TcpFlowToken) : TM Z := key ← key_for token; f ← flow_of key TcpStaleToken; mret (f_max_send_segment_bytes f).
Definition tcp_write_capacity (token : TcpFlowToken) : TM Z :=
  key ← key_for token;
  f ← flow_of key TcpStaleToken;
  st ← get_state;
  if bool_decide (is_Some (f_pending_send f)) then mret 0
  else
    let capacity := if (peer_window (f_tcb f) =? 0) || (tc_nagle_enabled (t_config st.1) && negb (len (f_send f) =? 0))
                    then f_max_send_segment_bytes f else send_available (f_tcb f) in
    mret (match tc_max_send_buffer_bytes (t_config st.1) with
          | Some max => Z.min capacity (sat_sub max (send_buffered_bytes f))
          | None => capacity
          end).
Definition packet_len (token : TcpFlowToken) (payload_len : Z) : TM Z :=
  key ← key_for token;
  f ← flow_of key TcpStaleToken;
  st ← get_state;
  if f_max_send_segment_bytes f <? payload_len then throw PayloadTooLarge
  else
    let header_len := (if is_ipv4 (tk_source key) then 40 else 60) + match segment_options st.1 key with Some options => len options | None => 0 end in
    match checked_add header_len payload_len with Some n => mret n | None => throw PayloadTooLarge end.

(** ** Timers *)
Definition on_persist_timer (key : TcpFlowKey) : TM TcpIngress :=
  f ← flow_of key TcpStaleToken;
  st ← get_state;
  match f_pending_send f with
  | None => mret no_ingress
  | Some pending =>
    if 0 <? send_available (f_tcb f) then flush_pending_send key
    else
      let next_backoff := Z.min (sat_mul (f_persist_backoff_ms f) 2) (tc_persist_max_ms (t_config st.1)) in
      let control := mkControl (send_next (f_tcb f)) (recv_next (f_tcb f)) ACK (advertised_window (f_tcb f)) in
      probe ← (if peer_window (f_tcb f) =? 0 then b ← lift (idx (ps_bytes pending) 0); mret (Some b) else mret None);
      _ ← with_flow key TcpStaleToken (on_flow (set_f_persist_backoff_ms next_backoff));
      let output := push_timer (persist_timer st.1 (f_id f) next_backoff) no_ingress in
      match probe with
      | Some byte => p ← emit_payload key control [byte]; mret (push_outgoing p output)
      | None => mret output
      end
  end.

Definition on_keepalive_timer (key : TcpFlowKey) : TM TcpIngress :=
  st ← get_state;
  match tc_keepalive_idle_ms (t_config st.1) with
  | None => mret no_ingress
  | Some idle_ms =>
    f ← flow_of key TcpStaleToken;
    let token := tcp_token_of st.1 (f_id f) in
    if negb (state_is (f_tcb f) Established || state_is (f_tcb f) CloseWait) then mret no_ingress
    else if negb (len (f_send f) =? 0) || bool_decide (is_Some (f_pending_send f))
    then mret (push_timer (mkTimerRequest token Keepalive idle_ms) no_ingress)
    else if tc_keepalive_max_probes (t_config st.1) <=? f_keepalive_probes_sent f
    then _ ← remove key; mret (push_event (EvClosed token) no_ingress)
    else
      let control := mkControl (wrap32 (send_next (f_tcb f) - 1)) (recv_next (f_tcb f)) ACK (advertised_window (f_tcb f)) in
      p ← emit key control;
      _ ← with_flow key TcpStaleToken (on_flow (fun f => set_f_keepalive_probes_sent (Z.min (f_keepalive_probes_sent f + 1) u8_max) f));
      mret (push_timer (mkTimerRequest token Keepalive (tc_keepalive_interval_ms (t_config st.1))) (push_outgoing p no_ingress))
  end.

(** The scoreboard starts over when the timer fires. *)
Definition forget_sack (c : SendChunk) : SendChunk :=
  mkSendChunk (sd_sequence c) (sd_bytes c) (sd_payload_lease c) false false (sd_resegment c) (sd_metadata_lease c).

(** The flow as the retransmission timer leaves it for the control block. *)
Definition before_retransmission (config : TcpTableConfig) (ipv4 : bool) (f : TcpFlow) : TcpFlow :=
  let f := if probes_shut_window f then f
           else set_f_retransmission_timeouts (Z.min (f_retransmission_timeouts f + 1) u8_max) f in
  let f := set_f_rtt_probe None f in
  let fallback_mtu := if ipv4 then IPV4_BLACK_HOLE_FALLBACK_MTU else IPV6_BLACK_HOLE_FALLBACK_MTU in
  let f := if match tc_black_hole_rto_threshold config with Some n => n <=? f_retransmission_timeouts f | None => false end &&
              negb (len (f_send f) =? 0)
           then (lower_flow_mtu ipv4 fallback_mtu f).1 else f in
  set_f_sack_recovery None (set_f_send (forget_sack <$> f_send f) f).

Definition protocol_timer (key : TcpFlowKey) (id : Z) (event : TimerEvent) : TM TcpIngress :=
  actions ← with_flow key TcpStaleToken (on_tcb (fun t => on_timer t event));
  output ← render_actions key id actions;
  _ ← (if bool_decide (ClosedAction ∈ actions) then remove key else mret tt);
  mret output.

Definition on_timer_at (token : TcpFlowToken) (event : TimerEvent) (now_ms : Z) : TM TcpIngress :=
  _ ← update_clock now_ms;
  key ← key_for token;
  st ← get_state;
  match t_time_wait st.1 !! key with
  | Some entry =>
    if negb (bool_decide (event = TimeWaitExpired)) then mret no_ingress
    else
      _ ← modify (fun s =>
        (set_t_by_id (delete (tt_flow token) (t_by_id s.1))
           (set_t_time_wait_order (delete (tw_id entry) (t_time_wait_order s.1)) (set_t_time_wait (delete key (t_time_wait s.1)) s.1)),
         tcp_drop_leases [tw_slot_lease entry; tw_metadata_lease entry] s.2));
      mret (push_event (EvClosed token) no_ingress)
  | None =>
    match event with
    | Persist => on_persist_timer key
    | Keepalive => on_keepalive_timer key
    | FinWait2Timeout =>
      f ← flow_of key TcpStaleToken;
      if negb (f_orphaned f && state_is (f_tcb f) FinWait2) then mret no_ingress
      else _ ← remove key; mret (push_event (EvClosed token) no_ingress)
    | Retransmission =>
      f ← flow_of key TcpStaleToken;
      if send_unacked (f_tcb f) =? send_next (f_tcb f) then mret no_ingress
      else
        let gave_up := if probes_shut_window f then SHUT_WINDOW_SILENCE_MS <? sat_sub (t_now_ms st.1) (f_last_received_ms f)
                       else tc_max_retransmission_timeouts (t_config st.1) <=? f_retransmission_timeouts f in
        if gave_up then _ ← remove key; mret (push_event (EvClosed token) no_ingress)
        else
          _ ← with_flow key TcpStaleToken (on_flow (before_retransmission (t_config st.1) (is_ipv4 (tk_source key))));
          protocol_timer key (f_id f) event
    | DelayedAck | TimeWaitExpired => f ← flow_of key TcpStaleToken; protocol_timer key (f_id f) event
    end
  end.
Definition tcp_on_timer (token : TcpFlowToken) (event : TimerEvent) : TM TcpIngress :=
  st ← get_state; on_timer_at token event (t_now_ms st.1).

(** ** The network *)
Definition tcp_reset_network (generation : Z) : TM unit := modify (fun s =>
  let t := s.1 in
  (set_t_stateless_reset_limiter (limiter_reset (t_stateless_reset_limiter t))
     (set_t_challenge_ack_limiter (limiter_reset (t_challenge_ack_limiter t))
        (set_t_defensive_ack_limiter (limiter_reset (t_defensive_ack_limiter t))
           (set_t_syn_limiter (limiter_reset (t_syn_limiter t))
              (set_t_syn_received_order ∅ (set_t_by_id ∅ (set_t_time_wait_order ∅ (set_t_time_wait ∅ (set_t_by_key ∅ (set_t_generation generation t))))))))),
   let l := foldr (fun p l => tcp_drop_leases (tcp_flow_leases p.2) l) s.2 (map_to_list (t_by_key t)) in
   foldr (fun p l => tcp_drop_leases [tw_slot_lease p.2; tw_metadata_lease p.2] l) l (map_to_list (t_time_wait t)))).

Definition has_quoted_flow (t : TcpTable) (quoted_source quoted_destination : SocketAddr) : bool :=
  bool_decide (is_Some (t_by_key t !! mkTcpFlowKey quoted_destination quoted_source (t_generation t))).
Definition lower_path_mtu (quoted_source quoted_destination : SocketAddr) (path_mtu : Z) : TM bool :=
  st ← get_state;
  let key := mkTcpFlowKey quoted_destination quoted_source (t_generation st.1) in
  match t_by_key st.1 !! key with
  | None => mret false
  | Some f =>
    let r := lower_flow_mtu (is_ipv4 (tk_source key)) path_mtu f in
    _ ← on_tcp_table (fun t => set_t_by_key (<[key := r.1]> (t_by_key t)) t);
    mret r.2
  end.
(** The flows, and how many of them changed. *)
Definition lower_platform_mtu (mtu : Z) : TM Z :=
  st ← get_state;
  let lower key f := lower_flow_mtu (is_ipv4 (tk_source key)) mtu f in
  _ ← on_tcp_table (fun t => set_t_by_key (map_imap (fun key f => Some (lower key f).1) (t_by_key t)) t);
  mret (foldr Z.add 0 ((fun p => b2z (lower p.1 p.2).2) <$> map_to_list (t_by_key st.1))).

(** ** The start *)
(** [new_on_shard]'s assertions. *)
Definition config_valid (c : TcpTableConfig) : bool :=
  (0 <? tc_receive_credit_bytes c) &&
  match tc_max_receive_credit_bytes c with Some max => tc_receive_credit_bytes c <=? max | None => true end &&
  negb (bool_decide (tc_max_send_buffer_bytes c = Some 0)) && (0 <? tc_max_segment_payload_bytes c) && (0 <? tc_time_wait_ms c) &&
  (0 <? tc_fin_wait2_timeout_ms c) && (0 <? tc_delayed_ack_ms c) && (0 <? tc_persist_initial_ms c) && (tc_persist_initial_ms c <=? tc_persist_max_ms c) &&
  negb (bool_decide (tc_keepalive_idle_ms c = Some 0)) && (0 <? tc_keepalive_interval_ms c) && (0 <? tc_keepalive_max_probes c) &&
  (0 <? tc_max_retransmission_timeouts c) && negb (bool_decide (tc_black_hole_rto_threshold c = Some 0)) &&
  (0 <? tc_syn_burst c) && (0 <? tc_syn_refill_ms c) && (0 <? tc_defensive_ack_burst c) && (0 <? tc_defensive_ack_refill_ms c) &&
  (0 <? tc_challenge_ack_burst c) && (0 <? tc_challenge_ack_refill_ms c) && (0 <? tc_stateless_reset_burst c) && (0 <? tc_stateless_reset_refill_ms c).
Definition tcp_new_on_shard (generation shard : Z) (c : TcpTableConfig) : outcome TcpTableError TcpTable :=
  if negb (config_valid c) then Panic
  else Ok (mkTcpTable generation shard c 0 0 0 ∅ ∅ ∅ ∅ ∅ (limiter_new (tc_syn_burst c) (tc_syn_refill_ms c))
    (limiter_new (tc_defensive_ack_burst c) (tc_defensive_ack_refill_ms c)) (limiter_new (tc_challenge_ack_burst c) (tc_challenge_ack_refill_ms c))
    (limiter_new (tc_stateless_reset_burst c) (tc_stateless_reset_refill_ms c))).
End Table.
