(* ===== verification/TcpScoreboard.v ===== *)
(** The SACK scoreboard of [sail-netstack/src/tcp/table.rs] against RFC 6675: the
    pass from the end of the send queue finds exactly the chunks [IsLost] holds of,
    and its pipe is the RFC's. *)
From S2P Require Import Prelude TcpSeq TcpFlow.
From stdpp Require Import list sets.
#[local] Open Scope Z_scope.

(** ** Filters on the elements of a list *)
Section Filters.
Context {A : Type} (P Q : A -> Prop) `{!forall x, Decision (P x), !forall x, Decision (Q x)}.

Lemma filter_ext_in (l : list A) : (forall x, x ∈ l -> P x <-> Q x) -> filter P l = filter Q l.
Proof.
  induction l as [|x l IH]; intros E; [done|]. rewrite !filter_cons, IH by set_solver. pose proof (E x (list_elem_of_here _ _)) as Ex. repeat case_decide; tauto || done.
Qed.
Lemma filter_none (l : list A) : (forall x, x ∈ l -> ~ P x) -> filter P l = [].
Proof. induction l as [|x l IH]; intros E; [done|]. rewrite filter_cons, IH by set_solver. rewrite decide_False; [done|]. apply E. set_solver. Qed.
End Filters.

(** ** The send queue *)
Definition queue_bytes (chunks : list SendChunk) : Z := foldr Z.add 0 ((fun c => len (sd_bytes c)) <$> chunks).

(** Chunks in sequence order without gaps, from [start], none empty. *)
Fixpoint contiguous (start : SeqNumber) (chunks : list SendChunk) : Prop :=
  match chunks with
  | [] => True
  | c :: chunks => sd_sequence c = start /\ 0 < len (sd_bytes c) /\ contiguous (sd_end c) chunks
  end.

Lemma queue_bytes_nonneg cs : 0 <= queue_bytes cs.
Proof. unfold queue_bytes. induction cs as [|c cs IH]; cbn; [done|]. pose proof (len_nonneg (sd_bytes c)). lia. Qed.

Lemma queue_bytes_cons c cs : queue_bytes (c :: cs) = len (sd_bytes c) + queue_bytes cs.
Proof. done. Qed.

Lemma queue_bytes_app cs ds : queue_bytes (cs ++ ds) = queue_bytes cs + queue_bytes ds.
Proof. induction cs as [|c cs IH]; [done|]. cbn [app]. rewrite !queue_bytes_cons. lia. Qed.

Ltac queue_bytes := change (queue_bytes []) with 0 in *; repeat rewrite queue_bytes_app in *; repeat rewrite queue_bytes_cons in *; change (queue_bytes []) with 0 in *.

Lemma contiguous_app start cs ds : is_seq start ->
  contiguous start (cs ++ ds) <-> contiguous start cs /\ contiguous (seq_add start (queue_bytes cs)) ds.
Proof.
  revert start. induction cs as [|c cs IH]; intros start Hs; cbn [app contiguous].
  - change (queue_bytes []) with 0. rewrite (seq_add_plain start 0) by lia. unfold wrap32. rewrite Z.add_0_r, Z.mod_small by exact Hs. tauto.
  - rewrite queue_bytes_cons, IH by apply seq_add_range.
    assert (forall n, sd_sequence c = start -> seq_add (sd_end c) n = seq_add start (len (sd_bytes c) + n)) as E.
    { intros n <-. unfold sd_end, seq_add, wrap32. rewrite !Zplus_mod_idemp_r, Zplus_mod_idemp_l. f_equal. lia. }
    split; [intros (? & ? & ? & C)|intros [(? & ? & ?) C]]; rewrite E in * by done; tauto.
Qed.

Lemma before_at start x y : is_seq start -> 0 <= x < 2147483648 -> 0 <= y < 2147483648 -> before (seq_add start x) (seq_add start y) = (x <? y).
Proof. intros. by apply seq_compare_window. Qed.

(** Where the chunks lie, as offsets from the start of the queue. *)
Lemma contiguous_offsets start cs ds c es : is_seq start -> contiguous start (cs ++ ds ++ c :: es) -> queue_bytes (cs ++ ds ++ c :: es) < 2147483648 ->
  sd_sequence c = seq_add start (queue_bytes cs + queue_bytes ds) /\ sd_end c = seq_add start (queue_bytes cs + queue_bytes ds + len (sd_bytes c)).
Proof.
  intros Hs C B. rewrite app_assoc in C. apply contiguous_app in C as [_ C]; [|done]. destruct C as (E & _). rewrite queue_bytes_app in E.
  split; [done|]. unfold sd_end. rewrite E, !queue_bytes_app, queue_bytes_cons in *.
  pose proof (queue_bytes_nonneg cs). pose proof (queue_bytes_nonneg ds). pose proof (queue_bytes_nonneg es). pose proof (len_nonneg (sd_bytes c)).
  apply seq_add_add; lia.
Qed.

(** ** RFC 6675, chunk by chunk

    The threshold is the one of the source: at least three chunks, or at least three
    segments' bytes.  (The RFC asks for more than two segments' bytes.) *)
(** What is selectively acknowledged above the chunk: its chunks and their bytes. *)
Definition sacked_above (chunks : list SendChunk) (c : SendChunk) : list SendChunk :=
  filter (fun d => sd_sacked d = true /\ before (sd_sequence d) (sd_end c) = false) chunks.
Definition is_lost (chunks : list SendChunk) (max_segment : Z) (c : SendChunk) : bool :=
  (3 <=? len (sacked_above chunks c)) || (sat_mul max_segment 3 <=? queue_bytes (sacked_above chunks c)).
(** [SetPipe]: what was sent and is neither acknowledged nor lost, and what was sent
    again. *)
Definition rfc_pipe (chunks : list SendChunk) (max_segment : Z) : Z :=
  foldr Z.add 0 ((fun c => (if is_lost chunks max_segment c then 0 else len (sd_bytes c)) + (if sd_retransmitted c then len (sd_bytes c) else 0))
    <$> filter (fun c => sd_sacked c = false) chunks).

Definition only_sacked (chunks : list SendChunk) : list SendChunk := filter (fun c => sd_sacked c = true) chunks.

(** Of a queue without gaps, what is above a chunk is what comes after it. *)
Lemma sacked_above_after start cs c ds : is_seq start -> contiguous start (cs ++ c :: ds) -> queue_bytes (cs ++ c :: ds) < 2147483648 ->
  sacked_above (cs ++ c :: ds) c = only_sacked ds.
Proof.
  intros Hs C B. destruct (contiguous_offsets start [] cs c ds Hs C B) as [Ec Ee]. change (queue_bytes []) with 0 in *. rewrite Z.add_0_l in *.
  assert (0 <= queue_bytes cs) by apply queue_bytes_nonneg. assert (0 <= queue_bytes ds) by apply queue_bytes_nonneg.
  assert (0 < len (sd_bytes c)) as Hc by (apply contiguous_app in C as [_ (_ & ? & _)]; done).
  assert (queue_bytes (cs ++ c :: ds) = queue_bytes cs + len (sd_bytes c) + queue_bytes ds) as Eb by (rewrite queue_bytes_app, queue_bytes_cons; lia).
  unfold sacked_above. rewrite filter_app, filter_cons.
  assert (filter (fun d => sd_sacked d = true /\ before (sd_sequence d) (sd_end c) = false) cs = []) as ->.
  { apply filter_none. intros d (l1 & l2 & ->)%list_elem_of_split [_ Hd].
    rewrite <- app_assoc in C, B. destruct (contiguous_offsets start [] l1 d (l2 ++ c :: ds) Hs C B) as [Ed _]. rewrite Ed, Ee in Hd.
    queue_bytes. pose proof (queue_bytes_nonneg l1). pose proof (queue_bytes_nonneg l2). pose proof (len_nonneg (sd_bytes d)).
    rewrite before_at in Hd by (done || lia). lia. }
  rewrite decide_False; [|intros [_ Hd]; rewrite Ec, Ee, before_at in Hd by (done || lia); lia].
  cbn [app]. apply filter_ext_in. intros d (l1 & l2 & ->)%list_elem_of_split. split; [tauto|]. intros Sd. split; [done|].
  change (c :: l1 ++ d :: l2) with ([c] ++ l1 ++ d :: l2) in *. rewrite app_assoc in C, B, Eb.
  destruct (contiguous_offsets start (cs ++ [c]) l1 d l2 Hs C B) as [Ed _]. rewrite Ed, Ee.
  queue_bytes. pose proof (queue_bytes_nonneg l1). pose proof (queue_bytes_nonneg l2).
  pose proof (len_nonneg (sd_bytes d)).
  rewrite before_at by (done || lia). lia.
Qed.

(** ** The pass from the end *)
Lemma only_sacked_bytes cs : queue_bytes (only_sacked cs) <= queue_bytes cs.
Proof.
  unfold only_sacked. induction cs as [|c cs IH]; [done|]. rewrite filter_cons. pose proof (len_nonneg (sd_bytes c)). case_decide; queue_bytes; lia.
Qed.

Lemma lost_loop_bound three ls s b : 0 <= lost_loop three ls s b <= len ls.
Proof.
  revert s b. induction ls as [|c ls IH]; intros s b; cbn [lost_loop]; [done|]. rewrite len_cons. pose proof (len_nonneg ls).
  case_match; [lia|]. case_match; [specialize (IH (s + 1) (sat_add b (len (sd_bytes c))))|specialize (IH s b)]; lia.
Qed.

(** [post] has been passed, [pre] is still to come. *)
Lemma lost_loop_spec three pre post : queue_bytes (pre ++ post) <= u64_max ->
  forall cs c ds, pre = cs ++ c :: ds ->
  (len cs <? lost_loop three (rev pre) (len (only_sacked post)) (queue_bytes (only_sacked post))) =
  (3 <=? len (only_sacked (ds ++ post))) || (three <=? queue_bytes (only_sacked (ds ++ post))).
Proof.
  revert post. induction pre as [|e pre IH] using rev_ind; intros post B cs c ds E; [by destruct cs|].
  rewrite rev_app_distr. cbn [rev app lost_loop].
  assert (len (rev pre) = len pre) as Er by (unfold len; by rewrite length_rev).
  assert (len cs <= len pre) as Hcs. { assert (len (pre ++ [e]) = len (cs ++ c :: ds)) as L by (by rewrite E). rewrite !len_app, !len_cons, len_nil in L. pose proof (len_nonneg ds). lia. }
  destruct (_ || _) eqn:L.
  - rewrite Er. unfold only_sacked in *. rewrite filter_app, len_app, queue_bytes_app. pose proof (len_nonneg (filter (fun c => sd_sacked c = true) ds)).
    pose proof (queue_bytes_nonneg (filter (fun c => sd_sacked c = true) ds)). lia.
  - assert ((if sd_sacked e then lost_loop three (rev pre) (len (only_sacked post) + 1) (sat_add (queue_bytes (only_sacked post)) (len (sd_bytes e)))
             else lost_loop three (rev pre) (len (only_sacked post)) (queue_bytes (only_sacked post))) =
            lost_loop three (rev pre) (len (only_sacked (e :: post))) (queue_bytes (only_sacked (e :: post)))) as ->.
    { unfold only_sacked. rewrite filter_cons. destruct (sd_sacked e) eqn:Se; [rewrite decide_True by done|rewrite decide_False by done; done].
      rewrite len_cons, queue_bytes_cons. f_equal; [lia|]. pose proof (only_sacked_bytes post) as Q. unfold only_sacked in Q. queue_bytes.
      pose proof (queue_bytes_nonneg pre). unfold sat_add, u64_max in *. lia. }
    destruct ds as [|d ds _] using rev_ind.
    + apply app_inj_tail in E as [<- <-]. cbn [app]. rewrite L. pose proof (lost_loop_bound three (rev pre) (len (only_sacked (e :: post))) (queue_bytes (only_sacked (e :: post)))). lia.
    + rewrite app_comm_cons, app_assoc in E. apply app_inj_tail in E as [-> ->]. rewrite (IH (d :: post)) with (cs := cs) (c := c) (ds := ds); [|by rewrite <- app_assoc in B|done].
      by rewrite <- app_assoc.
Qed.

Lemma lost_prefix_is_lost start cs c ds max_segment : is_seq start -> contiguous start (cs ++ c :: ds) -> queue_bytes (cs ++ c :: ds) < 2147483648 ->
  (len cs <? lost_prefix (cs ++ c :: ds) max_segment) = is_lost (cs ++ c :: ds) max_segment c.
Proof.
  intros Hs C B. unfold is_lost. rewrite (sacked_above_after start) by done. unfold lost_prefix.
  change 0 with (len (only_sacked [])) at 1. change 0 with (queue_bytes (only_sacked [])) at 1.
  rewrite lost_loop_spec with (cs := cs) (c := c) (ds := ds); [by rewrite app_nil_r|rewrite app_nil_r; unfold u64_max; lia|done].
Qed.

Lemma pipe_sum (g : Z -> SendChunk -> Z) (h : SendChunk -> Z) (P : SendChunk -> Prop) `{D : !forall c, Decision (P c)} chunks : 
  (forall cs c ds, chunks = cs ++ c :: ds -> g (len cs) c = h c) ->
  foldr Z.add 0 ((fun p : Z * SendChunk => g p.1 p.2) <$> filter (fun p : Z * SendChunk => P p.2) (enumerate chunks)) =
  foldr Z.add 0 (h <$> filter P chunks).
Proof.
  induction chunks as [|c chunks IH] using rev_ind; intros E; [done|]. unfold enumerate in *. rewrite imap_app, !filter_app, !fmap_app, !foldr_app.
  assert (forall l (z : Z), foldr Z.add z l = foldr Z.add 0 l + z) as shift by (intros l z; induction l as [|x l IHl]; cbn; lia).
  rewrite (shift (_ <$> filter _ (imap _ chunks))), (shift (h <$> filter P chunks)), IH by (intros cs d ds ->; rewrite <- (E cs d (ds ++ [c])) by (by rewrite <- app_assoc); done).
  f_equal. rewrite !filter_cons, !filter_nil. cbn [imap compose fst snd]. unfold compose. specialize (E chunks c [] eq_refl). unfold len in E.
  rewrite Nat.add_0_r. destruct (decide (P c)); rewrite filter_cons; cbn [snd]; [rewrite decide_True by done|rewrite decide_False by done]; cbn; rewrite ?E; done.
Qed.

(** C40: The scoreboard that is read in one pass from its end is the rule of RFC 6675
    as the code states it, chunk by chunk.  On a send queue without gaps, of less
    than half the sequence space, the chunks before the index [lost_prefix] returns
    are exactly those [is_lost] holds of (three chunks, or three segments' bytes,
    selectively acknowledged above them), and [pipe] is the sum over the chunks of
    what is neither acknowledged nor lost and of what was sent again. *)
Theorem scoreboard_is_rfc6675 start chunks max_segment : is_seq start -> contiguous start chunks -> queue_bytes chunks < 2147483648 ->
  (forall i c, chunks !! i = Some c -> (Z.of_nat i <? lost_prefix chunks max_segment) = is_lost chunks max_segment c) /\
  pipe chunks max_segment = rfc_pipe chunks max_segment.
Proof.
  intros Hs C B. split.
  - intros i c (cs & ds & -> & ->)%list_elem_of_split_length. by apply (lost_prefix_is_lost start).
  - unfold pipe, rfc_pipe. apply (pipe_sum (fun i c => (if i <? lost_prefix chunks max_segment then 0 else len (sd_bytes c)) +
      (if sd_retransmitted c then len (sd_bytes c) else 0)) (fun c => (if is_lost chunks max_segment c then 0 else len (sd_bytes c)) + (if sd_retransmitted c then len (sd_bytes c) else 0))
      (fun c => sd_sacked c = false) (D := fun c => decide_rel eq (sd_sacked c) false)).
    intros cs c ds ->. by rewrite (lost_prefix_is_lost start).
Qed.

Lemma scoreboard_is_rfc6675_witness :
  let chunk seq sacked := mkSendChunk seq [1; 2] (Budget.mkLease Budget.TcpPayloadBytes 2) sacked false false (Budget.mkLease Budget.MetadataBytes 64) in
  let chunks := [chunk 4294967295 false; chunk 1 true; chunk 3 true; chunk 5 true] in
  lost_prefix chunks 1000 = 1 /\ pipe chunks 1000 = rfc_pipe chunks 1000.
Proof.
  cbv zeta. split; [vm_compute; reflexivity|].
  apply (scoreboard_is_rfc6675 4294967295); [unfold is_seq; lia|vm_compute; repeat split|vm_compute; reflexivity].
Defined.
