(* ===== verification/TcpSegment.v ===== *)
(** What the control block of [sail-netstack/src/tcp/state.rs] makes of a segment:
    exactly when it takes the payload and the FIN, and how its actions tell the
    connection table so. *)
From S2P Require Import Prelude TcpSeq Congestion TcpTcb TcpInvariant TcpHandlers.
From stdpp Require Import list sets.
#[local] Open Scope Z_scope.

Definition delivers (a : TcpAction) : bool := match a with DeliverPayload _ => true | _ => false end.

(** [acts] tell of [n] bytes and, if [fin], of the peer's FIN. *)
Record tells (acts : list TcpAction) (n : Z) (fin : bool) : Prop := {
  tl_delivers : existsb delivers acts = (0 <? n);
  tl_delivered : delivered acts = n;
  tl_fins : fins acts = b2z fin;
  tl_fin : bool_decide (PeerHalfClosed ∈ acts) = fin
}.

(** Actions that tell of neither. *)
Definition mute (a : TcpAction) : bool := match a with DeliverPayload _ | PeerHalfClosed => false | _ => true end.
Definition mutes (acts : list TcpAction) : Prop := Forall (fun a => mute a = true) acts.

Lemma mutes_tell acts : mutes acts -> tells acts 0 false.
Proof.
  induction 1 as [|a acts Ha _ [D1 D2 F1 F2]]; [by split|]. apply bool_decide_eq_false in F2. split.
  - cbn. rewrite D1. by destruct a.
  - change (action_bytes a + delivered acts = 0). rewrite D2. by destruct a.
  - change (action_fins a + fins acts = 0). rewrite F1. by destruct a.
  - apply bool_decide_eq_false. by intros [<-|]%elem_of_cons.
Qed.

Lemma tells_app acts more n fin m fin' : tells acts n fin -> tells more m fin' -> 0 <= n -> 0 <= m -> fin && fin' = false ->
  tells (acts ++ more) (n + m) (fin || fin').
Proof.
  intros [D1 D2 F1 F2] [D3 D4 F3 F4] Hn Hm Hf. split.
  - rewrite existsb_app, D1, D3. lia.
  - unfold delivered in *. rewrite total_app. lia.
  - unfold fins in *. rewrite total_app, F1, F3. by destruct fin, fin'.
  - rewrite <- F2, <- F4. rewrite (bool_decide_ext _ _ (elem_of_app _ _ _)). by rewrite bool_decide_or.
Qed.

Lemma tells_mute acts more n fin : tells acts n fin -> 0 <= n -> mutes more -> tells (acts ++ more) n fin.
Proof.
  intros T Hn M%mutes_tell. pose proof (tells_app _ _ _ _ _ _ T M Hn ltac:(lia) ltac:(by destruct fin)) as H.
  by rewrite Z.add_0_r, orb_false_r in H.
Qed.

(** ** The pieces *)
(** [t'] is [t] further on, with the peer's FIN in it if [fin]. *)
Definition heard (fin : bool) (t t' : TcpTcb) : Prop :=
  state t' <> Closed -> synchronized (state t') /\ peer_receive_closed t' = peer_receive_closed t || fin.

Lemma answer_with_tells wrap t acts t' acts' : (forall c, mute (wrap c) = true) -> answer_with wrap t acts = (t', acts') ->
  t' = set_delayed_ack_pending false t /\ exists more, acts' = acts ++ more /\ mutes more.
Proof.
  intros Hw. unfold answer_with, cancel_delayed_ack. destruct (delayed_ack_pending t) eqn:D; intros [= <- <-].
  - split; [done|]. eexists. rewrite <- app_assoc. split; [done|]. by repeat constructor.
  - split; [rewrite <- D; by destruct t|]. eexists. split; [done|]. by repeat constructor.
Qed.

Lemma defend_tells t acts t' acts' n fin : defend t acts = (t', Ok acts') -> tells acts n fin -> 0 <= n ->
  tells acts' n fin /\ state t' = state t.
Proof.
  unfold defend. destruct (answer_with _ t acts) as [t1 acts1] eqn:A. intros [= <- <-] T Hn.
  destruct (answer_with_tells DefensiveAck _ _ _ _ (fun _ => eq_refl) A) as (-> & more & -> & M). split; [by apply tells_mute|done].
Qed.

Lemma mutes_none acts : exists more, acts = acts ++ more /\ mutes more.
Proof. exists []. rewrite app_nil_r. by repeat constructor. Qed.

Lemma process_ack_tells segment w carried t acts t' acts' : process_ack segment w carried t acts = (t', acts') -> synchronized (state t) ->
  (exists more, acts' = acts ++ more /\ mutes more) /\ heard false t t' /\ (state t <> LastAck -> state t' <> Closed).
Proof.
  unfold process_ack, heard, peer_receive_closed. intros E S. destruct (acknowledgment segment) as [a|].
  2: { simplify_eq. split; [apply mutes_none|]. rewrite orb_false_r. split; [done|]. by destruct (state t'). }
  destruct (advance_sender _ _ _ _ _ _) as [t1 acts1] eqn:A.
  assert ((exists more, acts1 = acts ++ more /\ mutes more) /\ state t1 = state t) as [(more & -> & M) S1].
  { unfold advance_sender in A. repeat case_match; simplify_eq; (split; [|done]); rewrite <- ?app_assoc; try (eexists; split; [done|]; by repeat constructor).
    all: apply mutes_none. }
  unfold enter_time_wait in E. rewrite S1 in E.
  destruct (state t) eqn:St; try done; repeat case_match; simplify_eq; tcb_goal; rewrite ?S1;
    (split; [|split; [intros ?; first [congruence|done|by split]|first [done|congruence]]]); try (eexists; split; [done|done]); eexists; rewrite <- app_assoc; (split; [done|]); apply Forall_app; by repeat constructor.
Qed.

Lemma take_fin_tells t acts t' acts' n : take_fin t acts = (t', acts') -> synchronized (state t) -> peer_receive_closed t = false ->
  tells acts n false -> 0 <= n -> tells acts' n true /\ heard true t t' /\ state t' <> Closed.
Proof.
  unfold take_fin. intros E S P T Hn. destruct (on_peer_fin _ acts) as [t1 acts1] eqn:F.
  destruct (answer_with_tells Send _ _ _ _ (fun _ => eq_refl) E) as (-> & more & -> & M).
  assert (tells [PeerHalfClosed] 0 true) as TF by (split; try done).
  assert (tells acts1 n true /\ heard true t t1 /\ state t1 <> Closed) as (T1 & H1 & C1).
  { pose proof (tells_app _ _ _ _ _ _ T TF Hn ltac:(lia) eq_refl) as T0. rewrite Z.add_0_r in T0.
    unfold on_peer_fin, enter_time_wait, heard, peer_receive_closed in *. tcb_simpl.
    destruct (state t) eqn:St; try done; repeat case_match; simplify_eq; tcb_goal; (split; [|done]); try done;
      (apply tells_mute; [done|lia|by repeat constructor]). }
  split; [by apply tells_mute|done].
Qed.

Lemma take_in_order_tells t segment acts t' acts' n : take_in_order t segment acts = (t', Ok acts') ->
  synchronized (state t) -> peer_receive_closed t = false -> tells acts n false -> 0 <= n -> 0 <= payload_len segment ->
  tells acts' (n + payload_len segment) (contains (flags segment) FIN) /\ heard (contains (flags segment) FIN) t t' /\ state t' <> Closed.
Proof.
  unfold take_in_order. intros E S P T Hn Hp. case_match; [done|].
  destruct (if 0 <? payload_len segment then _ else (t, acts)) as [t1 acts1] eqn:D.
  assert (tells acts1 (n + payload_len segment) false /\ state t1 = state t) as [T1 S1].
  { destruct (Z.ltb_spec 0 (payload_len segment)); simplify_eq; (split; [|done]); [|by replace (n + payload_len segment) with n by lia].
    apply (tells_app acts [_] n false _ false); try done. split; cbn; try done; [lia|unfold delivered, total; cbn; lia]. }
  assert (P1 : peer_receive_closed t1 = false) by (unfold peer_receive_closed in *; by rewrite S1).
  destruct (contains (flags segment) FIN) eqn:F.
  - destruct (take_fin t1 acts1) as [t2 acts2] eqn:TF. simplify_eq.
    destruct (take_fin_tells _ _ _ _ _ TF ltac:(by rewrite S1) P1 T1 ltac:(lia)) as (T2 & H2 & C2). split; [done|]. split; [|done].
    intros C. destruct (H2 C) as [? E2]. by rewrite E2, P, P1.
  - assert (heard false t t1) by (intros _; unfold peer_receive_closed in *; rewrite S1, orb_false_r; done).
    assert (state t1 <> Closed) by (rewrite S1; by destruct (state t)).
    repeat case_match; simplify_eq; (split; [|done]); try done; (apply tells_mute; [done|lia|by repeat constructor]).
Qed.

(** ** A segment in a synchronized state *)
(** The segment's data is the next of the stream and is taken. *)
Definition in_order (t : TcpTcb) (s : TcpSegmentMeta) : bool :=
  segment_acceptable t s && negb (contains (flags s) SYN) && contains (flags s) ACK &&
  negb (match acknowledgment s with Some a => after a (send_next t) | None => false end) &&
  negb (beyond_receive_window t s) && negb (peer_receive_closed t) && carries s && (sequence s =? recv_next t).
Definition taken_bytes (t : TcpTcb) (s : TcpSegmentMeta) : Z := if in_order t s then Z.min (payload_len s) (open_window t) else 0.
Definition taken_fin (t : TcpTcb) (s : TcpSegmentMeta) : bool :=
  in_order t s && contains (flags s) FIN && (payload_len s <? open_window t).

(** What the control block keeps of a segment that starts at RCV.NXT. *)
Lemma trim_at_next t s : sequence s = recv_next t ->
  let s' := trim_in_order_segment_to_receive_window t s in
  sequence s' = recv_next t /\ payload_len s' = Z.min (payload_len s) (open_window t) /\
  contains (flags s') FIN = contains (flags s) FIN && (payload_len s <? open_window t).
Proof.
  intros E. cbv zeta. unfold trim_in_order_segment_to_receive_window. rewrite E, Z.eqb_refl. cbn [negb sequence payload_len flags].
  fold (open_window t). split; [done|]. split; [done|]. destruct (contains (flags s) FIN) eqn:F; cbn [andb]; [|done].
  case_bool; [|rewrite F; lia]. transitivity false; [|lia]. unfold contains, from_bits. rewrite <- !Z.land_assoc.
  change (Z.land (Z.lxor FIN 255) (Z.land 0x1f FIN)) with 0. by rewrite Z.land_0_r.
Qed.

Lemma take_segment_tells t s beyond carried acts t' acts' n fin : take_segment t s beyond carried acts = (t', Ok acts') ->
  tcb_wf t -> synchronized (state t) -> 0 <= payload_len s -> tells acts n fin -> 0 <= n -> (fin = true -> peer_receive_closed t = true) ->
  let takes := negb beyond && negb (peer_receive_closed t) && carries s && (sequence s =? recv_next t) in
  let fin' := takes && contains (flags s) FIN in
  tells acts' (n + if takes then payload_len s else 0) (fin || fin') /\ heard fin' t t' /\ (state t <> LastAck -> state t' <> Closed).
Proof.
  intros E Hwf S Hp T Hn Hf. cbv zeta. unfold take_segment in E. set (seg := mkSegment _ _ _ _ _) in E.
  assert (state (update_send_window s t) = state t /\ recv_next (update_send_window s t) = recv_next t) as [S1 N1].
  { unfold update_send_window. by repeat case_match. }
  destruct (process_ack seg _ carried _ acts) as [t2 acts2] eqn:P.
  assert (recv_next t2 = recv_next t) as N2.
  { unfold process_ack, advance_sender, enter_time_wait in P. repeat case_match; simplify_eq; tcb_goal; done. }
  destruct (process_ack_tells _ _ _ _ _ _ _ P ltac:(by rewrite S1)) as ((more & -> & M) & H2 & C2).
  assert (peer_receive_closed (update_send_window s t) = peer_receive_closed t) as P1 by (unfold peer_receive_closed; by rewrite S1).
  assert (heard false t t2) as H2'. { intros C. rewrite <- P1. by apply H2. }
  rewrite S1 in C2. clear H2. pose proof (tells_mute _ _ _ _ T Hn M) as T2.
  change (carries seg) with (carries s) in E. change (sequence seg) with (sequence s) in E. rewrite N2 in E.
  unfold state_is in E. case_bool_decide as Cl.
  { simplify_eq. assert (state t = LastAck) as L by (destruct (decide (state t = LastAck)); [done|by destruct C2]).
    assert (peer_receive_closed t = true) as -> by (unfold peer_receive_closed; by rewrite L). rewrite andb_false_r. cbn [andb]. rewrite Z.add_0_r, orb_false_r. done. }
  destruct (H2' Cl) as [S2 P2]. rewrite orb_false_r in P2. rewrite P2 in E.
  assert (forall p, p = false -> defend t2 (acts ++ more) = (t', Ok acts') ->
    tells acts' (n + if p then payload_len s else 0) (fin || p && contains (flags s) FIN) /\ heard (p && contains (flags s) FIN) t t' /\ (state t <> LastAck -> state t' <> Closed)) as D.
  { intros p -> ED. destruct (defend_tells _ _ _ _ _ _ ED T2 Hn) as [T3 S3]. cbn [andb]. rewrite Z.add_0_r, orb_false_r. split; [done|].
    split; [|by rewrite S3]. intros C. unfold peer_receive_closed in *. rewrite S3, P2, orb_false_r. done. }
  destruct beyond; [by apply D|]. destruct (peer_receive_closed t) eqn:PC; cbn [andb negb] in E.
  { destruct (carries s); [by apply D|]. simplify_eq. cbn [andb negb]. rewrite Z.add_0_r, orb_false_r. split; [done|]. split; [|done].
    intros _. by rewrite P2, PC. }
  destruct (carries s); cbn [andb negb] in *.
  2: { simplify_eq. rewrite Z.add_0_r, orb_false_r. split; [done|]. split; [|done]. intros _. by rewrite P2, PC. }
  destruct (Z.eqb_spec (sequence s) (recv_next t)) as [Q|Q]; cbn [negb] in E; [|by apply (D false)].
  assert (fin = false) as -> by (destruct fin; [by specialize (Hf eq_refl)|done]).
  destruct (take_in_order_tells _ _ _ _ _ _ E S2 P2 T2 Hn Hp) as (T3 & H3 & C3). cbn [andb orb].
  split; [done|]. split; [|done]. intros C. destruct (H3 C) as [? HP]. rewrite HP, P2, PC. done.
Qed.

(** Trimmed to the window, the segment has what is taken of it. *)
Lemma trim_takes t s : tcb_wf t -> segment_ok s -> segment_acceptable t s = true -> contains (flags s) SYN = false -> contains (flags s) ACK = true ->
  match acknowledgment s with Some a => after a (send_next t) | None => false end = false ->
  let s' := trim_in_order_segment_to_receive_window t s in
  negb (beyond_receive_window t s) && negb (peer_receive_closed t) && carries s' && (sequence s' =? recv_next t) = in_order t s /\
  (if in_order t s then payload_len s' else 0) = taken_bytes t s /\ in_order t s && contains (flags s') FIN = taken_fin t s.
Proof.
  intros Hwf Hs A SY AC AK. cbv zeta. set (s' := trim_in_order_segment_to_receive_window t s).
  unfold taken_bytes, taken_fin, in_order. rewrite A, SY, AC, AK. cbn [negb andb].
  destruct (Z.eqb_spec (sequence s) (recv_next t)) as [Q|Q].
  - destruct (trim_at_next t s Q) as (N & L & F). fold s' in N, L, F. rewrite N, Z.eqb_refl, F, L, !andb_true_r.
    destruct (beyond_receive_window t s) eqn:B; [done|]. cbn [negb andb].
    assert (carries s = true -> 0 < open_window t) as W.
    { intros C. unfold beyond_receive_window, carries in *. rewrite C in B. cbn [andb] in B. destruct (Z.eq_dec (open_window t) 0) as [Z0|]; [|pose proof (open_window_nonneg t); lia].
      apply distance_zero in Z0; [|apply Hwf..]. rewrite Z0, Q in B. by rewrite before_distance, distance_self in B. }
    assert (carries s' = carries s) as ->.
    { unfold carries in *. rewrite L, F. destruct (Z.ltb_spec 0 (payload_len s)); cbn [orb] in *; [specialize (W eq_refl); lia|].
      destruct (contains (flags s) FIN); [specialize (W eq_refl)|]; cbn; destruct Hs; lia. }
    split; [done|]. split; [done|]. by rewrite andb_assoc.
  - assert (s' = s) as -> by (unfold s', trim_in_order_segment_to_receive_window; apply Z.eqb_neq in Q; by rewrite Q).
    apply Z.eqb_neq in Q. rewrite Q, !andb_false_r. done.
Qed.

(** A segment that is not taken. *)
Lemma not_taken t s acts t' n fin : in_order t s = false -> synchronized (state t) -> state t' = state t -> tells acts n fin ->
  tells acts (n + taken_bytes t s) (fin || taken_fin t s) /\ heard (taken_fin t s) t t' /\ (state t <> LastAck -> state t' <> Closed).
Proof.
  intros Io S St T. unfold taken_bytes, taken_fin. rewrite Io. cbn [andb]. rewrite Z.add_0_r, orb_false_r. split; [done|]. split; [|rewrite St; by destruct (state t)].
  intros _. unfold peer_receive_closed. by rewrite St, orb_false_r.
Qed.

Lemma on_synchronized_tells t s acts t' acts' n fin : on_synchronized_segment t s acts = (t', Ok acts') ->
  tcb_wf t -> synchronized (state t) -> segment_ok s -> tells acts n fin -> 0 <= n -> (fin = true -> peer_receive_closed t = true) ->
  (acts = [] \/ contains (flags s) SYN = false /\ contains (flags s) ACK = true) ->
  tells acts' (n + taken_bytes t s) (fin || taken_fin t s) /\ heard (taken_fin t s) t t' /\ (state t <> LastAck -> state t' <> Closed).
Proof.
  intros E Hwf S Hs T Hn Hf Ha. unfold on_synchronized_segment in E.
  assert (forall more, mutes more -> acts = [] -> tells more n fin) as Q.
  { intros more M ->. apply (tells_mute [] more n fin T Hn M). }
  destruct (segment_acceptable t s) eqn:A; cbn [negb] in E.
  2: { destruct (defend_tells _ _ _ _ _ _ E T Hn). apply not_taken; try done. unfold in_order. by rewrite A. }
  destruct (contains (flags s) SYN) eqn:SY.
  { simplify_eq. destruct Ha as [Ha|[??]]; [|done]. apply not_taken; [unfold in_order; by rewrite A, SY|done..|]. apply Q; [by repeat constructor|done]. }
  destruct (contains (flags s) ACK) eqn:AC; cbn [negb] in E.
  2: { simplify_eq. destruct Ha as [Ha|[??]]; [|done]. apply not_taken; [unfold in_order; by rewrite A, SY, AC|done..|]. apply Q; [constructor|done]. }
  destruct (match acknowledgment s with Some a => _ | None => _ end) eqn:AK.
  { simplify_eq. apply not_taken; [unfold in_order; by rewrite A, SY, AC, AK|done..|]. apply tells_mute; [done..|by repeat constructor]. }
  destruct (trim_fits t s Hs) as [Hs' _].
  destruct (take_segment_tells _ _ _ _ _ _ _ _ _ E Hwf S ltac:(apply Hs') T Hn Hf) as (T3 & H3 & C3). cbv zeta in *.
  destruct (trim_takes t s Hwf Hs A SY AC AK) as (E1 & E2 & E3). cbv zeta in *. rewrite E1, E2, E3 in *. done.
Qed.

(** ** Segment arrival *)
(** The timers that go with a block. *)
Definition timers_of (t : TcpTcb) : timers := mkTimers (negb (send_unacked t =? send_next t)) (delayed_ack_pending t).
Lemma timers_of_ok t : timers_ok t (timers_of t).
Proof. by split. Qed.

(** What [on_segment] always leaves. *)
Record segment_frame (t t' : TcpTcb) (acts : list TcpAction) : Prop := {
  sf_wf : tcb_wf t';
  sf_buffered : recv_buffered t' = recv_buffered t + delivered acts;
  sf_next : recv_next t' = seq_add (recv_next t) (delivered acts + fins acts);
  sf_edge : advertised_right_edge t' = advertised_right_edge t;
  sf_send_next : send_next t' = send_next t;
  sf_flight : in_flight t' <= in_flight t
}.

Lemma on_segment_frame t s : tcb_wf t -> segment_ok s -> state t <> Closed -> state t <> SynSent ->
  exists t' acts, on_segment t s = (t', Ok acts) /\ segment_frame t t' acts.
Proof.
  intros Hwf Hs Hc Hss. destruct (on_open_segment_ok _ t s Hwf (timers_of_ok t) Hs Hc Hss) as (t' & acts & E & W & (_ & B & N & G1 & G2 & G3)).
  exists t', acts. by split.
Qed.

Lemma synchronized_open s : synchronized s -> s <> Closed /\ s <> SynSent /\ s <> SynReceived.
Proof. by destruct s. Qed.

(** A reset tells of no data. *)
Lemma reset_tells t s t' acts : on_segment t s = (t', Ok acts) -> state t <> SynSent -> contains (flags s) RST = true ->
  tells acts 0 false /\ (state t' = Closed \/ t' = t).
Proof.
  intros E Hss R. unfold on_segment, state_is in E. rewrite (bool_decide_eq_false_2 _ Hss) in E. case_bool_decide; [done|].
  assert ((if active_open t && bool_decide (state t = SynReceived) then simultaneous_open_completion t s else s) = s) as Es.
  { unfold simultaneous_open_completion. rewrite R, andb_false_r. by destruct (active_open t && _). }
  rewrite Es, R in E. repeat case_match; simplify_eq; (split; [apply mutes_tell; by repeat constructor|]); auto.
Qed.

Lemma on_segment_synchronized t s t' acts : on_segment t s = (t', Ok acts) -> tcb_wf t -> synchronized (state t) -> segment_ok s ->
  contains (flags s) RST = false ->
  tells acts (taken_bytes t s) (taken_fin t s) /\ heard (taken_fin t s) t t' /\ (state t <> LastAck -> state t' <> Closed).
Proof.
  intros E Hwf S Hs R. destruct (synchronized_open _ S) as (N1 & N2 & N3).
  unfold on_segment, complete_passive_handshake, state_is in E. rewrite !bool_decide_eq_false_2, andb_false_r, R in E by done. cbn in E.
  destruct (on_synchronized_tells _ _ _ _ _ 0 false E Hwf S Hs) as (T & H & C); [by apply mutes_tell; constructor|done|done|by left|].
  by rewrite Z.add_0_l in T.
Qed.

(** The block that the final ACK finds established. *)
Lemma finish_handshake_tells t t1 acts : finish_handshake t [] = (t1, acts) -> tcb_wf t -> state t = SynReceived ->
  tells acts (pending_initial_payload_len t) (pending_initial_fin t) /\
  tcb_wf t1 /\ state t1 = (if pending_initial_fin t then CloseWait else Established) /\ send_next t1 = send_next t /\
  recv_next t1 = seq_add (recv_next t) (pending_initial_payload_len t + b2z (pending_initial_fin t)) /\
  advertised_right_edge t1 = advertised_right_edge t.
Proof.
  intros E Hwf St. destruct (finish_handshake_ok (origin_of (timers_of t) t) t [] t1 acts E Hwf St) as (W1 & (T1 & B1 & N1 & G1 & G2 & G3) & S1).
  { apply tracked_start; [done|apply timers_of_ok]. }
  assert (tells acts (pending_initial_payload_len t) (pending_initial_fin t) /\ state t1 = (if pending_initial_fin t then CloseWait else Established)) as [T S].
  2: { split; [done|]. split; [done|]. split; [done|]. split; [done|]. split; [|done]. by rewrite N1, (tl_delivered _ _ _ T), (tl_fins _ _ _ T). }
  pose proof (wf_pending_len t Hwf) as P0. unfold finish_handshake in E. tcb_simpl. set (t0 := set_state Established _) in E. cbn [app] in E.
  set (a0 := [if active_open t then Connected else Accepted; DisarmRetransmission]) in E.
  assert (tells a0 0 false) as T0 by (apply mutes_tell; unfold a0; destruct (active_open t); by repeat constructor).
  match type of E with context [let '(_, _) := ?p in _] => destruct p as [t2 acts2] eqn:D end.
  assert (state t2 = Established /\ pending_initial_fin t2 = pending_initial_fin t /\ tells acts2 (pending_initial_payload_len t) false) as (S2 & F2 & T2).
  { destruct (Z.ltb_spec 0 (pending_initial_payload_len t)).
    - assert (tells (a0 ++ [DeliverPayload (pending_initial_payload_len t)]) (pending_initial_payload_len t) false) as TD.
      { apply (tells_app a0 [_] 0 false (pending_initial_payload_len t) false); try done. split; cbn; try done; [lia|unfold delivered, total; cbn; lia]. }
      tcb_simpl. destruct (pending_initial_fin t) eqn:F; cbn [negb] in D; simplify_eq; tcb_goal; (split; [done|]); (split; [done|]); [done|].
      apply (tells_mute _ [ArmDelayedAck] _ _ TD); [lia|by repeat constructor].
    - simplify_eq. split; [done|]. split; [done|]. by replace (pending_initial_payload_len t) with 0 by lia. }
  rewrite F2 in E. destruct (pending_initial_fin t); [|by simplify_eq].
  destruct (take_fin_tells _ _ _ _ _ E ltac:(tcb_goal; by rewrite S2) ltac:(unfold peer_receive_closed; tcb_goal; by rewrite S2) T2 P0) as (T3 & _ & _).
  split; [done|]. unfold take_fin, on_peer_fin in E. tcb_simpl. rewrite S2 in E.
  destruct (answer_with_tells Send _ _ _ _ (fun _ => eq_refl) E) as [-> _]. done.
Qed.

Lemma accepts_final_ack_inv t s : accepts_final_ack t s = true ->
  state t = SynReceived /\ contains (flags s) ACK = true /\ contains (flags s) RST = false /\ contains (flags s) SYN = false /\
  acknowledgment s = Some (send_next t) /\ sequence s = seq_add (recv_next t) (uadd (pending_initial_payload_len t) (b2z (pending_initial_fin t))).
Proof.
  unfold accepts_final_ack, state_is, ack_is. rewrite !andb_true_iff, !negb_true_iff. intros (((((H1 & H2) & H3) & H4) & H5) & H6).
  apply bool_decide_eq_true in H1. destruct (acknowledgment s) as [a|]; [|done]. split_and!; try done; [f_equal|]; lia.
Qed.

Lemma on_segment_accepting t s t' acts : on_segment t s = (t', Ok acts) -> tcb_wf t -> segment_ok s -> accepts_final_ack t s = true ->
  exists t1 acts1, finish_handshake t [] = (t1, acts1) /\
    tells acts (pending_initial_payload_len t + taken_bytes t1 s) (pending_initial_fin t || taken_fin t1 s) /\ heard (taken_fin t1 s) t1 t' /\
    state t' <> Closed.
Proof.
  intros E Hwf Hs Ha. destruct (accepts_final_ack_inv _ _ Ha) as (St & AC & R & SY & AK & Q).
  destruct (finish_handshake t []) as [t1 acts1] eqn:F. exists t1, acts1. split; [done|].
  destruct (finish_handshake_tells _ _ _ F Hwf St) as (T1 & W1 & S1 & N1 & _). unfold on_segment, state_is in E. rewrite !bool_decide_eq_false_2 in E by congruence.
  assert ((if active_open t && bool_decide (state t = SynReceived) then simultaneous_open_completion t s else s) = s) as Es.
  { unfold simultaneous_open_completion. rewrite SY. by destruct (active_open t && _). }
  rewrite Es, R in E. unfold complete_passive_handshake, state_is in E. rewrite bool_decide_eq_true_2, Ha, F in E by done. cbn [negb] in E.
  destruct (on_synchronized_tells t1 s acts1 t' acts (pending_initial_payload_len t) (pending_initial_fin t) E W1) as (T & H & C); try done.
  - rewrite S1. by destruct (pending_initial_fin t).
  - apply Hwf.
  - intros Hf. unfold peer_receive_closed. by rewrite S1, Hf.
  - by right.
  - split; [done|]. split; [done|]. apply C. rewrite S1. by destruct (pending_initial_fin t).
Qed.

(** While the handshake waits, a segment other than its final ACK tells of no data:
    the block stays, is reset, or the peer's SYN-ACK completes a simultaneous open. *)
Lemma on_segment_waiting t s t' acts : on_segment t s = (t', Ok acts) -> tcb_wf t -> segment_ok s -> state t = SynReceived ->
  accepts_final_ack t s = false -> (active_open t = true -> pending_initial_payload_len t = 0 /\ pending_initial_fin t = false) ->
  tells acts 0 false /\ (t' = t \/ state t' = Closed \/ synchronized (state t') /\ peer_receive_closed t' = false /\ active_open t = true).
Proof.
  intros E Hwf Hs St Ha Hact. destruct (contains (flags s) RST) eqn:R.
  { destruct (reset_tells _ _ _ _ E ltac:(congruence) R) as [? [?|?]]; auto. }
  unfold on_segment, state_is in E. rewrite !bool_decide_eq_false_2, (bool_decide_eq_true_2 (state t = SynReceived)), andb_true_r in E by congruence.
  set (s1 := if active_open t then simultaneous_open_completion t s else s) in E.
  assert (contains (flags s1) RST = false) as R1.
  { unfold s1, simultaneous_open_completion. repeat case_match; try done. }
  rewrite R1 in E. unfold complete_passive_handshake, state_is in E. rewrite bool_decide_eq_true_2 in E by done. cbn [negb] in E.
  destruct (accepts_final_ack t s1) eqn:A1; cbn [negb] in E.
  2: { destruct (acknowledgment s1) as [k|]; [destruct (segment_acceptable t s1 && contains (flags s1) ACK && negb (k =? send_next t))|rewrite andb_false_r in E];
         cbn in E; simplify_eq; (split; [apply mutes_tell; by repeat constructor|by auto]). }
  assert (active_open t = true /\ s1 = mkSegment (recv_next t) (acknowledgment s) ACK (window s) 0) as [Ac Es].
  { unfold s1 in *. destruct (active_open t); [|congruence]. split; [done|]. unfold simultaneous_open_completion in *. case_match; [done|congruence]. }
  destruct (finish_handshake t []) as [t1 acts1] eqn:F. destruct (finish_handshake_tells _ _ _ F Hwf St) as (T1 & W1 & S1 & N1 & _).
  destruct (Hact Ac) as [P1 P2]. rewrite P1, P2 in *.
  assert (segment_ok s1) as Hs1. { rewrite Es. destruct Hs, Hwf. split; cbn; try done; width. }
  destruct (on_synchronized_tells t1 s1 acts1 t' acts 0 false E W1) as (T & H & C); try done.
  - by rewrite S1.
  - right. by rewrite Es.
  - assert (in_order t1 s1 = false) as Io.
    { unfold in_order, carries. rewrite Es. cbn. by rewrite !andb_false_r. }
    unfold taken_bytes, taken_fin in *. rewrite Io in *. split; [done|]. right. right.
    rewrite S1 in C. specialize (C ltac:(done)). destruct (H C) as [Y Hp]. unfold peer_receive_closed at 2 in Hp. by rewrite S1 in Hp.
Qed.

(** Data at RCV.NXT that fits the window is taken whole. *)
Lemma in_order_start t s : tcb_wf t -> segment_ok s -> sequence s = recv_next t -> contains (flags s) SYN = false -> contains (flags s) ACK = true ->
  match acknowledgment s with Some a => after a (send_next t) | None => false end = false -> peer_receive_closed t = false ->
  payload_len s <= open_window t ->
  taken_bytes t s = payload_len s /\ (taken_fin t s = true -> contains (flags s) FIN = true) /\ taken_bytes t s + b2z (taken_fin t s) <= open_window t.
Proof.
  intros W O Q SY AC AK PC Hw. pose proof (so_payload _ O) as P. unfold u16_max in P. pose proof (wf_window_max _ W). unfold MAX_WINDOW in *.
  assert (carries s = true -> 0 < open_window t -> in_order t s = true) as I.
  { intros Cy W0. unfold in_order, beyond_receive_window. fold (carries s). rewrite SY, AC, AK, PC, Cy, Q, Z.eqb_refl. cbn [negb andb]. rewrite !andb_true_r.
    assert (before (recv_next t) (advertised_right_edge t) = true) as B.
    { rewrite before_distance. assert (recv_next t <> advertised_right_edge t) as N by (intros X; unfold open_window in W0; rewrite X, distance_self in W0; lia).
      rewrite distance_swap by (apply W || done). fold (open_window t). lia. }
    rewrite B. cbn [negb]. rewrite andb_true_r. unfold segment_acceptable. rewrite Q. unfold after at 1.
    assert (before (advertised_right_edge t) (recv_next t) = false) as -> by (rewrite before_distance; fold (open_window t); lia).
    assert (0 < segment_length s <= 65537) as L.
    { unfold segment_length. rewrite SY. change (b2z false) with 0. rewrite (uadd_small (payload_len s) 0) by (unfold u64_max; lia).
      unfold carries in Cy. destruct (contains (flags s) FIN); cbn [b2z]; rewrite uadd_small by (unfold u64_max; lia); lia. }
    replace (segment_length s =? 0) with false by lia. apply after_of_distance; [apply W|apply seq_add_range|]. rewrite distance_add by (apply W || lia). lia. }
  unfold taken_bytes, taken_fin. destruct (in_order t s) eqn:E.
  - cbn [andb]. split; [lia|]. split; [by destruct (contains (flags s) FIN)|]. destruct (contains (flags s) FIN); cbn [andb]; [destruct (Z.ltb_spec (payload_len s) (open_window t))|]; cbn [b2z]; lia.
  - cbn [andb b2z]. pose proof (open_window_nonneg t). split; [|split; [done|lia]]. destruct (carries s) eqn:Cy; [|unfold carries in Cy; lia].
    destruct (Z.eq_dec (open_window t) 0); [lia|]. by specialize (I eq_refl ltac:(lia)).
Qed.
