(* ===== verification/Partial.v ===== *)
(** Partial correctness for the state and error monad: what holds after a call that
    returns, with a value or an error.  A call that panics ends the program. *)
From S2P Require Import Prelude StateMonad.

Section Logic.
Context {S E : Type}.
Implicit Types (s : S).

Definition wlp {A} (m : sm S E A) s (Q : A -> S -> Prop) (X : E -> S -> Prop) : Prop :=
  match m s with
  | (s', Ok a) => Q a s'
  | (s', Err e) => X e s'
  | _ => True
  end.

Lemma wlp_wp {A} (m : sm S E A) s Q X : wp m s Q X -> wlp m s Q X.
Proof. unfold wp, wlp. by destruct (m s) as [s' [a|e| |]]. Qed.

Lemma wlp_mono {A} (m : sm S E A) s (Q Q' : A -> S -> Prop) (X X' : E -> S -> Prop) :
  wlp m s Q X -> (forall a s', Q a s' -> Q' a s') -> (forall e s', X e s' -> X' e s') -> wlp m s Q' X'.
Proof. unfold wlp. destruct (m s) as [s' [a|e| |]]; auto. Qed.

Lemma wlp_ret {A} (a : A) s (Q : A -> S -> Prop) X : Q a s -> wlp (mret a) s Q X.
Proof. done. Qed.
Lemma wlp_bind {A B} (m : sm S E A) (f : A -> sm S E B) s Q X :
  wlp m s (fun a s' => wlp (f a) s' Q X) X -> wlp (x ← m; f x) s Q X.
Proof. unfold wlp at 1. unfold wlp, mbind, sm_bind. destruct (m s) as [s' [a|e| |]]; auto. Qed.
Lemma wlp_get s (Q : S -> S -> Prop) X : Q s s -> wlp get_state s Q X.
Proof. done. Qed.
Lemma wlp_modify f s (Q : unit -> S -> Prop) X : Q tt (f s) -> wlp (modify f) s Q X.
Proof. done. Qed.
Lemma wlp_throw {A} (e : E) s (Q : A -> S -> Prop) (X : E -> S -> Prop) : X e s -> wlp (throw e) s Q X.
Proof. done. Qed.
Lemma wlp_if {A} (b : bool) (m n : sm S E A) s Q X :
  (b = true -> wlp m s Q X) -> (b = false -> wlp n s Q X) -> wlp (if b then m else n) s Q X.
Proof. destruct b; auto. Qed.
Lemma wlp_lift {A} (m : outcome E A) s (Q : A -> S -> Prop) (X : E -> S -> Prop) :
  match m with Ok a => Q a s | Err e => X e s | _ => True end -> wlp (lift m) s Q X.
Proof. unfold wlp, lift. by destruct m. Qed.
Lemma wlp_on {S1 E1 A} (part : S -> S1) (update : S1 -> S -> S) (convert : E1 -> E)
    (m : S1 -> S1 * outcome E1 A) s (Q : A -> S -> Prop) (X : E -> S -> Prop) :
  match m (part s) with
  | (p, Ok a) => Q a (update p s)
  | (p, Err e) => X (convert e) (update p s)
  | _ => True
  end -> wlp (on part update convert m) s Q X.
Proof. unfold wlp, on. by destruct (m (part s)) as [p [a|e| |]]. Qed.
Lemma wlp_attempt {A} (m : sm S E A) s (Q : A + E -> S -> Prop) X :
  wlp m s (fun a s' => Q (inl a) s') (fun e s' => Q (inr e) s') -> wlp (attempt m) s Q X.
Proof. unfold wlp, attempt. by destruct (m s) as [s' [a|e| |]]. Qed.
End Logic.

(** A call on a part of the state, by what it does to the part. *)
Lemma wlp_on_part {S S1 E E1 A} (part : S -> S1) (update : S1 -> S -> S) (convert : E1 -> E) (m : sm S1 E1 A) (s : S) (Q : A -> S -> Prop) (X : E -> S -> Prop) :
  wlp m (part s) (fun a p => Q a (update p s)) (fun e p => X (convert e) (update p s)) -> wlp (on part update convert m) s Q X.
Proof. intros H. apply wlp_on. unfold wlp in H. by destruct (m (part s)) as [p [a|e| |]]. Qed.

Lemma wlp_any {St E A} (m : sm St E A) s (Q : A -> St -> Prop) (X : E -> St -> Prop) : (forall a s', Q a s') -> (forall e s', X e s') -> wlp m s Q X.
Proof. intros H1 H2. unfold wlp. destruct (m s) as [s' [| | |]]; auto. Qed.

(** One step of a [wlp] proof, by the shape of the program. *)
Ltac wlp_step :=
  lazymatch goal with
  | |- wlp (_ ≫= _) _ _ _ => apply wlp_bind
  | |- wlp (mret _) _ _ _ => apply wlp_ret
  | |- wlp get_state _ _ _ => apply wlp_get
  | |- wlp (modify _) _ _ _ => apply wlp_modify
  | |- wlp (throw _) _ _ _ => apply wlp_throw
  | |- wlp (lift _) _ _ _ => apply wlp_lift
  | |- wlp (attempt _) _ _ _ => apply wlp_attempt
  | |- wlp (if ?b then _ else _) _ _ _ => apply wlp_if; intros
  end.
