(* ===== verification/TcpRecovery.v ===== *)
(** SACK recovery of [sail-netstack/src/tcp/table.rs] ends: each turn of the loop of
    [render_sack_recovery] marks a chunk that was not, or takes the one rescue, so that
    the fuel of the model, from the length of the send queue, is enough. *)
From S2P Require Import Prelude StateMonad Partial TcpSeq Congestion TcpTcb Budget IpWire TcpWire TcpFlow TcpTable.
From stdpp Require Import list sets gmap.
#[local] Open Scope Z_scope.

(** ** Searching *)
Lemma find_index_get {A} (p : Z -> A -> bool) (l : list A) i : find_index p l = Some i -> 0 <= i /\ exists x, l !! Z.to_nat i = Some x /\ p i x = true.
Proof.
  unfold find_index. destruct (head _) as [[j x]|] eqn:E; cbn; [|done]. intros [= ->]. apply head_Some_elem_of, list_elem_of_filter in E as [Hp Hin].
  unfold enumerate in Hin. apply elem_of_lookup_imap in Hin as (n & y & [= -> ->] & Hn). split; [lia|]. exists y. by rewrite Nat2Z.id.
Qed.

Lemma rfind_index_get {A} (p : A -> bool) (l : list A) i : rfind_index p l = Some i -> 0 <= i /\ is_Some (l !! Z.to_nat i).
Proof.
  unfold rfind_index. destruct (last _) as [[j x]|] eqn:E; cbn; [|done]. intros [= ->]. apply last_Some_elem_of, list_elem_of_filter in E as [Hp Hin].
  unfold enumerate in Hin. apply elem_of_lookup_imap in Hin as (n & y & [= -> ->] & Hn). split; [lia|]. by rewrite Nat2Z.id.
Qed.

(** What is chosen: a chunk not sent again yet, or the rescue while it is due. *)
Lemma next_sack_segment_inv f recovery index rescue : next_sack_segment f recovery = Some (index, rescue) ->
  exists c, 0 <= index /\ f_send f !! Z.to_nat index = Some c /\
    if rescue then after (send_unacked (f_tcb f)) (sr_rescue_after recovery) = true else sd_retransmitted c = false.
Proof.
  unfold next_sack_segment. destruct (highest_sacked f) as [highest|]; [|done].
  destruct (find_index _ _) as [i|] eqn:E1.
  { intros [= <- <-]. destruct (find_index_get _ _ _ E1) as (Hi & c & Hc & Hp). exists c. split; [done|]. split; [done|]. by destruct (sd_sacked c), (sd_retransmitted c). }
  clear E1. destruct (find_index _ (f_send f)) as [i|] eqn:E2.
  { intros [= <- <-]. destruct (find_index_get _ _ _ E2) as (Hi & c & Hc & Hp). exists c. split; [done|]. split; [done|]. by destruct (sd_sacked c), (sd_retransmitted c). }
  destruct (after _ _) eqn:Ea; [|done]. cbn [negb]. destruct (rfind_index _ _) as [i|] eqn:E3; [|done]. intros [= <- <-].
  destruct (rfind_index_get _ _ _ E3) as (Hi & c & Hc). by exists c.
Qed.

(** ** The measure *)
Definition unsent (send : list SendChunk) : nat := length (filter (fun c => sd_retransmitted c = false) send).
Definition turns_left (f : TcpFlow) : nat :=
  (unsent (f_send f) +
   match f_sack_recovery f with Some r => if after (send_unacked (f_tcb f)) (sr_rescue_after r) then 1 else 0 | None => 0 end)%nat.

Lemma unsent_mark send i c c' : send !! i = Some c -> sd_retransmitted c = false -> sd_retransmitted c' = true -> (unsent (<[i := c']> send) < unsent send)%nat.
Proof.
  intros Hi Hc Hc'. unfold unsent. revert i Hi. induction send as [|d send IH]; intros [|i] Hi; try done; cbn in Hi.
  - injection Hi as ->. cbn [insert list_insert]. rewrite !filter_cons, decide_False, decide_True by congruence. cbn [length]. lia.
  - change (<[Datatypes.S i := c']> (d :: send)) with (d :: <[i := c']> send). rewrite !filter_cons. specialize (IH i Hi). case_decide; cbn [length]; lia.
Qed.

(** The flow after a turn. *)
Definition turned (f : TcpFlow) (index : Z) (rescue : bool) (c : SendChunk) : TcpFlow :=
  let f := set_f_rtt_probe None f in
  let f := if rescue then set_f_sack_recovery ((fun r => mkSackRecovery (sr_recovery_point r) (sr_recovery_point r)) <$> f_sack_recovery f) f else f in
  set_f_send (<[Z.to_nat index := if rescue then c
    else mkSendChunk (sd_sequence c) (sd_bytes c) (sd_payload_lease c) (sd_sacked c) true (sd_resegment c) (sd_metadata_lease c)]> (f_send f)) f.

Lemma take_sack_segment_turned f l index rescue c : 0 <= index -> f_send f !! Z.to_nat index = Some c ->
  exists r, take_sack_segment index rescue (f, l) = ((turned f index rescue c, l), Ok r).
Proof.
  intros Hi Hc. unfold take_sack_segment, turned. destruct rescue; unfold on_flow, modify, mbind, sm_bind, get_state, mret, sm_ret; cbn -[get];
    unfold get; replace (0 <=? index) with true by lia; cbn; rewrite Hc; eexists; by destruct f.
Qed.

(** The rescue is taken at most once: the acknowledgments are below the recovery point. *)
Definition recovering (f : TcpFlow) : Prop := match f_sack_recovery f with Some r => after (send_unacked (f_tcb f)) (sr_recovery_point r) = false | None => True end.

Lemma turned_less f recovery index rescue c : f_sack_recovery f = Some recovery -> next_sack_segment f recovery = Some (index, rescue) -> f_send f !! Z.to_nat index = Some c ->
  recovering f -> recovering (turned f index rescue c) /\ (turns_left (turned f index rescue c) < turns_left f)%nat.
Proof.
  intros Er En Hc R. destruct (next_sack_segment_inv _ _ _ _ En) as (c' & Hi & Hc' & Hr). rewrite Hc in Hc'. injection Hc' as <-.
  unfold recovering, turns_left, turned in *. rewrite Er in *. destruct rescue.
  - cbn. rewrite Er. cbn. rewrite R, Hr. split; [done|]. rewrite list_insert_id by done. unfold unsent. lia.
  - cbn. rewrite Er. split; [done|]. apply Nat.add_lt_mono_r. by eapply unsent_mark.
Qed.

(** ** The loop *)
Section Loop.
Context (le : bool) (key : TcpFlowKey).

(** Emission leaves the flows alone. *)
Lemma emit_payload_flows control payload s : t_by_key (emit_payload le key control payload s).1.1 = t_by_key s.1.
Proof.
  unfold emit_payload, next_identification, tcp_wire, on, on_tcp_table, modify, get_state, mbind, sm_bind, mret, sm_ret. cbn.
  destruct (segment_options _ _); [destruct (emit_tcp_segment_with_options _ _ _ _ _ _ _ _)|destruct (emit_tcp_segment _ _ _ _ _ _ _)]; done.
Qed.

Lemma bind_ext {St E A B} (m : sm St E A) (f g : A -> sm St E B) s : (forall s1 a, m s = (s1, Ok a) -> f a s1 = g a s1) -> (x ← m; f x) s = (x ← m; g x) s.
Proof. intros H. unfold mbind, sm_bind. destruct (m s) as [s1 [a| | |]] eqn:Em; [|done..]. by apply H. Qed.

Lemma flow_of_inv missing s s1 f : flow_of key missing s = (s1, Ok f) -> s1 = s /\ t_by_key s.1 !! key = Some f.
Proof. unfold flow_of, mbind, sm_bind, get_state. destruct (t_by_key s.1 !! key); [|done]. by intros [= <- <-]. Qed.

Lemma turn_inv missing index rescue s f c s1 r : t_by_key s.1 !! key = Some f -> 0 <= index -> f_send f !! Z.to_nat index = Some c ->
  with_flow key missing (take_sack_segment index rescue) s = (s1, Ok r) -> t_by_key s1.1 !! key = Some (turned f index rescue c).
Proof.
  intros Ef Hi Hc. unfold with_flow, mbind, sm_bind, get_state. rewrite Ef. unfold on.
  destruct (take_sack_segment_turned f s.2 index rescue c Hi Hc) as [r' E]. rewrite E. intros [= <- <-]. apply lookup_insert_eq.
Qed.

(** How many more turns there can be. *)
Definition turns (s : tstate) : nat := match t_by_key s.1 !! key with Some f => turns_left f | None => 0%nat end.
Definition loop_ready (s : tstate) : Prop := match t_by_key s.1 !! key with Some f => recovering f | None => True end.

Lemma sack_recovery_stable limit : forall fuel more packets s, loop_ready s -> (turns s < fuel)%nat ->
  sack_recovery_loop le (fuel + more) key limit packets s = sack_recovery_loop le fuel key limit packets s.
Proof.
  induction fuel as [|fuel IH]; intros more packets s Hr Ht; [lia|]. cbn [Nat.add sack_recovery_loop]. destruct (limit <=? len packets); [done|].
  apply bind_ext. intros s0 f E0. destruct (flow_of_inv _ _ _ _ E0) as [-> Ef]. unfold turns, loop_ready in *. rewrite Ef in *.
  destruct (f_sack_recovery f) as [recovery|] eqn:Er; [|done]. case_match; [done|]. destruct (next_sack_segment f recovery) as [[index rescue]|] eqn:En; [|done].
  destruct (next_sack_segment_inv _ _ _ _ En) as (c & Hi & Hc & _). apply bind_ext. intros s1 r E1. pose proof (turn_inv _ _ _ _ _ _ _ _ Ef Hi Hc E1) as Ef1.
  destruct (turned_less f recovery index rescue c Er En Hc Hr) as [R1 T1].
  apply bind_ext. intros s2 p E2. pose proof (emit_payload_flows r.1 r.2 s1) as E3. rewrite E2 in E3. cbn [fst] in E3. apply IH; rewrite E3, Ef1; [done|lia].
Qed.

(** The model's fuel is enough: more of it changes nothing. *)
Lemma render_sack_recovery_ends limit more s : loop_ready s ->
  render_sack_recovery le key limit s = sack_recovery_loop le (match t_by_key s.1 !! key with Some f => length (f_send f) + 3 | None => 1 end + more) key limit [] s.
Proof.
  intros H. unfold render_sack_recovery. unfold mbind, sm_bind, get_state. rewrite sack_recovery_stable; [by destruct (t_by_key s.1 !! key)|done|].
  unfold turns. destruct (t_by_key s.1 !! key) as [f|]; [|lia]. unfold turns_left, unsent. pose proof (length_filter (fun c => sd_retransmitted c = false) (f_send f)).
  destruct (f_sack_recovery f); [destruct (after _ _)|]; lia.
Qed.
End Loop.

(** [update_sender_sack], which runs before every recovery, leaves the flow ready: a
    recovery whose point is reached is over.  Half a sequence space between the two
    is the one case in which [before] does not order them. *)
Lemma update_sender_sack_recovers admissible plan acts f l :
  wlp (update_sender_sack admissible plan acts) (f, l)
    (fun _ e => forall r, f_sack_recovery e.1 = Some r -> before (send_unacked (f_tcb e.1)) (sr_recovery_point r) = true) (fun _ _ => True).
Proof.
  unfold update_sender_sack. apply wlp_bind, wlp_any; [|done]. intros acts1 [f1 l1]. apply wlp_bind, wlp_get, wlp_bind, wlp_any; [|done]. intros _ [f2 l2].
  apply wlp_bind, wlp_modify, wlp_ret. cbn [fst]. destruct (f_sack_recovery f2) as [r|] eqn:E; [|intros r; congruence].
  destruct (before _ _) eqn:Hb; cbn [negb]; [intros r'; congruence|done].
Qed.
