(* ===== verification/TcpReceive.v ===== *)
(** The receive side of a flow of [sail-netstack/src/tcp/table.rs] against the
    stream the peer sends: what trimming and admission leave of a segment. *)
From S2P Require Import Prelude TcpSeq Congestion TcpTcb TcpInvariant TcpHandlers TcpFlow TcpSegment.
From stdpp Require Import list sets.
#[local] Open Scope Z_scope.

(** ** Positions of the stream

    Sequence numbers are [seq_add base x] for a position [x] of the stream; they
    compare as the positions do while these are less than 2^31 apart. *)
Lemma before_signed base a b : - 2147483648 <= a - b < 2147483648 -> before (seq_add base a) (seq_add base b) = (a <? b).
Proof.
  intros H. unfold before, seq_add, wrap32, as_i32. rewrite !Zplus_mod_idemp_r, <- Zminus_mod. replace (base + a - (base + b)) with (a - b) by lia.
  destruct (Z.ltb_spec a b).
  - rewrite <- (Z.mod_add (a - b) 1) by lia. rewrite Z.mod_small by lia. case_bool; lia.
  - rewrite Z.mod_small by lia. case_bool; lia.
Qed.
Lemma after_signed base a b : - 2147483648 < a - b <= 2147483648 -> after (seq_add base a) (seq_add base b) = (b <? a).
Proof. intros H. unfold after. rewrite before_signed by lia. done. Qed.
Lemma distance_signed base a b : distance_from (seq_add base a) (seq_add base b) = (a - b) mod 4294967296.
Proof. unfold distance_from, seq_add, wrap32. rewrite !Zplus_mod_idemp_r, <- Zminus_mod. f_equal. lia. Qed.
Lemma distance_ahead base a b : 0 <= a - b < 4294967296 -> distance_from (seq_add base a) (seq_add base b) = a - b.
Proof. intros. rewrite distance_signed. by apply Z.mod_small. Qed.
Lemma distance_behind base a b : - 4294967296 <= a - b < 0 -> distance_from (seq_add base a) (seq_add base b) = a - b + 4294967296.
Proof. intros. rewrite distance_signed. rewrite <- (Z.mod_add (a - b) 1) by lia. rewrite Z.mod_small by lia. lia. Qed.
Lemma seq_add_inj base a b : - 4294967296 < a - b < 4294967296 -> seq_add base a = seq_add base b -> a = b.
Proof.
  intros H E. destruct (Z.lt_trichotomy a b) as [L|[|L]]; [|done|].
  - pose proof (distance_behind base a b ltac:(lia)) as D. rewrite E, distance_self in D. lia.
  - pose proof (distance_ahead base a b ltac:(lia)) as D. rewrite E, distance_self in D. lia.
Qed.

(** [sub] of the stream. *)
Lemma take_sub (l : list Z) a b n : 0 <= n -> a + n <= b -> take (Z.to_nat n) (sub l a b) = sub l a (a + n).
Proof. intros. unfold sub. rewrite take_take. f_equal. lia. Qed.
Lemma drop_sub (l : list Z) a b n : 0 <= a -> 0 <= n -> drop (Z.to_nat n) (sub l a b) = sub l (a + n) b.
Proof. intros. unfold sub. rewrite skipn_firstn_comm, drop_drop. f_equal; [lia|]. f_equal. lia. Qed.
Lemma sub_join (l : list Z) a b c : 0 <= a <= b -> b <= c -> sub l a b ++ sub l b c = sub l a c.
Proof.
  intros. unfold sub. replace (Z.to_nat (c - a)) with (Z.to_nat (b - a) + Z.to_nat (c - b))%nat by lia.
  rewrite <- take_take_drop, drop_drop. do 3 f_equal. lia.
Qed.
Lemma sub_empty (l : list Z) a : sub l a a = [].
Proof. unfold sub. by rewrite Z.sub_diag. Qed.

(** ** A segment of the stream *)
Section Stream.
Context (S : list Z) (base : Z).

(** The segment carries the stream's bytes at [q], its FIN the stream's end. *)
Record seg_at (q : Z) (s : TcpSegmentMeta) (payload : list Z) : Prop := {
  sa_sequence : sequence s = seq_add base q;
  sa_pos : 0 <= q;
  sa_len : payload_len s = len payload;
  sa_bytes : payload = sub S q (q + len payload);
  sa_end : q + len payload <= len S;
  sa_fin : contains (flags s) FIN = true -> q + len payload = len S
}.

(** Trimming leaves everything else as it is. *)
Record same_control (s s' : TcpSegmentMeta) : Prop := {
  sc_syn : contains (flags s') SYN = contains (flags s) SYN;
  sc_ack : contains (flags s') ACK = contains (flags s) ACK;
  sc_rst : contains (flags s') RST = contains (flags s) RST;
  sc_fin : contains (flags s') FIN = true -> contains (flags s) FIN = true;
  sc_number : acknowledgment s' = acknowledgment s;
  sc_win : window s' = window s
}.

(** Nothing is left of the segment's data. *)
Definition emptied (s : TcpSegmentMeta) (payload : list Z) : Prop := payload = [] /\ payload_len s = 0 /\ contains (flags s) FIN = false.

Lemma same_control_refl s : same_control s s.
Proof. by split. Qed.
Lemma same_control_trans s s1 s2 : same_control s s1 -> same_control s1 s2 -> same_control s s2.
Proof. intros [] []. split; auto; congruence. Qed.

Lemma flag_without_fin flags other : other = SYN \/ other = ACK \/ other = RST ->
  contains (from_bits (Z.land flags (Z.lxor FIN 255))) other = contains flags other.
Proof.
  intros H. unfold contains, from_bits. rewrite <- !Z.land_assoc. f_equal. by destruct H as [->|[->| ->]].
Qed.
Lemma fin_without_fin flags : contains (from_bits (Z.land flags (Z.lxor FIN 255))) FIN = false.
Proof. unfold contains, from_bits. rewrite <- !Z.land_assoc. change (Z.land (Z.lxor FIN 255) (Z.land 0x1f FIN)) with 0. by rewrite Z.land_0_r. Qed.
Lemma without_fin_control s : same_control s (without_fin s).
Proof. split; cbn; rewrite ?flag_without_fin by auto; try done. by rewrite fin_without_fin. Qed.

Lemma emptied_carries s payload : emptied s payload -> carries_data s = false.
Proof. intros (_ & L & F). unfold carries_data. by rewrite L, F. Qed.
Lemma strip_data_emptied s : emptied (strip_data s) [] /\ same_control s (strip_data s).
Proof.
  split; [|apply (same_control_trans _ (with_payload_len 0 s)); [by split|apply without_fin_control]].
  split; [done|]. split; [done|]. apply fin_without_fin.
Qed.

(** Trimming leaves a segment as the wire layer delivers one. *)
Lemma shorter_ok s s' : segment_ok s -> same_control s s' -> is_seq (sequence s') -> 0 <= payload_len s' <= payload_len s -> segment_ok s'.
Proof. intros [] [] Hq Hp. split; try done; [by rewrite sc_number0|by rewrite sc_win0|lia]. Qed.

Lemma strip_data_ok s : segment_ok s -> segment_ok (strip_data s).
Proof. intros O. destruct (strip_data_emptied s) as [_ C]. apply (shorter_ok s); try done; [apply O|]. cbn. destruct O. lia. Qed.

Definition trimmed (s s' : TcpSegmentMeta) (payload' : list Z) : Prop := segment_ok s' /\ same_control s s' /\ payload_len s' = len payload'.

Lemma trim_prefix_ok next s payload s' payload' : is_seq next -> segment_ok s -> payload_len s = len payload ->
  trim_received_prefix next s payload = (s', payload') -> trimmed s s' payload'.
Proof.
  intros Hn O L. unfold trim_received_prefix, trimmed. case_bool; [by intros [= <- <-]|]. case_bool; [by intros [= <- <-]|]. intros [= <- <-].
  pose proof (distance_range next (sequence s)) as D. unfold is_seq in D.
  assert (same_control s (with_payload_len (len payload - distance_from next (sequence s)) (with_sequence next s))) as C by (by split).
  split; [|split; [done|cbn; rewrite len_drop by lia; lia]]. apply (shorter_ok s); try done. cbn. lia.
Qed.

Lemma trim_window_ok f next s payload s' payload' : segment_ok s -> payload_len s = len payload ->
  trim_to_receive_window f next s payload = (s', payload') -> trimmed s s' payload'.
Proof.
  intros O L. unfold trim_to_receive_window, trimmed. pose proof (len_nonneg payload).
  pose proof (distance_range (sequence s) next) as D1. pose proof (distance_range (advertised_right_edge (f_tcb f)) next) as D2. unfold is_seq in *.
  case_bool; [intros [= <- <-]|].
  { pose proof (strip_data_ok s O). split; [done|]. split; [apply strip_data_emptied|done]. }
  set (s1 := if contains (flags s) FIN && _ then without_fin s else s).
  assert (same_control s s1 /\ sequence s1 = sequence s /\ payload_len s1 = payload_len s) as (C1 & E1 & L1).
  { unfold s1. case_match; (split; [|done]); [apply without_fin_control|apply same_control_refl]. }
  clearbody s1. assert (segment_ok s1) as O1 by (apply (shorter_ok s); rewrite ?E1, ?L1; try done; [apply O|destruct O; lia]).
  case_bool; intros [= <- <-]; [by rewrite L1|].
  split; [|split; [|cbn; rewrite len_take; lia]].
  - apply (shorter_ok s1); [done|by split|apply O1|cbn; lia].
  - by apply (same_control_trans _ s1).
Qed.

Lemma trim_against_ok queue next s payload s' payload' : segment_ok s -> payload_len s = len payload ->
  trim_against_out_of_order queue next s payload = (s', payload') -> trimmed s s' payload'.
Proof.
  revert s payload. induction queue as [|c queue IH]; intros s payload O L; cbn [trim_against_out_of_order].
  { intros [= <- <-]. split; [done|]. split; [apply same_control_refl|done]. }
  pose proof (len_nonneg payload). pose proof (distance_range (sequence s) next) as D1. pose proof (distance_range (oc_sequence c) next) as D2. unfold is_seq in *.
  assert (trimmed s s payload) as Same by (split; [done|]; split; [apply same_control_refl|done]).
  destruct (checked_add _ _) as [e|] eqn:Ck; [|by intros [= <- <-]]. apply checked_add_Some in Ck as [-> _].
  case_bool; [by intros [= <- <-]|]. destruct (Z.ltb_spec (distance_from (sequence s) next) (distance_from (oc_sequence c) next)).
  { intros [= <- <-]. set (k := distance_from (oc_sequence c) next - distance_from (sequence s) next).
    assert (same_control s (with_payload_len k s)) as C by (by split).
    assert (segment_ok (with_payload_len k s)) as O1 by (apply (shorter_ok s); try done; [apply O|cbn; lia]).
    assert (len (take (Z.to_nat k) payload) = k) as Lk by (rewrite len_take; lia). unfold trimmed. rewrite Lk. case_match.
    - split; [|split; [apply (same_control_trans _ (with_payload_len k s)); [done|apply without_fin_control]|done]].
      apply (shorter_ok (with_payload_len k s)); try done; [apply without_fin_control|apply O|cbn; lia].
    - done. }
  case_bool; [|by apply IH]. set (k := Z.min _ _). pose proof (len_drop k payload ltac:(lia)) as Ld.
  set (s1 := with_payload_len _ _).
  assert (same_control s s1) as C1 by (by split).
  assert (segment_ok s1) as O1 by (apply (shorter_ok s); try done; [apply seq_add_range|cbn; lia]).
  case_bool; [by intros [= <- <-]|]. intros T. destruct (IH s1 _ O1 eq_refl T) as (? & C2 & ?). split; [done|]. split; [|done]. by apply (same_control_trans _ s1).
Qed.

(** *** Trimming *)
(** [left]: the position of the left edge, [edge] of the right one. *)
Context (left edge : Z).
Hypothesis Hedge : 0 <= edge - left <= MAX_WINDOW.

Lemma trim_prefix_at q s payload s' payload' : seg_at q s payload -> - 2147483648 < left - q <= 2147483648 -> 0 <= left -> contains (flags s) SYN = false ->
  trim_received_prefix (seq_add base left) s payload = (s', payload') ->
  exists q', seg_at q' s' payload' /\ same_control s s' /\ contains (flags s') FIN = contains (flags s) FIN /\ q' + len payload' = q + len payload /\
    (q' = q /\ (left <= q \/ q + len payload < left) \/ q' = left /\ q < left).
Proof.
  intros [E P L B N F] D Hl SY. unfold trim_received_prefix. rewrite SY, E, after_signed by lia. cbn [orb].
  destruct (Z.ltb_spec q left) as [Q|Q]; cbn [negb].
  2: { intros [= <- <-]. exists q. split; [by split|]. split; [apply same_control_refl|]. split; [done|]. split; [done|]. lia. }
  rewrite distance_ahead by lia. case_bool; intros [= <- <-].
  { exists q. split; [by split|]. split; [apply same_control_refl|]. split; [done|]. split; [done|]. lia. }
  assert (len (drop (Z.to_nat (left - q)) payload) = len payload - (left - q)) as Ld by (rewrite len_drop by lia; lia).
  exists left. split; [|split; [by split|]; split; [done|]; lia].
  split; cbn; rewrite ?Ld; try done; try lia.
  - rewrite B at 1. rewrite drop_sub by lia. f_equal; lia.
  - intros X. specialize (F X). lia.
Qed.

Lemma trim_window_at f q s payload s' payload' : seg_at q s payload -> - 2147483648 < left - q <= 2147483648 -> q - left < 2147483648 ->
  advertised_right_edge (f_tcb f) = seq_add base edge ->
  trim_to_receive_window f (seq_add base left) s payload = (s', payload') ->
  same_control s s' /\
  (emptied s' payload' /\ (q < left \/ edge <= q) \/
   seg_at q s' payload' /\ left <= q /\ q < edge /\ q + len payload' <= edge /\ (contains (flags s') FIN = true -> q + len payload' < edge) /\
   (0 < len payload -> 0 < len payload') /\ (carries_data s = true -> carries_data s' = true)).
Proof.
  intros [E P L B N F] D D2 He. unfold trim_to_receive_window. rewrite E, He, (distance_ahead base edge left) by (unfold MAX_WINDOW in *; lia).
  assert (edge - left <= distance_from (seq_add base q) (seq_add base left) <-> q < left \/ edge <= q) as W.
  { destruct (Z.lt_ge_cases q left); [rewrite distance_behind by lia|rewrite distance_ahead by lia]; unfold MAX_WINDOW in *; lia. }
  destruct (Z.leb_spec (edge - left) (distance_from (seq_add base q) (seq_add base left))) as [O|O].
  - intros [= <- <-]. split; [apply (same_control_trans _ (with_payload_len 0 s)); [by split|apply without_fin_control]|].
    left. split; [|tauto]. split; [done|]. split; [done|]. apply fin_without_fin.
  - assert (left <= q < edge) as Q by lia.
    rewrite (distance_ahead base q left) by lia. replace (edge - left - (q - left)) with (edge - q) by lia.
    set (s1 := if contains (flags s) FIN && _ then without_fin s else s).
    assert (same_control s s1 /\ payload_len s1 = payload_len s /\ sequence s1 = sequence s /\
      (contains (flags s1) FIN = contains (flags s) FIN && (len payload <? edge - q))) as (C1 & L1 & E1 & F1).
    { unfold s1. destruct (contains (flags s) FIN) eqn:X; cbn [andb]; [|by split; [apply same_control_refl|]]. case_bool.
      - split; [apply without_fin_control|]. split; [done|]. split; [done|]. cbn. rewrite fin_without_fin. lia.
      - split; [apply same_control_refl|]. split; [done|]. split; [done|]. rewrite X. lia. }
    clearbody s1. destruct (Z.leb_spec (len payload) (edge - q)); intros [= <- <-].
    + split; [done|]. right. split; [split; rewrite ?L1, ?E1; try done; intros X; apply F; rewrite F1 in X; by destruct (contains (flags s) FIN)|].
      split_and!; try lia; [rewrite F1; intros X; apply andb_true_iff in X as [_ X]; lia|].
      unfold carries_data. rewrite L1, F1, L. destruct (contains (flags s) FIN); cbn; lia.
    + assert (len (take (Z.to_nat (edge - q)) payload) = edge - q) as Lt by (rewrite len_take; lia).
      assert (contains (flags s1) FIN = false) as NF by (rewrite F1; replace (len payload <? edge - q) with false by lia; apply andb_false_r).
      split; [apply (same_control_trans _ s1); [done|by split]|]. right. split; [split; cbn; rewrite ?Lt, ?NF; try done; try lia|].
      * rewrite B at 1. apply take_sub; lia.
      * cbn. rewrite Lt, NF. split_and!; try lia; try done. intros _. unfold carries_data. cbn. lia.
Qed.

(** *** The out-of-order queue *)
(** Chunks of the stream in order and apart, from position [lo] up to the edge. *)
Fixpoint queue_at (lo : Z) (queue : list OutOfOrderChunk) : Prop :=
  match queue with
  | [] => True
  | c :: queue =>
    exists x, oc_sequence c = seq_add base x /\ lo <= x /\ 0 < len (oc_bytes c) /\ oc_bytes c = sub S x (x + len (oc_bytes c)) /\
      x + len (oc_bytes c) <= len S /\ x + len (oc_bytes c) <= edge /\ queue_at (x + len (oc_bytes c)) queue
  end.

Lemma queue_at_lower lo lo' queue : queue_at lo queue -> lo' <= lo -> queue_at lo' queue.
Proof. destruct queue as [|c queue]; [done|]. intros (x & ? & ? & H) ?. exists x. split; [done|]. split; [lia|done]. Qed.

Lemma trim_against_at queue lo q s payload s' payload' : queue_at lo queue -> left <= lo -> seg_at q s payload -> left <= q ->
  q + len payload <= edge -> (contains (flags s) FIN = true -> q + len payload < edge) ->
  trim_against_out_of_order queue (seq_add base left) s payload = (s', payload') ->
  same_control s s' /\ exists q', seg_at q' s' payload' /\ q <= q' /\ q' + len payload' <= edge /\ (contains (flags s') FIN = true -> q' + len payload' < edge) /\
    (q < lo -> q' = q /\ (0 < len payload -> 0 < len payload') /\ (carries_data s = true -> carries_data s' = true) /\ queue_at (Z.max lo (q + len payload')) queue).
Proof.
  revert lo q s payload. induction queue as [|c queue IH]; intros lo q s payload HQ Hl Hs Hq He Hf.
  { intros [= <- <-]. split; [apply same_control_refl|]. exists q. by auto 10 with lia. }
  destruct HQ as (x & Ex & Hx & Lc & Bc & Nc & Hxe & HQ). cbn [trim_against_out_of_order]. unfold MAX_WINDOW in Hedge.
  pose proof Hs as [E P L B N F]. pose proof (len_nonneg payload) as L0.
  rewrite E, Ex, !distance_ahead by lia. unfold checked_add, sat_add. rewrite (proj2 (Z.leb_le _ _)), (Z.min_l (x - left + len (oc_bytes c))) by (unfold u64_max; lia).
  assert (forall k, q < lo -> k <= x -> queue_at (Z.max lo k) (c :: queue)) as Keep.
  { intros k _ Hk. exists x. split; [done|]. split; [lia|]. done. }
  destruct (Z.leb_spec (q - left + len payload) (x - left)).
  { intros [= <- <-]. split; [apply same_control_refl|]. exists q. split; [done|]. split; [lia|]. split; [done|]. split; [done|].
    intros Q. split; [done|]. split; [done|]. split; [done|]. apply Keep; lia. }
  destruct (Z.ltb_spec (q - left) (x - left)) as [Q|Q].
  - replace (x - left - (q - left)) with (x - q) by lia. set (s1 := if contains _ FIN then _ else _). intros [= <- <-].
    assert (same_control s s1 /\ contains (flags s1) FIN = false /\ sequence s1 = sequence s /\ payload_len s1 = x - q) as (C1 & F1 & E1 & L1).
    { unfold s1. destruct (contains (flags (with_payload_len (x - q) s)) FIN) eqn:X.
      - split; [apply (same_control_trans _ (with_payload_len (x - q) s)); [by split|apply without_fin_control]|]. split; [apply fin_without_fin|done].
      - split; [by split|done]. }
    clearbody s1. assert (len (take (Z.to_nat (x - q)) payload) = x - q) as Lt by (rewrite len_take; lia).
    split; [done|]. exists q. rewrite Lt, F1. split; [split; rewrite ?Lt, ?F1; try done; try lia; try congruence|].
    + rewrite B at 1. apply take_sub; lia.
    + split; [lia|]. split; [lia|]. split; [done|]. intros Ql. split; [done|]. split; [lia|]. split; [|apply Keep; lia].
      intros _. unfold carries_data. rewrite L1. lia.
  - destruct (Z.ltb_spec (q - left) (x - left + len (oc_bytes c))).
    2: { intros T. destruct (IH (x + len (oc_bytes c)) q s payload HQ) as (C & q' & A & Hq' & He' & Hf' & _); try done; try lia.
         split; [done|]. exists q'. split; [done|]. split; [done|]. split; [done|]. split; [done|]. lia. }
    set (k := Z.min (x - left + len (oc_bytes c) - (q - left)) (len payload)).
    assert (len (drop (Z.to_nat k) payload) = len payload - k) as Ld by (rewrite len_drop by lia; lia).
    set (s1 := with_payload_len _ _).
    assert (seg_at (q + k) s1 (drop (Z.to_nat k) payload)) as A1.
    { unfold s1. split; cbn; rewrite ?Ld; try done; try lia.
      - by rewrite seq_add_assoc.
      - rewrite B at 1. rewrite drop_sub by lia. f_equal; lia.
      - intros X. specialize (F X). lia. }
    assert (same_control s s1) as C1 by (by split).
    rewrite Ld. destruct (Z.eqb_spec (len payload - k) 0).
    + intros [= <- <-]. split; [done|]. exists (q + k). split; [done|]. split; [lia|]. rewrite Ld. split; [lia|]. split; [|lia].
      intros X. specialize (Hf X). lia.
    + intros T. destruct (IH (x + len (oc_bytes c)) (q + k) s1 _ HQ ltac:(lia) A1) as (C & q' & A & Hq' & He' & Hf' & _); try done; rewrite ?Ld; try lia.
      { intros X. specialize (Hf X). lia. }
      split; [by apply (same_control_trans _ s1)|]. exists q'. split; [done|]. split; [lia|]. split; [done|]. split; [done|]. lia.
Qed.

(** A chunk that overlaps none finds its place. *)
Lemma insert_chunk_at queue lo next x c : queue_at lo queue -> next <= lo -> edge - next <= MAX_WINDOW ->
  oc_sequence c = seq_add base x -> lo <= x -> 0 < len (oc_bytes c) -> oc_bytes c = sub S x (x + len (oc_bytes c)) ->
  x + len (oc_bytes c) <= len S -> x + len (oc_bytes c) <= edge ->
  existsb (fun d => (x - next <? sat_add (distance_from (oc_sequence d) (seq_add base next)) (len (oc_bytes d))) &&
    (distance_from (oc_sequence d) (seq_add base next) <? x - next + len (oc_bytes c))) queue = false ->
  queue_at lo (insert_chunk (seq_add base next) c queue).
Proof.
  intros HQ Hn Hw Ex Hx Lc Bc Nc Hxe. unfold MAX_WINDOW in *. revert lo HQ Hn Hx. induction queue as [|d queue IH]; intros lo HQ Hn Hx; cbn [existsb insert_chunk].
  { intros _. exists x. done. }
  destruct HQ as (y & Ey & Hy & Ld & Bd & Nd & Hye & HQ). rewrite Ex, Ey, !distance_ahead by lia.
  unfold sat_add at 1. rewrite Z.min_l by (unfold u64_max; lia). intros [O1 O2]%orb_false_iff.
  destruct (Z.ltb_spec (y - next) (x - next)) as [Q|Q].
  - exists y. do 6 (split; [done|]). apply IH; try done; lia.
  - exists x. do 6 (split; [done|]). exists y. split; [done|]. split; [lia|]. done.
Qed.

(** Data that ends the stream cuts nothing off. *)
Lemma truncate_at_end queue lo l : queue_at lo queue -> 0 <= lo -> len S - lo < 2147483648 ->
  truncate_out_of_order_at_fin (seq_add base (len S)) queue l = (queue, l).
Proof.
  revert lo. induction queue as [|c queue IH]; intros lo HQ Hl Hn; [done|]. destruct HQ as (x & Ex & Hx & Lc & Bc & Nc & Hxe & HQ).
  cbn [truncate_out_of_order_at_fin]. rewrite Ex, distance_ahead, before_signed by lia.
  replace (x <? len S) with true by lia. replace (len S - x <? len (oc_bytes c)) with false by lia. cbn [negb orb].
  replace (len (oc_bytes c) =? 0) with false by lia. rewrite (IH _ HQ) by lia. rewrite <- Ex. by destruct c.
Qed.
End Stream.
