(* ===== verification/TcpReceiveInv.v ===== *)
(** The receive side of a flow of [sail-netstack/src/tcp/table.rs] as an invariant
    about the peer's stream: what was read, what is buffered, what waits out of
    order, and where the control block stands; and what admission makes of a
    segment. *)
From S2P Require Import Prelude StateMonad Partial TcpSeq Congestion TcpTcb TcpInvariant TcpHandlers Budget IpWire TcpWire TcpFlow TcpSegment TcpReceive.
From stdpp Require Import list sets.
#[local] Open Scope Z_scope.

Definition unread (c : ReceiveChunk) : list Z := drop (Z.to_nat (rc_offset c)) (rc_bytes c).
Definition opt_list {A} (o : option A) : list A := match o with Some x => [x] | None => [] end.

(** ** Positions: [r] bytes of the stream were read *)
Definition taken_pos (r : Z) (t : TcpTcb) : Z := r + recv_buffered t.
Definition next_pos (r : Z) (t : TcpTcb) : Z := taken_pos r t + b2z (peer_receive_closed t).
Definition edge_pos (r : Z) (t : TcpTcb) : Z := next_pos r t + open_window t.
(** The SYN's data and FIN, taken when the handshake completes. *)
Definition held (t : TcpTcb) : Z := pending_initial_payload_len t + b2z (pending_initial_fin t).

Section Receive.
Context (S : list Z) (base : Z).

(** [k]: how far ahead of RCV.NXT queued data starts; it is 1, but for the moment
    before promotion. *)
Record rx_core (k r : Z) (t : TcpTcb) (receive : list ReceiveChunk) (initial : option ReceiveChunk) (queue : list OutOfOrderChunk)
    (fin : option SeqNumber) : Prop := {
  rc_read : 0 <= r;
  rc_next : state t <> SynSent -> recv_next t = seq_add base (next_pos r t);
  rc_end : taken_pos r t + pending_initial_payload_len t <= len S;
  rc_fin : peer_receive_closed t || pending_initial_fin t = true -> taken_pos r t + pending_initial_payload_len t = len S;
  rc_buffered : concat (unread <$> receive) = sub S r (taken_pos r t);
  rc_chunks : Forall (fun c => 0 <= rc_offset c < len (rc_bytes c)) receive;
  rc_initial : match initial with
    | Some c => state t = SynReceived /\ rc_offset c = 0 /\ 0 < pending_initial_payload_len t /\
                rc_bytes c = sub S (taken_pos r t) (taken_pos r t + pending_initial_payload_len t)
    | None => pending_initial_payload_len t = 0
    end;
  rc_active : active_open t = true -> pending_initial_payload_len t = 0 /\ pending_initial_fin t = false;
  rc_queue : queue_at S base (edge_pos r t) (next_pos r t + Z.max k (held t)) queue;
  rc_queue_fin : match fin with
    | Some y => y = seq_add base (len S) /\ next_pos r t + Z.max k (held t) <= len S < edge_pos r t
    | None => True
    end
}.

Record rx_live (r : Z) (f : TcpFlow) : Prop := {
  rl_core : rx_core 1 r (f_tcb f) (f_receive f) (f_pending_initial_receive f) (f_out_of_order f) (f_out_of_order_fin f);
  rl_closed : peer_receive_closed (f_tcb f) = true -> f_out_of_order f = [] /\ f_out_of_order_fin f = None;
  rl_opening : state (f_tcb f) = SynSent -> r = 0 /\ f_receive f = [] /\ f_out_of_order f = [] /\ f_out_of_order_fin f = None
}.

(** A segment of the peer's stream, not older or newer than 2^30 bytes. *)
Record genuine (r : Z) (t : TcpTcb) (s : TcpSegmentMeta) (payload : list Z) : Prop := {
  gn_segment : segment_ok s;
  gn_ack : contains (flags s) ACK = true -> is_Some (acknowledgment s);
  gn_syn : state t = SynSent -> contains (flags s) SYN = true -> seq_add (sequence s) 1 = base;
  gn_stream : contains (flags s) SYN = false -> contains (flags s) RST = false ->
    exists q, seg_at S base q s payload /\ - 1073741824 < q - next_pos r t < 1073741824
}.

(** ** Facts *)
Lemma core_queue_none k r t receive initial queue fin : rx_core k r t receive initial queue fin -> rx_core k r t receive initial [] None.
Proof. intros []. by split. Qed.

Lemma core_positions k r t receive initial queue fin : rx_core k r t receive initial queue fin -> tcb_wf t -> state t <> Closed ->
  0 <= taken_pos r t <= len S /\ 0 <= held t <= open_window t /\ 0 <= edge_pos r t - (next_pos r t + held t) <= MAX_WINDOW /\ taken_pos r t <= next_pos r t <= taken_pos r t + 1.
Proof.
  intros C W Hc. pose proof (wf_pending_len _ W). pose proof (wf_pending _ W) as P. pose proof (wf_window_max _ W). pose proof (wf_buffered _ W).
  pose proof (open_window_nonneg t). destruct C as [C1 _ C2 _ _ _ _ _ _ _].
  unfold held, edge_pos, next_pos, taken_pos, pending_ok in *. assert (0 <= pending_initial_payload_len t + b2z (pending_initial_fin t) <= open_window t).
  { destruct (state t); try done; destruct (pending_initial_fin t); cbn in *; lia. }
  destruct (peer_receive_closed t); cbn; lia.
Qed.

Lemma edge_seq k r t receive initial queue fin : rx_core k r t receive initial queue fin -> tcb_wf t -> state t <> SynSent ->
  advertised_right_edge t = seq_add base (edge_pos r t).
Proof.
  intros C W Hs. unfold edge_pos. rewrite <- seq_add_assoc, <- (rc_next _ _ _ _ _ _ _ C Hs). unfold open_window. symmetry. apply seq_add_distance; apply W.
Qed.

(** [receive_admission_left_edge] is past what the handshake holds. *)
Lemma left_edge_seq k r t receive initial queue fin : rx_core k r t receive initial queue fin -> tcb_wf t -> state t <> SynSent -> state t <> Closed ->
  receive_admission_left_edge t = seq_add base (next_pos r t + held t) /\ (synchronized (state t) -> held t = 0).
Proof.
  intros C W Hs Hc. pose proof (core_positions _ _ _ _ _ _ _ C W Hc) as P. unfold receive_admission_left_edge, state_is. rewrite (rc_next _ _ _ _ _ _ _ C Hs).
  pose proof (wf_pending _ W) as Hp. unfold pending_ok in Hp. pose proof (wf_window_max _ W). unfold MAX_WINDOW in *. case_bool_decide as St.
  - rewrite seq_add_assoc. split; [|by rewrite St]. f_equal. unfold held in *. rewrite uadd_small; [done|]. width.
  - assert (held t = 0) as ->. { unfold held. destruct (state t); try done; destruct Hp as [-> ->]; done. }
    by rewrite Z.add_0_r.
Qed.

(** ** Trimming a segment for a flow *)
Lemma normalize_ok f s payload accepting s' payload' a : tcb_wf (f_tcb f) -> segment_ok s -> payload_len s = len payload ->
  normalize_receive_segment f s payload accepting = (s', payload', a) -> a = payload_is_admissible f s /\ trimmed s s' payload'.
Proof.
  intros W O L. unfold normalize_receive_segment. destruct (negb (payload_is_admissible f s) || accepting) eqn:X.
  { intros [= <- <- <-]. split; [done|]. split; [done|]. split; [apply same_control_refl|done]. }
  apply orb_false_iff in X as [X _]. apply negb_false_iff in X. rewrite X.
  destruct (trim_received_prefix _ s payload) as [s1 p1] eqn:T1. destruct (trim_to_receive_window _ _ s1 p1) as [s2 p2] eqn:T2.
  destruct (trim_against_out_of_order _ _ s2 p2) as [s3 p3] eqn:T3. intros [= <- <- <-]. split; [done|].
  assert (is_seq (receive_admission_left_edge (f_tcb f))) as Hl by (unfold receive_admission_left_edge; destruct (state_is (f_tcb f) SynReceived); [apply seq_add_range|apply W]).
  destruct (trim_prefix_ok _ _ _ _ _ Hl O L T1) as (O1 & C1 & L1).
  destruct (trim_window_ok _ _ _ _ _ _ O1 L1 T2) as (O2 & C2 & L2). destruct (trim_against_ok _ _ _ _ _ _ O2 L2 T3) as (O3 & C3 & L3).
  split; [done|]. split; [by eapply same_control_trans, same_control_trans|done].
Qed.

Section Normalize.
Context (k r : Z) (f : TcpFlow) (receive : list ReceiveChunk) (initial : option ReceiveChunk) (fin : option SeqNumber).
Abbreviation t := (f_tcb f).
Hypothesis (core : rx_core k r (f_tcb f) receive initial (f_out_of_order f) fin) (wf : tcb_wf (f_tcb f)).
Hypothesis (open1 : state (f_tcb f) <> SynSent) (open2 : state (f_tcb f) <> Closed) (ahead : 1 <= k).

Lemma segment_length_at q s payload : seg_at S base q s payload -> segment_ok s -> contains (flags s) SYN = false ->
  segment_length s = len payload + b2z (contains (flags s) FIN).
Proof.
  intros A O SY. unfold segment_length. rewrite SY, (sa_len _ _ _ _ _ A). pose proof (so_payload _ O) as P. rewrite (sa_len _ _ _ _ _ A) in P.
  change (b2z false) with 0. unfold u16_max in P. rewrite (uadd_small (len payload) 0) by (unfold u64_max; lia).
  destruct (contains (flags s) FIN); cbn [b2z]; rewrite uadd_small by (unfold u64_max; lia); lia.
Qed.

Lemma acceptable_at q s payload : seg_at S base q s payload -> segment_ok s -> contains (flags s) SYN = false -> - 1073741824 < q - next_pos r t < 1073741824 ->
  segment_acceptable t s = (q <=? edge_pos r t) &&
    (if len payload + b2z (contains (flags s) FIN) =? 0 then next_pos r t <=? q else next_pos r t <? q + (len payload + b2z (contains (flags s) FIN))).
Proof.
  intros A O SY Hn. unfold segment_acceptable. rewrite (segment_length_at _ _ _ A O SY), (sa_sequence _ _ _ _ _ A), (edge_seq _ _ _ _ _ _ _ core wf open1).
  rewrite (rc_next _ _ _ _ _ _ _ core open1), seq_add_assoc. pose proof (wf_window_max _ wf). pose proof (open_window_nonneg t).
  pose proof (so_payload _ O) as P. rewrite (sa_len _ _ _ _ _ A) in P. pose proof (len_nonneg payload).
  unfold edge_pos, MAX_WINDOW in *. unfold u16_max in P.
  assert (0 <= b2z (contains (flags s) FIN) <= 1) by (destruct (contains (flags s) FIN); cbn; lia).
  rewrite !after_signed, before_signed by lia. replace (q <=? next_pos r t + open_window t) with (negb (next_pos r t + open_window t <? q)) by lia.
  destruct (next_pos r t + open_window t <? q); [done|]. cbn [negb andb]. destruct (len payload + b2z (contains (flags s) FIN) =? 0); lia.
Qed.

Lemma admissible_inv s : payload_is_admissible f s = true ->
  peer_receive_closed t = false /\ segment_acceptable t s = true /\ contains (flags s) ACK = true /\ contains (flags s) SYN = false /\
  contains (flags s) RST = false /\ exists a, acknowledgment s = Some a /\ after a (send_next t) = false.
Proof.
  unfold payload_is_admissible, accepts_receive_sequence. rewrite !andb_true_iff, !negb_true_iff. intros (((((H1 & H2) & H3) & H4) & H5) & H6).
  split_and!; try done. destruct (acknowledgment s) as [a|]; [|done]. exists a. by apply negb_true_iff in H6.
Qed.

Lemma trim_against_emptied queue next s payload s' payload' : emptied s payload -> trim_against_out_of_order queue next s payload = (s', payload') ->
  emptied s' payload' /\ same_control s s'.
Proof.
  intros (-> & L & F). revert s L F. induction queue as [|c queue IH]; intros s L F; cbn [trim_against_out_of_order].
  { intros [= <- <-]. by repeat split. }
  rewrite len_nil. destruct (checked_add _ _) as [e|] eqn:Ck; [|intros [= <- <-]; by repeat split]. apply checked_add_Some in Ck as [-> _].
  case_bool; [intros [= <- <-]; by repeat split|]. destruct (Z.ltb_spec (distance_from (sequence s) next) (distance_from (oc_sequence c) next)); [lia|].
  case_bool; [|by apply IH]. rewrite drop_nil. cbn [len length Z.of_nat Z.eqb]. intros [= <- <-]. by repeat split.
Qed.

Lemma normalize_at s payload s' payload' a : payload_is_admissible f s = true -> genuine r t s payload ->
  normalize_receive_segment f s payload false = (s', payload', a) ->
  a = true /\ same_control s s' /\ exists q, seg_at S base q s payload /\ - 1073741824 < q - next_pos r t < 1073741824 /\
  (emptied s' payload' /\ (q <= next_pos r t -> held t = 0 -> carries_data s = true -> open_window t = 0) \/
   exists q', seg_at S base q' s' payload' /\ next_pos r t + held t <= q' /\ q <= q' /\ q' + len payload' <= edge_pos r t /\
     (contains (flags s') FIN = true -> q' + len payload' < edge_pos r t) /\
     (held t = 0 -> q <= next_pos r t -> q' = next_pos r t /\ (carries_data s = true -> carries_data s' = true) /\
        queue_at S base (edge_pos r t) (Z.max (next_pos r t + k) (next_pos r t + len payload')) (f_out_of_order f))).
Proof.
  intros Ha G. unfold normalize_receive_segment. rewrite Ha. cbn [negb orb].
  destruct (admissible_inv _ Ha) as (PC & Acc & AC & SY & R & _). destruct (gn_stream _ _ _ _ G SY R) as (q & A & Hn).
  destruct (core_positions _ _ _ _ _ _ _ core wf open2) as (P1 & P2 & P3 & P4). pose proof (wf_window_max _ wf). unfold MAX_WINDOW in *.
  rewrite (proj1 (left_edge_seq _ _ _ _ _ _ _ core wf open1 open2)). set (L := next_pos r t + held t) in *.
  assert (0 <= L) by lia.
  destruct (trim_received_prefix _ s payload) as [s1 p1] eqn:T1. destruct (trim_to_receive_window _ _ s1 p1) as [s2 p2] eqn:T2.
  destruct (trim_against_out_of_order _ _ s2 p2) as [s3 p3] eqn:T3. intros [= <- <- <-]. split; [done|].
  destruct (trim_prefix_at S base L q s payload s1 p1 A) as (q1 & A1 & C1 & F1 & N1 & Q1); try done; [unfold edge_pos in *; lia|].
  destruct (trim_window_at S base L (edge_pos r t) P3 f q1 s1 p1 s2 p2 A1) as (C2 & W2); try done; [unfold edge_pos in *; lia|unfold edge_pos in *; lia|by apply (edge_seq _ _ _ _ _ _ _ core)|].
  destruct W2 as [[Em Why]|(A2 & Q2 & Q3 & E2 & Fi2 & _ & Cy2)].
  { destruct (trim_against_emptied _ _ _ _ _ _ Em T3) as [Em3 C3]. split; [by eapply same_control_trans, same_control_trans|].
    exists q. split; [done|]. split; [done|]. left. split; [done|]. intros Hq Hh Cy. rewrite (acceptable_at _ _ _ A (gn_segment _ _ _ _ G) SY Hn) in Acc.
    apply andb_true_iff in Acc as [_ Acc]. unfold carries_data in Cy. rewrite (sa_len _ _ _ _ _ A) in Cy. pose proof (len_nonneg payload).
    unfold edge_pos in *. destruct (contains (flags s) FIN); cbn in *; case_match; lia. }
  destruct (trim_against_at S base L (edge_pos r t) P3 (f_out_of_order f) (next_pos r t + Z.max k (held t)) q1 s2 p2 s3 p3) as (C3 & q3 & A3 & Q4 & E3 & Fi3 & Lo); try done; [apply core|lia|].
  split; [by eapply same_control_trans, same_control_trans|]. exists q. split; [done|]. split; [done|]. right. exists q3. split; [done|]. split; [lia|]. split; [lia|].
  split; [done|]. split; [done|]. intros Hh Hq. rewrite Hh, Z.max_l in Lo by lia. destruct Lo as (-> & _ & Cy3 & HQ); [lia|].
  split; [lia|]. split.
  - intros Cy. apply Cy3, Cy2. unfold carries_data in *. rewrite F1, (sa_len _ _ _ _ _ A1). rewrite (sa_len _ _ _ _ _ A) in Cy.
    rewrite (acceptable_at _ _ _ A (gn_segment _ _ _ _ G) SY Hn) in Acc. apply andb_true_iff in Acc as [_ Acc]. pose proof (len_nonneg payload). pose proof (len_nonneg p1).
    destruct (contains (flags s) FIN); cbn in *; [apply orb_true_r|]. rewrite orb_false_r in *. case_match; lia.
  - eapply queue_at_lower; [exact HQ|]. lia.
Qed.
End Normalize.

(** ** A segment moves the control block *)
Lemma window_after t t' acts n fin : tcb_wf t -> segment_frame t t' acts -> tells acts n fin -> 0 <= n -> n + b2z fin <= open_window t ->
  open_window t' = open_window t - (n + b2z fin).
Proof.
  intros W F T Hn Hw. unfold open_window in *. rewrite (sf_edge _ _ _ F), (sf_next _ _ _ F), (tl_delivered _ _ _ T), (tl_fins _ _ _ T).
  apply distance_advance; [apply W|apply W|]. destruct fin; cbn in *; lia.
Qed.

Lemma synchronized_pending t : tcb_wf t -> synchronized (state t) -> pending_initial_payload_len t = 0 /\ pending_initial_fin t = false.
Proof. intros W Y. pose proof (wf_pending _ W) as P. unfold pending_ok in P. by destruct (state t). Qed.

(** What was taken joins the receive queue. *)
Lemma core_move k k' r t receive initial queue qfin t' acts n fin receive' queue' qfin' : rx_core k r t receive initial queue qfin -> tcb_wf t ->
  state t <> SynSent -> segment_frame t t' acts -> tells acts n fin -> 0 <= n -> n + b2z fin <= open_window t -> synchronized (state t') ->
  peer_receive_closed t' = peer_receive_closed t || fin -> (fin = true -> peer_receive_closed t = false) ->
  taken_pos r t + n <= len S -> (peer_receive_closed t || fin = true -> taken_pos r t + n = len S) ->
  concat (unread <$> receive') = concat (unread <$> receive) ++ sub S (taken_pos r t) (taken_pos r t + n) ->
  Forall (fun c => 0 <= rc_offset c < len (rc_bytes c)) receive' -> 0 <= k' ->
  queue_at S base (edge_pos r t) (next_pos r t + n + b2z fin + k') queue' ->
  match qfin' with Some y => y = seq_add base (len S) /\ next_pos r t + n + b2z fin + k' <= len S < edge_pos r t | None => True end ->
  rx_core k' r t' receive' None queue' qfin'.
Proof.
  intros C W Hs F T Hn Hw Y Hp Hf He Hfe Hc Hr Hk HQ HF. pose proof (window_after _ _ _ _ _ W F T Hn Hw) as Hw'.
  destruct (synchronized_pending t' (sf_wf _ _ _ F) Y) as [P1 P2]. pose proof (sf_buffered _ _ _ F) as B. rewrite (tl_delivered _ _ _ T) in B.
  assert (taken_pos r t' = taken_pos r t + n) as Et by (unfold taken_pos; lia).
  assert (next_pos r t' = next_pos r t + n + b2z fin) as En.
  { unfold next_pos. rewrite Et, Hp. destruct fin, (peer_receive_closed t); cbn; try lia; by specialize (Hf eq_refl). }
  assert (edge_pos r t' = edge_pos r t) as Ee by (unfold edge_pos; lia).
  assert (held t' = 0) as Eh by (unfold held; by rewrite P1, P2).
  split; rewrite ?Et, ?Ee, ?En, ?Eh, ?P1, ?P2, ?Z.max_l by lia; try done.
  - apply C.
  - intros _. rewrite (sf_next _ _ _ F), (tl_delivered _ _ _ T), (tl_fins _ _ _ T), (rc_next _ _ _ _ _ _ _ C Hs), seq_add_assoc. f_equal. lia.
  - lia.
  - rewrite orb_false_r, Hp. intros X. specialize (Hfe X). lia.
  - rewrite Hc, (rc_buffered _ _ _ _ _ _ _ C). pose proof (rc_read _ _ _ _ _ _ _ C). pose proof (wf_buffered _ W). apply sub_join; unfold taken_pos in *; lia.
Qed.

Lemma core_requeue k k' r t receive initial queue qfin queue' qfin' : rx_core k r t receive initial queue qfin ->
  queue_at S base (edge_pos r t) (next_pos r t + Z.max k' (held t)) queue' ->
  match qfin' with Some y => y = seq_add base (len S) /\ next_pos r t + Z.max k' (held t) <= len S < edge_pos r t | None => True end ->
  rx_core k' r t receive initial queue' qfin'.
Proof. intros []. by split. Qed.

(** ** Admission *)
Definition prepared (f : TcpFlow) (s : TcpSegmentMeta) (payload : list Z) (admissible accepting : bool) (a : ReceiveAdmission) : Prop :=
  ra_buffering a = admissible && negb (len payload =? 0) &&
    ((sequence s =? recv_next (f_tcb f)) || accepting && bool_decide (is_Some (final_ack_payload_capacity (f_tcb f)))) /\
  (if ra_buffering a then exists lease, ra_chunk a = Some (mkReceiveChunk payload 0 lease) else ra_chunk a = None) /\
  match ra_out_of_order a with
  | Some c =>
    admissible = true /\ ra_buffering a = false /\ accepting = false /\ oc_sequence c = sequence s /\ oc_bytes c = payload /\
    after (sequence s) (recv_next (f_tcb f)) = true /\ len payload <> 0 /\
    distance_from (sequence s) (recv_next (f_tcb f)) + len payload <= open_window (f_tcb f) /\
    out_of_order_overlaps f (distance_from (sequence s) (recv_next (f_tcb f))) (distance_from (sequence s) (recv_next (f_tcb f)) + len payload) = false
  | None => True
  end /\
  ra_out_of_order_fin a = if accepting then None else out_of_order_fin f s admissible.

Lemma prepare_prepared budget f s payload admissible accepting l :
  wlp (prepare_receive_admission budget f s payload admissible accepting) l (fun a _ => prepared f s payload admissible accepting a) (fun _ _ => True).
Proof.
  unfold prepare_receive_admission. set (cap := if accepting then _ else None).
  assert (bool_decide (is_Some cap) = accepting && bool_decide (is_Some (final_ack_payload_capacity (f_tcb f)))) as -> by (unfold cap; by destruct accepting).
  set (buffering := admissible && _ && _). repeat (apply wlp_if; intros ?; [by apply wlp_throw|]). apply wlp_bind.
  assert (wlp (if buffering then c ← receive_chunk budget payload; mret (Some c) else mret None) l
    (fun c _ => if buffering then exists lease, c = Some (mkReceiveChunk payload 0 lease) else c = None) (fun _ _ => True)) as Hc.
  { destruct buffering; [|done]. apply wlp_bind. unfold receive_chunk. apply wlp_bind. unfold tcp_acquire. apply wlp_on.
    destruct (try_acquire _ _ _ l) as [l' [x|e| |]]; try done. eexists. done. }
  eapply wlp_mono; [exact Hc| |done]. intros chunk l' Hchunk. cbn beta. apply wlp_bind.
  apply wlp_mono with (Q := fun o _ => match o with
    | Some c => admissible = true /\ buffering = false /\ accepting = false /\ oc_sequence c = sequence s /\ oc_bytes c = payload /\
        after (sequence s) (recv_next (f_tcb f)) = true /\ len payload <> 0 /\
        distance_from (sequence s) (recv_next (f_tcb f)) + len payload <= open_window (f_tcb f) /\
        out_of_order_overlaps f (distance_from (sequence s) (recv_next (f_tcb f))) (distance_from (sequence s) (recv_next (f_tcb f)) + len payload) = false
    | None => True end) (X := fun _ _ => True); [| |done].
  - apply wlp_if; [|done]. rewrite !andb_true_iff, !negb_true_iff. intros [[-> ->] ->]. unfold admit_out_of_order.
    apply wlp_if; [done|]. intros Ha%negb_false_iff. destruct (checked_add _ _) as [e|] eqn:Ck; [|done]. apply checked_add_Some in Ck as [-> _].
    apply wlp_if; [done|]. rewrite !orb_false_iff. intros [[H1 H2] H3]. apply wlp_bind. unfold tcp_acquire. apply wlp_on.
    destruct (try_acquire _ _ _ l') as [l2 [x|e| |]]; try done. cbn. unfold open_window. split_and!; try done; lia.
  - intros o l2 Ho. cbn beta. apply wlp_ret. split; [done|]. split; [|split; [|done]]; cbn; [by destruct buffering|]. destruct o; [|done]. done.
Qed.

Lemma admit_or_strip_ok budget f s seen payload admissible accepting l :
  wlp (admit_or_strip budget f s seen payload admissible accepting) l
    (fun p _ => let '(s2, seen2, a, dropped) := p in
       dropped = false /\ s2 = s /\ seen2 = seen /\ prepared f s payload admissible accepting a \/
       dropped = true /\ accepting = false /\ s2 = strip_data s /\ seen2 = strip_data seen /\ a = nothing)
    (fun _ _ => True).
Proof.
  unfold admit_or_strip. apply wlp_bind, wlp_attempt. eapply wlp_mono; [apply prepare_prepared|..].
  - intros a l' P. cbn. by left.
  - intros e l' _. destruct e; cbn; try done. destruct (negb accepting && carries_data s) eqn:X; [|done]. cbn. right.
    apply andb_true_iff in X as [X _]. by apply negb_true_iff in X.
Qed.

(** ** The flow after its control block saw the segment *)
Definition queue_after (f : TcpFlow) (next : SeqNumber) (a : ReceiveAdmission) : list OutOfOrderChunk :=
  match ra_out_of_order a with Some c => insert_chunk next c (f_out_of_order f) | None => f_out_of_order f end.
Definition fin_after (f : TcpFlow) (a : ReceiveAdmission) : option SeqNumber :=
  match ra_out_of_order_fin a with
  | Some y => if match f_out_of_order_fin f with Some z => before y z | None => true end then Some y else f_out_of_order_fin f
  | None => f_out_of_order_fin f
  end.
(** The admitted chunk was taken. *)
Definition current (a : ReceiveAdmission) (n : Z) : bool := ra_buffering a && (0 <? n).

Record after_segment (r : Z) (f : TcpFlow) (initial : bool) (a : ReceiveAdmission) (t' : TcpTcb) (acts : list TcpAction) (n : Z) (fin : bool) : Prop := {
  as_tells : tells acts n fin;
  as_nonneg : 0 <= n;
  as_frame : segment_frame (f_tcb f) t' acts;
  as_chunk : current a n = true -> is_Some (ra_chunk a);
  as_open : state t' <> SynSent;
  as_closed : state t' = Closed -> n = 0 /\ fin = false /\ initial = false;
  as_core : state t' <> Closed ->
    rx_core (if current a n || initial then 0 else 1) r t'
      ((f_receive f ++ if initial then opt_list (f_pending_initial_receive f) else []) ++ if current a n then opt_list (ra_chunk a) else [])
      (if initial then None else f_pending_initial_receive f)
      (if fin then [] else queue_after f (recv_next t') a) (if fin then None else fin_after f a);
  as_synchronized : state t' <> Closed -> current a n || initial || fin = true -> synchronized (state t');
  as_receiving : state t' <> Closed -> current a n || initial = true -> peer_receive_closed t' = fin;
  as_peer : state t' <> Closed -> peer_receive_closed t' = true -> fin = false -> queue_after f (recv_next t') a = [] /\ fin_after f a = None
}.

Section Segment.
Context (r : Z) (f : TcpFlow).
Abbreviation t := (f_tcb f).
Hypothesis (live : rx_live r f) (wf : tcb_wf (f_tcb f)) (open1 : state (f_tcb f) <> SynSent) (open2 : state (f_tcb f) <> Closed).

(** Data ahead of RCV.NXT goes into the queue. *)
Lemma requeue_ahead s payload q a : prepared f s payload true false a -> seg_at S base q s payload -> next_pos r t + held t <= q ->
  q + len payload <= edge_pos r t -> (contains (flags s) FIN = true -> q + len payload < edge_pos r t) ->
  queue_at S base (edge_pos r t) (next_pos r t + Z.max 1 (held t)) (queue_after f (recv_next t) a) /\
  match fin_after f a with Some y => y = seq_add base (len S) /\ next_pos r t + Z.max 1 (held t) <= len S < edge_pos r t | None => True end.
Proof.
  intros (_ & _ & Po & Pf) A Hq He Hf. pose proof (rl_core _ _ live) as C. pose proof (core_positions _ _ _ _ _ _ _ C wf open2) as P.
  pose proof (rc_next _ _ _ _ _ _ _ C open1) as N. pose proof (wf_window_max _ wf). unfold MAX_WINDOW in *. pose proof (len_nonneg payload).
  assert (after (sequence s) (recv_next t) = true -> next_pos r t + Z.max 1 (held t) <= q) as Af.
  { rewrite (sa_sequence _ _ _ _ _ A), N, after_signed by (unfold edge_pos in *; lia). lia. }
  split.
  - unfold queue_after. destruct (ra_out_of_order a) as [c|]; [|apply C]. destruct Po as (_ & _ & _ & Ec & Eb & Ha & Hl & Hw & Ho). rewrite N.
    assert (distance_from (sequence s) (recv_next t) = q - next_pos r t) as D.
    { specialize (Af Ha). rewrite (sa_sequence _ _ _ _ _ A), N. apply distance_ahead. unfold edge_pos in *. lia. }
    apply (insert_chunk_at S base (edge_pos r t) _ _ (next_pos r t) q); rewrite ?Eb, ?Ec; try done; try apply A; try apply C; try lia.
    + unfold edge_pos, MAX_WINDOW. lia.
    + auto.
    + unfold out_of_order_overlaps in Ho. rewrite D, N in Ho. exact Ho.
  - unfold fin_after. rewrite Pf. unfold out_of_order_fin. pose proof (rc_queue_fin _ _ _ _ _ _ _ C) as Old.
    destruct (true && negb (peer_receive_closed t) && contains (flags s) FIN && after (sequence s) (recv_next t)) eqn:X; [|exact Old].
    destruct (match f_out_of_order_fin f with Some z => _ | None => _ end); [|exact Old].
    rewrite !andb_true_iff in X. destruct X as [[[_ _] X2] X3]. specialize (Af X3). pose proof (sa_fin _ _ _ _ _ A X2). specialize (Hf X2).
    rewrite (sa_sequence _ _ _ _ _ A), (sa_len _ _ _ _ _ A), seq_add_assoc. split; [f_equal; lia|lia].
Qed.

(** Nothing is queued of a segment that was not admissible or is stripped. *)
Lemma not_admitted a s payload accepting : prepared f s payload false accepting a -> a = nothing.
Proof.
  intros (B & Ck & O & F). cbn [andb] in B. rewrite B in Ck. destruct a as [b c o fi]; cbn in *. subst.
  destruct o; [by destruct O|]. destruct accepting; [done|]. done.
Qed.
Lemma nothing_queued : queue_after f (recv_next t) nothing = f_out_of_order f /\ fin_after f nothing = f_out_of_order_fin f.
Proof. done. Qed.

(** A synchronized block that took nothing. *)
Lemma quiet_synchronized a t' acts : synchronized (state t) -> segment_frame t t' acts -> tells acts 0 false -> heard false t t' ->
  queue_at S base (edge_pos r t) (next_pos r t + Z.max 1 (held t)) (queue_after f (recv_next t) a) ->
  match fin_after f a with Some y => y = seq_add base (len S) /\ next_pos r t + Z.max 1 (held t) <= len S < edge_pos r t | None => True end ->
  (peer_receive_closed t = true -> queue_after f (recv_next t) a = [] /\ fin_after f a = None) ->
  after_segment r f false a t' acts 0 false.
Proof.
  intros Y F T H HQ HF HP. pose proof (rl_core _ _ live) as C. destruct (synchronized_pending _ wf Y) as [P1 P2].
  assert (recv_next t' = recv_next t) as N by (rewrite (sf_next _ _ _ F), (tl_delivered _ _ _ T), (tl_fins _ _ _ T); apply seq_add_0, wf).
  assert (current a 0 = false) as Cu by (unfold current; apply andb_false_r).
  assert (f_pending_initial_receive f = None) as I.
  { pose proof (rc_initial _ _ _ _ _ _ _ C) as I. destruct (f_pending_initial_receive f); [lia|done]. }
  assert (held t = 0) as H0 by (unfold held; by rewrite P1, P2). rewrite H0 in *.
  split; rewrite ?Cu, ?N; try done.
  - intros E. destruct (decide (state t' = Closed)); [congruence|]. by destruct (H n) as [Y' _]; rewrite E in Y'.
  - intros Hc. destruct (H Hc) as [Y' Hp]. cbn [orb]. rewrite I, !app_nil_r.
    pose proof (open_window_nonneg t). pose proof (rc_end _ _ _ _ _ _ _ C) as He. rewrite P1, Z.add_0_r in He.
    apply (core_move 1 1 r t (f_receive f) _ _ _ t' acts 0 false _ _ _ C wf open1 F T); rewrite ?Z.add_0_r; cbn [b2z]; rewrite ?Z.add_0_r; try done; try lia.
    + rewrite orb_false_r. intros X. pose proof (rc_fin _ _ _ _ _ _ _ C) as Hf. rewrite X in Hf. specialize (Hf eq_refl). lia.
    + by rewrite sub_empty, app_nil_r.
    + apply C.
  - intros Hc Hp _. destruct (H Hc) as [_ E]. rewrite Hp, orb_false_r in E. by apply HP.
Qed.

Lemma untaken s t' acts : on_segment t s = (t', Ok acts) -> synchronized (state t) -> segment_ok s ->
  contains (flags s) RST = true \/ in_order t s = false -> segment_frame t t' acts /\ tells acts 0 false /\ heard false t t'.
Proof.
  intros E Y O H. destruct (on_segment_frame t s wf O open2 open1) as (t1 & acts1 & E1 & F). rewrite E in E1. simplify_eq. split; [done|].
  destruct (contains (flags s) RST) eqn:R.
  - destruct (reset_tells _ _ _ _ E open1 R) as [T [Cl| ->]]; (split; [done|]); [by intros ?|]. intros _. by rewrite orb_false_r.
  - destruct H as [|H]; [done|]. destruct (on_segment_synchronized _ _ _ _ E wf Y O R) as (T & Hh & _). unfold taken_bytes, taken_fin in *.
    rewrite H in *. done.
Qed.

Lemma not_carrying s : carries_data s = false -> in_order t s = false.
Proof. intros H. unfold in_order. change (carries s) with (carries_data s). rewrite H. by rewrite andb_false_r. Qed.

(** *** A synchronized flow *)
Lemma queue_kept : queue_at S base (edge_pos r t) (next_pos r t + Z.max 1 (held t)) (f_out_of_order f) /\
  match f_out_of_order_fin f with Some y => y = seq_add base (len S) /\ next_pos r t + Z.max 1 (held t) <= len S < edge_pos r t | None => True end.
Proof. split; apply (rl_core _ _ live). Qed.

Lemma stripped_synchronized s seen payload t' acts : synchronized (state t) -> genuine r t s payload -> same_control s seen -> segment_ok (strip_data seen) ->
  on_segment t (strip_data seen) = (t', Ok acts) -> after_segment r f false nothing t' acts 0 false.
Proof.
  intros Y G C O E. destruct (strip_data_emptied seen) as [Em _].
  destruct (untaken _ _ _ E Y O) as (F & T & H); [right; apply not_carrying; by eapply emptied_carries|].
  destruct queue_kept. apply quiet_synchronized; try done. apply live.
Qed.

(** A trimmed segment at RCV.NXT is taken whole. *)
Lemma in_order_at s s' payload : payload_is_admissible f s = true -> same_control s s' -> seg_at S base (next_pos r t) s' payload -> segment_ok s' ->
  carries_data s' = true -> len payload <= open_window t -> (contains (flags s') FIN = true -> len payload < open_window t) ->
  in_order t s' = true /\ taken_bytes t s' = len payload /\ taken_fin t s' = contains (flags s') FIN.
Proof.
  intros Ha C A O Cy Hw Hf. destruct (admissible_inv f _ Ha) as (PC & _ & AC & SY & R & a & K1 & K2). pose proof (rl_core _ _ live) as Co.
  pose proof (rc_next _ _ _ _ _ _ _ Co open1) as N. pose proof (wf_window_max _ wf). unfold MAX_WINDOW in *. pose proof (len_nonneg payload).
  assert (0 < open_window t) as W0.
  { unfold carries_data in Cy. rewrite (sa_len _ _ _ _ _ A) in Cy. destruct (contains (flags s') FIN); [specialize (Hf eq_refl)|]; lia. }
  assert (in_order t s' = true) as I.
  { unfold in_order. rewrite (sc_syn _ _ C), (sc_ack _ _ C), (sc_number _ _ C), SY, AC, K1, K2, PC. change (carries s') with (carries_data s'). rewrite Cy.
    rewrite (sa_sequence _ _ _ _ _ A), N, Z.eqb_refl. cbn [negb andb]. rewrite !andb_true_r. apply andb_true_iff. split.
    - rewrite (acceptable_at 1 r f _ _ _ Co wf open1 _ _ _ A O) by (try lia; by rewrite (sc_syn _ _ C)).
      unfold carries_data in Cy. rewrite (sa_len _ _ _ _ _ A) in Cy. unfold edge_pos.
      assert (0 < len payload + b2z (contains (flags s') FIN)) by (destruct (contains (flags s') FIN); cbn in *; lia).
      case_match; lia.
    - unfold beyond_receive_window. rewrite (sa_sequence _ _ _ _ _ A), (edge_seq _ _ _ _ _ _ _ Co wf open1), before_signed by (unfold edge_pos; lia).
      replace (next_pos r t <? edge_pos r t) with true by (unfold edge_pos; lia). by rewrite andb_false_r. }
  split; [done|]. unfold taken_bytes, taken_fin. rewrite I, (sa_len _ _ _ _ _ A). split; [lia|]. destruct (contains (flags s') FIN); [|done].
  specialize (Hf eq_refl). cbn. lia.
Qed.

Lemma inadmissible_untaken s payload : genuine r t s payload -> payload_is_admissible f s = false -> contains (flags s) RST = true \/ in_order t s = false.
Proof.
  intros G Ha. destruct (contains (flags s) RST) eqn:R; [by left|]. right. unfold payload_is_admissible, accepts_receive_sequence in Ha. unfold in_order.
  rewrite R in Ha. pose proof (gn_ack _ _ _ _ G) as K. destruct (peer_receive_closed t); [by rewrite andb_false_r|]. destruct (segment_acceptable t s); [|done].
  destruct (contains (flags s) SYN); [done|]. destruct (contains (flags s) ACK); [|done]. cbn [negb andb] in *.
  destruct (acknowledgment s) as [a|]; [|by destruct (K eq_refl)]. apply negb_false_iff in Ha. by rewrite Ha.
Qed.

(** A segment of which nothing is taken now leaves at most something for later. *)
Lemma later_synchronized a seen t' acts : synchronized (state t) -> segment_ok seen -> contains (flags seen) RST = true \/ in_order t seen = false ->
  on_segment t seen = (t', Ok acts) ->
  queue_at S base (edge_pos r t) (next_pos r t + Z.max 1 (held t)) (queue_after f (recv_next t) a) /\
  match fin_after f a with Some y => y = seq_add base (len S) /\ next_pos r t + Z.max 1 (held t) <= len S < edge_pos r t | None => True end ->
  (peer_receive_closed t = true -> a = nothing) -> exists n fin, after_segment r f false a t' acts n fin.
Proof.
  intros Y O H E [HQ HF] HP. destruct (untaken _ _ _ E Y O H) as (F & T & Hh). exists 0, false. apply quiet_synchronized; try done.
  intros PC. rewrite (HP PC). cbn. by apply live.
Qed.

Lemma emptied_admission s payload adm a : emptied s payload -> prepared f s payload adm false a -> a = nothing.
Proof.
  intros (-> & L & F) (B & Ck & O & Fi). change (len []) with 0 in *. cbn [Z.eqb negb] in B. rewrite andb_false_r in B. cbn [andb] in B. rewrite B in Ck.
  unfold out_of_order_fin in Fi. rewrite F, andb_false_r in Fi. cbn [andb] in Fi. destruct a as [b c o fi]; cbn in *. subst.
  destruct o; [|done]. destruct O as (_ & _ & _ & _ & _ & _ & X & _). done.
Qed.

(** *** Data at RCV.NXT *)
Lemma in_order_segment s s' payload a t' acts : synchronized (state t) -> payload_is_admissible f s = true -> same_control s s' -> segment_ok s' ->
  seg_at S base (next_pos r t) s' payload -> carries_data s' = true -> next_pos r t + len payload <= edge_pos r t ->
  (contains (flags s') FIN = true -> next_pos r t + len payload < edge_pos r t) ->
  queue_at S base (edge_pos r t) (Z.max (next_pos r t + 1) (next_pos r t + len payload)) (f_out_of_order f) ->
  prepared f s' payload true false a -> on_segment t s' = (t', Ok acts) ->
  after_segment r f false a t' acts (len payload) (contains (flags s') FIN).
Proof.
  intros Y Ha Cs O A Cy He Hf HQ (B & Ck & Oo & Fi) E. pose proof (rl_core _ _ live) as C. destruct (admissible_inv f _ Ha) as (PC & _ & _ & SY & R & _).
  destruct (in_order_at s s' payload Ha Cs A O Cy) as (I & TB & TF); [unfold edge_pos in *; lia|intros X; specialize (Hf X); unfold edge_pos in *; lia|].
  destruct (on_segment_frame t s' wf O open2 open1) as (t1 & acts1 & E1 & F). rewrite E in E1. simplify_eq.
  destruct (on_segment_synchronized _ _ _ _ E wf Y O ltac:(by rewrite (sc_rst _ _ Cs))) as (T & Hh & NC). rewrite TB, TF in T. rewrite TF in Hh.
  assert (state t1 <> Closed) as Hc by (apply NC; intros X; unfold peer_receive_closed in PC; by rewrite X in PC).
  destruct (Hh Hc) as [Y1 Hp]. rewrite PC in Hp. cbn [orb] in Hp. destruct (synchronized_pending _ wf Y) as [P1 P2].
  pose proof (rc_next _ _ _ _ _ _ _ C open1) as Nx. rewrite (sa_sequence _ _ _ _ _ A), <- Nx, Z.eqb_refl, orb_true_l, andb_true_r in B. cbn [andb] in B.
  assert (after (sequence s') (recv_next t) = false) as Af by (rewrite (sa_sequence _ _ _ _ _ A), <- Nx; apply after_self_false).
  assert (ra_out_of_order a = None) as Eo by (destruct (ra_out_of_order a); [destruct Oo as (_ & _ & _ & _ & _ & X & _); congruence|done]).
  assert (ra_out_of_order_fin a = None) as Ef by (rewrite Fi; unfold out_of_order_fin; by rewrite Af, andb_false_r).
  assert (current a (len payload) = (0 <? len payload)) as Cu by (unfold current; rewrite B; pose proof (len_nonneg payload); destruct (Z.eqb_spec (len payload) 0); cbn; lia).
  pose proof (len_nonneg payload) as L0. pose proof (sa_fin _ _ _ _ _ A) as Sf. pose proof (sa_end _ _ _ _ _ A) as Se.
  assert (next_pos r t = taken_pos r t) as Ep by (unfold next_pos; rewrite PC; cbn; lia).
  assert (f_pending_initial_receive f = None) as In by (pose proof (rc_initial _ _ _ _ _ _ _ C) as In; destruct (f_pending_initial_receive f); [lia|done]).
  split; rewrite ?Cu; try done.
  - rewrite B in Ck. intros Z0. destruct (negb _) eqn:X; [destruct Ck as [? ->]; by eexists|]. apply negb_false_iff in X. lia.
  - by destruct (synchronized_open _ Y1) as (_ & ? & _).
  - intros _. rewrite In, orb_false_r, app_nil_r. unfold queue_after, fin_after. rewrite Eo, Ef.
    apply (core_move 1 _ r t (f_receive f) _ _ _ t1 acts1 (len payload) (contains (flags s') FIN) _ _ _ C wf open1 F T); try done; try lia.
    + unfold edge_pos in *. destruct (contains (flags s') FIN); cbn; [specialize (Hf eq_refl)|]; lia.
    + by rewrite PC.
    + rewrite PC. cbn [orb]. intros X. specialize (Sf X). lia.
    + rewrite fmap_app, concat_app. f_equal. destruct (Z.ltb_spec 0 (len payload)).
      * rewrite B in Ck. destruct (Z.eqb_spec (len payload) 0); [lia|]. destruct Ck as [lease ->]. cbn. rewrite app_nil_r. unfold unread. cbn. rewrite drop_0, <- Ep. apply A.
      * replace (len payload) with 0 by lia. by rewrite Z.add_0_r, sub_empty.
    + apply Forall_app. split; [apply C|]. destruct (Z.ltb_spec 0 (len payload)); [|constructor].
      rewrite B in Ck. destruct (Z.eqb_spec (len payload) 0); [lia|]. destruct Ck as [lease ->]. repeat constructor; cbn; lia.
    + destruct (0 <? len payload); lia.
    + destruct (contains (flags s') FIN); [done|]. eapply queue_at_lower; [exact HQ|]. cbn. destruct (Z.ltb_spec 0 (len payload)); lia.
    + destruct (contains (flags s') FIN); [done|]. pose proof (rc_queue_fin _ _ _ _ _ _ _ C) as QF. destruct (f_out_of_order_fin f); [|done].
      destruct QF as (-> & Q1 & Q2). unfold held in Q1. rewrite P1, P2 in Q1. cbn in *. split; [done|]. destruct (Z.ltb_spec 0 (len payload)); lia.
  - intros _ Hp1 X. rewrite Hp, X in Hp1. done.
Qed.

Lemma synchronized_segment s payload s' payload' adm a t' acts : synchronized (state t) -> genuine r t s payload -> payload_len s = len payload ->
  normalize_receive_segment f s payload false = (s', payload', adm) -> prepared f s' payload' adm false a ->
  on_segment t (state_segment f s s' false) = (t', Ok acts) -> exists n fin, after_segment r f false a t' acts n fin.
Proof.
  intros Y G L N P E. pose proof (rl_core _ _ live) as C. pose proof (gn_segment _ _ _ _ G) as O.
  destruct (normalize_ok f _ _ _ _ _ _ wf O L N) as (-> & O' & Cs & L'). destruct (synchronized_pending _ wf Y) as [P1 P2].
  assert (held t = 0) as H0 by (unfold held; by rewrite P1, P2).
  pose proof (rc_next _ _ _ _ _ _ _ C open1) as Nx.
  assert (state_is t SynReceived = false) as St by (apply bool_decide_eq_false; by destruct (synchronized_open _ Y) as (_ & _ & ?)).
  unfold state_segment in E. rewrite St in E. cbn [andb orb negb] in E.
  destruct (payload_is_admissible f s) eqn:Ha.
  2: { unfold normalize_receive_segment in N. rewrite Ha in N. cbn in N. simplify_eq. pose proof (not_admitted _ _ _ _ P) as ->.
       assert (forall b : bool, (if b then s' else s') = s') as Same by (by intros []). rewrite Same in E.
       eapply (later_synchronized _ s'); try done; [by eapply inadmissible_untaken|apply queue_kept]. }
  destruct (admissible_inv f _ Ha) as (PC & Acc & AC & SY & R & _).
  destruct (normalize_at 1 r f _ _ _ C wf open1 open2 ltac:(lia) _ _ _ _ _ Ha G N) as (_ & _ & q & A & Hn & K). rewrite H0, ?Z.add_0_r in K.
  rewrite (sa_sequence _ _ _ _ _ A), Nx, after_signed in E by lia.
  assert (q <> next_pos r t -> in_order t s = false) as Away.
  { intros Q. unfold in_order. rewrite (sa_sequence _ _ _ _ _ A), Nx. replace (seq_add base q =? seq_add base (next_pos r t)) with false; [apply andb_false_r|].
    symmetry. apply Z.eqb_neq. intros X. apply Q. apply (seq_add_inj base); [lia|done]. }
  destruct K as [[Em Why]|(q' & A' & Hq' & Hq & He & Hf & Now)].
  - pose proof (emptied_admission _ _ _ _ Em P) as ->. pose proof (emptied_carries _ _ Em) as NC. rewrite NC, andb_true_r in E.
    destruct (Z.ltb_spec (next_pos r t) q) as [Ahead|Behind]; cbn [orb] in E.
    { eapply (later_synchronized _ s); try done; [right; apply Away; lia|apply queue_kept]. }
    destruct (carries_data s) eqn:Cy; [|eapply (later_synchronized _ s'); try done; [right; by apply not_carrying|apply queue_kept]].
    eapply (later_synchronized _ s); try done; [right|apply queue_kept]. destruct (Z.eq_dec q (next_pos r t)) as [->|]; [|by apply Away].
    unfold in_order, beyond_receive_window. change ((0 <? payload_len s) || contains (flags s) FIN) with (carries_data s). rewrite Cy, (sa_sequence _ _ _ _ _ A).
    rewrite (edge_seq _ _ _ _ _ _ _ C wf open1). unfold edge_pos. rewrite (Why Behind eq_refl eq_refl), Z.add_0_r, before_signed, Z.ltb_irrefl by lia.
    cbn [negb andb]. by rewrite !andb_false_r.
  - destruct (Z.ltb_spec (next_pos r t) q) as [Ahead|Behind]; cbn [orb] in E.
    + eapply (later_synchronized _ s); try done; [right; apply Away; lia| |by rewrite PC].
      eapply requeue_ahead; try done. by rewrite H0, Z.add_0_r.
    + destruct (Now eq_refl Behind) as (-> & Keep & HQ). destruct (carries_data s') eqn:Cy'.
      * rewrite andb_false_r in E. do 2 eexists. eapply in_order_segment; try done.
      * assert (emptied s' payload') as Em.
        { unfold carries_data in Cy'. apply orb_false_iff in Cy' as [Z1 Z2]. rewrite L' in *. pose proof (len_nonneg payload'). split; [|split; [lia|done]].
          destruct payload'; [done|]. rewrite len_cons in *. pose proof (len_nonneg payload'). lia. }
        pose proof (emptied_admission _ _ _ _ Em P) as ->. destruct (carries_data s); [by specialize (Keep eq_refl)|].
        eapply (later_synchronized _ s'); try done; [right; by apply not_carrying|apply queue_kept].
Qed.

(** *** A handshake in progress *)
Lemma waiting_seen seen a t' acts : state t = SynReceived -> accepts_final_ack t seen = false -> segment_ok seen -> on_segment t seen = (t', Ok acts) ->
  queue_at S base (edge_pos r t) (next_pos r t + Z.max 1 (held t)) (queue_after f (recv_next t) a) /\
  match fin_after f a with Some y => y = seq_add base (len S) /\ next_pos r t + Z.max 1 (held t) <= len S < edge_pos r t | None => True end ->
  after_segment r f false a t' acts 0 false.
Proof.
  intros St Ha O E [HQ HF]. pose proof (rl_core _ _ live) as C. destruct (on_segment_frame t seen wf O open2 open1) as (t1 & acts1 & E1 & F). rewrite E in E1. simplify_eq.
  destruct (on_segment_waiting _ _ _ _ E wf O St Ha (rc_active _ _ _ _ _ _ _ C)) as (T & Hc).
  assert (recv_next t1 = recv_next t) as N by (rewrite (sf_next _ _ _ F), (tl_delivered _ _ _ T), (tl_fins _ _ _ T); apply seq_add_0, wf).
  assert (current a 0 = false) as Cu by (unfold current; apply andb_false_r).
  assert (peer_receive_closed t = false) as PC by (unfold peer_receive_closed; by rewrite St).
  split; rewrite ?Cu, ?N; cbn [orb]; try done.
  - destruct Hc as [->|[->|[Y _]]]; [congruence|done|by destruct (synchronized_open _ Y) as (_ & ? & _)].
  - intros Hn. rewrite !app_nil_r. destruct Hc as [->|[?|(Y & Hp & Ac)]]; [|done|].
    + by eapply core_requeue.
    + destruct (rc_active _ _ _ _ _ _ _ C Ac) as [P1 P2]. assert (held t = 0) as Hh by (unfold held; by rewrite P1, P2). rewrite Hh in *.
      pose proof (rc_initial _ _ _ _ _ _ _ C) as I. destruct (f_pending_initial_receive f); [lia|].
      pose proof (open_window_nonneg t). pose proof (rc_end _ _ _ _ _ _ _ C) as He. rewrite P1, Z.add_0_r in He.
      apply (core_move 1 1 r t (f_receive f) _ _ _ t1 acts1 0 false _ _ _ C wf open1 F T); rewrite ?Z.add_0_r; cbn [b2z]; rewrite ?Z.add_0_r, ?PC; try done; try lia.
      * by rewrite sub_empty, app_nil_r.
      * apply C.
  - intros Hn Hp _. destruct Hc as [->|[?|(Y & Hp' & Ac)]]; congruence.
Qed.

Lemma waiting_segment s payload s' payload' adm a t' acts : state t = SynReceived -> genuine r t s payload -> payload_len s = len payload ->
  accepts_final_ack t s = false -> normalize_receive_segment f s payload false = (s', payload', adm) -> prepared f s' payload' adm false a ->
  on_segment t s = (t', Ok acts) -> after_segment r f false a t' acts 0 false.
Proof.
  intros St G L Ha N P E. pose proof (gn_segment _ _ _ _ G) as O. pose proof (rl_core _ _ live) as C.
  apply (waiting_seen s); try done. destruct (payload_is_admissible f s) eqn:Hadm.
  - destruct (normalize_at 1 r f _ _ _ C wf open1 open2 ltac:(lia) _ _ _ _ _ Hadm G N) as (-> & _ & q & A & Hn & K).
    destruct K as [[Em _]|(q' & A' & Hq' & Hq & He & Hf & _)]; [rewrite (emptied_admission _ _ _ _ Em P); apply queue_kept|by eapply requeue_ahead].
  - unfold normalize_receive_segment in N. rewrite Hadm in N. cbn in N. simplify_eq. rewrite (not_admitted _ _ _ _ P). apply queue_kept.
Qed.

Lemma stripped_final_ack s : accepts_final_ack t (strip_data s) = accepts_final_ack t s.
Proof.
  destruct (strip_data_emptied s) as [_ C]. unfold accepts_final_ack, ack_is. by rewrite (sc_ack _ _ C), (sc_rst _ _ C), (sc_syn _ _ C), (sc_number _ _ C).
Qed.
Lemma waiting_stripped s payload t' acts : state t = SynReceived -> genuine r t s payload -> accepts_final_ack t s = false ->
  on_segment t (strip_data s) = (t', Ok acts) -> after_segment r f false nothing t' acts 0 false.
Proof.
  intros St G Ha E. apply (waiting_seen (strip_data s)); try done; [by rewrite stripped_final_ack|apply strip_data_ok, G|apply queue_kept].
Qed.

(** *** The final ACK of the handshake *)
(** Its data fits the window and does not overlap what is queued. *)
Definition clean_final_ack (payload : list Z) : Prop :=
  held t + len payload <= open_window t /\
  Forall (fun c => held t + len payload <= distance_from (oc_sequence c) (recv_next t)) (f_out_of_order f).

Lemma final_ack_admissible s payload : genuine r t s payload -> accepts_final_ack t s = true ->
  payload_is_admissible f s = true /\ seg_at S base (next_pos r t + held t) s payload /\ next_pos r t = taken_pos r t.
Proof.
  intros G Ha. destruct (accepts_final_ack_inv _ _ Ha) as (St & AC & R & SY & AK & Q). pose proof (rl_core _ _ live) as C.
  destruct (core_positions _ _ _ _ _ _ _ C wf open2) as (P1 & P2 & P3 & P4). pose proof (wf_window_max _ wf). unfold MAX_WINDOW in *.
  assert (peer_receive_closed t = false) as PC by (unfold peer_receive_closed; by rewrite St).
  destruct (gn_stream _ _ _ _ G SY R) as (q & A & Hn). pose proof (rc_next _ _ _ _ _ _ _ C open1) as Nx.
  assert (q = next_pos r t + held t) as ->.
  { apply (seq_add_inj base); [lia|]. rewrite <- (sa_sequence _ _ _ _ _ A), Q, Nx, seq_add_assoc. f_equal. unfold held in *. rewrite uadd_small by width. done. }
  split; [|split; [done|unfold next_pos; rewrite PC; cbn; lia]].
  unfold payload_is_admissible, accepts_receive_sequence. rewrite PC, AC, SY, R, AK, after_self_false. cbn [negb andb]. rewrite !andb_true_r.
  rewrite (acceptable_at 1 r f _ _ _ C wf open1 _ _ _ A (gn_segment _ _ _ _ G) SY Hn). pose proof (len_nonneg payload).
  assert (0 <= b2z (contains (flags s) FIN) <= 1) by (destruct (contains (flags s) FIN); cbn; lia). unfold edge_pos. case_match; lia.
Qed.

(** The queue lies beyond what the final ACK brings. *)
Lemma clean_queue payload : clean_final_ack payload ->
  queue_at S base (edge_pos r t) (Z.max (next_pos r t + 1) (next_pos r t + held t + len payload)) (f_out_of_order f).
Proof.
  intros [_ Hc]. pose proof (rl_core _ _ live) as C. pose proof (rc_queue _ _ _ _ _ _ _ C) as HQ. pose proof (rc_next _ _ _ _ _ _ _ C open1) as Nx.
  pose proof (wf_window_max _ wf). unfold MAX_WINDOW in *. destruct (f_out_of_order f) as [|c queue]; [done|]. destruct HQ as (x & Ex & Hx & Lc & Bc & Nc & He & HQ).
  apply Forall_cons in Hc as [Hc _]. rewrite Ex, Nx, distance_ahead in Hc by (unfold edge_pos in *; lia). exists x. split; [done|]. split; [lia|]. done.
Qed.

Lemma initial_chunk : bool_decide (is_Some (f_pending_initial_receive f)) = (0 <? pending_initial_payload_len t) /\
  concat (unread <$> (if 0 <? pending_initial_payload_len t then opt_list (f_pending_initial_receive f) else [])) =
    sub S (taken_pos r t) (taken_pos r t + pending_initial_payload_len t) /\
  Forall (fun c => 0 <= rc_offset c < len (rc_bytes c)) (if 0 <? pending_initial_payload_len t then opt_list (f_pending_initial_receive f) else []).
Proof.
  pose proof (rl_core _ _ live) as C. pose proof (rc_initial _ _ _ _ _ _ _ C) as I. destruct (f_pending_initial_receive f) as [c|].
  - destruct I as (_ & Ho & Hp & Hb). rewrite (proj2 (Z.ltb_lt _ _) Hp). cbn. rewrite app_nil_r. unfold unread. rewrite Ho, Hb, drop_0. split; [done|]. split; [done|].
    pose proof (rc_read _ _ _ _ _ _ _ C). pose proof (rc_end _ _ _ _ _ _ _ C). pose proof (wf_buffered _ wf). repeat constructor; rewrite Ho, ?Hb, ?len_sub; unfold taken_pos in *; lia.
  - rewrite I. cbn. rewrite Z.add_0_r, sub_empty. split; [done|]. split; [done|]. constructor.
Qed.

(** What the final ACK brings: the SYN's data and FIN, and its own data, if any. *)
Lemma final_ack_accounted s payload a t1 acts1 : genuine r t s payload -> payload_len s = len payload -> accepts_final_ack t s = true ->
  held t + len payload <= open_window t -> prepared f s payload true true a -> finish_handshake t [] = (t1, acts1) ->
  let n := pending_initial_payload_len t + taken_bytes t1 s in
  let fin := pending_initial_fin t || taken_fin t1 s in
  let own := negb (pending_initial_fin t) && (0 <? len payload) in
  0 <= taken_bytes t1 s /\ n + b2z fin <= open_window t /\ taken_pos r t + n <= len S /\ (fin = true -> taken_pos r t + n = len S) /\ current a n = own /\
  (own = true -> exists lease, ra_chunk a = Some (mkReceiveChunk payload 0 lease)) /\ (own = true -> taken_bytes t1 s = len payload) /\
  (own = false -> taken_bytes t1 s = 0) /\ peer_receive_closed t1 = pending_initial_fin t.
Proof.
  intros G L Ha Hw (B & Ck & _ & _) HF. cbv zeta. destruct (accepts_final_ack_inv _ _ Ha) as (St & AC & R & SY & AK & Q). pose proof (rl_core _ _ live) as C.
  destruct (final_ack_admissible _ _ G Ha) as (Hadm & A & Ep). pose proof (gn_segment _ _ _ _ G) as O. pose proof (len_nonneg payload) as L0.
  destruct (finish_handshake_tells _ _ _ HF wf St) as (T1 & W1 & S1 & N1 & R1 & Ed1). fold (held t) in R1.
  destruct (core_positions _ _ _ _ _ _ _ C wf open2) as (P1 & P2 & P3 & P4). pose proof (wf_window_max _ wf) as Wm. unfold MAX_WINDOW in *.
  assert (open_window t1 = open_window t - held t) as Ow by (unfold open_window; rewrite Ed1, R1; apply distance_advance; [apply wf|apply wf|fold (open_window t); lia]).
  assert (sequence s = recv_next t1) as Q1. { rewrite Q, R1. f_equal. unfold held in *. apply uadd_small. width. }
  pose proof (wf_pending_len _ wf) as Pl. pose proof (rc_end _ _ _ _ _ _ _ C) as Ce. pose proof (rc_fin _ _ _ _ _ _ _ C) as Cf.
  unfold final_ack_payload_capacity in B. replace (state_is t SynReceived) with true in B by (symmetry; by apply bool_decide_eq_true_2). cbn [andb] in B.
  pose proof (sa_end _ _ _ _ _ A) as Ae. unfold current. unfold held in *. destruct (pending_initial_fin t) eqn:PF; cbn [negb andb orb b2z] in *.
  - assert (in_order t1 s = false) as Io by (unfold in_order, peer_receive_closed; rewrite S1; by rewrite !andb_false_r).
    unfold taken_bytes, taken_fin. rewrite Io. cbn [b2z andb]. rewrite orb_true_r in Cf. specialize (Cf eq_refl).
    assert ((sequence s =? recv_next t) = false) as Nq.
    { apply Z.eqb_neq. rewrite (sa_sequence _ _ _ _ _ A), (rc_next _ _ _ _ _ _ _ C open1). intros X. apply seq_add_inj in X; lia. }
    rewrite Nq in B. cbn in B. rewrite andb_false_r in B. rewrite B. unfold peer_receive_closed. rewrite S1. split_and!; try done; lia.
  - rewrite bool_decide_eq_true_2, orb_true_r, andb_true_r in B by done. cbn in B.
    assert (peer_receive_closed t1 = false) as PC1 by (unfold peer_receive_closed; by rewrite S1).
    destruct (in_order_start t1 s W1 O Q1 SY AC) as (TB & TF & TW); [by rewrite AK, N1, after_self_false|done|lia|]. rewrite L in TB. rewrite TB in *.
    rewrite PC1. replace (0 + 0) with 0 in * by lia. pose proof (sa_fin _ _ _ _ _ A) as Af. split_and!; try lia; try done.
    + intros X. specialize (Af (TF X)). lia.
    + rewrite B. destruct (Z.eqb_spec (len payload) 0); cbn; lia.
    + intros X. rewrite B in Ck. destruct (Z.eqb_spec (len payload) 0); [lia|done].
Qed.

Lemma accepting_segment s payload a t' acts : genuine r t s payload -> payload_len s = len payload -> accepts_final_ack t s = true -> clean_final_ack payload ->
  prepared f s payload true true a -> on_segment t s = (t', Ok acts) ->
  exists n fin, after_segment r f (bool_decide (is_Some (f_pending_initial_receive f))) a t' acts n fin.
Proof.
  intros G L Ha Hcl P E. pose proof (clean_queue _ Hcl) as HQ. destruct (accepts_final_ack_inv _ _ Ha) as (St & _). pose proof (rl_core _ _ live) as C.
  destruct (final_ack_admissible _ _ G Ha) as (_ & A & Ep). pose proof (gn_segment _ _ _ _ G) as O. pose proof (len_nonneg payload) as L0.
  destruct (on_segment_frame t s wf O open2 open1) as (t2 & acts2 & E2 & F). rewrite E in E2. simplify_eq.
  destruct (on_segment_accepting _ _ _ _ E wf O Ha) as (t1 & acts1 & HF & T & Hh & NC). destruct (Hh NC) as [Y2 Hp2]. clear Hh.
  destruct (final_ack_accounted _ _ _ _ _ G L Ha (proj1 Hcl) P HF) as (M0 & Mw & Me & Mf & Mc & Mk & M1 & M2 & PC1).
  destruct initial_chunk as (Ib & Ic & If). rewrite Ib. pose proof (wf_pending_len _ wf) as Pl. pose proof (rc_read _ _ _ _ _ _ _ C) as Rd. pose proof (wf_buffered _ wf) as Bf.
  destruct P as (_ & _ & Oo & Fi). assert (ra_out_of_order a = None) as Eo by (destruct (ra_out_of_order a); [destruct Oo as (_ & _ & X & _); congruence|done]).
  assert (peer_receive_closed t = false) as PC by (unfold peer_receive_closed; by rewrite St).
  exists (pending_initial_payload_len t + taken_bytes t1 s), (pending_initial_fin t || taken_fin t1 s). set (fin := pending_initial_fin t || taken_fin t1 s) in *.
  set (n := pending_initial_payload_len t + taken_bytes t1 s) in *. set (own := negb (pending_initial_fin t) && (0 <? len payload)) in *.
  assert (own = true \/ fin = false -> pending_initial_fin t = false) as Nf by (unfold own, fin; destruct (pending_initial_fin t); [by intros [|]|done]). rewrite PC1 in Hp2. split; rewrite ?Mc; try done.
  - lia.
  - intros X. by destruct (Mk X) as [? ->].
  - by destruct (synchronized_open _ Y2) as (_ & ? & _).
  - intros _. unfold queue_after, fin_after. rewrite Eo, Fi.
    assert ((if 0 <? pending_initial_payload_len t then None else f_pending_initial_receive f) = None) as ->.
    { rewrite <- Ib. destruct (f_pending_initial_receive f); done. }
    apply (core_move 1 _ r t (f_receive f) _ _ _ t2 acts2 n fin _ _ _ C wf open1 F T); rewrite ?PC; try done; try lia.
    + rewrite !fmap_app, !concat_app, Ic, <- app_assoc. f_equal. rewrite <- (sub_join S _ (taken_pos r t + pending_initial_payload_len t) (taken_pos r t + n)) by (unfold taken_pos, n; lia). f_equal.
      destruct own; [destruct (Mk eq_refl) as [? ->]; specialize (M1 eq_refl)|specialize (M2 eq_refl)].
      * cbn. rewrite app_nil_r. unfold unread. cbn. rewrite drop_0, (sa_bytes _ _ _ _ _ A) at 1. specialize (Nf (or_introl eq_refl)). unfold held. rewrite Nf. cbn [b2z].
        f_equal; unfold n; lia.
      * replace (taken_pos r t + n) with (taken_pos r t + pending_initial_payload_len t) by (unfold n; lia). by rewrite sub_empty.
    + repeat (apply Forall_app; split); [apply C|done|]. destruct own eqn:Ow; [|constructor]. destruct (Mk eq_refl) as [? ->]. repeat constructor; cbn; unfold own in *; lia.
    + destruct (own || _); lia.
    + destruct fin eqn:Ef; [done|]. specialize (Nf (or_intror eq_refl)). eapply queue_at_lower; [exact HQ|]. unfold held, n. rewrite Nf. cbn [b2z].
      destruct own; cbn [orb]; [specialize (M1 eq_refl)|specialize (M2 eq_refl); case_bool]; lia.
    + destruct fin eqn:Ef; [done|]. pose proof (rc_queue_fin _ _ _ _ _ _ _ C) as QF. destruct (f_out_of_order_fin f); [|done]. destruct QF as (-> & F1 & F2).
      split; [done|]. cbn [b2z]. destruct own; cbn [orb]; [|specialize (M2 eq_refl); destruct (Z.ltb_spec 0 (pending_initial_payload_len t))]; unfold n in *; lia.
  - intros _ X Y. unfold fin in Y. rewrite Hp2, Y in X. done.
Qed.
End Segment.
End Receive.
