(* ===== verification/TcpReceiveFlow.v ===== *)
(** The receive side of a flow of [sail-netstack/src/tcp/table.rs] through the calls
    on the flow: what an admitted segment adds, what promotion from the
    out-of-order queue moves, and what a read takes. *)
From S2P Require Import Prelude StateMonad Partial TcpSeq Congestion TcpTcb TcpInvariant TcpHandlers Budget IpWire TcpWire TcpFlow TcpSegment TcpReceive TcpReceiveInv.
From stdpp Require Import list sets.
#[local] Open Scope Z_scope.

(** ** Calls that leave the receive side alone *)
Record rx_same (t t' : TcpTcb) : Prop := {
  rs_next : recv_next t' = recv_next t;
  rs_buffered : recv_buffered t' = recv_buffered t;
  rs_edge : advertised_right_edge t' = advertised_right_edge t;
  rs_len : pending_initial_payload_len t' = pending_initial_payload_len t;
  rs_fin : pending_initial_fin t' = pending_initial_fin t;
  rs_active : active_open t' = active_open t;
  rs_peer : peer_receive_closed t' = peer_receive_closed t;
  rs_received : state t = SynReceived -> state t' = SynReceived;
  rs_sent : state t' = SynSent <-> state t = SynSent
}.
Definition rx_fields (f : TcpFlow) := (f_receive f, f_pending_initial_receive f, f_out_of_order f, f_out_of_order_fin f).

(** What the options of the handshake settled: the scale of the peer's windows and
    how much a segment takes. *)
Definition terms (f : TcpFlow) := (f_peer_window_scale f, f_max_send_segment_bytes f).
Definition terms_ok (f : TcpFlow) : Prop :=
  match f_peer_window_scale f with Some w => 0 <= w <= 14 | None => True end /\ 0 <= f_max_send_segment_bytes f.
Lemma terms_ok_same f f' : terms f' = terms f -> terms_ok f -> terms_ok f'.
Proof. unfold terms, terms_ok. by intros [= -> ->]. Qed.

(** What never changes on an established flow. *)
Definition kin (f f' : TcpFlow) : Prop := f_id f' = f_id f /\ terms f' = terms f.
#[export] Instance kin_preorder : PreOrder kin.
Proof. split; [by intros f|]. intros f f1 f2 [] []. split; congruence. Qed.

(** [f'] is [f] as far as the peer's stream goes, or is closed. *)
Record quiet (f f' : TcpFlow) : Prop := {
  qt_wf : tcb_wf (f_tcb f) -> tcb_wf (f_tcb f');
  qt_id : f_id f' = f_id f;
  qt_terms : terms_ok f -> terms_ok f';
  qt_closed : state (f_tcb f) = Closed -> state (f_tcb f') = Closed;
  qt_same : state (f_tcb f') <> Closed -> rx_fields f' = rx_fields f /\ rx_same (f_tcb f) (f_tcb f')
}.

Lemma rx_same_refl t : rx_same t t.
Proof. by split. Qed.
Lemma rx_same_trans t t1 t2 : rx_same t t1 -> rx_same t1 t2 -> rx_same t t2.
Proof. intros [] []. split; try congruence; [auto|]. rewrite rs_sent1. done. Qed.

#[export] Instance quiet_preorder : PreOrder quiet.
Proof.
  split.
  - intros f. by split.
  - intros f f1 f2 [W1 I1 K1 C1 S1] [W2 I2 K2 C2 S2]. split; [auto|congruence|auto|auto|]. intros H. destruct (S2 H) as [E2 R2].
    destruct S1 as [E1 R1]; [intros X; auto|]. split; [congruence|]. by eapply rx_same_trans.
Qed.

(** A call that changes neither the control block nor the queues of what arrived. *)
Lemma quiet_fields f f' : f_tcb f' = f_tcb f -> f_id f' = f_id f -> terms f' = terms f -> rx_fields f' = rx_fields f -> quiet f f'.
Proof. intros E I K R. split; rewrite ?E; try done. by apply terms_ok_same. Qed.

Lemma quiet_tcb f t' : (tcb_wf (f_tcb f) -> tcb_wf t') -> (state (f_tcb f) = Closed -> state t' = Closed) ->
  (state t' <> Closed -> rx_same (f_tcb f) t') -> quiet f (set_f_tcb t' f).
Proof. intros W C R. split; try done. intros H. split; [done|auto]. Qed.

(** The same, and open or closed as it was. *)
Record steady (f f' : TcpFlow) : Prop := {
  st_wf : tcb_wf (f_tcb f) -> tcb_wf (f_tcb f');
  st_id : f_id f' = f_id f;
  st_terms : terms f' = terms f;
  st_fields : rx_fields f' = rx_fields f;
  st_same : rx_same (f_tcb f) (f_tcb f');
  st_state : state (f_tcb f') = state (f_tcb f)
}.
#[export] Instance steady_preorder : PreOrder steady.
Proof.
  split.
  - intros f. by split.
  - intros f f1 f2 [W1 I1 K1 F1 S1 T1] [W2 I2 K2 F2 S2 T2]. split; [auto|congruence..| |congruence]. by eapply rx_same_trans.
Qed.
Lemma steady_quiet f f' : steady f f' -> quiet f f'.
Proof. intros []. split; try done; [by apply terms_ok_same|congruence]. Qed.
Lemma steady_fields f f' : f_tcb f' = f_tcb f -> f_id f' = f_id f -> terms f' = terms f -> rx_fields f' = rx_fields f -> steady f f'.
Proof. intros E I K R. split; rewrite ?E; done. Qed.

Section Receive.
Context (S : list Z) (base : Z).
Abbreviation core := (rx_core S base).

Lemma core_same k r t t' receive initial queue fin : rx_same t t' -> core k r t receive initial queue fin -> core k r t' receive initial queue fin.
Proof.
  intros [E1 E2 E3 E4 E5 E6 E7 E8 E9] [C1 C2 C3 C4 C5 C6 C7 C8 C9 C10].
  assert (taken_pos r t' = taken_pos r t) as Et by (unfold taken_pos; by rewrite E2).
  assert (next_pos r t' = next_pos r t) as En by (unfold next_pos; by rewrite Et, E7).
  assert (edge_pos r t' = edge_pos r t) as Ee by (unfold edge_pos, open_window; by rewrite En, E3, E1).
  assert (held t' = held t) as Eh by (unfold held; by rewrite E4, E5).
  split; rewrite ?Et, ?En, ?Ee, ?Eh, ?E1, ?E4, ?E5, ?E6, ?E7; try done.
  - intros H. apply C2. intros X. by apply H, E9.
  - destruct initial; [|done]. destruct C7 as (? & ? & ? & ?). split_and!; auto.
Qed.

Definition rx_ok (r : Z) (f : TcpFlow) : Prop := tcb_wf (f_tcb f) /\ (state (f_tcb f) <> Closed -> rx_live S base r f).

Lemma quiet_rx_ok r f f' : quiet f f' -> rx_ok r f -> rx_ok r f'.
Proof.
  intros [W I K C R] [Wf L]. split; [auto|]. intros H. destruct (R H) as [E Rs]. destruct L as [L1 L2 L3]; [intros X; auto|]. unfold rx_fields in E. injection E as E1 E2 E3 E4.
  split; rewrite ?E1, ?E2, ?E3, ?E4.
  - by eapply core_same.
  - rewrite (rs_peer _ _ Rs). done.
  - rewrite (rs_sent _ _ Rs). done.
Qed.

(** ** Promotion *)
(** The control block takes what was queued. *)
Lemma tracked_frame t t' acts : tcb_wf t' -> tracked (origin_of (timers_of t) t) t' acts -> segment_frame t t' acts.
Proof. intros W (_ & B & N & G1 & G2 & G3). by split. Qed.

Lemma deliver_tells n : 0 < n -> tells [DeliverPayload n] n false.
Proof. intros H. split; cbn; try done; [lia|unfold delivered, total; cbn; lia]. Qed.

Lemma accept_queued_core r t receive c queue fin : core 0 r t receive None (c :: queue) fin -> tcb_wf t -> synchronized (state t) ->
  oc_sequence c = recv_next t -> peer_receive_closed t = false ->
  exists t', accept_queued_payload (len (oc_bytes c)) t = (t', Ok (DeliverPayload (len (oc_bytes c)))) /\ tcb_wf t' /\ state t' = state t /\
    core 0 r t' (receive ++ [mkReceiveChunk (oc_bytes c) 0 (oc_metadata_lease c)]) None queue fin.
Proof.
  intros C W Y Ec PC. assert (state t <> SynSent) as Hs by (by destruct (synchronized_open _ Y) as (_ & ? & _)). pose proof (rc_next _ _ _ _ _ _ _ _ _ C Hs) as Nx.
  destruct (synchronized_pending _ W Y) as [P1 P2]. pose proof (wf_window_max _ W). unfold MAX_WINDOW in *.
  assert (held t = 0) as Hh by (unfold held; by rewrite P1, P2). pose proof (rc_queue _ _ _ _ _ _ _ _ _ C) as (x & Ex & Hx & Lc & Bc & Nc & He & HQ). rewrite Hh in *.
  assert (x = next_pos r t) as ->. { apply (seq_add_inj base); [unfold edge_pos in *; lia|]. by rewrite <- Ex, <- Nx. }
  assert (next_pos r t = taken_pos r t) as Ep by (unfold next_pos; rewrite PC; cbn; lia).
  assert (0 <= len (oc_bytes c) <= open_window t) as Hw by (unfold edge_pos in *; lia).
  destruct (take_payload_ok (origin_of (timers_of t) t) t [] (len (oc_bytes c)) W Y Hw) as (W' & T' & O'); [by apply tracked_start, timers_of_ok|].
  unfold accept_queued_payload. replace (len (oc_bytes c) =? 0) with false by lia. rewrite receive_available_wf by done. pose proof (wf_window _ W).
  replace (recv_capacity t - recv_buffered t <? len (oc_bytes c)) with false by lia. cbn [orb]. eexists. split; [done|]. split; [done|]. split; [done|].
  apply (core_move S base 0 0 r t receive None (c :: queue) fin _ [DeliverPayload (len (oc_bytes c))] (len (oc_bytes c)) false); rewrite ?PC; cbn [b2z orb]; try done; try lia.
  - by apply tracked_frame.
  - by apply deliver_tells.
  - rewrite fmap_app, concat_app. f_equal. cbn. rewrite app_nil_r. unfold unread. cbn. rewrite drop_0, <- Ep. done.
  - apply Forall_app. split; [apply C|]. repeat constructor; cbn; lia.
  - rewrite Z.add_0_r, Z.add_0_r. done.
  - pose proof (rc_queue_fin _ _ _ _ _ _ _ _ _ C) as QF. destruct fin; [|done]. destruct QF as (-> & Q1 & Q2). split; [done|]. lia.
Qed.

Abbreviation flow_core k r f := (core k r (f_tcb f) (f_receive f) (f_pending_initial_receive f) (f_out_of_order f) (f_out_of_order_fin f)).

(** The loop moves everything that has become next. *)
Lemma promote_loop_ok r queue acts promoted f l : f_out_of_order f = queue -> flow_core 0 r f -> tcb_wf (f_tcb f) -> synchronized (state (f_tcb f)) ->
  peer_receive_closed (f_tcb f) = false -> f_pending_initial_receive f = None ->
  wlp (promote_loop queue acts promoted) (f, l)
    (fun _ e => kin f e.1 /\ flow_core 0 r e.1 /\ queue_at S base (edge_pos r (f_tcb e.1)) (next_pos r (f_tcb e.1) + 1) (f_out_of_order e.1) /\
       tcb_wf (f_tcb e.1) /\ synchronized (state (f_tcb e.1)) /\ peer_receive_closed (f_tcb e.1) = false /\ f_pending_initial_receive e.1 = None)
    (fun _ _ => False).
Proof.
  revert acts promoted f l. induction queue as [|c queue IH]; intros acts promoted f l Eq C W Y PC In; cbn [promote_loop].
  { apply wlp_ret. cbn. split; [done|]. split; [done|]. split; [by rewrite Eq|done]. }
  apply wlp_bind, wlp_get. cbn [fst]. assert (state (f_tcb f) <> SynSent) as Hs by (by destruct (synchronized_open _ Y) as (_ & ? & _)).
  destruct (synchronized_pending _ W Y) as [P1 P2]. assert (held (f_tcb f) = 0) as Hh by (unfold held; by rewrite P1, P2).
  apply wlp_if; intros Hn.
  { apply wlp_ret. cbn. split; [done|]. split; [done|]. split; [|done]. rewrite Eq. pose proof (rc_queue _ _ _ _ _ _ _ _ _ C) as HQ. rewrite Eq, Hh, Z.max_l in HQ by lia.
    destruct HQ as (x & Ex & Hx & HQ). exists x. split; [done|]. split; [|done]. apply negb_true_iff, Z.eqb_neq in Hn. destruct (Z.eq_dec x (next_pos r (f_tcb f))) as [->|]; [|lia].
    exfalso. apply Hn. by rewrite Ex, (rc_next _ _ _ _ _ _ _ _ _ C Hs). }
  apply negb_false_iff, Z.eqb_eq in Hn. apply wlp_bind, wlp_modify. apply wlp_bind, wlp_attempt. rewrite Eq, In in C.
  destruct (accept_queued_core _ _ _ _ _ _ C W Y Hn PC) as (t' & E & W' & S' & C').
  apply wlp_on. cbn [fst snd]. flow_goal. rewrite E. apply wlp_bind, wlp_modify.
  cbn [fst snd]. eapply wlp_mono; [apply IH; flow_goal; try done; [by rewrite In|by rewrite S'|unfold peer_receive_closed in *; by rewrite S']|done|done].
Qed.

(** The queued FIN is taken once everything before it is. *)

Lemma take_fin_core r t receive queue t' acts : core 0 r t receive None queue (Some (recv_next t)) -> tcb_wf t -> synchronized (state t) ->
  peer_receive_closed t = false -> accept_queued_fin t = (t', acts) ->
  tcb_wf t' /\ synchronized (state t') /\ peer_receive_closed t' = true /\ core 1 r t' receive None [] None /\
  (queue_at S base (edge_pos r t) (next_pos r t + 1) queue -> queue = []).
Proof.
  intros C W Y PC E. assert (state t <> SynSent) as Hs by (by destruct (synchronized_open _ Y) as (_ & ? & _)).
  destruct (rc_queue_fin _ _ _ _ _ _ _ _ _ C) as (En & Q1 & Q2). rewrite (rc_next _ _ _ _ _ _ _ _ _ C Hs) in En. pose proof (wf_window_max _ W). unfold MAX_WINDOW in *.
  destruct (synchronized_pending _ W Y) as [P1 P2]. assert (held t = 0) as Hh by (unfold held; by rewrite P1, P2). rewrite Hh in *.
  assert (next_pos r t = len S) as El by (apply (seq_add_inj base); [unfold edge_pos in *; lia|done]).
  assert (next_pos r t = taken_pos r t) as Ep by (unfold next_pos; rewrite PC; cbn; lia). assert (0 < open_window t) as W0 by (unfold edge_pos in *; lia).
  unfold accept_queued_fin in E. destruct (take_fin_ok (origin_of (timers_of t) t) _ _ _ _ E W Y W0) as (W' & T' & Y'); [by apply tracked_start, timers_of_ok|].
  destruct (take_fin_tells _ _ _ _ 0 E Y PC) as (T & Hd & NC); [by apply mutes_tell; constructor|done|]. destruct (Hd NC) as [_ Hp]. rewrite PC in Hp.
  split; [done|]. split; [done|]. split; [done|]. split.
  - apply (core_move S base 0 1 r t receive None queue (Some (recv_next t)) t' acts 0 true); rewrite ?PC; cbn [b2z orb]; try done; try lia.
    + by apply tracked_frame.
    + by rewrite Z.add_0_r, sub_empty, app_nil_r.
    + apply C.
  - destruct queue as [|c queue]; [done|]. intros (x & _ & Hx & Lc & _ & Nc & _). lia.
Qed.

(** *** After promotion *)
Lemma force_ack_quiet f t' acts : force_ack (f_tcb f) = (t', acts) -> quiet f (set_f_tcb t' f).
Proof.
  unfold force_ack. intros E. destruct (answer_with_tells Send _ _ _ _ (fun _ => eq_refl) E) as [-> _]. apply quiet_tcb; [apply set_delayed_wf|done|]. intros _. by split.
Qed.

Lemma promote_out_of_order_ok r acts f l : flow_core 0 r f -> tcb_wf (f_tcb f) -> synchronized (state (f_tcb f)) ->
  peer_receive_closed (f_tcb f) = false -> f_pending_initial_receive f = None ->
  wlp (promote_out_of_order acts) (f, l) (fun _ e => kin f e.1 /\ rx_ok r e.1) (fun _ _ => False).
Proof.
  intros C W Y PC In. unfold promote_out_of_order. apply wlp_bind, wlp_get, wlp_bind. cbn [fst].
  eapply wlp_mono; [by apply (promote_loop_ok r)| |done]. intros p [f1 l1] (Id & C1 & HQ & W1 & Y1 & PC1 & In1). cbn [fst] in *.
  apply wlp_bind, wlp_modify, wlp_bind, wlp_modify. cbn [fst snd].
  set (f2 := match f_recent_out_of_order f1 with Some recent => _ | None => f1 end).
  assert (f_tcb f2 = f_tcb f1 /\ kin f1 f2 /\ rx_fields f2 = rx_fields f1) as (E1 & E2 & E3) by (unfold f2; by repeat case_match).
  clearbody f2. unfold rx_fields in E3. injection E3 as R1 R2 R3 R4. rewrite <- E1, <- R1, <- R2, <- R3, <- R4 in C1. rewrite <- E1 in *. rewrite <- R3 in HQ. rewrite <- R2 in In1. clear R1 R2 R3 R4 E1.
  assert (state (f_tcb f2) <> SynSent) as Hs by (by destruct (synchronized_open _ Y1) as (_ & ? & _)). rewrite In1 in C1.
  destruct (synchronized_pending _ W1 Y1) as [P1 P2]. assert (held (f_tcb f2) = 0) as Hh by (unfold held; by rewrite P1, P2).
  pose proof (rc_queue_fin _ _ _ _ _ _ _ _ _ C1) as QF. rewrite Hh, Z.max_l in QF by lia. pose proof (wf_window_max _ W1). unfold MAX_WINDOW in *.
  pose proof (rc_next _ _ _ _ _ _ _ _ _ C1 Hs) as Nx.
  assert (match f_out_of_order_fin f2 with Some fin => if before fin (recv_next (f_tcb f2)) then set_f_out_of_order_fin None f2 else f2 | None => f2 end = f2) as ->.
  { destruct (f_out_of_order_fin f2) as [y|]; [|done]. destruct QF as (-> & Q1 & Q2). rewrite Nx, before_signed by (unfold edge_pos in *; lia).
    replace (len S <? next_pos r (f_tcb f2)) with false by lia. done. }
  apply wlp_bind, wlp_get. cbn [fst]. apply wlp_if; intros Hf.
  - apply bool_decide_eq_true in Hf. rewrite Hf in C1. apply wlp_bind, wlp_modify, wlp_bind. unfold on_tcb_total, on_tcb. apply wlp_on. cbn [fst snd]. flow_goal.
    destruct (accept_queued_fin (f_tcb f2)) as [t' more] eqn:E. apply wlp_ret. cbn [fst]. split; [by transitivity f1; [|transitivity f2]|]. flow_goal.
    destruct (take_fin_core _ _ _ _ _ _ C1 W1 Y1 PC1 E) as (W2 & Y2 & PC2 & C2 & Qn). split; [done|]. intros _.
    assert (f_out_of_order f2 = []) as Eq by auto. split; flow_goal; rewrite ?Eq, ?In1; try done. intros X. by rewrite X in Y2.
  - assert (flow_core 1 r f2) as C2.
    { rewrite In1. eapply core_requeue; [exact C1|rewrite Hh; exact HQ|]. rewrite Hh. destruct (f_out_of_order_fin f2) as [y|] eqn:Fy; [|done].
      destruct QF as (-> & Q1 & Q2). split; [done|]. apply bool_decide_eq_false in Hf. destruct (Z.eq_dec (len S) (next_pos r (f_tcb f2))) as [X|]; [|lia].
      exfalso. apply Hf. by rewrite Nx, <- X. }
    assert (rx_ok r f2) as R. { split; [done|]. intros _. split; [done|by rewrite PC1|done]. }
    apply wlp_if; intros _; [|by apply wlp_ret; split; [transitivity f1|]]. apply wlp_bind. unfold on_tcb_total, on_tcb. apply wlp_on. cbn [fst snd].
    destruct (force_ack (f_tcb f2)) as [t' more] eqn:E. apply wlp_ret. cbn [fst]. split; [by transitivity f1; [|transitivity f2]|].
    eapply quiet_rx_ok; [by eapply force_ack_quiet|done].
Qed.

(** *** The queue after a segment *)
Lemma rx_ok_fields r f f' : f_tcb f' = f_tcb f -> rx_fields f' = rx_fields f -> rx_ok r f -> rx_ok r f'.
Proof. intros E R H. unfold rx_fields in R. injection R as R1 R2 R3 R4. destruct H as [W L]. split; rewrite E; [done|]. intros Hc. destruct (L Hc). split; by rewrite ?E, ?R1, ?R2, ?R3, ?R4. Qed.

(** [queue] and [qfin] are the out-of-order data once the segment's is in. *)
Lemma settle_queue_ok r (fin moved : bool) acts queue qfin anchor f l : bool_decide (PeerHalfClosed ∈ acts) = fin -> tcb_wf (f_tcb f) ->
  f_out_of_order f = queue -> f_out_of_order_fin f = qfin -> state (f_tcb f) <> SynSent ->
  (state (f_tcb f) <> Closed -> core (if moved then 0 else 1) r (f_tcb f) (f_receive f) (f_pending_initial_receive f) (if fin then [] else queue) (if fin then None else qfin)) ->
  (state (f_tcb f) <> Closed -> moved || fin = true -> synchronized (state (f_tcb f))) ->
  (state (f_tcb f) <> Closed -> moved = true -> peer_receive_closed (f_tcb f) = fin) ->
  (state (f_tcb f) <> Closed -> peer_receive_closed (f_tcb f) = true -> fin = false -> queue = [] /\ qfin = None) ->
  (state (f_tcb f) = Closed -> fin = false /\ moved = false) ->
  wlp (_ ← on_queue (fun f l =>
         match f_out_of_order_fin f with
         | Some fin => let '(queue, l) := truncate_out_of_order_at_fin fin (f_out_of_order f) l in (set_f_out_of_order queue f, l)
         | None => (f, l)
         end);
       _ ← on_flow (fun f =>
         match anchor with
         | Some x => if existsb (chunk_holds x) (f_out_of_order f) then set_f_recent_out_of_order anchor f else f
         | None => f
         end);
       if bool_decide (PeerHalfClosed ∈ acts) then _ ← on_queue clear_out_of_order; mret acts
       else if negb moved then mret acts else promote_out_of_order acts) (f, l)
    (fun _ e => kin f e.1 /\ rx_ok r e.1) (fun _ _ => False).
Proof.
  intros Ef W Eq Eqf Hs C Y PC HP Hcl. rewrite Ef. apply wlp_bind, wlp_modify. cbn [fst snd].
  set (e := match f_out_of_order_fin f with Some fin => _ | None => _ end).
  assert (exists q l', e = (set_f_out_of_order q f, l') /\ (state (f_tcb f) <> Closed -> fin = false -> q = queue)) as (q & l' & -> & Hq).
  { unfold e. rewrite Eqf. destruct qfin as [y|].
    - rewrite Eq. destruct (truncate_out_of_order_at_fin y queue l) as [q l'] eqn:T. exists q, l'. split; [done|]. intros Hc ->. specialize (C Hc).
      destruct (rc_queue_fin _ _ _ _ _ _ _ _ _ C) as (-> & Q1 & Q2). pose proof (core_positions _ _ _ _ _ _ _ _ _ C W Hc) as P. unfold MAX_WINDOW in *.
      rewrite (truncate_at_end S base (edge_pos r (f_tcb f)) queue _ l (rc_queue _ _ _ _ _ _ _ _ _ C)) in T; [by simplify_eq|destruct moved; lia|unfold held in *; destruct moved; lia].
    - exists queue, l. split; [|done]. rewrite <- Eq. by destruct f. }
  apply wlp_bind, wlp_modify. cbn [fst snd]. set (f1 := match anchor with Some x => _ | None => _ end).
  assert (f_tcb f1 = f_tcb f /\ kin f f1 /\ rx_fields f1 = (f_receive f, f_pending_initial_receive f, q, qfin)) as (E1 & E2 & E3).
  { unfold f1, rx_fields. rewrite <- Eqf. by repeat case_match. }
  clearbody f1. unfold rx_fields in E3. injection E3 as R1 R2 R3 R4. destruct (decide (state (f_tcb f) = Closed)) as [Cl|Cl].
  { destruct (Hcl Cl) as [-> ->]. apply wlp_ret. split; [done|]. cbn. split; rewrite E1; [done|by rewrite Cl]. }
  specialize (C Cl). specialize (Y Cl). specialize (PC Cl). specialize (HP Cl). specialize (Hq Cl). destruct fin.
  - apply wlp_bind, wlp_modify. unfold clear_out_of_order. apply wlp_ret. cbn [fst]. split; [done|]. split; flow_goal; rewrite E1; [done|]. intros _.
    split; flow_goal; rewrite ?E1, ?R1, ?R2; try done. eapply core_requeue; [exact C|done|done].
  - rewrite (Hq eq_refl) in R3. destruct moved; cbn [negb].
    + eapply wlp_mono; [apply (promote_out_of_order_ok r)| |done]; rewrite ?E1, ?R1, ?R2, ?R3, ?R4; try done; [by apply Y|by apply PC| |].
      * pose proof (rc_initial _ _ _ _ _ _ _ _ _ C) as I. destruct (f_pending_initial_receive f); [|done]. destruct I as (X & _). specialize (Y eq_refl). by rewrite X in Y.
      * intros _ e0 [? ?]. split; [by transitivity f1|done].
    + apply wlp_ret. cbn [fst]. split; [done|]. split; rewrite E1; [done|]. intros _. split; rewrite ?E1, ?R1, ?R2, ?R3, ?R4; auto; done.
Qed.

Lemma queue_out_of_order_and_promote_ok r (fin moved : bool) acts pending pending_fin anchor f l : bool_decide (PeerHalfClosed ∈ acts) = fin -> tcb_wf (f_tcb f) ->
  let a := mkReceiveAdmission false None pending pending_fin in
  let queue := queue_after f (recv_next (f_tcb f)) a in
  let qfin := fin_after f a in
  state (f_tcb f) <> SynSent ->
  (state (f_tcb f) <> Closed -> core (if moved then 0 else 1) r (f_tcb f) (f_receive f) (f_pending_initial_receive f) (if fin then [] else queue) (if fin then None else qfin)) ->
  (state (f_tcb f) <> Closed -> moved || fin = true -> synchronized (state (f_tcb f))) ->
  (state (f_tcb f) <> Closed -> moved = true -> peer_receive_closed (f_tcb f) = fin) ->
  (state (f_tcb f) <> Closed -> peer_receive_closed (f_tcb f) = true -> fin = false -> queue = [] /\ qfin = None) ->
  (state (f_tcb f) = Closed -> fin = false /\ moved = false) ->
  wlp (queue_out_of_order_and_promote pending pending_fin anchor moved acts) (f, l) (fun _ e => kin f e.1 /\ rx_ok r e.1) (fun _ _ => False).
Proof.
  intros Ef W a queue qfin Hs C Y PC HP Hcl. unfold queue_out_of_order_and_promote. apply wlp_bind, wlp_modify, wlp_bind, wlp_modify. cbn [fst snd].
  set (f1 := match pending with Some c => _ | None => f end).
  assert (f_tcb f1 = f_tcb f /\ kin f f1 /\ f_receive f1 = f_receive f /\ f_pending_initial_receive f1 = f_pending_initial_receive f /\
    f_out_of_order f1 = queue /\ f_out_of_order_fin f1 = f_out_of_order_fin f) as (E1 & E2 & E3 & E4 & E5 & E6) by (unfold f1, queue, queue_after; cbn; by destruct pending).
  clearbody f1. set (f2 := match pending_fin with Some y => _ | None => f1 end).
  assert (f_tcb f2 = f_tcb f /\ kin f f2 /\ f_receive f2 = f_receive f /\ f_pending_initial_receive f2 = f_pending_initial_receive f /\
    f_out_of_order f2 = queue /\ f_out_of_order_fin f2 = qfin) as (G1 & G2 & G3 & G4 & G5 & G6).
  { unfold f2, qfin, fin_after. cbn [ra_out_of_order_fin a]. rewrite E6. destruct pending_fin as [y|]; [|done].
    destruct (match f_out_of_order_fin f with Some z => before y z | None => true end); flow_goal; done. }
  clearbody f2. eapply wlp_mono; [apply (settle_queue_ok r fin moved acts queue qfin); rewrite ?G1, ?G3, ?G4; done| |done].
  intros _ e0 [? ?]. split; [by transitivity f2|done].
Qed.
End Receive.

(** ** What the send side does *)
Lemma record_ack_progress_steady una options now_ms f : steady f (record_ack_progress una options now_ms f).
Proof.
  unfold record_ack_progress. case_match; [done|]. repeat case_match; try (by apply steady_fields).
  all: split; flow_goal; try done; intros []; split; try done; apply record_sample_ok.
Qed.

Lemma update_recent_timestamp_steady s options next now_ms f : steady f (update_recent_timestamp s options next now_ms f).
Proof. unfold update_recent_timestamp. repeat case_match; by apply steady_fields. Qed.

Lemma on_sack_loss_steady f t' acts : on_sack_loss (f_tcb f) = (t', acts) -> steady f (set_f_tcb t' f) /\ mutes acts.
Proof.
  intros E. assert (steady f (set_f_tcb t' f)) as Q.
  { split; flow_goal; try done.
    - intros W. apply (sack_loss_ok _ _ _ _ E W (timers_of_ok _)).
    - unfold on_sack_loss in E. repeat case_match; simplify_eq; by split.
    - unfold on_sack_loss in E. repeat case_match; by simplify_eq. }
  split; [done|]. unfold on_sack_loss in E. repeat case_match; simplify_eq; by repeat constructor.
Qed.

Lemma split_pieces_no_error max_segment blocks chunk ends start lease first metadata e :
  split_pieces max_segment blocks chunk ends start lease first metadata <> Err e.
Proof.
  revert start lease first metadata. induction ends as [|x ends IH]; intros start lease first metadata; cbn [split_pieces]; [done|].
  destruct (split_off _ _) as [[p q]|?| |]; try done. destruct first as [y|]; [|destruct metadata as [|y metadata]; [done|]].
  all: match goal with |- context [split_pieces ?a ?b ?c ?d ?x1 ?x2 ?x3 ?x4] => specialize (IH x1 x2 x3 x4); destruct (split_pieces a b c d x1 x2 x3 x4) end; done.
Qed.

Lemma split_chunks_no_error max_segment blocks send cuts metadata l e : split_chunks max_segment blocks send cuts metadata l <> Err e.
Proof.
  revert cuts metadata l. induction send as [|c send IH]; intros cuts metadata l; [done|]. destruct cuts as [|x cuts]; [done|]. cbn [split_chunks].
  unfold split_sack_chunk. pose proof (split_pieces_no_error max_segment blocks c (x ++ [len (sd_bytes c)]) 0 (sd_payload_lease c) (Some (sd_metadata_lease c)) metadata) as H.
  destruct (split_pieces _ _ _ _ _ _ _ _) as [[[p q] m]|?| |]; cbn; try done; [|by specialize (H e0)].
  specialize (IH cuts m (drop_lease q l)). cbn in *. destruct (split_chunks _ _ _ _ _ _) as [[]|?| |]; done.
Qed.

Lemma release_chunks_no_error una send l e : release_chunks una send l <> Err e.
Proof. revert l. induction send as [|c send IH]; intros l; cbn [release_chunks]; [done|]. repeat case_match; try done. Qed.

Lemma update_sender_sack_steady admissible plan acts f l :
  wlp (update_sender_sack admissible plan acts) (f, l) (fun acts' e => steady f e.1 /\ exists more, acts' = acts ++ more /\ mutes more) (fun _ _ => False).
Proof.
  unfold update_sender_sack. apply wlp_bind.
  apply wlp_mono with (Q := fun acts' (e : flow_env) => steady f e.1 /\ exists more, acts' = acts ++ more /\ mutes more) (X := fun _ _ => False); [| |done].
  - apply wlp_if; intros _; [|apply wlp_ret; split; [done|apply mutes_none]]. unfold apply_sender_sack. apply wlp_bind, wlp_get. cbn [fst].
    apply wlp_if; intros _; [apply wlp_ret; split; [done|apply mutes_none]|]. apply wlp_bind.
    apply wlp_mono with (Q := fun _ (e : flow_env) => steady f e.1) (X := fun _ _ => False); [| |done].
    { destruct plan as [plan|]; [|by apply wlp_ret]. unfold wlp, apply_sack_split. cbn [fst snd].
      pose proof (split_chunks_no_error (f_max_send_segment_bytes f) (sp_valid_blocks plan) (f_send f) (sp_cuts_by_chunk plan) (sp_metadata plan) l) as H.
      destruct (split_chunks _ _ _ _ _ _) as [[send l']|e| |]; try done; first [by apply steady_fields|by specialize (H e)]. }
    intros _ [f1 l1] Q1. cbn [fst] in *. apply wlp_bind, wlp_get. apply wlp_if; intros _; [apply wlp_ret; split; [done|apply mutes_none]|]. cbn [fst].
    apply wlp_bind. unfold on_tcb_total, on_tcb. apply wlp_on. cbn [fst snd]. destruct (on_sack_loss (f_tcb f1)) as [t' more] eqn:E.
    destruct (on_sack_loss_steady _ _ _ E) as [Q2 M]. apply wlp_bind. cbn [fst snd].
    destruct (existsb is_retransmit more); [apply wlp_modify|apply wlp_ret]; apply wlp_ret; (split; [|by eexists]); cbn [fst]; (etransitivity; [exact Q1|]); [|done].
    etransitivity; [exact Q2|]. by apply steady_fields.
  - intros acts' [f1 l1] [Q M]. cbn [fst] in *. apply wlp_bind, wlp_get, wlp_bind. cbn [fst].
    apply wlp_mono with (Q := fun _ (e : flow_env) => steady f e.1) (X := fun _ _ => False); [| |done].
    { apply wlp_if; intros _; [apply wlp_modify|by apply wlp_ret]. etransitivity; [exact Q|]. by apply steady_fields. }
    intros _ [f2 l2] Q2. cbn [fst] in *. apply wlp_bind, wlp_modify, wlp_ret. cbn [fst]. split; [|done]. etransitivity; [exact Q2|]. repeat case_match; by apply steady_fields.
Qed.

Lemma apply_accept_lease_steady lease acts f l : wlp (apply_accept_lease lease acts) (f, l) (fun _ e => steady f e.1) (fun _ _ => False).
Proof.
  unfold apply_accept_lease. apply wlp_if; intros _; [by apply wlp_modify, steady_fields|]. apply wlp_on_part. destruct lease; [by apply wlp_modify|by apply wlp_ret].
Qed.

Lemma release_acknowledged_send_steady f l : wlp release_acknowledged_send (f, l) (fun _ e => steady f e.1) (fun _ _ => False).
Proof.
  unfold wlp, release_acknowledged_send. cbn [fst snd]. pose proof (release_chunks_no_error (send_unacked (f_tcb f)) (f_send f) l) as H.
  destruct (release_chunks _ _ _) as [[send l']|e| |]; try done; first [by apply steady_fields|by specialize (H e)].
Qed.
