(* ===== verification/TcpReport.v ===== *)
(** What a flow of [sail-netstack/src/tcp/table.rs] reports of the data it holds out of
    order, and the options of the segments it answers with: the SACK blocks name
    ranges of the stream that are held, the options parse, so the segment goes out. *)
From S2P Require Import Prelude StateMonad Partial TcpSeq Congestion TcpTcb TcpInvariant TcpHandlers Budget Checksum IpWire TcpWire TcpFlow TcpTable TcpSegment TcpReceive TcpReceiveInv TcpReceiveFlow.
From stdpp Require Import list sets gmap.
#[local] Open Scope Z_scope.

(** ** Blocks *)
Section Blocks.
Context (S : list Z) (base lo edge : Z) (all : list OutOfOrderChunk).
Context (small : edge - lo <= MAX_WINDOW).

(** The chunk holds the stream at [p]. *)
Definition holds_byte (p : Z) (c : OutOfOrderChunk) : Prop :=
  exists z, oc_sequence c = seq_add base z /\ lo <= z <= p /\ p < z + len (oc_bytes c) <= edge /\ oc_bytes c = sub S z (z + len (oc_bytes c)).

(** The block names the range from [x] to [y], all of which is held. *)
Definition block_of (x y : Z) (b : SeqNumber * SeqNumber) : Prop :=
  b = (seq_add base x, seq_add base y) /\ lo <= x < y /\ y <= Z.min edge (len S) /\ forall p, x <= p < y -> exists c, c ∈ all /\ holds_byte p c.
Definition block_held (b : SeqNumber * SeqNumber) : Prop := exists x y, block_of x y b.
Definition opt_held (o : option (SeqNumber * SeqNumber)) : Prop := match o with Some b => block_held b | None => True end.
(** The block being put together ends at or before [at_]. *)
Definition current_held (at_ : Z) (o : option (SeqNumber * SeqNumber)) : Prop := match o with Some b => exists x y, block_of x y b /\ y <= at_ | None => True end.

Lemma chunk_block at_ c queue : queue_at S base edge at_ (c :: queue) -> c ∈ all -> lo <= at_ ->
  exists z, oc_sequence c = seq_add base z /\ at_ <= z /\ queue_at S base edge (z + len (oc_bytes c)) queue /\
    block_of z (z + len (oc_bytes c)) (oc_sequence c, seq_add (oc_sequence c) (len (oc_bytes c))).
Proof.
  intros (z & E & Hz & Lc & Bc & Nc & He & HQ) Hc Hl. exists z. split; [done|]. split; [done|]. split; [done|].
  split; [by rewrite E, seq_add_assoc|]. split; [lia|]. split; [lia|]. intros p Hp. exists c. split; [done|]. exists z. split; [done|]. split; [lia|]. split; [lia|done].
Qed.

Lemma join_block x y z c : block_of x y (seq_add base x, seq_add base y) -> block_of z (z + len (oc_bytes c)) (oc_sequence c, seq_add (oc_sequence c) (len (oc_bytes c))) ->
  seq_add base y = oc_sequence c -> block_of x (z + len (oc_bytes c)) (seq_add base x, seq_add (oc_sequence c) (len (oc_bytes c))).
Proof.
  intros (_ & Hx & Hy & Cx) (Eb & Hz & Hze & Cz) E. injection Eb as E1 E2. rewrite E1 in E. apply seq_add_inj in E; [|unfold MAX_WINDOW in *; lia]. subst z.
  split; [by rewrite E2|]. split; [lia|]. split; [done|]. intros p Hp. destruct (decide (p < y)); [apply Cx|apply Cz]; lia.
Qed.

Lemma push_held recent limit b blocks : block_held b -> Forall block_held blocks -> Forall block_held (push_block recent limit b blocks) /\
  len (push_block recent limit b blocks) <= Z.max limit (len blocks).
Proof.
  intros Hb Hs. unfold push_block. destruct (bool_decide _); cbn [andb]; [|split; [done|lia]]. case_bool; [|split; [done|lia]].
  split; [apply Forall_app; by split; [|constructor]|]. rewrite len_app. change (len [b]) with 1. lia.
Qed.

Lemma blocks_loop_held recent limit chunks : forall current blocks at_, queue_at S base edge at_ chunks -> (forall c, c ∈ chunks -> c ∈ all) -> lo <= at_ ->
  current_held at_ current -> Forall block_held blocks ->
  Forall block_held (sack_blocks_loop recent limit chunks current blocks) /\ len (sack_blocks_loop recent limit chunks current blocks) <= Z.max limit (len blocks).
Proof.
  induction chunks as [|c chunks IH]; intros current blocks at_ HQ Hin Hl Hc Hb; cbn [sack_blocks_loop].
  - destruct current as [b|]; [|split; [done|lia]]. destruct Hc as (x & y & Hc & _). apply push_held; [by exists x, y|done].
  - destruct (chunk_block at_ c chunks HQ ltac:(apply Hin; set_solver) Hl) as (z & Ez & Hz & HQ' & B). assert (forall c0, c0 ∈ chunks -> c0 ∈ all) as Hin' by set_solver.
    pose proof (len_nonneg (oc_bytes c)). assert (current_held (z + len (oc_bytes c)) (Some (oc_sequence c, seq_add (oc_sequence c) (len (oc_bytes c))))) as Hn by (exists z, (z + len (oc_bytes c)); by split).
    destruct current as [[l r]|]; [|by apply (IH _ _ (z + len (oc_bytes c))); [..|lia| |]].
    destruct Hc as (x & y & Hc & Hy). pose proof (proj1 Hc) as E. injection E as -> ->. destruct (Z.eqb_spec (seq_add base y) (oc_sequence c)) as [Eq|Ne].
    + apply (IH _ _ (z + len (oc_bytes c))); try done; [lia|]. exists x, (z + len (oc_bytes c)). split; [by eapply join_block|lia].
    + destruct (push_held recent limit (seq_add base x, seq_add base y) blocks) as [P1 P2]; [by exists x, y|done|].
      destruct (IH (Some (oc_sequence c, seq_add (oc_sequence c) (len (oc_bytes c)))) (push_block recent limit (seq_add base x, seq_add base y) blocks) (z + len (oc_bytes c))) as [I1 I2];
        try done; [lia|]. split; [done|lia].
Qed.

Lemma block_loop_held anchor chunks : forall current at_, queue_at S base edge at_ chunks -> (forall c, c ∈ chunks -> c ∈ all) -> lo <= at_ ->
  current_held at_ current -> opt_held (sack_block_loop anchor chunks current).
Proof.
  assert (forall at_ b, current_held at_ (Some b) -> block_held b) as Hw by (intros at_ b (x & y & H & _); by exists x, y).
  induction chunks as [|c chunks IH]; intros current at_ HQ Hin Hl Hc; cbn [sack_block_loop].
  - destruct current as [b|]; [|done]. case_match; [by eapply Hw|done].
  - destruct (chunk_block at_ c chunks HQ ltac:(apply Hin; set_solver) Hl) as (z & Ez & Hz & HQ' & B). assert (forall c0, c0 ∈ chunks -> c0 ∈ all) as Hin' by set_solver.
    pose proof (len_nonneg (oc_bytes c)). assert (current_held (z + len (oc_bytes c)) (Some (oc_sequence c, seq_add (oc_sequence c) (len (oc_bytes c))))) as Hn by (exists z, (z + len (oc_bytes c)); by split).
    destruct current as [[l r]|]; [|by apply (IH _ (z + len (oc_bytes c))); [..|lia|]].
    destruct Hc as (x & y & Hc & Hy). pose proof (proj1 Hc) as E. injection E as -> ->. destruct (Z.eqb_spec (seq_add base y) (oc_sequence c)) as [Eq|Ne].
    + apply (IH _ (z + len (oc_bytes c))); try done; [lia|]. exists x, (z + len (oc_bytes c)). split; [by eapply join_block|lia].
    + case_match; [by exists x, y|]. by apply (IH _ (z + len (oc_bytes c))); [..|lia|].
Qed.

Lemma held_after b : block_held b -> after b.2 b.1 = true /\ is_seq b.1 /\ is_seq b.2.
Proof.
  intros (x & y & -> & Hx & Hy & _). cbn. split; [|split; apply seq_add_range]. rewrite after_signed by (unfold MAX_WINDOW in *; lia). apply Z.ltb_lt. lia.
Qed.
End Blocks.

(** RFC 2018: the blocks report data that is held, and fit the limit. *)
Lemma receive_blocks_held S base lo edge f limit : edge - lo <= MAX_WINDOW -> queue_at S base edge lo (f_out_of_order f) ->
  Forall (block_held S base lo edge (f_out_of_order f)) (receive_sack_blocks f limit) /\ len (receive_sack_blocks f limit) <= Z.max limit 1.
Proof.
  intros Hs HQ. unfold receive_sack_blocks. set (recent := match f_recent_out_of_order f with Some _ => _ | None => None end).
  assert (opt_held S base lo edge (f_out_of_order f) recent) as Hr.
  { unfold recent. destruct (f_recent_out_of_order f); [|done]. by eapply block_loop_held; [exact Hs|exact HQ|..]. }
  destruct (blocks_loop_held S base lo edge (f_out_of_order f) Hs recent limit (f_out_of_order f) None (match recent with Some b => [b] | None => [] end) lo) as [H1 H2]; try done.
  { destruct recent; by repeat constructor. }
  split; [done|]. destruct recent; unfold len in *; cbn [length] in H2; lia.
Qed.

(** ** Options *)
Definition ok_of {E A} (m : outcome E A) : Prop := match m with Ok _ => True | _ => False end.

Lemma parse_nops n fuel o i : (n < fuel)%nat -> ok_of (parse_options_loop fuel (replicate n 1) o i).
Proof. revert fuel. induction n as [|n IH]; intros [|fuel] H; try lia; cbn; [done|]. apply IH. lia. Qed.

(** One option: [kind], its length and its data. *)
Lemma parse_one fuel kind data rest o i : 2 <= kind ->
  parse_options_loop (Datatypes.S fuel) (kind :: (2 + len data) :: data ++ rest) o i =
  (x ← parse_option kind (2 + len data) data o i; parse_options_loop fuel rest x.1 x.2).
Proof.
  intros Hk. cbn [parse_options_loop]. pose proof (len_nonneg data). pose proof (len_nonneg rest).
  replace (kind =? 0) with false by lia. replace (kind =? 1) with false by lia. rewrite len_cons, len_app.
  replace ((2 + len data <? 2) || (1 + (len data + len rest) <? 2 + len data - 1)) with false by lia.
  assert (slice (E := WireError) (data ++ rest) 0 (2 + len data - 2) = Ok data) as E1.
  { unfold slice. rewrite len_app. replace (_ && _) with true by lia. by rewrite sub_app_l by lia. }
  assert (slice_from (E := WireError) ((2 + len data) :: data ++ rest) (2 + len data - 1) = Ok rest) as E2.
  { unfold slice_from, slice. rewrite len_cons, len_app. replace (_ && _) with true by lia. f_equal. apply (sub_app_tail ((2 + len data) :: data)); rewrite len_cons; lia. }
  rewrite E1. cbn [mbind outcome_bind]. destruct (parse_option _ _ _ _ _) as [[o' i']| | |]; cbn [mbind outcome_bind]; [|done..]. by rewrite E2.
Qed.

Definition put_blocks (blocks : list (SeqNumber * SeqNumber)) : list Z := flat_map (fun b => to_be32 b.1 ++ to_be32 b.2) blocks.

Lemma len_put_blocks blocks : len (put_blocks blocks) = 8 * len blocks.
Proof. induction blocks as [|b blocks IH]; [done|]. change (put_blocks (b :: blocks)) with (to_be32 b.1 ++ to_be32 b.2 ++ put_blocks blocks). rewrite !len_app, !len_to_be32, IH, len_cons. lia. Qed.

Lemma parse_put_blocks blocks : forall o i, Forall (fun b => after b.2 b.1 = true) blocks -> length (sack_blocks o) = 4%nat -> (i + length blocks <= 4)%nat ->
  exists o', parse_sack_blocks (put_blocks blocks) o i = Ok (o', (i + length blocks)%nat).
Proof.
  induction blocks as [|b blocks IH]; intros o i Hb Lo Hi; [exists o; by rewrite Nat.add_0_r|]. apply Forall_cons in Hb as [Hb Hs]. cbn [length] in Hi.
  change (put_blocks (b :: blocks)) with (to_be32 b.1 ++ to_be32 b.2 ++ put_blocks blocks). unfold to_be32. cbn [app parse_sack_blocks]. rewrite Lo.
  replace (Nat.eqb i 4) with false by (symmetry; apply Nat.eqb_neq; lia). rewrite !be32_to_be32, Hb. cbn [negb].
  destruct (IH (set_sack_block i (mkSackBlock b.1 b.2) o) (Datatypes.S i)) as [o' E]; [done|by cbn; rewrite length_insert|lia|].
  exists o'. rewrite E. cbn [length]. do 2 f_equal. lia.
Qed.

(** Timestamps, blocks and padding parse. *)
Definition stamp (t : option (Z * Z)) : list Z := match t with Some (a, b) => [8; 10] ++ to_be32 a ++ to_be32 b ++ [1; 1] | None => [] end.
Definition report (blocks : list (SeqNumber * SeqNumber)) : list Z := match blocks with [] => [] | _ => [5; 2 + len blocks * 8] ++ put_blocks blocks end.

Lemma parse_report blocks n fuel o i : Forall (fun b => after b.2 b.1 = true) blocks -> length (sack_blocks o) = 4%nat -> (i + length blocks <= 4)%nat -> (length (report blocks) + n < fuel)%nat ->
  ok_of (parse_options_loop fuel (report blocks ++ replicate n 1) o i).
Proof.
  intros Hb Lo Hi Hf. destruct blocks as [|b blocks]; [apply parse_nops; cbn in Hf; lia|]. destruct fuel as [|fuel]; [lia|]. set (all := b :: blocks) in *.
  assert (report all ++ replicate n 1 = 5 :: (2 + len (put_blocks all)) :: put_blocks all ++ replicate n 1) as ->.
  { rewrite len_put_blocks. unfold report, all. cbn [app]. do 3 f_equal. lia. }
  rewrite parse_one by done. destruct (parse_put_blocks all o i Hb Lo Hi) as [o' E]. unfold parse_option. rewrite len_put_blocks in *.
  assert (1 <= len all) by (unfold all, len; cbn [length]; lia). replace ((5 =? 2) && _) with false by done. replace ((5 =? 3) && _) with false by done. replace ((5 =? 4) && _) with false by done.
  replace ((5 =? 5) && _) with true by (symmetry; apply andb_true_iff; split; [done|]; apply andb_true_iff; split; [lia|]; apply Z.eqb_eq; replace (2 + 8 * len all - 2) with (len all * 8) by lia; by apply Z.mod_mul).
  rewrite E. cbn [mbind outcome_bind fst snd]. apply parse_nops. unfold report, all in Hf. cbn [length app] in Hf. lia.
Qed.

Lemma parse_stamped t blocks n : Forall (fun b => after b.2 b.1 = true) blocks -> (length blocks <= 4)%nat -> ok_of (parse_options (stamp t ++ report blocks ++ replicate n 1)).
Proof.
  intros Hb Hl. unfold parse_options. destruct t as [[a b]|].
  - set (rest := report blocks ++ replicate n 1). assert (stamp (Some (a, b)) ++ rest = 8 :: (2 + len (to_be32 a ++ to_be32 b)) :: (to_be32 a ++ to_be32 b) ++ 1 :: 1 :: rest) as E by done.
    rewrite E. rewrite parse_one by done. cbn [length].
    change (parse_option 8 (2 + len (to_be32 a ++ to_be32 b)) (to_be32 a ++ to_be32 b) default_options 0) with
      (Ok (E := WireError) (set_timestamps (be32 (a / 16777216) (a / 65536 mod 256) (a / 256 mod 256) (a mod 256), be32 (b / 16777216) (b / 65536 mod 256) (b / 256 mod 256) (b mod 256)) default_options, 0%nat)).
    cbn [mbind outcome_bind fst snd]. set (o := set_timestamps _ _). match goal with |- ok_of (parse_options_loop ?F _ _ _) => set (fuel := F) end.
    assert (exists m, fuel = Datatypes.S (Datatypes.S m) /\ (length rest < m)%nat) as (m & -> & Hm) by (eexists; split; [reflexivity|cbn; lia]).
    change (ok_of (parse_options_loop m rest o 0)). apply parse_report; try done. unfold rest in Hm. rewrite length_app, length_replicate in Hm. done.
  - apply parse_report; try done. rewrite !length_app, length_replicate. cbn. lia.
Qed.

Lemma segment_options_ok S base lo edge t key f o : t_by_key t !! key = Some f -> segment_options t key = Some o -> edge - lo <= MAX_WINDOW ->
  queue_at S base edge lo (f_out_of_order f) -> len o <= 40 /\ len o mod 4 = 0 /\ ok_of (parse_options o).
Proof.
  intros Ef E Hs HQ. unfold segment_options in E. rewrite Ef in E. cbv zeta in E.
  set (ts := (fun x => (timestamp_value (t_now_ms t) (f_timestamp_offset f), ts_recent x)) <$> f_timestamp f).
  assert (default [] (timestamp_options t f) = stamp ts) as Et by (unfold timestamp_options, ts; by destruct (f_timestamp f)). rewrite Et in E.
  assert (len (stamp ts) = 0 \/ len (stamp ts) = 12) as Lt by (destruct ts as [[a b]|]; [right|left]; done).
  set (limit := Z.min (sat_sub 40 (len (stamp ts) + 2) / 8) 4) in E.
  assert (1 <= limit <= 4 /\ len (stamp ts) + 2 + 8 * limit <= 38) as Hlim by (unfold limit; destruct Lt as [-> | ->]; done).
  destruct (receive_blocks_held S base lo edge f limit Hs HQ) as [Hb Lb].
  assert (exists blocks, Forall (fun b => after b.2 b.1 = true) blocks /\ len blocks <= limit /\ Some o = (if len (stamp ts ++ report blocks) =? 0 then None else Some (pad_options (stamp ts ++ report blocks))))
    as (blocks & Ha & Lbl & Eo).
  { destruct (f_sack_permitted f && _).
    - exists (receive_sack_blocks f limit). split; [eapply Forall_impl; [exact Hb|]; intros b H; by apply (held_after S base lo edge (f_out_of_order f) Hs)|]. split; [lia|]. rewrite <- E.
      unfold report. destruct (receive_sack_blocks f limit) as [|b bs]; [by rewrite (app_nil_r (stamp ts))|]. by replace (len (b :: bs) =? 0) with false by (rewrite len_cons; pose proof (len_nonneg bs); lia).
    - exists []. split; [done|]. split; [change (len []) with 0; lia|]. by rewrite app_nil_r. }
  clear E. destruct (len (stamp ts ++ report blocks) =? 0); [done|]. injection Eo as ->. unfold pad_options.
  set (n := Z.to_nat _). assert (len (report blocks) = 0 \/ len (report blocks) = 2 + 8 * len blocks) as Lr.
  { destruct blocks as [|b bs]; [by left|right]. unfold report. rewrite len_app, len_put_blocks. done. }
  assert (len (stamp ts ++ report blocks) <= 38) as L38 by (rewrite len_app; lia). pose proof (len_nonneg (stamp ts ++ report blocks)).
  assert (len (replicate n 1) = (- len (stamp ts ++ report blocks)) mod 4) as Ln by (unfold len at 1; rewrite length_replicate; unfold n; apply Z2Nat.id, Z.mod_pos_bound; lia). rewrite len_app, Ln.
  split; [Z.div_mod_to_equations; lia|]. split; [Z.div_mod_to_equations; lia|]. rewrite <- app_assoc. apply parse_stamped; [done|]. unfold len in Lbl. lia.
Qed.

(** ** The segment goes out *)
Definition no_err {E A} (m : outcome E A) : Prop := match m with Err _ => False | _ => True end.
Lemma no_err_bind {E A B} (m : outcome E A) (g : A -> outcome E B) : no_err m -> (forall a, no_err (g a)) -> no_err (x ← m; g x).
Proof. destruct m; cbn; auto. Qed.
Lemma no_err_write {E} (l : list Z) a bs : no_err (E := E) (write_at l a bs).
Proof. unfold write_at. by case_match. Qed.
Lemma no_err_slice {E} (l : list Z) a b : no_err (E := E) (slice l a b).
Proof. unfold slice. by case_match. Qed.
Lemma no_err_expect {E A} (o : option A) : no_err (E := E) (expect o).
Proof. by destruct o. Qed.
Lemma no_err_fold {E} fuel sum : no_err (E := E) (fold_loop fuel sum).
Proof. revert sum. induction fuel; intros sum; cbn [fold_loop]; by case_match. Qed.
Create HintDb no_err.
#[local] Hint Resolve no_err_write no_err_slice no_err_expect no_err_fold : no_err.
Ltac no_err := repeat first [apply no_err_bind; [|intros ?] | done | solve [auto with no_err]].

Lemma no_err_accumulate {E} le l sum : no_err (E := E) (checksum_accumulate le l sum).
Proof. unfold checksum_accumulate, fold_wide_checksum. destruct (sum_words le 0 l). no_err. Qed.
#[local] Hint Resolve no_err_accumulate : no_err.
Lemma no_err_transport le s d protocol l : no_err (transport_checksum_sum le s d protocol l).
Proof. unfold transport_checksum_sum, checksum_sum, fold_checksum. destruct s, d; no_err. Qed.
#[local] Hint Resolve no_err_transport : no_err.

Definition one_family (key : TcpFlowKey) : Prop :=
  match sa_ip (tk_source key), sa_ip (tk_destination key) with V4 _, V4 _ | V6 _, V6 _ => True | _, _ => False end.

Lemma emit_no_err le key control options hop id : one_family key -> len options <= 40 -> len options mod 4 = 0 -> ok_of (parse_options options) ->
  no_err (emit_tcp_segment_with_options le (tk_destination key) (tk_source key) control options [] hop id).
Proof.
  intros Hf L4 M4 Hp. unfold emit_tcp_segment_with_options. pose proof (len_nonneg options). replace (_ || _) with false by lia. destruct (parse_options options); [|done..].
  cbn [mbind outcome_bind]. unfold checked_add, try_u16, u64_max, u16_max, one_family in *. change (len (@nil Z)) with 0.
  destruct (sa_ip (tk_destination key)), (sa_ip (tk_source key)); try done; cbn [mbind outcome_bind mret outcome_ret ok_or];
    do 4 (match goal with |- context [if ?b then Some _ else None] => replace b with true by lia end; cbn [mbind outcome_bind mret outcome_ret ok_or]);
    unfold write_ipv4_header, write_ipv6_header, header_checksum, write_tcp, slice_from; no_err.
  destruct (sum_pairs 0 _). no_err.
Qed.

Section Answers.
Context (S : list Z) (base r : Z) (le : bool) (k : TcpFlowKey) (family : one_family k).

Lemma emit_ok f control t l : t_by_key t !! k = Some f -> rx_live S base r f -> tcb_wf (f_tcb f) -> state (f_tcb f) <> Closed ->
  wlp (emit le k control) (t, l) (fun _ s => t_by_key s.1 = t_by_key t) (fun _ _ => False).
Proof.
  intros Ef L W Hc. pose proof (rl_core _ _ _ _ L) as C. pose proof (core_positions _ _ _ _ _ _ _ _ _ C W Hc) as Pos. pose proof (rc_queue _ _ _ _ _ _ _ _ _ C) as HQ.
  unfold emit, next_identification. apply wlp_bind, wlp_bind, wlp_get, wlp_bind, wlp_modify, wlp_ret, wlp_bind, wlp_get. cbn [fst snd].
  set (t1 := set_t_next_ipv4_id _ t). destruct (segment_options t1 k) as [o|] eqn:Eo; apply wlp_on; cbn [fst snd].
  - destruct (segment_options_ok S base (next_pos r (f_tcb f) + Z.max 1 (held (f_tcb f))) (edge_pos r (f_tcb f)) t1 k f o) as (L4 & M4 & Po); try done; [lia|].
    pose proof (emit_no_err le k control o (tc_hop_limit (t_config t1)) (t_next_ipv4_id t) family L4 M4 Po) as H. by destruct (emit_tcp_segment_with_options _ _ _ _ _ _ _ _).
  - unfold emit_tcp_control, emit_tcp_segment. pose proof (emit_no_err le k control [] (tc_hop_limit (t_config t1)) (t_next_ipv4_id t) family ltac:(done) ltac:(done) I) as H.
    by destruct (emit_tcp_segment_with_options _ _ _ _ _ _ _ _).
Qed.

(** The actions that follow a read. *)
Definition answer (a : TcpAction) : Prop := a = DisarmDelayedAck \/ exists c, a = Send c /\ contains (sc_flags c) SYN = false.

Lemma consumed_answers t n t' acts : on_consumed t n = (t', Ok acts) -> Forall answer acts.
Proof.
  assert (forall c, contains (sc_flags c) SYN = false -> answer (Send c)) as Hs by (intros c H; right; by exists c).
  unfold on_consumed. destruct (recv_buffered t <? n); [done|]. cbv zeta. destruct (_ && _); [|by intros [= _ <-]].
  destruct (answer_with Send _ []) as [t2 a] eqn:E. intros [= _ <-]. unfold answer_with, cancel_delayed_ack in E.
  destruct (delayed_ack_pending _); injection E as _ <-; cbn [app]; [apply Forall_cons; split; [by left|]|]; apply Forall_singleton; by apply Hs.
Qed.

Lemma render_answers id acts f : forall output t l, Forall answer acts -> t_by_key t !! k = Some f -> rx_live S base r f -> tcb_wf (f_tcb f) -> state (f_tcb f) <> Closed ->
  wlp (render_loop le k id acts output) (t, l) (fun _ s => t_by_key s.1 = t_by_key t) (fun _ _ => False).
Proof.
  induction acts as [|a acts IH]; intros output t l Ha Ef L W Hc; cbn [render_loop]; [by apply wlp_ret|]. apply Forall_cons in Ha as [Ha Hs]. apply wlp_bind.
  eapply (wlp_mono _ _ (fun _ s => t_by_key s.1 = t_by_key t) _ (fun _ _ => False)); [| |done].
  - unfold render_action. apply wlp_bind, wlp_get. cbv zeta. destruct Ha as [-> |(c & -> & Hsyn)]; [by apply wlp_ret|]. rewrite Hsyn. apply wlp_bind.
    eapply wlp_mono; [by eapply emit_ok| |done]. intros p s E. by apply wlp_ret.
  - intros output' [t1 l1] E. cbn [fst] in E. eapply wlp_mono; [apply IH; try done; by rewrite E| |done]. intros o s E2. congruence.
Qed.
End Answers.
