(* ===== verification/TcpKeeps.v ===== *)
(** The calls of the connection table [sail-netstack/src/tcp/table.rs] that leave the
    receive side of a flow alone: sending, retransmission, timers, rendering and the
    tables around them.  [calm] says so of a call on a flow, [keeps] of a call on the
    table, for any property of the flow that the receive side decides. *)
From S2P Require Import Prelude StateMonad Partial TcpSeq Congestion TcpTcb TcpInvariant TcpHandlers Budget IpWire TcpWire TcpFlow TcpTable TcpSegment TcpReceive TcpReceiveInv TcpReceiveFlow.
From stdpp Require Import list sets gmap.
#[local] Open Scope Z_scope.

(** ** Calls on a flow *)
Definition calm {A} (m : FM A) : Prop := forall f l, wlp m (f, l) (fun _ e => quiet f e.1) (fun _ e => quiet f e.1).

Lemma calm_ret {A} (a : A) : calm (mret a).
Proof. intros f l. by apply wlp_ret. Qed.
Lemma calm_throw {A} e : calm (throw (A := A) e).
Proof. intros f l. by apply wlp_throw. Qed.
Lemma calm_lift {A} (m : outcome TcpTableError A) : calm (lift m).
Proof. intros f l. apply wlp_lift. by destruct m. Qed.
Lemma calm_bind {A B} (m : FM A) (g : A -> FM B) : calm m -> (forall a, calm (g a)) -> calm (x ← m; g x).
Proof.
  intros Hm Hg f l. apply wlp_bind. eapply wlp_mono; [apply Hm| |done]. intros a [f1 l1] Q. cbn [fst] in Q.
  eapply wlp_mono; [apply Hg|..]; intros ? [f2 l2] Q2; by transitivity f1.
Qed.
Lemma calm_get {A} (g : flow_env -> FM A) : (forall s, calm (g s)) -> calm (s ← get_state; g s).
Proof. intros H f l. by apply wlp_bind, wlp_get, H. Qed.
Lemma calm_attempt {A} (m : FM A) : calm m -> calm (attempt m).
Proof. intros H f l. apply wlp_attempt. eapply wlp_mono; [apply H|done|done]. Qed.
Lemma calm_on_flow g : (forall f, quiet f (g f)) -> calm (on_flow g).
Proof. intros H f l. apply wlp_modify, H. Qed.
Lemma calm_on_ledger {A} (m : sm ResourceLedger TcpTableError A) : calm (on_flow_ledger m).
Proof. intros f l. apply wlp_on. cbn. by destruct (m l) as [? [| | |]]. Qed.
Lemma calm_on_tcb {A} (m : TcpTcb -> TcpTcb * outcome TcpError A) :
  (forall f, match m (f_tcb f) with (t', Ok _) | (t', Err _) => quiet f (set_f_tcb t' f) | _ => True end) -> calm (on_tcb m).
Proof. intros H f l. apply wlp_on. specialize (H f). cbn [fst snd]. by destruct (m (f_tcb f)) as [t' [| | |]]. Qed.
Lemma calm_or_drop {A} held (m : FM A) : calm m -> calm (or_drop held m).
Proof.
  intros H. unfold or_drop. apply calm_bind; [by apply calm_attempt|]. intros [a|e]; [apply calm_ret|]. apply calm_bind; [apply calm_on_ledger|intros; apply calm_throw].
Qed.

Create HintDb calm.
#[export] Hint Resolve calm_ret calm_throw calm_lift calm_on_ledger calm_or_drop : calm.
Ltac calm_step :=
  lazymatch goal with
  | |- calm (s ← get_state; _) => apply calm_get; intros ?
  | |- calm (_ ≫= _) => apply calm_bind; [|intros ?]
  | |- calm (attempt _) => apply calm_attempt
  | |- calm (on_flow _) => apply calm_on_flow; intros ?
  | |- calm (if ?b then _ else _) => destruct b
  | |- calm (match ?x with _ => _ end) => destruct x
  | |- _ => solve [auto with calm]
  end.

Lemma quiet_set_tcb f t' : (tcb_wf (f_tcb f) -> tcb_wf t') -> state t' = state (f_tcb f) -> rx_same (f_tcb f) t' -> quiet f (set_f_tcb t' f).
Proof. intros W E R. apply quiet_tcb; [done|congruence|done]. Qed.

(** *** The control block *)
Lemma cancel_delayed_same t acts t' acts' : cancel_delayed_ack t acts = (t', acts') -> t' = set_delayed_ack_pending false t.
Proof. unfold cancel_delayed_ack. destruct (delayed_ack_pending t) eqn:D; intros [= <- <-]; [done|]. rewrite <- D. by destruct t. Qed.

Lemma step_wf t e : tcb_wf t -> event_ok t e -> match tcb_step t e with (t', Ok _) | (t', Err _) => tcb_wf t' | _ => True end.
Proof.
  intros W He. pose proof (tcb_step_ok (timers_of t) t e W (timers_of_ok t) He) as P. destruct (tcb_step t e) as [t' [acts|x| |]]; try done; [by destruct P|by subst].
Qed.

(** Quiet steps of the control block, from what they do to its fields. *)
Lemma quiet_step f e : event_ok (f_tcb f) e ->
  match tcb_step (f_tcb f) e with
  | (t', Ok _) | (t', Err _) => (state (f_tcb f) = Closed -> state t' = Closed) /\ (state t' <> Closed -> rx_same (f_tcb f) t')
  | _ => True
  end -> match tcb_step (f_tcb f) e with (t', Ok _) | (t', Err _) => quiet f (set_f_tcb t' f) | _ => True end.
Proof.
  intros He H. assert (tcb_wf (f_tcb f) -> match tcb_step (f_tcb f) e with (t', Ok _) | (t', Err _) => tcb_wf t' | _ => True end) as W by (intros W; by apply step_wf).
  destruct (tcb_step (f_tcb f) e) as [t' [acts|x| |]]; try done; destruct H; by apply quiet_tcb.
Qed.

Ltac same_block := split; [by tcb_goal|intros ?; tcb_goal; by split].

Lemma app_event_calm event : match event with AppSend n => 0 <= n | Consumed _ => False | _ => True end -> calm (on_tcb (fun t => on_app_event t event)).
Proof.
  intros He. apply calm_on_tcb. intros f. apply (quiet_step f (OnApp event)); [by destruct event|]. cbn [tcb_step]. unfold on_app_event, state_is.
  case_bool_decide as Cl; [by split|]. destruct event as [n|n| |]; [done|..].
  - unfold on_send. repeat case_match; simplify_eq. all: repeat match goal with H : cancel_delayed_ack _ _ = _ |- _ => apply cancel_delayed_same in H; subst end; same_block.
  - case_bool_decide; [by split|]. destruct (cancel_delayed_ack (f_tcb f) []) as [t1 acts1] eqn:C. apply cancel_delayed_same in C. subst t1. unfold start_close, state_is. tcb_goal.
    destruct (state (f_tcb f)) eqn:St; (split; [done|]); intros _; split; tcb_goal; rewrite ?St; try done; unfold peer_receive_closed; tcb_goal; by rewrite ?St.
  - case_bool_decide; [by split|]. destruct (cancel_delayed_ack _ []) as [t1 acts1] eqn:C. apply cancel_delayed_same in C. subst t1. by split.
Qed.

Lemma timer_calm event : calm (on_tcb (fun t => on_timer t event)).
Proof.
  apply calm_on_tcb. intros f. apply (quiet_step f (OnTimer event)); [done|]. cbn [tcb_step]. unfold on_timer, state_is.
  case_bool_decide as Cl; [by split|]. destruct event; repeat case_match; simplify_eq; same_block.
Qed.

Lemma reject_calm : calm (on_tcb_total reject_unacceptable_segment).
Proof.
  apply calm_on_tcb. intros f. destruct (reject_unacceptable_segment (f_tcb f)) as [t' acts] eqn:E. unfold reject_unacceptable_segment in E.
  destruct (answer_with_tells DefensiveAck _ _ _ _ (fun _ => eq_refl) E) as [-> _]. apply quiet_set_tcb; [apply set_delayed_wf|done|by split].
Qed.
#[export] Hint Resolve timer_calm reject_calm : calm.

(** *** Sending *)
Ltac quiet_by_fields := by apply quiet_fields.

Lemma arm_rtt_probe_quiet q now_ms f : quiet f (arm_rtt_probe q now_ms f).
Proof. unfold arm_rtt_probe. destruct (f_rtt_probe f); [done|quiet_by_fields]. Qed.

Lemma send_pending_calm now_ms initial amount pending remainder : 0 <= amount -> calm (send_pending now_ms initial amount pending remainder).
Proof.
  intros Ha. unfold send_pending. calm_step; [calm_step; quiet_by_fields|]. calm_step. calm_step; [calm_step; by apply app_event_calm|]. calm_step; [|by repeat calm_step].
  calm_step; [calm_step; apply arm_rtt_probe_quiet|]. destruct (split_off amount (ps_payload_lease pending)) as [[x y]| | |]; try apply calm_lift.
  calm_step; [calm_step; quiet_by_fields|]. calm_step.
  - calm_step; [|calm_step]. calm_step; [calm_step; quiet_by_fields|calm_step].
  - calm_step; [calm_step|]. calm_step; [calm_step; quiet_by_fields|calm_step].
Qed.

Lemma send_now_calm now_ms bytes payload_lease metadata_lease : calm (send_now now_ms bytes payload_lease metadata_lease).
Proof.
  unfold send_now. calm_step. calm_step; [apply calm_or_drop, app_event_calm, len_nonneg|]. calm_step; [calm_step; apply arm_rtt_probe_quiet|].
  calm_step; [calm_step; quiet_by_fields|calm_step].
Qed.

Lemma take_sack_segment_calm index rescue : calm (take_sack_segment index rescue).
Proof.
  unfold take_sack_segment. calm_step; [calm_step; quiet_by_fields|]. calm_step; [calm_step; [calm_step; quiet_by_fields|calm_step]|]. calm_step.
  calm_step; [|calm_step]. cbv zeta. calm_step; [calm_step; quiet_by_fields|calm_step].
Qed.

Lemma lower_flow_mtu_quiet ipv4 mtu f : quiet f (lower_flow_mtu ipv4 mtu f).1.
Proof.
  unfold lower_flow_mtu. case_match; [done|]. split; try done. intros [T _]. split; [done|]. apply Z.le_trans with 1; [done|apply Z.le_max_r].
Qed.

Lemma before_retransmission_quiet config ipv4 f : quiet f (before_retransmission config ipv4 f).
Proof.
  unfold before_retransmission. set (f1 := if probes_shut_window f then f else _).
  assert (quiet f f1) as Q1 by (unfold f1; case_match; [done|quiet_by_fields]). clearbody f1.
  set (f2 := if _ && _ then _ else set_f_rtt_probe None f1).
  assert (quiet f1 f2) as Q2 by (unfold f2; case_match; [etransitivity; [|apply lower_flow_mtu_quiet]|]; quiet_by_fields). clearbody f2.
  transitivity f1; [done|]. transitivity f2; [done|quiet_by_fields].
Qed.
#[export] Hint Resolve send_now_calm take_sack_segment_calm : calm.

(** ** Calls on the table *)
Definition config_ok (c : TcpTableConfig) : Prop :=
  0 < tc_max_segment_payload_bytes c <= 2305843009213693952 /\ 0 < tc_receive_credit_bytes c <= u64_max.

Lemma local_mss_pos t peer : config_ok (t_config t) -> 0 < local_mss t peer <= 2305843009213693952.
Proof. intros [? _]. unfold local_mss. destruct (tc_link_mtu (t_config t)); [|done]. unfold link_mss. lia. Qed.

Lemma window_scale_for_range n : 0 <= window_scale_for n <= 14.
Proof.
  unfold window_scale_for. assert (forall fuel scale, 0 <= scale <= 14 -> 0 <= window_scale_loop fuel n scale <= 14) as H; [|by apply H].
  induction fuel as [|fuel IH]; intros scale Hs; cbn [window_scale_loop]; [done|]. destruct (Z.ltb_spec scale 14); cbn [andb]; [|done]. case_match; [apply IH; lia|done].
Qed.

Lemma peer_mss_nonneg peer options : options_ok options -> 0 <= default (default_peer_mss peer) (maximum_segment_size options).
Proof.
  intros [Hm]. unfold default_peer_mss, is_u16 in *. destruct (maximum_segment_size options); [apply Hm|by destruct (Udp.is_ipv4 peer)].
Qed.
Lemma passive_segment_nonneg t key options : config_ok (t_config t) -> options_ok options -> 0 <= passive_segment_bytes t key options.
Proof.
  intros C O. pose proof (local_mss_pos t (tk_source key) C). pose proof (peer_mss_nonneg (tk_source key) options O). unfold passive_segment_bytes, segment_ceiling. case_match; lia.
Qed.

Section Keeps.
Context (budget : ResourceBudget) (le : bool) (hash_port : SocketAddr * IpAddr * Z -> Z) (hash_offset : SocketAddr * SocketAddr -> Z)
  (hash_sequence : TcpFlowKey * Z -> Z) (iter : gmap TcpFlowKey TcpFlow -> list TcpFlowKey).
(** [P] holds of the flow at [k] and is decided by the receive side. *)
Context (k : TcpFlowKey) (P : TcpFlow -> Prop) (P_quiet : forall f f', quiet f f' -> P f -> P f').

Definition holds_at (s : tstate) : Prop := config_ok (t_config s.1) /\ forall f, t_by_key s.1 !! k = Some f -> P f.
Definition keeps {A} (m : TM A) : Prop := forall s, holds_at s -> wlp m s (fun _ => holds_at) (fun _ => holds_at).

Lemma keeps_at s {A} (m : TM A) : keeps m -> holds_at s -> wlp m s (fun _ => holds_at) (fun _ => holds_at).
Proof. intros H J. by apply H. Qed.
Lemma keeps_ret {A} (a : A) : keeps (mret a).
Proof. intros s J. by apply wlp_ret. Qed.
Lemma keeps_throw {A} e : keeps (throw (A := A) e).
Proof. intros s J. by apply wlp_throw. Qed.
Lemma keeps_lift {A} (m : outcome TcpTableError A) : keeps (lift m).
Proof. intros s J. apply wlp_lift. by destruct m. Qed.
Lemma keeps_bind {A B} (m : TM A) (g : A -> TM B) : keeps m -> (forall a, keeps (g a)) -> keeps (x ← m; g x).
Proof. intros Hm Hg s J. apply wlp_bind. eapply wlp_mono; [by apply Hm| |done]. intros a s' J'. by apply Hg. Qed.
(** The same, with what the first call returns. *)
Lemma keeps_bind_value {A B} (Q : A -> Prop) (m : TM A) (g : A -> TM B) : (forall s, holds_at s -> wlp m s (fun a s' => Q a /\ holds_at s') (fun _ => holds_at)) ->
  (forall a, Q a -> keeps (g a)) -> keeps (x ← m; g x).
Proof. intros Hm Hg s J. apply wlp_bind. eapply wlp_mono; [by apply Hm| |done]. intros a s' [Ha J']. by apply Hg. Qed.
Lemma keeps_get {A} (g : tstate -> TM A) : (forall s, holds_at s -> keeps (g s)) -> keeps (s ← get_state; g s).
Proof. intros H s J. by apply wlp_bind, wlp_get, H. Qed.
Lemma keeps_attempt {A} (m : TM A) : keeps m -> keeps (attempt m).
Proof. intros H s J. apply wlp_attempt. eapply wlp_mono; [by apply H|done|done]. Qed.
Lemma keeps_modify g : (forall s, holds_at s -> holds_at (g s)) -> keeps (modify g).
Proof. intros H s J. by apply wlp_modify, H. Qed.
Lemma keeps_table g : (forall t, t_by_key (g t) = t_by_key t /\ t_config (g t) = t_config t) -> keeps (on_tcp_table g).
Proof. intros H. apply keeps_modify. intros s J. destruct (H s.1) as [E1 E2]. split; cbn; rewrite ?E1, ?E2; apply J. Qed.
Lemma keeps_charge {A} (m : sm ResourceLedger TcpTableError A) : keeps (charge m).
Proof. intros s J. apply wlp_on. by destruct (m s.2) as [? [| | |]]. Qed.
Lemma keeps_wire {A} (m : outcome WireError A) : keeps (tcp_wire m).
Proof. intros s J. apply wlp_on. by destruct m. Qed.
Lemma keeps_flow_of {A} key missing (g : TcpFlow -> TM A) : (forall f, (key = k -> P f) -> keeps (g f)) -> keeps (f ← flow_of key missing; g f).
Proof.
  intros H s J. apply wlp_bind, wlp_bind, wlp_get. destruct (t_by_key s.1 !! key) as [f|] eqn:E; [|by apply wlp_throw].
  apply wlp_ret, H; [|done]. intros ->. by apply J.
Qed.

Lemma holds_at_insert s key f l : holds_at s -> (key = k -> P f) -> holds_at (set_t_by_key (<[key := f]> (t_by_key s.1)) s.1, l).
Proof. intros [C J] H. split; [done|]. intros g. cbn. destruct (decide (key = k)) as [->|N]; [rewrite lookup_insert_eq|rewrite lookup_insert_ne by done; apply J]. intros [= <-]. auto. Qed.

Lemma keeps_with_flow {A} key missing (m : FM A) : (key = k -> calm m) -> keeps (with_flow key missing m).
Proof.
  intros H s J. apply wlp_bind, wlp_get. destruct (t_by_key s.1 !! key) as [f|] eqn:E; [|by apply wlp_throw].
  apply wlp_on. cbn [fst snd]. specialize (H). destruct (m (f, s.2)) as [[f' l'] [a|e| |]] eqn:Em; try done; (apply holds_at_insert; [done|]; intros ->;
    eapply P_quiet; [|by apply J]; specialize (H eq_refl f s.2); unfold wlp in H; by rewrite Em in H).
Qed.

Ltac keep_step :=
  cbv zeta;
  lazymatch goal with
  | |- keeps (_ ← flow_of _ _; _) => apply keeps_flow_of; intros ? ?
  | |- keeps (_ ← get_state; _) => apply keeps_get; intros ? ?
  | |- keeps (_ ≫= _) => apply keeps_bind; [|intros ?]
  | |- keeps (attempt _) => apply keeps_attempt
  | |- keeps (mret _) => apply keeps_ret
  | |- keeps (throw _) => apply keeps_throw
  | |- keeps (lift _) => apply keeps_lift
  | |- keeps (charge _) => apply keeps_charge
  | |- keeps (tcp_wire _) => apply keeps_wire
  | |- keeps (on_tcp_table _) => apply keeps_table; intros ?; done
  | |- keeps (with_flow _ _ (on_flow _)) => apply keeps_with_flow; intros _; apply calm_on_flow; intros ?; quiet_by_fields
  | |- keeps (with_flow _ _ _) => apply keeps_with_flow; intros _; solve [auto with calm]
  | |- keeps (if ?b then _ else _) => destruct b eqn:?
  | |- keeps (match ?x with _ => _ end) => destruct x eqn:?
  | |- _ => solve [auto with keeps]
  end.
Create HintDb keeps.

(** *** Rendering *)
Lemma allow_with_keeps get put : (forall r t, t_by_key (put r t) = t_by_key t /\ t_config (put r t) = t_config t) -> keeps (allow_with get put).
Proof. intros H. unfold allow_with. keep_step. destruct (limiter_allow _ _). keep_step; [by apply keeps_table|keep_step]. Qed.
Lemma next_identification_keeps : keeps next_identification.
Proof. unfold next_identification. repeat keep_step. Qed.
#[local] Hint Resolve next_identification_keeps : keeps.
Lemma emit_with_options_keeps key control options : keeps (emit_with_options le key control options).
Proof. unfold emit_with_options. repeat keep_step. Qed.
Lemma emit_payload_keeps key control payload : keeps (emit_payload le key control payload).
Proof. unfold emit_payload. repeat keep_step. Qed.
Lemma emit_keeps key control : keeps (emit le key control).
Proof. unfold emit. repeat keep_step. Qed.
#[local] Hint Resolve emit_with_options_keeps emit_payload_keeps emit_keeps : keeps.
Lemma render_send_keeps key control : keeps (render_send le key control).
Proof. unfold render_send. repeat keep_step. Qed.
Lemma render_retransmit_keeps key control : keeps (render_retransmit le key control).
Proof. unfold render_retransmit. repeat keep_step. Qed.
Lemma connection_keeps key token here : keeps (connection key token here).
Proof. unfold connection. repeat keep_step. Qed.
#[local] Hint Resolve render_send_keeps render_retransmit_keeps connection_keeps : keeps.
Lemma render_action_keeps key id a output : keeps (render_action le key id a output).
Proof. unfold render_action. keep_step. destruct a; repeat keep_step. by apply allow_with_keeps. Qed.
#[local] Hint Resolve render_action_keeps : keeps.
Lemma render_actions_keeps key id actions : keeps (render_actions le key id actions).
Proof. unfold render_actions. generalize no_ingress. induction actions; intros; cbn [render_loop]; repeat keep_step. Qed.
#[local] Hint Resolve render_actions_keeps : keeps.

(** *** Leaving the table *)
Lemma holds_at_less s s' : holds_at s -> t_config s'.1 = t_config s.1 -> t_by_key s'.1 !! k = t_by_key s.1 !! k \/ t_by_key s'.1 !! k = None -> holds_at s'.
Proof. intros [C J] Ec H. split; [by rewrite Ec|]. intros f. destruct H as [E|E]; rewrite E; [apply J|done]. Qed.
Lemma lookup_delete_less {A} (m : gmap TcpFlowKey A) key : delete key m !! k = m !! k \/ delete key m !! k = None.
Proof. destruct (decide (key = k)) as [->|N]; [right; apply lookup_delete_eq|left; by apply lookup_delete_ne]. Qed.

Lemma remove_keeps key : keeps (TcpTable.remove key).
Proof.
  apply keeps_modify. intros s J. destruct (t_by_key s.1 !! key); [eapply holds_at_less; [exact J|done|apply lookup_delete_less]|]. by destruct (t_time_wait s.1 !! key).
Qed.
#[local] Hint Resolve remove_keeps : keeps.
Lemma evict_keeps : keeps evict_oldest_time_wait.
Proof. unfold evict_oldest_time_wait. repeat keep_step. Qed.
#[local] Hint Resolve evict_keeps : keeps.
Lemma compact_time_wait_keeps key : keeps (compact_time_wait budget key).
Proof.
  unfold compact_time_wait, time_wait_slot. repeat keep_step. apply keeps_modify. intros s' J. eapply holds_at_less; [exact J|done|apply lookup_delete_less].
Qed.
#[local] Hint Resolve compact_time_wait_keeps : keeps.
Lemma move_to_time_wait_keeps key id output : keeps (move_to_time_wait budget key id output).
Proof. unfold move_to_time_wait. repeat keep_step. Qed.
#[local] Hint Resolve move_to_time_wait_keeps : keeps.
Lemma end_time_wait_keeps key : keeps (end_time_wait key).
Proof. unfold end_time_wait. repeat keep_step. Qed.
Lemma ingest_time_wait_keeps key s : keeps (ingest_time_wait le key s).
Proof. unfold ingest_time_wait. repeat keep_step. Qed.

(** *** Sending *)
Context (P_terms : forall f, P f -> tcb_wf (f_tcb f) /\ terms_ok f).

Lemma flush_pending_send_keeps key : keeps (flush_pending_send budget le key).
Proof.
  unfold flush_pending_send. apply keeps_flow_of. intros f Hf. keep_step. keep_step; [|keep_step]. keep_step; [keep_step|]. keep_step; [keep_step|].
  keep_step; [repeat keep_step|]. keep_step; [|repeat keep_step]. keep_step; [|repeat keep_step].
  apply keeps_with_flow. intros Hk. apply send_pending_calm. destruct (P_terms f (Hf Hk)) as [W [_ T]]. unfold flush_amount. pose proof (len_nonneg (ps_bytes p)).
  unfold send_available, sat_sub. lia.
Qed.
#[local] Hint Resolve flush_pending_send_keeps : keeps.
Lemma append_resegmented_keeps key control actions output : keeps (append_resegmented le key control actions output).
Proof. unfold append_resegmented. repeat keep_step. Qed.
Lemma sack_recovery_keeps fuel key limit packets : keeps (sack_recovery_loop le fuel key limit packets).
Proof. revert packets. induction fuel; intros; cbn [sack_recovery_loop]; repeat keep_step. Qed.
#[local] Hint Resolve append_resegmented_keeps sack_recovery_keeps : keeps.
Lemma arm_keepalive_keeps key output : keeps (arm_keepalive_if_active key output).
Proof. unfold arm_keepalive_if_active. repeat keep_step. Qed.
Lemma arm_fin_wait2_keeps key output : keeps (arm_fin_wait2_if_orphaned key output).
Proof. unfold arm_fin_wait2_if_orphaned. repeat keep_step. Qed.
Lemma promote_to_persist_keeps key id output : keeps (promote_to_persist key id output).
Proof. unfold promote_to_persist. repeat keep_step. Qed.
Lemma rescue_stranded_keeps key id closed output : keeps (rescue_stranded key id closed output).
Proof. unfold rescue_stranded. repeat keep_step. Qed.
#[local] Hint Resolve arm_keepalive_keeps arm_fin_wait2_keeps promote_to_persist_keeps rescue_stranded_keeps : keeps.
Lemma finish_existing_ingress_keeps key id actions control writable limit : keeps (finish_existing_ingress budget le key id actions control writable limit).
Proof. unfold finish_existing_ingress, render_sack_recovery. repeat keep_step. Qed.
#[local] Hint Resolve finish_existing_ingress_keeps : keeps.

(** *** Packets *)
Lemma reject_unknown_keeps key s options : keeps (reject_unknown le key s options).
Proof. unfold reject_unknown. repeat keep_step. by apply allow_with_keeps. Qed.
#[local] Hint Resolve reject_unknown_keeps : keeps.
Lemma handle_accept_overflow_keeps key s options : keeps (handle_accept_overflow le key s options).
Proof. unfold handle_accept_overflow. repeat keep_step. Qed.
#[local] Hint Resolve handle_accept_overflow_keeps : keeps.
Lemma handle_existing_timestamp_keeps key s options : keeps (handle_existing_timestamp le key s options).
Proof. unfold handle_existing_timestamp. repeat keep_step. Qed.
#[local] Hint Resolve handle_existing_timestamp_keeps : keeps.

(** A packet of another flow. *)
Ltac keep_other N := repeat first [keep_step | apply keeps_with_flow; intros ?; by destruct N].
Lemma ingest_existing_other key s options payload limit : key <> k -> keeps (ingest_existing budget le key s options payload limit).
Proof. intros N. unfold ingest_existing. keep_other N. Qed.
Lemma ingest_syn_sent_other key s options : key <> k -> keeps (ingest_syn_sent budget le key s options).
Proof. intros N. unfold ingest_syn_sent. keep_other N. Qed.
Lemma acquire_holding_keeps held r : keeps (acquire_holding budget held r).
Proof. unfold acquire_holding. repeat keep_step. Qed.
#[local] Hint Resolve acquire_holding_keeps : keeps.

(** A flow that has just been made. *)
Definition blank (f : TcpFlow) : Prop := f_receive f = [] /\ f_out_of_order f = [] /\ f_out_of_order_fin f = None /\ terms_ok f.

Lemma ingest_new_keeps key s options payload : options_ok options ->
  (key = k -> forall f isn capacity mss scale acts, open_ok isn capacity mss scale -> from_syn_with_options s isn capacity mss scale = Ok (f_tcb f, acts) -> blank f ->
     match f_pending_initial_receive f with Some c => payload <> [] /\ rc_offset c = 0 /\ rc_bytes c = payload | None => payload = [] end -> P f) ->
  keeps (ingest_new budget le hash_offset hash_sequence key s options payload).
Proof.
  intros Oo HP. unfold ingest_new. apply keeps_get. intros st [C _]. do 2 (keep_step; [keep_step|]). do 4 (keep_step; [keep_step|]).
  apply keeps_bind_value with (Q := fun o => match o with Some c => payload <> [] /\ rc_offset c = 0 /\ rc_bytes c = payload | None => payload = [] end).
  { intros s' J. apply wlp_if; intros Hl.
    - apply wlp_bind. eapply wlp_mono; [by apply acquire_holding_keeps| |done]. intros lease s2 J2. apply wlp_ret. split; [|done]. split; [|done]. by intros ->.
    - apply wlp_ret. split; [|done]. apply negb_false_iff, Z.eqb_eq in Hl. by destruct payload. }
  intros initial Hi. destruct (from_syn_with_options _ _ _ _ _) as [[tcb acts]| | |] eqn:E; [|repeat keep_step..].
  keep_step; [|keep_step]. apply keeps_modify. intros s' J.
  set (f := fresh_flow _ _ _ _ _ _ _ _ _ _ _ _ _ _ _).
  apply (holds_at_less (set_t_by_key (<[key := f]> (t_by_key s'.1)) s'.1, s'.2)); [|done|by left]. apply holds_at_insert; [done|]. intros Hk.
  apply (HP Hk f (initial_sequence hash_sequence st.1 key (t_next_flow_id st.1)) (tc_receive_credit_bytes (t_config st.1)) (local_mss st.1 (tk_source key))
    (match window_scale options with Some _ => window_scale_for (receive_window_ceiling st.1) | None => 0 end) acts); [|exact E|..].
  - split; [apply Z.mod_pos_bound; lia|]. destruct C as [C1 C2]. split; [lia|]. split; [by apply local_mss_pos|]. destruct (window_scale options); [apply window_scale_for_range|done].
  - split; [done|]. split; [done|]. split; [done|]. split; [apply Oo|by apply passive_segment_nonneg].
  - done.
Qed.

Lemma connect_using_keeps local remote usable st : holds_at st ->
  (t_by_key st.1 !! k = None -> forall f isn capacity mss scale acts, open_ok isn capacity mss scale -> TcpTcb.connect isn capacity mss scale = Ok (f_tcb f, acts) -> blank f ->
     f_pending_initial_receive f = None -> P f) ->
  wlp (connect_using budget le hash_port hash_offset hash_sequence local remote usable) st (fun _ => holds_at) (fun _ => holds_at).
Proof.
  intros J0 HP. pose proof (proj1 J0) as C. unfold connect_using. apply wlp_bind, wlp_get. revert J0. apply (keeps_at st). keep_step; [keep_step|]. keep_step; [keep_step|]. cbv zeta.
  set (key := mkTcpFlowKey remote _ _). destruct (bool_decide (is_Some (t_by_key st.1 !! key))) eqn:Hn; cbn [orb]; [keep_step|]. apply bool_decide_eq_false in Hn.
  keep_step; [keep_step|]. do 3 (keep_step; [keep_step|]).
  apply keeps_bind_value with (Q := fun r => TcpTcb.connect (initial_sequence hash_sequence st.1 key (t_next_flow_id st.1)) (tc_receive_credit_bytes (t_config st.1))
    (local_mss st.1 remote) (window_scale_for (receive_window_ceiling st.1)) = Ok r).
  { intros s' J. apply wlp_on. cbn. by destruct (TcpTcb.connect _ _ _ _) as [r|e| |]. }
  intros [tcb acts] E. cbn [fst snd]. keep_step; [|repeat keep_step]. apply keeps_modify. intros s' J. set (f := fresh_flow _ _ _ _ _ _ _ _ _ _ _ _ _ _ _).
  apply (holds_at_less (set_t_by_key (<[key := f]> (t_by_key s'.1)) s'.1, s'.2)); [|done|by left]. apply holds_at_insert; [done|]. intros Hk.
  eapply (HP ltac:(rewrite <- Hk; by apply eq_None_not_Some) f); [|exact E|..].
  - split; [apply Z.mod_pos_bound; lia|]. destruct C as [C1 C2]. split; [lia|]. split; [by apply local_mss_pos|]. apply window_scale_for_range.
  - split; [done|]. split; [done|]. split; [done|]. split; [done|]. pose proof (local_mss_pos st.1 remote C). apply Z.min_glb; [lia|]. unfold default_peer_mss. by destruct (Udp.is_ipv4 remote).
  - done.
Qed.

(** *** The application and the timers *)
Lemma key_for_keeps token : keeps (key_for token).
Proof. unfold key_for. repeat keep_step. Qed.
#[local] Hint Resolve key_for_keeps : keeps.
Lemma accept_keeps token : keeps (accept token).
Proof. unfold accept. repeat keep_step. Qed.
Lemma reclaim_keeps now_ms older_than_ms : keeps (reclaim_stale_syn_received now_ms older_than_ms).
Proof. unfold reclaim_stale_syn_received. repeat keep_step. Qed.
Lemma tcp_write_keeps token payload : keeps (tcp_write budget le token payload).
Proof. unfold tcp_write. repeat keep_step. Qed.
Lemma apply_app_event_keeps token event : event = Close \/ event = Abort -> keeps (apply_app_event le token event).
Proof. intros He. unfold apply_app_event. repeat keep_step. apply keeps_with_flow. intros _. apply app_event_calm. by destruct He as [-> | ->]. Qed.
Lemma tcp_close_keeps token : keeps (tcp_close le token).
Proof. unfold tcp_close. repeat keep_step. apply apply_app_event_keeps. by left. Qed.
Lemma release_flow_keeps token : keeps (release_flow budget token).
Proof. unfold release_flow. repeat keep_step. Qed.
Lemma abort_keeps token : keeps (abort le token).
Proof. apply apply_app_event_keeps. by right. Qed.
#[local] Hint Resolve abort_keeps : keeps.
Lemma abort_all_keeps : keeps (abort_all le iter).
Proof. unfold abort_all. keep_step. generalize (@nil (list Z)). induction (omap _ _); intros; cbn [abort_loop]; repeat keep_step. Qed.
Lemma update_clock_keeps now_ms : keeps (update_clock now_ms).
Proof. unfold update_clock. repeat keep_step. Qed.
#[local] Hint Resolve update_clock_keeps : keeps.
Lemma protocol_timer_keeps key id event : keeps (protocol_timer le key id event).
Proof. unfold protocol_timer. repeat keep_step. Qed.
#[local] Hint Resolve protocol_timer_keeps : keeps.
Lemma on_persist_timer_keeps key : keeps (on_persist_timer budget le key).
Proof. unfold on_persist_timer. repeat keep_step. Qed.
Lemma on_keepalive_timer_keeps key : keeps (on_keepalive_timer le key).
Proof. unfold on_keepalive_timer. repeat keep_step. Qed.
#[local] Hint Resolve on_persist_timer_keeps on_keepalive_timer_keeps : keeps.
Lemma on_timer_at_keeps token event now_ms : keeps (on_timer_at budget le token event now_ms).
Proof.
  unfold on_timer_at. repeat first [keep_step | by apply keeps_modify | apply keeps_with_flow; intros _; apply calm_on_flow; intros ?; apply before_retransmission_quiet].
Qed.
Lemma tcp_reset_network_keeps generation : keeps (tcp_reset_network generation).
Proof. apply keeps_modify. intros s [C J]. split; [done|]. intros f. cbn. by rewrite lookup_empty. Qed.
Lemma lower_path_mtu_keeps source destination mtu : keeps (lower_path_mtu source destination mtu).
Proof.
  unfold lower_path_mtu. intros s J. apply wlp_bind, wlp_get. destruct (t_by_key s.1 !! _) as [f|] eqn:E; [|by apply wlp_ret].
  apply wlp_bind, wlp_modify, wlp_ret. apply holds_at_insert; [done|]. intros Hk. rewrite Hk in E. eapply P_quiet; [apply lower_flow_mtu_quiet|by apply J].
Qed.
Lemma lower_platform_mtu_keeps mtu : keeps (lower_platform_mtu mtu).
Proof.
  unfold lower_platform_mtu. intros s J. apply wlp_bind, wlp_get, wlp_bind, wlp_modify, wlp_ret. split; [apply J|]. intros f. cbn. rewrite map_lookup_imap.
  destruct (t_by_key s.1 !! k) as [g|] eqn:E; [|done]. intros [= <-]. eapply P_quiet; [apply lower_flow_mtu_quiet|by apply J].
Qed.
End Keeps.
