(* ===== verification/TcpReceiveTable.v ===== *)
(** The receive side of a flow through [ingest_existing], [read] and the other calls
    of the connection table [sail-netstack/src/tcp/table.rs]. *)
From S2P Require Import Prelude StateMonad Partial TcpSeq Congestion TcpTcb TcpInvariant TcpHandlers Budget IpWire TcpWire TcpFlow TcpTable TcpSegment TcpReceive TcpReceiveInv TcpReceiveFlow TcpKeeps.
From stdpp Require Import list sets gmap.
#[local] Open Scope Z_scope.

Section Receive.
Context (S : list Z) (base : Z).

(** A call that fails gives back what its caller holds. *)
Lemma or_drop_ok {A} (held : list BudgetLease) (m : FM A) e Q X : wlp m e Q (fun x e' => X x (e'.1, tcp_drop_leases held e'.2)) -> wlp (or_drop held m) e Q X.
Proof.
  intros H. unfold or_drop. apply wlp_bind, wlp_attempt. eapply wlp_mono; [exact H|done|]. intros x [f l] Hx. apply wlp_bind, wlp_on_part, wlp_modify, wlp_throw. done.
Qed.

(** *** After the control block saw the segment *)
Lemma promote_initial_ok initial f l : (initial = true -> is_Some (f_pending_initial_receive f)) ->
  wlp (promote_initial_receive initial) (f, l)
    (fun _ e => e = (if initial then set_f_receive (f_receive f ++ opt_list (f_pending_initial_receive f)) (set_f_pending_initial_receive None f) else f, l)) (fun _ _ => False).
Proof.
  intros H. unfold promote_initial_receive. destruct initial; cbn [negb]; [|by apply wlp_ret]. apply wlp_bind, wlp_get. cbn [fst].
  destruct (H eq_refl) as [c ->]. by apply wlp_modify.
Qed.

(** The segment's chunk joins the receive queue, or its lease is given back. *)
Lemma take_chunk_ok (moved : bool) a f l : (moved = true -> is_Some (ra_chunk a)) ->
  wlp (if moved
       then match ra_chunk a with
            | Some chunk => on_flow (fun f => set_f_receive (f_receive f ++ [chunk]) f)
            | None => or_drop (admission_leases a) (throw InvariantError)
            end
       else on_flow_ledger (modify (tcp_drop_leases (match ra_chunk a with Some chunk => [rc_metadata_lease chunk] | None => [] end)))) (f, l)
    (fun _ e => e.1 = set_f_receive (f_receive f ++ if moved then opt_list (ra_chunk a) else []) f) (fun _ _ => False).
Proof.
  intros H. destruct moved; [destruct (H eq_refl) as [c ->]; by apply wlp_modify|]. apply wlp_on_part, wlp_modify. cbn. rewrite app_nil_r. by destruct f.
Qed.

Lemma take_admitted_ok r f0 initial a t' acts n fin f l now_ms original s options adm dropped feedback plan lease next una :
  after_segment S base r f0 initial a t' acts n fin -> f_tcb f = t' -> kin f0 f -> rx_fields f = rx_fields f0 ->
  (initial = true -> is_Some (f_pending_initial_receive f0)) ->
  wlp (take_admitted now_ms original s options a adm dropped feedback initial plan lease next una acts) (f, l)
    (fun _ e => kin f0 e.1 /\ rx_ok S base r e.1) (fun _ _ => False).
Proof.
  intros A Et Ei Er Hi. unfold take_admitted. set (anchor := if adm && _ && _ then _ else None). clearbody anchor.
  apply wlp_bind, wlp_modify, wlp_bind, wlp_modify, wlp_bind, wlp_modify. cbn [fst snd].
  set (f3 := update_recent_timestamp _ _ _ _ _).
  assert (steady f f3) as Q3.
  { unfold f3. etransitivity; [|apply update_recent_timestamp_steady]. etransitivity; [|apply record_ack_progress_steady]. by apply steady_fields. }
  clearbody f3. apply wlp_bind. eapply wlp_mono; [apply update_sender_sack_steady| |done]. intros acts' [f4 l4] [Q4 (more & -> & M)]. cbn [fst] in Q4.
  apply wlp_bind. eapply wlp_mono; [apply apply_accept_lease_steady| |done]. intros _ [f5 l5] Q5. cbn [fst] in Q5.
  assert (steady f f5) as [W5 I5 K5 F5 S5 T5] by (etransitivity; [exact Q3|]; by etransitivity). clear Q3 Q4 Q5 f3 f4 l4.
  pose proof (tells_mute _ _ _ _ (as_tells _ _ _ _ _ _ _ _ _ _ A) (as_nonneg _ _ _ _ _ _ _ _ _ _ A) M) as T. rewrite Er in F5. rewrite Et in *. unfold rx_fields in F5.
  injection F5 as R1 R2 R3 R4. apply wlp_bind, or_drop_ok. eapply wlp_mono; [apply promote_initial_ok; by rewrite R2| |done]. intros _ e ->.
  change (existsb (fun a0 => match a0 with DeliverPayload _ => true | _ => false end) (acts ++ more)) with (existsb delivers (acts ++ more)).
  rewrite (tl_delivers _ _ _ T). fold (current a n). apply wlp_bind. eapply wlp_mono; [by apply take_chunk_ok, A| |done]. intros _ [f6 l6] E6. cbn [fst] in E6.
  assert (f_tcb f6 = f_tcb f5 /\ kin f5 f6 /\
    f_receive f6 = (f_receive f0 ++ if initial then opt_list (f_pending_initial_receive f0) else []) ++ (if current a n then opt_list (ra_chunk a) else []) /\
    f_pending_initial_receive f6 = (if initial then None else f_pending_initial_receive f0) /\ f_out_of_order f6 = f_out_of_order f0 /\
    f_out_of_order_fin f6 = f_out_of_order_fin f0) as (G1 & G2 & G3 & G4 & G5 & G6).
  { rewrite E6. destruct initial; flow_goal; rewrite ?R1, ?R2, ?R3, ?R4, ?app_nil_r; done. }
  clear E6 R1 R2 R3 R4. assert (queue_after f6 (recv_next (f_tcb f6)) (mkReceiveAdmission false None (ra_out_of_order a) (ra_out_of_order_fin a)) = queue_after f0 (recv_next t') a) as EQ
    by (unfold queue_after; cbn; by rewrite G1, (rs_next _ _ S5), G5).
  assert (fin_after f6 (mkReceiveAdmission false None (ra_out_of_order a) (ra_out_of_order_fin a)) = fin_after f0 a) as EF by (unfold fin_after; cbn; by rewrite G6).
  apply wlp_bind. eapply wlp_mono.
  - apply (queue_out_of_order_and_promote_ok S base r fin (current a n || initial) (acts ++ more) (ra_out_of_order a) (ra_out_of_order_fin a) anchor f6 l6 (tl_fin _ _ _ T)); cbv zeta; rewrite ?EQ, ?EF, ?G1, ?T5, ?G3, ?G4.
    + apply W5, A.
    + apply A.
    + intros Hc. eapply core_same; [exact S5|]. by apply A.
    + intros Hc. by apply A.
    + intros Hc. rewrite (rs_peer _ _ S5). by apply A.
    + intros Hc. rewrite (rs_peer _ _ S5). by apply A.
    + intros Hc. destruct (as_closed _ _ _ _ _ _ _ _ _ _ A Hc) as (-> & -> & ->). split; [done|]. unfold current. cbn. by rewrite andb_false_r.
  - intros acts2 [f7 l7] [I7 R7]. cbn [fst] in *. apply wlp_bind. eapply wlp_mono; [apply release_acknowledged_send_steady| |done]. intros _ [f8 l8] Q8. apply wlp_ret. cbn [fst] in *.
    split; [|by eapply quiet_rx_ok; [apply steady_quiet|]]. transitivity f; [done|]. transitivity f5; [by split|]. transitivity f6; [done|]. transitivity f7; [done|]. by split; apply Q8.
  - done.
Qed.

(** *** The control block sees the segment *)
Lemma state_segment_control f s s' payload' accepting : trimmed s s' payload' -> segment_ok s -> same_control s (state_segment f s s' accepting) /\ segment_ok (state_segment f s s' accepting).
Proof. intros (O & C & _) Os. unfold state_segment. case_match; [split; [apply same_control_refl|done]|done]. Qed.

(** A segment and what was admitted of it: as it came, or with its data dropped for
    want of memory. *)
Definition admitted (f : TcpFlow) (s seen : TcpSegmentMeta) (payload : list Z) (adm accepting : bool) (seen2 : TcpSegmentMeta) (a : ReceiveAdmission) : Prop :=
  seen2 = seen /\ prepared f s payload adm accepting a \/ accepting = false /\ seen2 = strip_data seen /\ a = nothing.

Lemma seen_after r f s payload s' payload' adm seen2 a t' acts : rx_ok S base r f -> state (f_tcb f) <> Closed -> state (f_tcb f) <> SynSent ->
  genuine S base r (f_tcb f) s payload -> payload_len s = len payload -> (accepts_final_ack (f_tcb f) s = true -> clean_final_ack f payload) ->
  let accepting := accepts_final_ack (f_tcb f) s in
  normalize_receive_segment f s payload accepting = (s', payload', adm) -> admitted f s' (state_segment f s s' accepting) payload' adm accepting seen2 a ->
  on_segment (f_tcb f) seen2 = (t', Ok acts) ->
  exists n fin, after_segment S base r f (accepting && bool_decide (is_Some (f_pending_initial_receive f))) a t' acts n fin.
Proof.
  intros [W L] Hc Hs G Len Cl accepting EN A E. specialize (L Hc). pose proof (gn_segment _ _ _ _ _ _ G) as O.
  destruct (normalize_ok f s payload accepting s' payload' adm W O Len EN) as [Ea Tr]. destruct (state_segment_control f s s' payload' accepting Tr O) as [C Oe].
  assert (state (f_tcb f) = SynReceived \/ synchronized (state (f_tcb f))) as [Sr|Sy] by (destruct (state (f_tcb f)); try (by right); auto; done).
  - destruct accepting eqn:Ac; fold accepting in Cl; rewrite Ac in Cl.
    + destruct A as [[-> Pr]|[? _]]; [|done]. destruct (final_ack_admissible _ _ _ _ L W Hs Hc _ _ G Ac) as (Ad & _). unfold normalize_receive_segment in EN. rewrite Ad in EN. injection EN as <- <- <-.
      unfold state_segment, state_is in E. rewrite bool_decide_eq_true_2 in E by done. cbn [andb negb orb] in E. rewrite andb_negb_r in E. eapply accepting_segment; eauto.
    + assert (state_segment f s s' false = s) as Ee by (unfold state_segment, state_is; by rewrite bool_decide_eq_true_2 by done).
      rewrite Ee in A. exists 0, false. destruct A as [[-> Pr]|(_ & -> & ->)]; [eapply waiting_segment|eapply waiting_stripped]; eauto.
  - assert (accepting = false) as Ac. { unfold accepting. destruct (accepts_final_ack _ s) eqn:H; [|done]. apply accepts_final_ack_inv in H as [H _]. by rewrite H in Sy. }
    rewrite Ac in *. destruct A as [[-> Pr]|(_ & -> & ->)]; [by eapply synchronized_segment|]. exists 0, false. eapply stripped_synchronized; eauto. by apply strip_data_ok.
Qed.

(** Only what the actions tell of the stream matters. *)
Lemma after_same_tells r f initial a t' acts acts' n fin : after_segment S base r f initial a t' acts n fin -> tells acts' n fin -> after_segment S base r f initial a t' acts' n fin.
Proof.
  intros [A1 A2 [F1 F2 F3 F4 F5 F6] A4 A5 A6 A7 A8 A9 A10] T. split; try done. split; try done.
  - by rewrite F2, (tl_delivered _ _ _ A1), (tl_delivered _ _ _ T).
  - by rewrite F3, (tl_delivered _ _ _ A1), (tl_delivered _ _ _ T), (tl_fins _ _ _ A1), (tl_fins _ _ _ T).
Qed.

Lemma tells_filter acts n fin : tells acts n fin -> tells (filter (fun a => a <> ChallengeAck) acts) n fin.
Proof.
  intros [D1 D2 F1 F2]. assert (forall acts, existsb delivers (filter (fun a => a <> ChallengeAck) acts) = existsb delivers acts /\
    delivered (filter (fun a => a <> ChallengeAck) acts) = delivered acts /\ fins (filter (fun a => a <> ChallengeAck) acts) = fins acts) as H.
  { clear. induction acts as [|x acts (I1 & I2 & I3)]; [done|]. rewrite filter_cons. case_decide as D; [|destruct x; try (by destruct D); done].
    cbn [existsb]. rewrite I1. split; [done|].
    split; [change (action_bytes x + delivered (filter (fun a => a <> ChallengeAck) acts) = action_bytes x + delivered acts)
           |change (action_fins x + fins (filter (fun a => a <> ChallengeAck) acts) = action_fins x + fins acts)]; congruence. }
  destruct (H acts) as (E1 & E2 & E3). split; [congruence..|]. rewrite <- F2. apply bool_decide_ext. rewrite list_elem_of_filter. naive_solver.
Qed.

Lemma answer_after r f initial a t' acts n fin f' l : after_segment S base r f initial a t' acts n fin -> f_tcb f' = t' ->
  wlp (answer_pressure_drop acts) (f', l) (fun acts' e => exists t2, e.1 = set_f_tcb t2 f' /\ after_segment S base r f initial a t2 acts' n fin) (fun _ _ => False).
Proof.
  intros A Et. unfold answer_pressure_drop. apply wlp_if; intros _; [apply wlp_ret; exists t'; rewrite <- Et; split; [by destruct f'|by rewrite Et]|].
  apply wlp_bind, wlp_on. cbn [fst snd]. rewrite Et. destruct (reject_unacceptable_segment t') as [t2 more] eqn:E. apply wlp_ret. exists t2. split; [done|].
  destruct (answer_with_tells DefensiveAck _ _ _ _ (fun _ => eq_refl) E) as [-> (more' & -> & M)].
  pose proof (tells_mute _ _ _ _ (as_tells _ _ _ _ _ _ _ _ _ _ A) (as_nonneg _ _ _ _ _ _ _ _ _ _ A) M) as T.
  apply (after_same_tells _ _ _ _ _ acts); [|exact T]. destruct A as [A1 A2 [F1 F2 F3 F4 F5 F6] A4 A5 A6 A7 A8 A9 A10]. split; try done.
  - split; try done. by apply set_delayed_wf.
  - intros Hc. eapply core_same; [|by apply A7]. by split.
Qed.

Lemma on_segment_error f s : tcb_wf (f_tcb f) -> segment_ok s -> match on_segment (f_tcb f) s with (t', Err _) => t' = f_tcb f | _ => True end.
Proof.
  intros W O. pose proof (tcb_step_ok (timers_of (f_tcb f)) (f_tcb f) (OnSegment s) W (timers_of_ok _) O) as P. cbn [tcb_step] in P. by destruct (on_segment (f_tcb f) s) as [t' [| | |]].
Qed.

Lemma see_segment_ok r f initial a seen dropped held l : tcb_wf (f_tcb f) -> segment_ok seen ->
  (forall t' acts, on_segment (f_tcb f) seen = (t', Ok acts) -> exists n fin, after_segment S base r f initial a t' acts n fin) ->
  wlp (see_segment seen dropped held) (f, l)
    (fun acts e => exists t' n fin, e.1 = set_f_tcb t' f /\ after_segment S base r f initial a t' acts n fin) (fun _ e => e.1 = f).
Proof.
  intros W O H. unfold see_segment. apply wlp_bind, or_drop_ok, wlp_on. cbn [fst snd]. pose proof (on_segment_error f seen W O) as He.
  destruct (on_segment (f_tcb f) seen) as [t' [acts|e| |]] eqn:E; try done; [|subst; by destruct f].
  destruct (H t' acts eq_refl) as (n & fin & A). apply wlp_if; intros _; [|apply wlp_ret; by exists t', n, fin].
  eapply wlp_mono; [by apply (answer_after _ _ _ _ _ _ _ _ (set_f_tcb t' f) _ A)| |done]. intros acts' e (t2 & E2 & A2). exists t2, n, fin. split; [|done]. rewrite E2. by destruct f.
Qed.

(** ** Calls of the table *)
Section Table.
Context (budget : ResourceBudget) (le : bool) (hash_port : SocketAddr * IpAddr * Z -> Z) (hash_offset : SocketAddr * SocketAddr -> Z)
  (hash_sequence : TcpFlowKey * Z -> Z) (iter : gmap TcpFlowKey TcpFlow -> list TcpFlowKey).

Lemma wlp_with_flow {A} key missing (m : FM A) (t : TcpTable) l f Q X : t_by_key t !! key = Some f ->
  wlp m (f, l) (fun a e => Q a (set_t_by_key (<[key := e.1]> (t_by_key t)) t, e.2)) (fun x e => X x (set_t_by_key (<[key := e.1]> (t_by_key t)) t, e.2)) ->
  wlp (with_flow key missing m) (t, l) Q X.
Proof. intros E H. apply wlp_bind, wlp_get. cbn [fst]. rewrite E. by apply wlp_on_part. Qed.

Lemma wlp_flow_of key missing (t : TcpTable) l f (Q : TcpFlow -> tstate -> Prop) X : t_by_key t !! key = Some f -> Q f (t, l) -> wlp (flow_of key missing) (t, l) Q X.
Proof. intros E H. apply wlp_bind, wlp_get. cbn [fst]. by rewrite E. Qed.

Lemma wlp_charge {A} (m : sm ResourceLedger TcpTableError A) (t : TcpTable) l (Q : A -> tstate -> Prop) X :
  wlp m l (fun a l' => Q a (t, l')) (fun x l' => X x (t, l')) -> wlp (charge m) (t, l) Q X.
Proof. intros H. by apply wlp_on_part. Qed.

Context (k : TcpFlowKey).

(** What the table promises of the flow at [k] after [r] bytes were read from it. *)
Definition receiving (r : Z) (f : TcpFlow) : Prop := rx_ok S base r f /\ terms_ok f.
Abbreviation stream_ok r := (holds_at k (receiving r)).

Lemma receiving_quiet r f f' : quiet f f' -> receiving r f -> receiving r f'.
Proof. intros Q [R T]. split; [by eapply quiet_rx_ok|by apply Q]. Qed.
Lemma receiving_terms r f : receiving r f -> tcb_wf (f_tcb f) /\ terms_ok f.
Proof. by intros [[W _] T]. Qed.

Lemma stream_ok_at r f t l : config_ok (t_config t) -> t_by_key t !! k = Some f -> receiving r f -> stream_ok r (t, l).
Proof. intros C E R. split; [done|]. intros g. cbn. rewrite E. by intros [= <-]. Qed.
Lemma stream_ok_set r f t l : config_ok (t_config t) -> receiving r f -> stream_ok r (set_t_by_key (<[k := f]> (t_by_key t)) t, l).
Proof. intros C R. eapply stream_ok_at; [done|apply lookup_insert_eq|done]. Qed.

(** A segment for the flow at [k] that the peer sent. *)
Record arrives (r : Z) (f : TcpFlow) (s : TcpSegmentMeta) (payload : list Z) : Prop := {
  ar_genuine : genuine S base r (f_tcb f) s payload;
  ar_window : 0 <= window s <= u16_max;
  ar_len : payload_len s = len payload;
  ar_clean : accepts_final_ack (f_tcb f) s = true -> clean_final_ack f payload
}.

Lemma scaled_arrives r f s payload : terms_ok f -> arrives r f s payload ->
  genuine S base r (f_tcb f) (apply_peer_window_scale f s) payload /\ payload_len (apply_peer_window_scale f s) = len payload /\
  accepts_final_ack (f_tcb f) (apply_peer_window_scale f s) = accepts_final_ack (f_tcb f) s.
Proof.
  intros [T _] [G Wd L _]. unfold apply_peer_window_scale. destruct (contains (flags s) SYN) eqn:Sy; [done|]. destruct (f_peer_window_scale f) as [w|]; [|done].
  split; [|done]. destruct G as [O Ga Gs Gm]. 
  split; try done.
  - destruct O as [O1 O2 O3 O4]. split; try done. cbn [window]. assert (2 ^ w <= 2 ^ 14) by (apply Z.pow_le_mono_r; lia). assert (0 < 2 ^ w) by (apply Z.pow_pos_nonneg; lia).
    rewrite Z.shiftl_mul_pow2 by lia. unfold wrap32, MAX_WINDOW, u16_max in *. rewrite Z.mod_small; nia.
  - intros _ Hr. destruct (Gm Sy Hr) as (q & [] & Hq). exists q. split; [by split|done].
Qed.

Lemma handle_existing_timestamp_ok r f s options t l : config_ok (t_config t) -> t_by_key t !! k = Some f -> receiving r f ->
  wlp (handle_existing_timestamp le k s options) (t, l) (fun early st => match early with None => st = (t, l) | Some _ => stream_ok r st end) (fun _ => stream_ok r).
Proof.
  intros C E R. pose proof (stream_ok_at r f t l C E R) as J.
  unfold handle_existing_timestamp. apply wlp_bind. eapply wlp_flow_of; [exact E|]. apply wlp_bind, wlp_get. destruct (validate_segment_timestamp _ _ _ _); try by apply wlp_ret.
  apply wlp_bind. eapply wlp_mono; [apply keeps_with_flow; [apply receiving_quiet|intros _; apply reject_calm|exact J]| |done]. intros acts st J'.
  apply wlp_bind. eapply wlp_mono; [eapply render_actions_keeps; [apply receiving_quiet|exact J']| |done]. done.
Qed.

(** The segment is taken: the control block sees it and the flow follows. *)
Lemma segment_taken_ok {A} r f initial a seen dropped held t l (rest : list TcpAction -> TM A) : config_ok (t_config t) -> t_by_key t !! k = Some f -> receiving r f -> segment_ok seen ->
  (forall t' acts, on_segment (f_tcb f) seen = (t', Ok acts) -> exists n fin, after_segment S base r f initial a t' acts n fin) ->
  (forall t' acts n fin l', after_segment S base r f initial a t' acts n fin ->
     wlp (rest acts) (set_t_by_key (<[k := set_f_tcb t' f]> (t_by_key t)) t, l') (fun _ => stream_ok r) (fun _ => stream_ok r)) ->
  wlp (actions ← with_flow k UnknownFlow (see_segment seen dropped held); rest actions) (t, l) (fun _ => stream_ok r) (fun _ => stream_ok r).
Proof.
  intros Cf E R O H Hr. apply wlp_bind. eapply wlp_with_flow; [exact E|]. eapply wlp_mono; [apply (see_segment_ok r f initial a); [apply R|done|done]|..].
  - intros acts [f' l'] (t' & n & fin & -> & A0). cbn [fst snd]. by eapply Hr.
  - intros x [f' l'] ->. by apply stream_ok_set.
Qed.

Lemma limit_tells now_ms limiter acts limiter' acts' n fin : apply_challenge_ack_limit now_ms limiter acts = (limiter', acts') -> tells acts n fin -> tells acts' n fin.
Proof.
  unfold apply_challenge_ack_limit. case_match; [by intros [= <- <-]|]. destruct (limiter_allow now_ms limiter) as [? [|]]; intros [= <- <-]; [done|apply tells_filter].
Qed.

(** The rest of [ingest_existing], from the limit on challenge ACKs on. *)
Lemma finish_taken_ok r f t' acts n fin t l a original s options adm dropped feedback plan lease next una had_send available limit :
  let initial := accepts_final_ack (f_tcb f) original && bool_decide (is_Some (f_pending_initial_receive f)) in
  config_ok (t_config t) -> terms_ok f -> after_segment S base r f initial a t' acts n fin -> t_by_key t !! k = Some (set_f_tcb t' f) ->
  wlp (st ← get_state;
       let '(limiter, actions) := apply_challenge_ack_limit (t_now_ms st.1) (t_challenge_ack_limiter st.1) acts in
       _ ← on_tcp_table (set_t_challenge_ack_limiter limiter);
       actions ← with_flow k UnknownFlow (take_admitted (t_now_ms st.1) original s options a adm dropped feedback initial plan lease next una actions);
       f' ← flow_of k UnknownFlow;
       finish_existing_ingress budget le k (f_id f') actions (pending_resegment_control f' una) (flow_became_writable f' had_send una available) limit)
    (t, l) (fun _ => stream_ok r) (fun _ => stream_ok r).
Proof.
  intros initial Cf T A E. apply wlp_bind, wlp_get. destruct (apply_challenge_ack_limit _ _ acts) as [limiter acts'] eqn:El.
  assert (after_segment S base r f initial a t' acts' n fin) as A' by (eapply after_same_tells; [exact A|]; eapply limit_tells; [exact El|]; apply A). clear A El.
  apply wlp_bind, wlp_modify, wlp_bind. cbn [fst snd]. eapply wlp_with_flow; [exact E|]. eapply wlp_mono; [eapply (take_admitted_ok r f initial a t' acts' n fin)|..]; try done.
  - intros Hi. by apply andb_true_iff in Hi as [_ Hi%bool_decide_eq_true].
  - intros acts2 [f2 l2] [K R]. cbn [fst snd]. assert (receiving r f2) as R2 by (split; [done|]; eapply terms_ok_same; [apply K|done]).
    apply wlp_bind. eapply wlp_flow_of; [apply lookup_insert_eq|]. eapply finish_existing_ingress_keeps; [apply receiving_quiet|apply receiving_terms|by apply stream_ok_set].
Qed.

Lemma ingest_existing_ok r f s options payload limit t l : config_ok (t_config t) -> t_by_key t !! k = Some f -> receiving r f -> state (f_tcb f) <> SynSent -> arrives r f s payload ->
  wlp (ingest_existing budget le k s options payload limit) (t, l) (fun _ => stream_ok r) (fun _ => stream_ok r).
Proof.
  intros Cf E R Hs A. pose proof (stream_ok_at r f t l Cf E R) as J. unfold ingest_existing. apply wlp_bind.
  eapply wlp_mono; [by apply (handle_existing_timestamp_ok r f)| |done]. intros [output|] st; [by intros; apply wlp_ret|]. intros ->. apply wlp_bind. eapply wlp_flow_of; [exact E|].
  destruct (scaled_arrives r f s payload ltac:(apply R) A) as (G & L & Ea). set (original := apply_peer_window_scale f s) in *. clearbody original.
  assert (accepts_final_ack (f_tcb f) original = true -> clean_final_ack f payload) as Cl by (rewrite Ea; apply A). clear Ea.
  set (accepting := accepts_final_ack (f_tcb f) original) in *. destruct (normalize_receive_segment f original payload accepting) as [[s' payload'] adm] eqn:EN.
  pose proof (gn_segment _ _ _ _ _ _ G) as O. destruct (normalize_ok f original payload accepting s' payload' adm ltac:(apply R) O L EN) as [_ Tr].
  destruct (state_segment_control f original s' payload' accepting Tr O) as [_ Os]. set (seen := state_segment f original s' accepting) in *.
  cbv zeta. apply wlp_bind, wlp_charge, wlp_any; [|intros; by eapply stream_ok_at]. intros [feedback plan] l1. cbn [fst snd].
  apply wlp_bind. eapply (wlp_mono _ _ (fun _ st => st.1 = t) _ (fun _ _ => False)); [| |done].
  { apply wlp_if; intros _; [|by apply wlp_ret]. apply wlp_bind, wlp_attempt, wlp_charge, wlp_any; intros; by apply wlp_ret. }
  intros accept [t2 l2] Et. cbn in Et. subst t2. destruct accept as [lease|].
  - apply wlp_bind, wlp_attempt, wlp_charge. eapply wlp_mono; [apply admit_or_strip_ok| |].
    + intros [[[s2 seen2] a] dropped] l3 Hp. assert (admitted f s' seen payload' adm accepting seen2 a) as Ad by (destruct Hp as [(-> & -> & -> & Hp)|(-> & ? & -> & -> & ->)]; [by left|by right]).
      assert (segment_ok seen2) as O2 by (destruct Ad as [[-> _]|(_ & -> & _)]; [done|by apply strip_data_ok]).
      apply (segment_taken_ok r f (accepting && bool_decide (is_Some (f_pending_initial_receive f))) a); try done.
      * intros t' acts Eo. destruct (decide (state (f_tcb f) = Closed)) as [Hc|Hc]; [unfold on_segment, state_is in Eo; by rewrite bool_decide_eq_true_2 in Eo|].
        eapply seen_after; eauto. apply R.
      * intros t' acts n fin l4 A4. eapply finish_taken_ok; [done|apply R|exact A4|apply lookup_insert_eq].
    + intros e l3 _. apply wlp_bind, wlp_charge, wlp_any; intros; [apply wlp_throw|]; by eapply stream_ok_at.
  - apply wlp_bind, wlp_charge, wlp_any; [|intros; by eapply stream_ok_at]. intros _ l3. apply handle_accept_overflow_keeps. by eapply stream_ok_at.
Qed.
(** *** The handshake of a connection of our own *)
Lemma take_peer_syn_core s a t t' acts receive initial queue fin : take_peer_syn s a t = (t', acts) -> seq_add (sequence s) 1 = base -> state t = SynSent ->
  rx_core S base 1 0 t receive initial queue fin -> tcb_wf t -> receive = [] -> queue = [] -> fin = None -> rx_core S base 1 0 t' receive initial queue fin.
Proof.
  intros E B Hs [C1 C2 C3 C4 C5 C6 C7 C8 C9 C10] W -> -> ->. destruct initial as [c|]; [destruct C7 as [X _]; congruence|].
  assert (recv_next t' = base /\ recv_buffered t' = recv_buffered t /\ pending_initial_payload_len t' = pending_initial_payload_len t /\
    pending_initial_fin t' = pending_initial_fin t /\ active_open t' = active_open t /\ peer_receive_closed t' = false) as (E1 & E2 & E3 & E4 & E5 & E6).
  { unfold take_peer_syn in E. destruct a; injection E as <- <-; unfold peer_receive_closed; tcb_goal; done. }
  unfold taken_pos in *. split; unfold taken_pos; rewrite ?E2, ?E3, ?E4, ?E5; try done.
  - intros _. unfold next_pos, taken_pos. rewrite E1, E2, E6. assert (recv_buffered t = 0) as ->.
    { pose proof (wf_buffered _ W). pose proof (wf_pending_len _ W). apply (f_equal len) in C5. rewrite (len_sub S 0 (0 + recv_buffered t)) in C5 by lia. change (0 = 0 + recv_buffered t - 0) in C5. lia. }
    rewrite <- B, seq_add_assoc. done.
  - rewrite E6. cbn [orb]. intros H. apply C4. by rewrite H, orb_true_r.
Qed.
Lemma on_syn_sent_receiving r f s t' acts : receiving r f -> state (f_tcb f) = SynSent -> segment_ok s -> (contains (flags s) SYN = true -> seq_add (sequence s) 1 = base) ->
  on_segment (f_tcb f) s = (t', Ok acts) -> receiving r (set_f_tcb t' f).
Proof.
  intros [[W L] T] Hs O B E. assert (state (f_tcb f) <> Closed) as Hc by congruence. destruct (L Hc) as [C L2 L3]. destruct (L3 Hs) as (-> & Er & Eq & Ef).
  pose proof (step_wf (f_tcb f) (OnSegment s) W O) as W'. cbn [tcb_step] in W'. rewrite E in W'. split; [|done]. split; [done|]. intros Hc'.
  unfold on_segment, state_is in E. rewrite bool_decide_eq_false_2, bool_decide_eq_true_2 in E by done.
  destruct (on_syn_sent_segment (f_tcb f) s) as [t2 acts2] eqn:E2. injection E as <- <-.
  assert (t2 = f_tcb f \/ t2 = set_state Closed (f_tcb f) \/ exists a, contains (flags s) SYN = true /\ take_peer_syn s a (f_tcb f) = (t2, acts2)) as [-> |[-> |(a & Hy & Et)]].
  { unfold on_syn_sent_segment in E2. destruct (contains (flags s) SYN); cbn [negb] in E2; repeat case_match; simplify_eq; eauto. }
  - by destruct f.
  - done.
  - split.
    + by eapply take_peer_syn_core; eauto.
    + assert (peer_receive_closed t2 = false) as Ep by (unfold take_peer_syn in Et; destruct a; by injection Et as <- <-). cbn. by rewrite Ep.
    + intros _. done.
Qed.

Lemma withdraw_quiet f : quiet f (set_f_tcb (withdraw_receive_window_scale (f_tcb f)) f).
Proof.
  pose proof (quiet_step f OnWithdraw I) as H. cbn [tcb_step] in H. apply H. unfold withdraw_receive_window_scale. case_match; same_block.
Qed.

Lemma withdraw_state t : state (withdraw_receive_window_scale t) = state t.
Proof. unfold withdraw_receive_window_scale. by case_match. Qed.

(** What the peer's SYN settles leaves the stream alone. *)
Lemma settle_quiet t options f : config_ok (t_config t) -> options_ok options -> state (f_tcb f) = SynSent ->
  let f1 := set_f_peer_window_scale (window_scale options) (set_f_sack_permitted (sack_permitted options) f) in
  let f2 := match window_scale options with
            | None => set_f_tcb (withdraw_receive_window_scale (f_tcb f1)) (set_f_local_window_scale 0 f1)
            | Some _ => f1
            end in
  let f3 := set_f_timestamp ((fun p => mkTimestampState p.1 (t_now_ms t)) <$> timestamps options) f2 in
  let f4 := set_f_max_send_segment_bytes
    (Z.min (local_mss t (tk_source k)) (default (default_peer_mss (tk_source k)) (maximum_segment_size options))) f3 in
  let f5 := match tc_link_mtu (t_config t) with Some mtu => (lower_flow_mtu (Udp.is_ipv4 (tk_source k)) mtu f4).1 | None => f4 end in
  quiet f f5 /\ state (f_tcb f5) = SynSent.
Proof.
  intros Cf Oo Hs f1 f2 f3 f4 f5.
  assert (quiet f f1 /\ state (f_tcb f1) = SynSent) as [Q1 S1] by (split; [split; try done; intros [_ ?]; split; [apply Oo|done]|done]). clearbody f1.
  assert (quiet f1 f2 /\ state (f_tcb f2) = SynSent) as [Q2 S2].
  { unfold f2. destruct (window_scale options); [done|]. split; [|cbn; by rewrite withdraw_state].
    transitivity (set_f_local_window_scale 0 f1); [quiet_by_fields|apply (withdraw_quiet (set_f_local_window_scale 0 f1))]. }
  clearbody f2. assert (quiet f2 f4 /\ state (f_tcb f4) = SynSent) as [Q4 S4].
  { split; [|done]. transitivity f3; [quiet_by_fields|]. split; try done. intros [T _]. split; [done|]. pose proof (local_mss_pos t (tk_source k) Cf).
    pose proof (oo_mss _ Oo) as Hm. apply Z.min_glb; [lia|]. unfold default_peer_mss, is_u16 in *.
    destruct (maximum_segment_size options); [apply Hm|by destruct (Udp.is_ipv4 (tk_source k))]. }
  clearbody f3 f4. assert (quiet f4 f5 /\ state (f_tcb f5) = SynSent) as [Q5 S5].
  { unfold f5. destruct (tc_link_mtu (t_config t)); [|done]. split; [apply lower_flow_mtu_quiet|]. unfold lower_flow_mtu. by case_match. }
  split; [|done]. transitivity f1; [done|]. transitivity f2; [done|]. by transitivity f4.
Qed.

Lemma ingest_syn_sent_ok r f s options t l : config_ok (t_config t) -> t_by_key t !! k = Some f -> receiving r f -> state (f_tcb f) = SynSent -> segment_ok s -> options_ok options ->
  (contains (flags s) SYN = true -> seq_add (sequence s) 1 = base) ->
  wlp (ingest_syn_sent budget le k s options) (t, l) (fun _ => stream_ok r) (fun _ => stream_ok r).
Proof.
  intros Cf E R Hs O Oo B. unfold ingest_syn_sent. apply wlp_bind, wlp_get, wlp_bind. eapply wlp_flow_of; [exact E|]. cbv zeta. cbn [fst snd].
  set (settle := fun f : TcpFlow => if _ && _ && _ then _ else f).
  assert (quiet f (settle f) /\ state (f_tcb (settle f)) = SynSent) as [Q Hs1].
  { unfold settle. case_match; [|done]. by apply settle_quiet. }
  clearbody settle. apply wlp_bind. eapply wlp_with_flow; [exact E|].
  apply wlp_bind, wlp_modify, wlp_bind, wlp_get, wlp_bind, wlp_on. cbn [fst snd]. pose proof (receiving_quiet r _ _ Q R) as R1.
  pose proof (on_segment_error (settle f) s ltac:(apply R1) O) as He. destruct (on_segment (f_tcb (settle f)) s) as [t' [acts|x| |]] eqn:Eo; try done.
  - pose proof (on_syn_sent_receiving r (settle f) s t' acts R1 Hs1 O B Eo) as R2. apply wlp_bind, wlp_modify, wlp_ret. cbn [fst snd].
    eapply finish_existing_ingress_keeps; [apply receiving_quiet|apply receiving_terms|]. apply stream_ok_set; [done|]. eapply receiving_quiet; [|exact R2].
    apply steady_quiet, record_ack_progress_steady.
  - subst. apply stream_ok_set; [done|]. by destruct (settle f).
Qed.

End Table.
End Receive.
