(* ===== verification/TcpReceiveRead.v ===== *)
(** Reading from a flow of [sail-netstack/src/tcp/table.rs]: the bytes a read returns
    are the peer's stream from where the last read ended. *)
From S2P Require Import Prelude StateMonad Partial TcpSeq Congestion TcpTcb TcpInvariant TcpHandlers Budget IpWire TcpWire TcpFlow TcpTable TcpSegment TcpReceive TcpReceiveInv TcpReceiveFlow TcpReport TcpKeeps TcpReceiveTable.
From stdpp Require Import list sets gmap.
#[local] Open Scope Z_scope.

(** ** The queue *)
Lemma read_loop_only receive amount bytes f l :
  wlp (read_loop receive amount bytes) (f, l) (fun _ e => exists q, e.1 = set_f_receive q f) (fun _ e => exists q, e.1 = set_f_receive q f).
Proof.
  assert (set_f_receive (f_receive f) f = f) as E0 by (by destruct f).
  revert bytes f l E0. induction receive as [|c receive IH]; intros bytes f l E0; cbn [read_loop].
  - case_match; [apply wlp_ret|apply wlp_throw]; by exists (f_receive f).
  - case_match; [apply wlp_ret; by exists (f_receive f)|]. cbv zeta. case_match.
    + apply wlp_bind, wlp_modify, wlp_bind, wlp_on_part, wlp_modify. cbn [fst snd].
      eapply wlp_mono; [apply IH; by destruct f|..]; intros ? e [q ->]; exists q; by destruct f.
    + apply wlp_bind, wlp_modify, wlp_ret. by eexists.
Qed.

Definition chunks_ok (receive : list ReceiveChunk) : Prop := Forall (fun c => 0 <= rc_offset c < len (rc_bytes c)) receive.
Abbreviation content receive := (concat (unread <$> receive)).

Lemma len_unread c : 0 <= rc_offset c < len (rc_bytes c) -> len (unread c) = len (rc_bytes c) - rc_offset c.
Proof. intros. unfold unread. rewrite len_drop; lia. Qed.

Lemma content_nil receive : chunks_ok receive -> content receive = [] -> receive = [].
Proof.
  destruct receive as [|c receive]; [done|]. intros [H _]%Forall_cons E. rewrite fmap_cons in E. cbn [concat] in E. apply app_nil in E as [E _].
  pose proof (len_unread c H) as L. rewrite E in L. change (len []) with 0 in L. lia.
Qed.

(** A read of [amount] bytes: what it returns, and what stays. *)
Lemma read_loop_ok receive amount bytes f l : f_receive f = receive -> chunks_ok receive -> len bytes <= amount <= len bytes + len (content receive) ->
  wlp (read_loop receive amount bytes) (f, l)
    (fun out e => exists q, e.1 = set_f_receive q f /\ chunks_ok q /\ out ++ content q = bytes ++ content receive /\ len out = amount) (fun _ _ => False).
Proof.
  revert bytes f l. induction receive as [|c receive IH]; intros bytes f l Ef Hc Ha; cbn [read_loop].
  - change (len (content [])) with 0 in Ha. case_bool; [|lia]. apply wlp_ret. exists (f_receive f). rewrite Ef. split; [destruct f; cbn in *; by subst|]. split; [done|]. split; [done|lia].
  - apply Forall_cons in Hc as [Oc Hc]. rewrite fmap_cons in *. cbn [concat] in *. rewrite len_app, (len_unread c Oc) in Ha. case_bool.
    { apply wlp_ret. exists (f_receive f). rewrite Ef. split; [destruct f; cbn in *; by subst|]. split; [by constructor|]. split; [done|lia]. }
    cbv zeta. set (n := Z.min _ _). assert (0 < n) as Hn by (unfold n; lia).
    assert (sub (rc_bytes c) (rc_offset c) (rc_offset c + n) = take (Z.to_nat n) (unread c)) as Es by (unfold sub, unread; do 2 f_equal; lia).
    rewrite Es. assert (len (take (Z.to_nat n) (unread c)) = n) as Ln by (rewrite len_take; pose proof (len_unread c Oc); lia). case_bool.
    + apply wlp_bind, wlp_modify, wlp_bind, wlp_on_part, wlp_modify. cbn [fst snd].
      assert (take (Z.to_nat n) (unread c) = unread c) as Eu by (apply take_ge; pose proof (len_unread c Oc); unfold len in *; lia).
      rewrite Eu in *. eapply wlp_mono; [apply IH; [done..|rewrite len_app; lia]| |done]. intros out e2 (q & -> & Hq & Eo & Lo).
      exists q. split; [by destruct f|]. split; [done|]. split; [|done]. by rewrite Eo, <- app_assoc.
    + apply wlp_bind, wlp_modify, wlp_ret. eexists. split; [reflexivity|]. split; [constructor; [cbn; unfold n in *; lia|done]|].
      split; [|rewrite len_app; unfold n in *; lia]. rewrite fmap_cons. cbn [concat]. rewrite <- app_assoc. f_equal. rewrite app_assoc. f_equal.
      unfold unread at 2. cbn [rc_bytes rc_offset]. replace (Z.to_nat (rc_offset c + n)) with (Z.to_nat (rc_offset c) + Z.to_nat n)%nat by lia.
      rewrite <- drop_drop. apply take_drop.
Qed.

(** ** The window *)
Lemma grow_steady t n : 0 <= n -> recv_capacity t + n <= u64_max -> forall f, f_tcb f = t -> steady f (set_f_tcb (grow_receive_capacity n t) f).
Proof. intros H1 H2 f <-. split; try done. intros W. by apply grow_wf. Qed.

Lemma announceable_small t : tcb_wf t -> announceable_receive_capacity t <= MAX_WINDOW.
Proof. intros W. unfold announceable_receive_capacity. apply advertisable_range; [done|apply W]. Qed.

Lemma grow_receive_window_steady budget count now_ms max f l : tcb_wf (f_tcb f) ->
  wlp (grow_receive_window budget count now_ms max) (f, l) (fun _ e => steady f e.1) (fun _ _ => False).
Proof.
  intros W. unfold grow_receive_window. destruct max as [max|]; [|by apply wlp_ret]. apply wlp_bind, wlp_modify. cbn [fst snd]. set (f1 := set_f_read_measure_bytes _ f).
  assert (steady f f1) as Q1 by (by apply steady_fields). assert (f_tcb f1 = f_tcb f) as Et by done. clearbody f1. apply wlp_bind, wlp_get. cbv zeta. cbn [fst snd]. rewrite Et.
  apply wlp_if; intros _; [by apply wlp_ret|]. apply wlp_bind. eapply (wlp_mono _ _ (fun _ e => steady f1 e.1) _ (fun _ _ => False)); [| |done].
  - apply wlp_if; intros Hg; [|by apply wlp_ret]. apply andb_true_iff in Hg as [_ Hlt%Z.ltb_lt]. apply wlp_bind, wlp_attempt, wlp_on. cbn [fst snd].
    match goal with |- context [on ?p ?u ?c ?m ?s] => destruct (on p u c m s) as [l2 [lease|e| |]] end; try done.
    apply wlp_modify. cbn [fst snd]. pose proof (announceable_small _ W). pose proof (open_window_nonneg (f_tcb f)). pose proof (wf_window _ W). pose proof (wf_buffered _ W).
    unfold MAX_WINDOW in *.
    set (f2 := set_f_receive_growth (f_receive_growth f1 ++ [lease]) f1). transitivity f2; [by apply steady_fields|].
    apply (grow_steady (f_tcb f2)); [lia| |done]. change (f_tcb f2) with (f_tcb f1). rewrite Et. unfold u64_max. lia.
  - intros _ [f2 l2] Q2. cbn [fst] in Q2. apply wlp_modify. cbn [fst]. transitivity f1; [done|]. transitivity f2; [done|]. by apply steady_fields.
Qed.

Lemma consumed_same t n t' acts : on_consumed t n = (t', Ok acts) -> tcb_wf t -> 0 <= n ->
  state t' = state t /\ active_open t' = active_open t /\ recv_next t' = recv_next t /\ pending_initial_payload_len t' = pending_initial_payload_len t /\
  pending_initial_fin t' = pending_initial_fin t /\ recv_buffered t' = recv_buffered t - n /\ (state t <> SynSent -> open_window t <= open_window t').
Proof.
  intros E W Hn. pose proof (consumed_ok (timers_of t) t n W (timers_of_ok t) Hn) as P. rewrite E in P.
  assert (state t' = state t /\ active_open t' = active_open t /\ recv_next t' = recv_next t /\ pending_initial_payload_len t' = pending_initial_payload_len t /\
    pending_initial_fin t' = pending_initial_fin t /\ recv_buffered t' = usub (recv_buffered t) n) as (E1 & E2 & E3 & E4 & E5 & E6).
  { unfold on_consumed in E. repeat case_match; simplify_eq; try done.
    match goal with H : answer_with _ _ _ = _ |- _ => destruct (answer_with_tells Send _ _ _ _ (fun _ => eq_refl) H) as [-> _] end. done. }
  split_and!; try done.
  - unfold on_consumed in E. destruct (Z.ltb_spec (recv_buffered t) n) as [|Hb]; [done|]. rewrite E6. pose proof (wf_window _ W). pose proof (wf_capacity _ W).
    pose proof (wf_buffered _ W). pose proof (open_window_nonneg t). unfold usub, wrap64. apply Z.mod_small. unfold u64_max in *. lia.
  - intros Hs. destruct (sp_edge _ _ _ _ _ P Hs) as [H _]. unfold open_window at 2. by rewrite E3.
Qed.

Section Read.
Context (S : list Z) (base : Z).
Abbreviation receiving := (receiving S base).

Lemma queue_at_edge edge edge' lo queue : edge <= edge' -> queue_at S base edge lo queue -> queue_at S base edge' lo queue.
Proof.
  intros He. revert lo. induction queue as [|c queue IH]; [done|]. intros lo (x & E & Hx & Lc & Bc & Nc & Ec & HQ). exists x. split_and!; try done; [lia|by apply IH].
Qed.

Lemma consumed_core r t receive receive' bytes initial queue fin t' acts : rx_core S base 1 r t receive initial queue fin -> tcb_wf t -> chunks_ok receive' ->
  bytes ++ content receive' = content receive -> on_consumed t (len bytes) = (t', Ok acts) -> (state t = SynSent -> queue = [] /\ fin = None) ->
  bytes = sub S r (r + len bytes) /\ rx_core S base 1 (r + len bytes) t' receive' initial queue fin.
Proof.
  intros [C1 C2 C3 C4 C5 C6 C7 C8 C9 C10] W Hc Ec E Hq. pose proof (len_nonneg bytes) as Hn.
  destruct (consumed_same t (len bytes) t' acts E W Hn) as (E1 & E2 & E3 & E4 & E5 & E6 & E7). pose proof (wf_pending_len _ W). pose proof (wf_buffered _ W).
  assert (len bytes <= recv_buffered t) as Hb by (unfold on_consumed in E; destruct (Z.ltb_spec (recv_buffered t) (len bytes)); [done|lia]).
  assert (taken_pos (r + len bytes) t' = taken_pos r t) as Et by (unfold taken_pos; lia).
  assert (peer_receive_closed t' = peer_receive_closed t) as Ep by (unfold peer_receive_closed; by rewrite E1).
  assert (next_pos (r + len bytes) t' = next_pos r t) as En by (unfold next_pos; by rewrite Et, Ep).
  assert (held t' = held t) as Eh by (unfold held; by rewrite E4, E5).
  assert (bytes = sub S r (r + len bytes)) as Eb.
  { rewrite <- (take_sub S r (taken_pos r t)), <- C5, <- Ec by (unfold taken_pos; lia). unfold len. by rewrite Nat2Z.id, take_app_length. }
  split; [done|]. split; rewrite ?Et, ?En, ?Eh, ?E1, ?E2, ?E3, ?E4, ?E5, ?Ep; try done; [lia| | |].
  - rewrite <- (drop_sub S r (taken_pos r t)), <- C5, <- Ec by lia. unfold len. by rewrite Nat2Z.id, drop_app_length.
  - destruct (decide (state t = SynSent)) as [Hs|Hs]; [by destruct (Hq Hs) as [-> _]|]. eapply queue_at_edge; [|exact C9]. unfold edge_pos. rewrite En. specialize (E7 Hs). lia.
  - destruct fin as [y|]; [|done]. destruct (decide (state t = SynSent)) as [Hs|Hs]; [by destruct (Hq Hs) as [_ ?]|]. destruct C10 as (? & ? & ?). split; [done|]. split; [done|].
    unfold edge_pos in *. rewrite En. specialize (E7 Hs). lia.
Qed.

Lemma closed_receiving r f : tcb_wf (f_tcb f) -> terms_ok f -> state (f_tcb f) = Closed -> receiving r f.
Proof. intros W T Hc. split; [|done]. split; [done|]. congruence. Qed.

(** A read continues the stream where the last one ended. *)
Lemma read_flow_ok budget r max_bytes now_ms max_credit f l : 0 <= max_bytes -> receiving r f ->
  wlp (read_flow budget max_bytes now_ms max_credit) (f, l)
    (fun out e => out.1 = sub S r (r + len out.1) /\ receiving (r + len out.1) e.1 /\ state (f_tcb e.1) <> Closed /\ Forall answer out.2) (fun _ e => receiving r e.1).
Proof.
  intros Hm [[W L] T]. unfold read_flow. apply wlp_bind, wlp_get. cbv zeta. cbn [fst snd]. destruct (decide (state (f_tcb f) = Closed)) as [Hc|Hc].
  - apply wlp_bind. eapply wlp_mono; [apply read_loop_only|..]; intros bytes [f1 l1] [q E1]; cbn [fst] in E1; subst f1; [|by apply closed_receiving].
    apply wlp_bind. eapply wlp_mono; [by apply grow_receive_window_steady| |done]. intros _ [f2 l2] [W2 I2 T2 F2 S2 St2]. cbn [fst] in *.
    apply wlp_bind, wlp_on. cbn [fst snd]. unfold on_app_event, state_is. rewrite bool_decide_eq_true_2 by (rewrite St2; done).
    assert (set_f_tcb (f_tcb f2) f2 = f2) as -> by (by destruct f2). apply closed_receiving; [by apply W2|by eapply terms_ok_same|by rewrite St2].
  - destruct (L Hc) as [C L2 L3]. pose proof (rc_buffered _ _ _ _ _ _ _ _ _ C) as Cb. pose proof (rc_end _ _ _ _ _ _ _ _ _ C) as Ce. pose proof (rc_read _ _ _ _ _ _ _ _ _ C) as Cr.
    pose proof (wf_buffered _ W) as Wb. pose proof (wf_pending_len _ W) as Wp. set (amount := Z.min max_bytes (recv_buffered (f_tcb f))).
    assert (len (content (f_receive f)) = recv_buffered (f_tcb f)) as Lc by (rewrite Cb, len_sub; unfold taken_pos in *; lia).
    apply wlp_bind. eapply wlp_mono; [apply read_loop_ok; [done|apply C|change (len []) with 0; unfold amount; lia]| |done].
    intros bytes [f1 l1] (q & E1 & Hq & Eo & Lo). cbn [fst] in E1. cbn [app] in Eo. subst f1. apply wlp_bind. eapply wlp_mono; [by apply grow_receive_window_steady| |done].
    intros _ [f2 l2] [W2 I2 T2 F2 S2 St2]. cbn [fst] in *. apply wlp_bind, wlp_on. cbn [fst snd]. unfold on_app_event, state_is. rewrite bool_decide_eq_false_2 by (rewrite St2; done).
    pose proof (consumed_ok (timers_of (f_tcb f2)) (f_tcb f2) amount (W2 W) (timers_of_ok _) ltac:(unfold amount; lia)) as P.
    unfold rx_fields in F2. injection F2 as F1' F2' F3' F4'. cbn [f_receive set_f_receive] in F1'.
    destruct (on_consumed (f_tcb f2) amount) as [t' [acts|x| |]] eqn:Ec; try done.
    + apply wlp_ret. cbn [fst snd]. rewrite <- Lo in Ec.
      destruct (consumed_core r (f_tcb f2) (f_receive f) q bytes (f_pending_initial_receive f) (f_out_of_order f) (f_out_of_order_fin f) t' acts) as [Eb Cc]; try done.
      { by eapply core_same. } { by apply W2. } { intros Hs. rewrite St2 in Hs. by destruct (L3 Hs) as (_ & _ & ? & ?). }
      split; [done|]. pose proof (sp_wf _ _ _ _ _ P) as W'. destruct (consumed_same _ _ _ _ Ec (W2 W) (len_nonneg bytes)) as (Q1 & _).
      split; [|split; [cbn; by rewrite Q1, St2|by eapply consumed_answers]]. split; [|by eapply terms_ok_same]. split; [done|]. intros _. split; cbn; rewrite ?F1', ?F2', ?F3', ?F4'.
      * done.
      * unfold peer_receive_closed. rewrite Q1, St2. exact L2.
      * rewrite Q1, St2. intros Hs. destruct (L3 Hs) as (-> & Er & ? & ?). rewrite Er in Eo. apply app_nil in Eo as [-> Eo]. by rewrite (content_nil q Hq Eo).
    + exfalso. unfold on_consumed in Ec. pose proof (rs_buffered _ _ S2) as Eb. cbn in Eb. rewrite Eb in Ec.
      destruct (Z.ltb_spec (recv_buffered (f_tcb f)) amount); [unfold amount in *; lia|]. repeat case_match; done.
Qed.
End Read.
