(* ===== verification/TcpStream.v ===== *)
(** The receive side of the connection table [sail-netstack/src/tcp/table.rs] end to
    end: over any sequence of calls, the bytes the application reads from a flow are
    the bytes of its peer's stream, from the first on, in order and once each. *)
From S2P Require Import Prelude StateMonad Partial TcpSeq Congestion TcpTcb TcpInvariant TcpHandlers Budget IpWire TcpWire TcpFlow TcpTable TcpSegment TcpReceive TcpReceiveInv TcpReceiveFlow TcpReport TcpKeeps TcpReceiveTable TcpReceiveRead.
From stdpp Require Import list sets gmap.
#[local] Open Scope Z_scope.

(** ** The calls of the table *)
Inductive TcpCall : Type :=
| CallIngest (packet : list Z) (allow_new : bool) (now_ms outgoing_limit : Z)
| CallConnect (local remote : SocketAddr) (usable : SocketAddr -> bool)
| CallAccept (token : TcpFlowToken)
| CallReclaim (now_ms older_than_ms : Z)
| CallRead (token : TcpFlowToken) (max_bytes : Z)
| CallWrite (token : TcpFlowToken) (payload : list Z)
| CallClose (token : TcpFlowToken)
| CallRelease (token : TcpFlowToken)
| CallAbort (token : TcpFlowToken)
| CallAbortAll
| CallTimer (token : TcpFlowToken) (event : TimerEvent) (now_ms : Z)
| CallAdvanceClock (now_ms : Z)
| CallResetNetwork (generation : Z)
| CallSetLinkMtu (mtu : Z)
| CallLowerPathMtu (quoted_source quoted_destination : SocketAddr) (path_mtu : Z)
| CallLowerPlatformMtu (mtu : Z).

Section Calls.
Context (budget : ResourceBudget) (le : bool) (hash_port : SocketAddr * IpAddr * Z -> Z) (hash_offset : SocketAddr * SocketAddr -> Z)
  (hash_sequence : TcpFlowKey * Z -> Z) (iter : gmap TcpFlowKey TcpFlow -> list TcpFlowKey).

(** A call, and the bytes it hands to the application. *)
Definition call_table (c : TcpCall) : TM (list Z) :=
  match c with
  | CallIngest packet allow_new now_ms limit => _ ← ingest_with_policy_at_limit budget le hash_offset hash_sequence packet allow_new now_ms limit; mret []
  | CallConnect local remote usable => _ ← connect_using budget le hash_port hash_offset hash_sequence local remote usable; mret []
  | CallAccept token => _ ← accept token; mret []
  | CallReclaim now_ms older_than_ms => _ ← reclaim_stale_syn_received now_ms older_than_ms; mret []
  | CallRead token max_bytes => r ← tcp_read budget le token max_bytes; mret (rd_bytes r)
  | CallWrite token payload => _ ← tcp_write budget le token payload; mret []
  | CallClose token => _ ← tcp_close le token; mret []
  | CallRelease token => _ ← release_flow budget token; mret []
  | CallAbort token => _ ← abort le token; mret []
  | CallAbortAll => _ ← abort_all le iter; mret []
  | CallTimer token event now_ms => _ ← on_timer_at budget le token event now_ms; mret []
  | CallAdvanceClock now_ms => _ ← update_clock now_ms; mret []
  | CallResetNetwork generation => _ ← tcp_reset_network generation; mret []
  | CallSetLinkMtu mtu => _ ← on_tcp_table (fun t => set_t_config (with_link_mtu mtu (t_config t)) t); mret []
  | CallLowerPathMtu source destination mtu => _ ← lower_path_mtu source destination mtu; mret []
  | CallLowerPlatformMtu mtu => _ ← lower_platform_mtu mtu; mret []
  end.

(** The flow a token names. *)
Definition resolves (s : tstate) (token : TcpFlowToken) : option TcpFlowKey :=
  if tcp_is_owned_by token (t_generation s.1) (t_shard s.1) then t_by_id s.1 !! tt_flow token else None.
(** The call reads from the flow at [k]. *)
Definition reads_from (k : TcpFlowKey) (s : tstate) (c : TcpCall) : bool :=
  match c with CallRead token _ => bool_decide (resolves s token = Some k) | _ => false end.
(** The bytes of the flow at [k] that the call hands over. *)
Definition handed (k : TcpFlowKey) (s : tstate) (c : TcpCall) : list Z :=
  if reads_from k s c then match (call_table c s).2 with Ok bytes => bytes | _ => [] end else [].
End Calls.

Section Stream.
Context (S : list Z) (base : Z).
Abbreviation receiving := (receiving S base).

(** ** New flows *)
(** A SYN opens the stream at [base]; its data is the stream's first. *)
Definition opening_syn (s : TcpSegmentMeta) (payload : list Z) : Prop :=
  seq_add (sequence s) 1 = base /\ payload = sub S 0 (len payload) /\ len payload <= len S /\ (contains (flags s) FIN = true -> len payload = len S).

Lemma passive_receiving f s payload isn capacity mss scale acts : open_ok isn capacity mss scale -> segment_ok s -> payload_len s = len payload -> opening_syn s payload ->
  from_syn_with_options s isn capacity mss scale = Ok (f_tcb f, acts) -> f_receive f = [] -> f_out_of_order f = [] -> f_out_of_order_fin f = None ->
  match f_pending_initial_receive f with Some c => payload <> [] /\ rc_offset c = 0 /\ rc_bytes c = payload | None => payload = [] end -> terms_ok f -> receiving 0 f.
Proof.
  intros O Os L (B & P & Ls & Fn) E R1 R2 R3 Hi T. destruct (from_syn_ok _ _ _ _ _ _ _ E O Os) as [W _]. split; [|done]. split; [done|]. intros _.
  assert (recv_next (f_tcb f) = base /\ state (f_tcb f) = SynReceived /\ recv_buffered (f_tcb f) = 0 /\ pending_initial_payload_len (f_tcb f) = len payload /\
    active_open (f_tcb f) = false /\ (pending_initial_fin (f_tcb f) = true -> contains (flags s) FIN = true)) as (E1 & E2 & E3 & E4 & E5 & E6).
  { unfold from_syn_with_options in E. destruct (negb _ || _ || _); [done|]. destruct (capacity <? payload_len s); [done|].
    destruct (newreno_new mss); cbn [expect mbind outcome_bind mret outcome_ret] in E; [|done..]. injection E as <- _. tcb_goal. split_and!; try done. by intros [? _]%andb_true_iff. }
  assert (peer_receive_closed (f_tcb f) = false) as E7 by (unfold peer_receive_closed; by rewrite E2).
  split; rewrite ?R1, ?R2, ?R3, ?E7; [|done|congruence].
  split; unfold next_pos, taken_pos; rewrite ?E1, ?E2, ?E3, ?E4, ?E7; cbn; try done.
  - intros _. by rewrite <- B, seq_add_assoc.
  - intros H. by rewrite Fn by auto.
  - destruct (f_pending_initial_receive f) as [c|]; [|by rewrite Hi]. destruct Hi as (Hp & -> & ->). split; [done|]. split; [done|]. split; [|done].
    destruct payload; [done|]. unfold len. cbn [length]. lia.
  - by rewrite E5.
Qed.

Lemma active_receiving f isn capacity mss scale acts : open_ok isn capacity mss scale -> TcpTcb.connect isn capacity mss scale = Ok (f_tcb f, acts) ->
  f_receive f = [] -> f_out_of_order f = [] -> f_out_of_order_fin f = None -> f_pending_initial_receive f = None -> terms_ok f -> receiving 0 f.
Proof.
  intros O E R1 R2 R3 R4 T. destruct (connect_ok _ _ _ _ O) as (t & acts2 & E' & W & _). rewrite E in E'. injection E' as <- <-. split; [|done]. split; [done|]. intros _.
  assert (state (f_tcb f) = SynSent /\ recv_buffered (f_tcb f) = 0 /\ pending_initial_payload_len (f_tcb f) = 0 /\ pending_initial_fin (f_tcb f) = false) as (E2 & E3 & E4 & E5).
  { unfold TcpTcb.connect in E. destruct (newreno_new mss); cbn [expect mbind outcome_bind mret outcome_ret] in E; [|done..]. by injection E as <- _. }
  assert (peer_receive_closed (f_tcb f) = false) as E7 by (unfold peer_receive_closed; by rewrite E2). pose proof (len_nonneg S).
  split; rewrite ?R1, ?R2, ?R3, ?R4, ?E7; [|done|done].
  split; unfold next_pos, taken_pos; rewrite ?E2, ?E3, ?E4, ?E5, ?E7; cbn; try done.
Qed.
(** ** A call *)
Section Run.
Context (budget : ResourceBudget) (le : bool) (hash_port : SocketAddr * IpAddr * Z -> Z) (hash_offset : SocketAddr * SocketAddr -> Z)
  (hash_sequence : TcpFlowKey * Z -> Z) (iter : gmap TcpFlowKey TcpFlow -> list TcpFlowKey) (k : TcpFlowKey) (family : one_family k).
Abbreviation call := (call_table budget le hash_port hash_offset hash_sequence iter).
Abbreviation stream_ok r := (holds_at k (receiving r)).

(** A segment that arrives for [k] when [r] bytes were read: a SYN opens the stream,
    any other segment but a reset carries some of it, from within 2^30 of RCV.NXT. *)
Definition peer_segment (r : Z) (flow : option TcpFlow) (s : TcpSegmentMeta) (payload : list Z) : Prop :=
  match flow with
  | None => is_initial_syn s = true -> opening_syn s payload
  | Some f =>
    (state (f_tcb f) = SynSent -> contains (flags s) SYN = true -> seq_add (sequence s) 1 = base) /\
    (contains (flags s) SYN = false -> contains (flags s) RST = false ->
       exists q, seg_at S base q s payload /\ - 1073741824 < q - next_pos r (f_tcb f) < 1073741824) /\
    (accepts_final_ack (f_tcb f) s = true -> clean_final_ack f payload)
  end.

(** What a caller gives: bytes, counts, and the peer's segments. *)
Definition call_ok (r : Z) (s : tstate) (c : TcpCall) : Prop :=
  match c with
  | CallIngest packet _ _ _ =>
    bytes_ok packet /\
    forall ip segment, parse_ip_packet le packet true = Ok ip -> parse_tcp_segment le ip true = Ok segment ->
      mkTcpFlowKey (tcp_source segment) (tcp_destination segment) (t_generation s.1) = k ->
      peer_segment r (t_by_key s.1 !! k) (tcp_meta segment) (tcp_payload segment)
  | CallRead _ max_bytes => 0 <= max_bytes
  | _ => True
  end.

Lemma parsed_segment_ok ip segment : tcp_parsed_ok ip segment -> len (payload ip) <= u16_max ->
  segment_ok (tcp_meta segment) /\ 0 <= window (tcp_meta segment) <= u16_max /\ payload_len (tcp_meta segment) = len (tcp_payload segment) /\
  (contains (flags (tcp_meta segment)) ACK = true -> is_Some (acknowledgment (tcp_meta segment))).
Proof.
  intros [T1 T2 T3 T4 T5 T6 T7 (n & Hn & Hl & Ep & El)] L. unfold is_u16 in *. split_and!; try done; try apply T6.
  - split; [done|by destruct (acknowledgment _); [destruct T4|]|unfold MAX_WINDOW, u16_max in *; lia|]. rewrite El, Ep, len_sub by lia. unfold u16_max in *. lia.
  - destruct (acknowledgment _); [done|congruence].
Qed.

(** A packet of a flow in the table. *)
Lemma ingest_known_ok r key f (s s1 : tstate) segment limit : stream_ok r s1 -> t_by_key s.1 !! key = Some f -> t_by_key s1.1 = t_by_key s.1 -> options_ok (tcp_options segment) ->
  segment_ok (tcp_meta segment) -> 0 <= window (tcp_meta segment) <= u16_max -> payload_len (tcp_meta segment) = len (tcp_payload segment) ->
  (contains (flags (tcp_meta segment)) ACK = true -> is_Some (acknowledgment (tcp_meta segment))) ->
  (key = k -> peer_segment r (t_by_key s.1 !! k) (tcp_meta segment) (tcp_payload segment)) ->
  wlp (if state_is (f_tcb f) SynSent then ingest_syn_sent budget le key (tcp_meta segment) (tcp_options segment)
       else ingest_existing budget le key (tcp_meta segment) (tcp_options segment) (tcp_payload segment) limit) s1 (fun _ => stream_ok r) (fun _ => stream_ok r).
Proof.
  intros J Ef E1 Oo Os Ow Ol Oa Hp. destruct (decide (key = k)) as [-> |N].
  - rewrite Ef in Hp. destruct (Hp eq_refl) as (Hsyn & Hst & Hcl). rewrite <- E1 in Ef. destruct J as [C J]. pose proof (J f Ef) as R. destruct s1 as [t l]. cbn [fst] in *.
    unfold state_is. case_bool_decide as St; [apply ingest_syn_sent_ok with f; auto|]. apply ingest_existing_ok with f; auto. split; auto. split; auto.
  - case_match; [apply ingest_syn_sent_other|apply ingest_existing_other]; try done; try apply receiving_quiet; apply receiving_terms.
Qed.

Lemma ingest_ok r packet allow_new now_ms limit s : stream_ok r s -> (t_by_key s.1 !! k = None -> r = 0) -> call_ok r s (CallIngest packet allow_new now_ms limit) ->
  wlp (ingest_with_policy_at_limit budget le hash_offset hash_sequence packet allow_new now_ms limit) s (fun _ => stream_ok r) (fun _ => stream_ok r).
Proof.
  intros J H0 [Hb Hp]. unfold ingest_with_policy_at_limit. apply wlp_bind. unfold update_clock. apply wlp_bind, wlp_get.
  apply wlp_if; intros _; [by apply wlp_throw|]. apply wlp_modify. set (s1 := (set_t_now_ms now_ms s.1, s.2)).
  assert (stream_ok r s1) as J1 by exact J. apply wlp_bind, wlp_on. destruct (parse_ip_packet le packet true) as [ip| | |] eqn:Eip; try done.
  pose proof (runs_ok _ _ _ (parse_ip_packet_runs le packet true Hb) Eip) as Pi. pose proof (parse_tcp_segment_runs le packet true true ip Hb Eip) as Pt.
  apply wlp_bind, wlp_on. destruct (parse_tcp_segment le ip true) as [segment| | |] eqn:Et; try done. pose proof (runs_ok _ _ _ Pt eq_refl) as Po. clear Pt.
  assert (len (payload ip) <= u16_max) as Lp by (pose proof (po_size _ _ Pi); unfold u16_max; destruct (version ip); lia).
  destruct (parsed_segment_ok ip segment Po Lp) as (Os & Ow & Ol & Oa). pose proof (tp_options _ _ Po) as Oo. specialize (Hp ip segment eq_refl Et). cbv zeta.
  apply wlp_if; intros _; [by apply wlp_ret|]. apply wlp_bind, wlp_get. cbn [fst snd] in *. change (t_generation s1.1) with (t_generation s.1). change (t_by_key s1.1) with (t_by_key s.1).
  set (key := mkTcpFlowKey _ _ _) in *. assert (t_by_key s1.1 = t_by_key s.1) as E1 by done. clearbody key s1. destruct (t_by_key s.1 !! key) as [f|] eqn:Ef; [by eapply ingest_known_ok|].
  case_match; [by apply ingest_time_wait_keeps|]. destruct (is_initial_syn (tcp_meta segment)) eqn:Hs; [|by apply reject_unknown_keeps].
  apply wlp_if; intros _; [by apply wlp_throw|]. apply wlp_bind. eapply wlp_mono; [by apply allow_with_keeps| |done]. intros allowed s2 J2.
  apply wlp_if; intros _; [by apply wlp_ret|].
  assert (keeps k (receiving r) (ingest_new budget le hash_offset hash_sequence key (tcp_meta segment) (tcp_options segment) (tcp_payload segment))) as K.
  { apply ingest_new_keeps; [apply receiving_quiet|done|]. intros -> f isn capacity mss scale acts O E (B1 & B2 & B3 & B4) Hi. rewrite Ef in Hp. rewrite (H0 Ef).
    by apply (passive_receiving f (tcp_meta segment) (tcp_payload segment) isn capacity mss scale acts); try apply Hp. }
  apply wlp_bind. eapply wlp_mono; [by apply K| |done]. intros output s3 J3.
  apply wlp_bind. eapply wlp_mono; [by apply (end_time_wait_keeps k (receiving r))| |done]. by intros ended s4 J4.
Qed.
Lemma read_ok r token max_bytes s : stream_ok r s -> 0 <= max_bytes ->
  wlp (tcp_read budget le token max_bytes) s
    (fun out s' => if bool_decide (resolves s token = Some k) then rd_bytes out = sub S r (r + len (rd_bytes out)) /\ stream_ok (r + len (rd_bytes out)) s' else stream_ok r s')
    (fun _ => stream_ok r).
Proof.
  intros J Hm. assert (forall s', stream_ok r s' -> [] = sub S r (r + len (@nil Z)) /\ stream_ok (r + len (@nil Z)) s') as H0
    by (intros s' J'; change (len []) with 0; rewrite Z.add_0_r; split; [by rewrite sub_empty|done]).
  unfold tcp_read. apply wlp_bind, wlp_bind, wlp_get. unfold resolves. destruct (tcp_is_owned_by token (t_generation s.1) (t_shard s.1)); cbn [negb]; [|by apply wlp_throw].
  destruct (t_by_id s.1 !! tt_flow token) as [key|]; [|by apply wlp_throw]. apply wlp_ret.
  assert (forall out s', rd_bytes out = [] -> stream_ok r s' -> if bool_decide (Some key = Some k) then rd_bytes out = sub S r (r + len (rd_bytes out)) /\ stream_ok (r + len (rd_bytes out)) s' else stream_ok r s') as Hn
    by (intros out s' -> J'; case_match; [by apply H0|done]).
  apply wlp_if; intros _; [apply wlp_ret; by apply Hn|]. apply wlp_bind, wlp_get. destruct (t_by_key s.1 !! key) as [f|] eqn:Ef.
  2: { apply wlp_if; intros _; [apply wlp_ret; by apply Hn|by apply wlp_throw]. }
  case_bool_decide as Hk; [injection Hk as ->|].
  - destruct s as [t l]. destruct J as [C J]. apply wlp_bind. eapply wlp_with_flow; [exact Ef|]. eapply wlp_mono; [by apply (read_flow_ok S base); [|apply J]|..].
    + intros [bytes acts] [f' l'] (Eb & R & Hc & Ha). cbn [fst snd] in *. apply wlp_bind. set (t1 := set_t_by_key _ t).
      assert (t_by_key t1 !! k = Some f') as E1 by apply lookup_insert_eq.
      pose proof (render_answers S base (r + len bytes) le k family (f_id f) acts f' no_ingress t1 l' Ha E1 (proj2 (proj1 R) Hc) (proj1 (proj1 R)) Hc) as H1.
      pose proof (render_actions_keeps le k (receiving (r + len bytes)) (receiving_quiet S base _) k (f_id f) acts (t1, l') (stream_ok_set S base k _ f' t l' C R)) as H2.
      unfold render_actions in *. unfold wlp in H1, H2 |- *. destruct (render_loop le k (f_id f) acts no_ingress (t1, l')) as [s' [o|e| |]]; done.
    + intros e [f' l'] R. by apply stream_ok_set.
  - apply wlp_bind. assert (key <> k) as N by congruence.
    eapply wlp_mono; [apply (keeps_with_flow k (receiving r)); [apply receiving_quiet|by intros ->|exact J]| |done]. intros out s' J'. apply wlp_bind.
    eapply wlp_mono; [by apply (render_actions_keeps le k (receiving r) (receiving_quiet S base _))| |done]. done.
Qed.
Lemma then_nothing {A} r (m : TM A) s : wlp m s (fun _ => stream_ok r) (fun _ => stream_ok r) -> wlp (_ ← m; mret (@nil Z)) s (fun _ => stream_ok r) (fun _ => stream_ok r).
Proof. intros H. apply wlp_bind. by eapply wlp_mono; [exact H|..]. Qed.

(** Any call: what it hands over continues the stream. *)
Lemma call_ok_keeps r c s : stream_ok r s -> (t_by_key s.1 !! k = None -> r = 0) -> call_ok r s c ->
  wlp (call c) s (fun _ s' => stream_ok (r + len (handed budget le hash_port hash_offset hash_sequence iter k s c)) s') (fun _ => stream_ok r) /\
  handed budget le hash_port hash_offset hash_sequence iter k s c = sub S r (r + len (handed budget le hash_port hash_offset hash_sequence iter k s c)) /\
  (match (call c s).2 with Ok _ => True | _ => handed budget le hash_port hash_offset hash_sequence iter k s c = [] end).
Proof.
  intros J H0 Hc. assert (reads_from k s c = false -> wlp (call c) s (fun _ => stream_ok r) (fun _ => stream_ok r)) as K.
  { intros Er. destruct c; cbn [call_table reads_from] in *; try (apply then_nothing).
    - by apply ingest_ok.
    - apply connect_using_keeps; [apply receiving_quiet|done|]. intros Hn f isn capacity mss scale acts O E (B1 & B2 & B3 & B4) Hi. rewrite (H0 Hn).
      by eapply active_receiving.
    - by apply accept_keeps; [apply receiving_quiet|].
    - by apply reclaim_keeps.
    - pose proof (read_ok r token max_bytes s J Hc) as H. rewrite Er in H. apply wlp_bind. eapply wlp_mono; [exact H|done|done].
    - by apply tcp_write_keeps; [apply receiving_quiet|].
    - by apply tcp_close_keeps; [apply receiving_quiet|].
    - by apply release_flow_keeps; [apply receiving_quiet|].
    - by apply abort_keeps; [apply receiving_quiet|].
    - by apply abort_all_keeps; [apply receiving_quiet|].
    - by apply on_timer_at_keeps; [apply receiving_quiet|apply receiving_terms|].
    - by apply update_clock_keeps.
    - by apply tcp_reset_network_keeps.
    - by apply wlp_modify.
    - by apply lower_path_mtu_keeps; [apply receiving_quiet|].
    - by apply lower_platform_mtu_keeps; [apply receiving_quiet|]. }
  unfold handed. destruct (reads_from k s c) eqn:Er.
  - destruct c as [| | | |token max_bytes| | | | | | | | | | |]; try done. pose proof (read_ok r token max_bytes s J Hc) as H. cbn [reads_from] in Er.
    rewrite Er in H. cbn [call_table]. unfold wlp in H |- *. unfold mbind, sm_bind. destruct (tcp_read budget le token max_bytes s) as [s' [out|e| |]]; cbn [snd];
      [destruct H as [H1 H2]; by split_and!|..]; change (len []) with 0; rewrite Z.add_0_r, sub_empty; done.
  - change (len []) with 0. rewrite Z.add_0_r, sub_empty. split; [by apply K|]. split; [done|]. by destruct ((call c s).2).
Qed.
(** ** Runs *)
Definition returned {E A} (o : outcome E A) : Prop := match o with Ok _ | Err _ => True | _ => False end.

(** A sequence of calls, from before the flow at [k] was made and while it is in the
    table; [got] is what the application read from it. *)
Inductive stream_run : list Z -> tstate -> Prop :=
| run_start t l : config_ok (t_config t) -> t_by_key t !! k = None -> stream_run [] (t, l)
| run_call got s c : stream_run got s -> call_ok (len got) s c -> got = [] \/ is_Some (t_by_key s.1 !! k) -> returned (call c s).2 ->
    stream_run (got ++ handed budget le hash_port hash_offset hash_sequence iter k s c) (call c s).1.

Lemma stream_run_ok got s : stream_run got s -> got = sub S 0 (len got) /\ stream_ok (len got) s.
Proof.
  induction 1 as [t l C N|got s c R [E J] Hc Hp Hr].
  - split; [by rewrite sub_empty|]. split; [done|]. intros f. cbn. by rewrite N.
  - destruct (call_ok_keeps (len got) c s J) as (K & Eh & He); [|done|].
    { intros N. destruct Hp as [-> |[f Hf]]; [done|congruence]. }
    set (h := handed _ _ _ _ _ _ _ _ _) in *. pose proof (len_nonneg got). pose proof (len_nonneg h). rewrite len_app. split.
    + rewrite <- (sub_join S 0 (len got)) by lia. by rewrite <- E, <- Eh.
    + unfold wlp in K. destruct (call c s) as [s' [out|e| |]]; try done. cbn [fst snd] in *. rewrite He. change (len []) with 0. by rewrite Z.add_0_r.
Qed.
End Run.
End Stream.

Lemma sub_prefix (l : list Z) n : sub l 0 n `prefix_of` l.
Proof. unfold sub. apply prefix_take. Qed.

(** What was read and what is buffered. *)
Lemma taken_at S base r t receive initial queue fin got : rx_core S base 1 r t receive initial queue fin -> tcb_wf t -> r = len got -> got = sub S 0 r ->
  got ++ content receive = sub S 0 (taken_pos r t) /\ len (got ++ content receive) = taken_pos r t.
Proof.
  intros C W -> E. pose proof (wf_buffered _ W). pose proof (wf_pending_len _ W). pose proof (rc_end _ _ _ _ _ _ _ _ _ C). pose proof (len_nonneg got).
  assert (got ++ content receive = sub S 0 (taken_pos (len got) t)) as Eq.
  { rewrite (rc_buffered _ _ _ _ _ _ _ _ _ C), <- (sub_join S 0 (len got)) by (unfold taken_pos; lia). by rewrite <- E. }
  split; [done|]. rewrite Eq, len_sub by (unfold taken_pos in *; lia). lia.
Qed.

(** C1: Stream fidelity of the receive side, through the whole connection table.  Take
    any sequence of calls of the table that return (packets in any order, lost,
    repeated or overlapping; reads, writes, closes, aborts, timers, resets and MTU
    changes, of this flow and of others; with the shared budget in any state, so that
    any acquisition may fail), while the flow at [k] is in the table.  The segments
    that reach it are its peer's ([peer_segment]): they carry bytes of one stream,
    start within 2^30 of RCV.NXT, and the payload of the ACK that completes a passive
    handshake stays within the announced window and below what is queued out of order
    ([clean_final_ack]; [TcpFinalAck.v] runs what the code does otherwise).  What the
    application has read from the flow is then a prefix of the peer's stream: in
    order, nothing missing, nothing twice.  So is that with what is buffered; RCV.NXT,
    which every ACK carries, is exactly its end, with the FIN; and once the peer's FIN
    was taken it is the whole stream. *)
Theorem reads_are_the_stream S base budget le hash_port hash_offset hash_sequence iter k got s :
  one_family k -> stream_run S base budget le hash_port hash_offset hash_sequence iter k got s ->
  got `prefix_of` S /\
  forall f, t_by_key s.1 !! k = Some f -> state (f_tcb f) <> Closed -> state (f_tcb f) <> SynSent ->
    let taken := got ++ content (f_receive f) in
    taken `prefix_of` S /\ recv_next (f_tcb f) = seq_add base (len taken + b2z (peer_receive_closed (f_tcb f))) /\
    (peer_receive_closed (f_tcb f) = true -> taken = S).
Proof.
  intros Hf R. destruct (stream_run_ok S base budget le hash_port hash_offset hash_sequence iter k Hf got s R) as [E [_ J]]. split; [rewrite E; apply sub_prefix|].
  intros f Ef Hc Hs taken. destruct (J f Ef) as [[W L] _]. pose proof (rl_core _ _ _ _ (L Hc)) as C. destruct (taken_at S base (len got) (f_tcb f) _ _ _ _ got C W eq_refl E) as [Et Lt]. fold taken in Et, Lt.
  split; [rewrite Et; apply sub_prefix|]. split; [rewrite Lt; by apply (rc_next _ _ _ _ _ _ _ _ _ C)|]. intros Hp.
  assert (synchronized (state (f_tcb f))) as Sy by (unfold peer_receive_closed in Hp; by destruct (state (f_tcb f))).
  pose proof (rc_fin _ _ _ _ _ _ _ _ _ C) as Ce. rewrite Hp, (proj1 (synchronized_pending _ W Sy)), Z.add_0_r in Ce. rewrite Et, (Ce eq_refl). apply sub_all.
Qed.

Lemma lookup_sub (l : list Z) a b p : 0 <= a <= p -> p < b -> sub l a b !! Z.to_nat (p - a) = l !! Z.to_nat p.
Proof. intros. unfold sub. rewrite lookup_take_lt, lookup_drop by lia. f_equal. lia. Qed.

(** C2: A flow never reports what it does not hold (RFC 2018).  In any run as above, of
    calls that return and of segments of the peer that start within 2^30 of RCV.NXT,
    the ACK that completes the handshake within the announced window and below what is
    queued ([clean_final_ack]), every SACK block the flow at [k] puts into its segments
    names a range of the peer's stream strictly beyond everything it acknowledges, and
    each byte of the range is in its out-of-order queue with the value the peer
    sent. *)
Theorem reported_blocks_are_held S base budget le hash_port hash_offset hash_sequence iter k got s f limit b :
  one_family k -> stream_run S base budget le hash_port hash_offset hash_sequence iter k got s ->
  t_by_key s.1 !! k = Some f -> state (f_tcb f) <> Closed -> b ∈ receive_sack_blocks f limit ->
  exists x y, b = (seq_add base x, seq_add base y) /\ len (got ++ content (f_receive f)) < x < y /\ y <= len S /\
    forall p, x <= p < y -> exists c, c ∈ f_out_of_order f /\ oc_bytes c !! Z.to_nat (distance_from (seq_add base p) (oc_sequence c)) = S !! Z.to_nat p.
Proof.
  intros Hf R Ef Hc Hb. destruct (stream_run_ok S base budget le hash_port hash_offset hash_sequence iter k Hf got s R) as [E [_ J]].
  destruct (J f Ef) as [[W L] _]. pose proof (rl_core _ _ _ _ (L Hc)) as C. destruct (taken_at S base (len got) (f_tcb f) _ _ _ _ got C W eq_refl E) as [_ ->].
  pose proof (core_positions _ _ _ _ _ _ _ _ _ C W Hc) as Pos. pose proof (rc_read _ _ _ _ _ _ _ _ _ C). unfold MAX_WINDOW in *.
  destruct (receive_blocks_held S base (next_pos (len got) (f_tcb f) + Z.max 1 (held (f_tcb f))) (edge_pos (len got) (f_tcb f)) f limit) as [Hh _];
    [unfold MAX_WINDOW; lia|apply C|].
  destruct (proj1 (Forall_forall _ _) Hh b Hb) as (x & y & -> & Hx & Hy & Hp). exists x, y. split; [done|]. split; [lia|]. split; [lia|].
  intros p Hpx. destruct (Hp p Hpx) as (c & Hin & z & Ez & Hz & Hl & Bz). exists c. split; [done|]. rewrite Ez, distance_ahead, Bz by lia. apply lookup_sub; lia.
Qed.

(** ** A run *)
(** The hypotheses of a run, decided: [q] is where a segment starts. *)
Definition seg_at_b (S : list Z) (base q : Z) (s : TcpSegmentMeta) (payload : list Z) : bool :=
  (sequence s =? seq_add base q) && (0 <=? q) && (payload_len s =? len payload) && bool_decide (payload = sub S q (q + len payload)) &&
  (q + len payload <=? len S) && (negb (contains (flags s) FIN) || (q + len payload =? len S)).
Definition clean_b (f : TcpFlow) (payload : list Z) : bool :=
  (held (f_tcb f) + len payload <=? open_window (f_tcb f)) &&
  forallb (fun c => held (f_tcb f) + len payload <=? distance_from (oc_sequence c) (recv_next (f_tcb f))) (f_out_of_order f).
Definition peer_segment_b (S : list Z) (base r q : Z) (flow : option TcpFlow) (s : TcpSegmentMeta) (payload : list Z) : bool :=
  match flow with
  | None =>
    (seq_add (sequence s) 1 =? base) && bool_decide (payload = sub S 0 (len payload)) && (len payload <=? len S) &&
    (negb (contains (flags s) FIN) || (len payload =? len S))
  | Some f =>
    (negb (state_is (f_tcb f) SynSent) || (seq_add (sequence s) 1 =? base)) &&
    seg_at_b S base q s payload && (- 1073741824 <? q - next_pos r (f_tcb f)) && (q - next_pos r (f_tcb f) <? 1073741824) &&
    (negb (accepts_final_ack (f_tcb f) s) || clean_b f payload)
  end.

Lemma implied_true (a b : bool) : negb a || b = true -> a = true -> b = true.
Proof. by destruct a. Qed.

Lemma peer_segment_b_ok S base r q flow s payload : peer_segment_b S base r q flow s payload = true -> peer_segment S base r flow s payload.
Proof.
  unfold peer_segment_b, seg_at_b, peer_segment, opening_syn. destruct flow as [f|].
  - rewrite !andb_true_iff. intros ((((H1 & (((((Q1 & Q2) & Q3) & Q4) & Q5) & Q6)) & H2) & H3) & H4). split; [|split].
    + intros St _. apply Z.eqb_eq. apply (implied_true _ _ H1). unfold state_is. by apply bool_decide_eq_true.
    + intros _ _. exists q. split; [|lia]. split; try lia; [by apply bool_decide_eq_true in Q4|]. intros Hf. pose proof (implied_true _ _ Q6 Hf). lia.
    + intros Ha. apply (implied_true _ _ H4) in Ha. apply andb_true_iff in Ha as [C1 C2]. split; [lia|]. apply Forall_forall. intros c Hc.
      rewrite forallb_forall in C2. apply Z.leb_le, C2. by apply list_elem_of_In.
  - rewrite !andb_true_iff. intros (((H1 & H2) & H3) & H4) _. split; [lia|]. split; [by apply bool_decide_eq_true in H2|]. split; [lia|].
    intros Hf. pose proof (implied_true _ _ H4 Hf). lia.
Qed.

(** A script of calls, each with the position of the segment it brings. *)
Section Script.
Context (S : list Z) (base : Z) (budget : ResourceBudget) (le : bool) (hash_port : SocketAddr * IpAddr * Z -> Z) (hash_offset : SocketAddr * SocketAddr -> Z)
  (hash_sequence : TcpFlowKey * Z -> Z) (iter : gmap TcpFlowKey TcpFlow -> list TcpFlowKey) (k : TcpFlowKey).

Definition call_ok_b (r q : Z) (s : tstate) (c : TcpCall) : bool :=
  match c with
  | CallIngest packet _ _ _ =>
    forallb (fun b => (0 <=? b) && (b <=? 255)) packet &&
    match (ip ← parse_ip_packet le packet true; parse_tcp_segment le ip true) with
    | Ok segment => peer_segment_b S base r q (t_by_key s.1 !! k) (tcp_meta segment) (tcp_payload segment)
    | _ => true
    end
  | CallRead _ max_bytes => 0 <=? max_bytes
  | _ => true
  end.
Fixpoint play (script : list (TcpCall * Z)) (got : list Z) (s : tstate) : option (list Z * tstate) :=
  match script with
  | [] => Some (got, s)
  | (c, q) :: script =>
    let '(s', o) := call_table budget le hash_port hash_offset hash_sequence iter c s in
    if call_ok_b (len got) q s c && (bool_decide (got = []) || bool_decide (is_Some (t_by_key s.1 !! k))) && match o with Ok _ | Err _ => true | _ => false end
    then play script (got ++ handed budget le hash_port hash_offset hash_sequence iter k s c) s' else None
  end.

Lemma call_ok_b_ok r q s c : call_ok_b r q s c = true -> call_ok S base le k r s c.
Proof.
  destruct c; cbn [call_ok_b call_ok]; try done; [|lia]. rewrite andb_true_iff. intros [Hb Hp]. split.
  - rewrite forallb_forall in Hb. apply Forall_forall. intros b Hx. apply list_elem_of_In, Hb in Hx. unfold is_u8. lia.
  - intros ip segment E1 E2 _. rewrite E1 in Hp. cbn [mbind outcome_bind] in Hp. rewrite E2 in Hp. by eapply peer_segment_b_ok.
Qed.

Lemma play_runs script : forall got s got' s', stream_run S base budget le hash_port hash_offset hash_sequence iter k got s -> play script got s = Some (got', s') ->
  stream_run S base budget le hash_port hash_offset hash_sequence iter k got' s'.
Proof.
  induction script as [|[c q] script IH]; intros got s got' s' R E; cbn [play] in E; [by simplify_eq|].
  destruct (call_table _ _ _ _ _ _ c s) as [s1 o] eqn:Ec. destruct (call_ok_b (len got) q s c) eqn:Ho; [|done]. destruct (bool_decide (got = []) || _) eqn:Hp; [|done].
  assert (returned o) as Hr by (by destruct o). assert (match o with Ok _ | Err _ => true | _ => false end = true) as Ht by (by destruct o). rewrite Ht in E. cbn [andb] in E.
  eapply IH; [|exact E]. replace s1 with (call_table budget le hash_port hash_offset hash_sequence iter c s).1 by (by rewrite Ec).
  apply run_call; [done|by eapply call_ok_b_ok| |by rewrite Ec]. apply orb_true_iff in Hp as [Hp|Hp]; apply bool_decide_eq_true in Hp; auto.
Qed.
End Script.

(** A peer sends eleven bytes whose numbers wrap around 2^32: the last five come first,
    then the first eight, then the FIN with data that was there; the application
    reads in between. *)
Definition peer : SocketAddr := mkSocketAddr (V4 [10; 0; 0; 1]) 1000.
Definition here : SocketAddr := mkSocketAddr (V4 [10; 0; 0; 2]) 443.
Definition stream_key : TcpFlowKey := mkTcpFlowKey peer here 1.
Definition sent : list Z := [104; 101; 108; 108; 111; 32; 119; 111; 114; 108; 100].
Definition peer_isn : Z := 4294967290.
Definition from_peer (q flags : Z) (payload : list Z) : list Z :=
  match emit_tcp_segment true peer here (mkControl (seq_add peer_isn q) (if contains flags ACK then 1001 else 0) flags 65535) payload 64 7 with Ok p => p | _ => [] end.
Definition arrival (q flags a b : Z) : TcpCall * Z := (CallIngest (from_peer (q + a) flags (sub sent a b)) true 0 usize_max, a).
Definition stream_script : list (TcpCall * Z) :=
  [(CallIngest (from_peer 0 SYN []) true 0 usize_max, 0); arrival 1 ACK 0 0; (CallAccept (mkTcpFlowToken 0 1 0), 0); arrival 1 ACK 6 11;
   (CallRead (mkTcpFlowToken 0 1 0) 100, 0); arrival 1 ACK 0 8; (CallRead (mkTcpFlowToken 0 1 0) 4, 0); (CallWrite (mkTcpFlowToken 0 1 0) [33], 0);
   arrival 1 (union_flags FIN ACK) 9 11; arrival 1 ACK 0 8; (CallRead (mkTcpFlowToken 0 1 0) 100, 0)].
Abbreviation stream_play run := (run sent (seq_add peer_isn 1) (Budget.budget Desktop) true (fun _ => 0) (fun _ => 0) (fun _ => 1000) (fun m => fst <$> map_to_list m) stream_key).
Definition stream_played (script : list (TcpCall * Z)) : option (list Z * tstate) :=
  match tcp_new_on_shard 1 0 tcp_default_config with Ok t => stream_play play script [] (t, ledger_new) | _ => None end.

Lemma stream_played_runs script got s : stream_played script = Some (got, s) -> stream_play stream_run got s.
Proof.
  unfold stream_played. destruct (tcp_new_on_shard 1 0 tcp_default_config) as [t| | |] eqn:Et; [|discriminate..]. intros E.
  eapply play_runs; [|exact E]. clear E. apply run_start; injection Et as <-; done.
Qed.

Lemma reads_are_the_stream_witness : exists s f, one_family stream_key /\ stream_play stream_run sent s /\ t_by_key s.1 !! stream_key = Some f /\ state (f_tcb f) = CloseWait /\
  recv_next (f_tcb f) = seq_add (seq_add peer_isn 1) (len sent + 1) /\ sent ++ content (f_receive f) = sent.
Proof.
  assert (match stream_played stream_script with Some (got, s) => got = sent /\ match t_by_key s.1 !! stream_key with Some f => state (f_tcb f) = CloseWait | None => False end | None => False end) as H
    by (vm_compute; split; reflexivity).
  destruct (stream_played stream_script) as [[got s]|] eqn:E; [|by destruct H]. apply stream_played_runs in E as R. clear E. destruct H as [-> H].
  destruct (t_by_key s.1 !! stream_key) as [f|] eqn:Ef; [|by destruct H]. exists s, f.
  destruct (reads_are_the_stream _ _ _ _ _ _ _ _ stream_key sent s I R) as [_ T]. destruct (T f Ef) as (_ & Hn & Ht); [congruence..|].
  assert (peer_receive_closed (f_tcb f) = true) as Hp by (unfold peer_receive_closed; by rewrite H). rewrite (Ht Hp), Hp in Hn.
  split; [exact I|]. split; [exact R|]. split; [exact Ef|]. split; [exact H|]. split; [exact Hn|exact (Ht Hp)].
Defined.

(** After the last five bytes came first, with a flow that settled SACK. *)
Definition sacking_syn : list Z :=
  match emit_tcp_segment_with_options true peer here (mkControl peer_isn 0 SYN 65535) [4; 2; 1; 1] [] 64 7 with Ok p => p | _ => [] end.
Definition sack_script : list (TcpCall * Z) :=
  [(CallIngest sacking_syn true 0 usize_max, 0); arrival 1 ACK 0 0; arrival 1 ACK 6 8; arrival 1 ACK 8 11].

Lemma reported_blocks_are_held_witness : exists s f, stream_play stream_run [] s /\ t_by_key s.1 !! stream_key = Some f /\
  receive_sack_blocks f 4 = [(seq_add peer_isn 7, seq_add peer_isn 12)] /\
  exists x y, (seq_add peer_isn 7, seq_add peer_isn 12) = (seq_add (seq_add peer_isn 1) x, seq_add (seq_add peer_isn 1) y) /\ len ([] ++ content (f_receive f)) < x < y /\ y <= len sent /\
    forall p, x <= p < y -> exists c, c ∈ f_out_of_order f /\ oc_bytes c !! Z.to_nat (distance_from (seq_add (seq_add peer_isn 1) p) (oc_sequence c)) = sent !! Z.to_nat p.
Proof.
  assert (match stream_played sack_script with
          | Some (got, s) => got = [] /\ match t_by_key s.1 !! stream_key with
              | Some f => f_sack_permitted f = true /\ state (f_tcb f) = Established /\ receive_sack_blocks f 4 = [(seq_add peer_isn 7, seq_add peer_isn 12)]
              | None => False end
          | None => False end) as H by (vm_compute; repeat split).
  destruct (stream_played sack_script) as [[got s]|] eqn:E; [|by destruct H]. apply stream_played_runs in E as R. clear E. destruct H as [-> H].
  destruct (t_by_key s.1 !! stream_key) as [f|] eqn:Ef; [|by destruct H]. destruct H as (_ & Hs & Hb). exists s, f. split; [exact R|]. split; [exact Ef|]. split; [exact Hb|].
  eapply (reported_blocks_are_held _ _ _ _ _ _ _ _ stream_key [] s f 4); [exact I|exact R|exact Ef|by rewrite Hs|rewrite Hb; constructor].
Defined.
