(* ===== verification/TcpFinalAck.v ===== *)
(** The final ACK of the handshake in [sail-netstack/src/tcp/table.rs]: why
    [TcpStream.v] asks for [clean_final_ack].  [normalize_receive_segment] does not
    trim it, and the two runs below show what an ACK that needs it leaves. *)
From S2P Require Import Prelude StateMonad TcpSeq TcpTcb Budget IpWire TcpWire TcpFlow TcpTable TcpStream.
From stdpp Require Import list sets gmap.
#[local] Open Scope Z_scope.

(** A receive credit that the window scale does not divide: 1001 bytes, of which 992
    are announced. *)
Definition scaled_config : TcpTableConfig :=
  mkTcpTableConfig 1001 (Some 1000000) None 1200 None 60000 60000 40 1000 60000 None 75000 1 4096 1 4096 10 100 10 100 64 9 false 12 (Some 2) OverflowDrop.
Definition long_stream : list Z := (fun i => i mod 251) <$> seqZ 0 1100.
Definition scaling_syn : list Z :=
  match emit_tcp_segment_with_options true peer here (mkControl peer_isn 0 SYN 65535) [4; 2; 3; 3; 7; 1; 1; 1] [] 64 7 with Ok p => p | _ => [] end.
Definition data_from (a b : Z) : TcpCall := CallIngest (from_peer (1 + a) ACK (sub long_stream a b)) true 0 usize_max.
Definition flow_token : TcpFlowToken := mkTcpFlowToken 0 1 0.

(** The state after the calls, and what they handed over. *)
Fixpoint run_calls (calls : list TcpCall) (s : tstate) (got : list Z) : tstate * list Z :=
  match calls with
  | [] => (s, got)
  | c :: calls =>
    let '(s', o) := call_table (Budget.budget Desktop) true (fun _ => 0) (fun _ => 0) (fun _ => 1000) (fun m => fst <$> map_to_list m) c s in
    run_calls calls s' (got ++ match o with Ok bytes => bytes | _ => [] end)
  end.
Definition run_scaled (calls : list TcpCall) : option (tstate * list Z) :=
  match tcp_new_on_shard 1 0 scaled_config with Ok t => Some (run_calls (CallIngest scaling_syn true 0 usize_max :: calls) (t, ledger_new) []) | _ => None end.

(** An ACK that overruns the announced window by nine bytes: the reader gets these
    twice. *)
Example final_ack_overrun_repeats_bytes :
  snd <$> run_scaled [data_from 0 1001; CallRead flow_token 2000; data_from 992 1100; CallRead flow_token 2000] =
  Some (sub long_stream 0 1001 ++ sub long_stream 992 1091).
Proof. vm_compute. reflexivity. Qed.

(** An ACK that overlaps data queued before it: the chunk stays below RCV.NXT and is
    still reported. *)
Example final_ack_overlap_stays_queued :
  (p ← run_scaled [data_from 20 30; data_from 0 40; CallRead flow_token 2000]; f ← t_by_key p.1.1 !! stream_key;
   Some (recv_next (f_tcb f), receive_sack_blocks f 4)) = Some (seq_add peer_isn 41, [(seq_add peer_isn 21, seq_add peer_isn 31)]).
Proof. vm_compute. reflexivity. Qed.
